(* ===== verification/_CoqProject ===== *)
-Q . S2P
Prelude.v
Types.v
TrieIface.v
TrieEncoding.v
TrieNode.v
Trie.v
TrieContents.v
TrieCorrect.v
TrieMap.v
TrieHash.v
TrieCommit.v
TrieRoot.v
StateObject.v
StateDB.v
StateView.v
StateRevert.v
StateInstance.v
StateHistory.v
StateFlush.v
StateDirty.v
StateFinalise.v
ManagedState.v
StateFrame.v
StateSim.v
Genesis.v
Bitutil.v
Bloom.v
Numerals.v
Hex.v
Json.v
Heap.v
TxList.v
TxOrder.v
Vm.v
Ledger.v
Processor.v
TxPool.v
TxPoolInv.v
TxPoolSteps.v
TxPoolLimits.v
TxPoolSpec.v
TxPoolReset.v
TxPoolClaims.v
Replay.v
Execution.v
Creation.v
BlockSpec.v
Keccak.v
KeccakSpec.v
Sponge.v
SpongeSpec.v
Signing.v
Block.v
Prque.v
FetchQueue.v
FetchInv.v
FetchKeep.v
FetchClaims.v
FetchSkeleton.v
Database.v
Lru.v
ChainDb.v
Engine.v
EngineBatch.v
ChainStore.v
BlockChain.v
ChainInv.v
ChainWrite.v
ChainReorg.v
ChainCommit.v
ChainImport.v
ChainOpen.v
ChainClaims.v
