(* ===== verification/Prelude.v ===== *)
(** * Verification of the mjoy-go node

    mjoy-go is a block chain node.  Transactions arrive in a pool, a producer
    packs them into blocks, and every node executes the blocks against an account
    state that is kept in Merkle-Patricia tries.  Balances are not part of the
    accounts: a built-in contract keeps them as values in contract storage.  This
    library models that path, from the byte encodings up to the execution of whole
    blocks, the signatures on them and the chain they form in the database, and
    proves that the layers fit together.  Paths below are relative to
    src/mjoy-go-master/src/mjoy.io.

    ** The parts and their files

    Foundations.
    - [Prelude]: results of Go calls ([outcome]: value, error, panic, out of fuel),
      machine integers as [Z] with explicit wrap-around, indexing, sort.Search.
    - [Types]: hashes, addresses, byte helpers (common/types).
    - [Numerals], [Json]: the parts of strconv, encoding/hex and encoding/json that
      the sources use; [Heap]: container/heap.
    - [Hex]: hex text forms (common/types/util/hex).
    - [Bitutil]: compression and bulk bit operations (common/bitutil).
    - [Bloom]: log filters and their rotation (common/types/bloom.go, utils/bloom).
    - [Keccak], [Sponge]: utils/crypto/sha3, the unrolled permutation, the sponge with its
      buffer and the hashes of utils/crypto built on it; [KeccakSpec], [SpongeSpec]: the
      standard they implement, on the cube of bits and on whole messages.

    Tries (trie/).
    - [TrieEncoding], [TrieNode], [Trie]: encoding.go, node.go and the reading,
      inserting and deleting of trie.go, with the loading of nodes from the database.
    - [TrieContents], [TrieCorrect], [TrieMap]: what a node stores, correctness of
      the operations, and the refinement to finite maps.
    - [TrieHash]: hasher.go and the hashing, committing and opening of trie.go;
      [TrieCommit], [TrieRoot]: that what is committed can be read again, and what the
      root hash says.
    - [TrieIface]: the interface through which the state uses a trie, with its laws.

    Account state (core/state/).
    - [StateObject], [StateDB]: state_object.go, statedb.go and journal.go as a state
      monad; [ManagedState]: managed_state.go.
    - [StateView], [StateRevert], [StateHistory]: what a state answers, and that
      reverting restores it; [StateFlush], [StateDirty], [StateFinalise]: that nothing
      is lost when changes are written to the tries; [StateFrame], [StateSim]: what
      operations leave alone, and two states that answer alike.
    - [StateInstance]: an environment in memory that satisfies the laws; [Genesis]:
      core/genesis.

    Transactions and blocks.
    - [Vm]: contract values in memory (core/sdk), the balance contract and the
      dispatch of actions (core/interpreter); [Ledger]: its specification on balances.
    - [Processor]: core/stateprocessor and the attempt of the producer to include a
      transaction (blockproducer/producer.go); [Execution], [Creation], [Replay],
      [BlockSpec]: what one transaction does, the creation of a contract, that a block
      replays as produced, and the specification of blocks.
    - [TxOrder]: the order in which the producer takes transactions
      (core/transaction/transaction.go).

    Transaction pool (core/txprocessor/).
    - [TxList]: tx_list.go; [TxPool]: tx_pool.go.
    - [TxPoolInv], [TxPoolSteps], [TxPoolLimits], [TxPoolReset], [TxPoolSpec]: the
      invariant and that every operation keeps it; [TxPoolClaims]: the pools that can be
      reached and what they guarantee.

    The chain (core/blockchain/, consensus/).
    - [Signing]: core/transaction/transaction_signing.go, the range checks of
      utils/crypto and the encoding of big integers; [Block]: core/blockchain/block,
      headers, derived roots, signatures of headers.
    - [Database], [Lru]: utils/database in memory and the cache library; [ChainDb]:
      db_operate.go, every record of the chain under its key; [ChainStore]: the records
      are independent of each other and of everything else in the database.
    - [Engine], [EngineBatch]: consensus/basic_engine.go, a header at a time and in
      parallel.
    - [BlockChain]: blockchain.go, headerChain.go and blockValidator.go as a state monad
      over the database, the heads and the caches.
    - [ChainInv], [ChainWrite], [ChainReorg], [ChainCommit], [ChainImport]: the invariant
      of a chain and that importing blocks keeps it; [ChainOpen]: genesis and restart;
      [ChainClaims]: the properties, and a chain on which they are evaluated.

    Synchronisation (node/services/mjoy/downloader/).
    - [Prque]: the priority queue library, a heap over a stack of blocks with [float32]
      priorities; [FetchQueue]: queue.go, one step per exported method, and the items a
      peer lacks (peer.go).
    - [FetchInv], [FetchKeep]: where each scheduled header is, and that every operation
      keeps count of it; [FetchClaims]: runs of the queue with bodies and receipts;
      [FetchSkeleton]: runs in which a skeleton of headers is filled.

    ** How the model relates to the code

    A definition carries the name of the function it translates.  A Go method is a
    function from the receiver (and what it reaches) to a result and a new receiver;
    [StateDB] and what is built on it use a state monad.  A nil dereference, an index
    out of range, a failed type assertion and an explicit panic are [Panic].  Maps are
    finite maps; where Go ranges over one, the model takes the order of [map_to_list]
    or [elements], or any order that is given to it.  Integers are kept at their width
    where the code can overflow.  Mutual exclusion is taken for granted: a method that
    holds its lock is one step.

    Parameters stand for what is not in the repository or not in Go source: the msgp
    codecs, the curve operations of signatures, and LevelDB.  The layers above [Sponge]
    take the hash function as a parameter as well: they rely on the length of its digests
    and, where a theorem says so, on hashes that do not collide.  The state layer
    takes the check of a signature as the field [msg_from], which [Signing] computes; the chain takes the execution of a block and the opening and committing of
    a state as the class [ChainExec].  What is assumed of parameters are the hypotheses
    of the theorems and the fields of the classes of laws ([TrieLaws], [StateEnvLaws],
    [CryptoLaws], [BlockLaws], [CodecLaws], [ExecLaws]); each has an instance on concrete
    data, and every property with a hypothesis has a witness.

    ** What the theorems show

    - Tries implement finite maps, and equal maps have equal shape (TrieMap); this holds
      across hashing, committing, unloading and reopening, and the root hash identifies
      the map (TrieRoot).
    - A snapshot can be returned to over any sequence of operations (StateHistory), and
      finalising writes exactly what the state answers (StateFinalise).
    - The contract, a transaction and a block implement specifications on nonces, code
      hashes and balances on every branch, errors and contract creations included, for
      nonces below the last one of 64 bits (Ledger, Execution, Creation, BlockSpec); what
      a block of successful transactions reached survives a restart (BlockSpec); a block
      replays as it was produced (Replay).
    - Pending transactions of the pool are executable in order, every operation returns on
      transactions that have a priority, the limits hold, a reorganisation brings back
      what it must (TxPoolClaims); the lists and the order under it do what the pool
      relies on, the account of the reward apart (TxList, TxOrder).
    - Signatures of transactions and headers are attributed to their key and to no other
      chain, but for chain id zero (Signing, Block); the parallel verification of headers delivers every verdict
      in order under every interleaving (EngineBatch).
    - Importing blocks, with reorganisations, returns and keeps the chain consistent;
      restarting gives the same chain; the genesis starts one; the canonical numbers are
      a line of blocks (ChainClaims).
    - The hash is the one of the standard: the unrolled permutation is Keccak-f[1600]
      (KeccakSpec), and the sponge gives the digest of the whole input however writes and
      reads are split (SpongeSpec).
    - The download queue returns the scheduled headers once each, in order, with contents
      that match their roots; it returns all of them as long as no reservation fails, and
      none fails as long as numbers are below 2^24 and not negative (FetchClaims); a skeleton fills up to a linked chain whatever
      peers answer (FetchSkeleton).
    - Encodings round trip and decoders accept exactly what they should (TrieEncoding,
      Bitutil, Hex, Bloom, Json).

    ** Fuel

    Loops without structural recursion take fuel that the definitions compute
    themselves: the length of the key for the trie, the length of the heap or list for
    the loops of the pool, the number of the block for a walk to an ancestor, the
    height for a reorganisation, the length of the input or output for the sponge, the
    length of the task queue for a reservation.  The theorems about these functions
    conclude that they return, so the fuel suffices.

    ** What is not modelled

    - Networking, RPC, discovery, NAT, the node's life cycle and command line: sockets,
      goroutines and wiring.
    - Curves (secp256k1, bn256), the assembly version of the permutation and generated
      msgp codecs: parameters, as said above.
    - Key files and wallets; LevelDB; logging and metrics.
    - The select loops of the pool, of the producer and of the chain (its queue of future
      blocks is processed by a step of its own); locks, but for the one that is taken
      twice; the file of the pool's journal.
    - The goroutines of the downloader that drive its queue, the synchronisation of
      states, and the measuring of peers; fetcher, filters and the chain indexer.
    - [CommitTo] of the state: that the bytes of a trie reach the database is not shown;
      a state is reopened from the root that the in-memory trie has. *)

From stdpp Require Import base list gmap numbers option sorting.
From Stdlib Require Import Lia.

#[global] Open Scope Z_scope.

(** Divisions, shifts and powers are rewritten with their lemmas, never by
    computation on open terms. *)
#[global] Arguments Nat.div : simpl never.
#[global] Arguments Nat.modulo : simpl never.
#[global] Arguments Z.div : simpl never.
#[global] Arguments Z.modulo : simpl never.
#[global] Arguments Z.pow : simpl never.
#[global] Arguments Z.mul : simpl never.
#[global] Arguments Z.add : simpl never.
#[global] Arguments Z.sub : simpl never.
#[global] Arguments Z.of_nat : simpl never.
#[global] Arguments Z.to_nat : simpl never.

(** ** Results of Go calls

    A Go call returns a value, returns an [error], panics, or, for the
    recursive functions whose recursion is not structural, runs out of the
    fuel the model gives it. *)

Inductive outcome (E A : Type) : Type :=
| Ok (a : A)
| Err (e : E)
| Panic
| OutOfFuel.

Arguments Ok {_ _} _.
Arguments Err {_ _} _.
Arguments Panic {_ _}.
Arguments OutOfFuel {_ _}.

#[export] Instance outcome_ret {E} : MRet (outcome E) := fun A a => Ok a.
#[export] Instance outcome_bind {E} : MBind (outcome E) := fun A B f m =>
  match m with
  | Ok a => f a
  | Err e => Err e
  | Panic => Panic
  | OutOfFuel => OutOfFuel
  end.

Lemma outcome_bind_Ok {E A B} (m : outcome E A) (f : A -> outcome E B) (b : B) :
  m ≫= f = Ok b <-> exists a, m = Ok a /\ f a = Ok b.
Proof.
  split.
  - destruct m; simpl; intros H; try discriminate. by exists a.
  - intros (a & -> & H). exact H.
Qed.

(** [of_index o]: a slice or array access, which panics out of range. *)
Definition of_index {E A} (o : option A) : outcome E A :=
  match o with Some a => Ok a | None => Panic end.

Lemma of_index_Ok {E A} (o : option A) (a : A) :
  (of_index o : outcome E A) = Ok a <-> o = Some a.
Proof. destruct o; simpl; split; congruence. Qed.

(** ** Machine integers *)

(** A Go [byte] is a [Z] in [0, 256); [wrap w z] is what a [w]-bit unsigned
    integer keeps of [z]. *)
Abbreviation byte := Z (only parsing).

Definition wrap (w z : Z) : Z := z mod 2 ^ w.

Definition byte_ok (b : Z) : Prop := 0 <= b < 256.
Definition u16 (z : Z) : Z := wrap 16 z.
Definition u64 (z : Z) : Z := wrap 64 z.

Lemma wrap_range w z : 0 <= w -> 0 <= wrap w z < 2 ^ w.
Proof. intros. apply Z.mod_pos_bound. by apply Z.pow_pos_nonneg. Qed.

Lemma wrap_small w z : 0 <= z < 2 ^ w -> wrap w z = z.
Proof. apply Z.mod_small. Qed.

(** ** Indexing by a machine integer *)

(** [zget l i] is [l[i]] of Go: [None] is the run-time panic. *)
Definition zget {A} (l : list A) (i : Z) : option A :=
  if (i <? 0) then None else l !! Z.to_nat i.

(** [zset l i x] is [l[i] = x]. *)
Definition zset {A} (l : list A) (i : Z) (x : A) : list A := <[Z.to_nat i := x]> l.

Lemma zget_lookup {A} (l : list A) i : 0 <= i -> zget l i = l !! Z.to_nat i.
Proof. intros. unfold zget. destruct (Z.ltb_spec i 0); [lia|done]. Qed.

Lemma zget_zset_eq {A} (l : list A) i x :
  0 <= i < Z.of_nat (length l) -> zget (zset l i x) i = Some x.
Proof. intros. rewrite zget_lookup by lia. apply list_lookup_insert_eq. lia. Qed.

Lemma zget_zset_ne {A} (l : list A) i j x :
  0 <= i -> i <> j -> zget (zset l i x) j = zget l j.
Proof.
  intros. unfold zget, zset. destruct (Z.ltb_spec j 0); [done|].
  apply list_lookup_insert_ne. lia.
Qed.

Lemma zget_Some_range {A} (l : list A) i x :
  zget l i = Some x -> 0 <= i < Z.of_nat (length l).
Proof.
  unfold zget. destruct (Z.ltb_spec i 0); [done|].
  intros Hl%lookup_lt_Some. lia.
Qed.

(** ** sort.Search of the Go standard library *)

(** [for i < j { h := (i+j)/2; if !f(h) { i = h+1 } else { j = h } }].  Every
    iteration shortens the interval, so [n] iterations are enough. *)
Fixpoint search_loop (fuel i j : nat) (f : nat -> bool) : nat :=
  match fuel with
  | O => i
  | S fuel =>
      if (i <? j)%nat then
        let h := ((i + j) / 2)%nat in
        if f h then search_loop fuel i h f else search_loop fuel (h + 1) j f
      else i
  end.

Definition search (n : nat) (f : nat -> bool) : nat := search_loop n 0 n f.

Lemma half_between (i j : nat) : (i < j)%nat -> (i <= (i + j) / 2 < j)%nat.
Proof.
  intros H. pose proof (Nat.div_mod_eq (i + j) 2). pose proof (Nat.mod_upper_bound (i + j) 2). lia.
Qed.

Lemma search_loop_spec fuel i j n f :
  (forall a b, (a <= b < n)%nat -> f a = true -> f b = true) ->
  (j - i <= fuel)%nat -> (i <= j <= n)%nat ->
  (forall a, (a < i)%nat -> f a = false) -> ((j < n)%nat -> f j = true) ->
  let r := search_loop fuel i j f in
  (i <= r <= j)%nat /\ (forall a, (a < r)%nat -> f a = false) /\ ((r < n)%nat -> f r = true).
Proof.
  intros Hmono. revert i j. induction fuel as [|fuel IH]; intros i j Hfuel Hij Hlow Hhigh; simpl.
  - assert (i = j) as -> by lia. split; [lia|auto].
  - destruct (Nat.ltb_spec i j) as [Hlt|]; [|assert (i = j) as -> by lia; split; [lia|auto]].
    pose proof (half_between i j Hlt) as Hh.
    destruct (f ((i + j) / 2)%nat) eqn:Ef.
    + destruct (IH i ((i + j) / 2)%nat) as (? & ? & ?); [lia|lia|done|done|]. split; [lia|auto].
    + destruct (IH ((i + j) / 2 + 1)%nat j) as (? & ? & ?); [lia|lia| |done|split; [lia|auto]].
      intros a Ha. destruct (f a) eqn:Ea; [|done].
      rewrite (Hmono a ((i + j) / 2)%nat) in Ef; [done|lia|done].
Qed.

(** The smallest index at which a monotone test succeeds. *)
Lemma search_spec n f :
  (forall a b, (a <= b < n)%nat -> f a = true -> f b = true) ->
  (search n f <= n)%nat /\ (forall a, (a < search n f)%nat -> f a = false) /\
  ((search n f < n)%nat -> f (search n f) = true).
Proof.
  intros Hmono. destruct (search_loop_spec n 0 n n f) as (? & ? & ?); [done|lia|lia|lia|lia|].
  split; [|done]. unfold search. lia.
Qed.

(** ** Sorted lists *)

Lemma StronglySorted_lookup {A} (R : A -> A -> Prop) l i j x y : StronglySorted R l ->
  (i < j)%nat -> l !! i = Some x -> l !! j = Some y -> R x y.
Proof.
  intros Hs. revert i j. induction Hs as [|z l Hs IH Hall]; intros i j Hij Hi Hj; [done|].
  destruct j as [|j]; [lia|]. destruct i as [|i]; simpl in *.
  - simplify_eq. rewrite Forall_forall in Hall. apply Hall. by apply list_elem_of_lookup_2 in Hj.
  - apply (IH i j); [lia|done..].
Qed.

Lemma StronglySorted_snoc {A} (R : A -> A -> Prop) l x : StronglySorted R l ->
  Forall (fun y => R y x) l -> StronglySorted R (l ++ [x]).
Proof.
  induction 1 as [|z l Hs IH Hall]; simpl; intros Hx; [by repeat constructor|].
  apply Forall_cons in Hx as [Hz Hx]. constructor; [by apply IH|].
  apply Forall_app. split; [done|by repeat constructor].
Qed.

(** ** Filters that keep everything *)

Lemma filter_all {A} (P : A -> Prop) `{!forall x, Decision (P x)} (l : list A) : (forall x, x ∈ l -> P x) -> filter P l = l.
Proof.
  induction l as [|x l IH]; intros Hp; [done|]. rewrite filter_cons, decide_True by (apply Hp, list_elem_of_here).
  f_equal. apply IH. intros y Hy. apply Hp. by apply list_elem_of_further.
Qed.
