(* ===== verification/Types.v ===== *)
(** * Fixed-size byte types (common/types, common/types/util)

    [Hash] and [Address] are byte arrays of 32 and 20 bytes; both are set from a
    byte slice by keeping its last bytes and padding on the left.  Byte helpers
    of util/bytes.go. *)

From stdpp Require Import base list numbers option.
From S2P Require Import Prelude.

Abbreviation Hash := (list byte) (only parsing).
Abbreviation Address := (list byte) (only parsing).

Definition HashLength : nat := 32.
Definition AddressLength : nat := 20.

(** The zero values [types.Hash{}] and [types.Address{}]. *)
Definition zeroHash : Hash := replicate HashLength 0.
Definition zeroAddress : Address := replicate AddressLength 0.

(** [copy(dst[off:], src)]: overwrite from [off], as far as both reach. *)
Definition copy_at (dst : list byte) (off : nat) (src : list byte) : list byte :=
  take off dst ++ take (length dst - off) src ++ drop (off + length src) dst.

(** [SetBytes] of a fixed array of [n] bytes currently holding [old]. *)
Definition setBytes (n : nat) (old b : list byte) : list byte :=
  let b := if (n <? length b)%nat then drop (length b - n) b else b in
  copy_at old (n - length b) b.

Definition Hash_SetBytes (h b : list byte) : Hash := setBytes HashLength h b.
Definition Address_SetBytes (a b : list byte) : Address := setBytes AddressLength a b.
Definition BytesToHash (b : list byte) : Hash := Hash_SetBytes zeroHash b.
Definition BytesToAddress (b : list byte) : Address := Address_SetBytes zeroAddress b.

(** [UnmarshalBinary]: an over-long slice is [ErrBytesTooLong] ([None]). *)
Definition Hash_UnmarshalBinary (h b : list byte) : option Hash :=
  if (length b <=? HashLength)%nat then Some (BytesToHash b) else None.
Definition Address_UnmarshalBinary (a b : list byte) : option Address :=
  if (length b <=? AddressLength)%nat then Some (copy_at a 0 b) else None.

(** [make([]byte, l)] filled from the left or from the right. *)
Definition RightPadBytes (slice : list byte) (l : nat) : list byte :=
  if (l <=? length slice)%nat then slice else copy_at (replicate l 0) 0 slice.
Definition LeftPadBytes (slice : list byte) (l : nat) : list byte :=
  if (l <=? length slice)%nat then slice else copy_at (replicate l 0) (l - length slice) slice.

(** ** Big-endian values *)

Definition be (bs : list byte) : Z := fold_left (fun a b => a * 256 + b) bs 0.

Lemma be_acc bs a : fold_left (fun a b => a * 256 + b) bs a = a * 256 ^ Z.of_nat (length bs) + be bs.
Proof.
  revert a. unfold be. induction bs as [|b bs IH]; intros a; simpl; [lia|].
  rewrite IH, (IH (0 * 256 + b)). rewrite Nat2Z.inj_succ, Z.pow_succ_r by lia. lia.
Qed.

Lemma be_app xs ys : be (xs ++ ys) = be xs * 256 ^ Z.of_nat (length ys) + be ys.
Proof. unfold be at 1. rewrite fold_left_app. apply be_acc. Qed.

Lemma be_zeros n : be (replicate n 0) = 0.
Proof. induction n as [|n IH]; [done|]. change (replicate (S n) 0) with ([0] ++ replicate n 0). by rewrite be_app, IH. Qed.

Lemma be_bound bs : Forall byte_ok bs -> 0 <= be bs < 256 ^ Z.of_nat (length bs).
Proof.
  induction bs as [|b bs IH] using rev_ind; [done|].
  intros [Hbs Hb]%Forall_app. inversion_clear Hb as [|? ? Hb' _]. unfold byte_ok in Hb'.
  rewrite be_app, length_app. simpl. rewrite Nat2Z.inj_add, Z.pow_add_r by lia.
  specialize (IH Hbs). change (be [b]) with (0 * 256 + b). change (256 ^ Z.of_nat 1) with 256. nia.
Qed.

(** [big.Int.Bytes]: the shortest big-endian form; [v] has at most [log2 v + 1] bytes. *)
Fixpoint to_bytes (fuel : nat) (v : Z) (acc : list byte) : list byte :=
  match fuel with
  | O => acc
  | S fuel => if v <=? 0 then acc else to_bytes fuel (v / 256) (v mod 256 :: acc)
  end.

Definition big_Bytes (v : Z) : list byte := to_bytes (S (Z.to_nat (Z.log2 v))) v [].

Lemma to_bytes_be fuel : forall v acc, 0 <= v < 2 ^ Z.of_nat fuel ->
  be (to_bytes fuel v acc) = v * 256 ^ Z.of_nat (length acc) + be acc /\
  (Forall byte_ok acc -> Forall byte_ok (to_bytes fuel v acc)).
Proof.
  induction fuel as [|fuel IH]; intros v acc Hv; simpl.
  { change (2 ^ Z.of_nat 0) with 1 in Hv. split; [|done]. replace v with 0 by lia. lia. }
  destruct (Z.leb_spec v 0) as [Hz|Hz]; [split; [|done]; replace v with 0 by lia; lia|].
  rewrite Nat2Z.inj_succ, Z.pow_succ_r in Hv by lia.
  pose proof (Z.div_mod v 256 ltac:(lia)) as Hdm. pose proof (Z.mod_pos_bound v 256 ltac:(lia)) as Hm.
  destruct (IH (v / 256) (v mod 256 :: acc)) as [Hb Hf]; [split; [apply Z.div_pos; lia|apply Z.div_lt_upper_bound; lia]|].
  split.
  - rewrite Hb. simpl length. rewrite Nat2Z.inj_succ, Z.pow_succ_r by lia.
    change (v mod 256 :: acc) with ([v mod 256] ++ acc). rewrite be_app. change (be [v mod 256]) with (0 * 256 + v mod 256). nia.
  - intros Ha. apply Hf. constructor; [exact Hm|done].
Qed.

Lemma big_Bytes_spec v : 0 <= v -> be (big_Bytes v) = v /\ Forall byte_ok (big_Bytes v).
Proof.
  intros Hv. destruct (to_bytes_be (S (Z.to_nat (Z.log2 v))) v []) as [Hb Hf].
  - split; [done|]. destruct (decide (v = 0)) as [->|]; [done|].
    pose proof (Z.log2_spec v ltac:(lia)). pose proof (Z.log2_nonneg v).
    replace (Z.of_nat (S (Z.to_nat (Z.log2 v)))) with (Z.succ (Z.log2 v)) by lia. lia.
  - split; [|apply Hf; constructor]. unfold big_Bytes. rewrite Hb. simpl. change (be []) with 0. lia.
Qed.

Lemma to_bytes_length fuel : forall v acc n, 0 <= v < 256 ^ Z.of_nat n -> (length (to_bytes fuel v acc) <= n + length acc)%nat.
Proof.
  induction fuel as [|fuel IH]; intros v acc n Hv; simpl; [lia|]. destruct (Z.leb_spec v 0); [lia|].
  destruct n as [|n]; [change (256 ^ Z.of_nat 0) with 1 in Hv; lia|].
  rewrite Nat2Z.inj_succ, Z.pow_succ_r in Hv by lia.
  etransitivity; [apply (IH _ _ n); split; [apply Z.div_pos; lia|apply Z.div_lt_upper_bound; lia]|]. simpl. lia.
Qed.

Lemma big_Bytes_length v n : 0 <= v < 256 ^ Z.of_nat n -> (length (big_Bytes v) <= n)%nat.
Proof. intros Hv. unfold big_Bytes. etransitivity; [by apply (to_bytes_length _ v [] n)|]. simpl. lia. Qed.

(** ** Shape of the fixed-size setters *)

Lemma copy_at_full n old b : length old = n -> (length b <= n)%nat ->
  copy_at old (n - length b) b = take (n - length b) old ++ b.
Proof.
  intros Hn Hb. unfold copy_at. rewrite Hn. rewrite (take_ge b) by lia.
  rewrite (drop_ge old) by lia. by rewrite app_nil_r.
Qed.

Lemma setBytes_eq n old b : length old = n ->
  setBytes n old b = take (n - length b) old ++ drop (length b - n) b.
Proof.
  intros Hn. unfold setBytes. destruct (Nat.ltb_spec n (length b)) as [Hlt|Hge].
  - rewrite copy_at_full; rewrite ?length_drop; try lia.
    by replace (n - (length b - (length b - n)))%nat with (n - length b)%nat by lia.
  - rewrite copy_at_full by lia. by replace (length b - n)%nat with 0%nat by lia.
Qed.

Lemma setBytes_length n old b : length old = n -> length (setBytes n old b) = n.
Proof. intros Hn. rewrite setBytes_eq, length_app, length_take, length_drop by done. lia. Qed.

Lemma BytesToHash_eq b : BytesToHash b = replicate (32 - length b) 0 ++ drop (length b - 32) b.
Proof.
  unfold BytesToHash, Hash_SetBytes. rewrite setBytes_eq by done.
  unfold zeroHash, HashLength. by rewrite take_replicate, Nat.min_l by lia.
Qed.

Lemma BytesToHash_length b : length (BytesToHash b) = 32%nat.
Proof. by apply setBytes_length. Qed.

Lemma BytesToHash_id b : length b = 32%nat -> BytesToHash b = b.
Proof. intros H. rewrite BytesToHash_eq, H. done. Qed.

Lemma be_drop n b : Forall byte_ok b -> (n <= length b)%nat ->
  be (drop n b) = be b mod 256 ^ Z.of_nat (length b - n).
Proof.
  intros Hb Hn. rewrite <- (take_drop n b) at 2. rewrite be_app, length_drop.
  rewrite Z.add_comm, Z.mod_add by lia. symmetry. apply Z.mod_small.
  rewrite <- length_drop. apply be_bound. by apply Forall_drop.
Qed.

(** a hash or address built from a byte slice always has its fixed length
    and holds the big-endian value of the slice modulo 2^256 (2^160): shorter
    slices are padded and longer ones cropped on the left. *)
Theorem fixed_bytes_value (b : list byte) (Hb : Forall byte_ok b) :
  length (BytesToHash b) = 32%nat /\ be (BytesToHash b) = be b mod 2 ^ 256 /\
  length (BytesToAddress b) = 20%nat /\ be (BytesToAddress b) = be b mod 2 ^ 160.
Proof.
  assert (forall n, length (setBytes n (replicate n 0) b) = n /\
            be (setBytes n (replicate n 0) b) = be b mod 256 ^ Z.of_nat n) as H.
  { intros n. split; [apply setBytes_length, length_replicate|].
    rewrite setBytes_eq by apply length_replicate.
    rewrite take_replicate, be_app, be_zeros, Z.mul_0_l, Z.add_0_l.
    destruct (decide (length b <= n)%nat) as [Hle|Hgt].
    - replace (length b - n)%nat with 0%nat by lia. rewrite drop_0. symmetry. apply Z.mod_small.
      pose proof (be_bound b Hb). split; [lia|].
      apply Z.lt_le_trans with (256 ^ Z.of_nat (length b)); [lia|]. apply Z.pow_le_mono_r; lia.
    - rewrite be_drop by (done || lia). do 3 f_equal. lia. }
  destruct (H 32%nat) as [H1 H2], (H 20%nat) as [H3 H4]. repeat split; assumption.
Qed.

Lemma fixed_bytes_value_witness : Forall byte_ok [1; 2] /\
  length (BytesToHash [1; 2]) = 32%nat /\ be (BytesToHash [1; 2]) = be [1; 2] mod 2 ^ 256 /\
  length (BytesToAddress [1; 2]) = 20%nat /\ be (BytesToAddress [1; 2]) = be [1; 2] mod 2 ^ 160.
Proof.
  assert (Forall byte_ok [1; 2]) as H
    by (repeat (apply List.Forall_cons; [unfold byte_ok; lia|]); apply List.Forall_nil).
  split; [exact H|]. exact (fixed_bytes_value [1; 2] H).
Defined.

(** [SetBytes] of an address crops a slice that is too long; it does not panic. *)
Example Address_SetBytes_crops :
  Address_SetBytes zeroAddress (7 :: replicate 20 1) = replicate 20 1.
Proof. reflexivity. Qed.

(** [UnmarshalBinary] aligns a short slice on the left for an address and on the
    right for a hash. *)
Example Unmarshal_alignment :
  Address_UnmarshalBinary zeroAddress [1] = Some (1 :: replicate 19 0) /\
  Hash_UnmarshalBinary zeroHash [1] = Some (replicate 31 0 ++ [1]).
Proof. by split. Qed.
