(* ===== verification/TrieIface.v ===== *)
(** * What the state layer asks of a trie (core/state/database.go)

    The [Trie] interface of core/state as a type class of operations, and its
    laws: a trie in good standing answers from a fixed map, updates and
    deletions change one key, and neither fails. *)

From stdpp Require Import base list gmap numbers option.
From S2P Require Import Prelude Types.

(** [E]: the errors a trie reports.  Operations return the trie as they leave
    it, because reads load nodes and hashing caches hashes. *)
Class TrieOps (E T : Type) : Type := {
  tGet : T -> list byte -> outcome E (option (list byte)) * T;
  tUpdate : T -> list byte -> list byte -> outcome E unit * T;
  tDelete : T -> list byte -> outcome E unit * T;
  tHash : T -> Hash * T;
}.

(** What a read returns, as a function of the trie. *)
Definition t_view {E T} `{TrieOps E T} (t : T) (k : list byte) : option (list byte) :=
  match fst (tGet t k) with Ok v => v | _ => None end.

Class TrieLaws (E T : Type) `{TrieOps E T} : Type := {
  t_ok : T -> Prop;
  tGet_ok t k : t_ok t ->
    exists t', tGet t k = (Ok (t_view t k), t') /\ t_ok t' /\ forall k', t_view t' k' = t_view t k';
  tUpdate_ok t k v : t_ok t ->
    exists t', tUpdate t k v = (Ok (), t') /\ t_ok t' /\
      forall k', t_view t' k' =
        if decide (k' = k) then (if decide (v = []) then None else Some v) else t_view t k';
  tDelete_ok t k : t_ok t ->
    exists t', tDelete t k = (Ok (), t') /\ t_ok t' /\
      forall k', t_view t' k' = if decide (k' = k) then None else t_view t k';
  tHash_ok t : t_ok t ->
    length (fst (tHash t)) = 32%nat /\ t_ok (snd (tHash t)) /\ forall k, t_view (snd (tHash t)) k = t_view t k;
}.
