(* ===== verification/TrieEncoding.v ===== *)
(** * Trie key encodings (trie/encoding.go)

    The three encodings of a trie key: KEYBYTES, HEX (one byte per nibble, with
    an optional terminator 16) and COMPACT (the on-disk form).  An index out of
    range and the explicit [panic] of [hexToKeybytes] are [None]. *)

From stdpp Require Import base list numbers option.
From S2P Require Import Prelude.

(** ** Definitions *)

Definition hasTerm (s : list byte) : bool :=
  (0 <? Z.of_nat (length s)) && bool_decide (list.last s = Some 16).

(** The loop of [decodeNibbles]: [bytes[bi] = nibbles[ni]<<4 | nibbles[ni+1]]. *)
Fixpoint decodeNibbles (nibbles bytes : list byte) : option (list byte) :=
  match nibbles with
  | [] => Some bytes
  | [_] => None
  | n0 :: n1 :: nibbles' =>
      match bytes with
      | [] => None
      | _ :: bytes' =>
          rest ← decodeNibbles nibbles' bytes';
          Some (Z.lor (wrap 8 (Z.shiftl n0 4)) n1 :: rest)
      end
  end.

Definition hexToCompact (hex : list byte) : option (list byte) :=
  let '(terminator, hex) :=
    if hasTerm hex then (1, take (length hex - 1) hex) else (0, hex) in
  let buf := replicate (length hex / 2 + 1) 0 in
  let buf0 := wrap 8 (Z.shiftl terminator 5) in
  '(buf0, hex) ←
    (if Z.land (Z.of_nat (length hex)) 1 =? 1
     then h0 ← head hex;
          Some (Z.lor (Z.lor buf0 (Z.shiftl 1 4)) h0, drop 1 hex)
     else Some (buf0, hex));
  rest ← decodeNibbles hex (drop 1 buf);
  Some (buf0 :: rest).

(** [b / 16] and [b % 16] for every byte, then the terminator. *)
Definition keybytesToHex (str : list byte) : list byte :=
  (str ≫= fun b => [b / 16; b mod 16]) ++ [16].

Definition compactToHex (compact : list byte) : option (list byte) :=
  let base := keybytesToHex compact in
  let base := take (length base - 1) base in
  b0 ← head base;
  let base := if 2 <=? b0 then base ++ [16] else base in
  let chop := 2 - Z.land b0 1 in
  Some (drop (Z.to_nat chop) base).

Definition hexToKeybytes (hex : list byte) : option (list byte) :=
  let hex := if hasTerm hex then take (length hex - 1) hex else hex in
  if Z.land (Z.of_nat (length hex)) 1 =? 0
  then decodeNibbles hex (replicate ((length hex + 1) / 2) 0)
  else None.

Fixpoint prefixLen (a b : list byte) : nat :=
  match a, b with
  | x :: a', y :: b' => if x =? y then S (prefixLen a' b') else 0
  | _, _ => 0
  end.

(** ** Well-formed keys *)

Definition nibble (x : byte) : Prop := 0 <= x < 16.

(** A hex key: nibbles, then the terminator when [t] is set. *)
Definition hexkey (t : bool) (ns : list byte) : list byte :=
  if t then ns ++ [16] else ns.

(** Pairs of nibbles packed into bytes: what [decodeNibbles] writes. *)
Fixpoint packs (ns : list byte) : list byte :=
  match ns with
  | n0 :: n1 :: ns' => n0 * 16 + n1 :: packs ns'
  | _ => []
  end.

(** ** Arithmetic of nibbles *)

Lemma lor_nibble n0 n1 : nibble n0 -> nibble n1 ->
  Z.lor (wrap 8 (Z.shiftl n0 4)) n1 = n0 * 16 + n1.
Proof.
  intros H0 H1. unfold nibble in *. rewrite Z.shiftl_mul_pow2 by lia.
  rewrite wrap_small by (change (2 ^ 8) with 256; lia).
  enough (Z.land (n0 * 2 ^ 4) n1 = 0) as Hland
    by (pose proof (Z.add_lor_land (n0 * 2 ^ 4) n1); lia).
  apply Z.bits_inj_0. intros k. rewrite Z.land_spec.
  destruct (Z.lt_ge_cases k 4).
  - by rewrite Z.mul_pow2_bits_low.
  - rewrite (Z.bits_above_log2 n1), andb_false_r; [done|lia|].
    destruct (Z.eq_dec n1 0) as [->|]; [cbn; lia|].
    enough (Z.log2 n1 < 4) by lia. apply Z.log2_lt_pow2; lia.
Qed.

Lemma land_1_odd n : Z.land n 1 = if Z.odd n then 1 else 0.
Proof.
  change 1 with (Z.ones 1). rewrite Z.land_ones by lia.
  change (2 ^ 1) with 2. apply Zmod_odd.
Qed.

(** Induction on lists two elements at a time. *)
Lemma pairs_ind (P : list byte -> Prop) :
  P [] -> (forall x, P [x]) ->
  (forall x y l, P l -> P (x :: y :: l)) -> forall l, P l.
Proof.
  intros Hnil H1 H2 l.
  cut (P l /\ forall x, P (x :: l)); [tauto|].
  induction l as [|y l [IH1 IH2]]; split; auto.
Qed.

(** ** Behaviour of the nibble loop *)

Lemma decodeNibbles_packs ns buf :
  Forall nibble ns -> Z.odd (Z.of_nat (length ns)) = false ->
  length buf = Nat.div2 (length ns) ->
  decodeNibbles ns buf = Some (packs ns).
Proof.
  revert buf. induction ns as [|x|x y ns IH] using pairs_ind; intros buf Hn Hodd Hlen.
  - destruct buf; [done|discriminate].
  - discriminate.
  - inversion_clear Hn as [|? ? Hx Hn']. inversion_clear Hn' as [|? ? Hy Hns].
    destruct buf as [|b buf]; [discriminate|]. simpl in Hlen.
    simpl. rewrite IH; [|done| |lia].
    + simpl. by rewrite lor_nibble.
    + rewrite <- Hodd. simpl length.
      replace (Z.of_nat (S (S (length ns)))) with (Z.of_nat (length ns) + 2 * 1) by lia.
      by rewrite Z.odd_add_mul_2.
Qed.

Lemma keybytesToHex_cons b str :
  keybytesToHex (b :: str) = b / 16 :: b mod 16 :: keybytesToHex str.
Proof. reflexivity. Qed.

Lemma keybytesToHex_packs ns :
  Forall nibble ns -> Z.odd (Z.of_nat (length ns)) = false ->
  keybytesToHex (packs ns) = ns ++ [16].
Proof.
  induction ns as [|x|x y ns IH] using pairs_ind; intros Hn Hodd; [done|discriminate|].
  inversion_clear Hn as [|? ? Hx Hn']. inversion_clear Hn' as [|? ? Hy Hns].
  unfold nibble in *. simpl packs. rewrite keybytesToHex_cons, IH; [|done|].
  - simpl. f_equal; [|f_equal].
    + symmetry. apply Z.div_unique with y; lia.
    + symmetry. apply Z.mod_unique with x; lia.
  - rewrite <- Hodd. simpl length.
    replace (Z.of_nat (S (S (length ns)))) with (Z.of_nat (length ns) + 2 * 1) by lia.
    by rewrite Z.odd_add_mul_2.
Qed.

(** ** Terminators *)

Lemma nibbles_no_term ns : Forall nibble ns -> hasTerm ns = false.
Proof.
  intros Hn. unfold hasTerm. apply andb_false_iff. right.
  apply bool_decide_eq_false. intros Hl.
  apply last_Some in Hl as [l ->]. apply Forall_app in Hn as [_ Hn].
  inversion_clear Hn as [|? ? H16 _]. unfold nibble in H16. lia.
Qed.

Lemma hasTerm_snoc ns : hasTerm (ns ++ [16]) = true.
Proof.
  unfold hasTerm. rewrite last_snoc, length_app. simpl.
  by rewrite (proj2 (Z.ltb_lt _ _)) by lia.
Qed.

Lemma take_snoc_all (ns : list byte) x : take (length (ns ++ [x]) - 1) (ns ++ [x]) = ns.
Proof.
  rewrite length_app. simpl. replace (length ns + 1 - 1)%nat with (length ns) by lia.
  apply take_app_length.
Qed.

Lemma strip_term t ns : Forall nibble ns ->
  (if hasTerm (hexkey t ns)
   then (1, take (length (hexkey t ns) - 1) (hexkey t ns))
   else (0, hexkey t ns)) = (if t then 1 else 0, ns).
Proof.
  intros Hn. destruct t; simpl hexkey.
  - by rewrite hasTerm_snoc, take_snoc_all.
  - by rewrite nibbles_no_term.
Qed.

(** ** The compact form, in closed form *)

Definition flag (t : bool) : Z := if t then 32 else 0.

Lemma length_div2 (ns : list byte) : length (drop 1 (replicate (length ns / 2 + 1) 0)) = Nat.div2 (length ns).
Proof. rewrite length_drop, length_replicate, Nat.div2_div. lia. Qed.

Lemma hexToCompact_even t ns :
  Forall nibble ns -> Z.odd (Z.of_nat (length ns)) = false ->
  hexToCompact (hexkey t ns) = Some (flag t :: packs ns).
Proof.
  intros Hn Hodd. unfold hexToCompact. rewrite strip_term by done.
  rewrite land_1_odd, Hodd. simpl mbind.
  rewrite decodeNibbles_packs by (done || apply length_div2).
  by destruct t.
Qed.

Lemma hexToCompact_odd t n0 ns :
  nibble n0 -> Forall nibble ns -> Z.odd (Z.of_nat (length ns)) = false ->
  hexToCompact (hexkey t (n0 :: ns)) = Some (flag t + 16 + n0 :: packs ns).
Proof.
  intros H0 Hn Hodd. unfold hexToCompact. rewrite strip_term by (by constructor).
  rewrite land_1_odd. replace (Z.odd (Z.of_nat (length (n0 :: ns)))) with true.
  2: { simpl length. replace (Z.of_nat (S (length ns))) with (Z.succ (Z.of_nat (length ns))) by lia.
       by rewrite Z.odd_succ, <- Z.negb_odd, Hodd. }
  simpl head. simpl mbind. rewrite drop_0, decodeNibbles_packs; [|done|done|].
  - simpl. f_equal. f_equal.
    assert (Hor : forall m, Z.lor (m * 16) n0 = m * 16 + n0 \/ ~ nibble m).
    { intros m. destruct (decide (0 <= m < 16)) as [Hm|]; [left|right; unfold nibble; lia].
      rewrite <- lor_nibble by done. rewrite Z.shiftl_mul_pow2 by lia.
      rewrite wrap_small; [done|]. change (2 ^ 8) with 256. lia. }
    destruct t; simpl flag; [change (Z.lor _ (Z.shiftl 1 4)) with (3 * 16)
                            |change (Z.lor _ (Z.shiftl 1 4)) with (1 * 16)].
    + destruct (Hor 3) as [->|Hc]; [lia|destruct Hc; split; lia].
    + destruct (Hor 1) as [->|Hc]; [lia|destruct Hc; split; lia].
  - rewrite length_drop, length_replicate. simpl length.
    rewrite Nat.div2_div.
    rewrite <- Z.negb_even in Hodd. apply negb_false_iff, Z.even_spec in Hodd as [k Hk].
    pose proof (Nat.div_mod_eq (length ns) 2). pose proof (Nat.div_mod_eq (S (length ns)) 2).
    pose proof (Nat.mod_upper_bound (length ns) 2). pose proof (Nat.mod_upper_bound (S (length ns)) 2).
    lia.
Qed.

(** Every nibble list is even, or one nibble followed by an even list. *)
Lemma parity_cases (ns : list byte) :
  Z.odd (Z.of_nat (length ns)) = false \/
  exists n0 ns', ns = n0 :: ns' /\ Z.odd (Z.of_nat (length ns')) = false.
Proof.
  destruct (Z.odd (Z.of_nat (length ns))) eqn:Ho; [right|by left].
  destruct ns as [|n0 ns]; [discriminate|]. exists n0, ns. split; [done|].
  simpl length in Ho. rewrite Nat2Z.inj_succ, Z.odd_succ, <- Z.negb_odd in Ho.
  by apply negb_true_iff in Ho.
Qed.

Lemma compactToHex_eq b bs : compactToHex (b :: bs) =
  Some (drop (Z.to_nat (2 - Z.land (b / 16) 1))
         (b / 16 :: b mod 16 :: take (length (keybytesToHex bs) - 1) (keybytesToHex bs)
          ++ (if 2 <=? b / 16 then [16] else []))).
Proof.
  unfold compactToHex. rewrite keybytesToHex_cons.
  assert (0 < length (keybytesToHex bs))%nat.
  { unfold keybytesToHex. rewrite length_app. simpl. lia. }
  simpl length. replace (S (S (length (keybytesToHex bs))) - 1)%nat
    with (S (S (length (keybytesToHex bs) - 1))) by lia.
  simpl. destruct (2 <=? b / 16); simpl; by rewrite ?app_nil_r.
Qed.

(** Unpacking what [packs] packed gives the nibbles back. *)
Lemma unpack_packs ns :
  Forall nibble ns -> Z.odd (Z.of_nat (length ns)) = false ->
  take (length (keybytesToHex (packs ns)) - 1) (keybytesToHex (packs ns)) = ns.
Proof. intros. by rewrite keybytesToHex_packs, take_snoc_all. Qed.

Lemma compact_inverse (t : bool) (ns : list byte) (Hns : Forall nibble ns) :
  exists c, hexToCompact (hexkey t ns) = Some c /\ compactToHex c = Some (hexkey t ns).
Proof.
  destruct (parity_cases ns) as [He|(n0 & ns' & -> & He)].
  - exists (flag t :: packs ns). split; [by apply hexToCompact_even|].
    rewrite compactToHex_eq, unpack_packs by done.
    destruct t; simpl; by rewrite ?app_nil_r.
  - inversion_clear Hns as [|? ? H0 Hn'].
    exists (flag t + 16 + n0 :: packs ns'). split; [by apply hexToCompact_odd|].
    rewrite compactToHex_eq, unpack_packs by done. unfold nibble in H0.
    assert ((flag t + 16 + n0) / 16 = if t then 3 else 1) as ->.
    { symmetry. apply Z.div_unique with n0; destruct t; simpl; lia. }
    assert ((flag t + 16 + n0) mod 16 = n0) as ->.
    { symmetry. apply Z.mod_unique with (if t then 3 else 1); destruct t; simpl; lia. }
    destruct t; simpl; by rewrite ?app_nil_r.
Qed.

(** C38: the compact encoding loses nothing: decoding the compact form of a hex
    key, with or without terminator and of even or odd length, returns the
    key; the encoder never panics on one. *)
Theorem compact_roundtrip (t : bool) (ns : list byte) (Hns : Forall nibble ns) :
  exists c, hexToCompact (hexkey t ns) = Some c /\ compactToHex c = Some (hexkey t ns).
Proof. by apply compact_inverse. Qed.

Lemma compact_roundtrip_witness :
  Forall nibble [1; 2; 3] /\
  exists c, hexToCompact (hexkey true [1; 2; 3]) = Some c /\
            compactToHex c = Some (hexkey true [1; 2; 3]).
Proof.
  assert (Forall nibble [1; 2; 3]) as H
    by (repeat (apply List.Forall_cons; [unfold nibble; lia|]); apply List.Forall_nil).
  split; [exact H|]. exact (compact_roundtrip true [1; 2; 3] H).
Defined.

(** ** Key bytes *)

Lemma keybytesToHex_hexkey str : Forall byte_ok str ->
  exists ns, keybytesToHex str = hexkey true ns /\ Forall nibble ns /\
             length ns = (2 * length str)%nat /\ packs ns = str.
Proof.
  induction str as [|b str IH]; intros Hb.
  - by exists [].
  - inversion_clear Hb as [|? ? H0 Hs]. destruct IH as (ns & Heq & Hn & Hl & Hp); [done|].
    exists (b / 16 :: b mod 16 :: ns). rewrite keybytesToHex_cons, Heq.
    unfold byte_ok in H0.
    assert (nibble (b / 16)) by (split; [apply Z.div_pos|apply Z.div_lt_upper_bound]; lia).
    assert (nibble (b mod 16)) by (apply Z.mod_pos_bound; lia).
    repeat split; auto.
    + simpl. lia.
    + simpl. rewrite Hp. f_equal. pose proof (Z.div_mod b 16). lia.
Qed.

Lemma even_double (ns : list byte) n :
  length ns = (2 * n)%nat -> Z.odd (Z.of_nat (length ns)) = false.
Proof. intros ->. rewrite Nat2Z.inj_mul, Z.odd_mul. done. Qed.

(** a key survives the HEX encoding used in memory: [hexToKeybytes] inverts
    [keybytesToHex] on every byte string. *)
Theorem keybytes_roundtrip (str : list byte) (Hb : Forall byte_ok str) :
  hexToKeybytes (keybytesToHex str) = Some str.
Proof.
  destruct (keybytesToHex_hexkey str Hb) as (ns & -> & Hn & Hl & Hp).
  unfold hexToKeybytes. simpl hexkey. rewrite hasTerm_snoc, take_snoc_all.
  rewrite land_1_odd, (even_double _ _ Hl). simpl.
  rewrite decodeNibbles_packs; [by rewrite Hp|done|by eapply even_double|].
  rewrite length_replicate, Hl, Nat.div2_double, (Nat.mul_comm 2), Nat.div_add_l by lia. apply Nat.add_0_r.
Qed.

Lemma keybytes_roundtrip_witness :
  Forall byte_ok [18; 255] /\ hexToKeybytes (keybytesToHex [18; 255]) = Some [18; 255].
Proof.
  assert (Forall byte_ok [18; 255]) as H
    by (repeat (apply List.Forall_cons; [unfold byte_ok; lia|]); apply List.Forall_nil).
  split; [exact H|]. exact (keybytes_roundtrip [18; 255] H).
Defined.

Lemma keybytesToHex_inj s1 s2 :
  Forall byte_ok s1 -> Forall byte_ok s2 -> keybytesToHex s1 = keybytesToHex s2 -> s1 = s2.
Proof.
  intros H1 H2 Heq.
  destruct (keybytesToHex_hexkey s1 H1) as (n1 & E1 & _ & _ & <-).
  destruct (keybytesToHex_hexkey s2 H2) as (n2 & E2 & _ & _ & <-).
  rewrite E1, E2 in Heq. simpl in Heq. by apply app_inj_tail in Heq as [-> _].
Qed.

(** ** Common prefixes *)

Lemma prefixLen_take a b : take (prefixLen a b) a = take (prefixLen a b) b.
Proof.
  revert b. induction a as [|x a IH]; intros [|y b]; try done.
  simpl. destruct (Z.eqb_spec x y) as [->|]; simpl; [by rewrite IH|done].
Qed.

Lemma prefixLen_le_l a b : (prefixLen a b <= length a)%nat.
Proof.
  revert b. induction a as [|x a IH]; intros [|y b]; simpl; try lia.
  destruct (x =? y); [specialize (IH b)|]; lia.
Qed.

Lemma prefixLen_sym a b : prefixLen a b = prefixLen b a.
Proof.
  revert b. induction a as [|x a IH]; intros [|y b]; simpl; try done.
  rewrite Z.eqb_sym. destruct (y =? x); by rewrite ?IH.
Qed.

Lemma prefixLen_le_r a b : (prefixLen a b <= length b)%nat.
Proof. rewrite prefixLen_sym. apply prefixLen_le_l. Qed.

Lemma prefixLen_ne a b x y :
  a !! prefixLen a b = Some x -> b !! prefixLen a b = Some y -> x <> y.
Proof.
  revert b. induction a as [|x' a IH]; intros [|y' b]; try done.
  simpl. destruct (Z.eqb_spec x' y') as [->|]; simpl; [apply IH|congruence].
Qed.

Lemma prefixLen_full a b : prefixLen a b = length b -> exists c, a = b ++ c.
Proof.
  intros Hl. exists (drop (length b) a). rewrite <- (take_drop (length b) a) at 1. f_equal.
  pose proof (prefixLen_take a b) as Ht. rewrite Hl in Ht. by rewrite firstn_all in Ht.
Qed.

Lemma prefixLen_app b c : prefixLen (b ++ c) b = length b.
Proof. induction b as [|x b IH]; simpl; [by destruct c|]. by rewrite Z.eqb_refl, IH. Qed.

(** [prefixLen] returns the length of the longest common prefix: the two
    keys agree up to it, and no longer list is a prefix of both. *)
Theorem prefixLen_longest (a b p : list byte) :
  take (prefixLen a b) a = take (prefixLen a b) b /\
  (p `prefix_of` a -> p `prefix_of` b -> (length p <= prefixLen a b)%nat).
Proof.
  split; [apply prefixLen_take|].
  intros [ca ->] [cb ->]. induction p as [|x p IH]; simpl; [lia|].
  rewrite Z.eqb_refl. lia.
Qed.

Lemma prefixLen_longest_witness :
  take (prefixLen [1; 2; 3] [1; 2; 5]) [1; 2; 3] = take (prefixLen [1; 2; 3] [1; 2; 5]) [1; 2; 5] /\
  (length ([1; 2]%Z) <= prefixLen ([1; 2; 3]%Z) ([1; 2; 5]%Z))%nat.
Proof.
  destruct (prefixLen_longest [1; 2; 3] [1; 2; 5] [1; 2]) as [H1 H2].
  split; [exact H1|]. apply H2; [exists [3]|exists [5]]; reflexivity.
Defined.
