(* ===== verification/TrieNode.v ===== *)
(** * Trie nodes (trie/node.go)

    The node types of the Merkle-Patricia trie with their cache flags, and the
    parts of [decodeNode] this repository owns.  A [NodeIntf] is a [node]; the
    nil interface is [Nil].  The msgp codec generated for the node types is the
    argument [msgDecode] of [decodeNode]. *)

From stdpp Require Import base list numbers option.
From S2P Require Import Prelude.

(** [nodeFlag]: [hash] is the cached hash ([None] is nil), [gen] the cache
    generation (uint16). *)
Record nodeFlag : Type := mkFlag {
  flag_hash : option (list byte);
  flag_gen : Z;
  flag_dirty : bool;
}.

(** The concrete node types behind the [Node] interface; [FullNode] holds an
    array of 17 children. *)
Inductive node : Type :=
| Nil
| ValueNode (v : list byte)
| ShortNode (key : list byte) (val : node) (fl : nodeFlag)
| FullNode (children : list node) (fl : nodeFlag)
| HashNode (h : list byte).

Definition is_nil (n : node) : bool := match n with Nil => true | _ => false end.
Definition is_hash (n : node) : bool := match n with HashNode _ => true | _ => false end.

(** The zero value of [[17]NodeIntf]. *)
Definition emptyChildren : list node := replicate 17 Nil.

(** [cachegen-n.gen >= cachelimit] is computed on uint16. *)
Definition flag_canUnload (fl : nodeFlag) (cachegen cachelimit : Z) : bool :=
  negb (flag_dirty fl) && (cachelimit <=? u16 (cachegen - flag_gen fl)).

Definition canUnload (n : node) (gen limit : Z) : bool :=
  match n with
  | FullNode _ fl | ShortNode _ _ fl => flag_canUnload fl gen limit
  | _ => false
  end.

Definition cache (n : node) : option (list byte) * bool :=
  match n with
  | FullNode _ fl | ShortNode _ _ fl => (flag_hash fl, flag_dirty fl)
  | _ => (None, true)
  end.

(** [setNodeflag] leaves the dirty bit, which is false after decoding. *)
Fixpoint setNodeflag (n : node) (hash : option (list byte)) (cachegen : Z) : node :=
  match n with
  | ShortNode k v fl =>
      ShortNode k (setNodeflag v None cachegen) (mkFlag hash cachegen (flag_dirty fl))
  | FullNode cs fl =>
      FullNode (map (fun c => setNodeflag c None cachegen) cs)
               (mkFlag hash cachegen (flag_dirty fl))
  | _ => n
  end.

(** [decodeNode]: [io.ErrUnexpectedEOF] and decoding errors are [None]. *)
Definition decodeNode (msgDecode : list byte -> option node)
    (hash buf : list byte) (cachegen : Z) : option node :=
  if (length buf =? 0)%nat then None
  else n ← msgDecode buf; Some (setNodeflag n (Some hash) cachegen).

Definition mustDecodeNode {E} (msgDecode : list byte -> option node)
    (hash buf : list byte) (cachegen : Z) : outcome E node :=
  of_index (decodeNode msgDecode hash buf cachegen).

(** ** Children *)

Lemma setNodeflag_is_nil n h g : is_nil (setNodeflag n h g) = is_nil n.
Proof. by destruct n. Qed.

Lemma setNodeflag_is_hash n h g : is_hash (setNodeflag n h g) = is_hash n.
Proof. by destruct n. Qed.

Lemma is_nil_true n : is_nil n = true <-> n = Nil.
Proof. by destruct n. Qed.

Lemma zget_map {A B} (f : A -> B) l i : zget (map f l) i = f <$> zget l i.
Proof. unfold zget. destruct (i <? 0); [done|]. apply list_lookup_fmap. Qed.
