(* ===== verification/Trie.v ===== *)
(** * The Merkle-Patricia trie (trie/trie.go)

    [TryGet], [TryUpdate] and [TryDelete] with the recursive functions behind
    them, including the lazy loading of [HashNode]s from the database. *)

From stdpp Require Import base list gmap numbers option.
From S2P Require Import Prelude TrieEncoding TrieNode.

Inductive trieErr : Type :=
| MissingNodeError (nodeHash path : list byte).

(** [arr_set cs i x] is [cs[i] = x] on an array: out of range it panics. *)
Definition arr_set {E} (cs : list node) (i : Z) (x : node) : outcome E (list node) :=
  match zget cs i with Some _ => Ok (zset cs i x) | None => Panic end.

(** The state of a [Trie], its database apart. *)
Record Trie : Type := mkTrie {
  root : node;
  originalRoot : list byte;
  cachegen : Z;
  cachelimit : Z;
}.

Definition with_root (t : Trie) (n : node) : Trie :=
  mkTrie n (originalRoot t) (cachegen t) (cachelimit t).

Definition concat (s1 s2 : list byte) : list byte := s1 ++ s2.

(** The loop of [delete] over the children: the index of the single child that
    is left, -1 when there is none, -2 when there are two or more. *)
Fixpoint scanPos (cs : list node) (i pos : Z) : Z :=
  match cs with
  | [] => pos
  | c :: cs' =>
      if is_nil c then scanPos cs' (i + 1) pos
      else if pos =? -1 then scanPos cs' (i + 1) i else -2
  end.

Section Operations.

(** The database: [dbGet] is [t.db.Get] with a read error or a nil value as
    [None]; [msgDecode] is the decoder generated for the node types. *)
Variable dbGet : list byte -> option (list byte).
Variable msgDecode : list byte -> option node.

Definition resolveHash (cachegen : Z) (h prefix : list byte) : outcome trieErr node :=
  match dbGet h with
  | None => Err (MissingNodeError h prefix)
  | Some enc => mustDecodeNode msgDecode h enc cachegen
  end.

Definition resolve (cachegen : Z) (n : node) (prefix : list byte) : outcome trieErr node :=
  match n with
  | HashNode h => resolveHash cachegen h prefix
  | _ => Ok n
  end.

Section Recursive.
Variable cachegen : Z.

Definition newFlag : nodeFlag := mkFlag None cachegen true.

Definition touch_gen (fl : nodeFlag) : nodeFlag := mkFlag (flag_hash fl) cachegen (flag_dirty fl).

Fixpoint tryGet (fuel : nat) (origNode : node) (key : list byte) (pos : nat)
    : outcome trieErr (option (list byte) * node * bool) :=
  match fuel with
  | O => OutOfFuel
  | S fuel =>
    match origNode with
    | Nil => Ok (None, Nil, false)
    | ValueNode v => Ok (Some v, ValueNode v, false)
    | ShortNode nkey nval fl =>
        if (length key - pos <? length nkey)%nat
           || negb (bool_decide (nkey = take (length nkey) (drop pos key)))
        then Ok (None, ShortNode nkey nval fl, false)
        else
          '(value, newnode, didResolve) ← tryGet fuel nval key (pos + length nkey);
          Ok (value,
              (if didResolve : bool then ShortNode nkey newnode (touch_gen fl)
               else ShortNode nkey nval fl), didResolve)
    | FullNode cs fl =>
        k ← of_index (key !! pos);
        c ← of_index (zget cs k);
        '(value, newnode, didResolve) ← tryGet fuel c key (pos + 1);
        Ok (value,
            (if didResolve : bool then FullNode (zset cs k newnode) (touch_gen fl)
             else FullNode cs fl), didResolve)
    | HashNode h =>
        child ← resolveHash cachegen h (take pos key);
        '(value, newnode, _) ← tryGet fuel child key pos;
        Ok (value, newnode, true)
    end
  end.

Fixpoint insert (fuel : nat) (n : node) (prefix key : list byte) (value : node)
    : outcome trieErr (bool * node) :=
  match fuel with
  | O => OutOfFuel
  | S fuel =>
    match key with
    | [] =>
        match n with
        | ValueNode v =>
            match value with
            | ValueNode v' => Ok (negb (bool_decide (v = v')), value)
            | _ => Panic
            end
        | _ => Ok (true, value)
        end
    | k0 :: krest =>
        match n with
        | ShortNode nkey nval fl =>
            let matchlen := prefixLen key nkey in
            if (matchlen =? length nkey)%nat then
              '(dirty, nn) ←
                insert fuel nval (prefix ++ take matchlen key) (drop matchlen key) value;
              if negb dirty then Ok (false, ShortNode nkey nval fl)
              else Ok (true, ShortNode nkey nn newFlag)
            else
              a ← of_index (nkey !! matchlen);
              '(_, ca) ← insert fuel Nil (prefix ++ take (matchlen + 1) nkey)
                                (drop (matchlen + 1) nkey) nval;
              branch ← arr_set emptyChildren a ca;
              b ← of_index (key !! matchlen);
              '(_, cb) ← insert fuel Nil (prefix ++ take (matchlen + 1) key)
                                (drop (matchlen + 1) key) value;
              branch ← arr_set branch b cb;
              if (matchlen =? 0)%nat then Ok (true, FullNode branch newFlag)
              else Ok (true, ShortNode (take matchlen key) (FullNode branch newFlag) newFlag)
        | FullNode cs fl =>
            c ← of_index (zget cs k0);
            '(dirty, nn) ← insert fuel c (prefix ++ [k0]) krest value;
            if negb dirty then Ok (false, FullNode cs fl)
            else Ok (true, FullNode (zset cs k0 nn) newFlag)
        | Nil => Ok (true, ShortNode key value newFlag)
        | HashNode h =>
            rn ← resolveHash cachegen h prefix;
            '(dirty, nn) ← insert fuel rn prefix key value;
            if negb dirty then Ok (false, rn) else Ok (true, nn)
        | ValueNode _ => Panic
        end
    end
  end.

Fixpoint delete (fuel : nat) (n : node) (prefix key : list byte)
    : outcome trieErr (bool * node) :=
  match fuel with
  | O => OutOfFuel
  | S fuel =>
    match n with
    | ShortNode nkey nval fl =>
        let matchlen := prefixLen key nkey in
        if (matchlen <? length nkey)%nat then Ok (false, ShortNode nkey nval fl)
        else if (matchlen =? length key)%nat then Ok (true, Nil)
        else
          '(dirty, child) ←
            delete fuel nval (prefix ++ take (length nkey) key) (drop (length nkey) key);
          if negb dirty then Ok (false, ShortNode nkey nval fl)
          else
            match child with
            | ShortNode ckey cval _ => Ok (true, ShortNode (concat nkey ckey) cval newFlag)
            | _ => Ok (true, ShortNode nkey child newFlag)
            end
    | FullNode cs fl =>
        k0 ← of_index (head key);
        c ← of_index (zget cs k0);
        '(dirty, nn) ← delete fuel c (prefix ++ [k0]) (drop 1 key);
        if negb dirty then Ok (false, FullNode cs fl)
        else
          let cs := zset cs k0 nn in
          let pos := scanPos cs 0 (-1) in
          if 0 <=? pos then
            child ← of_index (zget cs pos);
            if negb (pos =? 16) then
              cnode ← resolve cachegen child prefix;
              match cnode with
              | ShortNode ckey cval _ => Ok (true, ShortNode (pos :: ckey) cval newFlag)
              | _ => Ok (true, ShortNode [pos] child newFlag)
              end
            else Ok (true, ShortNode [pos] child newFlag)
          else Ok (true, FullNode cs newFlag)
    | ValueNode _ => Ok (true, Nil)
    | Nil => Ok (false, Nil)
    | HashNode h =>
        rn ← resolveHash cachegen h prefix;
        '(dirty, nn) ← delete fuel rn prefix key;
        if negb dirty then Ok (false, rn) else Ok (true, nn)
    end
  end.

End Recursive.

(** Fuel: every call consumes a nibble of the key or loads a node, and a loaded
    node is never itself a reference. *)
Definition fuel_for (key : list byte) : nat := 2 * length key + 2.

(** [TryGet] keeps the nodes it loaded, unless an error occurred. *)
Definition TryGet (t : Trie) (key : list byte) : outcome trieErr (option (list byte)) * Trie :=
  let key := keybytesToHex key in
  match tryGet (cachegen t) (fuel_for key) (root t) key 0 with
  | Ok (value, newroot, didResolve) =>
      (Ok value, if didResolve : bool then with_root t newroot else t)
  | Err e => (Err e, t)
  | Panic => (Panic, t)
  | OutOfFuel => (OutOfFuel, t)
  end.

Definition set_result (t : Trie) (r : outcome trieErr (bool * node)) : outcome trieErr unit * Trie :=
  match r with
  | Ok (_, n) => (Ok (), with_root t n)
  | Err e => (Err e, t)
  | Panic => (Panic, t)
  | OutOfFuel => (OutOfFuel, t)
  end.

Definition TryDelete (t : Trie) (key : list byte) : outcome trieErr unit * Trie :=
  let k := keybytesToHex key in
  set_result t (delete (cachegen t) (fuel_for k) (root t) [] k).

Definition TryUpdate (t : Trie) (key value : list byte) : outcome trieErr unit * Trie :=
  let k := keybytesToHex key in
  if negb (length value =? 0)%nat
  then set_result t (insert (cachegen t) (fuel_for k) (root t) [] k (ValueNode value))
  else set_result t (delete (cachegen t) (fuel_for k) (root t) [] k).

End Operations.
