(* ===== verification/TrieContents.v ===== *)
(** * What a trie node stores

    The meaning of a node, independent of how it is laid out: the relation
    [has n k v] (node [n] holds value [v] under the hex key [k], loading
    references from the database), the minimal-form invariant [wf] that
    trie/trie.go maintains, and their inversion lemmas. *)

From stdpp Require Import base list gmap numbers option.
From S2P Require Import Prelude TrieEncoding TrieNode Trie.

(** A terminated hex key: nibbles followed by the terminator. *)
Definition vkey (k : list byte) : Prop := exists ns, k = ns ++ [16] /\ Forall nibble ns.

Section Contents.

Context (dbGet : list byte -> option (list byte)).
Context (msgDecode : list byte -> option node).

(** The node the database holds under hash [h]. *)
Definition stored (h : list byte) (n : node) : Prop :=
  exists enc, dbGet h = Some enc /\ enc <> [] /\ msgDecode enc = Some n.

Inductive has : node -> list byte -> list byte -> Prop :=
| has_value v : has (ValueNode v) [] v
| has_short p c f k v : has c k v -> has (ShortNode p c f) (p ++ k) v
| has_full cs f i c k v : zget cs i = Some c -> has c k v -> has (FullNode cs f) (i :: k) v
| has_hash h n k v : stored h n -> has n k v -> has (HashNode h) k v.

(** A branch, loaded or not. *)
Definition branchy (n : node) : Prop :=
  exists cs f, n = FullNode cs f \/ exists h, n = HashNode h /\ stored h (FullNode cs f).

Definition two_children (cs : list node) : Prop :=
  exists i j ci cj, i <> j /\ cs !! i = Some ci /\ cs !! j = Some cj /\ ci <> Nil /\ cj <> Nil.

(** Minimal form: no short node under a short node, no empty key, at least two
    children under a full node, values only at the end of a terminated key. *)
Inductive wf : node -> Prop :=
| wf_leaf k v f : vkey k -> v <> [] -> wf (ShortNode k (ValueNode v) f)
| wf_ext k c f : k <> [] -> Forall nibble k -> wf c -> branchy c -> wf (ShortNode k c f)
| wf_full cs f :
    length cs = 17%nat ->
    (forall i c, cs !! i = Some c -> (i < 16)%nat -> c <> Nil -> wf c) ->
    (forall c, cs !! 16%nat = Some c -> c <> Nil -> exists v, v <> [] /\ c = ValueNode v) ->
    two_children cs -> wf (FullNode cs f)
| wf_hash h n : stored h n -> wf n -> is_hash n = false -> wf (HashNode h).

(** What may stand where [key] is still to be consumed. *)
Definition slot (key : list byte) (n : node) : Prop :=
  (key = [] /\ (n = Nil \/ exists v, v <> [] /\ n = ValueNode v)) \/
  (vkey key /\ (n = Nil \/ wf n)).

(** ** Inversion of [has] *)

Lemma stored_fun h n n' : stored h n -> stored h n' -> n = n'.
Proof. intros (e & H1 & _ & H2) (e' & H1' & _ & H2'). congruence. Qed.

Lemma has_Nil k v : ~ has Nil k v.
Proof. inversion 1. Qed.

Lemma has_Value w k v : has (ValueNode w) k v <-> k = [] /\ v = w.
Proof. split; [by inversion 1|]. intros [-> ->]. constructor. Qed.

Lemma has_Short p c f k v : has (ShortNode p c f) k v <-> exists k', k = p ++ k' /\ has c k' v.
Proof. split; [inversion 1; subst; eauto|]. intros (k' & -> & H). by constructor. Qed.

Lemma has_Full cs f k v :
  has (FullNode cs f) k v <-> exists i c k', k = i :: k' /\ zget cs i = Some c /\ has c k' v.
Proof.
  split; [inversion 1; subst; eauto 8|]. intros (i & c & k' & -> & H1 & H2). econstructor; eauto.
Qed.

Lemma has_Hash h n k v : stored h n -> has (HashNode h) k v <-> has n k v.
Proof.
  intros Hs. split; [|by econstructor].
  inversion_clear 1 as [| | |? n' ? ? Hs' Hh]. by rewrite (stored_fun _ _ _ Hs Hs').
Qed.

Lemma has_Full_cons cs f i k v :
  has (FullNode cs f) (i :: k) v <-> exists c, zget cs i = Some c /\ has c k v.
Proof. rewrite has_Full. split; [intros (? & ? & ? & [= -> ->] & ? & ?); eauto|intros (? & ? & ?); eauto 8]. Qed.

(** ** Flags do not matter *)

Lemma has_setNodeflag_1 n k v : has n k v -> forall h g, has (setNodeflag n h g) k v.
Proof.
  induction 1 as [w|p c f k v _ IH|cs f i c k v Hi _ IH|h n k v Hs Hh _]; intros h' g; simpl.
  - constructor.
  - apply has_short, IH.
  - eapply has_full; [|apply (IH None g)]. by rewrite zget_map, Hi.
  - by econstructor.
Qed.

Lemma has_setNodeflag_2 n' k v : has n' k v -> forall n h g, n' = setNodeflag n h g -> has n k v.
Proof.
  induction 1 as [w|p c f k v _ IH|cs f i c k v Hi _ IH|h n k v Hs Hh _];
    intros n' h' g Heq; destruct n' as [|?|? ? ?|cs' ?|?]; try discriminate; simplify_eq/=.
  - constructor.
  - apply has_short. by eapply IH.
  - rewrite zget_map in Hi. destruct (zget cs' i) as [c'|] eqn:Hc; [|discriminate].
    simplify_eq/=. eapply has_full; [done|]. by eapply IH.
  - by econstructor.
Qed.

Lemma has_setNodeflag n h g k v : has (setNodeflag n h g) k v <-> has n k v.
Proof. split; [intros H; by eapply has_setNodeflag_2|intros H; by apply has_setNodeflag_1]. Qed.

Lemma branchy_setNodeflag n h g : branchy n -> branchy (setNodeflag n h g).
Proof.
  intros (cs & f & [->|(h' & -> & Hs)]).
  - do 2 eexists. left. reflexivity.
  - exists cs, f. right. by exists h'.
Qed.

Lemma wf_setNodeflag n : wf n -> forall h g, wf (setNodeflag n h g).
Proof.
  induction 1 as [k v f Hk Hv|k c f Hk Hn _ IH Hb|cs f Hl _ IH H16 H2|h n Hs Hw _ Hh];
    intros h' g; simpl.
  - by apply wf_leaf.
  - apply wf_ext; auto using branchy_setNodeflag.
  - apply wf_full.
    + by rewrite length_map.
    + intros i c Hc Hi Hne. rewrite list_lookup_fmap in Hc.
      destruct (cs !! i) as [c'|] eqn:E; simplify_eq/=. eapply IH; eauto. by intros ->.
    + intros c Hc Hne. rewrite list_lookup_fmap in Hc.
      destruct (cs !! 16%nat) as [c'|] eqn:E; simplify_eq/=.
      destruct (H16 c') as (v & ? & ->); eauto. by intros ->.
    + destruct H2 as (i & j & ci & cj & ? & Hi & Hj & ? & ?).
      exists i, j, (setNodeflag ci None g), (setNodeflag cj None g).
      rewrite !list_lookup_fmap, Hi, Hj. repeat split; try done; by destruct ci, cj.
  - by econstructor.
Qed.

(** ** Keys *)

Lemma vkey_not_nil k : vkey k -> k <> [].
Proof. intros (ns & -> & _). by destruct ns. Qed.

Lemma vkey_cons i k : vkey (i :: k) <-> (i = 16 /\ k = []) \/ (nibble i /\ vkey k).
Proof.
  split.
  - intros ([|n ns] & Heq & Hn); simplify_eq/=; [by left|right].
    inversion_clear Hn. split; [done|]. by exists ns.
  - intros [[-> ->]|[Hi (ns & -> & Hn)]]; [by exists []|].
    exists (i :: ns). split; [done|]. by constructor.
Qed.

Lemma vkey_app p k : Forall nibble p -> vkey (p ++ k) <-> vkey k.
Proof.
  induction 1 as [|x p Hx _ IH]; [done|]. simpl. rewrite vkey_cons, IH. split.
  - intros [[-> _]|[_ ?]]; [unfold nibble in Hx; lia|done].
  - intros ?. by right.
Qed.

(** No terminated key is a proper prefix of another. *)
Lemma vkey_prefix_free a c : vkey a -> vkey (a ++ c) -> c = [].
Proof.
  induction a as [|x a IH]; intros Ha Hac; [by destruct (vkey_not_nil [])|].
  simpl in Hac. rewrite vkey_cons in Ha, Hac.
  destruct Ha as [[-> ->]|[Hx Ha]], Hac as [[Hc Hc']|[Hx' Hac]]; unfold nibble in *; try lia.
  - done.
  - auto.
Qed.

Lemma vkey_range k i x : vkey k -> k !! i = Some x -> 0 <= x <= 16.
Proof.
  revert i. induction k as [|y k IH]; intros i Hk Hi; [done|].
  apply vkey_cons in Hk as [[-> ->]|[Hy Hk]].
  - destruct i; simplify_eq/=. lia.
  - destruct i; simplify_eq/=; [unfold nibble in Hy; lia|by eapply IH].
Qed.

Lemma nibbles_not_vkey k : Forall nibble k -> ~ vkey k.
Proof.
  intros Hk (ns & -> & _). apply Forall_app in Hk as [_ Hk].
  inversion_clear Hk as [|? ? H _]. unfold nibble in H. lia.
Qed.

(** What precedes the end of a terminated key is nibbles. *)
Lemma vkey_nibbles p x k : vkey (p ++ x :: k) -> Forall nibble p.
Proof.
  induction p as [|y p IH]; [by constructor|]. intros [[_ Hn]|[Hy Hk]]%vkey_cons.
  - by destruct p.
  - constructor; auto.
Qed.

(** ** Slots *)

Lemma slot_Nil key : key = [] \/ vkey key -> slot key Nil.
Proof. intros [->|]; [left|right]; auto. Qed.

Lemma slot_wf key n : vkey key -> slot key n -> n = Nil \/ wf n.
Proof. intros Hk [[-> _]|[_ H]]; [by destruct (vkey_not_nil [])|done]. Qed.

Lemma slot_vkey_wf key n : vkey key -> wf n -> slot key n.
Proof. intros. right. auto. Qed.

Lemma wf_not_nil n : wf n -> n <> Nil.
Proof. by intros H ->; inversion H. Qed.

Lemma wf_Full_child cs f i k :
  wf (FullNode cs f) -> vkey (i :: k) -> exists c, zget cs i = Some c /\ slot k c.
Proof.
  inversion_clear 1 as [| |? ? Hl Hc H16 _|]; intros Hk.
  assert (0 <= i <= 16) as Hi by (by apply (vkey_range _ 0 i Hk)).
  rewrite zget_lookup by lia.
  destruct (lookup_lt_is_Some_2 cs (Z.to_nat i)) as [c Hci]; [lia|].
  exists c. split; [done|]. apply vkey_cons in Hk as [[-> ->]|[Hn Hk]].
  - left. split; [done|]. destruct (is_nil c) eqn:E; [apply is_nil_true in E; auto|].
    right. apply H16; [done|]. by intros ->.
  - right. split; [done|]. destruct (is_nil c) eqn:E; [apply is_nil_true in E; auto|].
    right. eapply Hc; [done| |by intros ->]. unfold nibble in Hn. lia.
Qed.

Lemma wf_hash_inv h : wf (HashNode h) -> exists n, stored h n /\ wf n /\ is_hash n = false.
Proof. inversion_clear 1; eauto. Qed.

(** Values are only reachable under terminated keys. *)
Lemma wf_has_vkey n k v : wf n -> has n k v -> vkey k.
Proof.
  intros Hw Hh. revert Hw. induction Hh as [w|p c f k v Hh IH|cs f i c k v Hi Hh IH|h n k v Hs _ IH].
  - inversion 1.
  - inversion 1 as [? ? ? Hk|? ? ? _ Hp Hwc| |]; subst.
    + apply has_Value in Hh as [-> ->]. by rewrite app_nil_r.
    + apply vkey_app; auto.
  - inversion_clear 1 as [| |? ? Hl Hc H16 _|].
    pose proof (zget_Some_range _ _ _ Hi) as Hr. rewrite zget_lookup in Hi by lia.
    assert (c <> Nil) by (by intros ->; apply has_Nil in Hh).
    apply vkey_cons. destruct (Z.eq_dec i 16) as [->|].
    + left. destruct (H16 c) as (w & _ & ->); [done|done|].
      by apply has_Value in Hh as [-> _].
    + right. split; [unfold nibble; lia|]. apply IH. eapply Hc; eauto. lia.
  - intros (n' & Hs' & Hwn & _)%wf_hash_inv. apply IH. by rewrite (stored_fun _ _ _ Hs Hs').
Qed.

Lemma slot_has_vkey key n k v : slot key n -> has n k v -> (key = [] /\ k = []) \/ (vkey key /\ vkey k).
Proof.
  intros [[-> [->|(w & _ & ->)]]|[Hk [->|Hw]]] Hh.
  - by apply has_Nil in Hh.
  - apply has_Value in Hh as [-> _]. auto.
  - by apply has_Nil in Hh.
  - right. eauto using wf_has_vkey.
Qed.

End Contents.
