(* ===== verification/TrieCorrect.v ===== *)
(** * Correctness of the trie operations

    On a trie in minimal form every operation returns, keeps minimal form and
    reads or updates exactly the addressed key; a trie therefore implements a
    finite map from byte keys to values. *)

From stdpp Require Import base list gmap numbers option.
From S2P Require Import Prelude TrieEncoding TrieNode Trie TrieContents.

(** One unit of fuel to load a reference. *)
Definition hcost (n : node) : nat := if is_hash n then 1 else 0.

Section Correct.

Context (dbGet : list byte -> option (list byte)).
Context (msgDecode : list byte -> option node).
Context (gen : Z).

Abbreviation stored := (stored dbGet msgDecode).
Abbreviation has := (has dbGet msgDecode).
Abbreviation wf := (wf dbGet msgDecode).
Abbreviation slot := (slot dbGet msgDecode).
Abbreviation branchy := (branchy dbGet msgDecode).

(** ** Loading a node *)

Lemma resolveHash_stored h n p : stored h n ->
  resolveHash dbGet msgDecode gen h p = Ok (setNodeflag n (Some h) gen).
Proof.
  intros (enc & Hdb & Hne & Hdec). unfold resolveHash, mustDecodeNode, decodeNode.
  rewrite Hdb. destruct enc; [done|]. simpl. by rewrite Hdec.
Qed.

Lemma resolveHash_wf h p : wf (HashNode h) -> exists n,
  resolveHash dbGet msgDecode gen h p = Ok n /\ wf n /\ is_hash n = false /\
  (forall k v, has n k v <-> has (HashNode h) k v) /\
  (branchy (HashNode h) -> branchy n).
Proof.
  intros (n & Hs & Hw & Hh)%wf_hash_inv. exists (setNodeflag n (Some h) gen).
  repeat split.
  - by apply resolveHash_stored.
  - by apply wf_setNodeflag.
  - by rewrite setNodeflag_is_hash.
  - rewrite has_setNodeflag, has_Hash; done.
  - rewrite has_setNodeflag, has_Hash; done.
  - intros (cs & f & [?|(h' & [= <-] & Hs')]); [done|].
    rewrite (stored_fun _ _ _ _ _ Hs Hs'). apply branchy_setNodeflag.
    exists cs, f. by left.
Qed.

(** ** Replacing one child of a full node *)

Lemma has_Full_zset cs f i c' j k v :
  0 <= i < Z.of_nat (length cs) ->
  has (FullNode (zset cs i c') f) (j :: k) v <->
  (if decide (j = i) then has c' k v else exists c, zget cs j = Some c /\ has c k v).
Proof.
  intros Hi. rewrite has_Full_cons. destruct (decide (j = i)) as [->|Hne].
  - rewrite zget_zset_eq by done. split; [by intros (? & [= ->] & ?)|eauto].
  - by rewrite zget_zset_ne by lia.
Qed.

Lemma two_children_zset cs i c' :
  two_children cs -> c' <> Nil -> two_children (zset cs i c').
Proof.
  intros (a & b & ca & cb & Hab & Ha & Hb & Hca & Hcb) Hc'. unfold zset.
  assert (forall x cx, cs !! x = Some cx -> cx <> Nil ->
    exists cx', <[Z.to_nat i:=c']> cs !! x = Some cx' /\ cx' <> Nil) as Hup.
  { intros x cx Hx Hcx. destruct (decide (Z.to_nat i = x)) as [<-|].
    - exists c'. rewrite list_lookup_insert_eq; [done|by eapply lookup_lt_Some].
    - exists cx. by rewrite list_lookup_insert_ne. }
  destruct (Hup a ca Ha Hca) as (xa & ? & ?), (Hup b cb Hb Hcb) as (xb & ? & ?).
  by exists a, b, xa, xb.
Qed.

Lemma wf_Full_zset cs f i k c' f' :
  wf (FullNode cs f) -> vkey (i :: k) -> slot k c' ->
  two_children (zset cs i c') -> wf (FullNode (zset cs i c') f').
Proof.
  inversion_clear 1 as [| |? ? Hl Hc H16 _|]; intros Hk Hs H2.
  assert (0 <= i <= 16) as Hi by (by apply (vkey_range _ 0 i Hk)).
  constructor; [by unfold zset; rewrite length_insert|..|done].
  - intros j c Hj Hlt Hne. unfold zset in Hj.
    destruct (decide (Z.to_nat i = j)) as [<-|]; [|rewrite list_lookup_insert_ne in Hj; eauto].
    rewrite list_lookup_insert_eq in Hj by lia. injection Hj as <-.
    apply vkey_cons in Hk as [[-> _]|[_ Hk]]; [lia|].
    by destruct (slot_wf _ _ _ _ Hk Hs).
  - intros c Hj Hne. unfold zset in Hj.
    destruct (decide (Z.to_nat i = 16%nat)) as [Heq|]; [|rewrite list_lookup_insert_ne in Hj; eauto].
    rewrite Heq, list_lookup_insert_eq in Hj by lia. injection Hj as <-.
    assert (i = 16) as -> by lia. apply vkey_cons in Hk as [[_ ->]|[Hn _]]; [|unfold nibble in Hn; lia].
    destruct Hs as [[_ [?|?]]|[?%vkey_not_nil _]]; done.
Qed.

Lemma wf_Full_range cs f i k : wf (FullNode cs f) -> vkey (i :: k) -> 0 <= i < Z.of_nat (length cs).
Proof.
  inversion_clear 1 as [| |? ? Hl _ _ _|]; intros Hk. rewrite Hl.
  pose proof (vkey_range _ 0 i Hk eq_refl). lia.
Qed.

Lemma wf_Full_two cs f : wf (FullNode cs f) -> two_children cs.
Proof. by inversion_clear 1. Qed.

(** ** Short nodes *)

(** A short node either ends in a value or leads to a branch. *)
Lemma wf_Short_inv k c f : wf (ShortNode k c f) ->
  (vkey k /\ exists v, v <> [] /\ c = ValueNode v) \/
  (k <> [] /\ Forall nibble k /\ wf c /\ branchy c).
Proof.
  inversion_clear 1 as [? v ? Hk Hv|? ? ? Hk Hn Hw Hb| |].
  - left. split; [done|]. by exists v.
  - by right.
Qed.

Lemma wf_Short_slot k c f k' : wf (ShortNode k c f) -> vkey (k ++ k') -> slot k' c.
Proof.
  intros [(Hk & v & Hv & ->)|(Hk & Hn & Hw & _)]%wf_Short_inv Hkk.
  - left. split; [exact (vkey_prefix_free _ _ Hk Hkk)|eauto].
  - right. split; [by apply vkey_app in Hkk|auto].
Qed.

Lemma wf_Short_key k c f : wf (ShortNode k c f) -> (0 < length k)%nat.
Proof.
  intros [(Hk & _)|(Hk & _)]%wf_Short_inv; destruct k; simpl; try lia; [|done].
  by apply vkey_not_nil in Hk.
Qed.

(** Replacing the child of a short node by a node of the same kind. *)
Lemma wf_Short_set k c f k' c' f' :
  wf (ShortNode k c f) -> vkey (k ++ k') -> slot k' c' -> c' <> Nil ->
  (branchy c -> branchy c') -> wf (ShortNode k c' f').
Proof.
  intros [(Hk & v & Hv & ->)|(Hk & Hn & Hw & Hb)]%wf_Short_inv Hkk Hs Hne Hbb.
  - assert (k' = []) as -> by exact (vkey_prefix_free _ _ Hk Hkk).
    destruct Hs as [[_ [?|(w & ? & ->)]]|[?%vkey_not_nil _]]; try done. by apply wf_leaf.
  - apply vkey_app in Hkk; [|done]. apply wf_ext; auto. by destruct (slot_wf _ _ _ _ Hkk Hs).
Qed.

(** ** Reading *)

Lemma tryGet_spec fuel n key pos :
  slot (drop pos key) n -> (pos <= length key)%nat ->
  (2 * (length key - pos) + hcost n < fuel)%nat ->
  exists val n' r, tryGet dbGet msgDecode gen fuel n key pos = Ok (val, n', r) /\
    (forall v, val = Some v <-> has n (drop pos key) v) /\
    slot (drop pos key) n' /\ (n <> Nil -> n' <> Nil) /\
    (forall k v, has n' k v <-> has n k v) /\ (branchy n -> branchy n').
Proof.
  revert n pos. induction fuel as [|fuel IH]; intros n pos Hs Hpos Hfuel; [lia|].
  destruct n as [|w|nkey nval fl|cs fl|h].
  - exists None, Nil, false. repeat split; try done; by intros ?%has_Nil.
  - assert (drop pos key = []) as Hd.
    { destruct Hs as [[Hd _]|[Hk [?|Hw]]]; [done|done|inversion Hw]. }
    exists (Some w), (ValueNode w), false. rewrite Hd in *. repeat split; try done.
    + intros [= ->]. constructor.
    + by intros [_ ->]%has_Value.
  - destruct Hs as [[_ [?|(?&?&?)]]|[Hk [?|Hw]]]; try done.
    simpl. destruct (_ || _) eqn:Htest.
    + exists None, (ShortNode nkey nval fl), false. repeat split; try done.
      * intros (k' & Heq & _)%has_Short. exfalso.
        apply orb_true_iff in Htest as [Hlt%Nat.ltb_lt|Hne].
        -- apply (f_equal length) in Heq. rewrite length_drop, length_app in Heq. lia.
        -- apply negb_true_iff, bool_decide_eq_false in Hne. apply Hne.
           by rewrite Heq, take_app_length.
      * right. auto.
    + apply orb_false_iff in Htest as [Hlt%Nat.ltb_ge Heq].
      apply negb_false_iff, bool_decide_eq_true in Heq.
      assert (drop pos key = nkey ++ drop (pos + length nkey) key) as Hsplit.
      { rewrite <- drop_drop. rewrite Heq at 1. by rewrite take_drop. }
      pose proof (wf_Short_key _ _ _ Hw) as Hkl. rewrite Hsplit in Hk.
      destruct (IH nval (pos + length nkey)%nat) as (val & n' & r & Hget & Hval & Hs' & Hnn & Hhas & Hb).
      { by eapply wf_Short_slot. } { lia. }
      { unfold hcost in *. simpl in Hfuel. destruct (is_hash nval); lia. }
      rewrite Hget. simpl. do 3 eexists. split; [done|].
      rewrite Hsplit. split; [|split; [|split; [|split]]].
      * intros v. rewrite Hval, has_Short. split; [eauto|]. by intros (k' & <-%app_inv_head & ?).
      * destruct r; right; split; try done; right; [|done].
        eapply wf_Short_set; eauto. apply Hnn.
        apply wf_Short_inv in Hw as [(_ & ? & _ & ->)|(_ & _ & Hwn & _)]; [done|by eapply wf_not_nil].
      * by destruct r.
      * destruct r; [|done]. intros k v. rewrite !has_Short. by setoid_rewrite Hhas.
      * intros (? & ? & [?|(? & ? & _)]); done.
  - destruct Hs as [[_ [?|(?&?&?)]]|[Hk [?|Hw]]]; try done.
    destruct (drop pos key) as [|k0 krest] eqn:Hd; [by apply vkey_not_nil in Hk|].
    assert (key !! pos = Some k0) as Hk0.
    { rewrite <- (Nat.add_0_r pos), <- lookup_drop, Hd. done. }
    assert (drop (pos + 1) key = krest) as Hrest.
    { by rewrite <- drop_drop, Hd. }
    destruct (wf_Full_child _ _ _ _ _ _ Hw Hk) as (c & Hc & Hsc).
    pose proof (wf_Full_range _ _ _ _ Hw Hk) as Hr.
    destruct (IH c (pos + 1)%nat) as (val & n' & r & Hget & Hval & Hs' & Hnn & Hhas & Hb).
    { by rewrite Hrest. } { apply lookup_lt_Some in Hk0. lia. }
    { apply lookup_lt_Some in Hk0. unfold hcost in *. simpl in Hfuel. destruct (is_hash c); lia. }
    simpl. rewrite Hk0. simpl. rewrite Hc. simpl. rewrite Hget. simpl.
    rewrite Hrest in *. do 3 eexists. split; [done|].
    split; [|split; [|split; [|split]]].
    + intros v. rewrite Hval, has_Full_cons. split; [eauto|]. rewrite Hc. by intros (? & [= ->] & ?).
    + destruct r; right; split; try done; right; [|done].
      eapply wf_Full_zset; eauto. destruct (is_nil c) eqn:Hcn.
      * apply is_nil_true in Hcn as ->. by destruct fuel.
      * apply two_children_zset; [by eapply wf_Full_two|]. apply Hnn. by intros ->.
    + by destruct r.
    + destruct r; [|done]. intros k v. destruct k as [|j k].
      * split; intros (? & ? & ? & ? & _)%has_Full; done.
      * rewrite has_Full_zset by done. rewrite has_Full_cons. case_decide; [subst j|done].
        rewrite Hhas, Hc. split; [eauto|]. by intros (? & [= ->] & ?).
    + intros _. destruct r; do 2 eexists; by left.
  - destruct Hs as [[_ [?|(?&?&?)]]|[Hk [?|Hw]]]; try done.
    destruct (resolveHash_wf h (take pos key) Hw) as (n & Hres & Hwn & Hnh & Hhn & Hbn).
    destruct (IH n pos) as (val & n' & r & Hget & Hval & Hs' & Hnn & Hhas & Hb).
    { by apply slot_vkey_wf. } { done. } { unfold hcost in *. rewrite Hnh. simpl in Hfuel. lia. }
    simpl. rewrite Hres. simpl. rewrite Hget. simpl. do 3 eexists. split; [done|].
    split; [|split; [|split; [|split]]]; auto.
    + intros v. by rewrite Hval, Hhn.
    + intros _. apply Hnn. by eapply wf_not_nil.
    + intros k v. by rewrite Hhas, Hhn.
Qed.

(** ** Writing *)

Lemma insert_Nil_eq fuel prefix key value :
  insert dbGet msgDecode gen (S fuel) Nil prefix key value =
  Ok (true, match key with [] => value | _ => ShortNode key value (newFlag gen) end).
Proof. by destruct key. Qed.

(** The node [insert] creates for the remainder [k] of a key above [c]. *)
Definition tail_node (k : list byte) (c : node) : node :=
  match k with [] => c | _ => ShortNode k c (newFlag gen) end.

Lemma has_tail_node k c k' v :
  has (tail_node k c) k' v <-> exists k2, k' = k ++ k2 /\ has c k2 v.
Proof.
  destruct k as [|x k]; [|apply has_Short]. simpl.
  split; [eauto|by intros (? & -> & ?)].
Qed.

(** What may be the child of a full node at index [a]. *)
Definition fits (a : Z) (c : node) : Prop :=
  (a = 16 /\ exists v, v <> [] /\ c = ValueNode v) \/ (nibble a /\ wf c).

Lemma fits_range a c : fits a c -> 0 <= a <= 16.
Proof. intros [[-> _]|[H _]]; [|unfold nibble in H]; lia. Qed.

Lemma fits_not_Nil a c : fits a c -> c <> Nil.
Proof. intros [[_ (v & _ & ->)]|[_ H]]; [done|by eapply wf_not_nil]. Qed.

(** Splitting the key of a short node leaves a node that fits below. *)
Lemma fits_tail_node p a k c f : wf (ShortNode (p ++ a :: k) c f) -> Forall nibble p ->
  fits a (tail_node k c).
Proof.
  intros [(Hk & v & Hv & ->)|(_ & Hn & Hw & Hb)]%wf_Short_inv Hp.
  - apply vkey_app, vkey_cons in Hk as [[-> ->]|[Ha Hk]]; [left; simpl; eauto|right|done].
    split; [done|]. destruct k; [by apply vkey_not_nil in Hk|]. by apply wf_leaf.
  - apply Forall_app in Hn as [_ Hn]. inversion_clear Hn as [|? ? Ha Hk].
    right. split; [done|]. destruct k; [done|]. by apply wf_ext.
Qed.

Definition branch2 (a : Z) (ca : node) (b : Z) (cb : node) : node :=
  FullNode (zset (zset emptyChildren a ca) b cb) (newFlag gen).

Lemma emptyChildren_lookup i c : emptyChildren !! i = Some c -> c = Nil.
Proof. intros H. by apply lookup_replicate in H as [-> _]. Qed.

Lemma branch2_lookup a ca b cb j : a <> b -> 0 <= a <= 16 -> 0 <= b <= 16 -> 0 <= j <= 16 ->
  zget (zset (zset emptyChildren a ca) b cb) j =
  Some (if decide (j = b) then cb else if decide (j = a) then ca else Nil).
Proof.
  intros. destruct (decide (j = b)) as [->|].
  - apply zget_zset_eq. unfold zset. rewrite length_insert. unfold emptyChildren.
    rewrite length_replicate. lia.
  - rewrite zget_zset_ne by lia. destruct (decide (j = a)) as [->|].
    + apply zget_zset_eq. unfold emptyChildren. rewrite length_replicate. lia.
    + rewrite zget_zset_ne by lia. rewrite zget_lookup by lia.
      apply lookup_replicate_2. lia.
Qed.

Lemma branch2_child a ca b cb i c : a <> b -> fits a ca -> fits b cb ->
  zset (zset emptyChildren a ca) b cb !! i = Some c -> c <> Nil ->
  (i <= 16)%nat /\ fits (Z.of_nat i) c.
Proof.
  intros Hab Ha Hb Hi Hne.
  pose proof (fits_range _ _ Ha). pose proof (fits_range _ _ Hb).
  assert (i <= 16)%nat as Hle.
  { apply lookup_lt_Some in Hi. unfold zset in Hi. rewrite !length_insert in Hi.
    unfold emptyChildren in Hi. rewrite length_replicate in Hi. lia. }
  split; [done|].
  assert (zget (zset (zset emptyChildren a ca) b cb) (Z.of_nat i) = Some c) as Hz
    by (by rewrite zget_lookup, Nat2Z.id by lia).
  rewrite branch2_lookup in Hz by lia. repeat case_decide; simplify_eq; subst; done.
Qed.

Lemma wf_branch2 a ca b cb : a <> b -> fits a ca -> fits b cb -> wf (branch2 a ca b cb).
Proof.
  intros Hab Ha Hb. pose proof (fits_range _ _ Ha). pose proof (fits_range _ _ Hb).
  apply wf_full.
  - unfold zset. by rewrite !length_insert.
  - intros i c Hi Hlt Hne. destruct (branch2_child _ _ _ _ _ _ Hab Ha Hb Hi Hne) as [_ [[? _]|[_ ?]]];
      [lia|done].
  - intros c Hi Hne. destruct (branch2_child _ _ _ _ _ _ Hab Ha Hb Hi Hne) as [_ [[_ ?]|[? _]]];
      [done|unfold nibble in *; lia].
  - exists (Z.to_nat a), (Z.to_nat b), ca, cb.
    rewrite <- !zget_lookup by lia. rewrite !branch2_lookup by lia.
    repeat case_decide; try lia. repeat split; eauto using fits_not_Nil. lia.
Qed.

Lemma has_branch2 a ca b cb k v : a <> b -> fits a ca -> fits b cb ->
  has (branch2 a ca b cb) k v <->
  exists k', (k = a :: k' /\ has ca k' v) \/ (k = b :: k' /\ has cb k' v).
Proof.
  intros Hab Ha Hb. pose proof (fits_range _ _ Ha). pose proof (fits_range _ _ Hb).
  unfold branch2. rewrite has_Full. split.
  - intros (i & c & k' & -> & Hi & Hh).
    pose proof (zget_Some_range _ _ _ Hi) as Hr. unfold zset in Hr.
    rewrite !length_insert in Hr. unfold emptyChildren in Hr. rewrite length_replicate in Hr.
    rewrite branch2_lookup in Hi by lia. exists k'.
    repeat case_decide; simplify_eq; subst; auto. by apply has_Nil in Hh.
  - intros (k' & [[-> Hh]|[-> Hh]]); do 3 eexists; split; try done; split; try done;
      rewrite branch2_lookup by lia; repeat case_decide; congruence.
Qed.

(** [has] is a function of the key. *)
Lemma has_fun n k v v' : has n k v -> has n k v' -> v = v'.
Proof.
  intros H. revert v'. induction H as [w|p c f k v _ IH|cs f i c k v Hi _ IH|h n k v Hs _ IH]; intros v'.
  - by intros [_ ->]%has_Value.
  - intros (k' & <-%app_inv_head & ?)%has_Short. auto.
  - intros (c' & Hc' & ?)%has_Full_cons. simplify_eq. auto.
  - rewrite has_Hash by done. auto.
Qed.

(** [n'] is [n] with the value of [key] replaced by [v]. *)
Definition updated (n n' : node) (key v : list byte) : Prop :=
  forall k' v', has n' k' v' <-> (k' = key /\ v' = v) \/ (k' <> key /\ has n k' v').

Lemma updated_same n key v : has n key v -> updated n n key v.
Proof.
  intros H k' v'. split.
  - intros H'. destruct (decide (k' = key)) as [->|]; [left|auto].
    split; [done|]. by eapply has_fun.
  - by intros [[-> ->]|[_ ?]].
Qed.

Lemma updated_short p c c' f f' k v :
  updated c c' k v -> updated (ShortNode p c f) (ShortNode p c' f') (p ++ k) v.
Proof.
  intros Hu k' v'. rewrite !has_Short. split.
  - intros (k2 & -> & [[-> ->]|[? ?]]%Hu); [by left|right]. split; [|eauto].
    by intros ?%app_inv_head.
  - intros [[-> ->]|(Hne & k2 & -> & ?)]; eexists; (split; [done|]); apply Hu; [auto|].
    right. split; [by intros ->|done].
Qed.

Lemma updated_full cs f f' i c c' k v :
  zget cs i = Some c -> updated c c' k v ->
  updated (FullNode cs f) (FullNode (zset cs i c') f') (i :: k) v.
Proof.
  intros Hc Hu [|j k'] v'.
  { split; [by intros (? & ? & ? & ? & _)%has_Full|].
    intros [[? _]|(_ & (? & ? & ? & ? & _)%has_Full)]; done. }
  rewrite has_Full_zset by (by eapply zget_Some_range). rewrite has_Full_cons.
  case_decide; [subst j|].
  - rewrite Hc, (Hu k' v'). split.
    + intros [[-> ->]|[? ?]]; [by left|right]. split; [congruence|eauto].
    + intros [[[= ->] ->]|(Hne & ? & [= <-] & ?)]; [auto|right]. split; [congruence|done].
  - split; [intros ?; right; split; [congruence|done]|].
    intros [[[= ? ?] _]|[_ ?]]; done.
Qed.

(** Where the key and the key of a short node part. *)
Lemma keys_part key nkey : vkey key -> vkey nkey \/ Forall nibble nkey ->
  prefixLen key nkey <> length nkey ->
  exists p a ka b kb, key = p ++ b :: kb /\ nkey = p ++ a :: ka /\ a <> b /\
    Forall nibble p /\ length p = prefixLen key nkey.
Proof.
  intros Hk Hnk Hne. set (m := prefixLen key nkey) in *.
  pose proof (prefixLen_le_r key nkey). pose proof (prefixLen_le_l key nkey).
  destruct (lookup_lt_is_Some_2 nkey m) as [a Ha]; [lia|].
  assert (m < length key)%nat as Hlt.
  { destruct (decide (m = length key)) as [Heq|]; [exfalso|lia].
    destruct (prefixLen_full nkey key) as [c ->]; [by rewrite prefixLen_sym|].
    destruct Hnk as [Hnk|[Hnk _]%Forall_app]; [|by apply nibbles_not_vkey in Hnk].
    rewrite (vkey_prefix_free _ _ Hk Hnk), app_nil_r in *. lia. }
  destruct (lookup_lt_is_Some_2 key m) as [b Hb]; [lia|].
  exists (take m key), a, (drop (S m) nkey), b, (drop (S m) key).
  assert (key = take m key ++ b :: drop (S m) key) as Hkey by (by rewrite take_drop_middle).
  split; [done|]. split; [unfold m at 1; rewrite prefixLen_take; fold m; by rewrite take_drop_middle|].
  split; [by intros ->; eapply (prefixLen_ne key nkey)|]. split; [|rewrite length_take; lia].
  rewrite Hkey in Hk. by eapply vkey_nibbles.
Qed.

Lemma arr_set_ok cs i x : 0 <= i < Z.of_nat (length cs) ->
  arr_set cs i x = (Ok (zset cs i x) : outcome trieErr _).
Proof.
  intros. unfold arr_set. rewrite zget_lookup by lia.
  destruct (lookup_lt_is_Some_2 cs (Z.to_nat i)) as [c ->]; [lia|done].
Qed.

Lemma insert_split fuel prefix p a ka b kb nval fl v :
  a <> b -> 0 <= a <= 16 -> 0 <= b <= 16 ->
  insert dbGet msgDecode gen (S (S fuel)) (ShortNode (p ++ a :: ka) nval fl) prefix
    (p ++ b :: kb) (ValueNode v) =
  Ok (true, tail_node p (branch2 a (tail_node ka nval) b (tail_node kb (ValueNode v)))).
Proof.
  intros Hab Ha Hb.
  assert (prefixLen (p ++ b :: kb) (p ++ a :: ka) = length p) as Hm.
  { clear -Hab. induction p as [|x p IH]; simpl.
    - by destruct (Z.eqb_spec b a).
    - by rewrite Z.eqb_refl, IH. }
  remember (p ++ b :: kb) as key eqn:Hkey. remember (p ++ a :: ka) as nkey eqn:Hnkey.
  assert (key <> []) as Hne by (rewrite Hkey; by destruct p).
  remember (S fuel) as fuel1 eqn:Hf. simpl. destruct key as [|k0 krest]; [done|].
  rewrite Hm. subst fuel1.
  assert ((length p =? length nkey)%nat = false) as ->.
  { apply Nat.eqb_neq. rewrite Hnkey, length_app. simpl. lia. }
  rewrite !insert_Nil_eq.
  assert (forall x k, drop (length p + 1) (p ++ x :: k) = k) as Hdrop.
  { intros. rewrite drop_app_ge by lia. by replace (length p + 1 - length p)%nat with 1%nat by lia. }
  assert (forall x k, (p ++ x :: k) !! length p = Some x) as Hlook.
  { intros. by rewrite lookup_app_r, Nat.sub_diag. }
  rewrite Hnkey, Hlook, Hkey, Hlook, !Hdrop. simpl.
  rewrite arr_set_ok by (unfold emptyChildren; rewrite length_replicate; lia). simpl.
  rewrite arr_set_ok by (unfold zset, emptyChildren; rewrite length_insert, length_replicate; lia). simpl.
  rewrite take_app_length. by destruct p.
Qed.

Lemma wf_tail_branch p a ca b cb : Forall nibble p -> a <> b -> fits a ca -> fits b cb ->
  wf (tail_node p (branch2 a ca b cb)).
Proof.
  intros. pose proof (wf_branch2 a ca b cb). destruct p; [auto|].
  apply wf_ext; auto. do 2 eexists. by left.
Qed.

Lemma updated_split p a ka b kb nval fl v :
  a <> b -> fits a (tail_node ka nval) -> fits b (tail_node kb (ValueNode v)) ->
  updated (ShortNode (p ++ a :: ka) nval fl)
    (tail_node p (branch2 a (tail_node ka nval) b (tail_node kb (ValueNode v))))
    (p ++ b :: kb) v.
Proof.
  intros Hab Ha Hb k' v'. rewrite has_tail_node, has_Short.
  setoid_rewrite has_branch2; [|done..]. setoid_rewrite has_tail_node.
  setoid_rewrite has_Value. split.
  - intros (k2 & -> & k3 & [(-> & k4 & -> & Hh)|(-> & k4 & -> & -> & ->)]).
    + right. split; [|exists k4; by rewrite <- app_assoc].
      intros [= Heq _]%app_inv_head. done.
    + left. by rewrite app_nil_r.
  - intros [[-> ->]|(Hne & k4 & -> & Hh)].
    + exists (b :: kb). split; [done|]. exists kb. right. split; [done|]. exists []. by rewrite app_nil_r.
    + exists (a :: ka ++ k4). split; [by rewrite <- app_assoc|]. exists (ka ++ k4). left. eauto.
Qed.

Lemma wf_Short_keykind k c f : wf (ShortNode k c f) -> vkey k \/ Forall nibble k.
Proof. intros [(? & _)|(_ & ? & _)]%wf_Short_inv; auto. Qed.

(** What [insert] promises: a node that fits, holds [v] under [key] and is
    otherwise unchanged; a clean result means the value was there already. *)
Definition inserted (n : node) (key v : list byte) (d : bool) (n' : node) : Prop :=
  slot key n' /\ n' <> Nil /\ updated n n' key v /\
  (d = false -> has n key v) /\ (branchy n -> branchy n').

Lemma not_branchy_Short k c f : ~ branchy (ShortNode k c f).
Proof. intros (? & ? & [?|(? & ? & _)]); done. Qed.

Lemma not_branchy_Nil : ~ branchy Nil.
Proof. intros (? & ? & [?|(? & ? & _)]); done. Qed.

Lemma not_branchy_Value v : ~ branchy (ValueNode v).
Proof. intros (? & ? & [?|(? & ? & _)]); done. Qed.

Lemma branchy_Full cs f : branchy (FullNode cs f).
Proof. do 2 eexists. by left. Qed.

Lemma inserted_value n v : n = Nil \/ (exists w, w <> [] /\ n = ValueNode w) -> v <> [] ->
  forall d, (d = false -> n = ValueNode v) -> inserted n [] v d (ValueNode v).
Proof.
  intros Hn Hv d Hd. split; [left; eauto|]. split; [done|]. split; [|split].
  - intros k' v'. rewrite has_Value. split; [by left|].
    intros [?|[Hne Hh]]; [done|]. destruct Hn as [->|(w & _ & ->)].
    + by apply has_Nil in Hh.
    + by apply has_Value in Hh as [-> _].
  - intros ->%Hd. constructor.
  - destruct Hn as [->|(w & _ & ->)]; intros Hb; exfalso;
      [by apply not_branchy_Nil in Hb|by apply not_branchy_Value in Hb].
Qed.

Lemma inserted_leaf key v d : vkey key -> v <> [] -> d = true ->
  inserted Nil key v d (ShortNode key (ValueNode v) (newFlag gen)).
Proof.
  intros Hk Hv ->. split; [right; split; [done|right; by apply wf_leaf]|].
  split; [done|]. split; [|split; [done|by intros ?%not_branchy_Nil]].
  intros k' v'. rewrite has_Short. setoid_rewrite has_Value. split.
  - intros (k2 & -> & -> & ->). left. by rewrite app_nil_r.
  - intros [[-> ->]|[_ ?%has_Nil]]; [|done]. exists []. by rewrite app_nil_r.
Qed.

Lemma insert_Short_eq fuel nkey nval fl prefix rest value : nkey <> [] ->
  insert dbGet msgDecode gen (S fuel) (ShortNode nkey nval fl) prefix (nkey ++ rest) value =
  '(dirty, nn) ← insert dbGet msgDecode gen fuel nval (prefix ++ nkey) rest value;
  if negb dirty then Ok (false, ShortNode nkey nval fl)
  else Ok (true, ShortNode nkey nn (newFlag gen)).
Proof.
  intros Hne. pose proof (prefixLen_app nkey rest) as Hm.
  pose proof (take_app_length nkey rest) as Ht. pose proof (drop_app_length nkey rest) as Hd.
  destruct (nkey ++ rest) as [|k0 krest] eqn:Heq; [by destruct nkey|].
  cbn [insert]. rewrite Hm, Nat.eqb_refl, Ht, Hd. done.
Qed.

Lemma inserted_short nkey nval fl rest v d nn :
  wf (ShortNode nkey nval fl) -> vkey (nkey ++ rest) -> inserted nval rest v d nn ->
  inserted (ShortNode nkey nval fl) (nkey ++ rest) v d
    (if negb d then ShortNode nkey nval fl else ShortNode nkey nn (newFlag gen)).
Proof.
  intros Hw Hk (Hs & Hne & Hup & Hd & Hb).
  assert (d = false -> has (ShortNode nkey nval fl) (nkey ++ rest) v) as Hd'
    by (intros E; constructor; auto).
  split; [|split; [by destruct d|split; [|split; [done|by intros ?%not_branchy_Short]]]].
  - right. split; [done|right]. destruct d; simpl; [by eapply wf_Short_set|done].
  - destruct d; simpl; [by apply updated_short|apply updated_same; auto].
Qed.

Lemma inserted_full cs fl i k c v d nn :
  wf (FullNode cs fl) -> vkey (i :: k) -> zget cs i = Some c -> inserted c k v d nn ->
  inserted (FullNode cs fl) (i :: k) v d
    (if negb d then FullNode cs fl else FullNode (zset cs i nn) (newFlag gen)).
Proof.
  intros Hw Hk Hc (Hs & Hne & Hup & Hd & Hb).
  assert (d = false -> has (FullNode cs fl) (i :: k) v) as Hd'
    by (intros E; econstructor; eauto).
  split; [|split; [by destruct d|split; [|split; [done|intros _; destruct d; apply branchy_Full]]]].
  - right. split; [done|right]. destruct d; simpl; [|done].
    eapply wf_Full_zset; eauto. apply two_children_zset; [by eapply wf_Full_two|done].
  - destruct d; simpl; [by eapply updated_full|apply updated_same; auto].
Qed.

Lemma inserted_part key nkey nval fl v : wf (ShortNode nkey nval fl) -> vkey key -> v <> [] ->
  prefixLen key nkey <> length nkey ->
  forall fuel prefix, exists n',
    insert dbGet msgDecode gen (S (S fuel)) (ShortNode nkey nval fl) prefix key (ValueNode v) = Ok (true, n') /\
    inserted (ShortNode nkey nval fl) key v true n'.
Proof.
  intros Hw Hk Hv Hm fuel prefix.
  destruct (keys_part key nkey Hk (wf_Short_keykind _ _ _ Hw) Hm)
    as (p & a & ka & b & kb & -> & -> & Hab & Hp & _).
  assert (fits a (tail_node ka nval)) as Ha by (by eapply fits_tail_node).
  assert (fits b (tail_node kb (ValueNode v))) as Hb
    by (eapply (fits_tail_node p _ _ _ (newFlag gen)); [by apply wf_leaf|done]).
  eexists. split; [apply insert_split; eauto using fits_range|].
  split; [right; split; [done|right; by apply wf_tail_branch]|].
  split; [by destruct p|]. split; [by apply updated_split|]. split; [done|by intros ?%not_branchy_Short].
Qed.

Lemma insert_spec fuel n prefix key v :
  slot key n -> v <> [] -> (2 * length key + hcost n < fuel)%nat ->
  exists d n', insert dbGet msgDecode gen fuel n prefix key (ValueNode v) = Ok (d, n') /\
    inserted n key v d n'.
Proof.
  revert n prefix key. induction fuel as [|fuel IH]; intros n prefix key Hs Hv Hfuel; [lia|].
  destruct key as [|k0 krest] eqn:Hkey.
  { destruct Hs as [[_ Hn]|[?%vkey_not_nil _]]; [|done].
    exists (match n with ValueNode w => negb (bool_decide (w = v)) | _ => true end), (ValueNode v).
    split; [by destruct n|]. apply inserted_value; [done|done|].
    destruct n; try done. case_bool_decide; simpl; congruence. }
  assert (vkey (k0 :: krest)) as Hk by (by destruct Hs as [[? _]|[? _]]).
  destruct (slot_wf _ _ _ _ Hk Hs) as [->|Hw].
  { eexists true, _. split; [done|by apply inserted_leaf]. }
  destruct n as [|w|nkey nval fl|cs fl|h]; [by inversion Hw|by inversion Hw|..].
  - destruct (decide (prefixLen (k0 :: krest) nkey = length nkey)) as [Hm|Hm].
    + destruct (prefixLen_full _ _ Hm) as [rest Hrest]. rewrite Hrest in *.
      pose proof (wf_Short_key _ _ _ Hw) as Hkl.
      destruct (IH nval (prefix ++ nkey) rest) as (d & nn & Hins & Hpost);
        [by eapply wf_Short_slot|done| |].
      { rewrite length_app in Hfuel. unfold hcost in *. destruct (is_hash nval); lia. }
      rewrite insert_Short_eq, Hins by (intros ->; simpl in Hkl; lia). simpl.
      eexists d, _. split; [|by apply inserted_short]. by destruct d.
    + destruct fuel as [|fuel]; [simpl in Hfuel; lia|].
      destruct (inserted_part _ _ _ _ _ Hw Hk Hv Hm fuel prefix) as (n' & ? & ?). eauto.
  - destruct (wf_Full_child _ _ _ _ _ _ Hw Hk) as (c & Hc & Hsc).
    destruct (IH c (prefix ++ [k0]) krest) as (d & nn & Hins & Hpost); [done|done| |].
    { unfold hcost in *. simpl in Hfuel. destruct (is_hash c); lia. }
    cbn [insert]. rewrite Hc. simpl. rewrite Hins. simpl.
    eexists d, _. split; [|by eapply inserted_full]. by destruct d.
  - destruct (resolveHash_wf h prefix Hw) as (rn & Hres & Hwn & Hnh & Hhn & Hbn).
    destruct (IH rn prefix (k0 :: krest)) as (d & nn & Hins & (Hs' & Hne & Hup & Hd & Hb));
      [by apply slot_vkey_wf|done|unfold hcost in *; rewrite Hnh; simpl in *; lia|].
    cbn [insert]. rewrite Hres. simpl. rewrite Hins. simpl.
    exists d, (if negb d then rn else nn). split; [by destruct d|].
    assert (updated (HashNode h) nn (k0 :: krest) v) as Hup'.
    { intros k' v'. by rewrite (Hup k' v'), Hhn. }
    destruct d; simpl; (split; [|split; [|split; [|split]]]); auto; try done.
    + by apply slot_vkey_wf.
    + by eapply wf_not_nil.
    + intros k' v'. rewrite (updated_same rn _ _ (Hd eq_refl) k' v'). by rewrite Hhn.
    + intros _. apply Hhn. auto.
Qed.

(** ** Deleting *)

Definition removed (n n' : node) (key : list byte) : Prop :=
  forall k' v', has n' k' v' <-> k' <> key /\ has n k' v'.

(** What [delete] promises; a dirty result is never a bare reference, so that a
    parent can merge it. *)
Definition deleted (n : node) (key : list byte) (d : bool) (n' : node) : Prop :=
  slot key n' /\ removed n n' key /\ (d = false -> forall v, ~ has n key v) /\
  (d = true -> is_hash n' = false) /\ (branchy n -> n' <> Nil).

Lemma removed_same n key : (forall v, ~ has n key v) -> removed n n key.
Proof.
  intros Hno k' v'. split; [|by intros [_ ?]].
  intros H. split; [|done]. intros ->. by eapply Hno.
Qed.

Lemma removed_short p c c' f f' k :
  removed c c' k -> removed (ShortNode p c f) (ShortNode p c' f') (p ++ k).
Proof.
  intros Hr k' v'. rewrite !has_Short. split.
  - intros (k2 & -> & [? ?]%Hr). split; [by intros ?%app_inv_head|eauto].
  - intros (Hne & k2 & -> & ?). exists k2. split; [done|]. apply Hr. split; [by intros ->|done].
Qed.

Lemma removed_full cs f f' i c c' k :
  zget cs i = Some c -> removed c c' k ->
  removed (FullNode cs f) (FullNode (zset cs i c') f') (i :: k).
Proof.
  intros Hc Hr [|j k'] v'.
  { split; [by intros (? & ? & ? & ? & _)%has_Full|]. by intros (_ & (? & ? & ? & ? & _)%has_Full). }
  rewrite has_Full_zset by (by eapply zget_Some_range). rewrite has_Full_cons.
  case_decide; [subst j|].
  - rewrite Hc, (Hr k' v'). split.
    + intros [? ?]. split; [congruence|eauto].
    + intros (Hne & ? & [= <-] & ?). split; [congruence|done].
  - split; [intros ?; split; [congruence|done]|by intros [_ ?]].
Qed.

(** Merging the key of a short node into the key above it. *)
Lemma has_Short_merge p c k f f' f'' k' v :
  has (ShortNode (p ++ k) c f) k' v <-> has (ShortNode p (ShortNode k c f') f'') k' v.
Proof.
  rewrite !has_Short. setoid_rewrite has_Short. split.
  - intros (k2 & -> & ?). exists (k ++ k2). split; [by rewrite app_assoc|eauto].
  - intros (k1 & -> & k2 & -> & ?). exists k2. by rewrite app_assoc.
Qed.

Lemma wf_Short_merge p c k f f' : Forall nibble p -> wf (ShortNode k c f) -> wf (ShortNode (p ++ k) c f').
Proof.
  intros Hp [(Hk & v & Hv & ->)|(Hk & Hn & Hw & Hb)]%wf_Short_inv.
  - apply wf_leaf; [by apply vkey_app|done].
  - apply wf_ext; [|by apply Forall_app|done..]. by destruct p.
Qed.

(** ** The children of a full node *)

Definition good_children (cs : list node) : Prop :=
  length cs = 17%nat /\ forall i c, cs !! i = Some c -> c <> Nil -> fits (Z.of_nat i) c.

Lemma wf_Full_iff cs f : wf (FullNode cs f) <-> good_children cs /\ two_children cs.
Proof.
  split.
  - inversion_clear 1 as [| |? ? Hl Hc H16 H2|]. split; [split; [done|]|done].
    intros i c Hi Hne. pose proof (lookup_lt_Some _ _ _ Hi).
    destruct (decide (i = 16%nat)) as [->|]; [left; split; [done|eauto]|right].
    split; [unfold nibble; lia|]. eapply Hc; [done|lia|done].
  - intros [[Hl Hf] H2]. apply wf_full; [done|..|done].
    + intros i c Hi Hlt Hne. destruct (Hf i c Hi Hne) as [[? _]|[_ ?]]; [lia|done].
    + intros c Hi Hne. destruct (Hf _ c Hi Hne) as [[_ ?]|[Hx _]]; [done|unfold nibble in Hx; lia].
Qed.

Lemma slot_fits i k c : vkey (i :: k) -> slot k c -> c <> Nil -> fits i c.
Proof.
  intros Hk Hs Hne. apply vkey_cons in Hk as [[-> ->]|[Hi Hk]].
  - left. split; [done|]. destruct Hs as [[_ [?|?]]|[?%vkey_not_nil _]]; done.
  - right. split; [done|]. by destruct (slot_wf _ _ _ _ Hk Hs).
Qed.

Lemma good_children_zset cs i k c : good_children cs -> vkey (i :: k) -> slot k c ->
  good_children (zset cs i c).
Proof.
  intros [Hl Hf] Hk Hs. pose proof (vkey_range _ 0 i Hk eq_refl). split.
  { unfold zset. by rewrite length_insert. }
  intros j cj Hj Hne. unfold zset in Hj. destruct (decide (Z.to_nat i = j)) as [<-|].
  - rewrite list_lookup_insert_eq in Hj by lia. injection Hj as <-.
    rewrite Z2Nat.id by lia. by eapply slot_fits.
  - rewrite list_lookup_insert_ne in Hj by done. auto.
Qed.

(** The loop over the children finds the single child that is left. *)
Lemma scanPos_seen cs i p : 0 <= p ->
  (scanPos cs i p = p /\ (forall j c, cs !! j = Some c -> c = Nil)) \/
  (scanPos cs i p = -2 /\ exists j c, cs !! j = Some c /\ c <> Nil).
Proof.
  revert i. induction cs as [|c cs IH]; intros i Hp; [by left|]. simpl.
  destruct (is_nil c) eqn:Hc.
  - apply is_nil_true in Hc as ->. destruct (IH (i + 1) Hp) as [[-> Hall]|[-> (j & d & ? & ?)]].
    + left. split; [done|]. intros [|j] d Hj; simplify_eq/=; eauto.
    + right. split; [done|]. by exists (S j), d.
  - destruct (Z.eqb_spec p (-1)); [lia|]. right. split; [done|].
    exists 0%nat, c. split; [done|]. by intros ->.
Qed.

Lemma scanPos_spec cs i : 0 <= i ->
  (scanPos cs i (-1) = -1 /\ forall j c, cs !! j = Some c -> c = Nil) \/
  (exists j c, scanPos cs i (-1) = i + Z.of_nat j /\ cs !! j = Some c /\ c <> Nil /\
     forall j' c', cs !! j' = Some c' -> c' <> Nil -> j' = j) \/
  (scanPos cs i (-1) = -2 /\ two_children cs).
Proof.
  revert i. induction cs as [|c cs IH]; intros i Hi; [by left|]. simpl.
  destruct (is_nil c) eqn:Hc.
  - apply is_nil_true in Hc as ->.
    destruct (IH (i + 1)) as [[-> Hall]|[(j & d & -> & Hj & Hd & Hu)|[-> (a & b & ca & cb & ?)]]]; [lia|..].
    + left. split; [done|]. intros [|j] d Hj; simplify_eq/=; eauto.
    + right. left. exists (S j), d. split; [lia|]. split; [done|]. split; [done|].
      intros [|j'] c' Hj' Hc'; simplify_eq/=. f_equal. eauto.
    + right. right. split; [done|]. exists (S a), (S b), ca, cb.
      destruct_and!. repeat split; auto.
  - assert (c <> Nil) as Hne by (by intros ->).
    destruct (scanPos_seen cs (i + 1) i Hi) as [[-> Hall]|[-> (j & d & Hj & Hd)]].
    + right. left. exists 0%nat, c. split; [lia|]. split; [done|]. split; [done|].
      intros [|j'] c' Hj' Hc'; simplify_eq/=; [done|]. by destruct Hc'; eapply Hall.
    + right. right. split; [done|]. by exists 0%nat, (S j), c, d.
Qed.

(** ** Collapsing a full node with one child *)

(** The end of [delete] for a full node whose only child is [child] at [pos]. *)
Definition collapse (pos : Z) (child : node) (prefix : list byte) : outcome trieErr (bool * node) :=
  if negb (pos =? 16) then
    cnode ← resolve dbGet msgDecode gen child prefix;
    match cnode with
    | ShortNode ckey cval _ => Ok (true, ShortNode (pos :: ckey) cval (newFlag gen))
    | _ => Ok (true, ShortNode [pos] child (newFlag gen))
    end
  else Ok (true, ShortNode [pos] child (newFlag gen)).

Lemma has_Short_cons pos c f k v :
  has (ShortNode [pos] c f) k v <-> exists k', k = pos :: k' /\ has c k' v.
Proof. apply has_Short. Qed.

Lemma wf_branchy_cases c : wf c -> is_hash c = false ->
  (exists k d f, c = ShortNode k d f) \/ exists cs f, c = FullNode cs f.
Proof. destruct 1; simpl; intros; try discriminate; eauto. Qed.

Lemma collapse_spec pos child prefix : fits pos child -> exists n',
  collapse pos child prefix = Ok (true, n') /\ wf n' /\ is_hash n' = false /\
  forall k v, has n' k v <-> exists k', k = pos :: k' /\ has child k' v.
Proof.
  intros [[-> (w & Hw & ->)]|[Hp Hw]].
  - eexists. split; [done|]. split; [|split; [done|intros; apply has_Short_cons]].
    apply wf_leaf; [by exists []|done].
  - assert (exists cn, resolve dbGet msgDecode gen child prefix = Ok cn /\ wf cn /\ is_hash cn = false /\
      (forall k v, has cn k v <-> has child k v) /\ (forall cs f, cn = FullNode cs f -> branchy child))
      as (cn & Hres & Hwc & Hhc & Hhas & Hb).
    { destruct child as [|w|ck cv cf|cs cf|h]; try by inversion Hw.
      - eexists. split; [done|]. repeat split; try done.
      - eexists. split; [done|]. repeat split; try done. intros. apply branchy_Full.
      - destruct (wf_hash_inv _ _ _ Hw) as (m & Hs & Hwm & Hhm).
        exists (setNodeflag m (Some h) gen). split; [by apply resolveHash_stored|].
        split; [by apply wf_setNodeflag|]. split; [by rewrite setNodeflag_is_hash|]. split.
        + intros. by rewrite has_setNodeflag, has_Hash by done.
        + intros cs f Heq. destruct m; try discriminate. do 2 eexists. right. eauto. }
    unfold collapse. replace (pos =? 16) with false by (unfold nibble in Hp; lia). simpl.
    rewrite Hres. simpl.
    destruct (wf_branchy_cases cn Hwc Hhc) as [(ck & cv & cf & ->)|(cs & f & ->)]; eexists; (split; [done|]).
    + split; [|split; [done|]].
      * apply (wf_Short_merge [pos] cv ck cf); [by constructor|done].
      * intros k v. rewrite (has_Short_merge [pos] cv ck _ cf (newFlag gen)), has_Short_cons.
        by setoid_rewrite Hhas.
    + split; [|split; [done|intros; apply has_Short_cons]].
      apply wf_ext; [done|by constructor|done|by eapply Hb].
Qed.

(** The end of [delete] for a full node. *)
Lemma deleted_full cs fl i k c nn prefix :
  wf (FullNode cs fl) -> vkey (i :: k) -> zget cs i = Some c -> slot k nn -> removed c nn k ->
  exists n',
    (let pos := scanPos (zset cs i nn) 0 (-1) in
     if 0 <=? pos then
       child ← of_index (zget (zset cs i nn) pos);
       collapse pos child prefix
     else Ok (true, FullNode (zset cs i nn) (newFlag gen))) = Ok (true, n') /\
    deleted (FullNode cs fl) (i :: k) true n'.
Proof.
  intros Hw Hk Hc Hs Hr. apply wf_Full_iff in Hw as [Hg H2].
  pose proof (good_children_zset _ _ _ _ Hg Hk Hs) as Hg'.
  pose proof (removed_full _ fl (newFlag gen) _ _ _ _ Hc Hr) as Hrem.
  destruct (scanPos_spec (zset cs i nn) 0) as [[_ Hall]|[(j & d & -> & Hj & Hd & Hu)|[-> H2']]]; [lia|..].
  - exfalso. destruct H2 as (a & b & ca & cb & Hab & Ha & Hb & Hca & Hcb). unfold zset in Hall.
    destruct (decide (Z.to_nat i = a)) as [<-|].
    + apply Hcb, (Hall b). by rewrite list_lookup_insert_ne.
    + apply Hca, (Hall a). by rewrite list_lookup_insert_ne.
  - rewrite Z.add_0_l. cbv zeta. rewrite (proj2 (Z.leb_le 0 (Z.of_nat j))) by lia.
    assert (zget (zset cs i nn) (Z.of_nat j) = Some d) as Hz by (by rewrite zget_lookup, Nat2Z.id by lia).
    rewrite Hz. cbn [of_index mbind outcome_bind].
    destruct (collapse_spec (Z.of_nat j) d prefix) as (n' & Hcol & Hwn & Hhn & Hhas).
    { by apply Hg'. }
    exists n'. split; [exact Hcol|]. split; [by apply slot_vkey_wf|]. split; [|split; [done|split; [done|]]].
    + intros k' v'. rewrite Hhas, <- (Hrem k' v'), has_Full. split.
      * intros (k2 & -> & ?). eauto 8.
      * intros (x & cx & k2 & -> & Hx & Hh).
        assert (x = Z.of_nat j) as ->.
        { pose proof (zget_Some_range _ _ _ Hx). rewrite zget_lookup in Hx by lia.
          rewrite <- (Hu _ _ Hx); [lia|]. intros ->. by apply has_Nil in Hh. }
        rewrite Hz in Hx. injection Hx as <-. eauto.
    + intros _. by eapply wf_not_nil.
  - exists (FullNode (zset cs i nn) (newFlag gen)). split; [done|].
    split; [apply slot_vkey_wf; [done|by apply wf_Full_iff]|]. split; [done|]. repeat split; done.
Qed.

(** Deletion below a short node. *)
Lemma deleted_short nkey nval fl rest d child :
  wf (ShortNode nkey nval fl) -> vkey (nkey ++ rest) -> rest <> [] -> deleted nval rest d child ->
  exists n',
    (if negb d then Ok (false, ShortNode nkey nval fl)
     else match child with
          | ShortNode ckey cval _ => Ok (true, ShortNode (concat nkey ckey) cval (newFlag gen))
          | _ => Ok (true, ShortNode nkey child (newFlag gen))
          end : outcome trieErr _) = Ok (d, n') /\
    deleted (ShortNode nkey nval fl) (nkey ++ rest) d n'.
Proof.
  intros Hw Hk Hne (Hs & Hrem & Hno & Hh & Hb).
  destruct d; simpl.
  2: { eexists. split; [done|].
       assert (forall v, ~ has (ShortNode nkey nval fl) (nkey ++ rest) v) as Hno'.
       { intros v (k2 & <-%app_inv_head & ?)%has_Short. by eapply Hno. }
       split; [by apply slot_vkey_wf|]. split; [by apply removed_same|].
       split; [done|]. split; [done|]. by intros ?%not_branchy_Short. }
  pose proof (wf_Short_inv _ _ _ Hw) as [(Hnk & _)|(_ & Hnib & Hwv & Hbr)].
  { destruct Hne. exact (vkey_prefix_free _ _ Hnk Hk). }
  assert (vkey rest) as Hkr by (by apply vkey_app in Hk).
  assert (wf child) as Hwc by (destruct (slot_wf _ _ _ _ Hkr Hs); [by destruct (Hb Hbr)|done]).
  destruct (wf_branchy_cases child Hwc (Hh eq_refl)) as [(ck & cv & cf & ->)|(cs & cf & ->)];
    eexists; (split; [done|]); (split; [|split; [|split; [done|split; [done|by intros ?%not_branchy_Short]]]]).
  - apply slot_vkey_wf; [done|]. by eapply wf_Short_merge.
  - intros k' v'. unfold concat. rewrite (has_Short_merge _ _ _ _ cf (newFlag gen)).
    by apply (removed_short nkey nval _ fl (newFlag gen) rest).
  - apply slot_vkey_wf; [done|]. apply wf_ext; auto using branchy_Full.
    intros ->. apply wf_Short_key in Hw. simpl in Hw. lia.
  - by apply removed_short.
Qed.

Lemma deleted_gone key n : key = [] \/ vkey key ->
  (forall k v, has n k v -> k = key) -> ~ branchy n -> deleted n key true Nil.
Proof.
  intros Hk Honly Hnb. split; [by apply slot_Nil|]. split; [|split; [done|split; done]].
  intros k' v'. split; [by intros ?%has_Nil|]. intros [Hne Hh]. by destruct Hne; eapply Honly.
Qed.

Lemma delete_spec fuel n prefix key :
  slot key n -> (2 * length key + hcost n < fuel)%nat ->
  exists d n', delete dbGet msgDecode gen fuel n prefix key = Ok (d, n') /\ deleted n key d n'.
Proof.
  revert n prefix key. induction fuel as [|fuel IH]; intros n prefix key Hs Hfuel; [lia|].
  destruct n as [|w|nkey nval fl|cs fl|h].
  - exists false, Nil. split; [done|]. split; [done|]. split; [|split; [by intros _ v ?%has_Nil|split; [done|]]].
    + apply removed_same. by intros v ?%has_Nil.
    + by intros ?%not_branchy_Nil.
  - assert (key = []) as -> by (destruct Hs as [[? _]|[_ [?|Hw]]]; [done|done|inversion Hw]).
    exists true, Nil. split; [done|]. apply deleted_gone; [by left| |apply not_branchy_Value].
    by intros k v [-> _]%has_Value.
  - assert (vkey key /\ wf (ShortNode nkey nval fl)) as [Hk Hw].
    { destruct Hs as [[_ [?|(?&?&?)]]|[? [?|?]]]; done. }
    pose proof (wf_Short_key _ _ _ Hw) as Hkl. cbn [delete].
    destruct (Nat.ltb_spec (prefixLen key nkey) (length nkey)) as [Hlt|Hge].
    { assert (forall v, ~ has (ShortNode nkey nval fl) key v) as Hno.
      { intros v (k2 & -> & _)%has_Short. rewrite prefixLen_app in Hlt. lia. }
      eexists false, _. split; [done|]. split; [done|]. split; [by apply removed_same|].
      split; [done|]. split; [done|]. by intros ?%not_branchy_Short. }
    assert (prefixLen key nkey = length nkey) as Hm by (pose proof (prefixLen_le_r key nkey); lia).
    destruct (prefixLen_full _ _ Hm) as [rest ->]. rewrite Hm.
    destruct (Nat.eqb_spec (length nkey) (length (nkey ++ rest))) as [Hl|Hl].
    + assert (rest = []) as -> by (apply nil_length_inv; rewrite length_app in Hl; lia).
      rewrite app_nil_r in *. eexists true, Nil. split; [done|].
      apply wf_Short_inv in Hw as [(_ & v & Hv & ->)|(_ & Hn & _)]; [|by apply nibbles_not_vkey in Hn].
      apply deleted_gone; [by right| |apply not_branchy_Short].
      intros k v' (k2 & -> & [-> _]%has_Value)%has_Short. apply app_nil_r.
    + destruct (IH nval (prefix ++ nkey) rest) as (d & child & Hdel & Hpost);
        [by eapply wf_Short_slot| |].
      { rewrite length_app in *. unfold hcost in *. simpl in Hfuel. destruct (is_hash nval); lia. }
      rewrite take_app_length, drop_app_length, Hdel. simpl.
      destruct (deleted_short nkey nval fl rest d child) as (n' & Heq & Hpost'); [done|done| |done|].
      { intros ->. rewrite app_nil_r in Hl. done. }
      rewrite Heq. eauto.
  - assert (vkey key /\ wf (FullNode cs fl)) as [Hk Hw].
    { destruct Hs as [[_ [?|(?&?&?)]]|[? [?|?]]]; done. }
    destruct key as [|k0 krest]; [by apply vkey_not_nil in Hk|].
    destruct (wf_Full_child _ _ _ _ _ _ Hw Hk) as (c & Hc & Hsc).
    destruct (IH c (prefix ++ [k0]) krest) as (d & nn & Hdel & (Hs' & Hrem & Hno & _ & _)); [done| |].
    { unfold hcost in *. simpl in Hfuel. destruct (is_hash c); lia. }
    simpl. rewrite Hc. simpl. rewrite drop_0, Hdel. simpl.
    destruct d.
    + destruct (deleted_full _ _ _ _ _ _ prefix Hw Hk Hc Hs' Hrem) as (n' & Heq & Hpost).
      exists true, n'. split; [|done]. exact Heq.
    + assert (forall v, ~ has (FullNode cs fl) (k0 :: krest) v) as Hno'.
      { intros v (c' & Hc' & Hh)%has_Full_cons. simplify_eq. by eapply Hno. }
      eexists false, _. split; [done|]. split; [done|]. split; [by apply removed_same|]. done.
  - assert (vkey key /\ wf (HashNode h)) as [Hk Hw].
    { destruct Hs as [[_ [?|(?&?&?)]]|[? [?|?]]]; done. }
    destruct (resolveHash_wf h prefix Hw) as (rn & Hres & Hwn & Hnh & Hhn & Hbn).
    destruct (IH rn prefix key) as (d & nn & Hdel & (Hs' & Hrem & Hno & Hhd & Hb));
      [by apply slot_vkey_wf|unfold hcost in *; rewrite Hnh; simpl in *; lia|].
    cbn [delete]. rewrite Hres. simpl. rewrite Hdel. simpl.
    assert (d = false -> forall v, ~ has (HashNode h) key v) as Hno'.
    { intros Hd v Hh. apply Hhn in Hh. by eapply Hno. }
    exists d, (if negb d then rn else nn). split; [by destruct d|].
    destruct d; simpl; (split; [|split; [|split; [done|split]]]); auto.
    + intros k' v'. by rewrite (Hrem k' v'), Hhn.
    + by apply slot_vkey_wf.
    + intros k' v'. rewrite (removed_same rn key (Hno eq_refl) k' v'). by rewrite Hhn.
    + intros _. by eapply wf_not_nil.
Qed.

End Correct.
