(* ===== verification/TrieMap.v ===== *)
(** * The trie as a finite map

    [represents t m]: the trie [t] holds exactly the bindings of the finite map
    [m].  Reading, updating and deleting refine lookup, insertion and deletion of
    the map, and minimal form is canonical: two tries that represent the same
    map have the same shape. *)

From stdpp Require Import base list gmap numbers option.
From S2P Require Import Prelude TrieEncoding TrieNode Trie TrieContents TrieCorrect.

Section Refinement.

Context (dbGet : list byte -> option (list byte)).
Context (msgDecode : list byte -> option node).

Abbreviation stored := (stored dbGet msgDecode).
Abbreviation has := (has dbGet msgDecode).
Abbreviation wf := (wf dbGet msgDecode).
Abbreviation slot := (slot dbGet msgDecode).
Abbreviation branchy := (branchy dbGet msgDecode).

Record represents (t : Trie) (m : gmap (list byte) (list byte)) : Prop := {
  rep_wf : root t = Nil \/ wf (root t);
  rep_has : forall k v, has (root t) k v <->
    exists key, Forall byte_ok key /\ k = keybytesToHex key /\ m !! key = Some v;
}.

Lemma keybytesToHex_vkey key : Forall byte_ok key -> vkey (keybytesToHex key).
Proof. intros H. destruct (keybytesToHex_hexkey key H) as (ns & -> & Hn & _). by exists ns. Qed.

Lemma rep_slot t m key : represents t m -> Forall byte_ok key -> slot (keybytesToHex key) (root t).
Proof. intros Hr Hk. right. split; [by apply keybytesToHex_vkey|by apply (rep_wf t m)]. Qed.

Lemma rep_lookup t m key v : represents t m -> Forall byte_ok key ->
  has (root t) (keybytesToHex key) v <-> m !! key = Some v.
Proof.
  intros Hr Hk. rewrite (rep_has t m Hr). split; [|eauto].
  intros (key' & Hk' & Heq%keybytesToHex_inj & ?); by subst.
Qed.

Lemma fuel_for_enough key n : (2 * length key + hcost n < fuel_for key)%nat.
Proof. unfold fuel_for, hcost. destruct (is_hash n); lia. Qed.

Lemma empty_represents h g l : represents (mkTrie Nil h g l) ∅.
Proof.
  split; [by left|]. intros k v. split; [by intros ?%has_Nil|].
  intros (key & _ & _ & Hl). by rewrite lookup_empty in Hl.
Qed.

Lemma rep_with_root t m n : slot (keybytesToHex []) n ->
  (forall k v, has n k v <-> exists key, Forall byte_ok key /\ k = keybytesToHex key /\ m !! key = Some v) ->
  represents (with_root t n) m.
Proof.
  intros Hs Hh. split; [|done]. apply (slot_wf _ _ (keybytesToHex [])); [|done].
  by apply keybytesToHex_vkey.
Qed.

(** The slot of the whole trie does not depend on the key looked up. *)
Lemma slot_vkey_any k k' n : vkey k -> vkey k' -> slot k n -> slot k' n.
Proof. intros Hk Hk' Hs. right. split; [done|]. exact (slot_wf _ _ _ _ Hk Hs). Qed.

Lemma TryGet_ok t m key : represents t m -> Forall byte_ok key ->
  exists t', TryGet dbGet msgDecode t key = (Ok (m !! key), t') /\ represents t' m.
Proof.
  intros Hrep Hkey. pose proof (rep_slot _ _ _ Hrep Hkey) as Hs.
  destruct (tryGet_spec dbGet msgDecode (cachegen t) (fuel_for (keybytesToHex key)) (root t)
              (keybytesToHex key) 0) as (val & n' & r & Hget & Hval & Hs' & _ & Hhas & _);
    [by rewrite drop_0|lia|rewrite Nat.sub_0_r; apply fuel_for_enough|].
  rewrite drop_0 in *. unfold TryGet. rewrite Hget.
  assert (val = m !! key) as ->.
  { apply option_eq. intros v. by rewrite Hval, (rep_lookup t m). }
  eexists. split; [done|]. destruct r; [|done].
  apply rep_with_root.
  - eapply slot_vkey_any; [..|exact Hs']; by apply keybytesToHex_vkey.
  - intros k v. rewrite Hhas. by apply rep_has.
Qed.

Lemma TryDelete_ok t m key : represents t m -> Forall byte_ok key ->
  exists n, set_result t (delete dbGet msgDecode (cachegen t) (fuel_for (keybytesToHex key)) (root t) []
    (keybytesToHex key)) = (Ok (), with_root t n) /\ represents (with_root t n) (base.delete key m).
Proof.
  intros Hrep Hkey. pose proof (rep_slot _ _ _ Hrep Hkey) as Hs.
  destruct (delete_spec dbGet msgDecode (cachegen t) (fuel_for (keybytesToHex key)) (root t) []
              (keybytesToHex key) Hs) as (d & n & Hdel & (Hs' & Hrem & _)); [apply fuel_for_enough|].
  exists n. rewrite Hdel. split; [done|]. apply rep_with_root.
  - eapply slot_vkey_any; [..|exact Hs']; by apply keybytesToHex_vkey.
  - intros k v. rewrite (Hrem k v), (rep_has t m Hrep). split.
    + intros (Hne & key' & ? & -> & ?). exists key'. repeat split; try done.
      rewrite lookup_delete_ne; [done|congruence].
    + intros (key' & Hk' & -> & [Hne Hl]%lookup_delete_Some).
      split; [by intros ?%keybytesToHex_inj|eauto].
Qed.

Lemma TryUpdate_ok t m key value : represents t m -> Forall byte_ok key ->
  exists t', TryUpdate dbGet msgDecode t key value = (Ok (), t') /\
    represents t' (if decide (value = []) then base.delete key m else <[key := value]> m).
Proof.
  intros Hrep Hkey. unfold TryUpdate. destruct (decide (value = [])) as [->|Hv].
  - destruct (TryDelete_ok t m key Hrep Hkey) as (n & -> & ?). eauto.
  - replace (length value =? 0)%nat with false by (by destruct value). simpl negb. cbv iota.
    pose proof (rep_slot _ _ _ Hrep Hkey) as Hs.
    destruct (insert_spec dbGet msgDecode (cachegen t) (fuel_for (keybytesToHex key)) (root t) []
                (keybytesToHex key) value Hs Hv) as (d & n & -> & (Hs' & _ & Hup & _)); [apply fuel_for_enough|].
    eexists. split; [done|]. apply rep_with_root.
    + eapply slot_vkey_any; [..|exact Hs']; by apply keybytesToHex_vkey.
    + intros k v. rewrite (Hup k v), (rep_has t m Hrep). split.
      * intros [[-> ->]|(Hne & key' & ? & -> & ?)].
        -- exists key. by rewrite lookup_insert_eq.
        -- exists key'. repeat split; try done. rewrite lookup_insert_ne; [done|congruence].
      * intros (key' & Hk' & -> & [[-> ->]|[Hne Hl]]%lookup_insert_Some); [by left|right].
        split; [by intros ?%keybytesToHex_inj|eauto].
Qed.

(** [TryGet] on a trie that represents [m] returns the binding of the key in
    [m] (nil when there is none), never an error or a panic, and the nodes it
    loads from the database on the way do not change what the trie holds. *)
Theorem TryGet_refines (t : Trie) (m : gmap (list byte) (list byte)) (key : list byte)
    (Hrep : represents t m) (Hkey : Forall byte_ok key) :
  exists t', TryGet dbGet msgDecode t key = (Ok (m !! key), t') /\ represents t' m.
Proof. by apply TryGet_ok. Qed.

(** C27: [TryUpdate] with a non-empty value binds the key to the value, with an
    empty value it removes the key; it never fails, and every other binding is
    unchanged. *)
Theorem TryUpdate_refines (t : Trie) (m : gmap (list byte) (list byte)) (key value : list byte)
    (Hrep : represents t m) (Hkey : Forall byte_ok key) :
  exists t', TryUpdate dbGet msgDecode t key value = (Ok (), t') /\
    represents t' (if decide (value = []) then base.delete key m else <[key := value]> m).
Proof. by apply TryUpdate_ok. Qed.

(** [TryDelete] removes the key, and only it, whether or not it was bound. *)
Theorem TryDelete_refines (t : Trie) (m : gmap (list byte) (list byte)) (key : list byte)
    (Hrep : represents t m) (Hkey : Forall byte_ok key) :
  exists t', TryDelete dbGet msgDecode t key = (Ok (), t') /\ represents t' (base.delete key m).
Proof. destruct (TryDelete_ok t m key Hrep Hkey) as (n & H & ?). eauto. Qed.

(** ** Minimal form is canonical *)

(** Two nodes of the same shape: equal up to cache flags and to which parts are
    still references into the database. *)
Inductive same : node -> node -> Prop :=
| same_nil : same Nil Nil
| same_value v : same (ValueNode v) (ValueNode v)
| same_short k c c' f f' : same c c' -> same (ShortNode k c f) (ShortNode k c' f')
| same_full cs cs' f f' :
    length cs = length cs' ->
    (forall i c c', cs !! i = Some c -> cs' !! i = Some c' -> same c c') ->
    same (FullNode cs f) (FullNode cs' f')
| same_hash_l h n n' : stored h n -> same n n' -> same (HashNode h) n'
| same_hash_r h n n' : stored h n' -> same n n' -> same n (HashNode h).

(** Every node in minimal form holds something. *)
Lemma wf_inhabited n : wf n -> exists k v, has n k v.
Proof.
  induction 1 as [k v f Hk Hv|k c f _ _ _ (k' & v & IH) _|cs f Hl Hc IH H16 H2|h n Hs _ (k & v & IH) _].
  - exists (k ++ []), v. constructor. constructor.
  - exists (k ++ k'), v. by constructor.
  - destruct H2 as (i & _ & c & _ & _ & Hi & _ & Hne & _).
    pose proof (lookup_lt_Some _ _ _ Hi).
    assert (exists k v, has c k v) as (k & v & Hh).
    { destruct (decide (i = 16%nat)) as [->|]; [|eapply IH; eauto; lia].
      destruct (H16 c Hi Hne) as (v & _ & ->). exists [], v. constructor. }
    exists (Z.of_nat i :: k), v. eapply has_full; [|done]. by rewrite zget_lookup, Nat2Z.id by lia.
  - exists k, v. by econstructor.
Qed.

Lemma wf_Full_split cs f : wf (FullNode cs f) -> exists x y k k' v v', x <> y /\
  has (FullNode cs f) (x :: k) v /\ has (FullNode cs f) (y :: k') v'.
Proof.
  intros [[Hl Hg] (i & j & ci & cj & Hij & Hi & Hj & Hni & Hnj)]%wf_Full_iff.
  assert (forall i c, cs !! i = Some c -> c <> Nil -> exists k v, has (FullNode cs f) (Z.of_nat i :: k) v) as Hex.
  { intros a c Ha Hne. assert (exists k v, has c k v) as (k & v & Hh).
    { destruct (Hg a c Ha Hne) as [[_ (v & _ & ->)]|[_ Hw]]; [exists [], v; constructor|by apply wf_inhabited]. }
    exists k, v. eapply has_full; [|done]. by rewrite zget_lookup, Nat2Z.id by lia. }
  destruct (Hex i ci Hi Hni) as (k & v & ?), (Hex j cj Hj Hnj) as (k' & v' & ?).
  exists (Z.of_nat i), (Z.of_nat j), k, k', v, v'. split; [lia|done].
Qed.

Lemma branchy_split c : wf c -> branchy c -> exists x y k k' v v', x <> y /\
  has c (x :: k) v /\ has c (y :: k') v'.
Proof.
  intros Hw (cs & f & [->|(h & -> & Hs)]); [by eapply wf_Full_split|].
  apply wf_hash_inv in Hw as (n & Hs' & Hw & _).
  rewrite (stored_fun _ _ _ _ _ Hs' Hs) in Hw.
  destruct (wf_Full_split _ _ Hw) as (x & y & k & k' & v & v' & ? & ? & ?).
  exists x, y, k, k', v, v'. repeat split; try done; by econstructor.
Qed.

Definition same_contents (n n' : node) : Prop := forall k v, has n k v <-> has n' k v.

Lemma same_contents_sym n n' : same_contents n n' -> same_contents n' n.
Proof. intros H k v. by rewrite (H k v). Qed.

(** Everything below a short node starts with its key. *)
Lemma has_Short_prefix p c f k v : has (ShortNode p c f) k v -> p `prefix_of` k.
Proof. intros (k' & -> & _)%has_Short. by exists k'. Qed.

Lemma has_Short_app p c f k v : has (ShortNode p c f) (p ++ k) v <-> has c k v.
Proof. rewrite has_Short. split; [by intros (k' & <-%app_inv_head & ?)|eauto]. Qed.

Lemma diverging_prefix (p k a b : list byte) x y :
  p `prefix_of` k ++ x :: a -> p `prefix_of` k ++ y :: b -> x <> y -> p `prefix_of` k.
Proof.
  revert p. induction k as [|z k IH]; intros [|w p] Ha Hb Hxy; try apply prefix_nil.
  - apply prefix_cons_inv_1 in Ha, Hb. congruence.
  - pose proof (prefix_cons_inv_1 _ _ _ _ Ha) as ->. apply prefix_cons.
    apply IH; [by apply prefix_cons_inv_2 in Ha|by apply prefix_cons_inv_2 in Hb|done].
Qed.

(** The key of an extension is a prefix of any short-node key with the same contents. *)
Lemma ext_key_prefix k c f k' c' f' : wf c -> branchy c ->
  same_contents (ShortNode k c f) (ShortNode k' c' f') -> k' `prefix_of` k.
Proof.
  intros Hw Hb Hsame.
  destruct (branchy_split c Hw Hb) as (x & y & a & b & v & v' & Hxy & Hx & Hy).
  eapply diverging_prefix; [..|exact Hxy]; eapply has_Short_prefix; apply Hsame, has_Short_app; eauto.
Qed.

Lemma full_not_short cs f k c f' : wf (FullNode cs f) -> wf (ShortNode k c f') ->
  ~ same_contents (FullNode cs f) (ShortNode k c f').
Proof.
  intros Hw Hs Hsame. destruct (wf_Full_split _ _ Hw) as (x & y & a & b & v & v' & Hxy & Hx & Hy).
  apply Hsame, has_Short_prefix in Hx, Hy.
  pose proof (diverging_prefix k [] a b x y Hx Hy Hxy) as ->%prefix_nil_inv.
  apply wf_Short_key in Hs. simpl in Hs. lia.
Qed.

Lemma leaf_not_ext k v f k' c' f' : wf c' -> branchy c' ->
  ~ same_contents (ShortNode k (ValueNode v) f) (ShortNode k' c' f').
Proof.
  intros Hw Hb Hsame. destruct (branchy_split c' Hw Hb) as (x & y & a & b & w & w' & Hxy & Hx & Hy).
  eapply (has_Short_app k' c' f'), Hsame in Hx as (k1 & Hx & [-> _]%has_Value)%has_Short.
  eapply (has_Short_app k' c' f'), Hsame in Hy as (k2 & Hy & [-> _]%has_Value)%has_Short.
  rewrite app_nil_r in Hx, Hy. rewrite <- Hx in Hy. by apply app_inv_head in Hy as [= ? _].
Qed.

Lemma same_load n : (forall n', wf n' -> is_hash n' = false -> same_contents n n' -> same n n') ->
  forall n', wf n' -> same_contents n n' -> same n n'.
Proof.
  intros H n' Hw Hsame. destruct (is_hash n') eqn:Hh; [|by apply H].
  destruct n'; try discriminate. apply wf_hash_inv in Hw as (m & Hs & Hw & Hm).
  eapply same_hash_r; [done|]. apply H; [done..|].
  intros k v. by rewrite (Hsame k v), has_Hash.
Qed.

Lemma same_contents_child cs f cs' f' i c c' :
  same_contents (FullNode cs f) (FullNode cs' f') -> cs !! i = Some c -> cs' !! i = Some c' ->
  same_contents c c'.
Proof.
  intros Hsame Hc Hc' k v. specialize (Hsame (Z.of_nat i :: k) v).
  rewrite !has_Full_cons, !zget_lookup, !Nat2Z.id, Hc, Hc' in Hsame by lia.
  split; intros Hh; [destruct (proj1 Hsame) as (? & [= <-] & ?)|destruct (proj2 Hsame) as (? & [= <-] & ?)]; eauto.
Qed.

Lemma fits_inhabited i c : fits dbGet msgDecode i c -> exists k v, has c k v.
Proof. intros [[_ (v & _ & ->)]|[_ Hw]]; [exists [], v; constructor|by apply wf_inhabited]. Qed.

Lemma canonical_full cs f cs' f' :
  wf (FullNode cs f) -> wf (FullNode cs' f') -> same_contents (FullNode cs f) (FullNode cs' f') ->
  (forall i c, cs !! i = Some c -> (i < 16)%nat -> c <> Nil ->
     forall n', wf n' -> same_contents c n' -> same c n') ->
  same (FullNode cs f) (FullNode cs' f').
Proof.
  intros Hw Hw' Hsame IH. apply wf_Full_iff in Hw as [[Hl Hg] _], Hw' as [[Hl' Hg'] _].
  apply same_full; [congruence|]. intros i c c' Hc Hc'.
  pose proof (same_contents_child _ _ _ _ _ _ _ Hsame Hc Hc') as Hcc.
  destruct (is_nil c) eqn:Hn, (is_nil c') eqn:Hn'.
  - apply is_nil_true in Hn as ->, Hn' as ->. constructor.
  - apply is_nil_true in Hn as ->. destruct (fits_inhabited _ _ (Hg' i c' Hc' ltac:(by intros ->))) as (k & v & Hh).
    by apply Hcc, has_Nil in Hh.
  - apply is_nil_true in Hn' as ->. destruct (fits_inhabited _ _ (Hg i c Hc ltac:(by intros ->))) as (k & v & Hh).
    by apply Hcc, has_Nil in Hh.
  - destruct (Hg i c Hc ltac:(by intros ->)) as [[Hi (v & _ & ->)]|[Hi Hwc]],
      (Hg' i c' Hc' ltac:(by intros ->)) as [[Hi' (v' & _ & ->)]|[Hi' Hwc']]; unfold nibble in *; try lia.
    + assert (has (ValueNode v') [] v) as [_ ->]%has_Value by (apply Hcc; constructor). constructor.
    + eapply IH; eauto; [lia|by intros ->].
Qed.

Lemma canonical n : wf n -> forall n', wf n' -> same_contents n n' -> same n n'.
Proof.
  induction 1 as [k v f Hk Hv|k c f Hk Hn Hw IH Hb|cs f Hl Hc IH H16 H2|h n Hs Hw IH Hh];
    [apply same_load; intros n' Hw' Hh' Hsame; destruct (wf_branchy_cases _ _ n' Hw' Hh')
       as [(k' & c' & f' & ->)|(cs' & f' & ->)]..|].
  - apply wf_Short_inv in Hw' as [(Hk' & v' & Hv' & ->)|(_ & _ & Hwc & Hbc)];
      [|by apply leaf_not_ext in Hsame].
    assert (has (ShortNode k (ValueNode v) f) k' v') as (k2 & -> & [-> ->]%has_Value)%has_Short.
    { apply Hsame, has_Short. exists []. split; [by rewrite app_nil_r|constructor]. }
    rewrite app_nil_r. constructor. constructor.
  - exfalso. by eapply full_not_short, same_contents_sym, Hsame; [|apply wf_leaf].
  - pose proof (ext_key_prefix _ _ _ _ _ _ Hw Hb Hsame) as Hp.
    pose proof (same_contents_sym _ _ Hsame) as Hsame'.
    apply wf_Short_inv in Hw' as [(_ & v' & _ & ->)|(_ & _ & Hwc & Hbc)]; [by apply leaf_not_ext in Hsame'|].
    pose proof (ext_key_prefix _ _ _ _ _ _ Hwc Hbc Hsame') as Hp'.
    assert (k' = k) as -> by (by apply (anti_symm prefix)).
    constructor. apply IH; [done|]. intros x v.
    by rewrite <- (has_Short_app k c f), <- (has_Short_app k c' f').
  - exfalso. by eapply full_not_short, same_contents_sym, Hsame; [|apply wf_ext].
  - exfalso. eapply full_not_short; [|exact Hw'|exact Hsame]. by apply wf_full.
  - apply canonical_full; [by apply wf_full|done..].
  - intros n' Hw' Hsame. eapply same_hash_l; [done|]. apply IH; [done|].
    intros k v. by rewrite <- (Hsame k v), has_Hash.
Qed.

Lemma canonical_root t1 t2 m : represents t1 m -> represents t2 m -> same (root t1) (root t2).
Proof.
  intros H1 H2. assert (same_contents (root t1) (root t2)) as Hsame.
  { intros k v. by rewrite (rep_has t1 m H1), (rep_has t2 m H2). }
  destruct (rep_wf t1 m H1) as [E1|W1], (rep_wf t2 m H2) as [E2|W2].
  - rewrite E1, E2. constructor.
  - destruct (wf_inhabited _ W2) as (k & v & Hh). apply Hsame in Hh. rewrite E1 in Hh. by apply has_Nil in Hh.
  - destruct (wf_inhabited _ W1) as (k & v & Hh). apply Hsame in Hh. rewrite E2 in Hh. by apply has_Nil in Hh.
  - by apply canonical.
Qed.

(** the shape of a trie depends only on what it holds: two tries that
    represent the same map, whatever sequences of updates, deletions, commits
    and loads produced them, are equal up to cache flags and unloaded
    references. *)
Theorem trie_canonical (t1 t2 : Trie) (m : gmap (list byte) (list byte))
    (H1 : represents t1 m) (H2 : represents t2 m) : same (root t1) (root t2).
Proof. by eapply canonical_root. Qed.

End Refinement.

(** ** A concrete trie with an unloaded root *)

(** The database holds the encoding [[1]] under the hash [[7]]; the decoder
    reads it as a leaf for the key [[5]] with value [[9]]. *)
Definition exDb (h : list byte) : option (list byte) :=
  if bool_decide (h = [7]) then Some [1] else None.
Definition exDec (b : list byte) : option node :=
  if bool_decide (b = [1])
  then Some (ShortNode (keybytesToHex [5]) (ValueNode [9]) (mkFlag None 0 false)) else None.
Definition exTrie : Trie := mkTrie (HashNode [7]) [7] 3 0.
Definition exLoaded : Trie :=
  mkTrie (ShortNode (keybytesToHex [5]) (ValueNode [9]) (mkFlag None 0 true)) [] 0 0.
Definition exMap : gmap (list byte) (list byte) := {[ [5] := [9] ]}.

Lemma ex_key : Forall byte_ok [5].
Proof. repeat constructor; lia. Qed.

Lemma ex_has_leaf n : n = ShortNode (keybytesToHex [5]) (ValueNode [9]) (mkFlag None 0 false) \/ n = root exLoaded ->
  forall k v, has exDb exDec n k v <->
    exists key, Forall byte_ok key /\ k = keybytesToHex key /\ exMap !! key = Some v.
Proof.
  intros Hn k v. split.
  - intros Hh. assert (k = keybytesToHex [5] /\ v = [9]) as [-> ->].
    { destruct Hn as [-> | ->]; apply has_Short in Hh as (k2 & -> & [-> ->]%has_Value); by rewrite app_nil_r. }
    exists [5]. split; [apply ex_key|]. by vm_compute.
  - intros (key & _ & -> & Hl). unfold exMap in Hl. apply lookup_singleton_Some in Hl as [<- <-].
    destruct Hn as [-> | ->]; (apply has_Short; exists []; split; [done|constructor]).
Qed.

Lemma ex_stored : stored exDb exDec [7] (ShortNode (keybytesToHex [5]) (ValueNode [9]) (mkFlag None 0 false)).
Proof. exists [1]. by vm_compute. Qed.

Lemma ex_represents : represents exDb exDec exTrie exMap.
Proof.
  split.
  - right. eapply wf_hash; [apply ex_stored| |done].
    apply wf_leaf; [apply keybytesToHex_vkey, ex_key|done].
  - intros k v. simpl. rewrite has_Hash by apply ex_stored. apply ex_has_leaf. by left.
Qed.

Lemma ex_represents_loaded : represents exDb exDec exLoaded exMap.
Proof.
  split.
  - right. apply wf_leaf; [apply keybytesToHex_vkey, ex_key|done].
  - apply ex_has_leaf. by right.
Qed.

Lemma TryGet_refines_witness :
  exists t', TryGet exDb exDec exTrie [5] = (Ok (exMap !! [5]), t') /\ represents exDb exDec t' exMap.
Proof. exact (TryGet_refines exDb exDec exTrie exMap [5] ex_represents ex_key). Defined.

Lemma TryUpdate_refines_witness :
  exists t', TryUpdate exDb exDec exTrie [5] [8; 8] = (Ok (), t') /\
    represents exDb exDec t' (if decide ([8; 8] = []) then base.delete [5] exMap else <[ [5] := [8; 8] ]> exMap).
Proof. exact (TryUpdate_refines exDb exDec exTrie exMap [5] [8; 8] ex_represents ex_key). Defined.

Lemma TryDelete_refines_witness :
  exists t', TryDelete exDb exDec exTrie [5] = (Ok (), t') /\ represents exDb exDec t' (base.delete [5] exMap).
Proof. exact (TryDelete_refines exDb exDec exTrie exMap [5] ex_represents ex_key). Defined.

Lemma trie_canonical_witness : same exDb exDec (HashNode [7]) (root exLoaded).
Proof. exact (trie_canonical exDb exDec exTrie exLoaded exMap ex_represents ex_represents_loaded). Defined.

(** The same operations, run: an update below an unloaded root splits the leaf. *)
Example ex_run :
  fst (TryGet exDb exDec (snd (TryUpdate exDb exDec exTrie [21] [1; 2])) [21]) = Ok (Some [1; 2]) /\
  fst (TryGet exDb exDec (snd (TryUpdate exDb exDec exTrie [21] [1; 2])) [5]) = Ok (Some [9]) /\
  fst (TryGet (fun _ => None) exDec exTrie [5]) = Err (MissingNodeError [7] []).
Proof. by vm_compute. Qed.
