(* ===== verification/TrieHash.v ===== *)
(** * Hashing and committing a trie (trie/hasher.go, trie/trie.go)

    [hash] collapses a node into a reference, from the leaves up: a node whose encoding
    has 32 bytes or more is replaced by its hash, a smaller one stays inside its parent.
    With a database the encodings are written under their hashes; without one, cached
    hashes are used where there are any.  [Hash], [CommitTo] and [New] of the trie.

    The codec sees the exported fields only, [bare]; what it reads back is [unwire]:
    keys in hex form again and empty values as nil ([toNode] of trie/node.go). *)

From stdpp Require Import base list gmap numbers option.
From S2P Require Import Prelude Types TrieEncoding TrieNode Trie.

Definition noFlag : nodeFlag := mkFlag None 0 false.

(** The fields that are encoded. *)
Fixpoint bare (n : node) : node :=
  match n with
  | ShortNode k v _ => ShortNode k (bare v) noFlag
  | FullNode cs _ => FullNode (map bare cs) noFlag
  | _ => n
  end.

(** [toNode] on every level; [compactToHex] panics on an empty key. *)
Fixpoint unwire (n : node) : option node :=
  match n with
  | ShortNode k v _ => k ← compactToHex k; v ← unwire v; Some (ShortNode k v noFlag)
  | FullNode cs _ =>
      cs ← (fix go cs := match cs with [] => Some [] | c :: cs => c ← unwire c; cs ← go cs; Some (c :: cs) end) cs;
      Some (FullNode cs noFlag)
  | ValueNode [] => Some Nil
  | _ => Some n
  end.

(** The puts of a commit, in order. *)
Abbreviation writes := (list (list byte * list byte)) (only parsing).

Section Hasher.
Context (msgEncode : node -> list byte) (keccak : list byte -> list byte).

Definition store (n : node) (db force : bool) : node * writes :=
  match n with
  | Nil | HashNode _ => (n, [])
  | _ =>
      let enc := msgEncode (bare n) in
      if (length enc <? 32)%nat && negb force then (n, [])
      else
        let h := default (keccak enc) (cache n).1 in
        (HashNode h, if db then [(h, enc)] else [])
  end.

(** [cn.flags.hash = cachedHash], and the dirty flag when storing. *)
Definition cache_hash (n hashed : node) (db : bool) : node :=
  let h := match hashed with HashNode h => Some h | _ => None end in
  match n with
  | ShortNode k v fl => ShortNode k v (mkFlag h (flag_gen fl) (if db then false else flag_dirty fl))
  | FullNode cs fl => FullNode cs (mkFlag h (flag_gen fl) (if db then false else flag_dirty fl))
  | _ => n
  end.

(** Nil children are encoded as empty strings. *)
Definition or_empty (n : node) : node := match n with Nil => ValueNode [] | _ => n end.

Context (cachegen cachelimit : Z).

(** [Panic] is the index out of range of [hexToCompact], and the call on a nil
    interface. *)
Fixpoint hash (n : node) (db force : bool) : outcome trieErr (node * node * writes) :=
  let finish collapsed cached w :=
    let '(hashed, w') := store collapsed db force in Ok (hashed, cache_hash cached hashed db, w ++ w') in
  let walk :=
    match n with
    | ShortNode k v fl =>
        ck ← of_index (hexToCompact k);
        '(cv, kv, w) ← match v with ValueNode _ => Ok (v, v, []) | _ => hash v db false end;
        finish (ShortNode ck (or_empty cv) fl) (ShortNode k kv fl) w
    | FullNode cs fl =>
        '(ccs, kcs, w) ←
          (fix go (i : nat) (cs : list node) : outcome trieErr (list node * list node * writes) :=
             match cs with
             | [] => Ok ([], [], [])
             | c :: cs =>
                 '(cc, kc, w) ← (if (i <? 16)%nat && negb (is_nil c) then hash c db false else Ok (or_empty c, c, []));
                 '(ccs, kcs, w') ← go (S i) cs;
                 Ok (cc :: ccs, kc :: kcs, w ++ w')
             end) 0%nat cs;
        finish (FullNode ccs fl) (FullNode kcs fl) w
    | Nil => Panic
    | _ => finish n n []
    end in
  match (cache n).1 with
  | Some h =>
      if negb db then Ok (HashNode h, n, [])
      else if canUnload n cachegen cachelimit then Ok (HashNode h, HashNode h, [])
      else if negb (cache n).2 then Ok (HashNode h, n, [])
      else walk
  | None => walk
  end.

End Hasher.

(** ** The root *)

(** The root hash of the empty trie. *)
Definition emptyRoot : Hash :=
  [86; 232; 31; 23; 27; 204; 85; 166; 255; 131; 69; 230; 146; 192; 248; 110; 91; 72; 224; 27; 153; 108; 173; 192; 1; 98; 47; 181; 227; 99; 180; 33].

Section Root.
Context (msgEncode : node -> list byte) (keccak : list byte -> list byte).
Context (dbGet : list byte -> option (list byte)) (msgDecode : list byte -> option node).

Definition hashRoot (t : Trie) (db : bool) : outcome trieErr (node * node * writes) :=
  match root t with
  | Nil => Ok (HashNode emptyRoot, Nil, [])
  | n => hash msgEncode keccak (cachegen t) (cachelimit t) n db true
  end.

(** [hash.Node.(HashNode)] panics on another node. *)
Definition as_hash (n : node) : outcome trieErr Hash :=
  match n with HashNode h => Ok (BytesToHash h) | _ => Panic end.

Definition trie_Hash (t : Trie) : outcome trieErr (Hash * Trie) :=
  '(hashed, cached, _) ← hashRoot t false; h ← as_hash hashed; Ok (h, with_root t cached).

(** [CommitTo] with what it puts into the database it is given. *)
Definition CommitTo (t : Trie) : outcome trieErr (Hash * Trie * writes) :=
  '(hashed, cached, w) ← hashRoot t true;
  h ← as_hash hashed;
  Ok (h, mkTrie cached (originalRoot t) (u16 (Trie.cachegen t + 1)) (cachelimit t), w).

(** [trie.New] over an existing database. *)
Definition New (r : Hash) : outcome trieErr Trie :=
  if bool_decide (r = zeroHash) || bool_decide (r = emptyRoot) then Ok (mkTrie Nil r 0 0)
  else n ← resolveHash dbGet msgDecode 0 r []; Ok (mkTrie n r 0 0).

End Root.
