(* ===== verification/TrieCommit.v ===== *)
(** * Committing a trie keeps its contents

    [cref f n] is the reference that hashing leaves for a node, computed without the
    caches.  [coh f n] says that the caches in a node are right: a cached hash is that
    reference, a clean node with a hash is in the database, a clean node without one
    is small enough to stay inside its parent.  Reading and updating keep the caches
    right; [Hash] and [CommitTo] return the reference whatever is cached; and a trie
    that was committed can be opened again from its root, with the same contents.

    [f] says whether the node is the root, which is hashed even when it is small. *)

From stdpp Require Import base list gmap numbers option.
From S2P Require Import Prelude Types TrieEncoding TrieNode Trie TrieContents TrieCorrect TrieMap TrieHash.

(** ** Induction on nodes *)

Lemma node_children_ind (P : node -> Prop) : P Nil -> (forall v, P (ValueNode v)) -> (forall k v fl, P v -> P (ShortNode k v fl)) ->
  (forall cs fl, Forall P cs -> P (FullNode cs fl)) -> (forall h, P (HashNode h)) -> forall n, P n.
Proof.
  intros Hn Hv Hs Hf Hh. fix IH 1. intros [|v|k v fl|cs fl|h]; [exact Hn|apply Hv|apply Hs, IH| |apply Hh].
  apply Hf. induction cs as [|c cs IHl]; constructor; [apply IH|exact IHl].
Qed.

(** ** Lists of children *)

Section Lists.
Context {A B : Type} (f : nat -> A -> option B).

(** [f] on every element with its index. *)
Fixpoint omap_list (i : nat) (l : list A) : option (list B) :=
  match l with
  | [] => Some []
  | x :: l => y ← f i x; ys ← omap_list (S i) l; Some (y :: ys)
  end.

Lemma omap_list_Some i l : forall l', omap_list i l = Some l' <->
  length l' = length l /\ forall j x, l !! j = Some x -> exists y, l' !! j = Some y /\ f (i + j) x = Some y.
Proof.
  revert i. induction l as [|x l IH]; intros i l'; simpl.
  - split; [intros [= <-]; split; [done|by intros]|]. intros [Hl _]. by destruct l'.
  - split.
    + intros (y & Hy & (ys & Hys & [= <-])%bind_Some)%bind_Some. apply IH in Hys as [Hl Hys]. split; [simpl; lia|].
      intros [|j] z Hz; simpl in *; [injection Hz as ->; exists y; by rewrite Nat.add_0_r|].
      destruct (Hys j z Hz) as (w & ? & ?). exists w. split; [done|]. by rewrite Nat.add_succ_r.
    + intros [Hl Hys]. destruct l' as [|y ys]; [done|]. destruct (Hys 0%nat x eq_refl) as (y' & [= <-] & Hy).
      rewrite Nat.add_0_r in Hy. rewrite Hy. simpl.
      assert (omap_list (S i) l = Some ys) as ->; [|done]. apply IH. split; [simpl in Hl; lia|].
      intros j z Hz. destruct (Hys (S j) z Hz) as (w & ? & ?). exists w. split; [done|]. by rewrite Nat.add_succ_r in *.
Qed.

Lemma omap_list_total l : forall i, (forall j x, l !! j = Some x -> exists y, f (i + j)%nat x = Some y) -> exists l', omap_list i l = Some l'.
Proof.
  induction l as [|x l IH]; intros i Hf; [by exists []|]. destruct (Hf 0%nat x eq_refl) as [y Hy]. rewrite Nat.add_0_r in Hy.
  destruct (IH (S i)) as [l' Hl']; [intros j z Hz; destruct (Hf (S j) z Hz) as [w Hw]; exists w; by rewrite Nat.add_succ_r in Hw|].
  exists (y :: l'). simpl. by rewrite Hy; simpl; rewrite Hl'.
Qed.
End Lists.

Lemma omap_list_ext {A B} (f g : nat -> A -> option B) i l :
  (forall j x, l !! j = Some x -> f (i + j)%nat x = g (i + j)%nat x) -> omap_list f i l = omap_list g i l.
Proof.
  revert i. induction l as [|x l IH]; intros i Hfg; simpl; [done|].
  pose proof (Hfg 0%nat x eq_refl) as H0. rewrite Nat.add_0_r in H0. rewrite H0. destruct (g i x); [|done]. simpl.
  rewrite (IH (S i)); [done|]. intros j z Hz. pose proof (Hfg (S j) z Hz) as Hj. by rewrite Nat.add_succ_r in Hj.
Qed.

Lemma omap_list_insert {A B} (f : nat -> A -> option B) l i x x' : forall j, l !! i = Some x -> f (j + i)%nat x' = f (j + i)%nat x ->
  omap_list f j (<[i := x']> l) = omap_list f j l.
Proof.
  revert i. induction l as [|y l IH]; intros [|i] j Hi Hf; try done; simpl in *.
  - injection Hi as ->. rewrite Nat.add_0_r in Hf. by rewrite Hf.
  - rewrite Nat.add_succ_r in Hf. destruct (f j y); [|done]. simpl. by rewrite (IH i (S j)).
Qed.

Lemma unwire_full cs fl : unwire (FullNode cs fl) = (cs ← omap_list (fun _ => unwire) 0 cs; Some (FullNode cs noFlag)).
Proof.
  simpl. f_equal. generalize 0%nat. induction cs as [|c cs IH]; intros i; [done|]. simpl. destruct (unwire c); [|done]. simpl. by rewrite <- IH.
Qed.

(** ** References *)

Section Ref.
Context (msgEncode : node -> list byte) (keccak : list byte -> list byte).

(** What [store] returns, up to flags. *)
Definition sref (force : bool) (c : node) : node :=
  let enc := msgEncode (bare c) in
  if (length enc <? 32)%nat && negb force then bare c else HashNode (keccak enc).

Fixpoint cref (force : bool) (n : node) : option node :=
  match n with
  | Nil => None
  | HashNode h => Some (HashNode h)
  | ValueNode v => Some (sref force (ValueNode v))
  | ShortNode k v _ =>
      ck ← hexToCompact k;
      cv ← match v with ValueNode _ => Some v | _ => cref false v end;
      Some (sref force (ShortNode ck (or_empty cv) noFlag))
  | FullNode cs _ =>
      ccs ← (fix go (i : nat) (cs : list node) : option (list node) :=
               match cs with
               | [] => Some []
               | c :: cs =>
                   cc ← (if (i <? 16)%nat && negb (is_nil c) then cref false c else Some (bare (or_empty c)));
                   ccs ← go (S i) cs; Some (cc :: ccs)
               end) 0%nat cs;
      Some (sref force (FullNode ccs noFlag))
  end.

(** The reference of the child at index [i] of a full node, and below a short node. *)
Definition slot_ref (i : nat) (c : node) : option node :=
  if (i <? 16)%nat && negb (is_nil c) then cref false c else Some (bare (or_empty c)).
Definition val_ref (v : node) : option node := match v with ValueNode _ => Some v | _ => cref false v end.

Lemma cref_full f cs fl : cref f (FullNode cs fl) = (ccs ← omap_list slot_ref 0 cs; Some (sref f (FullNode ccs noFlag))).
Proof. reflexivity. Qed.

Lemma cref_short f k v fl : cref f (ShortNode k v fl) =
  (ck ← hexToCompact k; cv ← val_ref v; Some (sref f (ShortNode ck (or_empty cv) noFlag))).
Proof. done. Qed.

Lemma bare_idem n : bare (bare n) = bare n.
Proof.
  induction n as [|v|k v fl IH|cs fl IH|h] using node_children_ind; simpl; [done|done|by rewrite IH| |done]. f_equal.
  induction IH as [|c cs Hc _ IHl]; [done|]. simpl. by rewrite Hc, IHl.
Qed.

Lemma sref_bare f c c' : bare c = bare c' -> sref f c = sref f c'.
Proof. unfold sref. by intros ->. Qed.

(** Flags do not matter. *)
Lemma cref_flag_short f k v fl fl' : cref f (ShortNode k v fl) = cref f (ShortNode k v fl').
Proof. done. Qed.
Lemma cref_flag_full f cs fl fl' : cref f (FullNode cs fl) = cref f (FullNode cs fl').
Proof. done. Qed.

Lemma bare_setNodeflag n : forall h g, bare (setNodeflag n h g) = bare n.
Proof.
  induction n as [|v|k v fl IH|cs fl IH|h] using node_children_ind; intros h' g; simpl; [done|done|by rewrite IH| |done]. f_equal.
  induction IH as [|c cs Hc _ IHl]; [done|]. simpl. by rewrite Hc, IHl.
Qed.

Lemma cref_setNodeflag n : forall f h g, cref f (setNodeflag n h g) = cref f n.
Proof.
  induction n as [|v|k v fl IH|cs fl IH|h] using node_children_ind; intros f h' g; [done|done| | |done].
  - simpl. destruct (hexToCompact k); [|done]. simpl. specialize (IH false None g). by destruct v; try done; simpl in *; rewrite IH.
  - change (setNodeflag (FullNode cs fl) h' g) with (FullNode (map (fun c => setNodeflag c None g) cs) (mkFlag h' g (flag_dirty fl))).
    rewrite !cref_full. f_equal. generalize 0%nat. induction IH as [|c cs Hc _ IHl]; intros i; [done|]. simpl.
    assert (slot_ref i (setNodeflag c None g) = slot_ref i c) as ->; [|by rewrite IHl].
    unfold slot_ref. rewrite setNodeflag_is_nil, Hc. destruct (_ && _); [done|]. f_equal.
    destruct c; try done; apply (bare_setNodeflag _ None g).
Qed.

End Ref.

(** ** The steps of [hash] *)

Section Steps.
Context (msgEncode : node -> list byte) (keccak : list byte -> list byte) (gen lim : Z).

Abbreviation hash := (TrieHash.hash msgEncode keccak gen lim).
Abbreviation store := (TrieHash.store msgEncode keccak).

Definition finish (collapsed cached : node) (w : writes) (db f : bool) : outcome trieErr (node * node * writes) :=
  let '(hashed, w') := store collapsed db f in Ok (hashed, cache_hash cached hashed db, w ++ w').

Definition hash_val (v : node) (db : bool) : outcome trieErr (node * node * writes) :=
  match v with ValueNode _ => Ok (v, v, []) | _ => hash v db false end.

Definition hash_slot (i : nat) (c : node) (db : bool) : outcome trieErr (node * node * writes) :=
  if (i <? 16)%nat && negb (is_nil c) then hash c db false else Ok (or_empty c, c, []).

Fixpoint hash_list (i : nat) (cs : list node) (db : bool) : outcome trieErr (list node * list node * writes) :=
  match cs with
  | [] => Ok ([], [], [])
  | c :: cs =>
      '(cc, kc, w) ← hash_slot i c db;
      '(ccs, kcs, w') ← hash_list (S i) cs db;
      Ok (cc :: ccs, kc :: kcs, w ++ w')
  end.

Definition walk (n : node) (db f : bool) : outcome trieErr (node * node * writes) :=
  match n with
  | ShortNode k v fl =>
      ck ← of_index (hexToCompact k);
      '(cv, kv, w) ← hash_val v db;
      finish (ShortNode ck (or_empty cv) fl) (ShortNode k kv fl) w db f
  | FullNode cs fl => '(ccs, kcs, w) ← hash_list 0 cs db; finish (FullNode ccs fl) (FullNode kcs fl) w db f
  | Nil => Panic
  | _ => finish n n [] db f
  end.

Lemma hash_list_eq db cs : forall i,
  (fix go (i : nat) (cs : list node) : outcome trieErr (list node * list node * writes) :=
     match cs with
     | [] => Ok ([], [], [])
     | c :: cs =>
         '(cc, kc, w) ← (if (i <? 16)%nat && negb (is_nil c) then hash c db false else Ok (or_empty c, c, []));
         '(ccs, kcs, w') ← go (S i) cs;
         Ok (cc :: ccs, kc :: kcs, w ++ w')
     end) i cs = hash_list i cs db.
Proof.
  induction cs as [|c cs IH]; intros i; [done|]. simpl. fold (hash_slot i c db).
  destruct (hash_slot i c db) as [[[cc kc] w]| | |]; [|done..]. simpl. by rewrite IH.
Qed.

Lemma hash_eq n db f : hash n db f =
  match (cache n).1 with
  | Some h =>
      if negb db then Ok (HashNode h, n, [])
      else if canUnload n gen lim then Ok (HashNode h, HashNode h, [])
      else if negb (cache n).2 then Ok (HashNode h, n, [])
      else walk n db f
  | None => walk n db f
  end.
Proof.
  destruct n as [|v|k v fl|cs fl|h]; [done|done|done| |done].
  cbn [TrieHash.hash]. rewrite hash_list_eq. reflexivity.
Qed.

(** [hash_list] element by element. *)
Lemma hash_list_ok db cs : forall i, (forall j c, cs !! j = Some c -> exists r, hash_slot (i + j) c db = Ok r) ->
  exists ccs kcs w, hash_list i cs db = Ok (ccs, kcs, w) /\ length ccs = length cs /\ length kcs = length cs /\
    (forall j c, cs !! j = Some c -> exists cc kc wc, hash_slot (i + j) c db = Ok (cc, kc, wc) /\ ccs !! j = Some cc /\ kcs !! j = Some kc /\ wc ⊆ w) /\
    (forall x, x ∈ w -> exists j c cc kc wc, cs !! j = Some c /\ hash_slot (i + j) c db = Ok (cc, kc, wc) /\ x ∈ wc).
Proof.
  induction cs as [|c cs IH]; intros i Hs.
  { exists [], [], []. split_and!; [done..|by intros|by intros x ?%elem_of_nil]. }
  destruct (Hs 0%nat c eq_refl) as [[[cc kc] wc] Hc]. rewrite Nat.add_0_r in Hc.
  destruct (IH (S i)) as (ccs & kcs & w & Hr & Hl & Hl' & Hj & Hw).
  { intros j x Hx. destruct (Hs (S j) x Hx) as [r Hr]. exists r. by rewrite Nat.add_succ_r in Hr. }
  exists (cc :: ccs), (kc :: kcs), (wc ++ w). split_and!.
  - simpl. by rewrite Hc; simpl; rewrite Hr.
  - simpl. lia.
  - simpl. lia.
  - intros [|j] x Hx; simpl in Hx.
    + injection Hx as <-. exists cc, kc, wc. rewrite Nat.add_0_r. split_and!; [done..|]. set_solver.
    + destruct (Hj j x Hx) as (cc' & kc' & wc' & ? & ? & ? & ?). exists cc', kc', wc'. rewrite Nat.add_succ_r. split_and!; [done..|]. set_solver.
  - intros x [Hx|Hx]%elem_of_app.
    + exists 0%nat, c, cc, kc, wc. by rewrite Nat.add_0_r.
    + destruct (Hw x Hx) as (j & c' & cc' & kc' & wc' & ? & ? & ?). exists (S j), c', cc', kc', wc'. by rewrite Nat.add_succ_r.
Qed.

(** Without a database nothing is written. *)
Lemma finish_pure c k f res : finish c k [] false f = Ok res -> res.2 = [].
Proof.
  unfold finish. assert ((store c false f).2 = []) as Hs. { destruct c; try done; simpl; by destruct (_ && _). }
  destruct (store c false f) as [hd w]. simpl in Hs. subst w. by intros [= <-].
Qed.

Lemma hash_pure n : forall f res, hash n false f = Ok res -> res.2 = [].
Proof.
  induction n as [|v|k v fl IH|cs fl IH|h] using node_children_ind; intros f res; rewrite hash_eq.
  - done.
  - apply finish_pure.
  - simpl. destruct (flag_hash fl); [by intros [= <-]|]. intros (ck & _ & ([[cv kv] w] & Hv & Hf)%outcome_bind_Ok)%outcome_bind_Ok.
    assert (w = []) as ->; [|by eapply finish_pure]. unfold hash_val in Hv. destruct v; try (by eapply (IH false (cv, kv, w))). congruence.
  - simpl. destruct (flag_hash fl); [by intros [= <-]|]. intros ([[ccs kcs] w] & Hl & Hf)%outcome_bind_Ok. assert (w = []) as ->; [|by eapply finish_pure].
    clear Hf. revert ccs kcs w Hl. generalize 0%nat. induction IH as [|c cs Hc _ IHl]; intros i ccs kcs w; simpl; [congruence|].
    intros ([[cc kc] wc] & Hs & ([[ccs' kcs'] w'] & Hl & [= <- <- <-])%outcome_bind_Ok)%outcome_bind_Ok. rewrite (IHl _ _ _ _ Hl), app_nil_r.
    unfold hash_slot in Hs. destruct (_ && _); [by apply (Hc _ _ Hs)|congruence].
  - apply finish_pure.
Qed.

End Steps.

(** ** Right caches *)

Section Coherent.
Context (msgEncode : node -> list byte) (keccak : list byte -> list byte) (msgDecode : list byte -> option node).
Abbreviation cref := (cref msgEncode keccak).

Definition child (n c : node) : Prop :=
  match n with ShortNode _ v _ => c = v | FullNode cs _ => c ∈ cs | _ => False end.

Inductive coh (db : list byte -> option (list byte)) : bool -> node -> Prop :=
| coh_nil f : coh db f Nil
| coh_value f v : coh db f (ValueNode v)
| coh_node f n : is_nil n = false -> is_hash n = false ->
    (forall c, child n c -> coh db false c) ->
    (forall h, (cache n).1 = Some h -> cref f n = Some (HashNode h)) ->
    (forall h, (cache n).1 = Some h -> (cache n).2 = false -> coh db f (HashNode h)) ->
    (forall h, (cache n).1 = Some h -> (cache n).2 = false ->
       (forall k v, has db msgDecode (HashNode h) k v <-> has db msgDecode n k v) /\
       (branchy db msgDecode n -> branchy db msgDecode (HashNode h))) ->
    ((cache n).1 = None -> (cache n).2 = false -> forall h, cref f n <> Some (HashNode h)) ->
    coh db f n
| coh_hash f h n : stored db msgDecode h n -> bare n = n -> wf db msgDecode n -> is_hash n = false -> cref f n = Some (HashNode h) ->
    (forall c, child n c -> coh db false c) -> coh db f (HashNode h).

(** A node made by an update. *)
Lemma coh_new db f n : is_nil n = false -> is_hash n = false -> (forall c, child n c -> coh db false c) ->
  cache n = (None, true) -> coh db f n.
Proof. intros Hn Hh Hc He. apply coh_node; rewrite ?He; try done. Qed.

Lemma coh_child db f n c : coh db f n -> is_hash n = false -> child n c -> coh db false c.
Proof. intros [ | |? ? ? ? Hc|] Hh; simpl in *; [done|done|auto|done]. Qed.

Lemma coh_hash_inv db f h : coh db f (HashNode h) -> exists n, stored db msgDecode h n /\ bare n = n /\ wf db msgDecode n /\ is_hash n = false /\
  cref f n = Some (HashNode h) /\ forall c, child n c -> coh db false c.
Proof. inversion 1; [done|]. eauto 10. Qed.

Lemma coh_hash_wf db f h : coh db f (HashNode h) -> wf db msgDecode (HashNode h).
Proof. intros (n & ? & _ & ? & ? & _)%coh_hash_inv. by econstructor. Qed.

Lemma child_bare n c : bare n = n -> child n c -> bare c = c.
Proof.
  destruct n as [|v|k v fl|cs fl|h]; simpl; try done.
  - intros [= Hv _] ->. done.
  - intros [= Hcs _] (i & Hi)%list_elem_of_lookup. rewrite <- Hcs in Hi. rewrite list_lookup_fmap in Hi.
    destruct (cs !! i) as [c'|]; simplify_eq/=. apply bare_idem.
Qed.

Lemma child_setNodeflag n h g c : child (setNodeflag n h g) c -> exists c', child n c' /\ c = setNodeflag c' None g.
Proof.
  destruct n as [|v|k v fl|cs fl|h']; simpl; try done; [intros ->; eauto|].
  intros (c' & -> & Hc)%list_elem_of_fmap. eauto.
Qed.

(** Decoded nodes stay inside their parents when they are loaded. *)
Lemma coh_inline db n g : bare n = n -> coh db false n -> coh db false (setNodeflag n None g).
Proof.
  revert g. induction n as [|v|k v fl IH|cs fl IH|h] using node_children_ind; intros g Hb Hc; try done.
  - inversion Hc as [| |? ? _ _ Hch _ _ _ H3|]; subst. assert (fl = noFlag) as -> by (simpl in Hb; congruence). apply coh_node; try done.
    + intros c ->. apply IH; [simpl in Hb; congruence|by apply Hch].
    + intros _ _. rewrite cref_setNodeflag. by apply H3.
  - inversion Hc as [| |? ? _ _ Hch _ _ _ H3|]; subst. assert (fl = noFlag) as -> by (simpl in Hb; congruence). apply coh_node; try done.
    + intros c (c' & Hc' & ->)%child_setNodeflag. rewrite Forall_forall in IH. apply IH; [by apply list_elem_of_In|by eapply child_bare|by apply Hch].
    + intros _ _. rewrite cref_setNodeflag. by apply H3.
Qed.

(** A reference that is loaded. *)
Lemma coh_load db f h g p : coh db f (HashNode h) -> exists n, resolveHash db msgDecode g h p = Ok n /\ coh db f n /\
  cref f n = Some (HashNode h) /\ (forall k v, has db msgDecode n k v <-> has db msgDecode (HashNode h) k v) /\
  (branchy db msgDecode (HashNode h) -> branchy db msgDecode n) /\ is_nil n = false /\ is_hash n = false /\ wf db msgDecode n.
Proof.
  intros Hc. pose proof (coh_hash_inv _ _ _ Hc) as (n & Hs & Hb & Hw & Hh & Hr & Hk).
  assert (forall k v, has db msgDecode (setNodeflag n (Some h) g) k v <-> has db msgDecode (HashNode h) k v) as Hhas.
  { intros k v. by rewrite has_setNodeflag, (has_Hash db msgDecode h n). }
  assert (is_nil n = false) as Hn by (inversion Hw; subst; done).
  exists (setNodeflag n (Some h) g). split_and!; [by apply resolveHash_stored| |by rewrite cref_setNodeflag|done| | | |].
  - apply coh_node; rewrite ?setNodeflag_is_nil, ?setNodeflag_is_hash; try done.
    + intros c (c' & Hc' & ->)%child_setNodeflag. apply coh_inline; [by eapply child_bare|by apply Hk].
    + intros h' He. rewrite cref_setNodeflag, Hr. destruct n; simpl in *; try discriminate; congruence.
    + intros h' He _. destruct n; simpl in *; try discriminate; injection He as <-; done.
    + intros h' He _. assert (h' = h) as -> by (destruct n; simpl in *; try discriminate; congruence).
      split; [intros k v; symmetry; apply Hhas|]. destruct n as [|v|k v fl|cs fl|h'']; simpl in *; try done.
      * intros (? & ? & [[=]|(? & [=] & _)]).
      * intros _. exists cs, fl. right. eauto.
    + destruct n; simpl; try done.
  - intros (cs & fl & [[=]|(h' & [= <-] & Hs')]). rewrite (stored_fun _ _ _ _ _ Hs Hs'). simpl. eexists _, _. by left.
  - by rewrite setNodeflag_is_nil.
  - by rewrite setNodeflag_is_hash.
  - by apply wf_setNodeflag.
Qed.

(** ** Reading keeps the caches right *)

Definition plain (n : node) : bool := match n with Nil | ValueNode _ => true | _ => false end.

(** [n'] is [n] with parts of it loaded. *)
Record loaded (db : list byte -> option (list byte)) (f : bool) (n n' : node) : Prop := {
  ld_coh : coh db f n';
  ld_cref : cref f n' = cref f n;
  ld_has : forall k v, has db msgDecode n' k v <-> has db msgDecode n k v;
  ld_branchy : branchy db msgDecode n -> branchy db msgDecode n';
  ld_plain : plain n = true -> n' = n;
  ld_node : plain n = false -> plain n' = false;
}.

Lemma committed_refl db f n : coh db f n -> loaded db f n n.
Proof. by split. Qed.

(** The same flags over the same contents. *)
Lemma coh_swap db f n n' : coh db f n -> is_hash n = false -> is_nil n = false -> cache n' = cache n -> is_nil n' = false -> is_hash n' = false ->
  (forall c, child n' c -> coh db false c) -> cref f n' = cref f n ->
  (forall k v, has db msgDecode n' k v <-> has db msgDecode n k v) -> (branchy db msgDecode n' -> branchy db msgDecode n) -> coh db f n'.
Proof.
  intros Hc Hh Hn Hca Hn' Hh' Hch Hr Hhas Hb. inversion Hc as [|? v|? ? _ _ _ H1 H2 H3 H4|]; subst; [done|by apply coh_new| |done].
  apply coh_node; rewrite ?Hca, ?Hr; try done. intros h He Hd. destruct (H3 h He Hd) as [Ha Hbr].
  split; [intros k v; by rewrite Ha, Hhas|auto].
Qed.

Lemma val_ref_loaded db c c' : loaded db false c c' -> val_ref msgEncode keccak c' = val_ref msgEncode keccak c.
Proof.
  intros [_ Hr _ _ Hp Hn]. destruct (plain c) eqn:Hpc; [by rewrite Hp|]. specialize (Hn eq_refl).
  unfold val_ref. by destruct c, c'.
Qed.

Lemma slot_ref_loaded db i c c' : loaded db false c c' -> plain c = false -> (i < 16)%nat -> slot_ref msgEncode keccak i c' = slot_ref msgEncode keccak i c.
Proof.
  intros [_ Hr _ _ Hp Hn] Hpc Hi. specialize (Hn Hpc). unfold slot_ref. rewrite Hr. apply Nat.ltb_lt in Hi as ->. by destruct c, c'.
Qed.

Lemma loaded_short db f k c c' fl fl' : coh db f (ShortNode k c fl) -> loaded db false c c' ->
  flag_hash fl' = flag_hash fl -> flag_dirty fl' = flag_dirty fl -> loaded db f (ShortNode k c fl) (ShortNode k c' fl').
Proof.
  intros Hc Hl Hfh Hfd. assert (cref f (ShortNode k c' fl') = cref f (ShortNode k c fl)) as Hr.
  { rewrite !cref_short. destruct (hexToCompact k); [|done]. simpl. by rewrite (val_ref_loaded _ _ _ Hl). }
  assert (forall k' v, has db msgDecode (ShortNode k c' fl') k' v <-> has db msgDecode (ShortNode k c fl) k' v) as Hh.
  { intros k' v. rewrite !has_Short. by setoid_rewrite (ld_has _ _ _ _ Hl). }
  split; try done.
  - apply (coh_swap db f (ShortNode k c fl)); try done; simpl; [by rewrite Hfh, Hfd| |].
    + intros ? ->. apply (ld_coh _ _ _ _ Hl).
    + intros (? & ? & [[=]|(? & [=] & _)]).
  - intros (? & ? & [[=]|(? & [=] & _)]).
Qed.

Lemma loaded_full db f cs i c c' fl fl' : coh db f (FullNode cs fl) -> zget cs i = Some c -> loaded db false c c' ->
  (i < 16 \/ plain c = true) ->
  flag_hash fl' = flag_hash fl -> flag_dirty fl' = flag_dirty fl -> loaded db f (FullNode cs fl) (FullNode (zset cs i c') fl').
Proof.
  intros Hc Hi Hl H16 Hfh Hfd. pose proof (zget_Some_range _ _ _ Hi) as Hir. pose proof Hi as Hlk. rewrite zget_lookup in Hlk by lia.
  assert (cref f (FullNode (zset cs i c') fl') = cref f (FullNode cs fl)) as Hr.
  { rewrite !cref_full. unfold zset. rewrite (omap_list_insert _ cs (Z.to_nat i) c c' 0); [done|done|]. simpl.
    destruct (plain c) eqn:Hp; [by rewrite (ld_plain _ _ _ _ Hl Hp)|]. eapply slot_ref_loaded; [done|done|]. destruct H16; [lia|done]. }
  assert (forall k' v, has db msgDecode (FullNode (zset cs i c') fl') k' v <-> has db msgDecode (FullNode cs fl) k' v) as Hh.
  { intros [|j k'] v; [split; by intros (? & ? & ? & ? & _)%has_Full|]. rewrite has_Full_zset, has_Full_cons by lia.
    case_decide as Hj; [subst j|done]. rewrite (ld_has _ _ _ _ Hl). split; [eauto|]. intros (c0 & Hc0 & ?). by simplify_eq. }
  split; try done; [|intros _; eexists _, _; by left].
  apply (coh_swap db f (FullNode cs fl)); try done; simpl; [by rewrite Hfh, Hfd| |intros _; eexists _, _; by left].
  intros x (j & Hj)%list_elem_of_lookup. unfold zset in Hj. apply list_lookup_insert_Some in Hj as [(<- & <- & _)|(_ & Hj)].
  - apply (ld_coh _ _ _ _ Hl).
  - eapply coh_child; [exact Hc|done|]. simpl. by eapply list_elem_of_lookup_2.
Qed.

Lemma wf_full_16 db cs fl i c : wf db msgDecode (FullNode cs fl) -> zget cs i = Some c -> i < 16 \/ plain c = true.
Proof.
  inversion_clear 1 as [| |? ? Hl _ H16 _|]. intros Hi. pose proof (zget_Some_range _ _ _ Hi) as Hr. rewrite zget_lookup in Hi by lia.
  destruct (decide (i = 16)) as [->|]; [right|left; lia]. destruct (is_nil c) eqn:Hn; [by apply is_nil_true in Hn as ->|]. destruct (H16 c Hi) as (v & _ & ->); [by intros ->|done].
Qed.

Lemma loaded_trans db f n n' n'' : loaded db f n n' -> loaded db f n' n'' -> loaded db f n n''.
Proof.
  intros [? R1 H1 B1 P1 N1] [? R2 H2 B2 P2 N2]. split; [done|congruence| |auto| |auto].
  - intros k v. by rewrite H2, H1.
  - intros Hp. pose proof (P1 Hp) as ->. auto.
Qed.

Lemma loaded_hash db f h g p n : coh db f (HashNode h) -> resolveHash db msgDecode g h p = Ok n ->
  loaded db f (HashNode h) n /\ is_hash n = false /\ wf db msgDecode n.
Proof.
  intros Hc Hr. destruct (coh_load db f h g p Hc) as (n' & Hr' & Hcn & Href & Hhas & Hb & Hn & Hh & Hw). rewrite Hr in Hr'. injection Hr' as <-.
  split_and!; [|done..]. split; try done. intros _. destruct n; try done. inversion Hw.
Qed.

Lemma tryGet_loaded db gen fuel : forall n key pos val n' r f, coh db f n -> slot db msgDecode (drop pos key) n -> (pos <= length key)%nat ->
  tryGet db msgDecode gen fuel n key pos = Ok (val, n', r) -> loaded db f n n'.
Proof.
  induction fuel as [|fuel IH]; intros n key pos val n' r f Hc Hs Hp; [done|]. destruct n as [|v|nkey nval fl|cs fl|h]; simpl.
  - intros [= <- <- <-]. by apply committed_refl.
  - intros [= <- <- <-]. by apply committed_refl.
  - destruct (_ || _) eqn:Hm; [intros [= <- <- <-]; by apply committed_refl|].
    apply orb_false_iff in Hm as [Hlen%Nat.ltb_ge Hk%negb_false_iff%bool_decide_eq_true_1].
    intros ([[v nn] r'] & Hr & [= <- <- <-])%outcome_bind_Ok. destruct r'; [|by apply committed_refl].
    assert (drop pos key = nkey ++ drop (pos + length nkey) key) as Hd by (rewrite <- drop_drop; rewrite Hk at 1; by rewrite take_drop).
    destruct Hs as [[_ [?|(?&?&?)]]|[Hvk [?|Hw]]]; try done. rewrite Hd in Hvk. apply loaded_short; [done| |done|done].
    eapply IH; [by eapply coh_child| | |exact Hr]; [by eapply wf_Short_slot|lia].
  - destruct Hs as [[_ [?|(?&?&?)]]|[Hvk [?|Hw]]]; try done.
    intros (k0 & Hk0%of_index_Ok & (c & Hc0%of_index_Ok & ([[v nn] r'] & Hr & [= <- <- <-])%outcome_bind_Ok)%outcome_bind_Ok)%outcome_bind_Ok.
    destruct r'; [|by apply committed_refl].
    assert (drop pos key = k0 :: drop (pos + 1) key) as Hd by (rewrite (drop_S _ _ _ Hk0); do 2 f_equal; lia).
    rewrite Hd in Hvk. destruct (wf_Full_child _ _ _ _ _ _ Hw Hvk) as (c' & Hc' & Hsc). rewrite Hc0 in Hc'. injection Hc' as <-.
    eapply loaded_full; [done|done| |by eapply wf_full_16|done|done]. apply lookup_lt_Some in Hk0.
    eapply IH; [|exact Hsc|lia|exact Hr]. eapply coh_child; [exact Hc|done|]. simpl.
    pose proof (zget_Some_range _ _ _ Hc0). rewrite zget_lookup in Hc0 by lia. by eapply list_elem_of_lookup_2.
  - intros (n & Hn & ([[v nn] r'] & Hr & [= <- <- <-])%outcome_bind_Ok)%outcome_bind_Ok.
    destruct (loaded_hash _ _ _ _ _ _ Hc Hn) as (Hl & Hh & Hw). eapply loaded_trans; [exact Hl|].
    eapply IH; [apply (ld_coh _ _ _ _ Hl)| |done|exact Hr].
    destruct Hs as [[_ [?|(?&?&?)]]|[Hvk _]]; [done..|]. by apply slot_vkey_wf.
Qed.

(** ** Updates keep the caches right *)

Lemma coh_tail db gen f k c : coh db false c -> (k = [] -> coh db f c) -> coh db f (match k with [] => c | _ => ShortNode k c (newFlag gen) end).
Proof. intros Hc Hf. destruct k; [auto|]. apply coh_new; try done. by intros ? ->. Qed.

Lemma coh_zset db cs i c fl' f : (forall x, x ∈ cs -> coh db false x) -> coh db false c -> cache (FullNode cs fl') = (None, true) ->
  coh db f (FullNode (zset cs i c) fl').
Proof.
  intros Hcs Hc Hca. apply coh_new; try done. simpl. intros x (j & Hj)%list_elem_of_lookup. unfold zset in Hj.
  apply list_lookup_insert_Some in Hj as [(_ & <- & _)|(_ & Hj)]; [done|]. apply Hcs. by eapply list_elem_of_lookup_2.
Qed.

Lemma coh_any db f f' n : coh db f n -> cache n = (None, true) -> is_hash n = false -> coh db f' n.
Proof. intros Hc Hca Hh. inversion Hc; subst; [constructor|constructor|by apply coh_new|done]. Qed.

Lemma insert_coh db gen fuel : forall n prefix key value d n' f, coh db f n -> (exists v, value = ValueNode v) \/ n = Nil /\ coh db false value ->
  (key = [] -> coh db f value) ->
  insert db msgDecode gen fuel n prefix key value = Ok (d, n') -> coh db f n'.
Proof.
  induction fuel as [|fuel IH]; intros n prefix key value d n' f Hc Hv Hkv; [done|]. destruct key as [|k0 krest]; cbn [insert].
  { destruct n; [| |intros [= <- <-]; auto..]; [intros [= <- <-]; auto|]. destruct value; try done. intros [= <- <-]. auto. }
  assert (coh db false value) as Hcv by (destruct Hv as [[v ->]|[_ ?]]; [constructor|done]).
  destruct n as [|v|nkey nval fl|cs fl|h]; [intros [= <- <-]; apply coh_new; try done; by intros ? -> |done| | |].
  - destruct Hv as [[v ->]|[? _]]; [|done]. assert (coh db false nval) as Hcn by (by apply (coh_child _ _ _ _ Hc)).
    set (key := k0 :: krest) in *. set (m := prefixLen key nkey). destruct (m =? length nkey)%nat eqn:Hm.
    + intros ([d' nn] & Hr & Hres)%outcome_bind_Ok. destruct d'; injection Hres as <- <-; [|done].
      apply coh_new; try done. intros ? ->. eapply IH; [exact Hcn| | |exact Hr]; [by left; eexists|intros _; constructor].
    + intros (a & _ & ([d1 ca] & Ha & (br & Hbr & (b & _ & ([d2 cb] & Hb & (br' & Hbr' & Hres)%outcome_bind_Ok)%outcome_bind_Ok)%outcome_bind_Ok)%outcome_bind_Ok)%outcome_bind_Ok)%outcome_bind_Ok.
      assert (coh db false ca) as Hca by (eapply IH; [constructor|right; done|done|exact Ha]).
      assert (coh db false cb) as Hcb by (eapply IH; [constructor|left; by eexists|done|exact Hb]).
      unfold arr_set in Hbr, Hbr'. destruct (zget emptyChildren a); [|done]. injection Hbr as <-. destruct (zget (zset emptyChildren a ca) b); [|done]. injection Hbr' as <-.
      assert (forall f, coh db f (FullNode (zset (zset emptyChildren a ca) b cb) (newFlag gen))) as Hfull.
      { intros f'. apply coh_zset; try done. intros x (j & Hj)%list_elem_of_lookup. unfold zset in Hj.
        apply list_lookup_insert_Some in Hj as [(_ & <- & _)|(_ & ->%emptyChildren_lookup)]; [done|constructor]. }
      destruct (m =? 0)%nat; injection Hres as <- <-; [done|]. apply coh_new; try done. by intros ? ->.
  - destruct Hv as [[v ->]|[? _]]; [|done].
    intros (c & Hc0%of_index_Ok & ([d' nn] & Hr & Hres)%outcome_bind_Ok)%outcome_bind_Ok. destruct d'; injection Hres as <- <-; [|done].
    assert (forall x, x ∈ cs -> coh db false x) as Hcs by (intros x Hx; by apply (coh_child _ _ _ _ Hc)).
    apply coh_zset; try done. eapply IH; [|left; by eexists|intros _; constructor|exact Hr].
    apply Hcs. pose proof (zget_Some_range _ _ _ Hc0). rewrite zget_lookup in Hc0 by lia. by eapply list_elem_of_lookup_2.
  - destruct Hv as [[v ->]|[? _]]; [|done].
    intros (n & Hn & ([d' nn] & Hr & Hres)%outcome_bind_Ok)%outcome_bind_Ok. destruct (loaded_hash _ _ _ _ _ _ Hc Hn) as (Hl & _).
    destruct d'; injection Hres as <- <-; [|apply (ld_coh _ _ _ _ Hl)].
    eapply IH; [apply (ld_coh _ _ _ _ Hl)|left; by eexists|intros _; constructor|exact Hr].
Qed.

Lemma coh_above db gen f k c : coh db false c -> coh db f (ShortNode k c (newFlag gen)).
Proof. intros Hc. apply coh_new; try done. by intros ? ->. Qed.

(** The child that a branch with a single child leaves. *)
Lemma coh_single db gen f c prefix cn pos : coh db false c -> resolve db msgDecode gen c prefix = Ok cn ->
  coh db f (match cn with ShortNode ckey cval _ => ShortNode (pos :: ckey) cval (newFlag gen) | _ => ShortNode [pos] c (newFlag gen) end).
Proof.
  intros Hc Hr. assert (coh db false cn /\ is_hash cn = false \/ cn = c) as Hcn.
  { destruct c; simpl in Hr; try (right; congruence). left. destruct (loaded_hash _ _ _ _ _ _ Hc Hr) as (Hl & ? & _). split; [apply (ld_coh _ _ _ _ Hl)|done]. }
  destruct cn as [|v|ckey cval fl|cs fl|h]; try (by apply coh_above). apply coh_above.
  destruct Hcn as [[Hcc Hh]|Hcc]; [exact (coh_child _ _ _ _ Hcc Hh eq_refl)|subst c; exact (coh_child _ _ _ _ Hc eq_refl eq_refl)].
Qed.

Lemma delete_coh db gen fuel : forall n prefix key d n' f, coh db f n -> delete db msgDecode gen fuel n prefix key = Ok (d, n') -> coh db f n'.
Proof.
  induction fuel as [|fuel IH]; intros n prefix key d n' f Hc; [done|]. destruct n as [|v|nkey nval fl|cs fl|h]; cbn [delete].
  - intros [= <- <-]. done.
  - intros [= <- <-]. constructor.
  - assert (coh db false nval) as Hcn by (by apply (coh_child _ _ _ _ Hc)).
    set (m := prefixLen key nkey). destruct (m <? length nkey)%nat; [by intros [= <- <-]|].
    destruct (m =? length key)%nat; [intros [= <- <-]; constructor|].
    intros ([d' c] & Hr & Hres)%outcome_bind_Ok. destruct d'; [|by injection Hres as <- <-]. simpl in Hres.
    pose proof (IH _ _ _ _ _ _ Hcn Hr) as Hcc. destruct c as [|w|ckey cval fl'|cs fl'|h]; injection Hres as <- <-; apply coh_above; try done.
    exact (coh_child _ _ _ _ Hcc eq_refl eq_refl).
  - assert (forall x, x ∈ cs -> coh db false x) as Hcs by (intros x Hx; by apply (coh_child _ _ _ _ Hc)).
    intros (k0 & _ & (c & Hc0%of_index_Ok & ([d' nn] & Hr & Hres)%outcome_bind_Ok)%outcome_bind_Ok)%outcome_bind_Ok.
    destruct d'; [|by injection Hres as <- <-]. cbn [negb] in Hres. cbv iota in Hres.
    assert (coh db false nn) as Hnn.
    { eapply IH; [|exact Hr]. apply Hcs. pose proof (zget_Some_range _ _ _ Hc0). rewrite zget_lookup in Hc0 by lia. by eapply list_elem_of_lookup_2. }
    assert (forall x, x ∈ zset cs k0 nn -> coh db false x) as Hcs'.
    { intros x (j & Hj)%list_elem_of_lookup. unfold zset in Hj. apply list_lookup_insert_Some in Hj as [(_ & <- & _)|(_ & Hj)]; [done|].
      apply Hcs. by eapply list_elem_of_lookup_2. }
    destruct (0 <=? scanPos _ _ _); [|injection Hres as <- <-; by apply coh_new].
    apply outcome_bind_Ok in Hres as (x & Hx%of_index_Ok & Hres).
    assert (coh db false x) as Hcx.
    { apply Hcs'. pose proof (zget_Some_range _ _ _ Hx). rewrite zget_lookup in Hx by lia. by eapply list_elem_of_lookup_2. }
    destruct (negb _); [|injection Hres as <- <-; by apply coh_above].
    apply outcome_bind_Ok in Hres as (cn & Hcn & Hres).
    pose proof (coh_single db gen f x prefix cn (scanPos (zset cs k0 nn) 0 (-1)) Hcx Hcn) as Hsingle.
    by destruct cn; injection Hres as <- <-.
  - intros (n & Hn & ([d' nn] & Hr & Hres)%outcome_bind_Ok)%outcome_bind_Ok. destruct (loaded_hash _ _ _ _ _ _ Hc Hn) as (Hl & _).
    destruct d'; injection Hres as <- <-; [|apply (ld_coh _ _ _ _ Hl)]. eapply IH; [apply (ld_coh _ _ _ _ Hl)|exact Hr].
Qed.

End Coherent.

(** ** A larger database *)

Section Larger.
Context (msgEncode : node -> list byte) (keccak : list byte -> list byte) (msgDecode : list byte -> option node).
Context (db db' : list byte -> option (list byte)) (Hsub : forall h e, db h = Some e -> db' h = Some e).
Abbreviation coh := (coh msgEncode keccak msgDecode).

Lemma stored_larger h n : stored db msgDecode h n -> stored db' msgDecode h n.
Proof. intros (e & ? & ? & ?). exists e. auto. Qed.

Lemma branchy_larger n : branchy db msgDecode n -> branchy db' msgDecode n.
Proof. intros (cs & fl & [->|(h & -> & Hs)]); exists cs, fl; [by left|right]. exists h. split; [done|by apply stored_larger]. Qed.

Lemma wf_larger n : wf db msgDecode n -> wf db' msgDecode n.
Proof.
  induction 1 as [k v f Hk Hv|k c f Hk Hn _ IH Hb|cs f Hl _ IH H16 H2|h n Hs _ IH Hh].
  - by apply wf_leaf.
  - apply wf_ext; try done. by apply branchy_larger.
  - by apply wf_full.
  - by eapply wf_hash; [apply stored_larger|..].
Qed.

Lemma wf_child d n c : wf d msgDecode n -> is_hash n = false -> child n c -> plain c = true \/ wf d msgDecode c.
Proof.
  destruct 1 as [k v f Hk Hv|k c' f Hk Hn Hw Hb|cs f Hl Hc H16 H2|h n Hs Hw Hh]; intros Hh' Hch; simpl in *; [subst; by left|subst; by right| |done].
  apply list_elem_of_lookup in Hch as [i Hi]. destruct (is_nil c) eqn:Hn; [apply is_nil_true in Hn as ->; by left|].
  assert (c <> Nil) as Hne by (by intros ->). pose proof (lookup_lt_Some _ _ _ Hi).
  destruct (decide (i = 16%nat)) as [->|]; [destruct (H16 c Hi Hne) as (v & _ & ->); by left|]. right. apply (Hc i); [done|lia|done].
Qed.

Lemma has_larger n : wf db msgDecode n -> forall k v, has db' msgDecode n k v <-> has db msgDecode n k v.
Proof.
  induction 1 as [k v f Hk Hv|k c f Hk Hn _ IH Hb|cs f Hl _ IH H16 H2|h n Hs _ IH Hh]; intros k' v'.
  - rewrite !has_Short. by setoid_rewrite has_Value.
  - rewrite !has_Short. by setoid_rewrite IH.
  - rewrite !has_Full. assert (forall i c k v, zget cs i = Some c -> has db' msgDecode c k v <-> has db msgDecode c k v) as Hch.
    { intros i c k v Hi. pose proof (zget_Some_range _ _ _ Hi). rewrite zget_lookup in Hi by lia.
      destruct (is_nil c) eqn:Hn; [apply is_nil_true in Hn as ->; split; by intros ?%has_Nil|]. assert (c <> Nil) as Hne by (by intros ->).
      destruct (decide (i = 16)) as [->|]; [destruct (H16 c Hi Hne) as (w & _ & ->); by rewrite !has_Value|].
      apply (IH (Z.to_nat i)); [done|lia|done]. }
    split; intros (i & c & k & -> & Hi & Hh); exists i, c, k; (split; [done|]); (split; [done|]); by apply (Hch i c k v' Hi).
  - rewrite (has_Hash db' msgDecode h n), (has_Hash db msgDecode h n) by (done || by apply stored_larger). done.
Qed.

Lemma coh_larger f n : coh db f n -> plain n = true \/ wf db msgDecode n -> coh db' f n.
Proof.
  induction 1 as [f|f v|f n Hn Hh Hch IH H1 H2 IH2 H3 H4|f h n Hs Hb Hw Hh Hr Hch IH]; intros Hpw; [constructor|constructor| |].
  - destruct Hpw as [Hp|Hw]; [destruct n; [done|constructor|done..]|]. apply coh_node; try done.
    + intros c Hc. apply IH; [done|]. by eapply wf_child.
    + intros h He Hd. apply IH2; [done|done|]. right. apply (coh_hash_wf _ _ _ _ _ _ (H2 h He Hd)).
    + intros h He Hd. destruct (H3 h He Hd) as [Ha Hbr]. pose proof (coh_hash_wf _ _ _ _ _ _ (H2 h He Hd)) as Hwh. split.
      * intros k v. by rewrite !has_larger.
      * intros Hbn. apply branchy_larger, Hbr. destruct n as [| |? ? ?|cs fl|?]; try done; [by destruct Hbn as (? & ? & [[=]|(? & [=] & _)])|]. eexists _, _. by left.
  - apply (coh_hash _ _ _ _ _ _ n); try done; [by apply stored_larger|by apply wf_larger|]. intros c Hc. apply IH; [done|]. by eapply wf_child.
Qed.

End Larger.

(** ** Committing *)

(** What is read back has no flags. *)
Lemma unwire_bare n : forall n', unwire n = Some n' -> bare n' = n'.
Proof.
  induction n as [|v|k v fl IH|cs fl IH|h] using node_children_ind; intros n'.
  - by intros [= <-].
  - destruct v; by intros [= <-].
  - simpl. intros (k' & _ & (v' & Hv & [= <-])%bind_Some)%bind_Some. simpl. by rewrite (IH v').
  - rewrite unwire_full. intros (cs' & Hcs & [= <-])%bind_Some. simpl. f_equal.
    apply omap_list_Some in Hcs as [Hl Hcs]. apply list_eq_same_length with (length cs); [by rewrite ?length_map|by rewrite ?length_map|].
    intros i x y Hi Hx Hy. rewrite list_lookup_fmap, Hy in Hx. simpl in Hx. injection Hx as <-.
    destruct (lookup_lt_is_Some_2 cs i) as [c Hc]; [done|]. destruct (Hcs i c Hc) as (y' & Hy' & Hu). simplify_eq.
    rewrite Forall_forall in IH. apply (IH c); [|done]. apply list_elem_of_In. by eapply list_elem_of_lookup_2.
  - by intros [= <-].
Qed.

Section Commit.
Context (msgEncode : node -> list byte) (keccak : list byte -> list byte) (msgDecode : list byte -> option node) (gen lim : Z).
Abbreviation coh := (coh msgEncode keccak msgDecode).
Abbreviation cref := (cref msgEncode keccak).
Abbreviation sref := (sref msgEncode keccak).
Abbreviation store := (TrieHash.store msgEncode keccak).

(** [msgDecode] reads back what [msgEncode] wrote. *)
Hypothesis decode_encode : forall n n', unwire n = Some n' -> msgDecode (msgEncode (bare n)) = Some n'.
Hypothesis encode_some : forall n, msgEncode n <> [].

Lemma store_ref b f c : is_nil c = false -> is_hash c = false -> (forall h, (cache c).1 = Some h -> sref f c = HashNode h) ->
  store c b f = (c, []) /\ sref f c = bare c \/
  store c b f = (HashNode (keccak (msgEncode (bare c))), if b then [(keccak (msgEncode (bare c)), msgEncode (bare c))] else []) /\
    sref f c = HashNode (keccak (msgEncode (bare c))).
Proof.
  intros Hn Hh Hc. assert (store c b f = let enc := msgEncode (bare c) in if (length enc <? 32)%nat && negb f then (c, [])
    else let h := default (keccak enc) (cache c).1 in (HashNode h, if b then [(h, enc)] else [])) as -> by (by destruct c).
  unfold TrieCommit.sref in *. cbv zeta in *. destruct ((length _ <? 32)%nat && negb f); [by left|right]. split; [|done].
  destruct (cache c).1 as [h|] eqn:He; [|done]. specialize (Hc h eq_refl). injection Hc as Hc. by rewrite <- Hc.
Qed.

Section Databases.
Context (db db' : list byte -> option (list byte)) (Hsub : forall h e, db h = Some e -> db' h = Some e).

(** [x] in the larger database stands for [n]. *)
Record repl (f : bool) (n x : node) : Prop := {
  rp_wf : wf db' msgDecode x;
  rp_coh : coh db' f x;
  rp_cref : cref f x = cref f n;
  rp_has : forall k v, has db' msgDecode x k v <-> has db msgDecode n k v;
  rp_branchy : branchy db msgDecode n -> branchy db' msgDecode x;
}.

(** The same, but for the flags. *)
Record body (f : bool) (n x : node) : Prop := {
  bd_wf : wf db' msgDecode x;
  bd_child : forall c, child x c -> coh db' false c;
  bd_cref : cref f x = cref f n;
  bd_has : forall k v, has db' msgDecode x k v <-> has db msgDecode n k v;
  bd_branchy : branchy db' msgDecode x <-> branchy db msgDecode n;
  bd_hash : is_hash x = false;
}.

Lemma wf_not_plain d n : wf d msgDecode n -> plain n = false.
Proof. by destruct 1. Qed.
Lemma wf_nonnil d n : wf d msgDecode n -> is_nil n = false.
Proof. by destruct 1. Qed.

Lemma repl_same f n : coh db f n -> wf db msgDecode n -> repl f n n.
Proof.
  intros Hc Hw. split; [by apply (wf_larger _ db)|apply (coh_larger _ _ _ db); auto|done|by apply has_larger|by apply branchy_larger].
Qed.

(** The hash of a node that is in the database. *)
Lemma repl_clean f n h : coh db f n -> (cache n).1 = Some h -> (cache n).2 = false -> repl f n (HashNode h).
Proof.
  intros Hc He Hd. inversion Hc as [| |? ? _ _ _ H1 H2 H3 _|]; subst; try done. specialize (H1 h He). specialize (H2 h He Hd).
  destruct (H3 h He Hd) as [Hh Hb]. pose proof (coh_hash_wf _ _ _ _ _ _ H2) as Hw. destruct (repl_same f (HashNode h) H2 Hw) as [R1 R2 R3 R4 R5].
  split; [done|done|by rewrite H1|intros k v; by rewrite R4|auto].
Qed.

(** A reference to what was written. *)
Lemma repl_reference f n h x : body f n x -> stored db' msgDecode h x -> bare x = x -> cref f n = Some (HashNode h) -> repl f n (HashNode h).
Proof.
  intros [Hw Hch Hr Hhas Hb Hh] Hs Hbx Hf. split.
  - by eapply wf_hash.
  - eapply coh_hash; try done. congruence.
  - done.
  - intros k v. rewrite (has_Hash db' msgDecode h x) by done. apply Hhas.
  - rewrite <- Hb. intros (cs & fl & [->|(h' & -> & _)]); [|done]. exists cs, fl. right. eauto.
Qed.

(** A node with flags that say so. *)
Lemma repl_node f n x : body f n x -> (forall h, (cache x).1 = Some h -> cref f n = Some (HashNode h)) ->
  (forall h, (cache x).1 = Some h -> (cache x).2 = false -> repl f n (HashNode h)) ->
  ((cache x).1 = None -> (cache x).2 = false -> forall h, cref f n <> Some (HashNode h)) -> repl f n x.
Proof.
  intros [Hw Hch Hr Hhas Hb Hh] H1 H2 H3. split; [done| |done|done|apply Hb]. apply coh_node; rewrite ?Hr; try done.
  - by eapply wf_nonnil.
  - intros h He Hd. apply (rp_coh _ _ _ (H2 h He Hd)).
  - intros h He Hd. destruct (H2 h He Hd) as [_ _ _ Hh2 Hb2]. split; [intros k v; by rewrite Hh2, Hhas|]. rewrite Hb. exact Hb2.
Qed.

(** Children that are kept or replaced. *)
Definition sub_repl (c x : node) : Prop := if plain c then x = c else repl false c x.

Lemma repl_not_plain f c x : repl f c x -> plain x = false.
Proof. intros [Hw _ _ _ _]. by eapply wf_not_plain. Qed.

Lemma sub_repl_has c x : sub_repl c x -> forall k v, has db' msgDecode x k v <-> has db msgDecode c k v.
Proof.
  unfold sub_repl. destruct (plain c) eqn:Hp; [intros -> k v|intros Hr; apply (rp_has _ _ _ Hr)].
  destruct c; try done; [split; by intros ?%has_Nil|by rewrite !has_Value].
Qed.

Lemma sub_repl_coh c x : sub_repl c x -> coh db' false x.
Proof. unfold sub_repl. destruct (plain c) eqn:Hp; [intros ->; destruct c; try done; constructor|intros Hr; apply (rp_coh _ _ _ Hr)]. Qed.

Lemma sub_repl_nil c x : sub_repl c x -> is_nil x = is_nil c.
Proof.
  unfold sub_repl. destruct (plain c) eqn:Hp; [by intros ->|]. intros Hr%repl_not_plain. by destruct c, x.
Qed.

Lemma sub_repl_val c x : sub_repl c x -> val_ref msgEncode keccak x = val_ref msgEncode keccak c.
Proof.
  unfold sub_repl. destruct (plain c) eqn:Hp; [by intros ->|]. intros Hr. pose proof (repl_not_plain _ _ _ Hr). pose proof (rp_cref _ _ _ Hr).
  unfold val_ref. by destruct c, x.
Qed.

Lemma sub_repl_slot i c x : sub_repl c x -> (i < 16)%nat \/ plain c = true -> slot_ref msgEncode keccak i x = slot_ref msgEncode keccak i c.
Proof.
  intros Hs. pose proof (sub_repl_nil _ _ Hs) as Hn. unfold sub_repl in Hs. destruct (plain c) eqn:Hp; [by subst|]. intros [Hi|]; [|done].
  unfold slot_ref. rewrite Hn, (rp_cref _ _ _ Hs). apply Nat.ltb_lt in Hi as ->. by destruct c.
Qed.

Lemma body_short f k c x fl fl' : wf db msgDecode (ShortNode k c fl) -> sub_repl c x -> body f (ShortNode k c fl) (ShortNode k x fl').
Proof.
  intros Hw Hs. split; try done.
  - inversion Hw as [? v ? Hk Hv|? ? ? Hk Hn Hwc Hb|? ? ? ? ? ?|]; subst; unfold sub_repl in Hs.
    + simpl in Hs. subst. by apply wf_leaf.
    + rewrite (wf_not_plain _ _ Hwc) in Hs. apply wf_ext; try done; [apply (rp_wf _ _ _ Hs)|by apply (rp_branchy _ _ _ Hs)].
  - intros ? ->. by eapply sub_repl_coh.
  - rewrite !cref_short. by rewrite (sub_repl_val _ _ Hs).
  - intros k' v. rewrite !has_Short. by setoid_rewrite (sub_repl_has _ _ Hs).
  - split; intros (? & ? & [[=]|(? & [=] & _)]).
Qed.

Lemma body_full f cs xs fl fl' : wf db msgDecode (FullNode cs fl) -> length xs = length cs ->
  (forall i c x, cs !! i = Some c -> xs !! i = Some x -> sub_repl c x) -> body f (FullNode cs fl) (FullNode xs fl').
Proof.
  intros Hw Hl Hs. inversion Hw as [| |? ? H17 Hc H16 H2|]; subst.
  assert (forall i x, xs !! i = Some x -> exists c, cs !! i = Some c /\ sub_repl c x) as Hs1.
  { intros i x Hx. destruct (lookup_lt_is_Some_2 cs i) as [c Hi]; [rewrite <- Hl; by eapply lookup_lt_Some|]. eauto. }
  assert (forall i c, cs !! i = Some c -> exists x, xs !! i = Some x /\ sub_repl c x) as Hs2.
  { intros i c Hi. destruct (lookup_lt_is_Some_2 xs i) as [x Hx]; [rewrite Hl; by eapply lookup_lt_Some|]. eauto. }
  assert (forall i c, cs !! i = Some c -> (i < 16)%nat \/ plain c = true) as Hp.
  { intros i c Hi. pose proof (lookup_lt_Some _ _ _ Hi). assert (zget cs (Z.of_nat i) = Some c) as Hz by (by rewrite zget_lookup, Nat2Z.id by lia).
    destruct (wf_full_16 _ _ _ _ _ _ Hw Hz); [left; lia|by right]. }
  assert (forall c x, sub_repl c x -> x <> Nil -> c <> Nil) as Hnn.
  { intros c x Hr Hx ->. by apply Hx. }
  split; try done.
  - apply wf_full; [lia| | |].
    + intros i x (c & Hi & Hr)%Hs1 H Hx. pose proof (Hc i c Hi H (Hnn _ _ Hr Hx)) as Hwc. unfold sub_repl in Hr. rewrite (wf_not_plain _ _ Hwc) in Hr.
      apply (rp_wf _ _ _ Hr).
    + intros x (c & Hi & Hr)%Hs1 Hx. destruct (H16 c Hi (Hnn _ _ Hr Hx)) as (v & Hv & ->). simpl in Hr. eauto.
    + destruct H2 as (i & j & ci & cj & Hij & Hi & Hj & Hni & Hnj). destruct (Hs2 _ _ Hi) as (xi & Hxi & Hri). destruct (Hs2 _ _ Hj) as (xj & Hxj & Hrj).
      exists i, j, xi, xj. split_and!; try done.
      * intros ->. apply sub_repl_nil in Hri. by destruct ci.
      * intros ->. apply sub_repl_nil in Hrj. by destruct cj.
  - intros x (i & Hi)%list_elem_of_lookup. destruct (Hs1 _ _ Hi) as (c & _ & Hr). by eapply sub_repl_coh.
  - rewrite !cref_full. assert (omap_list (slot_ref msgEncode keccak) 0 xs = omap_list (slot_ref msgEncode keccak) 0 cs) as ->; [|done].
    apply option_eq. intros ys. rewrite !omap_list_Some, Hl. f_equiv. split; intros Hj j y Hy.
    + destruct (Hs2 _ _ Hy) as (x & Hx & Hr). simpl. rewrite <- (sub_repl_slot j _ _ Hr (Hp _ _ Hy)). by apply Hj.
    + destruct (Hs1 _ _ Hy) as (c & Hc' & Hr). simpl. rewrite (sub_repl_slot j _ _ Hr (Hp _ _ Hc')). by apply Hj.
  - intros [|j k] v; [split; by intros (? & ? & ? & ? & _)%has_Full|]. rewrite !has_Full_cons. split; intros (x & Hx & Hh).
    + pose proof (zget_Some_range _ _ _ Hx) as Hr. rewrite zget_lookup in Hx by lia. destruct (Hs1 _ _ Hx) as (c & Hc' & Hsr). exists c. rewrite zget_lookup by lia.
      split; [done|]. by apply (sub_repl_has _ _ Hsr).
    + pose proof (zget_Some_range _ _ _ Hx) as Hr. rewrite zget_lookup in Hx by lia. destruct (Hs2 _ _ Hx) as (c & Hc' & Hsr). exists c. rewrite zget_lookup by lia.
      split; [done|]. by apply (sub_repl_has _ _ Hsr).
  - split; intros _; eexists _, _; by left.
Qed.

Lemma bare_cache x : bare x = x -> plain x = false -> is_hash x = false -> cache x = (None, false).
Proof. destruct x as [|v|k v fl|cs fl|h]; simpl; try done; intros Hb _ _; by assert (fl = noFlag) as -> by congruence. Qed.

(** What was collapsed is read back as it was, in place or from the database. *)
Lemma repl_collapsed f n c x : unwire c = Some x -> body f n x -> cref f n = Some (sref f c) ->
  (sref f c = bare c -> is_hash c = false -> repl f n x) /\
  (forall h, sref f c = HashNode h -> db' h = Some (msgEncode (bare c)) -> repl f n (HashNode h)).
Proof.
  intros Hu Hb Hr. pose proof (unwire_bare _ _ Hu) as Hbx. split.
  - intros Hs Hc. pose proof (bare_cache _ Hbx (wf_not_plain _ _ (bd_wf _ _ _ Hb)) (bd_hash _ _ _ Hb)) as Hca.
    apply repl_node; rewrite ?Hca; try done. intros _ _ h. rewrite Hr, Hs. by destruct c.
  - intros h Hs Hd. apply (repl_reference f n h x); [done| |done|congruence]. exists (msgEncode (bare c)). split_and!; [done..|]. by apply decode_encode.
Qed.

End Databases.

Lemma finish_ok db b f n c k w : coh db f n -> is_hash n = false -> is_nil n = false -> plain c = false -> is_hash c = false -> plain k = false -> is_hash k = false ->
  cache c = cache n -> cache k = cache n -> cref f n = Some (sref f c) -> (cache n).1 = None \/ b = true ->
  exists hd ck w', finish msgEncode keccak c k w b f = Ok (hd, ck, w ++ w') /\ sref f c = bare hd /\ (forall h e, (h, e) ∈ w' -> h = keccak e) /\
    forall db', (forall h e, db h = Some e -> db' h = Some e) -> (forall h e, (h, e) ∈ w' -> db' h = Some e) ->
      (forall hd, body db db' f n (cache_hash k hd b)) -> (b = true -> exists x, unwire c = Some x /\ body db db' f n x) ->
      (b = true -> exists x, unwire hd = Some x /\ repl db db' f n x) /\ repl db db' f n ck.
Proof.
  intros Hc Hh Hn Hpc Hhc Hpk Hhk Hcc Hck Hr Hb.
  assert (forall h, (cache n).1 = Some h -> cref f n = Some (HashNode h)) as H1 by (inversion Hc; subst; try done; destruct n; done).
  assert ((cache n).1 = None -> (cache n).2 = false -> forall h, cref f n <> Some (HashNode h)) as H2 by (inversion Hc; subst; try done; destruct n; done).
  assert (forall hd, cache (cache_hash k hd b) = (match hd with HashNode h => Some h | _ => None end, if b then false else (cache n).2)) as Hca.
  { intros hd. rewrite <- Hck. by destruct k. }
  destruct (store_ref b f c) as [[Hs Hsr]|[Hs Hsr]]; [by destruct c|done|intros h; rewrite Hcc; intros ?%H1; congruence| |];
    unfold finish; rewrite Hs.
  - exists c, (cache_hash k c b), []. split_and!; [done|done|by intros ? ? ?%elem_of_nil|]. intros db' Hsub _ Hbk Hbx. split.
    + intros Hbt. destruct (Hbx Hbt) as (x & Hu & Hx). exists x. split; [done|]. by apply (proj1 (repl_collapsed db db' f n c x Hu Hx Hr)).
    + apply repl_node; [done|..]; rewrite Hca; simpl; try (by destruct c). intros _ _ h. rewrite Hr, Hsr. by destruct c.
  - set (enc := msgEncode (bare c)) in *. exists (HashNode (keccak enc)), (cache_hash k (HashNode (keccak enc)) b), (if b then [(keccak enc, enc)] else []).
    split_and!; [done|done|destruct b; set_solver|]. intros db' Hsub Hw Hbk Hbx.
    assert (b = true -> repl db db' f n (HashNode (keccak enc))) as Hrh.
    { intros Hbt. destruct (Hbx Hbt) as (x & Hu & Hx). apply (proj2 (repl_collapsed db db' f n c x Hu Hx Hr)); [done|]. apply Hw. subst b. set_solver. }
    split; [intros Hbt; exists (HashNode (keccak enc)); eauto|].
    apply repl_node; [done|..]; rewrite Hca; simpl; [congruence| |done]. intros h [= <-] Hd. destruct b; [by apply Hrh|]. destruct Hb as [Hb|]; [|done].
    by destruct (H2 Hb Hd (keccak enc)); congruence.
Qed.

(** ** Hashing a node *)

Lemma wf_key d k c fl : wf d msgDecode (ShortNode k c fl) -> exists ck, hexToCompact k = Some ck /\ compactToHex ck = Some k.
Proof.
  inversion 1 as [? ? ? Hk ?|? ? ? ? Hk ? ?| |]; subst; [destruct Hk as (ns & -> & Hk); by apply (compact_inverse true)|by apply (compact_inverse false)].
Qed.

Lemma cref_not_nil f n : forall x, cref f n = Some x -> is_nil x = false.
Proof.
  assert (forall c, is_nil c = false -> is_nil (sref f c) = false) as Hs.
  { intros c Hc. unfold TrieCommit.sref. cbv zeta. destruct (_ && _); [by destruct c|done]. }
  intros x. destruct n as [|v|k v fl|cs fl|h]; [done|by intros [= <-]; apply Hs| | |by intros [= <-]].
  - rewrite cref_short. intros (ck & _ & (cv & _ & [= <-])%bind_Some)%bind_Some. by apply Hs.
  - rewrite cref_full. intros (ccs & _ & [= <-])%bind_Some. by apply Hs.
Qed.

(** [hash] returned the reference [r], and what can be read back stands for the node;
    [R] says what stands for it. *)
Definition good (db : list byte -> option (list byte)) (b : bool) (r : option node) (R : (list byte -> option (list byte)) -> node -> Prop)
    (res : node * node * writes) : Prop :=
  r = Some (bare res.1.1) /\ (forall h e, (h, e) ∈ res.2 -> h = keccak e) /\
  forall db', (forall h e, db h = Some e -> db' h = Some e) -> (forall h e, (h, e) ∈ res.2 -> db' h = Some e) ->
    (b = true -> exists x, unwire res.1.1 = Some x /\ R db' x) /\ R db' res.1.2.

Abbreviation hash := (TrieHash.hash msgEncode keccak gen lim).
Abbreviation good_node db b f n := (good db b (cref f n) (fun db' => repl db db' f n)).
Abbreviation good_sub db b r c := (good db b r (fun db' => sub_repl db db' c)).

Lemma good_kept db b f n hd : coh db f n -> wf db msgDecode n -> cref f n = Some (bare hd) -> unwire hd = Some hd ->
  (forall db', (forall h e, db h = Some e -> db' h = Some e) -> repl db db' f n hd) ->
  forall ck, ck = n \/ ck = hd -> good_node db b f n (hd, ck, []).
Proof.
  intros Hc Hw Hr Hu Hrep ck Hck. split; [done|]. split; [by intros ? ? ?%elem_of_nil|]. simpl. intros db' Hsub _. split; [eauto|].
  destruct Hck as [->| ->]; [by apply repl_same|auto].
Qed.

(** Below a node. *)
Lemma sub_good db b c : (plain c = false -> exists res, hash c b false = Ok res /\ good_node db b false c res) -> plain c = false ->
  exists res, hash c b false = Ok res /\ good_sub db b (cref false c) c res.
Proof.
  intros IH Hp. destruct (IH Hp) as (res & Hres & Hg). exists res. split; [done|]. destruct Hg as (H1 & H2 & H3). split_and!; [done..|].
  intros db' Hs Hw. unfold sub_repl. rewrite Hp. by apply H3.
Qed.

Lemma val_good db b c : (plain c = false -> exists res, hash c b false = Ok res /\ good_node db b false c res) -> c <> Nil -> c <> ValueNode [] ->
  exists res, hash_val msgEncode keccak gen lim c b = Ok res /\ good_sub db b (val_ref msgEncode keccak c) c res.
Proof.
  intros IH Hn Hv. destruct (plain c) eqn:Hp.
  - destruct c as [|v| | |]; try done. exists (ValueNode v, ValueNode v, []). split; [done|]. split; [done|]. split; [by intros ? ? ?%elem_of_nil|].
    intros db' _ _. split; [|done]. intros _. exists (ValueNode v). by destruct v.
  - destruct (sub_good db b c) as (res & Hres & Hg); [by rewrite Hp|done|]. exists res. by destruct c.
Qed.

Lemma slot_good db b i c : (plain c = false -> exists res, hash c b false = Ok res /\ good_node db b false c res) -> c <> ValueNode [] ->
  ((i < 16)%nat /\ (c = Nil \/ plain c = false)) \/ ((16 <= i)%nat /\ plain c = true) ->
  exists res, hash_slot msgEncode keccak gen lim i c b = Ok res /\ good_sub db b (slot_ref msgEncode keccak i c) c res.
Proof.
  intros IH Hv Hi. unfold hash_slot, slot_ref. destruct (plain c) eqn:Hp.
  - assert ((i <? 16)%nat && negb (is_nil c) = false) as ->.
    { destruct Hi as [(_ & [->|])|(Hi & _)]; [apply andb_false_r|done|]. apply Nat.ltb_ge in Hi as ->. done. }
    exists (or_empty c, c, []). split; [done|]. split; [done|]. split; [by intros ? ? ?%elem_of_nil|].
    intros db' _ _. unfold sub_repl. rewrite Hp. split; [|done]. intros _. exists c. destruct c as [|[|]| | |]; done.
  - destruct Hi as [(Hi & _)|(_ & ?)]; [|done]. apply Nat.ltb_lt in Hi as ->. destruct (sub_good db b c) as (res & Hres & Hg); [by rewrite Hp|done|].
    exists res. by destruct c.
Qed.

Lemma walk_short db b f k c fl : coh db f (ShortNode k c fl) -> wf db msgDecode (ShortNode k c fl) -> flag_hash fl = None \/ b = true ->
  (plain c = false -> exists res, hash c b false = Ok res /\ good_node db b false c res) ->
  exists res, walk msgEncode keccak gen lim (ShortNode k c fl) b f = Ok res /\ good_node db b f (ShortNode k c fl) res.
Proof.
  intros Hc Hw Hb IH. destruct (wf_key _ _ _ _ Hw) as (ck & Hck & Hkc).
  destruct (val_good db b c IH) as ([[cv kv] w] & Hv & (Hr & Hkw & Hg)).
  { intros ->. inversion Hw as [|? ? ? _ _ Hwc _| |]. by inversion Hwc. }
  { intros ->. inversion Hw as [? ? ? _ Hne|? ? ? _ _ Hwc _| |]; [done|by inversion Hwc]. }
  unfold walk. rewrite Hck. cbn [of_index mbind outcome_bind]. rewrite Hv. cbn [mbind outcome_bind]. cbn [fst snd] in Hr.
  assert (cref f (ShortNode k c fl) = Some (sref f (ShortNode ck (or_empty cv) fl))) as Hrn.
  { rewrite cref_short, Hck. simpl. rewrite Hr. simpl. f_equal. apply sref_bare. simpl. f_equal. destruct cv; try done; apply bare_idem. }
  destruct (finish_ok db b f (ShortNode k c fl) (ShortNode ck (or_empty cv) fl) (ShortNode k kv fl) w) as (hd & kk & w' & Hf & Hsr & Hkw' & Hrep); try done.
  exists (hd, kk, w ++ w'). split; [done|]. split; [by rewrite Hrn, Hsr|]. split; [intros h e [?|?]%elem_of_app; eauto|]. cbn [fst snd].
  intros db' Hsub Hww. destruct (Hg db' Hsub) as [Hg1 Hg2]; [set_solver|]. apply Hrep; [done|set_solver| |].
  - intros hd'. simpl. by apply body_short.
  - intros Hbt. destruct (Hg1 Hbt) as (x & Hx & Hsx). exists (ShortNode k x noFlag). simpl. rewrite Hkc. simpl.
    assert (unwire (or_empty cv) = Some x) as -> by (by destruct cv). split; [done|]. by apply body_short.
Qed.

Lemma full_slots db cs fl : wf db msgDecode (FullNode cs fl) -> forall i c, cs !! i = Some c ->
  c <> ValueNode [] /\ (((i < 16)%nat /\ (c = Nil \/ plain c = false)) \/ ((16 <= i)%nat /\ plain c = true)).
Proof.
  intros Hw i c Hi. inversion Hw as [| |? ? H17 Hc H16 H2|]; subst. pose proof (lookup_lt_Some _ _ _ Hi).
  destruct (is_nil c) eqn:Hn; [apply is_nil_true in Hn as ->; split; [done|]; destruct (decide (i < 16)%nat); [by left; auto|right; split; [lia|done]]|].
  assert (c <> Nil) as Hne by (by intros ->). destruct (decide (i = 16%nat)) as [->|].
  - destruct (H16 c Hi Hne) as (v & Hv & ->). split; [congruence|right; split; [lia|done]].
  - pose proof (Hc i c Hi ltac:(lia) Hne) as Hwc. split; [intros ->; inversion Hwc|left]. split; [lia|right; by eapply wf_not_plain].
Qed.

Lemma walk_full db b f cs fl : coh db f (FullNode cs fl) -> wf db msgDecode (FullNode cs fl) -> flag_hash fl = None \/ b = true ->
  (forall c, c ∈ cs -> plain c = false -> exists res, hash c b false = Ok res /\ good_node db b false c res) ->
  exists res, walk msgEncode keccak gen lim (FullNode cs fl) b f = Ok res /\ good_node db b f (FullNode cs fl) res.
Proof.
  intros Hc Hw Hb IH.
  assert (forall j c, cs !! j = Some c -> exists res, hash_slot msgEncode keccak gen lim j c b = Ok res /\ good_sub db b (slot_ref msgEncode keccak j c) c res) as Hsl.
  { intros j c Hj. destruct (full_slots _ _ _ Hw j c Hj) as [Hv Hs]. apply slot_good; [|done..]. apply IH. by eapply list_elem_of_lookup_2. }
  destruct (hash_list_ok msgEncode keccak gen lim b cs 0) as (ccs & kcs & w & Hl & Hlc & Hlk & Hj & Hin).
  { intros j c Hc'. destruct (Hsl j c Hc') as (res & Hres & _). eauto. }
  assert (forall j c, cs !! j = Some c -> exists cc kc wc, ccs !! j = Some cc /\ kcs !! j = Some kc /\ wc ⊆ w /\ good_sub db b (slot_ref msgEncode keccak j c) c (cc, kc, wc)) as Hgood.
  { intros j c Hc'. destruct (Hsl j c Hc') as (res & Hres & Hg). destruct (Hj j c Hc') as (cc & kc & wc & Hres' & ? & ? & ?). simpl in Hres'.
    exists cc, kc, wc. split_and!; [done..|]. by assert (res = (cc, kc, wc)) as -> by congruence. }
  unfold walk. rewrite Hl. cbn [mbind outcome_bind].
  assert (cref f (FullNode cs fl) = Some (sref f (FullNode ccs fl))) as Hrn.
  { rewrite cref_full. assert (omap_list (slot_ref msgEncode keccak) 0 cs = Some (map bare ccs)) as ->.
    { apply omap_list_Some. split; [by rewrite length_map|]. intros j c Hc'. destruct (Hgood j c Hc') as (cc & kc & wc & Hcc & _ & _ & (Hr & _)). exists (bare cc).
      by rewrite list_lookup_fmap, Hcc. }
    simpl. f_equal. apply sref_bare. simpl. f_equal. rewrite map_map. apply map_ext. apply bare_idem. }
  destruct (finish_ok db b f (FullNode cs fl) (FullNode ccs fl) (FullNode kcs fl) w) as (hd & kk & w' & Hf & Hsr & Hkw' & Hrep); try done.
  exists (hd, kk, w ++ w'). split; [done|]. split; [by rewrite Hrn, Hsr|]. split.
  { intros h e [Hx|?]%elem_of_app; [|eauto]. destruct (Hin _ Hx) as (j & c & cc & kc & wc & Hc' & Hres & Hwc). destruct (Hsl j c Hc') as (res & Hres' & (_ & Hk & _)).
    simpl in Hres. assert (res = (cc, kc, wc)) as -> by congruence. by apply Hk. }
  cbn [fst snd]. intros db' Hsub Hww. apply Hrep; [done|set_solver| |].
  - intros hd'. simpl. apply body_full; [done|done|]. intros j c x Hc' Hx. destruct (Hgood j c Hc') as (cc & kc & wc & _ & Hk & Hsw & (_ & _ & Hg)).
    simplify_eq. apply Hg; [done|set_solver].
  - intros Hbt. assert (forall j cc, ccs !! j = Some cc -> exists x, unwire cc = Some x /\ forall c, cs !! j = Some c -> sub_repl db db' c x) as Hx.
    { intros j cc Hcc. destruct (lookup_lt_is_Some_2 cs j) as [c Hc']; [rewrite <- Hlc; by eapply lookup_lt_Some|].
      destruct (Hgood j c Hc') as (cc' & kc & wc & Hcc' & _ & Hsw & (_ & _ & Hg)). assert (cc' = cc) as -> by congruence.
      destruct (Hg db' Hsub) as [Hu _]; [set_solver|]. destruct (Hu Hbt) as (x & Hx & Hs). exists x. split; [done|]. intros c' ?. by simplify_eq. }
    destruct (omap_list_total (fun _ => unwire) ccs 0) as [xs Hxs]; [intros j cc Hcc; destruct (Hx j cc Hcc) as (x & ? & _); eauto|].
    exists (FullNode xs noFlag). rewrite unwire_full, Hxs. split; [done|]. apply omap_list_Some in Hxs as [Hlx Hxs].
    apply body_full; [done|congruence|]. intros j c x Hc' Hx'. destruct (lookup_lt_is_Some_2 ccs j) as [cc Hcc]; [rewrite Hlc; by eapply lookup_lt_Some|].
    destruct (Hx j cc Hcc) as (y & Hy & Hs). destruct (Hxs j cc Hcc) as (z & ? & ?). simplify_eq. by apply Hs.
Qed.

(** Hashing succeeds on every node with right caches; it returns the reference, and
    both what it leaves in memory and, after a commit, what is in the database stand
    for the node. *)
Lemma hash_ok db b f n : coh db f n -> wf db msgDecode n -> exists res, hash n b f = Ok res /\ good_node db b f n res.
Proof.
  induction 1 as [f|f v|f n Hn Hh Hch IH H1 H2 IH2 H3 H4|f h n Hs Hb Hw' Hh Hr Hch IH]; intros Hw; [by inversion Hw|by inversion Hw| |].
  - assert (coh db f n) as Hc by (by apply coh_node). rewrite hash_eq.
    assert (forall c, child n c -> plain c = false -> exists res, hash c b false = Ok res /\ good_node db b false c res) as IH'.
    { intros c Hcc Hp. apply IH; [done|]. destruct (wf_child _ _ _ _ Hw Hh Hcc); [congruence|done]. }
    assert ((cache n).1 = None \/ b = true -> exists res, walk msgEncode keccak gen lim n b f = Ok res /\ good_node db b f n res) as Hwalk.
    { intros Hb. destruct n as [|v|k c fl|cs fl|h]; [done|by inversion Hw| | |done].
      - apply walk_short; try done. by apply IH'.
      - apply walk_full; try done. }
    destruct (cache n).1 as [h|] eqn:He; [|by apply Hwalk; left].
    assert ((cache n).2 = false -> forall ck, ck = n \/ ck = HashNode h -> good_node db b f n (HashNode h, ck, [])) as Hkeep.
    { intros Hd. apply good_kept; try done; [by apply H1|]. intros db' Hsub. by apply repl_clean. }
    destruct b; simpl.
    + destruct (canUnload n gen lim) eqn:Hun.
      { eexists. split; [done|]. apply Hkeep; [|by right]. unfold canUnload in Hun. destruct n; simpl in *; try done; by apply andb_prop in Hun as [?%negb_true_iff _]. }
      destruct (cache n).2 eqn:Hd; simpl; [by apply Hwalk; right|]. eexists. split; [done|]. apply Hkeep; [done|by left].
    + eexists. split; [done|]. split; [by apply H1|]. split; [by intros ? ? ?%elem_of_nil|]. intros db' Hsub _. split; [done|]. by apply repl_same.
  - eexists. split; [reflexivity|]. apply good_kept; [by econstructor|done|done|done| |by left]. intros db' Hsub. apply repl_same; [done|by econstructor|done].
Qed.

End Commit.
