(* ===== verification/TrieRoot.v ===== *)
(** * A trie over its database: sessions of operations

    A session runs reads, updates, deletions, [Hash], [CommitTo] and reopening from the
    committed root, over a database that holds what the commits wrote.  It behaves as a
    session on a finite map, never fails, and the roots it reports are equal exactly
    when the maps are: whatever the history, which nodes were loaded or cached, and
    which were unloaded.

    The theorems assume that no two encodings that were written have the same hash
    ([clash_free]): the hash function itself is a parameter. *)

From stdpp Require Import base list gmap numbers option.
From S2P Require Import Prelude Types TrieEncoding TrieNode Trie TrieContents TrieCorrect TrieMap TrieHash TrieCommit.

(** ** The database *)

(** The last write of a key counts. *)
Definition disk (w : writes) (h : list byte) : option (list byte) :=
  '(_, p) ← list_find (fun p => p.1 = h) (reverse w); Some p.2.

Lemma disk_Some w h e : disk w h = Some e -> (h, e) ∈ w.
Proof.
  unfold disk. intros ([i [h' e']] & Hf & [= <-])%bind_Some. apply list_find_Some in Hf as (Hi & Hh & _). simpl in *. subst h'.
  apply elem_of_reverse. by eapply list_elem_of_lookup_2.
Qed.

Lemma disk_of w h e : (h, e) ∈ w -> exists e', disk w h = Some e'.
Proof.
  intros Hin. unfold disk. destruct (list_find _ _) as [[i [h' e']]|] eqn:Hf; [by exists e'|]. apply list_find_None in Hf.
  rewrite Forall_forall in Hf. exfalso. apply (Hf (h, e)); [|done]. apply list_elem_of_In, elem_of_reverse, Hin.
Qed.

(** ** Sessions *)

Inductive trieOp :=
| OpGet (key : list byte) | OpUpdate (key value : list byte) | OpDelete (key : list byte)
| OpHash | OpCommit | OpReopen.

Inductive trieAnswer := AValue (v : option (list byte)) | ADone | ARoot (h : Hash).

Section Sessions.
Context (msgEncode : node -> list byte) (keccak : list byte -> list byte) (msgDecode : list byte -> option node).

Definition session : Type := writes * Trie.

(** The log of writes is kept also when an operation fails. *)
Definition trie_step (s : session) (o : trieOp) : writes * outcome trieErr (trieAnswer * Trie) :=
  let '(log, t) := s in
  match o with
  | OpGet key => let '(r, t') := TryGet (disk log) msgDecode t key in (log, v ← r; Ok (AValue v, t'))
  | OpUpdate key value => let '(r, t') := TryUpdate (disk log) msgDecode t key value in (log, _ ← r; Ok (ADone, t'))
  | OpDelete key => let '(r, t') := TryDelete (disk log) msgDecode t key in (log, _ ← r; Ok (ADone, t'))
  | OpHash => (log, '(h, t') ← trie_Hash msgEncode keccak t; Ok (ARoot h, t'))
  | OpCommit =>
      match CommitTo msgEncode keccak t with
      | Ok (h, t', w) => (log ++ w, Ok (ARoot h, t'))
      | Err e => (log, Err e) | Panic => (log, Panic) | OutOfFuel => (log, OutOfFuel)
      end
  | OpReopen =>
      match CommitTo msgEncode keccak t with
      | Ok (h, _, w) => (log ++ w, t' ← New (disk (log ++ w)) msgDecode h; Ok (ARoot h, t'))
      | Err e => (log, Err e) | Panic => (log, Panic) | OutOfFuel => (log, OutOfFuel)
      end
  end.

Fixpoint trie_run (s : session) (l : list trieOp) : writes * outcome trieErr (list trieAnswer * Trie) :=
  match l with
  | [] => (s.1, Ok ([], s.2))
  | o :: l =>
      match trie_step s o with
      | (log, Ok (a, t)) =>
          let '(log', r) := trie_run (log, t) l in (log', '(as_, t') ← r; Ok (a :: as_, t'))
      | (log, Err e) => (log, Err e) | (log, Panic) => (log, Panic) | (log, OutOfFuel) => (log, OutOfFuel)
      end
  end.

(** ** The same on a map *)

Abbreviation contents := (gmap (list byte) (list byte)) (only parsing).

Definition map_step (m : contents) (o : trieOp) : contents :=
  match o with
  | OpUpdate key value => if decide (value = []) then base.delete key m else <[key := value]> m
  | OpDelete key => base.delete key m
  | _ => m
  end.

Definition map_run : contents -> list trieOp -> contents := foldl map_step.

Definition op_ok (o : trieOp) : Prop :=
  match o with OpGet key | OpUpdate key _ | OpDelete key => Forall byte_ok key | _ => True end.

(** Answers that the map gives: a value when it is looked up, and some root. *)
Definition answers_map (m : contents) (o : trieOp) (a : trieAnswer) : Prop :=
  match o with
  | OpGet key => a = AValue (m !! key)
  | OpUpdate _ _ | OpDelete _ => a = ADone
  | _ => exists h, a = ARoot h
  end.

Fixpoint answers_run (m : contents) (l : list trieOp) (as_ : list trieAnswer) : Prop :=
  match l, as_ with
  | [], [] => True
  | o :: l, a :: as_ => answers_map m o a /\ answers_run (map_step m o) l as_
  | _, _ => False
  end.

(** ** No two writes clash *)

Definition clash_free (w : writes) : Prop :=
  (forall h e e', (h, e) ∈ w -> (h, e') ∈ w -> e = e') /\
  (forall h e, (h, e) ∈ w -> h <> zeroHash /\ h <> emptyRoot).

Definition clash_freeb (w : writes) : bool :=
  forallb (fun p => forallb (fun q => implb (bool_decide (p.1 = q.1)) (bool_decide (p.2 = q.2))) w &&
    bool_decide (p.1 <> zeroHash) && bool_decide (p.1 <> emptyRoot)) w.

Lemma clash_freeb_free w : clash_freeb w = true -> clash_free w.
Proof.
  unfold clash_freeb. rewrite forallb_forall. intros Hw. assert (forall p, p ∈ w -> forallb (fun q => implb (bool_decide (p.1 = q.1)) (bool_decide (p.2 = q.2))) w = true /\
    p.1 <> zeroHash /\ p.1 <> emptyRoot) as H.
  { intros p Hp%list_elem_of_In%Hw. by apply andb_prop in Hp as [[? ?%bool_decide_eq_true]%andb_prop ?%bool_decide_eq_true]. }
  split; [|intros h e Hin; apply (H _ Hin)]. intros h e e' Hin Hin'. destruct (H _ Hin) as [Hq _]. rewrite forallb_forall in Hq.
  apply list_elem_of_In, Hq in Hin'. simpl in Hin'. rewrite bool_decide_eq_true_2 in Hin' by done. by apply bool_decide_eq_true in Hin'.
Qed.

Lemma clash_free_mono w w' : w ⊆ w' -> clash_free w' -> clash_free w.
Proof. intros Hs [H1 H2]. split; [intros h e e' ? ?; apply (H1 h); by apply Hs|intros h e ?; apply (H2 h e); by apply Hs]. Qed.

Lemma disk_In w h e : clash_free w -> (h, e) ∈ w -> disk w h = Some e.
Proof. intros [H _] Hin. destruct (disk_of _ _ _ Hin) as [e' He]. rewrite He. f_equal. apply (H h); [by apply disk_Some|done]. Qed.

Lemma disk_mono w w' : w ⊆ w' -> clash_free w' -> forall h e, disk w h = Some e -> disk w' h = Some e.
Proof. intros Hs Hc h e He%disk_Some. by apply disk_In, Hs. Qed.

(** ** Coherent tries *)

Hypothesis decode_encode : forall n n', unwire n = Some n' -> msgDecode (msgEncode (bare n)) = Some n'.
Hypothesis encode_some : forall n, msgEncode n <> [].
Hypothesis keccak_length : forall e, length (keccak e) = 32%nat.

Abbreviation cref := (cref msgEncode keccak).
Abbreviation coh := (coh msgEncode keccak msgDecode).

Record trie_ok (db : list byte -> option (list byte)) (t : Trie) (m : contents) : Prop := {
  tok_rep : represents db msgDecode t m;
  tok_coh : coh db true (root t);
}.

Lemma get_coh db t key r t' : coh db true (root t) -> slot db msgDecode (keybytesToHex key) (root t) -> TryGet db msgDecode t key = (Ok r, t') -> coh db true (root t').
Proof.
  intros Hc Hs. unfold TryGet. destruct (tryGet _ _ _ _ _ _ _) as [[[v n] d]| | |] eqn:Hg; [|done..]. intros [= _ <-].
  destruct d; [|done]. simpl. eapply ld_coh, (tryGet_loaded _ _ _ db _ _ _ (keybytesToHex key) 0 _ _ _ _ Hc); [by rewrite drop_0|lia|exact Hg].
Qed.

Lemma update_coh db t key value t' : coh db true (root t) -> TryUpdate db msgDecode t key value = (Ok (), t') -> coh db true (root t').
Proof.
  intros Hc. unfold TryUpdate, set_result. destruct (negb _).
  - destruct (insert _ _ _ _ _ _ _ _) as [[d n]| | |] eqn:Hi; [|done..]. intros [= <-]. simpl. eapply insert_coh; [exact Hc| | |exact Hi]; [left; eauto|constructor].
  - destruct (delete _ _ _ _ _ _ _) as [[d n]| | |] eqn:Hi; [|done..]. intros [= <-]. simpl. by eapply delete_coh.
Qed.

Lemma delete_root_coh db t key t' : coh db true (root t) -> TryDelete db msgDecode t key = (Ok (), t') -> coh db true (root t').
Proof.
  intros Hc. unfold TryDelete, set_result. destruct (delete _ _ _ _ _ _ _) as [[d n]| | |] eqn:Hi; [|done..]. intros [= <-]. simpl. by eapply delete_coh.
Qed.

Lemma cref_root n x : is_hash n = false -> cref true n = Some x -> exists e, x = HashNode (keccak e).
Proof.
  destruct n as [|v|k v fl|cs fl|h]; intros Hh; [done| | | |done].
  - intros [= <-]. unfold sref. rewrite andb_false_r. eauto.
  - rewrite cref_short. intros (ck & _ & (cv & _ & [= <-])%bind_Some)%bind_Some. unfold sref. rewrite andb_false_r. eauto.
  - rewrite cref_full. intros (ccs & _ & [= <-])%bind_Some. unfold sref. rewrite andb_false_r. eauto.
Qed.

Lemma coh_root_length db h : coh db true (HashNode h) -> length h = 32%nat.
Proof. intros (n & _ & _ & _ & Hh & Hr & _)%coh_hash_inv. apply cref_root in Hr as [e [= ->]]; [apply keccak_length|done]. Qed.

#[local] Arguments emptyRoot : simpl never.

(** The root that is reported. *)
Definition root_of (n : node) : option Hash :=
  match n with Nil => Some emptyRoot | _ => match cref true n with Some (HashNode h) => Some h | _ => None end end.

Lemma root_cref db n : coh db true n -> wf db msgDecode n -> forall x, cref true n = Some x -> exists h, x = HashNode h /\ root_of n = Some h /\ length h = 32%nat.
Proof.
  intros Hc Hw x Hx. assert (exists h, x = HashNode h /\ length h = 32%nat) as (h & -> & Hl).
  { destruct (is_hash n) eqn:Hh; [destruct n; try done; injection Hx as <-; eexists; split; [done|]; by eapply coh_root_length|].
    destruct (cref_root _ _ Hh Hx) as [e ->]. eexists; split; [done|apply keccak_length]. }
  exists h. split_and!; [done| |done]. unfold root_of. rewrite Hx. destruct n; try done.
Qed.

Lemma rep_replaced db db' t m x h g l : represents db msgDecode t m -> wf db' msgDecode x ->
  (forall k v, has db' msgDecode x k v <-> has db msgDecode (root t) k v) -> represents db' msgDecode (mkTrie x h g l) m.
Proof. intros Hr Hw Hh. split; [by right|]. intros k v. simpl. rewrite Hh. by apply rep_has. Qed.

Lemma hashRoot_ok db t m b : trie_ok db t m -> exists h ck w, hashRoot msgEncode keccak t b = Ok (HashNode h, ck, w) /\ root_of (root t) = Some h /\
  length h = 32%nat /\
  forall db', (forall h e, db h = Some e -> db' h = Some e) -> (forall h e, (h, e) ∈ w -> db' h = Some e) ->
    (forall o g l, trie_ok db' (mkTrie ck o g l) m) /\
    (b = true -> root t <> Nil -> coh db' true (HashNode h) /\ forall o g l, represents db' msgDecode (mkTrie (HashNode h) o g l) m).
Proof.
  intros [Hrep Hc]. unfold hashRoot. destruct (rep_wf _ _ _ _ Hrep) as [He|Hw].
  - rewrite He. exists emptyRoot, Nil, []. split_and!; [done..|]. intros db' Hsub _. split; [|done]. intros o g l. split; [|constructor].
    split; [by left|]. intros k v. rewrite <- (rep_has _ _ _ _ Hrep), He. split; by intros ?%has_Nil.
  - destruct (hash_ok msgEncode keccak msgDecode (cachegen t) (cachelimit t) decode_encode encode_some db b true (root t) Hc Hw) as ([[hd ck] w] & Hh & (Hr & _ & Hg)).
    simpl in Hr, Hg. destruct (root_cref _ _ Hc Hw _ Hr) as (h & Hb & Hro & Hl). assert (hd = HashNode h) as -> by (by destruct hd).
    exists h, ck, w. split_and!; [by destruct (root t); try done; inversion Hw|done|done|]. intros db' Hsub Hww. destruct (Hg db' Hsub Hww) as [Hg1 Hg2]. split.
    + intros o g l. split; [|apply (rp_coh _ _ _ _ _ _ _ _ Hg2)]. eapply rep_replaced; [done|apply (rp_wf _ _ _ _ _ _ _ _ Hg2)|apply (rp_has _ _ _ _ _ _ _ _ Hg2)].
    + intros Hbt _. destruct (Hg1 Hbt) as (x & [= <-] & Hx). split; [apply (rp_coh _ _ _ _ _ _ _ _ Hx)|]. intros o g l.
      eapply rep_replaced; [done|apply (rp_wf _ _ _ _ _ _ _ _ Hx)|apply (rp_has _ _ _ _ _ _ _ _ Hx)].
Qed.

Lemma hashRoot_pure t res : hashRoot msgEncode keccak t false = Ok res -> res.2 = [].
Proof. unfold hashRoot. destruct (root t); [by intros [= <-]|apply hash_pure..]. Qed.

Lemma hash_step_ok db t m : trie_ok db t m -> exists h t', trie_Hash msgEncode keccak t = Ok (h, t') /\ root_of (root t) = Some h /\ trie_ok db t' m.
Proof.
  intros Hok. destruct (hashRoot_ok db t m false Hok) as (h & ck & w & Hh & Hr & Hl & Hg). pose proof (hashRoot_pure _ _ Hh) as Hw. simpl in Hw. subst w.
  unfold trie_Hash. rewrite Hh. simpl. rewrite BytesToHash_id by done.
  eexists _, _. split_and!; [done|done|]. destruct (Hg db) as [Hk _]; [done|by intros ? ? ?%elem_of_nil|apply Hk].
Qed.

Lemma commit_step_ok log t m : trie_ok (disk log) t m -> exists h t' w, CommitTo msgEncode keccak t = Ok (h, t', w) /\ root_of (root t) = Some h /\
  (clash_free (log ++ w) -> trie_ok (disk (log ++ w)) t' m /\
     exists t2, New (disk (log ++ w)) msgDecode h = Ok t2 /\ trie_ok (disk (log ++ w)) t2 m).
Proof.
  intros Hok. destruct (hashRoot_ok _ t m true Hok) as (h & ck & w & Hh & Hr & Hl & Hg).
  unfold CommitTo. rewrite Hh. simpl. rewrite BytesToHash_id by done. eexists _, _, w. split_and!; [done|done|]. intros Hcf.
  destruct (Hg (disk (log ++ w))) as [Hk Hd]; [apply disk_mono; [set_solver|done]|intros h' e He; apply disk_In; [done|set_solver]|]. split; [apply Hk|].
  unfold New. destruct (is_nil (root t)) eqn:Hn.
  - apply is_nil_true in Hn. rewrite Hn in Hr. injection Hr as <-. rewrite (bool_decide_eq_true_2 (emptyRoot = emptyRoot)), orb_true_r by done. simpl.
    eexists. split; [done|]. split; [|constructor]. destruct Hok as [Hrep _]. split; [by left|]. intros k v. simpl.
    rewrite <- (rep_has _ _ _ _ Hrep), Hn. split; by intros ?%has_Nil.
  - destruct (Hd eq_refl) as [Hc Hrep]; [by intros E; rewrite E in Hn|]. pose proof (coh_load _ _ _ _ true h 0 [] Hc) as (n & Hres & Hcn & _ & Hhas & _ & _ & _ & Hw).
    pose proof (coh_hash_inv _ _ _ _ _ _ Hc) as (n0 & (e & He & _) & _). apply disk_Some in He. destruct Hcf as [_ Hnr]. destruct (Hnr _ _ He) as [Hz He0].
    rewrite !bool_decide_eq_false_2 by done. simpl. rewrite Hres. simpl. eexists. split; [done|]. split; [|done]. split; [by right|]. intros k v. simpl.
    rewrite Hhas. apply (rep_has _ _ _ _ (Hrep [] 0 0)).
Qed.

(** ** Steps and runs *)

Lemma step_log s o : s.1 ⊆ (trie_step s o).1.
Proof.
  destruct s as [log t]. destruct o as [k|k v|k| | |]; simpl.
  - by destruct (TryGet _ _ _ _).
  - by destruct (TryUpdate _ _ _ _ _).
  - by destruct (TryDelete _ _ _ _).
  - done.
  - destruct (CommitTo _ _ _) as [[[h t'] w]| | |]; simpl; set_solver.
  - destruct (CommitTo _ _ _) as [[[h t'] w]| | |]; simpl; set_solver.
Qed.

Lemma run_log l : forall s, s.1 ⊆ (trie_run s l).1.
Proof.
  induction l as [|o l IH]; intros s; simpl; [done|]. pose proof (step_log s o) as Hs. destruct (trie_step s o) as [log [[a t]| | |]]; simpl in *; try done.
  specialize (IH (log, t)). destruct (trie_run (log, t) l) as [log' r]. simpl in *. set_solver.
Qed.

Lemma step_ok log t m o : trie_ok (disk log) t m -> op_ok o -> clash_free (trie_step (log, t) o).1 ->
  exists log' a t', trie_step (log, t) o = (log', Ok (a, t')) /\ answers_map m o a /\ trie_ok (disk log') t' (map_step m o) /\
    forall h, a = ARoot h -> root_of (root t) = Some h.
Proof.
  intros Hok Ho. destruct Hok as [Hrep Hc]. destruct o as [k|k v|k| | |]; simpl in *.
  - intros _. destruct (TryGet_ok _ _ _ _ _ Hrep Ho) as (t' & Hg & Hr). rewrite Hg. simpl. eexists _, _, t'. split_and!; [done|done| |done].
    split; [done|]. eapply get_coh; [exact Hc|by apply (rep_slot _ _ _ m)|done].
  - intros _. destruct (TryUpdate_ok _ _ _ _ _ v Hrep Ho) as (t' & Hg & Hr). rewrite Hg. simpl. eexists _, _, t'. split_and!; [done|done| |done].
    split; [done|]. by eapply update_coh.
  - intros _. destruct (TryDelete_ok _ _ _ _ _ Hrep Ho) as (n & Hg & Hr). unfold TryDelete. rewrite Hg. simpl. eexists _, _, (with_root t n). split_and!; [done|done| |done].
    split; [done|]. eapply (delete_root_coh _ t k); [done|]. unfold TryDelete. by rewrite Hg.
  - intros _. destruct (hash_step_ok (disk log) t m) as (h & t' & Hh & Hr & Hok); [done|]. rewrite Hh. simpl. eexists _, _, _. split_and!; [done|by eexists|done|].
    intros h' [= <-]. done.
  - destruct (commit_step_ok log t m) as (h & t' & w & Hh & Hr & Hok); [done|]. rewrite Hh. simpl. intros Hcf. destruct (Hok Hcf) as [Hok' _]. eexists _, _, _.
    split_and!; [done|by eexists|done|]. intros h' [= <-]. done.
  - destruct (commit_step_ok log t m) as (h & t' & w & Hh & Hr & Hok); [done|]. rewrite Hh. simpl. intros Hcf. destruct (Hok Hcf) as (_ & t2 & Hnew & Hok2). rewrite Hnew. simpl.
    eexists _, _, _. split_and!; [done|by eexists|done|]. intros h' [= <-]. done.
Qed.

Lemma run_ok l : forall log t m, trie_ok (disk log) t m -> Forall op_ok l -> clash_free (trie_run (log, t) l).1 ->
  exists log' as_ t', trie_run (log, t) l = (log', Ok (as_, t')) /\ answers_run m l as_ /\ trie_ok (disk log') t' (map_run m l).
Proof.
  induction l as [|o l IH]; intros log t m Hok Hops Hcf; [by eexists _, [], _|]. apply Forall_cons_1 in Hops as [Ho Hops].
  assert (clash_free (trie_step (log, t) o).1) as Hcf1.
  { refine (clash_free_mono _ _ _ Hcf). cbn [trie_run]. destruct (trie_step (log, t) o) as [log1 [[a t1]| | |]]; simpl; try done.
    pose proof (run_log l (log1, t1)) as Hl. by destruct (trie_run (log1, t1) l). }
  destruct (step_ok log t m o Hok Ho Hcf1) as (log1 & a & t1 & Hs & Ha & Hok1 & _). cbn [trie_run] in *. rewrite Hs in *.
  destruct (IH log1 t1 _ Hok1 Hops) as (log2 & as_ & t2 & Hr & Has & Hok2); [by destruct (trie_run (log1, t1) l)|]. rewrite Hr. simpl.
  eexists _, _, _. split_and!; [done|by split|done].
Qed.

(** ** The root depends on the contents only *)

Section OneDatabase.
Context (db : list byte -> option (list byte)).
Abbreviation same := (same db msgDecode).
Abbreviation wf := (wf db msgDecode).

Definition below (f : bool) (n : node) : Prop :=
  match n with HashNode _ => coh db f n | _ => forall c, child n c -> coh db false c end.

Lemma coh_below f n : coh db f n -> below f n.
Proof. intros Hc. destruct (is_hash n) eqn:Hh; [by destruct n|]. pose proof (fun c => coh_child _ _ _ _ _ _ c Hc Hh). by destruct n. Qed.

Lemma same_not_plain n n' : same n n' -> (wf n' -> plain n = false) /\ (wf n -> plain n' = false).
Proof.
  induction 1 as [|v|k c c' fl fl' _ _|cs cs' fl fl' _ _ _|h n n' Hs _ [IH1 IH2]|h n n' Hs _ [IH1 IH2]]; split; try done; try (by inversion 1).
  - intros (n0 & Hs0 & Hw & _)%wf_hash_inv. apply IH2. by rewrite (stored_fun _ _ _ _ _ Hs Hs0).
  - intros (n0 & Hs0 & Hw & _)%wf_hash_inv. apply IH1. by rewrite (stored_fun _ _ _ _ _ Hs Hs0).
Qed.

Lemma same_plain n n' : same n n' -> plain n = true -> plain n' = true -> n = n'.
Proof. by inversion 1. Qed.

Lemma same_val c c' k fl k' fl' : same c c' -> wf (ShortNode k c fl) -> wf (ShortNode k' c' fl') -> (wf c -> wf c' -> cref false c = cref false c') ->
  val_ref msgEncode keccak c = val_ref msgEncode keccak c'.
Proof.
  intros Hs Hw Hw' IH. destruct (same_not_plain _ _ Hs) as [Hp Hp'].
  apply wf_Short_inv in Hw as [(_ & v & _ & ->)|(_ & _ & Hw & _)], Hw' as [(_ & v' & _ & ->)|(_ & _ & Hw' & _)].
  - by rewrite (same_plain _ _ Hs).
  - by apply Hp in Hw'.
  - by apply Hp' in Hw.
  - specialize (Hp Hw'). specialize (Hp' Hw). unfold val_ref. rewrite <- (IH Hw Hw'). by destruct c, c'.
Qed.

Lemma same_slot i c c' cs fl cs' fl' : same c c' -> wf (FullNode cs fl) -> wf (FullNode cs' fl') -> cs !! i = Some c -> cs' !! i = Some c' ->
  (wf c -> wf c' -> cref false c = cref false c') -> slot_ref msgEncode keccak i c = slot_ref msgEncode keccak i c'.
Proof.
  intros Hs Hw Hw' Hi Hi' IH. destruct (same_not_plain _ _ Hs) as [Hp Hp'].
  assert (plain c = true \/ wf c) as Hc by (eapply wf_child; [exact Hw|done|by eapply list_elem_of_lookup_2]).
  assert (plain c' = true \/ wf c') as Hc' by (eapply wf_child; [exact Hw'|done|by eapply list_elem_of_lookup_2]).
  destruct Hc as [Hc|Hc], Hc' as [Hc'|Hc'].
  - by rewrite (same_plain _ _ Hs).
  - apply Hp in Hc'. congruence.
  - apply Hp' in Hc. congruence.
  - pose proof (wf_nonnil _ _ _ Hc) as Hn. pose proof (wf_nonnil _ _ _ Hc') as Hn'. unfold slot_ref. rewrite Hn, Hn', (IH Hc Hc').
    destruct (full_slots _ _ _ _ Hw i c Hi) as [_ [(Hlt & _)|(_ & Hpl)]]; [|by rewrite (wf_not_plain _ _ _ Hc) in Hpl].
    apply Nat.ltb_lt in Hlt as ->. done.
Qed.

Lemma same_cref n n' : same n n' -> forall f, wf n -> wf n' -> below f n -> below f n' -> cref f n = cref f n'.
Proof.
  induction 1 as [|v|k c c' fl fl' Hs IH|cs cs' fl fl' Hl Hs IH|h n n' Hs Hsm IH|h n n' Hs Hsm IH]; intros f Hw Hw' Hb Hb'; try done.
  - rewrite !cref_short. rewrite (same_val c c' k fl k fl' Hs Hw Hw'); [done|]. intros Hwc Hwc'. apply IH; try done; apply coh_below; [by apply Hb|by apply Hb'].
  - rewrite !cref_full. assert (omap_list (slot_ref msgEncode keccak) 0 cs = omap_list (slot_ref msgEncode keccak) 0 cs') as ->; [|done].
    assert (forall i c c', cs !! i = Some c -> cs' !! i = Some c' -> slot_ref msgEncode keccak i c = slot_ref msgEncode keccak i c') as Hsl.
    { intros i c c' Hi Hi'. apply (same_slot i c c' cs fl cs' fl'); try done; [by eapply Hs|]. intros Hwc Hwc'. apply (IH i); try done; apply coh_below;
        [apply Hb; by eapply list_elem_of_lookup_2|apply Hb'; by eapply list_elem_of_lookup_2]. }
    apply option_eq. intros ys. rewrite !omap_list_Some, Hl. f_equiv. split; intros Hj j y Hy.
    + destruct (lookup_lt_is_Some_2 cs j) as [c Hc]; [rewrite Hl; by eapply lookup_lt_Some|]. simpl. rewrite <- (Hsl j c y Hc Hy). by apply Hj.
    + destruct (lookup_lt_is_Some_2 cs' j) as [c Hc]; [rewrite <- Hl; by eapply lookup_lt_Some|]. simpl. rewrite (Hsl j y c Hy Hc). by apply Hj.
  - apply coh_hash_inv in Hb as (n0 & Hs0 & _ & Hw0 & Hh & Hr & Hch). rewrite <- (stored_fun _ _ _ _ _ Hs Hs0) in *. rewrite <- (IH f); try done. by destruct n.
  - apply coh_hash_inv in Hb' as (n0 & Hs0 & _ & Hw0 & Hh & Hr & Hch). rewrite <- (stored_fun _ _ _ _ _ Hs Hs0) in *. rewrite (IH f); try done. by destruct n'.
Qed.

Lemma same_root t1 t2 m : trie_ok db t1 m -> trie_ok db t2 m -> root_of (root t1) = root_of (root t2).
Proof.
  intros [R1 C1] [R2 C2]. pose proof (canonical_root _ _ _ _ _ R1 R2) as Hs. destruct (rep_wf _ _ _ _ R1) as [E1|W1], (rep_wf _ _ _ _ R2) as [E2|W2].
  - by rewrite E1, E2.
  - apply same_not_plain in Hs as [Hp _]. specialize (Hp W2). by rewrite E1 in Hp.
  - apply same_not_plain in Hs as [_ Hp]. specialize (Hp W1). by rewrite E2 in Hp.
  - pose proof (same_cref _ _ Hs true W1 W2 (coh_below _ _ C1) (coh_below _ _ C2)) as Hc. unfold root_of. rewrite Hc. destruct (root t1), (root t2); try done; first [by inversion W1|by inversion W2].
Qed.

End OneDatabase.

(** ** Two sessions *)

Lemma trie_ok_larger db db' t m : (forall h e, db h = Some e -> db' h = Some e) -> trie_ok db t m -> trie_ok db' t m.
Proof.
  intros Hsub [Hr Hc]. destruct (rep_wf _ _ _ _ Hr) as [He|Hw].
  - split; [|rewrite He; constructor]. split; [by left|]. intros k v. rewrite <- (rep_has _ _ _ _ Hr), He. split; by intros ?%has_Nil.
  - split; [|eapply coh_larger; eauto]. split; [right; by eapply wf_larger|]. intros k v. rewrite <- (rep_has _ _ _ _ Hr). by eapply has_larger.
Qed.

Definition keys_ok (m : contents) : Prop := forall k v, m !! k = Some v -> Forall byte_ok k.

Lemma map_run_keys l : forall m, keys_ok m -> Forall op_ok l -> keys_ok (map_run m l).
Proof.
  induction l as [|o l IH]; intros m Hm Hops; [done|]. apply Forall_cons_1 in Hops as [Ho Hops]. apply IH; [|done].
  destruct o as [k|k v|k| | |]; simpl; try done.
  - case_decide; intros k' v'; [intros [_ ?]%lookup_delete_Some; by eapply Hm|]. intros [[<- _]|[_ ?]]%lookup_insert_Some; [done|by eapply Hm].
  - intros k' v' [_ ?]%lookup_delete_Some. by eapply Hm.
Qed.

(** [h] opens as [m]. *)
Definition opens (db : list byte -> option (list byte)) (h : Hash) (m : contents) : Prop :=
  exists t, New db msgDecode h = Ok t /\ trie_ok db t m.

Lemma represents_fun db t m1 m2 : represents db msgDecode t m1 -> represents db msgDecode t m2 -> keys_ok m1 -> keys_ok m2 -> m1 = m2.
Proof.
  intros R1 R2 K1 K2. apply map_eq. intros k. apply option_eq. intros v. split; intros Hl.
  - by apply (rep_lookup _ _ t m2 k v R2 (K1 k v Hl)), (rep_lookup _ _ t m1 k v R1 (K1 k v Hl)).
  - by apply (rep_lookup _ _ t m1 k v R1 (K2 k v Hl)), (rep_lookup _ _ t m2 k v R2 (K2 k v Hl)).
Qed.

Lemma New_larger db db' h t : (forall h e, db h = Some e -> db' h = Some e) -> New db msgDecode h = Ok t -> New db' msgDecode h = Ok t.
Proof.
  intros Hsub. unfold New. destruct (_ || _); [done|]. unfold resolveHash. destruct (db h) as [e|] eqn:He; [by rewrite (Hsub _ _ He)|done].
Qed.

Lemma opens_larger db db' h m : (forall h e, db h = Some e -> db' h = Some e) -> opens db h m -> opens db' h m.
Proof. intros Hsub (t & Hn & Hok). exists t. split; [by eapply New_larger|by eapply trie_ok_larger]. Qed.

Lemma opens_fun db h m1 m2 : opens db h m1 -> opens db h m2 -> keys_ok m1 -> keys_ok m2 -> m1 = m2.
Proof.
  intros (t1 & H1 & [R1 _]) (t2 & H2 & [R2 _]). rewrite H1 in H2. injection H2 as <-. by apply (represents_fun db t1).
Qed.

Lemma run_snoc l o : forall s log as_ t, trie_run s l = (log, Ok (as_, t)) -> forall log' a t', trie_step (log, t) o = (log', Ok (a, t')) ->
  trie_run s (l ++ [o]) = (log', Ok (as_ ++ [a], t')).
Proof.
  induction l as [|x l IH]; intros s log as_ t Hr log' a t' Hs.
  - simpl in Hr. injection Hr as <- <- <-. cbn [app trie_run]. rewrite <- surjective_pairing in Hs. by rewrite Hs.
  - cbn [app trie_run] in *. destruct (trie_step s x) as [log1 [[a1 t1]| | |]]; [|done..].
    destruct (trie_run (log1, t1) l) as [log2 r] eqn:Hl. destruct r as [[as2 t2]| | |]; [|done..]. simpl in Hr. injection Hr as <- <- <-.
    by rewrite (IH _ _ _ _ Hl _ _ _ Hs).
Qed.

Lemma run_log_snoc l o : forall s, (trie_run s l).1 ⊆ (trie_run s (l ++ [o])).1.
Proof.
  induction l as [|x l IH]; intros s; [apply (run_log [o])|]. cbn [app trie_run]. destruct (trie_step s x) as [log1 [[a1 t1]| | |]]; [|done..].
  specialize (IH (log1, t1)). by destruct (trie_run (log1, t1) l), (trie_run (log1, t1) (l ++ [o])).
Qed.

(** ** From an empty trie *)

Definition emptyTrie : Trie := mkTrie Nil zeroHash 0 0.

(** The root that a commit after the session reports. *)
Definition session_root (l : list trieOp) : option Hash :=
  match (trie_run ([], emptyTrie) (l ++ [OpCommit])).2 with
  | Ok (as_, _) => match list_basics.list.last as_ with Some (ARoot h) => Some h | _ => None end
  | _ => None
  end.

Definition session_log (l : list trieOp) : writes := (trie_run ([], emptyTrie) (l ++ [OpCommit])).1.

Lemma emptyTrie_ok db : trie_ok db emptyTrie ∅.
Proof. split; [apply empty_represents|constructor]. Qed.

Lemma session_root_ok l : Forall op_ok l -> clash_free (session_log l) ->
  exists h t, session_root l = Some h /\ trie_ok (disk (session_log l)) t (map_run ∅ l) /\ root_of (root t) = Some h /\ opens (disk (session_log l)) h (map_run ∅ l).
Proof.
  intros Hops Hcf. assert (clash_free (trie_run ([], emptyTrie) l).1) as Hcf1 by (refine (clash_free_mono _ _ (run_log_snoc l OpCommit _) Hcf)).
  destruct (run_ok l [] emptyTrie ∅ (emptyTrie_ok _) Hops Hcf1) as (log & as_ & t & Hr & _ & Hok).
  destruct (commit_step_ok log t _ Hok) as (h & t' & w & Hc & Hro & Hg).
  assert (trie_run ([], emptyTrie) (l ++ [OpCommit]) = (log ++ w, Ok (as_ ++ [ARoot h], t'))) as Hrun.
  { eapply run_snoc; [exact Hr|]. simpl. by rewrite Hc. }
  unfold session_root, session_log in *. rewrite Hrun in *. simpl in *. destruct (Hg Hcf) as (Hok' & t2 & Hnew & Hok2).
  exists h, t. split_and!; [by rewrite last_snoc| |done|by exists t2].
  eapply trie_ok_larger; [|exact Hok]. apply disk_mono; [set_solver|done].
Qed.

(** C3: any sequence of reads, updates, deletions, hashings, commits and reopenings
    from the committed root, starting with an empty trie, runs to its end without an
    error or a panic, answers every read from the finite map that the updates built,
    and leaves a trie that represents that map, provided no two written encodings
    have the same hash. *)
Theorem trie_session (l : list trieOp) (Hops : Forall op_ok l) (Hcf : clash_free (trie_run ([], emptyTrie) l).1) :
  exists log as_ t, trie_run ([], emptyTrie) l = (log, Ok (as_, t)) /\ answers_run ∅ l as_ /\
    represents (disk log) msgDecode t (map_run ∅ l).
Proof.
  destruct (run_ok l [] emptyTrie ∅ (emptyTrie_ok _) Hops Hcf) as (log & as_ & t & Hr & Ha & [Hrep _]). eauto 10.
Qed.

(** C5: two sessions report the same committed root exactly when they built the same
    map: the root hash is a fingerprint of the contents, independent of the order
    of updates, of deletions, of what is cached or unloaded, and of reopening. *)
Theorem root_exact (l1 l2 : list trieOp) (Hops1 : Forall op_ok l1) (Hops2 : Forall op_ok l2)
    (Hcf : clash_free (session_log l1 ++ session_log l2)) :
  exists h1 h2, session_root l1 = Some h1 /\ session_root l2 = Some h2 /\ (h1 = h2 <-> map_run ∅ l1 = map_run ∅ l2).
Proof.
  destruct (session_root_ok l1 Hops1) as (h1 & t1 & -> & Hok1 & Hr1 & Ho1); [apply (clash_free_mono _ (session_log l1 ++ session_log l2)); [set_solver|done]|].
  destruct (session_root_ok l2 Hops2) as (h2 & t2 & -> & Hok2 & Hr2 & Ho2); [apply (clash_free_mono _ (session_log l1 ++ session_log l2)); [set_solver|done]|].
  pose proof (disk_mono (session_log l1) (session_log l1 ++ session_log l2) ltac:(set_solver) Hcf) as Hs1. pose proof (disk_mono (session_log l2) (session_log l1 ++ session_log l2) ltac:(set_solver) Hcf) as Hs2.
  exists h1, h2. split_and!; [done..|]. split.
  - intros <-. apply (opens_fun (disk (session_log l1 ++ session_log l2)) h1); [by apply (opens_larger _ _ _ _ Hs1)|by apply (opens_larger _ _ _ _ Hs2)|by apply map_run_keys..].
  - intros Hm. rewrite Hm in Hok1. pose proof (same_root _ _ _ _ (trie_ok_larger _ _ _ _ Hs1 Hok1) (trie_ok_larger _ _ _ _ Hs2 Hok2)). congruence.
Qed.

End Sessions.

(** ** A concrete codec *)

(** Nodes as trees of byte strings, and back. *)
Fixpoint node_tree (n : node) : gen_tree (list byte) :=
  match n with
  | Nil => GenNode 0 []
  | ValueNode v => GenNode 1 [GenLeaf v]
  | ShortNode k v _ => GenNode 2 [GenLeaf k; node_tree v]
  | FullNode cs _ => GenNode 3 (map node_tree cs)
  | HashNode h => GenNode 4 [GenLeaf h]
  end.

Fixpoint tree_node (t : gen_tree (list byte)) : node :=
  match t with
  | GenNode 1 [GenLeaf v] => ValueNode v
  | GenNode 2 [GenLeaf k; v] => ShortNode k (tree_node v) noFlag
  | GenNode 3 cs => FullNode (map tree_node cs) noFlag
  | GenNode 4 [GenLeaf h] => HashNode h
  | _ => Nil
  end.

Lemma tree_node_tree n : tree_node (node_tree n) = bare n.
Proof.
  induction n as [|v|k v fl IH|cs fl IH|h] using node_children_ind; simpl; [done|done|by rewrite IH| |done]. f_equal. rewrite map_map.
  apply map_ext_in. rewrite Forall_forall in IH. exact IH.
Qed.

(** One number for the node, long for full nodes. *)
Definition toyEncode (n : node) : list byte :=
  Z.pos (encode (node_tree n)) :: match n with FullNode _ _ => replicate 40 0 | _ => [] end.
Definition toyDecode (b : list byte) : option node :=
  match b with Z.pos p :: _ => t ← decode p; unwire (tree_node t) | _ => None end.
Definition toyKeccak (e : list byte) : list byte := Z.pos (encode e) :: replicate 31 1.

Lemma unwire_of_bare n : unwire (bare n) = unwire n.
Proof.
  induction n as [|v|k v fl IH|cs fl IH|h] using node_children_ind; [done|done| | |done].
  - simpl. by rewrite IH.
  - change (bare (FullNode cs fl)) with (FullNode (map bare cs) noFlag). rewrite !unwire_full. f_equal. generalize 0%nat.
    induction IH as [|c cs Hc _ IHl]; intros i; [done|]. simpl. by rewrite Hc, IHl.
Qed.

Lemma toy_decode_encode n n' : unwire n = Some n' -> toyDecode (toyEncode (bare n)) = Some n'.
Proof. intros Hu. unfold toyEncode, toyDecode. rewrite decode_encode. simpl. by rewrite tree_node_tree, bare_idem, unwire_of_bare. Qed.
Lemma toy_encode_some n : toyEncode n <> [].
Proof. done. Qed.
Lemma toy_keccak_length e : length (toyKeccak e) = 32%nat.
Proof. done. Qed.

Definition exOps : list trieOp :=
  [OpUpdate [5] [9]; OpCommit; OpUpdate [21] [7; 7]; OpHash; OpReopen; OpGet [5]; OpUpdate [37; 1] [3]; OpCommit; OpDelete [21]; OpGet [21]].
Definition exOps' : list trieOp := [OpUpdate [37; 1] [4]; OpUpdate [37; 1] [3]; OpReopen; OpUpdate [5] [9]].

Lemma exOps_ok : Forall op_ok exOps /\ Forall op_ok exOps'.
Proof. split; repeat constructor; simpl; repeat constructor; lia. Qed.

Lemma trie_session_witness : exists log as_ t, trie_run toyEncode toyKeccak toyDecode ([], emptyTrie) exOps = (log, Ok (as_, t)) /\
  answers_run ∅ exOps as_ /\ represents (disk log) toyDecode t (map_run ∅ exOps).
Proof.
  apply (trie_session toyEncode toyKeccak toyDecode toy_decode_encode toy_encode_some toy_keccak_length exOps (proj1 exOps_ok)).
  apply clash_freeb_free. vm_compute. reflexivity.
Defined.

Lemma root_exact_witness : exists h1 h2, session_root toyEncode toyKeccak toyDecode exOps = Some h1 /\
  session_root toyEncode toyKeccak toyDecode exOps' = Some h2 /\ (h1 = h2 <-> map_run ∅ exOps = map_run ∅ exOps').
Proof.
  apply (root_exact toyEncode toyKeccak toyDecode toy_decode_encode toy_encode_some toy_keccak_length exOps exOps' (proj1 exOps_ok) (proj2 exOps_ok)).
  apply clash_freeb_free. vm_compute. reflexivity.
Defined.
