(* ===== verification/StateObject.v ===== *)
(** * State objects (core/state/state_object.go)

    An account being modified: its data, lazily opened storage trie, storage
    caches and flags.  The database, the codecs and the hash function are the
    fields of [StateEnv].  The [onDirty] callback is always the marker of the
    owning [StateDB]; it is modelled by the flag that says whether it is still
    armed and by the dirty set it adds to. *)

From stdpp Require Import base list gmap numbers option.
From S2P Require Import Prelude Types TrieIface.

(** [Account]: the consensus representation; [CodeHash] may be nil. *)
Record Account : Type := mkAccount {
  Nonce : Z;
  Root : Hash;
  CodeHash : option (list byte);
}.

Inductive stateErr (E : Type) : Type :=
| TrieError (e : E)
| CreateStorageTrie (e : E)
| LoadCode (codeHash : list byte) (e : E)
| PutError (key : list byte).
Arguments TrieError {_}. Arguments CreateStorageTrie {_}. Arguments LoadCode {_}. Arguments PutError {_}.

(** The [Database] interface of core/state, the msgp codecs of [Account] and
    [Hash], and Keccak-256. *)
Class StateEnv (E T : Type) : Type := {
  OpenTrie : Hash -> outcome E T;
  OpenStorageTrie : Hash -> Hash -> outcome E T;
  ContractCode : Hash -> Hash -> option (list byte) * option E;
  ContractCodeSize : Hash -> Hash -> Z * option E;
  CopyTrie : T -> T;
  Keccak256 : list byte -> list byte;
  encodeAccount : Account -> list byte;
  decodeAccount : list byte -> option Account;
  encodeHash : Hash -> list byte;
  decodeHash : list byte -> option Hash;
}.

Record stateObject (E T : Type) : Type := mkObject {
  address : Address;
  addrHash : Hash;
  data : Account;
  obj_dbErr : option (stateErr E);
  obj_trie : option T;
  code : option (list byte);
  cachedStorage : gmap Hash Hash;
  dirtyStorage : gmap Hash Hash;
  dirtyCode : bool;
  suicided : bool;
  touched : bool;
  deleted : bool;
  onDirty : bool;
}.
Arguments mkObject {_ _}. Arguments address {_ _}. Arguments addrHash {_ _}. Arguments data {_ _}.
Arguments obj_dbErr {_ _}. Arguments obj_trie {_ _}. Arguments code {_ _}.
Arguments cachedStorage {_ _}. Arguments dirtyStorage {_ _}. Arguments dirtyCode {_ _}.
Arguments suicided {_ _}. Arguments touched {_ _}. Arguments deleted {_ _}. Arguments onDirty {_ _}.

(** ** Field assignments *)

Section Setters.
Context {E T : Type}.
Implicit Types o : stateObject E T.

Definition with_data o d : stateObject E T := mkObject (address o) (addrHash o) d (obj_dbErr o) (obj_trie o) (code o)
  (cachedStorage o) (dirtyStorage o) (dirtyCode o) (suicided o) (touched o) (deleted o) (onDirty o).
Definition with_dbErr o e : stateObject E T := mkObject (address o) (addrHash o) (data o) e (obj_trie o) (code o)
  (cachedStorage o) (dirtyStorage o) (dirtyCode o) (suicided o) (touched o) (deleted o) (onDirty o).
Definition with_trie o t : stateObject E T := mkObject (address o) (addrHash o) (data o) (obj_dbErr o) t (code o)
  (cachedStorage o) (dirtyStorage o) (dirtyCode o) (suicided o) (touched o) (deleted o) (onDirty o).
Definition with_code o c d : stateObject E T := mkObject (address o) (addrHash o) (data o) (obj_dbErr o) (obj_trie o) c
  (cachedStorage o) (dirtyStorage o) d (suicided o) (touched o) (deleted o) (onDirty o).
Definition with_storage o c d : stateObject E T := mkObject (address o) (addrHash o) (data o) (obj_dbErr o) (obj_trie o)
  (code o) c d (dirtyCode o) (suicided o) (touched o) (deleted o) (onDirty o).
Definition with_suicided o b : stateObject E T := mkObject (address o) (addrHash o) (data o) (obj_dbErr o) (obj_trie o)
  (code o) (cachedStorage o) (dirtyStorage o) (dirtyCode o) b (touched o) (deleted o) (onDirty o).
Definition with_touched o b : stateObject E T := mkObject (address o) (addrHash o) (data o) (obj_dbErr o) (obj_trie o)
  (code o) (cachedStorage o) (dirtyStorage o) (dirtyCode o) (suicided o) b (deleted o) (onDirty o).
Definition with_deleted o b : stateObject E T := mkObject (address o) (addrHash o) (data o) (obj_dbErr o) (obj_trie o)
  (code o) (cachedStorage o) (dirtyStorage o) (dirtyCode o) (suicided o) (touched o) b (onDirty o).
Definition with_onDirty o b : stateObject E T := mkObject (address o) (addrHash o) (data o) (obj_dbErr o) (obj_trie o)
  (code o) (cachedStorage o) (dirtyStorage o) (dirtyCode o) (suicided o) (touched o) (deleted o) b.

(** [if self.onDirty != nil { self.onDirty(self.Address()); self.onDirty = nil }] *)
Definition fireDirty o (dirty : gset Address) : stateObject E T * gset Address :=
  if onDirty o then (with_onDirty o false, {[address o]} ∪ dirty) else (o, dirty).

(** [setError] keeps the first error. *)
Definition obj_setError o (e : option (stateErr E)) : stateObject E T :=
  match obj_dbErr o with None => with_dbErr o e | Some _ => o end.

End Setters.

Section StateObject.
Context {E T : Type} `{TrieOps E T} `{StateEnv E T}.
Implicit Types o : stateObject E T.

Definition emptyCodeHash : list byte := Keccak256 [].

(** [bytes.Equal] does not tell nil from the empty slice. *)
Definition codeHashBytes (a : Account) : list byte := default [] (CodeHash a).

Definition empty o : bool :=
  (Nonce (data o) =? 0) && bool_decide (codeHashBytes (data o) = emptyCodeHash).

Definition newObject (address : Address) (data : Account) (armed : bool) : stateObject E T :=
  let data := match CodeHash data with
              | None => mkAccount (Nonce data) (Root data) (Some emptyCodeHash)
              | Some _ => data
              end in
  mkObject address (BytesToHash (Keccak256 address)) data None None None ∅ ∅
    false false false false armed.

Definition markSuicided o (dirty : gset Address) : stateObject E T * gset Address :=
  fireDirty (with_suicided o true) dirty.

(** [getTrie]: when the storage trie cannot be opened the empty one is used; a
    nil trie would be dereferenced by every caller. *)
Definition getTrie o : outcome (stateErr E) (T * stateObject E T) :=
  match obj_trie o with
  | Some t => Ok (t, o)
  | None =>
      match OpenStorageTrie (addrHash o) (Root (data o)) with
      | Ok t => Ok (t, with_trie o (Some t))
      | Err e =>
          match OpenStorageTrie (addrHash o) zeroHash with
          | Ok t => Ok (t, obj_setError (with_trie o (Some t)) (Some (CreateStorageTrie e)))
          | Err _ => Panic
          | Panic => Panic
          | OutOfFuel => OutOfFuel
          end
      | Panic => Panic
      | OutOfFuel => OutOfFuel
      end
  end.

Definition obj_GetState o (key : Hash) : outcome (stateErr E) (Hash * stateObject E T) :=
  match cachedStorage o !! key with
  | Some value => Ok (value, o)
  | None =>
      '(t, o) ← getTrie o;
      match tGet t key with
      | (Err e, t') => Ok (zeroHash, obj_setError (with_trie o (Some t')) (Some (TrieError e)))
      | (Ok enc, t') =>
          let o := with_trie o (Some t') in
          let value := default zeroHash (decodeHash (default [] enc)) in
          Ok (value, if bool_decide (value = zeroHash) then o
                     else with_storage o (<[key := value]> (cachedStorage o)) (dirtyStorage o))
      | (Panic, _) => Panic
      | (OutOfFuel, _) => OutOfFuel
      end
  end.

Definition obj_setState o (dirty : gset Address) (key value : Hash) : stateObject E T * gset Address :=
  fireDirty (with_storage o (<[key := value]> (cachedStorage o)) (<[key := value]> (dirtyStorage o))) dirty.

(** One iteration of the loop of [updateTrie]. *)
Definition updateTrie_entry (key value : Hash) (t : T) o : outcome (stateErr E) (T * stateObject E T) :=
  let o := with_storage o (cachedStorage o) (delete key (dirtyStorage o)) in
  let '(r, t') := if bool_decide (value = zeroHash) then tDelete t key
                  else tUpdate t key (encodeHash value) in
  match r with
  | Ok _ => Ok (t', o)
  | Err e => Ok (t', obj_setError o (Some (TrieError e)))
  | Panic => Panic
  | OutOfFuel => OutOfFuel
  end.

(** The loop ranges over the map in an unspecified order; the model fixes the
    order of [map_to_list]. *)
Definition updateTrie o : outcome (stateErr E) (stateObject E T) :=
  '(t, o) ← getTrie o;
  '(t, o) ← foldr (fun kv acc => '(t, o) ← acc; updateTrie_entry kv.1 kv.2 t o)
              (Ok (t, o)) (map_to_list (dirtyStorage o));
  Ok (with_trie o (Some t)).

Definition updateRoot o : outcome (stateErr E) (stateObject E T) :=
  o ← updateTrie o;
  t ← of_index (obj_trie o);
  let '(h, t) := tHash t in
  Ok (with_data (with_trie o (Some t)) (mkAccount (Nonce (data o)) h (CodeHash (data o)))).

(** [deepCopy]: the storage cache of the copy starts from the dirty entries. *)
Definition deepCopy o (armed : bool) : stateObject E T :=
  let c := newObject (address o) (data o) armed in
  mkObject (address c) (addrHash c) (data c) (obj_dbErr c)
    (match obj_trie o with Some t => Some (CopyTrie t) | None => None end)
    (code o) (dirtyStorage o) (dirtyStorage o)
    (dirtyCode o) (suicided o) (touched c) (deleted o) (onDirty c).

Definition obj_Code o : option (list byte) * stateObject E T :=
  match code o with
  | Some c => (Some c, o)
  | None =>
      if bool_decide (codeHashBytes (data o) = emptyCodeHash) then (None, o)
      else
        let '(c, err) := ContractCode (addrHash o) (BytesToHash (codeHashBytes (data o))) in
        let o := match err with
                 | Some e => obj_setError o (Some (LoadCode (codeHashBytes (data o)) e))
                 | None => o
                 end in
        (c, with_code o c (dirtyCode o))
  end.

Definition obj_setCode o (dirty : gset Address) (codeHash : Hash) (c : option (list byte))
    : stateObject E T * gset Address :=
  fireDirty (with_data (with_code o c true) (mkAccount (Nonce (data o)) (Root (data o)) (Some codeHash))) dirty.

Definition obj_setNonce o (dirty : gset Address) (nonce : Z) : stateObject E T * gset Address :=
  fireDirty (with_data o (mkAccount nonce (Root (data o)) (CodeHash (data o)))) dirty.

End StateObject.
