(* ===== verification/StateDB.v ===== *)
(** * The account state (core/state/statedb.go, core/state/journal.go)

    [StateDB] keeps the live state objects, the set of dirty ones and the
    journal of modifications behind [Snapshot] and [RevertToSnapshot].  Methods
    are computations in a state monad; a nil dereference, an index out of range
    and an explicit [panic] are [Panic].  Journal entries that hold a pointer to a
    replaced object hold its value here: nothing writes through such a pointer
    before the entry is undone. *)

From stdpp Require Import base list gmap numbers option.
From S2P Require Import Prelude Types TrieIface StateObject.

(** [transaction.Log]: the fields the state fills in, and the rest as given. *)
Record Log : Type := mkLog {
  log_Address : Address;
  log_Topics : list Hash;
  log_Data : list (list byte);
  log_BlockNumber : Z;
  log_TxHash : Hash;
  log_TxIndex : Z;
  log_BlockHash : Hash;
  log_Index : Z;
  log_Removed : bool;
}.

Inductive journalEntry (E T : Type) : Type :=
| createObjectChange (account : Address)
| resetObjectChange (prev : stateObject E T)
| suicideChange (account : Address) (prev : bool)
| nonceChange (account : Address) (prev : Z)
| storageChange (account : Address) (key prevalue : Hash)
| codeChange (account : Address) (prevcode : option (list byte)) (prevhash : list byte)
| refundChange (prev : Z)
| addLogChange (txhash : Hash)
| addPreimageChange (hash : Hash)
| touchChange (account : Address) (prev prevDirty : bool).
Arguments createObjectChange {_ _}. Arguments resetObjectChange {_ _}. Arguments suicideChange {_ _}.
Arguments nonceChange {_ _}. Arguments storageChange {_ _}. Arguments codeChange {_ _}.
Arguments refundChange {_ _}. Arguments addLogChange {_ _}. Arguments addPreimageChange {_ _}.
Arguments touchChange {_ _}.

Record revision : Type := mkRevision { rev_id : Z; journalIndex : nat }.

Record StateDB (E T : Type) : Type := mkState {
  trie : T;
  stateObjects : gmap Address (stateObject E T);
  stateObjectsDirty : gset Address;
  dbErr : option (stateErr E);
  refund : Z;
  thash : Hash;
  bhash : Hash;
  txIndex : Z;
  logs : gmap Hash (list Log);
  logSize : Z;
  preimages : gmap Hash (list byte);
  journal : list (journalEntry E T);
  validRevisions : list revision;
  nextRevisionId : Z;
}.
Arguments mkState {_ _}. Arguments trie {_ _}. Arguments stateObjects {_ _}.
Arguments stateObjectsDirty {_ _}. Arguments dbErr {_ _}. Arguments refund {_ _}.
Arguments thash {_ _}. Arguments bhash {_ _}. Arguments txIndex {_ _}. Arguments logs {_ _}.
Arguments logSize {_ _}. Arguments preimages {_ _}. Arguments journal {_ _}.
Arguments validRevisions {_ _}. Arguments nextRevisionId {_ _}.

(** ** Field assignments *)

Section Assign.
Context {E T : Type}.
Implicit Types s : StateDB E T.

Definition st_trie s t : StateDB E T := mkState t (stateObjects s) (stateObjectsDirty s) (dbErr s) (refund s)
  (thash s) (bhash s) (txIndex s) (logs s) (logSize s) (preimages s) (journal s) (validRevisions s) (nextRevisionId s).
Definition st_objects s m d : StateDB E T := mkState (trie s) m d (dbErr s) (refund s)
  (thash s) (bhash s) (txIndex s) (logs s) (logSize s) (preimages s) (journal s) (validRevisions s) (nextRevisionId s).
Definition st_dbErr s e : StateDB E T := mkState (trie s) (stateObjects s) (stateObjectsDirty s) e (refund s)
  (thash s) (bhash s) (txIndex s) (logs s) (logSize s) (preimages s) (journal s) (validRevisions s) (nextRevisionId s).
Definition st_refund s r : StateDB E T := mkState (trie s) (stateObjects s) (stateObjectsDirty s) (dbErr s) r
  (thash s) (bhash s) (txIndex s) (logs s) (logSize s) (preimages s) (journal s) (validRevisions s) (nextRevisionId s).
Definition st_tx s th bh ti : StateDB E T := mkState (trie s) (stateObjects s) (stateObjectsDirty s) (dbErr s) (refund s)
  th bh ti (logs s) (logSize s) (preimages s) (journal s) (validRevisions s) (nextRevisionId s).
Definition st_logs s l n : StateDB E T := mkState (trie s) (stateObjects s) (stateObjectsDirty s) (dbErr s) (refund s)
  (thash s) (bhash s) (txIndex s) l n (preimages s) (journal s) (validRevisions s) (nextRevisionId s).
Definition st_preimages s m : StateDB E T := mkState (trie s) (stateObjects s) (stateObjectsDirty s) (dbErr s) (refund s)
  (thash s) (bhash s) (txIndex s) (logs s) (logSize s) m (journal s) (validRevisions s) (nextRevisionId s).
Definition st_journal s j : StateDB E T := mkState (trie s) (stateObjects s) (stateObjectsDirty s) (dbErr s) (refund s)
  (thash s) (bhash s) (txIndex s) (logs s) (logSize s) (preimages s) j (validRevisions s) (nextRevisionId s).
Definition st_revisions s v n : StateDB E T := mkState (trie s) (stateObjects s) (stateObjectsDirty s) (dbErr s) (refund s)
  (thash s) (bhash s) (txIndex s) (logs s) (logSize s) (preimages s) (journal s) v n.

(** [self.journal = append(self.journal, entry)] *)
Definition journal_append s (e : journalEntry E T) : StateDB E T := st_journal s (journal s ++ [e]).

(** [setError] keeps the first error. *)
Definition setError s (e : option (stateErr E)) : StateDB E T :=
  match dbErr s with None => st_dbErr s e | Some _ => s end.

(** [setStateObject], and the same together with a change of the dirty set. *)
Definition setStateObject s (o : stateObject E T) : StateDB E T :=
  st_objects s (<[address o := o]> (stateObjects s)) (stateObjectsDirty s).
Definition put_dirty s (od : stateObject E T * gset Address) : StateDB E T :=
  st_objects s (<[address od.1 := od.1]> (stateObjects s)) od.2.

End Assign.

(** ** The state monad of the methods *)

Definition M (E T A : Type) : Type := StateDB E T -> outcome (stateErr E) (A * StateDB E T).

#[export] Instance M_ret {E T} : MRet (M E T) := fun A a s => Ok (a, s).
#[export] Instance M_bind {E T} : MBind (M E T) := fun A B f m s =>
  match m s with
  | Ok (a, s') => f a s'
  | Err e => Err e
  | Panic => Panic
  | OutOfFuel => OutOfFuel
  end.

Definition getS {E T} : M E T (StateDB E T) := fun s => Ok (s, s).
Definition modify {E T} (f : StateDB E T -> StateDB E T) : M E T unit := fun s => Ok ((), f s).
Definition lift {E T A} (r : outcome (stateErr E) A) : M E T A := fun s =>
  match r with Ok a => Ok (a, s) | Err e => Err e | Panic => Panic | OutOfFuel => OutOfFuel end.
(** [deref p]: the use of a pointer that may be nil. *)
Definition deref {E T A} (p : option A) : M E T A := lift (of_index p).

(** Run the commands of a list in order. *)
Fixpoint mapM_ {E T A} (f : A -> M E T unit) (l : list A) : M E T unit :=
  match l with
  | [] => mret ()
  | x :: l' => f x ≫= fun _ => mapM_ f l'
  end.

Section StateDB.
Context {E T : Type} `{TrieOps E T} `{StateEnv E T}.

Abbreviation St := (StateDB E T).
Abbreviation Obj := (stateObject E T).

Definition clearJournalAndRefund (s : St) : St :=
  st_refund (st_revisions (st_journal s []) [] (nextRevisionId s)) 0.

Definition New (root : Hash) : outcome E St :=
  tr ← OpenTrie root;
  Ok (mkState tr ∅ ∅ None 0 zeroHash zeroHash 0 ∅ 0 ∅ [] [] 0).

Definition Reset (s : St) (root : Hash) : outcome E St :=
  tr ← OpenTrie root;
  Ok (clearJournalAndRefund
        (mkState tr ∅ ∅ (dbErr s) (refund s) zeroHash zeroHash 0 ∅ 0 ∅
           (journal s) (validRevisions s) (nextRevisionId s))).

(** ** Logs, preimages, refund *)

Definition AddLog (log : Log) : M E T unit := modify (fun s =>
  let s := journal_append s (addLogChange (thash s)) in
  let log := mkLog (log_Address log) (log_Topics log) (log_Data log) (log_BlockNumber log)
               (thash s) (u64 (txIndex s)) (bhash s) (logSize s) (log_Removed log) in
  st_logs s (<[thash s := default [] (logs s !! thash s) ++ [log]]> (logs s)) (u64 (logSize s + 1))).

Definition GetLogs (hash : Hash) : M E T (list Log) := fun s => Ok (default [] (logs s !! hash), s).

Definition AddPreimage (hash : Hash) (preimage : list byte) : M E T unit := modify (fun s =>
  match preimages s !! hash with
  | Some _ => s
  | None => st_preimages (journal_append s (addPreimageChange hash)) (<[hash := preimage]> (preimages s))
  end).

Definition AddRefund (value : Z) : M E T unit := modify (fun s =>
  let s := journal_append s (refundChange (refund s)) in
  st_refund s (u64 (refund s + value))).

(** ** State objects *)

Definition getStateObject (addr : Address) : M E T (option Obj) := fun s =>
  match stateObjects s !! addr with
  | Some obj => Ok (if deleted obj then None else Some obj, s)
  | None =>
      match tGet (trie s) addr with
      | (Ok enc, tr) =>
          let s := st_trie s tr in
          if (length (default [] enc) =? 0)%nat then Ok (None, s)
          else
            match decodeAccount (default [] enc) with
            | None => Ok (None, s)
            | Some data =>
                let obj := newObject addr data true in
                Ok (Some obj, setStateObject s obj)
            end
      | (Err e, tr) => Ok (None, setError (st_trie s tr) (Some (TrieError e)))
      | (Panic, _) => Panic
      | (OutOfFuel, _) => OutOfFuel
      end
  end.

(** [createObject]: the object that is replaced is returned too. *)
Definition createObject (addr : Address) : M E T (Obj * option Obj) :=
  prev ← getStateObject addr;
  s ← getS;
  let '(newobj, dirty) := obj_setNonce (newObject addr (mkAccount 0 zeroHash None) true) (stateObjectsDirty s) 0 in
  _ ← modify (fun s => st_objects s (stateObjects s) dirty);
  _ ← modify (fun s => journal_append s
        (match prev with
         | None => createObjectChange addr
         | Some p => resetObjectChange p
         end));
  _ ← modify (fun s => setStateObject s newobj);
  mret (newobj, prev).

Definition GetOrNewStateObject (addr : Address) : M E T Obj :=
  o ← getStateObject addr;
  match o with
  | Some obj => if deleted obj then ('(n, _) ← createObject addr; mret n) else mret obj
  | None => '(n, _) ← createObject addr; mret n
  end.

Definition CreateAccount (addr : Address) : M E T unit :=
  _ ← createObject addr; mret ().

(** Apply a method of the object at [addr] that may change the dirty set. *)
Definition upd_object (f : Obj -> gset Address -> Obj * gset Address) (o : Obj) : M E T unit :=
  modify (fun s => put_dirty s (f o (stateObjectsDirty s))).

(** ** Getters *)

Definition Exist (addr : Address) : M E T bool :=
  o ← getStateObject addr; mret (match o with Some _ => true | None => false end).

Definition Empty (addr : Address) : M E T bool :=
  o ← getStateObject addr; mret (match o with Some so => empty so | None => true end).

Definition GetNonce (addr : Address) : M E T Z :=
  o ← getStateObject addr; mret (match o with Some so => Nonce (data so) | None => 0 end).

Definition GetCode (addr : Address) : M E T (option (list byte)) :=
  o ← getStateObject addr;
  match o with
  | None => mret None
  | Some so =>
      let '(c, so) := obj_Code so in
      _ ← modify (fun s => setStateObject s so); mret c
  end.

Definition GetCodeSize (addr : Address) : M E T Z :=
  o ← getStateObject addr;
  match o with
  | None => mret 0
  | Some so =>
      match code so with
      | Some c => mret (Z.of_nat (length c))
      | None =>
          let '(size, err) := ContractCodeSize (addrHash so) (BytesToHash (codeHashBytes (data so))) in
          _ ← modify (fun s => match err with Some e => setError s (Some (TrieError e)) | None => s end);
          mret size
      end
  end.

Definition GetCodeHash (addr : Address) : M E T Hash :=
  o ← getStateObject addr;
  mret (match o with Some so => BytesToHash (codeHashBytes (data so)) | None => zeroHash end).

Definition GetState (a : Address) (b : Hash) : M E T Hash :=
  o ← getStateObject a;
  match o with
  | None => mret zeroHash
  | Some so =>
      '(v, so) ← lift (obj_GetState so b);
      _ ← modify (fun s => setStateObject s so); mret v
  end.

Definition HasSuicided (addr : Address) : M E T bool :=
  o ← getStateObject addr; mret (match o with Some so => suicided so | None => false end).

(** ** Setters *)

Definition SetNonce (addr : Address) (nonce : Z) : M E T unit :=
  so ← GetOrNewStateObject addr;
  _ ← modify (fun s => journal_append s (nonceChange (address so) (Nonce (data so))));
  upd_object (fun o d => obj_setNonce o d nonce) so.

Definition SetCode (addr : Address) (c : option (list byte)) : M E T unit :=
  so ← GetOrNewStateObject addr;
  let codeHash := BytesToHash (Keccak256 (default [] c)) in
  let '(prevcode, so) := obj_Code so in
  _ ← modify (fun s => journal_append s (codeChange (address so) prevcode (codeHashBytes (data so))));
  upd_object (fun o d => obj_setCode o d codeHash c) so.

Definition SetState (addr : Address) (key value : Hash) : M E T unit :=
  so ← GetOrNewStateObject addr;
  '(prev, so) ← lift (obj_GetState so key);
  _ ← modify (fun s => journal_append s (storageChange (address so) key prev));
  upd_object (fun o d => obj_setState o d key value) so.

Definition Suicide (addr : Address) : M E T bool :=
  o ← getStateObject addr;
  match o with
  | None => mret false
  | Some so =>
      _ ← modify (fun s => journal_append s (suicideChange addr (suicided so)));
      _ ← upd_object markSuicided so;
      mret true
  end.

Definition Prepare (th bh : Hash) (ti : Z) : M E T unit := modify (fun s => st_tx s th bh ti).

(** [touch] of state_object.go: no caller is left in the repository. *)
Definition touch (so : Obj) : M E T unit :=
  _ ← modify (fun s => journal_append s (touchChange (address so) (touched so) (negb (onDirty so))));
  upd_object (fun o d => let '(o, d) := fireDirty o d in (with_touched o true, d)) so.

(** ** The journal *)

(** types.HexToAddress("0000000000000000000000000000000000000003") *)
Definition ripemd : Address := replicate 19 0 ++ [3].

Definition undo (ch : journalEntry E T) : M E T unit :=
  match ch with
  | createObjectChange account =>
      modify (fun s => st_objects s (delete account (stateObjects s)) (stateObjectsDirty s ∖ {[account]}))
  | resetObjectChange prev => modify (fun s => setStateObject s prev)
  | suicideChange account prev =>
      o ← getStateObject account;
      match o with
      | Some obj => modify (fun s => setStateObject s (with_suicided obj prev))
      | None => mret ()
      end
  | touchChange account prev prevDirty =>
      if negb prev && negb (bool_decide (account = ripemd)) then
        o ← getStateObject account;
        obj ← deref o;
        _ ← modify (fun s => setStateObject s (with_touched obj prev));
        if negb prevDirty
        then modify (fun s => st_objects s (stateObjects s) (stateObjectsDirty s ∖ {[account]}))
        else mret ()
      else mret ()
  | nonceChange account prev =>
      o ← getStateObject account;
      obj ← deref o;
      upd_object (fun o d => obj_setNonce o d prev) obj
  | codeChange account prevcode prevhash =>
      o ← getStateObject account;
      obj ← deref o;
      upd_object (fun o d => obj_setCode o d (BytesToHash prevhash) prevcode) obj
  | storageChange account key prevalue =>
      o ← getStateObject account;
      obj ← deref o;
      upd_object (fun o d => obj_setState o d key prevalue) obj
  | refundChange prev => modify (fun s => st_refund s prev)
  | addLogChange txhash =>
      s ← getS;
      let ls := default [] (logs s !! txhash) in
      let n := length ls in
      if (n =? 1)%nat then modify (fun s => st_logs s (delete txhash (logs s)) (u64 (logSize s - 1)))
      else if (n =? 0)%nat then lift Panic
      else modify (fun s => st_logs s (<[txhash := take (n - 1) ls]> (logs s)) (u64 (logSize s - 1)))
  | addPreimageChange hash => modify (fun s => st_preimages s (delete hash (preimages s)))
  end.

Definition Snapshot : M E T Z := fun s =>
  let id := nextRevisionId s in
  Ok (id, st_revisions s (validRevisions s ++ [mkRevision id (length (journal s))]) (id + 1)).

Definition RevertToSnapshot (revid : Z) : M E T unit :=
  s ← getS;
  let revs := validRevisions s in
  let idx := search (length revs)
               (fun i => match revs !! i with Some r => revid <=? rev_id r | None => false end) in
  match revs !! idx with
  | None => lift Panic
  | Some r =>
      if negb (rev_id r =? revid) then lift Panic
      else
        let snapshot := journalIndex r in
        _ ← mapM_ undo (rev (drop snapshot (journal s)));
        _ ← modify (fun s => st_journal s (take snapshot (journal s)));
        modify (fun s => st_revisions s (take idx revs) (nextRevisionId s))
  end.

(** ** Finalisation *)

(** [self.setError(tr.TryX(...))] on the account trie. *)
Definition trie_write (op : T -> outcome E unit * T) : M E T unit := fun s =>
  match op (trie s) with
  | (Ok _, tr) => Ok ((), st_trie s tr)
  | (Err e, tr) => Ok ((), setError (st_trie s tr) (Some (TrieError e)))
  | (Panic, _) => Panic
  | (OutOfFuel, _) => OutOfFuel
  end.

Definition updateStateObject (o : Obj) : M E T unit :=
  trie_write (fun tr => tUpdate tr (address o) (encodeAccount (data o))).

Definition deleteStateObject (o : Obj) : M E T unit :=
  _ ← modify (fun s => setStateObject s (with_deleted o true));
  trie_write (fun tr => tDelete tr (address o)).

Definition finaliseObject (deleteEmptyObjects : bool) (addr : Address) : M E T unit :=
  s ← getS;
  o ← deref (stateObjects s !! addr);
  if suicided o || (deleteEmptyObjects && empty o) then deleteStateObject o
  else
    o ← lift (updateRoot o);
    _ ← modify (fun s => setStateObject s o);
    updateStateObject o.

(** [Finalise] ranges over the dirty set in an unspecified order; the model fixes
    the order of [elements]. *)
Definition Finalise (deleteEmptyObjects : bool) : M E T unit :=
  s ← getS;
  _ ← mapM_ (finaliseObject deleteEmptyObjects) (elements (stateObjectsDirty s));
  modify clearJournalAndRefund.

Definition hashTrie : M E T Hash := fun s =>
  let '(h, tr) := tHash (trie s) in Ok (h, st_trie s tr).

Definition IntermediateRoot : M E T Hash :=
  _ ← Finalise true; hashTrie.

Definition DeleteSuicides : M E T unit :=
  _ ← modify clearJournalAndRefund;
  s ← getS;
  mapM_ (fun addr =>
    s ← getS;
    o ← deref (stateObjects s !! addr);
    _ ← modify (fun s => if suicided o then setStateObject s (with_deleted o true) else s);
    modify (fun s => st_objects s (stateObjects s) (stateObjectsDirty s ∖ {[addr]})))
    (elements (stateObjectsDirty s)).

(** ** Copies *)

(** The objects [Copy] carries over: a dirty address without object would be a
    nil dereference. *)
Fixpoint copyObjects (l : list Address) (objs : gmap Address Obj) : option (gmap Address Obj) :=
  match l with
  | [] => Some ∅
  | a :: l' =>
      o ← objs !! a;
      m ← copyObjects l' objs;
      Some (<[a := deepCopy o true]> m)
  end.

Definition Copy (s : St) : outcome (stateErr E) St :=
  objs ← of_index (copyObjects (elements (stateObjectsDirty s)) (stateObjects s));
  Ok (mkState (CopyTrie (trie s)) objs (stateObjectsDirty s) None (refund s)
        zeroHash zeroHash 0 (logs s) (logSize s) (preimages s) [] [] 0).

End StateDB.
