(* ===== verification/StateView.v ===== *)
(** * What the account state answers

    The observable content of a state, independent of what happens to be cached:
    [load s a] is the object [getStateObject] returns, [sview] and [cview] what
    reading its storage and code returns.  [state_eq] relates states that answer
    every query alike; it is the equivalence in which reverting is exact. *)

From stdpp Require Import base list gmap numbers option.
From S2P Require Import Prelude Types TrieIface StateObject StateDB.

(** Opening a storage trie gives a usable trie or an error; the zero root opens
    the empty trie, without touching the database; decoding an empty buffer
    fails; and a decoded encoding is the value encoded. *)
Class StateEnvLaws (E T : Type) `{TrieLaws E T} `{StateEnv E T} : Prop := {
  OpenStorageTrie_ok a r :
    (exists t, OpenStorageTrie a r = Ok t /\ t_ok t) \/ (exists e : E, OpenStorageTrie a r = Err e);
  OpenStorageTrie_zero a : exists t, OpenStorageTrie a zeroHash = Ok t /\ t_ok t /\ forall k, t_view t k = None;
  decodeHash_nil : decodeHash [] = None;
  decodeHash_length b h : decodeHash b = Some h -> length h = 32%nat;
  decodeHash_encodeHash h : length h = 32%nat -> decodeHash (encodeHash h) = Some h;
  decodeAccount_encodeAccount a : length (Root a) = 32%nat -> length (codeHashBytes a) = 32%nat ->
    decodeAccount (encodeAccount a) = Some a;
  encodeAccount_nonempty a : encodeAccount a <> [];
  Keccak256_length b : length (Keccak256 b) = 32%nat;
  CopyTrie_ok t : t_ok t -> t_ok (CopyTrie t) /\ forall k, t_view (CopyTrie t) k = t_view t k;
}.

Section View.
Context {E T : Type} `{StateEnvLaws E T}.

Abbreviation St := (StateDB E T).
Abbreviation Obj := (stateObject E T).
Implicit Types (s : St) (o : Obj).

(** ** Objects *)

(** The storage trie an object reads from. *)
Definition strie o : option T :=
  match obj_trie o with
  | Some t => Some t
  | None =>
      match OpenStorageTrie (addrHash o) (Root (data o)) with
      | Ok t => Some t
      | _ => match OpenStorageTrie (addrHash o) zeroHash with Ok t => Some t | _ => None end
      end
  end.

Definition tread (t : option T) (k : Hash) : Hash :=
  default zeroHash (decodeHash (default [] (match t with Some t => t_view t k | None => None end))).

Definition sview o (k : Hash) : Hash :=
  match cachedStorage o !! k with Some v => v | None => tread (strie o) k end.

Definition cview o : option (list byte) :=
  match code o with
  | Some c => Some c
  | None =>
      if bool_decide (codeHashBytes (data o) = emptyCodeHash) then None
      else fst (ContractCode (addrHash o) (BytesToHash (codeHashBytes (data o))))
  end.

(** Objects that answer alike. *)
Record same_obj o o' : Prop := {
  so_address : address o = address o';
  so_addrHash : addrHash o = addrHash o';
  so_nonce : Nonce (data o) = Nonce (data o');
  so_codeHash : codeHashBytes (data o) = codeHashBytes (data o');
  so_code : cview o = cview o';
  so_storage k : sview o k = sview o' k;
  so_suicided : suicided o = suicided o';
}.

#[export] Instance same_obj_equiv : Equivalence same_obj.
Proof.
  split.
  - by intros o.
  - intros o o' []. by split.
  - intros a b c [] []. split; congruence.
Qed.

Record obj_ok o : Prop := {
  ook_trie : forall t, obj_trie o = Some t -> t_ok t;
  ook_hash : length (codeHashBytes (data o)) = 32%nat;
}.

Lemma strie_ok o : obj_ok o -> exists t, strie o = Some t /\ t_ok t.
Proof.
  intros Ho. unfold strie. destruct (obj_trie o) as [t|] eqn:Et; [exists t; split; [done|by eapply ook_trie]|].
  destruct (OpenStorageTrie_ok (addrHash o) (Root (data o))) as [(t & -> & ?)|(e & ->)]; [eauto|].
  destruct (OpenStorageTrie_zero (addrHash o)) as (t & -> & ? & _). eauto.
Qed.

(** Loading or reading through the storage trie does not change the answers. *)
Lemma getTrie_spec o : obj_ok o -> exists t o',
  getTrie o = Ok (t, o') /\ strie o = Some t /\ t_ok t /\
  exists e, o' = obj_setError (with_trie o (Some t)) e \/ o' = with_trie o (Some t) \/ o' = o.
Proof.
  intros Ho. unfold getTrie, strie. destruct (obj_trie o) as [t|] eqn:Et.
  { exists t, o. repeat split; try done; [by eapply ook_trie|]. exists None. auto. }
  destruct (OpenStorageTrie_ok (addrHash o) (Root (data o))) as [(t & -> & ?)|(e & ->)].
  { do 2 eexists. repeat split; try done. exists None. auto. }
  destruct (OpenStorageTrie_zero (addrHash o)) as (t & -> & ? & _).
  do 2 eexists. repeat split; try done. eexists. by left.
Qed.

Lemma with_trie_same o t : strie o = Some t -> same_obj (with_trie o (Some t)) o.
Proof. intros Ht. split; try done. intros k. unfold sview. simpl. by rewrite Ht. Qed.

Lemma obj_setError_same o e : same_obj (obj_setError o e) o.
Proof. unfold obj_setError. destruct (obj_dbErr o); by repeat split. Qed.

(** Reading a storage slot returns [sview] and leaves an object that answers
    alike. *)
Lemma obj_GetState_spec o k : obj_ok o -> exists o',
  obj_GetState o k = Ok (sview o k, o') /\ same_obj o' o /\ obj_ok o' /\
  address o' = address o /\ deleted o' = deleted o /\ data o' = data o.
Proof.
  intros Ho. unfold obj_GetState. destruct (cachedStorage o !! k) as [v|] eqn:Hc.
  { exists o. unfold sview. rewrite Hc. split; [done|]. split; [reflexivity|done]. }
  destruct (getTrie_spec o Ho) as (t & o1 & -> & Hst & Hok & e & Ho1). simpl.
  destruct (tGet_ok t k Hok) as (t' & -> & Hok' & Hv).
  assert (sview o k = default zeroHash (decodeHash (default [] (t_view t k)))) as <-.
  { unfold sview. by rewrite Hc, Hst. }
  assert (cachedStorage o1 = cachedStorage o /\ data o1 = data o /\ address o1 = address o /\
          deleted o1 = deleted o /\ code o1 = code o /\ addrHash o1 = addrHash o /\ suicided o1 = suicided o)
    as (Hcs & Hd & Ha & Hdel & Hcode & Hah & Hsu).
  { unfold obj_setError in Ho1. destruct (obj_dbErr (with_trie o (Some t)));
      destruct Ho1 as [-> | [-> | ->]]; done. }
  assert (forall o2, cachedStorage o2 = cachedStorage o \/
            (sview o k <> zeroHash /\ cachedStorage o2 = <[k:=sview o k]> (cachedStorage o)) ->
          obj_trie o2 = Some t' -> data o2 = data o -> address o2 = address o -> code o2 = code o ->
          addrHash o2 = addrHash o -> suicided o2 = suicided o -> same_obj o2 o) as Hsame.
  { intros o2 Hcs2 Htr2 Hd2 Ha2 Hc2 Hah2 Hsu2. split; try congruence.
    - unfold cview. by rewrite Hc2, Hd2, Hah2.
    - intros k'. assert (tread (strie o2) k' = tread (strie o) k') as Htr.
      { unfold strie at 1. rewrite Htr2, Hst. unfold tread. by rewrite Hv. }
      destruct Hcs2 as [Hcs2|[_ Hcs2]]; unfold sview at 1; rewrite Hcs2.
      + unfold sview. by rewrite Htr.
      + destruct (decide (k' = k)) as [->|]; [by rewrite lookup_insert_eq|].
        rewrite lookup_insert_ne by done. unfold sview. by rewrite Htr. }
  eexists. split; [done|]. case_bool_decide as Hz.
  - split; [apply Hsame; simpl; auto|]. split; [|simpl; auto].
    split; simpl; [by intros ? [= <-]|]. rewrite Hd. by apply ook_hash.
  - split; [apply Hsame; simpl; try congruence; right; split; congruence|]. split; [|simpl; auto].
    split; simpl; [by intros ? [= <-]|]. rewrite Hd. by apply ook_hash.
Qed.

Lemma obj_Code_spec o : obj_ok o -> exists o',
  obj_Code o = (cview o, o') /\ same_obj o' o /\ obj_ok o' /\
  address o' = address o /\ deleted o' = deleted o /\ data o' = data o.
Proof.
  intros Ho. unfold obj_Code. destruct (code o) as [c|] eqn:Hc.
  { exists o. unfold cview. rewrite Hc. split; [done|]. split; [reflexivity|done]. }
  destruct (bool_decide _) eqn:Hb.
  { exists o. unfold cview. rewrite Hc, Hb. split; [done|]. split; [reflexivity|done]. }
  destruct (ContractCode _ _) as [c err] eqn:Hcc.
  assert (cview o = c) as -> by (unfold cview; by rewrite Hc, Hb, Hcc).
  assert (forall o1, same_obj o1 o -> obj_ok o1 -> data o1 = data o -> addrHash o1 = addrHash o ->
            same_obj (with_code o1 c (dirtyCode o1)) o) as Hs.
  { intros o1 [] _ Hd Ha. split; try done; simpl. unfold cview. simpl. rewrite Hd, Ha, Hc, Hb, Hcc.
    by destruct c. }
  eexists. split; [done|].
  destruct err as [e|]; [unfold obj_setError; destruct (obj_dbErr o)|];
    (split; [apply Hs; by repeat split; destruct Ho|]); by repeat split; destruct Ho.
Qed.

(** ** States *)

(** The object the account trie holds at [a]. *)
Definition tload (t : T) (a : Address) : option Obj :=
  match default [] (t_view t a) with
  | [] => None
  | enc => (fun d => newObject a d true) <$> decodeAccount enc
  end.

Definition load s (a : Address) : option Obj :=
  match stateObjects s !! a with
  | Some o => if deleted o then None else Some o
  | None => tload (trie s) a
  end.

Definition opt_rel {A} (R : A -> A -> Prop) (x y : option A) : Prop :=
  match x, y with Some a, Some b => R a b | None, None => True | _, _ => False end.

(** States that answer every query alike; the transaction context, the journal
    and the memoized error are not compared. *)
Record state_eq s s' : Prop := {
  se_load a : opt_rel same_obj (load s a) (load s' a);
  se_trie k : t_view (trie s) k = t_view (trie s') k;
  se_refund : refund s = refund s';
  se_logs h : default [] (logs s !! h) = default [] (logs s' !! h);
  se_logSize : logSize s = logSize s';
  se_preimages h : preimages s !! h = preimages s' !! h;
}.

#[export] Instance opt_rel_equiv {A} (R : A -> A -> Prop) `{!Equivalence R} : Equivalence (opt_rel R).
Proof.
  split.
  - intros [a|]; simpl; [reflexivity|done].
  - intros [a|] [b|]; simpl; done.
  - intros [a|] [b|] [c|]; simpl; try done. intros ? ?. by transitivity b.
Qed.

#[export] Instance state_eq_equiv : Equivalence state_eq.
Proof.
  split.
  - intros s. split; reflexivity.
  - intros s s' []. split; by symmetry.
  - intros a b c [] []. split; intros; etransitivity; eauto.
Qed.

(** ** The invariant of a state in use *)

Definition entry_ok (e : journalEntry E T) : Prop :=
  match e with
  | resetObjectChange p => obj_ok p /\ deleted p = false
  | codeChange _ _ h => length h = 32%nat
  | _ => True
  end.

(** A deleted object is gone from the account trie too. *)
Record Inv s : Prop := {
  inv_trie : t_ok (trie s);
  inv_address a o : stateObjects s !! a = Some o -> address o = a;
  inv_obj a o : stateObjects s !! a = Some o -> obj_ok o;
  inv_deleted a o : stateObjects s !! a = Some o -> deleted o = true -> tload (trie s) a = None;
  inv_stored a o : tload (trie s) a = Some o -> obj_ok o;
  inv_logSize : 0 <= logSize s < 2 ^ 64;
}.

Lemma tload_address t a o : tload t a = Some o -> address o = a /\ deleted o = false /\ onDirty o = true /\ obj_trie o = None.
Proof.
  unfold tload. destruct (default [] (t_view t a)) as [|x l]; [done|].
  destruct (decodeAccount _); simpl; [|done]. by intros [= <-].
Qed.

Lemma load_ok s a o : Inv s -> load s a = Some o -> obj_ok o /\ address o = a /\ deleted o = false.
Proof.
  intros Hi. unfold load. destruct (stateObjects s !! a) as [o'|] eqn:Ho.
  - destruct (deleted o') eqn:Hd; [done|]. intros [= <-].
    split; [by eapply inv_obj|]. split; [by eapply inv_address|done].
  - intros Hl. split; [by eapply inv_stored|]. by apply tload_address in Hl as (? & ? & _).
Qed.

Lemma tload_view t t' a : (forall k, t_view t k = t_view t' k) -> tload t a = tload t' a.
Proof. intros Hv. unfold tload. by rewrite Hv. Qed.

(** [s'] is [s] with more of it loaded: same answers, same journal. *)
Record loaded s s' : Prop := {
  ld_load a : load s' a = load s a;
  ld_view k : t_view (trie s') k = t_view (trie s) k;
  ld_dirty : stateObjectsDirty s' = stateObjectsDirty s;
  ld_rest : refund s' = refund s /\ logs s' = logs s /\ logSize s' = logSize s /\
            preimages s' = preimages s /\ journal s' = journal s /\
            validRevisions s' = validRevisions s /\ nextRevisionId s' = nextRevisionId s /\
            thash s' = thash s /\ bhash s' = bhash s /\ txIndex s' = txIndex s;
}.

Lemma loaded_refl s : loaded s s.
Proof. by repeat split. Qed.

Lemma loaded_state_eq s s' : loaded s s' -> state_eq s' s.
Proof.
  intros [Hl Hv _ (Hr & Hlo & Hls & Hp & _)]. split; try congruence.
  intros a. by rewrite Hl.
Qed.

Lemma getStateObject_spec s a : Inv s -> exists s',
  getStateObject a s = Ok (load s a, s') /\ Inv s' /\ loaded s s' /\
  (forall o, load s a = Some o -> stateObjects s' !! a = Some o).
Proof.
  intros Hi. unfold getStateObject, load. destruct (stateObjects s !! a) as [o|] eqn:Ho.
  { exists s. split; [done|]. split; [done|]. split; [apply loaded_refl|].
    intros o'. destruct (deleted o); [done|]. by intros [= <-]. }
  destruct (tGet_ok (trie s) a (inv_trie s Hi)) as (t' & Hget & Hok & Hv). rewrite Hget.
  assert (forall b, tload t' b = tload (trie s) b) as Htl by (intros; by apply tload_view).
  assert (Inv (st_trie s t')) as Hi'.
  { destruct Hi as [? ? ? Hdel Hst ?]. split; simpl; auto.
    - intros. rewrite Htl. by eapply Hdel.
    - intros ? ?. rewrite Htl. apply Hst. }
  assert (loaded s (st_trie s t')) as Hld.
  { split; try done. intros b. unfold load. simpl. by rewrite Htl. }
  unfold tload. destruct (default [] (t_view (trie s) a)) as [|x enc] eqn:Henc; [by exists (st_trie s t')|].
  simpl length. simpl Nat.eqb. cbv iota.
  destruct (decodeAccount (x :: enc)) as [d|] eqn:Hdec; simpl; [|by exists (st_trie s t')].
  assert (tload (trie s) a = Some (newObject a d true)) as Hta.
  { unfold tload. by rewrite Henc, Hdec. }
  eexists. split; [done|]. split; [|split].
  - destruct Hi' as [Ht Had Hob Hdel Hst ?]. split; simpl; auto.
    + intros b o. rewrite lookup_insert_Some. intros [[<- <-]|[_ ?]]; [done|by apply Had].
    + intros b o. rewrite lookup_insert_Some. intros [[<- <-]|[_ ?]]; [|by eapply Hob].
      apply (Hst a). simpl. by rewrite Htl.
    + intros b o. rewrite lookup_insert_Some. intros [[<- <-]|[_ ?]]; [done|by eapply Hdel].
  - destruct Hld as [Hll ? ? ?]. split; try done. intros b. rewrite <- Hll. unfold load. simpl.
    rewrite lookup_insert. case_decide; [subst b|done]. rewrite Ho, Htl, Hta. done.
  - intros o [= <-]. simpl. by rewrite lookup_insert_eq.
Qed.

(** ** Writing an object back *)

Definition same_flags o o' : Prop := address o' = address o /\ deleted o' = deleted o.

Lemma fireDirty_spec o d : obj_ok o -> let r := fireDirty o d in
  same_obj r.1 o /\ obj_ok r.1 /\ same_flags o r.1.
Proof.
  intros [Ht Hh]. unfold fireDirty. destruct (onDirty o); simpl; by repeat split.
Qed.

Lemma load_put s od b : deleted od.1 = false ->
  load (put_dirty s od) b = if decide (b = address od.1) then Some od.1 else load s b.
Proof.
  intros Hd. unfold load, put_dirty. simpl. rewrite lookup_insert.
  destruct (decide (address od.1 = b)) as [->|]; case_decide; try congruence. by rewrite Hd.
Qed.

Lemma Inv_put s od : Inv s -> obj_ok od.1 -> deleted od.1 = false -> Inv (put_dirty s od).
Proof.
  intros [Ht Had Hob Hdel Hst ?] Hok Hd. split; simpl; auto.
  - intros b o'. rewrite lookup_insert_Some. intros [[<- <-]|[_ ?]]; auto.
  - intros b o'. rewrite lookup_insert_Some. intros [[<- <-]|[_ ?]]; eauto.
  - intros b o'. rewrite lookup_insert_Some. intros [[<- <-]|[_ ?]]; eauto. congruence.
Qed.

Lemma Inv_journal s e : Inv s -> Inv (journal_append s e).
Proof. by intros []. Qed.

End View.
