(* ===== verification/StateRevert.v ===== *)
(** * Snapshots and reverts

    Every modification of a state is undone by its journal entries: undoing
    them brings back a state that answers every query as before.  With the ghost
    history of a run this gives the contract of [Snapshot]/[RevertToSnapshot]. *)

From stdpp Require Import base list gmap numbers option.
From S2P Require Import Prelude Types TrieIface StateObject StateDB StateView.

Section Revert.
Context {E T : Type} `{StateEnvLaws E T}.

Abbreviation St := (StateDB E T).
Abbreviation Obj := (stateObject E T).
Implicit Types (s : St) (o : Obj).

Definition undos (es : list (journalEntry E T)) : M E T unit := mapM_ undo (rev es).

(** The bookkeeping an undo leaves alone. *)
Definition same_book s s' : Prop :=
  journal s' = journal s /\ validRevisions s' = validRevisions s /\ nextRevisionId s' = nextRevisionId s.

Lemma same_book_refl s : same_book s s.
Proof. done. Qed.

Lemma same_book_trans s1 s2 s3 : same_book s1 s2 -> same_book s2 s3 -> same_book s1 s3.
Proof. unfold same_book. intros (? & ? & ?) (? & ? & ?). repeat split; congruence. Qed.

Lemma loaded_book s s' : loaded s s' -> same_book s s'.
Proof. intros [_ _ _ (_ & _ & _ & _ & ? & ? & ? & _)]. done. Qed.

Lemma loaded_load s s' a o : loaded s s' -> load s' a = Some o <-> load s a = Some o.
Proof. intros Hl. by rewrite (ld_load _ _ Hl). Qed.

(** ** Modifying one object *)

(** [f] gives objects that answer alike when applied to objects that do. *)
Definition respects (f : Obj -> gset Address -> Obj * gset Address) : Prop :=
  forall o o' d d', same_obj o o' -> obj_ok o -> obj_ok o' ->
    same_obj (f o d).1 (f o' d').1 /\ obj_ok (f o d).1 /\ same_flags o (f o d).1.

Lemma respects_setNonce n : respects (fun o d => obj_setNonce o d n).
Proof.
  intros o o' d d' Hs Ho Ho'. unfold obj_setNonce.
  assert (forall x, obj_ok x -> obj_ok (with_data x (mkAccount n (Root (data x)) (CodeHash (data x))))) as Hok
    by (intros x []; by split).
  destruct (fireDirty_spec _ d (Hok o Ho)) as (E1 & K1 & F1), (fireDirty_spec _ d' (Hok o' Ho')) as (E2 & _ & _).
  split; [|done]. etransitivity; [exact E1|]. etransitivity; [|symmetry; exact E2].
  destruct Hs. by split.
Qed.

Lemma respects_setState k v : respects (fun o d => obj_setState o d k v).
Proof.
  intros o o' d d' Hs Ho Ho'. unfold obj_setState.
  assert (forall x, obj_ok x -> obj_ok (with_storage x (<[k:=v]> (cachedStorage x)) (<[k:=v]> (dirtyStorage x)))) as Hok
    by (intros x []; by split).
  destruct (fireDirty_spec _ d (Hok o Ho)) as (E1 & K1 & F1), (fireDirty_spec _ d' (Hok o' Ho')) as (E2 & _ & _).
  split; [|done]. etransitivity; [exact E1|]. etransitivity; [|symmetry; exact E2].
  destruct Hs as [? ? ? ? ? Hst ?]. split; try done. intros k'. unfold sview; simpl.
  destruct (decide (k' = k)) as [->|]; [by rewrite !lookup_insert_eq|].
  rewrite !lookup_insert_ne by done. exact (Hst k').
Qed.

Lemma respects_setCode h c : length h = 32%nat -> respects (fun o d => obj_setCode o d h c).
Proof.
  intros Hh o o' d d' Hs Ho Ho'. unfold obj_setCode.
  assert (forall x, obj_ok x -> obj_ok (with_data (with_code x c true) (mkAccount (Nonce (data x)) (Root (data x)) (Some h)))) as Hok
    by (intros x []; by split).
  destruct (fireDirty_spec _ d (Hok o Ho)) as (E1 & K1 & F1), (fireDirty_spec _ d' (Hok o' Ho')) as (E2 & _ & _).
  split; [|done]. etransitivity; [exact E1|]. etransitivity; [|symmetry; exact E2].
  destruct Hs as [? Hah ? ? _ ? ?]. split; try done. unfold cview; simpl. by rewrite Hah.
Qed.

Lemma respects_suicided b : respects (fun o d => (with_suicided o b, d)).
Proof. intros o o' d d' [] [] []. by repeat split. Qed.

Lemma respects_markSuicided : respects markSuicided.
Proof.
  intros o o' d d' Hs Ho Ho'. unfold markSuicided.
  destruct (respects_suicided true o o' d d' Hs Ho Ho') as (Es & Ks & Fs).
  destruct (respects_suicided true o' o d' d ltac:(by symmetry) Ho' Ho) as (_ & Ks' & _).
  destruct (fireDirty_spec _ d Ks) as (E1 & K1 & F1), (fireDirty_spec _ d' Ks') as (E2 & _ & _).
  split; [|split; [done|]].
  - etransitivity; [exact E1|]. etransitivity; [exact Es|]. by symmetry.
  - destruct F1, Fs. split; simpl in *; congruence.
Qed.

Lemma respects_touched b : respects (fun o d => (with_touched o b, d)).
Proof. intros o o' d d' [] [] []. by repeat split. Qed.

(** Two states with one object each replaced by ones that answer alike. *)
Lemma state_eq_put s1 s2 od1 od2 : state_eq s1 s2 -> same_obj od1.1 od2.1 ->
  deleted od1.1 = false -> deleted od2.1 = false -> state_eq (put_dirty s1 od1) (put_dirty s2 od2).
Proof.
  intros [Hl Ht Hr Hlo Hls Hp] Hs Hd1 Hd2. split; simpl; try done.
  intros a. rewrite !load_put by done. rewrite (so_address _ _ Hs).
  case_decide; [exact Hs|apply Hl].
Qed.

(** ** Undo respects [state_eq] *)

Lemma load_same s1 s2 a : state_eq s1 s2 -> Inv s1 -> Inv s2 ->
  (load s1 a = None /\ load s2 a = None) \/
  exists o1 o2, load s1 a = Some o1 /\ load s2 a = Some o2 /\ same_obj o1 o2 /\
    obj_ok o1 /\ obj_ok o2 /\ deleted o1 = false /\ deleted o2 = false.
Proof.
  intros He Hi1 Hi2. pose proof (se_load _ _ He a) as Hl.
  destruct (load s1 a) as [o1|] eqn:E1, (load s2 a) as [o2|] eqn:E2; simpl in Hl; try done; [right|by left].
  destruct (load_ok _ _ _ Hi1 E1) as (? & _ & ?), (load_ok _ _ _ Hi2 E2) as (? & _ & ?). eauto 12.
Qed.

(** The pattern [getStateObject(a).f()] on two equivalent states. *)
Lemma with_object_congr s1 s2 a f : state_eq s1 s2 -> Inv s1 -> Inv s2 -> respects f ->
  (load s1 a = None /\ load s2 a = None /\ exists s1' s2',
     getStateObject a s1 = Ok (None, s1') /\ getStateObject a s2 = Ok (None, s2') /\
     state_eq s1' s2' /\ Inv s1' /\ Inv s2' /\ same_book s1 s1' /\ same_book s2 s2') \/
  exists o1 o2 s1' s2', getStateObject a s1 = Ok (Some o1, s1') /\ getStateObject a s2 = Ok (Some o2, s2') /\
    let t1 := put_dirty s1' (f o1 (stateObjectsDirty s1')) in
    let t2 := put_dirty s2' (f o2 (stateObjectsDirty s2')) in
    state_eq t1 t2 /\ Inv t1 /\ Inv t2 /\ same_book s1 t1 /\ same_book s2 t2.
Proof.
  intros He Hi1 Hi2 Hf.
  destruct (getStateObject_spec s1 a Hi1) as (s1' & G1 & I1 & L1 & _).
  destruct (getStateObject_spec s2 a Hi2) as (s2' & G2 & I2 & L2 & _).
  assert (state_eq s1' s2') as He'.
  { etransitivity; [by apply loaded_state_eq|]. etransitivity; [exact He|]. symmetry. by apply loaded_state_eq. }
  destruct (load_same s1 s2 a He Hi1 Hi2) as [[E1 E2]|(o1 & o2 & E1 & E2 & Hs & Ho1 & Ho2 & Hd1 & Hd2)];
    rewrite E1 in G1; rewrite E2 in G2; [left|right].
  - split; [done|]. split; [done|]. exists s1', s2'. eauto 10 using loaded_book.
  - exists o1, o2, s1', s2'. split; [done|]. split; [done|].
    destruct (Hf o1 o2 (stateObjectsDirty s1') (stateObjectsDirty s2') Hs Ho1 Ho2) as (Hfs & Hk1 & Ha1 & Hfd1).
    destruct (Hf o2 o1 (stateObjectsDirty s2') (stateObjectsDirty s1') ltac:(by symmetry) Ho2 Ho1) as (_ & Hk2 & Ha2 & Hfd2).
    split; [apply state_eq_put; congruence || done|].
    split; [apply Inv_put; congruence || done|]. split; [apply Inv_put; congruence || done|].
    split; [exact (loaded_book _ _ L1)|exact (loaded_book _ _ L2)].
Qed.

(** What an undo on equivalent states gives. *)
Definition congruent (m : M E T unit) : Prop :=
  forall s1 s2 s2', state_eq s1 s2 -> Inv s1 -> Inv s2 -> m s2 = Ok ((), s2') ->
  exists s1', m s1 = Ok ((), s1') /\ state_eq s1' s2' /\ Inv s1' /\ Inv s2' /\
    same_book s1 s1' /\ same_book s2 s2'.

Lemma congruent_modify (f : St -> St) :
  (forall s1 s2, state_eq s1 s2 -> Inv s1 -> Inv s2 -> state_eq (f s1) (f s2)) ->
  (forall s, Inv s -> Inv (f s) /\ same_book s (f s)) -> congruent (modify f).
Proof.
  intros Hf Hb s1 s2 s2' He Hi1 Hi2 [= <-]. exists (f s1).
  destruct (Hb s1 Hi1), (Hb s2 Hi2). eauto 10.
Qed.

Lemma congruent_object a f g : respects f ->
  (forall o, g (Some o) = upd_object f o) ->
  (forall s1 s2 s2', g None s2 = Ok ((), s2') -> g None s1 = Ok ((), s1) /\ s2' = s2) ->
  congruent (getStateObject a ≫= g).
Proof.
  intros Hf Hg Hgn s1 s2 s2' He Hi1 Hi2 Hrun. unfold mbind, M_bind in *.
  destruct (with_object_congr s1 s2 a f He Hi1 Hi2 Hf)
    as [(_ & _ & t1 & t2 & G1 & G2 & ? & ? & ? & ? & ?)|(o1 & o2 & t1 & t2 & G1 & G2 & ? & ? & ? & ? & ?)];
    rewrite G2 in Hrun; rewrite G1.
  - destruct (Hgn t1 t2 s2' Hrun) as [-> ->]. eauto 10.
  - rewrite Hg in *. injection Hrun as <-. eexists. split; [done|]. auto.
Qed.

Lemma Inv_remove s a : Inv s -> forall d, Inv (st_objects s (delete a (stateObjects s)) d).
Proof.
  intros [Ht Had Hob Hdel Hst ?] d. split; simpl; auto.
  - intros b o [_ ?]%lookup_delete_Some. auto.
  - intros b o [_ ?]%lookup_delete_Some. eauto.
  - intros b o [_ ?]%lookup_delete_Some. eauto.
Qed.

Lemma load_remove s a d b :
  load (st_objects s (delete a (stateObjects s)) d) b = if decide (b = a) then tload (trie s) a else load s b.
Proof.
  unfold load. simpl. rewrite lookup_delete. case_decide; case_decide; congruence.
Qed.

Lemma undo_congr e : entry_ok e -> congruent (undo e).
Proof.
  intros He. destruct e as [a|p|a b|a n|a k v|a c h|r|h|h|a b b']; simpl in *.
  - apply congruent_modify.
    + intros s1 s2 Hs Hi1 Hi2. pose proof Hs as [Hl Ht ? ? ? ?]. split; simpl; try done.
      intros b. rewrite !load_remove. case_decide; [|done]. by rewrite (tload_view _ _ a Ht).
    + intros s Hi. split; [by apply Inv_remove|done].
  - destruct He as [Hp Hd]. apply congruent_modify.
    + intros s1 s2 Hs _ _. by apply (state_eq_put s1 s2 (p, _) (p, _)).
    + intros s Hi. split; [|done]. by apply (Inv_put s (p, _)).
  - apply (congruent_object a (fun o d => (with_suicided o b, d))); [apply respects_suicided|done|].
    intros s1 s2 s2' [= ->]. done.
  - apply (congruent_object a (fun o d => obj_setNonce o d n)); [apply respects_setNonce|done|done].
  - apply (congruent_object a (fun o d => obj_setState o d k v)); [apply respects_setState|done|done].
  - apply (congruent_object a (fun o d => obj_setCode o d (BytesToHash h) c)); [|done|done].
    apply respects_setCode, BytesToHash_length.
  - apply congruent_modify; [|by intros s []]. intros s1 s2 [] _ _. by split.
  - intros s1 s2 s2' Hs Hi1 Hi2 Hrun. pose proof Hs as [? ? ? Hlo Hls ?].
    unfold mbind, M_bind, getS in *. rewrite (Hlo h).
    assert (forall t n, Inv t -> Inv (st_logs t n (u64 (logSize t - 1)))) as Hiu.
    { intros t n []. split; try done. by apply wrap_range. }
    destruct (length (default [] (logs s2 !! h)) =? 1)%nat; [|destruct (_ =? 0)%nat; [done|]];
      injection Hrun as <-; eexists; (split; [done|]); (split; [|split_and!; auto; done]);
      split; simpl; try done; try congruence; intros h';
      rewrite ?lookup_delete, ?lookup_insert; by case_decide.
  - apply congruent_modify; [|by intros s []]. intros s1 s2 [] _ _. split; simpl; try done.
    intros h'. rewrite !lookup_delete. by case_decide.
  - destruct (negb b && _); [|intros s1 s2 s2' ? ? ? [= <-]; exists s1; by split_and!].
    apply (congruent_object a (fun o d => (with_touched o b, if negb b' then d ∖ {[a]} else d))).
    + intros o o' d d' [] [] []. by repeat split.
    + intros o. unfold upd_object. by destruct b'.
    + done.
Qed.

Lemma mapM_congr es : Forall entry_ok es -> congruent (mapM_ undo es).
Proof.
  induction 1 as [|e es He _ IH]; intros s1 s2 s2' Hs Hi1 Hi2 Hrun.
  - injection Hrun as <-. exists s1. by split_and!.
  - simpl in *. unfold mbind, M_bind in *. destruct (undo e s2) as [[[] t2]| | |] eqn:E2; try discriminate.
    destruct (undo_congr e He s1 s2 t2 Hs Hi1 Hi2 E2) as (t1 & -> & Ht & Ht1 & Ht2 & B1 & B2).
    destruct (IH t1 t2 s2' Ht Ht1 Ht2 Hrun) as (u1 & -> & ? & ? & ? & B1' & B2').
    exists u1. split_and!; try done; by eapply same_book_trans.
Qed.

(** ** Undoable steps *)

(** Going from [s] to [s'] appended entries to the journal, and undoing them
    gives a state equivalent to [s]. *)
Definition undoable s s' : Prop :=
  Inv s' /\ validRevisions s' = validRevisions s /\ nextRevisionId s' = nextRevisionId s /\
  exists es, journal s' = journal s ++ es /\ Forall entry_ok es /\
    exists s'', undos es s' = Ok ((), s'') /\ state_eq s'' s /\ Inv s''.

Lemma mapM_app {A} (f : A -> M E T unit) l1 l2 s :
  mapM_ f (l1 ++ l2) s = (mapM_ f l1 ≫= fun _ => mapM_ f l2) s.
Proof.
  revert s. induction l1 as [|x l1 IH]; intros s; [done|]. simpl. unfold mbind, M_bind in *.
  destruct (f x s) as [[[] t]| | |]; [apply IH|done..].
Qed.

Lemma undoable_loaded s s' : Inv s' -> loaded s s' -> undoable s s'.
Proof.
  intros Hi Hl. destruct (loaded_book _ _ Hl) as (Hj & Hv & Hn). split_and!; try done.
  exists []. rewrite app_nil_r. split_and!; try done. exists s'. split; [done|].
  split; [by apply loaded_state_eq|done].
Qed.

Lemma undoable_trans s1 s2 s3 : Inv s2 -> undoable s1 s2 -> undoable s2 s3 -> undoable s1 s3.
Proof.
  intros Hi2 (_ & V1 & N1 & es1 & J1 & O1 & u1 & R1 & S1 & K1) (Hi3 & V2 & N2 & es2 & J2 & O2 & u2 & R2 & S2 & K2).
  split_and!; try congruence. exists (es1 ++ es2).
  split; [rewrite J2, J1; by rewrite app_assoc|]. split; [by apply Forall_app|].
  destruct (mapM_congr (rev es1) ltac:(by apply Forall_rev) u2 s2 u1 S2 K2 Hi2 R1)
    as (w & Hw & Hws & Hwi & _).
  exists w. split; [|split; [by transitivity u1|done]].
  unfold undos in *. rewrite rev_app_distr, mapM_app. unfold mbind, M_bind. by rewrite R2.
Qed.

(** A step with a single journal entry. *)
Lemma undoable_one s s' e : Inv s' -> validRevisions s' = validRevisions s ->
  nextRevisionId s' = nextRevisionId s -> journal s' = journal s ++ [e] -> entry_ok e ->
  (exists s'', undo e s' = Ok ((), s'') /\ state_eq s'' s /\ Inv s'') -> undoable s s'.
Proof.
  intros Hi Hv Hn Hj He (s'' & Hu & Hs & Hi''). split_and!; try done.
  exists [e]. split; [done|]. split; [by constructor|]. exists s''. split; [|done].
  unfold undos. simpl. unfold mbind, M_bind. by rewrite Hu.
Qed.

(** Modifying a live object by [f], journaled by an entry whose undo applies [g]
    to it, is undoable when [g] after [f] answers as before.  [o0] is the object
    in the state and [o] the same object after reads. *)
Lemma undoable_object s a o0 o f g e :
  Inv s -> load s a = Some o0 -> same_obj o o0 -> obj_ok o -> deleted o = false ->
  respects f -> respects g -> entry_ok e ->
  (forall d d', same_obj (g (f o d).1 d').1 o) ->
  (forall t o', getStateObject a t = Ok (Some o', t) ->
     undo e t = Ok ((), put_dirty t (g o' (stateObjectsDirty t)))) ->
  let s' := put_dirty (journal_append s e) (f o (stateObjectsDirty s)) in
  undoable s s' /\ forall b, load s' b = if decide (b = a) then Some (f o (stateObjectsDirty s)).1 else load s b.
Proof.
  intros Hi Hl Hs0 Ho Hd Hf Hg He Hgf Hu. set (d := stateObjectsDirty s). intros s'.
  destruct (load_ok _ _ _ Hi Hl) as (_ & Ha0 & _).
  assert (address o = a) as Ha by (rewrite (so_address _ _ Hs0); exact Ha0).
  destruct (Hf o o d d ltac:(reflexivity) Ho Ho) as (_ & Hfo & Hfa & Hfd).
  assert (Inv s') as Hi' by (apply Inv_put; [by apply Inv_journal|done|congruence]).
  assert (forall b, load s' b = if decide (b = a) then Some (f o d).1 else load s b) as Hload.
  { intros b. unfold s'. rewrite load_put by congruence. by rewrite Hfa, Ha. }
  split; [|done]. apply undoable_one with e; try done.
  assert (getStateObject a s' = Ok (Some (f o d).1, s')) as Hget.
  { unfold getStateObject, s', put_dirty at 1. simpl. rewrite Hfa, Ha, lookup_insert_eq. by rewrite Hfd, Hd. }
  eexists. split; [by apply Hu|].
  destruct (Hg (f o d).1 (f o d).1 (stateObjectsDirty s') ∅ ltac:(reflexivity) Hfo Hfo) as (_ & Hgo & Hga & Hgd).
  split; [|apply Inv_put; [done|done|congruence]].
  split; [|done..]. intros b. rewrite load_put, Hload by congruence.
  rewrite Hga, Hfa, Ha. case_decide; [subst b; rewrite Hl|done].
  unfold opt_rel. etransitivity; [apply Hgf|exact Hs0].
Qed.

(** ** Creating objects *)

(** The object [createObject] installs at [a]. *)
Definition freshObject (a : Address) : Obj :=
  with_onDirty (with_data (newObject a (mkAccount 0 zeroHash None) true)
                  (mkAccount 0 zeroHash (Some emptyCodeHash))) false.

Lemma freshObject_ok a : obj_ok (freshObject a).
Proof. split; [done|]. apply Keccak256_length. Qed.

Lemma load_None_tload s a : Inv s -> load s a = None -> tload (trie s) a = None.
Proof.
  intros Hi. unfold load. destruct (stateObjects s !! a) as [o|] eqn:Ho; [|done].
  destruct (deleted o) eqn:Hd; [|done]. intros _. by eapply inv_deleted.
Qed.

Lemma createObject_spec s a : Inv s -> exists s',
  createObject a s = Ok ((freshObject a, load s a), s') /\ undoable s s' /\
  forall b, load s' b = if decide (b = a) then Some (freshObject a) else load s b.
Proof.
  intros Hi. unfold createObject, mbind, M_bind.
  destruct (getStateObject_spec s a Hi) as (t & -> & Hit & Hlt & _).
  unfold getS, obj_setNonce, fireDirty. simpl. eexists. split; [done|].
  change (with_onDirty _ false) with (freshObject a).
  set (e := match load s a with Some p => resetObjectChange p | None => createObjectChange a end).
  set (s' := setStateObject _ _).
  assert (forall b, load s' b = if decide (b = a) then Some (freshObject a) else load s b) as Hload.
  { intros b. rewrite <- (ld_load _ _ Hlt). unfold s', setStateObject, load. simpl.
    rewrite lookup_insert. by case_decide; case_decide; try congruence. }
  assert (Inv s') as Hi'.
  { apply (Inv_put (journal_append (st_objects t (stateObjects t) ({[a]} ∪ stateObjectsDirty t)) e) (freshObject a, _));
      [by destruct Hit|apply freshObject_ok|done]. }
  split; [|done]. destruct (loaded_book _ _ Hlt) as (Hj & Hv & Hn).
  apply undoable_one with e; try done; [by unfold s'; simpl; rewrite Hj| |].
  { unfold e. destruct (load s a) as [p|] eqn:Hl; [|done].
    by destruct (load_ok _ _ _ Hi Hl) as (? & _ & ?). }
  destruct (loaded_state_eq _ _ Hlt) as [Hl1 Hv1 ? ? ? ?].
  unfold e. destruct (load s a) as [p|] eqn:Hl; (eexists; split; [done|]).
  - destruct (load_ok _ _ _ Hi Hl) as (Hp & Hpa & Hpd). split; [|by apply (Inv_put s' (p, _))].
    split; simpl; try done. intros b. change (setStateObject s' p) with (put_dirty s' (p, stateObjectsDirty s')).
    rewrite load_put, Hload by done. simpl. rewrite Hpa. case_decide; [subst b; by rewrite Hl|done].
  - split; [|by apply Inv_remove]. split; simpl; try done. intros b. rewrite load_remove, Hload.
    case_decide; [subst b|done]. rewrite Hl. unfold s'. simpl.
    rewrite (tload_view _ _ a (ld_view _ _ Hlt)). by rewrite load_None_tload.
Qed.

(** The object a setter of [a] works on. *)
Definition target s (a : Address) : Obj := default (freshObject a) (load s a).

Lemma target_ok s a : Inv s -> obj_ok (target s a) /\ address (target s a) = a /\ deleted (target s a) = false.
Proof.
  intros Hi. unfold target. destruct (load s a) as [o|] eqn:Hl; simpl; [by apply (load_ok s)|].
  split; [apply freshObject_ok|done].
Qed.

Lemma GetOrNew_spec s a : Inv s -> exists s',
  GetOrNewStateObject a s = Ok (target s a, s') /\ undoable s s' /\
  forall b, load s' b = if decide (b = a) then Some (target s a) else load s b.
Proof.
  intros Hi. unfold GetOrNewStateObject, mbind at 1, M_bind at 1.
  destruct (getStateObject_spec s a Hi) as (t & -> & Hit & Hlt & _). unfold target.
  pose proof (undoable_loaded _ _ Hit Hlt) as Hu.
  destruct (load s a) as [o|] eqn:Hl; simpl.
  - destruct (load_ok _ _ _ Hi Hl) as (_ & _ & ->). exists t. split; [done|]. split; [done|].
    intros b. rewrite (ld_load _ _ Hlt). case_decide; [by subst|done].
  - unfold mbind, M_bind. destruct (createObject_spec t a Hit) as (s' & -> & Hu' & Hload).
    exists s'. split; [done|]. split; [by apply undoable_trans with t|].
    intros b. rewrite Hload. by rewrite (ld_load _ _ Hlt).
Qed.

Lemma undoable_Inv s s' : undoable s s' -> Inv s'.
Proof. by intros [? _]. Qed.

(** ** The setters *)

(** A setter returns, is undoable, and leaves every other account alone. *)
Definition sets s (a : Address) (m : M E T unit) (P : Obj -> Prop) : Prop :=
  exists s', m s = Ok ((), s') /\ undoable s s' /\
    (forall b, b <> a -> load s' b = load s b) /\
    exists o, load s' a = Some o /\ address o = a /\ P o.

(** The common end of the setters: the object obtained by [GetOrNewStateObject],
    possibly read, is modified and the entry is journaled. *)
Lemma setter_spec s a f g e o (P : Obj -> Prop) t : Inv s ->
  GetOrNewStateObject a s = Ok (target s a, t) -> undoable s t ->
  (forall b, load t b = if decide (b = a) then Some (target s a) else load s b) ->
  same_obj o (target s a) -> obj_ok o -> deleted o = false ->
  respects f -> respects g -> entry_ok e ->
  (forall d d', same_obj (g (f o d).1 d').1 o) ->
  (forall t o', getStateObject a t = Ok (Some o', t) ->
     undo e t = Ok ((), put_dirty t (g o' (stateObjectsDirty t)))) ->
  (forall d, P (f o d).1) ->
  let s' := put_dirty (journal_append t e) (f o (stateObjectsDirty (journal_append t e))) in
  undoable s s' /\ (forall b, b <> a -> load s' b = load s b) /\
  exists o', load s' a = Some o' /\ address o' = a /\ P o'.
Proof.
  intros Hi Hget Hu Hload Hso Ho Hd Hf Hg He Hgf Hun HP.
  change (stateObjectsDirty (journal_append t e)) with (stateObjectsDirty t).
  assert (load t a = Some (target s a)) as Hla by (rewrite Hload; by case_decide).
  destruct (undoable_object t a _ o f g e (undoable_Inv _ _ Hu) Hla Hso Ho Hd Hf Hg He Hgf Hun) as [Hu' Hl'].
  split; [apply undoable_trans with t; [by eapply undoable_Inv|done..]|]. split.
  - intros b Hb. rewrite Hl', Hload. by repeat case_decide.
  - eexists. rewrite Hl'. case_decide; [|done]. split; [done|]. split; [|apply HP].
    destruct (Hf o o (stateObjectsDirty t) ∅ ltac:(reflexivity) Ho Ho) as (_ & _ & -> & _).
    rewrite (so_address _ _ Hso). by apply target_ok.
Qed.

Lemma fireDirty_fst o d : (fireDirty o d).1 = with_onDirty o false.
Proof. unfold fireDirty. destruct o as [? ? ? ? ? ? ? ? ? ? ? ? []]; done. Qed.

Lemma SetNonce_sets s a n : Inv s ->
  sets s a (SetNonce a n) (fun o => Nonce (data o) = n /\
    codeHashBytes (data o) = codeHashBytes (data (target s a)) /\ cview o = cview (target s a) /\
    (forall k, sview o k = sview (target s a) k) /\ suicided o = suicided (target s a)).
Proof.
  intros Hi. destruct (GetOrNew_spec s a Hi) as (t & Hget & Hu & Hload).
  destruct (target_ok s a Hi) as (Ho & Ha & Hd).
  unfold sets, SetNonce, mbind, M_bind. rewrite Hget. eexists. split; [done|].
  rewrite Ha. apply (setter_spec s a (fun o d => obj_setNonce o d n)
    (fun o d => obj_setNonce o d (Nonce (data (target s a))))); auto using respects_setNonce; try done.
  - intros d d'. unfold obj_setNonce. rewrite !fireDirty_fst. by split.
  - intros t' o' G. simpl. unfold mbind, M_bind. by rewrite G.
  - intros d. unfold obj_setNonce. rewrite fireDirty_fst. by split_and!.
Qed.

Lemma SetState_sets s a k v : Inv s ->
  sets s a (SetState a k v) (fun o => Nonce (data o) = Nonce (data (target s a)) /\
    codeHashBytes (data o) = codeHashBytes (data (target s a)) /\ cview o = cview (target s a) /\
    (forall k', sview o k' = if decide (k' = k) then v else sview (target s a) k') /\
    suicided o = suicided (target s a)).
Proof.
  intros Hi. destruct (GetOrNew_spec s a Hi) as (t & Hget & Hu & Hload).
  destruct (target_ok s a Hi) as (Ho & Ha & Hd).
  destruct (obj_GetState_spec _ k Ho) as (o' & Hgs & Hs' & Ho' & Ha' & Hd' & Hdata').
  unfold sets, SetState, mbind, M_bind. rewrite Hget. unfold lift. rewrite Hgs. eexists. split; [done|].
  rewrite Ha', Ha. apply (setter_spec s a (fun o d => obj_setState o d k v)
    (fun o d => obj_setState o d k (sview (target s a) k))); auto using respects_setState; try done; [congruence|..].
  - intros d d'. unfold obj_setState. rewrite !fireDirty_fst. split; try done.
    intros k'. unfold sview at 1. simpl. destruct (decide (k' = k)) as [->|].
    + rewrite lookup_insert_eq. by rewrite (so_storage _ _ Hs').
    + by rewrite !lookup_insert_ne by done.
  - intros t' o1 G. simpl. unfold mbind, M_bind. by rewrite G.
  - intros d. unfold obj_setState. rewrite fireDirty_fst. destruct Hs' as [? ? ? ? Hc Hst ?].
    split_and!; try done. intros k'. unfold sview at 1. simpl. destruct (decide (k' = k)) as [->|].
    + by rewrite lookup_insert_eq.
    + rewrite lookup_insert_ne by done. exact (Hst k').
Qed.

Lemma SetCode_sets s a c : Inv s ->
  sets s a (SetCode a c) (fun o => Nonce (data o) = Nonce (data (target s a)) /\
    codeHashBytes (data o) = BytesToHash (Keccak256 (default [] c)) /\ cview o = c /\
    (forall k, sview o k = sview (target s a) k) /\ suicided o = suicided (target s a)).
Proof.
  intros Hi. destruct (GetOrNew_spec s a Hi) as (t & Hget & Hu & Hload).
  destruct (target_ok s a Hi) as (Ho & Ha & Hd).
  destruct (obj_Code_spec _ Ho) as (o' & Hgs & Hs' & Ho' & Ha' & Hd' & Hdata').
  unfold sets, SetCode, mbind, M_bind. rewrite Hget, Hgs. eexists. split; [done|].
  rewrite Ha', Ha. set (h := BytesToHash (Keccak256 (default [] c))).
  apply (setter_spec s a (fun o d => obj_setCode o d h c)
    (fun o d => obj_setCode o d (BytesToHash (codeHashBytes (data o'))) (cview (target s a)))); try done.
  - congruence.
  - apply respects_setCode, BytesToHash_length.
  - apply respects_setCode, BytesToHash_length.
  - apply Ho'.
  - intros d d'. unfold obj_setCode. rewrite !fireDirty_fst.
    rewrite BytesToHash_id by apply Ho'. split; try done.
    rewrite <- (so_code _ _ Hs'). unfold cview at 1. simpl.
    destruct (cview o') as [b|] eqn:Hcv; [done|].
    unfold cview in Hcv. destruct (code o'); [done|exact Hcv].
  - intros t' o1 G. simpl. unfold mbind, M_bind. by rewrite G.
  - intros d. unfold obj_setCode. rewrite fireDirty_fst. destruct Hs' as [? ? ? ? Hc Hst ?].
    split_and!; try done. unfold cview. simpl. destruct c; [done|]. unfold h, emptyCodeHash. simpl.
    rewrite BytesToHash_id by apply Keccak256_length. by rewrite bool_decide_true.
Qed.

Lemma CreateAccount_sets s a : Inv s -> sets s a (CreateAccount a) (fun o => o = freshObject a).
Proof.
  intros Hi. unfold sets, CreateAccount, mbind, M_bind.
  destruct (createObject_spec s a Hi) as (s' & -> & Hu & Hl). exists s'. split; [done|]. split; [done|].
  split; [intros b Hb; rewrite Hl; by case_decide|].
  exists (freshObject a). rewrite Hl. by case_decide.
Qed.

Lemma Suicide_undoable s a : Inv s -> exists s',
  Suicide a s = Ok (match load s a with Some _ => true | None => false end, s') /\ undoable s s' /\
  (forall b, b <> a -> load s' b = load s b) /\
  opt_rel (fun o' o => o' = with_onDirty (with_suicided o true) false) (load s' a) (load s a).
Proof.
  intros Hi. unfold Suicide, mbind, M_bind.
  destruct (getStateObject_spec s a Hi) as (t & -> & Hit & Hlt & _).
  pose proof (undoable_loaded _ _ Hit Hlt) as Hut.
  destruct (load s a) as [o|] eqn:Hl.
  - assert (load t a = Some o) as Hlta by (by rewrite (ld_load _ _ Hlt)).
    destruct (load_ok _ _ _ Hi Hl) as (Ho & Ha & Hd).
    destruct (undoable_object t a o o markSuicided (fun x d => (with_suicided x (suicided o), d)) (suicideChange a (suicided o)))
      as [Hu Hload]; auto using respects_markSuicided, respects_suicided; try done.
    { intros d d'. unfold markSuicided. rewrite fireDirty_fst. by split. }
    { intros t' o' G. simpl. unfold mbind, M_bind. by rewrite G. }
    eexists. split; [done|]. split; [exact (undoable_trans _ _ _ Hit Hut Hu)|]. split.
    + intros b Hb. etransitivity; [exact (Hload b)|]. rewrite decide_False by done. apply (ld_load _ _ Hlt).
    + match goal with |- opt_rel _ ?x _ => replace x with (Some (markSuicided o (stateObjectsDirty t)).1) end.
      * unfold opt_rel, markSuicided. by rewrite fireDirty_fst.
      * symmetry. etransitivity; [exact (Hload a)|]. by case_decide.
  - exists t. split; [done|]. split; [done|]. split; [intros; apply (ld_load _ _ Hlt)|].
    by rewrite (ld_load _ _ Hlt), Hl.
Qed.

(** ** Refund, logs, preimages, reads *)

Lemma AddRefund_undoable s v : Inv s -> exists s', AddRefund v s = Ok ((), s') /\ undoable s s'.
Proof.
  intros Hi. eexists. split; [done|]. eapply undoable_one; try done; [by destruct Hi|].
  eexists. split; [done|]. split; [by split|by destruct Hi].
Qed.

Lemma AddPreimage_undoable s h p : Inv s -> exists s', AddPreimage h p s = Ok ((), s') /\ undoable s s'.
Proof.
  intros Hi. unfold AddPreimage, modify. eexists. split; [done|].
  destruct (preimages s !! h) eqn:Hp; [apply undoable_loaded; [done|apply loaded_refl]|].
  eapply undoable_one; try done; [by destruct Hi|].
  eexists. split; [done|]. split; [|by destruct Hi]. split; simpl; try done.
  intros h'. by rewrite delete_insert_id.
Qed.

Lemma AddLog_undoable s l : Inv s -> exists s', AddLog l s = Ok ((), s') /\ undoable s s'.
Proof.
  intros Hi. eexists. split; [done|]. pose proof (inv_logSize _ Hi) as Hsz.
  eapply undoable_one; [..|reflexivity|done|]; try done.
  { destruct Hi. split; try done. by apply wrap_range. }
  simpl. unfold mbind, M_bind, getS. simpl. rewrite lookup_insert_eq. simpl.
  set (ls := default [] (logs s !! thash s)). rewrite length_app. simpl.
  assert (u64 (u64 (logSize s + 1) - 1) = logSize s) as Hu.
  { unfold u64, wrap. rewrite Zminus_mod_idemp_l. rewrite Z.add_simpl_r. by apply Z.mod_small. }
  assert (forall m, Inv (st_logs (journal_append s (addLogChange (thash s))) m (logSize s))) as Hi'
    by (intros m; by destruct Hi).
  replace (length ls + 1 =? 0)%nat with false by (symmetry; apply Nat.eqb_neq; lia).
  destruct (Nat.eqb_spec (length ls + 1) 1) as [Hl1|Hl1]; (eexists; split; [done|]).
  - split.
    + split; simpl; try done. intros h'. rewrite delete_insert_eq, lookup_delete. case_decide; [|done].
      subst h'. fold ls. destruct ls; [done|simpl in Hl1; lia].
    + destruct (Hi' (delete (thash s) (<[thash s:=ls ++ [mkLog (log_Address l) (log_Topics l) (log_Data l) (log_BlockNumber l)
               (thash s) (u64 (txIndex s)) (bhash s) (logSize s) (log_Removed l)]]> (logs s)))); by split; simpl; rewrite ?Hu.
  - rewrite Nat.add_sub, take_app_length. split.
    + split; simpl; try done. intros h'. rewrite insert_insert_eq, lookup_insert. case_decide; [|done].
      by subst h'.
    + destruct (Hi' ∅). by split; simpl; rewrite ?Hu.
Qed.

Lemma Prepare_undoable s th bh ti : Inv s -> exists s', Prepare th bh ti s = Ok ((), s') /\ undoable s s'.
Proof.
  intros Hi. assert (Inv (st_tx s th bh ti)) as Hi' by (by destruct Hi).
  eexists. split; [done|]. split_and!; try done. exists []. rewrite app_nil_r.
  split_and!; try done. eexists. split; [done|]. split; [by split|done].
Qed.

(** Storing back an object that answers alike is no modification. *)
Lemma undoable_putback s a o o' : Inv s -> load s a = Some o -> same_obj o' o -> obj_ok o' -> deleted o' = false ->
  undoable s (setStateObject s o').
Proof.
  intros Hi Hl Hs Ho' Hd'. assert (Inv (setStateObject s o')) as Hi' by (by apply (Inv_put s (o', _))).
  split_and!; try done. exists []. rewrite app_nil_r. split_and!; try done.
  eexists. split; [done|]. split; [|done]. split; simpl; try done. intros b.
  change (setStateObject s o') with (put_dirty s (o', stateObjectsDirty s)). rewrite load_put by done. simpl.
  destruct (load_ok _ _ _ Hi Hl) as (_ & Ha & _). rewrite (so_address _ _ Hs), Ha.
  case_decide; [subst b; by rewrite Hl|done].
Qed.

Lemma GetState_undoable s a k : Inv s -> exists s',
  GetState a k s = Ok (match load s a with Some o => sview o k | None => zeroHash end, s') /\ undoable s s' /\
  journal s' = journal s.
Proof.
  intros Hi. unfold GetState, mbind, M_bind.
  destruct (getStateObject_spec s a Hi) as (t & -> & Hit & Hlt & _).
  pose proof (undoable_loaded _ _ Hit Hlt) as Hut. pose proof (loaded_book _ _ Hlt) as (Hj & _).
  destruct (load s a) as [o|] eqn:Hl; [|by exists t].
  destruct (load_ok _ _ _ Hi Hl) as (Ho & _ & Hd).
  destruct (obj_GetState_spec o k Ho) as (o' & Hg & Hs & Ho' & _ & Hd' & _).
  unfold lift. rewrite Hg. eexists. split; [done|]. split; [|done]. apply undoable_trans with t; [done..|].
  apply undoable_putback with a o; try done; [by rewrite (ld_load _ _ Hlt)|congruence].
Qed.

Lemma GetCode_undoable s a : Inv s -> exists s',
  GetCode a s = Ok (match load s a with Some o => cview o | None => None end, s') /\ undoable s s' /\
  journal s' = journal s.
Proof.
  intros Hi. unfold GetCode, mbind, M_bind.
  destruct (getStateObject_spec s a Hi) as (t & -> & Hit & Hlt & _).
  pose proof (undoable_loaded _ _ Hit Hlt) as Hut. pose proof (loaded_book _ _ Hlt) as (Hj & _).
  destruct (load s a) as [o|] eqn:Hl; [|by exists t].
  destruct (load_ok _ _ _ Hi Hl) as (Ho & _ & Hd).
  destruct (obj_Code_spec o Ho) as (o' & Hg & Hs & Ho' & _ & Hd' & _).
  rewrite Hg. eexists. split; [done|]. split; [|done]. apply undoable_trans with t; [done..|].
  apply undoable_putback with a o; try done; [by rewrite (ld_load _ _ Hlt)|congruence].
Qed.

Lemma GetNonce_undoable s a : Inv s -> exists s',
  GetNonce a s = Ok (match load s a with Some o => Nonce (data o) | None => 0 end, s') /\ undoable s s'.
Proof.
  intros Hi. unfold GetNonce, mbind, M_bind.
  destruct (getStateObject_spec s a Hi) as (t & -> & Hit & Hlt & _).
  exists t. split; [by destruct (load s a)|by apply undoable_loaded].
Qed.

(** A run that journals nothing leaves an equivalent state. *)
Lemma undoable_same_journal s s' : undoable s s' -> journal s' = journal s -> state_eq s' s.
Proof.
  intros (_ & _ & _ & es & Hes & _ & u & Hr & Hs & _) Hj. rewrite Hj in Hes.
  rewrite <- (app_nil_r (journal s)) in Hes at 1. apply app_inv_head in Hes as <-. by injection Hr as <-.
Qed.

End Revert.
