(* ===== verification/StateInstance.v ===== *)
(** * A state environment in memory

    Tries are finite maps, the storage database is empty, the hash keeps the
    last 31 bytes and the length, and accounts are stored field by field.  It satisfies the
    laws the state layer relies on, and the examples run on it. *)

From stdpp Require Import base gmap list.
From S2P Require Import Prelude Types TrieIface StateObject StateDB StateView.
Local Open Scope Z_scope.

Abbreviation memTrie := (gmap (list byte) (list byte)).

#[export] Instance memTrieOps : TrieOps unit memTrie := {
  tGet t k := (Ok (t !! k), t);
  tUpdate t k v := (Ok (), if decide (v = []) then delete k t else <[k:=v]> t);
  tDelete t k := (Ok (), delete k t);
  tHash t := (zeroHash, t);
}.

#[export] Instance memTrieLaws : TrieLaws unit memTrie.
Proof.
  refine {| t_ok := fun _ => True |}.
  - intros t k _. by exists t.
  - intros t k v _. eexists. split; [done|]. split; [done|]. intros k'. unfold t_view. simpl.
    destruct (decide (k' = k)) as [->|]; destruct v as [|x v]; simpl;
      by rewrite ?lookup_delete_eq, ?lookup_insert_eq, ?lookup_delete_ne, ?lookup_insert_ne.
  - intros t k _. eexists. split; [done|]. split; [done|]. intros k'. unfold t_view. simpl.
    destruct (decide (k' = k)) as [->|]; by rewrite ?lookup_delete_eq, ?lookup_delete_ne.
  - done.
Defined.

Definition memEncode (a : Account) : list byte :=
  match CodeHash a with
  | None => Nonce a :: 0 :: Root a
  | Some h => Nonce a :: 1 :: Root a ++ h
  end.

Definition memDecode (b : list byte) : option Account :=
  match b with
  | n :: 0 :: r => Some (mkAccount n r None)
  | n :: 1 :: r => Some (mkAccount n (take 32 r) (Some (BytesToHash (drop 32 r))))
  | _ => None
  end.

Definition memHash (b : list byte) : list byte :=
  replicate (31 - length b) 0 ++ drop (length b - 31) b ++ [(Z.of_nat (length b) + 1) mod 256].

#[export] Instance memEnv : StateEnv unit memTrie := {
  OpenTrie _ := Ok ∅;
  OpenStorageTrie _ _ := Ok ∅;
  ContractCode _ _ := (None, None);
  ContractCodeSize _ _ := (0, None);
  CopyTrie t := t;
  Keccak256 := memHash;
  encodeAccount := memEncode;
  decodeAccount := memDecode;
  encodeHash h := h;
  decodeHash b := match b with [] => None | _ => Some (BytesToHash b) end;
}.

#[export] Instance memEnvLaws : StateEnvLaws unit memTrie.
Proof.
  split.
  - intros a r. left. by exists ∅.
  - intros a. by exists ∅.
  - done.
  - intros [|b bs] h; simpl; [done|]. intros [= <-]. apply BytesToHash_length.
  - intros h Hh. simpl. rewrite BytesToHash_id by done. by destruct h.
  - intros [n r h] Hr Hh. unfold codeHashBytes in Hh. simpl in *. destruct h as [h|]; [|done].
    unfold memEncode, memDecode. simpl. rewrite take_app_length', drop_app_length' by done.
    by rewrite BytesToHash_id.
  - intros [n r [h|]]; done.
  - intros b. simpl. unfold memHash. rewrite !length_app, length_replicate, length_drop. simpl. lia.
  - by intros t.
Qed.

Definition memState : StateDB unit memTrie := mkState ∅ ∅ ∅ None 0 zeroHash zeroHash 0 ∅ 0 ∅ [] [] 0.

Lemma memState_New : New zeroHash = Ok memState.
Proof. done. Qed.

Lemma memState_Inv : Inv memState.
Proof. split; simpl; try done. Qed.
