(* ===== verification/StateHistory.v ===== *)
(** * Snapshots over whole executions

    Sequences of the calls a transaction makes on a [StateDB]
    (core/state/statedb.go), with snapshots and reverts anywhere among them.
    The history of a state is a stack: for every revision still valid, the
    state its [Snapshot] was taken in, joined to the next one by operations
    that the journal can undo.  [RevertToSnapshot] pops that stack. *)

From stdpp Require Import base gmap list sorting.
From S2P Require Import Prelude Types TrieIface StateObject StateDB StateView StateRevert StateInstance.
Local Open Scope Z_scope.

(** The journalled interface of the state, one constructor per method. *)
Inductive op : Type :=
  | OpCreateAccount (a : list byte)
  | OpSetNonce (a : list byte) (n : Z)
  | OpSetCode (a : list byte) (c : option (list byte))
  | OpSetState (a k v : list byte)
  | OpSuicide (a : list byte)
  | OpAddRefund (v : Z)
  | OpAddLog (l : Log)
  | OpAddPreimage (h p : list byte)
  | OpPrepare (th bh : list byte) (ti : Z)
  | OpGetNonce (a : list byte)
  | OpGetState (a k : list byte)
  | OpGetCode (a : list byte).

Inductive cmd : Type :=
  | Do (o : op)
  | TakeSnapshot
  | RevertTo (id : Z).

(** What a caller can ask of the state. *)
Inductive query : Type :=
  | QExist (a : list byte)
  | QEmpty (a : list byte)
  | QNonce (a : list byte)
  | QCode (a : list byte)
  | QCodeHash (a : list byte)
  | QState (a k : list byte)
  | QHasSuicided (a : list byte)
  | QRefund
  | QLogs (h : list byte).

Inductive answer : Type :=
  | ABool (b : bool)
  | ANum (n : Z)
  | ABytes (c : option (list byte))
  | ALogs (l : list Log).

Section History.
Context {E T : Type} `{StateEnvLaws E T}.

Abbreviation St := (StateDB E T).
Implicit Types (s g : St).

Definition exec (o : op) : M E T unit :=
  match o with
  | OpCreateAccount a => CreateAccount a
  | OpSetNonce a n => SetNonce a n
  | OpSetCode a c => SetCode a c
  | OpSetState a k v => SetState a k v
  | OpSuicide a => _ ← Suicide a; mret ()
  | OpAddRefund v => AddRefund v
  | OpAddLog l => AddLog l
  | OpAddPreimage h p => AddPreimage h p
  | OpPrepare th bh ti => Prepare th bh ti
  | OpGetNonce a => _ ← GetNonce a; mret ()
  | OpGetState a k => _ ← GetState a k; mret ()
  | OpGetCode a => _ ← GetCode a; mret ()
  end.

Definition run_cmd (c : cmd) : M E T unit :=
  match c with
  | Do o => exec o
  | TakeSnapshot => _ ← Snapshot; mret ()
  | RevertTo id => RevertToSnapshot id
  end.

Definition run : list cmd -> M E T unit := mapM_ run_cmd.

Definition ask (q : query) : M E T answer :=
  match q with
  | QExist a => b ← Exist a; mret (ABool b)
  | QEmpty a => b ← Empty a; mret (ABool b)
  | QNonce a => n ← GetNonce a; mret (ANum n)
  | QCode a => c ← GetCode a; mret (ABytes c)
  | QCodeHash a => h ← GetCodeHash a; mret (ABytes (Some h))
  | QState a k => v ← GetState a k; mret (ABytes (Some v))
  | QHasSuicided a => b ← HasSuicided a; mret (ABool b)
  | QRefund => s ← getS; mret (ANum (refund s))
  | QLogs h => l ← GetLogs h; mret (ALogs l)
  end.

(** The answer as a function of what the state holds. *)
Definition answer_of s (q : query) : answer :=
  match q with
  | QExist a => ABool (match load s a with Some _ => true | None => false end)
  | QEmpty a => ABool (match load s a with Some o => empty o | None => true end)
  | QNonce a => ANum (match load s a with Some o => Nonce (data o) | None => 0 end)
  | QCode a => ABytes (match load s a with Some o => cview o | None => None end)
  | QCodeHash a => ABytes (Some (match load s a with Some o => BytesToHash (codeHashBytes (data o)) | None => zeroHash end))
  | QState a k => ABytes (Some (match load s a with Some o => sview o k | None => zeroHash end))
  | QHasSuicided a => ABool (match load s a with Some o => suicided o | None => false end)
  | QRefund => ANum (refund s)
  | QLogs h => ALogs (default [] (logs s !! h))
  end.

(** Asking never fails, gives [answer_of], and leaves every answer as it was. *)
Lemma ask_spec s q : Inv s -> exists s', ask q s = Ok (answer_of s q, s') /\ undoable s s' /\ state_eq s' s.
Proof.
  intros Hi. assert (forall s', Inv s' -> loaded s s' -> undoable s s' /\ state_eq s' s) as Hld.
  { intros s' Hi' Hl. split; [by apply undoable_loaded|by apply loaded_state_eq]. }
  assert (forall s', undoable s s' -> journal s' = journal s -> undoable s s' /\ state_eq s' s) as Hun.
  { intros s' Hu Hj. split; [done|]. destruct Hu as (_ & _ & _ & es & Hes & _ & u & Hr & Hs & _).
    rewrite Hj in Hes. rewrite <- (app_nil_r (journal s)) in Hes at 1. apply app_inv_head in Hes as <-.
    by injection Hr as <-. }
  destruct q as [a|a|a|a|a|a k|a| |h]; simpl; unfold mbind, M_bind;
    try (unfold Exist, Empty, GetNonce, GetCodeHash, HasSuicided, mbind, M_bind;
         destruct (getStateObject_spec s a Hi) as (t & -> & Hit & Hlt & _); exists t;
         split; [by destruct (load s a)|by apply Hld]);
    try (eexists; split; [done|]; apply Hld; [done|apply loaded_refl]).
  - destruct (GetCode_undoable s a Hi) as (s' & -> & Hu & Hj). exists s'. auto.
  - destruct (GetState_undoable s a k Hi) as (s' & -> & Hu & Hj). exists s'. auto.
Qed.

Lemma exec_undoable s o : Inv s -> exists s', exec o s = Ok ((), s') /\ undoable s s'.
Proof.
  intros Hi. destruct o; simpl; unfold mbind, M_bind.
  - destruct (CreateAccount_sets s a Hi) as (s' & ? & ? & _). eauto.
  - destruct (SetNonce_sets s a n Hi) as (s' & ? & ? & _). eauto.
  - destruct (SetCode_sets s a c Hi) as (s' & ? & ? & _). eauto.
  - destruct (SetState_sets s a k v Hi) as (s' & ? & ? & _). eauto.
  - destruct (Suicide_undoable s a Hi) as (s' & -> & ? & _). by exists s'.
  - by apply AddRefund_undoable.
  - by apply AddLog_undoable.
  - by apply AddPreimage_undoable.
  - by apply Prepare_undoable.
  - destruct (GetNonce_undoable s a Hi) as (s' & -> & ?). by exists s'.
  - destruct (GetState_undoable s a k Hi) as (s' & -> & ? & _). by exists s'.
  - destruct (GetCode_undoable s a Hi) as (s' & -> & ? & _). by exists s'.
Qed.

(** ** Histories *)

(** [r] stands for [t] after a revert: the same observations, journal and
    revisions; only the revision counter may have moved on. *)
Record like (t r : St) : Prop := {
  lk_eq : state_eq r t;
  lk_inv : Inv r;
  lk_journal : journal r = journal t;
  lk_revs : validRevisions r = validRevisions t;
  lk_next : nextRevisionId t <= nextRevisionId r;
}.

Inductive history : St -> list (Z * St) -> Prop :=
  | history_base s : Inv s -> validRevisions s = [] -> history s []
  | history_snapshot g id s1 t s stk :
      history g stk -> Snapshot g = Ok (id, s1) -> undoable s1 t -> like t s ->
      history s ((id, g) :: stk).

Lemma like_refl s : Inv s -> like s s.
Proof. intros Hi. by split. Qed.

Lemma history_inv s stk : history s stk -> Inv s.
Proof. inversion_clear 1 as [|????? ? _ _ _ []]; done. Qed.

Lemma history_like s r stk : history s stk -> like s r -> history r stk.
Proof.
  intros Hh Hl. inversion Hh as [? Hi Hv|g id s1 t ? stk' Hg Hs Hu Hl']; subst.
  - apply history_base; [apply Hl|]. by rewrite (lk_revs _ _ Hl).
  - apply history_snapshot with s1 t; try done. destruct Hl, Hl'. split; try done; try congruence.
    + by etransitivity.
    + lia.
Qed.

(** Operations on [r], which stands for [t], compose with the segment to [t]. *)
Lemma undoable_like s1 t r s' : undoable s1 t -> like t r -> undoable r s' ->
  exists t', undoable s1 t' /\ like t' s'.
Proof.
  intros (Hi & V & N & es & J & O & u & R & S & K) [Le Li Lj Lv Ln] (Hi' & V' & N' & es' & J' & O' & u' & R' & S' & K').
  exists (st_revisions s' (validRevisions s1) (nextRevisionId s1)).
  assert (Inv (st_revisions s' (validRevisions s1) (nextRevisionId s1))) as Hi2 by (by destruct Hi').
  split.
  - split_and!; try done. exists (es ++ es'). split; [simpl; by rewrite J', Lj, J, app_assoc|].
    split; [by apply Forall_app|].
    assert (state_eq (st_revisions s' (validRevisions s1) (nextRevisionId s1)) s') as Hse by by split.
    destruct (mapM_congr (rev es') ltac:(by apply Forall_rev) _ _ _ Hse Hi2 Hi' R') as (w' & Hw' & Hws' & Hwi' & _).
    assert (state_eq w' t) as Hwt by (etransitivity; [exact Hws'|]; by etransitivity).
    destruct (mapM_congr (rev es) ltac:(by apply Forall_rev) _ _ _ Hwt Hwi' Hi R) as (w & Hw & Hws & Hwi & _).
    exists w. split; [|split; [by etransitivity|done]].
    unfold undos. rewrite rev_app_distr, mapM_app. unfold mbind, M_bind. by rewrite Hw'.
  - split; simpl; try done; congruence || lia.
Qed.

Lemma history_undoable s s' stk : history s stk -> undoable s s' -> history s' stk.
Proof.
  intros Hh Hu. inversion Hh as [? Hi Hv|g id s1 t ? stk' Hg Hs Hut Hl']; subst.
  - destruct Hu as (? & V & _). apply history_base; [done|congruence].
  - destruct (undoable_like _ _ _ _ Hut Hl' Hu) as (t' & ? & ?). by apply history_snapshot with s1 t'.
Qed.

(** The identifiers of the stack are those of [validRevisions], newest first,
    all below [nextRevisionId] and strictly increasing. *)
Lemma history_ids s stk : history s stk ->
  map rev_id (validRevisions s) = rev (map fst stk) /\
  Forall (fun i => i < nextRevisionId s) (map fst stk) /\
  StronglySorted Z.gt (map fst stk).
Proof.
  induction 1 as [s Hi Hv|g id s1 t s stk Hg (Hm & Hlt & Hs) Hsn (_ & V & N & _) [_ _ _ Lv Ln]].
  { rewrite Hv. split_and!; constructor. }
  injection Hsn as <- <-. simpl in *. rewrite Lv, V, map_app, Hm. simpl.
  split_and!; [done| |constructor; [done|]].
  - constructor; [lia|]. eapply Forall_impl; [exact Hlt|]. simpl. lia.
  - eapply Forall_impl; [exact Hlt|]. simpl. lia.
Qed.

(** Undoing a segment, seen from a state that stands for its end. *)
Lemma like_undos s1 t s : undoable s1 t -> like t s ->
  validRevisions s = validRevisions s1 /\ nextRevisionId s1 <= nextRevisionId s /\
  exists es u, journal s = journal s1 ++ es /\ Forall entry_ok es /\ undos es s = Ok ((), u) /\
    state_eq u s1 /\ Inv u /\ same_book s u.
Proof.
  intros (Hi & V & N & es & J & O & u & R & S & K) [Le Li Lj Lv Ln].
  destruct (mapM_congr (rev es) ltac:(by apply Forall_rev) _ _ _ Le Li Hi R) as (w & Hw & Hws & Hwi & _ & Hb & _).
  split; [congruence|]. split; [lia|]. exists es, w. split_and!; try done; [congruence|by etransitivity|apply Hb..].
Qed.

(** What the journal holds for every revision still valid. *)
Lemma history_undo s stk id g : history s stk -> (id, g) ∈ stk ->
  nextRevisionId g <= nextRevisionId s /\
  (exists rest, validRevisions s = validRevisions g ++ mkRevision id (length (journal g)) :: rest) /\
  (exists pre stk', stk = pre ++ (id, g) :: stk' /\ history g stk') /\
  exists es u, journal s = journal g ++ es /\ Forall entry_ok es /\ undos es s = Ok ((), u) /\
    state_eq u g /\ Inv u /\ same_book s u.
Proof.
  induction 1 as [|g' id' s1 t s stk Hg IH Hsn Hu Hl]; intros Hin; [by apply not_elem_of_nil in Hin|].
  destruct (like_undos _ _ _ Hu Hl) as (Hv & Hn & es & u & J & O & R & Hs & Hi & B).
  injection Hsn as <- <-. simpl in *. apply elem_of_cons in Hin as [[= -> ->]|Hin].
  { split; [lia|]. split; [by exists []|]. split; [by exists [], stk|].
    exists es, u. split_and!; try done; [|apply B..]. etransitivity; [exact Hs|by split]. }
  destruct (IH Hin) as (Hn' & (rest & Hv') & (pre & stk' & -> & Hg') & es' & u' & J' & O' & R' & Hs' & Hi' & B').
  split; [lia|]. split; [exists (rest ++ [mkRevision (nextRevisionId g') (length (journal g'))]); by rewrite Hv, Hv', <- app_assoc|].
  split; [by exists ((nextRevisionId g', g') :: pre), stk'|].
  assert (state_eq u g') as Hug by (etransitivity; [exact Hs|by split]).
  destruct (mapM_congr (rev es') ltac:(by apply Forall_rev) _ _ _ Hug Hi (history_inv _ _ Hg) R')
    as (w & Hw & Hws & Hwi & _ & Hb & _).
  exists (es' ++ es), w. split; [by rewrite J, J', app_assoc|]. split; [by apply Forall_app|]. split.
  { unfold undos. rewrite rev_app_distr, mapM_app. unfold mbind, M_bind. unfold undos in R. by rewrite R. }
  split; [by etransitivity|]. split; [done|]. by apply same_book_trans with u.
Qed.

(** ** [sort.Search] over the revisions *)

Lemma revision_search (revs : list revision) id (idx := search (length revs)
    (fun i => match revs !! i with Some r => id <=? rev_id r | None => false end)) :
  StronglySorted Z.lt (map rev_id revs) ->
  (forall l r l', revs = l ++ r :: l' -> rev_id r = id -> idx = length l) /\
  (id ∉ map rev_id revs -> match revs !! idx with Some r => rev_id r <> id | None => True end).
Proof.
  intros Hs. split; [|intros Hn; destruct (revs !! idx) as [r|] eqn:Hr; [|done]; intros Hid; apply Hn;
    subst id; apply list_elem_of_fmap_2; by apply list_elem_of_lookup_2 in Hr].
  assert (forall a b ra rb, (a < b)%nat -> revs !! a = Some ra -> revs !! b = Some rb -> rev_id ra < rev_id rb) as Hlt.
  { intros a b ra rb Hab Ha Hb.
    apply (StronglySorted_lookup _ _ a b _ _ Hs Hab); [by rewrite list_lookup_fmap, Ha|by rewrite list_lookup_fmap, Hb]. }
  intros l r l' Hrevs Hid.
  set (f := fun i => match revs !! i with Some r => id <=? rev_id r | None => false end) in idx.
  assert (revs !! length l = Some r) as Hk by (rewrite Hrevs; by apply list_lookup_middle).
  destruct (search_spec (length revs) f) as (Hle & Hbefore & Hat).
  { intros a b [Hab Hb] Hfa. destruct (decide (a = b)) as [->|]; [done|]. unfold f in *.
    destruct (revs !! a) as [ra|] eqn:Ha; [|done]. destruct (lookup_lt_is_Some_2 revs b Hb) as [rb Hrb].
    rewrite Hrb. pose proof (Hlt a b ra rb ltac:(lia) Ha Hrb). lia. }
  fold idx in Hle, Hbefore, Hat. assert (f (length l) = true) as Hfl by (unfold f; rewrite Hk; lia).
  destruct (lt_eq_lt_dec idx (length l)) as [[Hi|Hi]|Hi]; [|done|by rewrite (Hbefore _ Hi) in Hfl].
  pose proof (lookup_lt_Some _ _ _ Hk) as Hlen. specialize (Hat ltac:(lia)). unfold f in Hat.
  destruct (revs !! idx) as [ri|] eqn:Hri; [|done]. pose proof (Hlt _ _ _ _ Hi Hri Hk). lia.
Qed.

Lemma history_sorted s stk : history s stk -> StronglySorted Z.lt (map rev_id (validRevisions s)).
Proof.
  intros Hh. destruct (history_ids _ _ Hh) as (-> & _ & Hs). clear Hh.
  induction Hs as [|i l Hs IH Hall]; [constructor|]. simpl.
  apply StronglySorted_snoc; [done|]. apply Forall_rev. eapply Forall_impl; [exact Hall|]. simpl. lia.
Qed.

(** ** The contract of [Snapshot] and [RevertToSnapshot] *)

(** What [RevertToSnapshot] runs for a valid identifier. *)
Lemma revert_run s stk id g : history s stk -> (id, g) ∈ stk ->
  exists es u, journal s = journal g ++ es /\ Forall entry_ok es /\ undos es s = Ok ((), u) /\
    state_eq u g /\ Inv u /\
    RevertToSnapshot id s = Ok ((), st_revisions (st_journal u (journal g)) (validRevisions g) (nextRevisionId s)).
Proof.
  intros Hh Hin. pose proof (history_undo _ _ _ _ Hh Hin) as
    (_ & (rest & Hv) & _ & es & u & J & O & R & Hs & Hi & B1 & B2 & B3).
  destruct (revision_search (validRevisions s) id (history_sorted _ _ Hh)) as (Hidx & _).
  specialize (Hidx _ _ _ Hv eq_refl). exists es, u. split_and!; try done.
  unfold RevertToSnapshot, mbind, M_bind, getS. rewrite Hidx, Hv, list_lookup_middle by done. simpl.
  rewrite Z.eqb_refl. simpl. rewrite J, drop_app_length. unfold undos in R. rewrite R.
  unfold modify. simpl. by rewrite take_app_length, B1, J, take_app_length, B3.
Qed.

Lemma revert_valid s stk id g : history s stk -> (id, g) ∈ stk ->
  exists r stk', RevertToSnapshot id s = Ok ((), r) /\ like g r /\ history r stk' /\ stk' ⊆ stk /\
    nextRevisionId r = nextRevisionId s.
Proof.
  intros Hh Hin. pose proof (history_undo _ _ _ _ Hh Hin) as (Hn & _ & (pre & stk' & Hstk & Hg) & _).
  destruct (revert_run s stk id g Hh Hin) as (es & u & _ & _ & _ & Hs & Hi & Hr).
  set (r := st_revisions (st_journal u (journal g)) (validRevisions g) (nextRevisionId s)) in Hr.
  assert (like g r) as Hl by (split; try done; [etransitivity; [|exact Hs]; by split|by destruct Hi]).
  exists r, stk'. split_and!; try done; [by apply history_like with g|].
  subst stk. intros x Hx. apply elem_of_app. right. by apply list_elem_of_further.
Qed.

Lemma revert_invalid s stk id : history s stk -> id ∉ map rev_id (validRevisions s) ->
  RevertToSnapshot id s = Panic.
Proof.
  intros Hh Hn. destruct (revision_search (validRevisions s) id (history_sorted _ _ Hh)) as (_ & Hidx).
  specialize (Hidx Hn). unfold RevertToSnapshot, mbind, M_bind, getS.
  destruct (validRevisions s !! _) as [r|]; [|done]. by rewrite (proj2 (Z.eqb_neq _ _) Hidx).
Qed.

Lemma history_valid s stk id : history s stk ->
  (id ∈ map rev_id (validRevisions s)) <-> exists g, (id, g) ∈ stk.
Proof.
  intros Hh. destruct (history_ids _ _ Hh) as (-> & _).
  rewrite !list_elem_of_In, <- in_rev, in_map_iff. split.
  - intros ([i g] & <- & Hin). exists g. by apply list_elem_of_In.
  - intros (g & Hin). exists (id, g). split; [done|by apply list_elem_of_In].
Qed.

Lemma history_take g stk id s1 : history g stk -> Snapshot g = Ok (id, s1) -> history s1 ((id, g) :: stk).
Proof.
  intros Hg Hs. assert (Inv s1) as Hi1 by (injection Hs as _ <-; by destruct (history_inv _ _ Hg)).
  apply history_snapshot with s1 s1; [done|done| |by apply like_refl].
  apply undoable_loaded; [done|apply loaded_refl].
Qed.

(** One command from a state with a history: only the revert to a revision
    that is not valid fails, and the stack grows by fresh revisions only. *)
Lemma run_cmd_history s stk c : history s stk ->
  (exists s' stk', run_cmd c s = Ok ((), s') /\ history s' stk' /\ nextRevisionId s <= nextRevisionId s' /\
     forall i g, (i, g) ∈ stk' -> i < nextRevisionId s -> (i, g) ∈ stk) \/
  (exists id, c = RevertTo id /\ (id ∉ map rev_id (validRevisions s)) /\ run_cmd c s = Panic).
Proof.
  intros Hh. destruct c as [o| |id]; simpl.
  - left. destruct (exec_undoable s o (history_inv _ _ Hh)) as (s' & He & Hu). exists s', stk.
    split_and!; try done; [by apply history_undoable with s|]. destruct Hu as (_ & _ & -> & _). lia.
  - left. eexists _, _. split; [done|]. split; [by eapply history_take|]. split; [simpl; lia|].
    intros i g [[= -> ->]|Hin]%elem_of_cons Hlt; [lia|done].
  - destruct (decide (id ∈ map rev_id (validRevisions s))) as [Hv|Hv].
    + left. apply (history_valid _ _ _ Hh) in Hv as (g & Hin).
      pose proof (history_undo _ _ _ _ Hh Hin) as (Hn & _).
      destruct (revert_valid _ _ _ _ Hh Hin) as (r & stk' & Hr & Hl & Hh' & Hsub & Hnr).
      exists r, stk'. split_and!; try done; [lia|auto].
    + right. exists id. split_and!; try done. by apply revert_invalid with stk.
Qed.

Lemma run_history cs s stk s' : history s stk -> run cs s = Ok ((), s') ->
  exists stk', history s' stk' /\ nextRevisionId s <= nextRevisionId s' /\
    forall i g, (i, g) ∈ stk' -> i < nextRevisionId s -> (i, g) ∈ stk.
Proof.
  revert s stk. induction cs as [|c cs IH]; intros s stk Hh Hr.
  { injection Hr as <-. by exists stk. }
  unfold run in Hr. simpl in Hr. unfold mbind, M_bind in Hr.
  destruct (run_cmd_history s stk c Hh) as [(t & stk1 & Hc & Ht & Hn & Hsub)|(id & _ & _ & Hc)];
    rewrite Hc in Hr; [|done].
  destruct (IH t stk1 Ht Hr) as (stk' & Hh' & Hn' & Hsub'). exists stk'. split; [done|]. split; [lia|].
  intros i g Hin Hi. apply Hsub; [|done]. apply Hsub'; [done|lia].
Qed.

Lemma state_eq_answers s s' q : state_eq s s' -> answer_of s q = answer_of s' q.
Proof.
  intros [Hl _ Hr Hlo _ _].
  destruct q as [a|a|a|a|a|a k|a| |h]; simpl; [..|congruence|by rewrite Hlo];
    specialize (Hl a); destruct (load s a), (load s' a); simpl in Hl; try done;
    destruct Hl as [_ _ Hn Hch Hcv Hst Hsu]; unfold empty; by rewrite ?Hn, ?Hch, ?Hcv, ?Hst, ?Hsu.
Qed.

(** ** Accounts *)

(** What a state says of one address. *)
Record account : Type := mkAcct {
  a_nonce : Z;
  a_code : option (list byte);
  a_storage : list byte -> list byte;
  a_suicided : bool;
}.

Definition noAccount : account := mkAcct 0 None (fun _ => zeroHash) false.

Definition account_of s (a : list byte) : account :=
  match load s a with
  | Some o => mkAcct (Nonce (data o)) (cview o) (sview o) (suicided o)
  | None => noAccount
  end.

Definition account_eq (x y : account) : Prop :=
  a_nonce x = a_nonce y /\ a_code x = a_code y /\ (forall k, a_storage x k = a_storage y k) /\
  a_suicided x = a_suicided y.

(** The specification of the operations: each one changes one account. *)
Definition spec_step (o : op) (exists_ : bool) (x : account) : account :=
  match o with
  | OpCreateAccount _ => noAccount
  | OpSetNonce _ n => mkAcct n (a_code x) (a_storage x) (a_suicided x)
  | OpSetCode _ c => mkAcct (a_nonce x) c (a_storage x) (a_suicided x)
  | OpSetState _ k v => mkAcct (a_nonce x) (a_code x)
      (fun k' => if decide (k' = k) then v else a_storage x k') (a_suicided x)
  | OpSuicide _ => if exists_ then mkAcct (a_nonce x) (a_code x) (a_storage x) true else x
  | _ => x
  end.

Definition op_account (o : op) : option (list byte) :=
  match o with
  | OpCreateAccount a | OpSetNonce a _ | OpSetCode a _ | OpSetState a _ _ | OpSuicide a => Some a
  | _ => None
  end.

Lemma cview_fresh a : cview (freshObject a) = None.
Proof. unfold cview. simpl. by rewrite bool_decide_true. Qed.

Lemma sview_fresh a k : sview (freshObject a) k = zeroHash.
Proof.
  unfold sview. simpl. rewrite lookup_empty. unfold strie. simpl.
  destruct (OpenStorageTrie_zero (BytesToHash (Keccak256 a))) as (t & -> & _ & Hv).
  unfold tread. rewrite Hv. simpl. by rewrite decodeHash_nil.
Qed.

Lemma account_of_target s a : account_eq (account_of s a)
  (mkAcct (Nonce (data (target s a))) (cview (target s a)) (sview (target s a)) (suicided (target s a))).
Proof.
  unfold account_of, target. destruct (load s a) as [o|]; simpl; [done|].
  split_and!; try done; simpl; [by rewrite cview_fresh|intros k; by rewrite sview_fresh].
Qed.

(** A setter whose effect on the object it targets is known. *)
Lemma sets_account s a m P x' : sets s a m P ->
  (forall o, P o -> account_eq (mkAcct (Nonce (data o)) (cview o) (sview o) (suicided o)) x') ->
  exists s', m s = Ok ((), s') /\ Inv s' /\ account_eq (account_of s' a) x' /\
    forall b, b <> a -> account_of s' b = account_of s b.
Proof.
  intros (s' & Hm & (Hi & _) & Hoth & o & Hl & _ & HP) Hx. exists s'. split; [done|]. split; [done|]. split.
  - unfold account_of. rewrite Hl. by apply Hx.
  - intros b Hb. unfold account_of. by rewrite Hoth.
Qed.

Lemma state_eq_account s s' a : state_eq s s' -> account_eq (account_of s a) (account_of s' a).
Proof.
  intros [Hl _ _ _ _ _]. specialize (Hl a). unfold account_of.
  destruct (load s a), (load s' a); simpl in Hl; try done. by destruct Hl.
Qed.

Definition known s (a : list byte) : bool := match load s a with Some _ => true | None => false end.

(** The state after [o] says of [b] what the specification says. *)
Definition implements (o : op) s s' : Prop :=
  forall b, account_eq (account_of s' b)
    (if decide (op_account o = Some b) then spec_step o (known s b) (account_of s b) else account_of s b).

Lemma implements_one o s s' a : op_account o = Some a ->
  account_eq (account_of s' a) (spec_step o (known s a) (account_of s a)) ->
  (forall b, b <> a -> account_of s' b = account_of s b) -> implements o s s'.
Proof.
  intros Ho Ha Hb b. case_decide as Hd; [by simplify_eq|]. rewrite Hb; [done|congruence].
Qed.

Lemma implements_none o s s' : op_account o = None -> state_eq s' s -> implements o s s'.
Proof. intros Ho He b. rewrite decide_False by congruence. by apply state_eq_account. Qed.

Lemma exec_write s o a : Inv s -> op_account o = Some a ->
  exists s', exec o s = Ok ((), s') /\ Inv s' /\ implements o s s'.
Proof.
  intros Hi Ho. pose proof (account_of_target s a) as (Tn & Tc & Ts & Tsu). simpl in *.
  destruct o; simpl in Ho; try done; injection Ho as ->.
  - edestruct (sets_account s a _ _ noAccount (CreateAccount_sets s a Hi)) as (s' & He & Hi' & Ha & Hb).
    { intros o ->. split_and!; try done; [apply cview_fresh|apply sview_fresh]. }
    exists s'. split_and!; try done. by apply implements_one with a.
  - edestruct (sets_account s a _ _ (spec_step (OpSetNonce a n) true (account_of s a)) (SetNonce_sets s a n Hi)) as (s' & He & Hi' & Ha & Hb).
    { intros o (? & ? & ? & Hs & ?). split_and!; simpl; congruence || (intros k; by rewrite Hs). }
    exists s'. split_and!; try done. by apply implements_one with a.
  - edestruct (sets_account s a _ _ (spec_step (OpSetCode a c) true (account_of s a)) (SetCode_sets s a c Hi)) as (s' & He & Hi' & Ha & Hb).
    { intros o (? & ? & ? & Hs & ?). split_and!; simpl; congruence || (intros k; by rewrite Hs). }
    exists s'. split_and!; try done. by apply implements_one with a.
  - edestruct (sets_account s a _ _ (spec_step (OpSetState a k v) true (account_of s a)) (SetState_sets s a k v Hi)) as (s' & He & Hi' & Ha & Hb).
    { intros o (? & ? & ? & Hs & ?). split_and!; simpl; try congruence.
      intros k'. rewrite Hs. by case_decide. }
    exists s'. split_and!; try done. by apply implements_one with a.
  - destruct (Suicide_undoable s a Hi) as (s' & He & (Hi' & _) & Hb & Ha). exists s'.
    split; [simpl; unfold mbind, M_bind; by rewrite He|]. split; [done|].
    apply implements_one with a; [done| |intros b Hne; unfold account_of; by rewrite Hb].
    unfold account_of, known. destruct (load s' a) as [o'|], (load s a) as [o|]; simpl in *; subst; done.
Qed.

Lemma exec_other s o : Inv s -> op_account o = None ->
  exists s', exec o s = Ok ((), s') /\ Inv s' /\ implements o s s'.
Proof.
  intros Hi Ho.
  assert (forall (s' : St), exec o s = Ok ((), s') ->
    (forall b, load s' b = load s b) -> exists s', exec o s = Ok ((), s') /\ Inv s' /\ implements o s s') as Hsame.
  { intros s' He Hl. destruct (exec_undoable s o Hi) as (? & He' & (Hi' & _)). rewrite He in He'. injection He' as <-.
    exists s'. split_and!; try done. intros b. rewrite decide_False by congruence.
    unfold account_of. by rewrite Hl. }
  assert (forall q, (forall v s', ask q s = Ok (v, s') -> exec o s = Ok ((), s')) ->
    exists s', exec o s = Ok ((), s') /\ Inv s' /\ implements o s s') as Hask.
  { intros q Hx. destruct (ask_spec s q Hi) as (s' & Hq & (Hi' & _) & He). exists s'.
    split; [by eapply Hx|]. split; [done|]. by apply implements_none. }
  destruct o; simpl in Ho; try done; try (eapply Hsame; [done|]; intros b; simpl; done).
  - eapply Hsame; [done|]. intros b. simpl. by destruct (preimages s !! h).
  - apply (Hask (QNonce a)). intros v s'. simpl. unfold mbind, M_bind. by destruct (GetNonce a s) as [[]| | |]; intros [= _ <-].
  - apply (Hask (QState a k)). intros v s'. simpl. unfold mbind, M_bind. by destruct (GetState a k s) as [[]| | |]; intros [= _ <-].
  - apply (Hask (QCode a)). intros v s'. simpl. unfold mbind, M_bind. by destruct (GetCode a s) as [[]| | |]; intros [= _ <-].
Qed.

(** ** Claims *)

(** C9: snapshots.  Take a snapshot after any sequence of operations, snapshots
    and reverts, run any further sequence after which the identifier is still
    valid, and revert to it: the revert succeeds, the journal and the list of
    revisions are those of the snapshot, and every query is answered as it was
    answered when the snapshot was taken. *)
Theorem snapshot_revert s0 cs1 s id s1 cs2 s2 :
  Inv s0 -> validRevisions s0 = [] ->
  run cs1 s0 = Ok ((), s) -> Snapshot s = Ok (id, s1) -> run cs2 s1 = Ok ((), s2) ->
  id ∈ map rev_id (validRevisions s2) ->
  exists r, RevertToSnapshot id s2 = Ok ((), r) /\
    journal r = journal s /\ validRevisions r = validRevisions s /\ state_eq r s /\
    forall q, exists v r' s', ask q r = Ok (v, r') /\ ask q s = Ok (v, s').
Proof.
  intros Hi0 Hv0 Hr1 Hsn Hr2 Hid.
  destruct (run_history cs1 s0 [] s (history_base _ Hi0 Hv0) Hr1) as (stk & Hh & _).
  pose proof (history_take _ _ _ _ Hh Hsn) as Hh1.
  destruct (run_history cs2 s1 _ s2 Hh1 Hr2) as (stk2 & Hh2 & _ & Hold).
  apply (history_valid _ _ _ Hh2) in Hid as (g & Hin).
  assert (g = s) as ->.
  { destruct (history_ids _ _ Hh) as (_ & Hlt & _). injection Hsn as <- <-.
    pose proof (Hold _ _ Hin ltac:(simpl; lia)) as [[= ->]|Hin']%elem_of_cons; [done|].
    rewrite Forall_forall in Hlt. apply (list_elem_of_fmap_2 fst), Hlt in Hin'. simpl in Hin'. lia. }
  destruct (revert_valid _ _ _ _ Hh2 Hin) as (r & stk' & Hr & Hl & _). exists r.
  split; [done|]. destruct Hl as [Hse Hir Hj Hv _]. split_and!; try done. intros q.
  destruct (ask_spec r q Hir) as (r' & Hq & _), (ask_spec s q (history_inv _ _ Hh)) as (s' & Hq' & _).
  exists (answer_of s q), r', s'. by rewrite <- (state_eq_answers r s q Hse) at 1.
Qed.

(** after any sequence of commands, the next command succeeds, unless it is
    a revert to an identifier that is not valid, which panics. *)
Theorem run_progress s0 cs s c :
  Inv s0 -> validRevisions s0 = [] -> run cs s0 = Ok ((), s) ->
  Inv s /\
  ((exists s', run_cmd c s = Ok ((), s')) <->
   ~ (exists id, c = RevertTo id /\ id ∉ map rev_id (validRevisions s))) /\
  ((exists id, c = RevertTo id /\ id ∉ map rev_id (validRevisions s)) -> run_cmd c s = Panic).
Proof.
  intros Hi0 Hv0 Hr. destruct (run_history cs s0 [] s (history_base _ Hi0 Hv0) Hr) as (stk & Hh & _).
  assert ((exists id, c = RevertTo id /\ id ∉ map rev_id (validRevisions s)) -> run_cmd c s = Panic) as Hp.
  { intros (id & -> & Hid). by apply revert_invalid with stk. }
  split; [by apply history_inv in Hh|]. split; [|done]. split.
  - intros (s' & Hs') Hex. by rewrite Hp in Hs'.
  - intros Hn. destruct (run_cmd_history s stk c Hh) as [(s' & stk' & Hc & _)|(id & Hc & Hid & _)]; [by exists s'|].
    destruct Hn. by exists id.
Qed.

(** C29: the operations implement the specification [spec_step] on accounts: each
    succeeds, keeps the invariant, changes the account it names as specified and
    leaves what the state says of every other address as it was. *)
Theorem exec_refines s o : Inv s ->
  exists s', exec o s = Ok ((), s') /\ Inv s' /\ implements o s s'.
Proof.
  intros Hi. destruct (op_account o) as [a|] eqn:Ho; [by apply exec_write with a|by apply exec_other].
Qed.

End History.

(** ** Examples *)

Definition addr1 : list byte := replicate 19 0 ++ [1].
Definition key1 : list byte := replicate 31 0 ++ [1].
Definition val1 : list byte := replicate 31 0 ++ [42].

Definition before_cmds : list cmd := [Do (OpSetNonce addr1 3); TakeSnapshot; Do (OpSetState addr1 key1 val1)].
Definition after_cmds : list cmd :=
  [Do (OpSuicide addr1); TakeSnapshot; Do (OpCreateAccount addr1); Do (OpAddRefund 5); RevertTo 2;
   Do (OpSetCode addr1 (Some [1; 2]))].

Definition run_on (cs : list cmd) (s : StateDB unit memTrie) : StateDB unit memTrie :=
  match run cs s with Ok (_, s') => s' | _ => s end.

Lemma snapshot_revert_witness : exists r,
  RevertToSnapshot 1 (run_on (TakeSnapshot :: after_cmds) (run_on before_cmds memState)) = Ok ((), r) /\
  validRevisions r = [mkRevision 0 2].
Proof.
  destruct (snapshot_revert memState before_cmds (run_on before_cmds memState) 1
    (run_on [TakeSnapshot] (run_on before_cmds memState)) after_cmds
    (run_on (TakeSnapshot :: after_cmds) (run_on before_cmds memState)) memState_Inv eq_refl)
    as (r & Hr & _ & Hv & _).
  - vm_compute. reflexivity.
  - vm_compute. reflexivity.
  - vm_compute. reflexivity.
  - apply list_elem_of_In. vm_compute. auto.
  - exists r. split; [exact Hr|]. rewrite Hv. vm_compute. reflexivity.
Defined.

Lemma run_progress_witness : run_cmd (RevertTo 7) (run_on before_cmds memState) = Panic.
Proof.
  refine (proj2 (proj2 (run_progress memState before_cmds (run_on before_cmds memState) (RevertTo 7)
    memState_Inv eq_refl _)) _).
  - vm_compute. reflexivity.
  - exists 7. split; [reflexivity|]. rewrite list_elem_of_In. vm_compute. intros [|[]]; discriminate.
Defined.

Lemma exec_refines_witness : exists s',
  exec (OpSetState addr1 key1 val1) memState = Ok ((), s') /\ a_storage (account_of s' addr1) key1 = val1.
Proof.
  destruct (exec_refines memState (OpSetState addr1 key1 val1) memState_Inv) as (s' & He & _ & Hs).
  exists s'. split; [exact He|]. destruct (Hs addr1) as (_ & _ & Hst & _). rewrite Hst. vm_compute. reflexivity.
Defined.
