(* ===== verification/StateFlush.v ===== *)
(** * Flushing an account's storage

    [updateTrie] and [updateRoot] of core/state/state_object.go write the dirty
    storage entries of an object into its storage trie.  The theorem shows that
    nothing is lost: after the flush the trie alone answers every slot as the
    object did, and the object answers as before. *)

From stdpp Require Import base gmap list.
From S2P Require Import Prelude Types TrieIface StateObject StateDB StateView StateInstance.
Local Open Scope Z_scope.

Section Flush.
Context {E T : Type} `{StateEnvLaws E T}.

Abbreviation Obj := (stateObject E T).
Implicit Types (o : Obj) (t : T).

(** The two storage maps of an object: dirty entries are cached, and the other
    cached entries are what the storage trie holds. *)
Record storage_ok o : Prop := {
  sk_dirty k v : dirtyStorage o !! k = Some v -> cachedStorage o !! k = Some v;
  sk_clean k v : cachedStorage o !! k = Some v -> dirtyStorage o !! k = None -> tread (strie o) k = v;
  sk_len k v : cachedStorage o !! k = Some v -> length v = 32%nat;
}.

Lemma sview_dirty o k v : storage_ok o -> dirtyStorage o !! k = Some v -> sview o k = v.
Proof. intros Hs Hd. unfold sview. by rewrite (sk_dirty _ Hs _ _ Hd). Qed.

Lemma sview_clean o k : storage_ok o -> dirtyStorage o !! k = None -> sview o k = tread (strie o) k.
Proof.
  intros Hs Hd. unfold sview. destruct (cachedStorage o !! k) as [v|] eqn:Hc; [|done].
  by rewrite (sk_clean _ Hs _ _ Hc Hd).
Qed.

Lemma tread_length (t : option T) k : length (tread t k) = 32%nat.
Proof.
  unfold tread. destruct (decodeHash _) as [h|] eqn:Hd; simpl; [|done]. by apply decodeHash_length in Hd.
Qed.

Lemma sview_length o k : storage_ok o -> length (sview o k) = 32%nat.
Proof.
  intros Hs. unfold sview. destruct (cachedStorage o !! k) as [v|] eqn:Hc; [by apply (sk_len _ Hs) in Hc|].
  apply tread_length.
Qed.

(** ** The loop of [updateTrie] *)

Definition flush_loop (kvs : list (Hash * Hash)) (to : T * Obj) : outcome (stateErr E) (T * Obj) :=
  foldr (fun kv acc => '(t, o) ← acc; updateTrie_entry kv.1 kv.2 t o) (Ok to) kvs.

Definition undirty (ks : list Hash) o : Obj :=
  with_storage o (cachedStorage o) (foldr base.delete (dirtyStorage o) ks).

Lemma updateTrie_entry_spec k v t o : t_ok t -> length v = 32%nat -> exists t',
  updateTrie_entry k v t o = Ok (t', undirty [k] o) /\ t_ok t' /\ tread (Some t') k = v /\
  forall k', k' <> k -> t_view t' k' = t_view t k'.
Proof.
  intros Ht Hv. unfold updateTrie_entry, undirty. simpl. case_bool_decide as Hz.
  - destruct (tDelete_ok t k Ht) as (t' & -> & Ht' & Hview). exists t'. split; [done|]. split; [done|]. split.
    + unfold tread. rewrite Hview, decide_True by done. simpl. rewrite decodeHash_nil. by subst v.
    + intros k' Hk. by rewrite Hview, decide_False.
  - destruct (tUpdate_ok t k (encodeHash v) Ht) as (t' & -> & Ht' & Hview). exists t'. split; [done|]. split; [done|].
    pose proof (decodeHash_encodeHash v Hv) as Hde. split.
    + unfold tread. rewrite Hview, decide_True by done.
      destruct (decide (encodeHash v = [])) as [Hn|]; simpl; [|by rewrite Hde].
      rewrite Hn, decodeHash_nil in Hde. done.
    + intros k' Hk. by rewrite Hview, decide_False.
Qed.

Lemma undirty_cons k ks o : undirty [k] (undirty ks o) = undirty (k :: ks) o.
Proof. done. Qed.

Lemma flush_loop_spec kvs t o : t_ok t -> NoDup (fst <$> kvs) -> Forall (fun kv => length kv.2 = 32%nat) kvs ->
  exists t', flush_loop kvs (t, o) = Ok (t', undirty (fst <$> kvs) o) /\ t_ok t' /\
  (forall k v, (k, v) ∈ kvs -> tread (Some t') k = v) /\
  forall k, k ∉ (fst <$> kvs) -> t_view t' k = t_view t k.
Proof.
  intros Ht. induction kvs as [|[k v] kvs IH]; simpl; intros Hnd Hlen.
  { exists t. split_and!; try done; [by destruct o|]. by intros k v ?%not_elem_of_nil. }
  apply NoDup_cons in Hnd as [Hk Hnd]. apply Forall_cons in Hlen as [Hv Hlen].
  destruct (IH Hnd Hlen) as (t1 & Hrun & Ht1 & Hin & Hout). 
  change (flush_loop ((k, v) :: kvs) (t, o)) with ('(t', o') ← flush_loop kvs (t, o); updateTrie_entry k v t' o').
  rewrite Hrun. simpl.
  destruct (updateTrie_entry_spec k v t1 (undirty (fst <$> kvs) o) Ht1 Hv) as (t2 & He & Ht2 & Hkv & Hoth).
  exists t2. split; [exact He|]. split; [done|]. split.
  - intros k' v' [[= -> ->]|Hel]%elem_of_cons; [done|].
    assert (k' <> k) by (intros ->; apply Hk; by apply (list_elem_of_fmap_2 fst) in Hel).
    rewrite <- (Hin k' v' Hel). unfold tread. by rewrite Hoth.
  - intros k' [Hne Hnin]%not_elem_of_cons. rewrite Hoth by done. by apply Hout.
Qed.

Lemma foldr_delete_keys (m : gmap Hash Hash) : foldr base.delete m (fst <$> map_to_list m) = ∅.
Proof.
  assert (forall (ks : list Hash) k, (k ∈ ks \/ m !! k = None) -> foldr base.delete m ks !! k = None) as Hl.
  { intros ks k. induction ks as [|k0 ks IH]; simpl; [by intros [?%not_elem_of_nil|]|].
    intros Hk. destruct (decide (k0 = k)) as [->|Hne]; [apply lookup_delete_eq|].
    rewrite lookup_delete_ne by done. apply IH. destruct Hk as [[->|?]%elem_of_cons|?]; auto. done. }
  apply map_empty. intros k. apply Hl. destruct (m !! k) as [v|] eqn:Hm; [left|by right].
  apply list_elem_of_fmap. exists (k, v). split; [done|by apply elem_of_map_to_list].
Qed.

(** ** The flush *)

Lemma flush_ok o o1 t : storage_ok o -> strie o = Some t -> t_ok t -> dirtyStorage o1 = dirtyStorage o ->
  exists t', flush_loop (map_to_list (dirtyStorage o1)) (t, o1) = Ok (t', with_storage o1 (cachedStorage o1) ∅) /\
    t_ok t' /\ forall k, tread (Some t') k = sview o k.
Proof.
  intros Hs Hst Ht Hd1. rewrite Hd1.
  destruct (flush_loop_spec (map_to_list (dirtyStorage o)) t o1 Ht) as (t' & Hr & Ht' & Hin & Hout).
  { apply NoDup_fst_map_to_list. }
  { apply Forall_forall. intros [k v] Hel%elem_of_map_to_list. simpl. by apply (sk_len _ Hs k), sk_dirty. }
  exists t'. rewrite Hr. split; [|split; [done|]].
  { unfold undirty. by rewrite Hd1, foldr_delete_keys. }
  intros k. destruct (dirtyStorage o !! k) as [v|] eqn:Hd.
  - rewrite (sview_dirty o k v Hs Hd). apply Hin. by apply elem_of_map_to_list.
  - rewrite (sview_clean o k Hs Hd), Hst. unfold tread. rewrite Hout; [done|].
    intros ([k0 v] & Heq & Hel%elem_of_map_to_list)%list_elem_of_fmap. simpl in *. congruence.
Qed.

(** What a flushed object is: nothing dirty, and a storage trie that answers
    every slot as [o] does. *)
Record flushed o o' : Prop := {
  fl_same : same_obj o' o;
  fl_ok : obj_ok o';
  fl_storage : storage_ok o';
  fl_dirty : dirtyStorage o' = ∅;
  fl_trie : exists t', obj_trie o' = Some t' /\ forall k, tread (Some t') k = sview o k;
  fl_rest : deleted o' = deleted o /\ onDirty o' = onDirty o /\ CodeHash (data o') = CodeHash (data o) /\
    cachedStorage o' = cachedStorage o /\ code o' = code o;
}.

Lemma flushed_intro o o' t' : obj_ok o -> storage_ok o -> t_ok t' -> (forall k, tread (Some t') k = sview o k) ->
  address o' = address o -> addrHash o' = addrHash o -> Nonce (data o') = Nonce (data o) ->
  CodeHash (data o') = CodeHash (data o) -> code o' = code o -> suicided o' = suicided o -> deleted o' = deleted o ->
  onDirty o' = onDirty o -> cachedStorage o' = cachedStorage o -> dirtyStorage o' = ∅ -> obj_trie o' = Some t' ->
  flushed o o'.
Proof.
  intros Hok Hs Ht' Hv Ha Hah Hn Hc Hcode Hsu Hde Hon Hca Hdi Htr.
  assert (codeHashBytes (data o') = codeHashBytes (data o)) as Hcb by (unfold codeHashBytes; by rewrite Hc).
  assert (strie o' = Some t') as Hst by (unfold strie; by rewrite Htr).
  split; try done; try congruence.
  - split; try congruence.
    + unfold cview. by rewrite Hcode, Hah, Hcb.
    + intros k. unfold sview at 1. rewrite Hca. destruct (cachedStorage o !! k) as [v|] eqn:Hk.
      * unfold sview. by rewrite Hk.
      * by rewrite Hst, Hv.
  - split; [intros t; congruence|]. rewrite Hcb. apply Hok.
  - split; rewrite ?Hdi, ?Hca.
    + intros k v. by rewrite lookup_empty.
    + intros k v Hk _. rewrite Hst, Hv. unfold sview. by rewrite Hk.
    + apply Hs.
  - by exists t'.
Qed.

Lemma updateTrie_spec o : obj_ok o -> storage_ok o -> exists o', updateTrie o = Ok o' /\ flushed o o' /\ data o' = data o.
Proof.
  intros Hok Hs. unfold updateTrie. destruct (getTrie_spec o Hok) as (t & o1 & -> & Hst & Ht & e & Ho1).
  assert (address o1 = address o /\ addrHash o1 = addrHash o /\ data o1 = data o /\ code o1 = code o /\
          suicided o1 = suicided o /\ deleted o1 = deleted o /\ onDirty o1 = onDirty o /\
          cachedStorage o1 = cachedStorage o /\ dirtyStorage o1 = dirtyStorage o)
    as (? & ? & Hd & ? & ? & ? & ? & ? & Hdi).
  { unfold obj_setError in Ho1. destruct (obj_dbErr (with_trie o (Some t))); by destruct Ho1 as [-> | [-> | ->]]. }
  destruct (flush_ok o o1 t Hs Hst Ht Hdi) as (t' & Hr & Ht' & Hv).
  unfold flush_loop in Hr. simpl. rewrite Hr. simpl.
  eexists. split; [done|]. split; [|done]. apply flushed_intro with t'; simpl; try done; congruence.
Qed.

(** [updateRoot] flushes and stores the root hash of the storage trie. *)
Lemma updateRoot_spec o : obj_ok o -> storage_ok o -> exists o', updateRoot o = Ok o' /\ flushed o o' /\
  length (Root (data o')) = 32%nat.
Proof.
  intros Hok Hs. unfold updateRoot. destruct (updateTrie_spec o Hok Hs) as (o1 & -> & Hf & Hd). simpl.
  destruct (fl_trie _ _ Hf) as (t & Ht & Hv). rewrite Ht. simpl.
  destruct (tHash_ok t) as (Hlen & Hok' & Hview); [by apply (fl_ok _ _ Hf)|].
  destruct (tHash t) as [h t'] eqn:Hh. simpl in *. eexists. split; [done|]. split; [|done].
  destruct (fl_rest _ _ Hf) as (? & ? & ? & ? & ?). destruct Hf as [[] ? _ ? _ _].
  apply flushed_intro with t'; simpl; try done.
  intros k. rewrite <- Hv. unfold tread. by rewrite Hview.
Qed.

End Flush.
