(* ===== verification/StateDirty.v ===== *)
(** * The dirty set

    [Finalise], [Copy] and [CommitTo] of core/state/statedb.go look at the
    objects of [stateObjectsDirty] only.  This file shows that this is enough:
    an object outside the dirty set is still armed ([onDirty] set) and is what
    the account trie holds; a dirty address always has an object; and both
    survive every operation, snapshot and revert. *)

From stdpp Require Import base gmap list.
From S2P Require Import Prelude Types TrieIface StateObject StateDB StateView StateRevert StateInstance StateFlush StateHistory.
Local Open Scope Z_scope.

Section Dirty.
Context {E T : Type} `{StateEnvLaws E T}.

Abbreviation St := (StateDB E T).
Abbreviation Obj := (stateObject E T).
Implicit Types (s : St) (o : Obj).

(** ** Storage maps under the object's methods *)

Lemma storage_ok_ext o o' : storage_ok o -> cachedStorage o' = cachedStorage o -> dirtyStorage o' = dirtyStorage o ->
  (forall k, tread (strie o') k = tread (strie o) k) -> storage_ok o'.
Proof.
  intros [Hd Hc Hl] Ec Ed Et. split; rewrite ?Ec, ?Ed; try done. intros k v Hk Hn. rewrite Et. auto.
Qed.

Lemma storage_ok_new a d b : storage_ok (newObject a d b : Obj).
Proof. split; simpl; intros k v; by rewrite lookup_empty. Qed.

(** What reading a slot or the code leaves alone. *)
Record kept o o' : Prop := {
  kp_storage : storage_ok o';
  kp_dirty : dirtyStorage o' = dirtyStorage o;
  kp_data : data o' = data o;
  kp_flags : suicided o' = suicided o /\ deleted o' = deleted o /\ onDirty o' = onDirty o /\ address o' = address o;
}.

Lemma obj_GetState_kept o k v o' : obj_ok o -> storage_ok o -> obj_GetState o k = Ok (v, o') -> kept o o'.
Proof.
  intros Ho Hs. unfold obj_GetState. destruct (cachedStorage o !! k) as [w|] eqn:Hc.
  { intros [= <- <-]. by split. }
  destruct (getTrie_spec o Ho) as (t & o1 & -> & Hst & Hok & e & Ho1). simpl.
  destruct (tGet_ok t k Hok) as (t' & -> & Hok' & Hv). intros [= <- <-].
  assert (cachedStorage o1 = cachedStorage o /\ dirtyStorage o1 = dirtyStorage o /\ data o1 = data o /\
          address o1 = address o /\ deleted o1 = deleted o /\ suicided o1 = suicided o /\ onDirty o1 = onDirty o)
    as (Hcs & Hds & Hd & Ha & Hdel & Hsu & Hon).
  { unfold obj_setError in Ho1. destruct (obj_dbErr (with_trie o (Some t))); by destruct Ho1 as [-> | [-> | ->]]. }
  assert (forall k', tread (Some t') k' = tread (strie o) k') as Htr.
  { intros k'. rewrite Hst. unfold tread. by rewrite Hv. }
  assert (storage_ok (with_trie o1 (Some t'))) as Hs1 by (apply storage_ok_ext with o; done).
  case_bool_decide as Hz; split; simpl; auto.
  destruct Hs1 as [D C L]. split; simpl in *.
  - intros k' v' Hd'. rewrite lookup_insert_ne; [by apply D|]. intros <-. rewrite Hds in Hd'.
    by rewrite (sk_dirty _ Hs _ _ Hd') in Hc.
  - intros k' v' [[<- <-]|[_ Hk]]%lookup_insert_Some Hn; [|by apply C].
    change (tread (Some t') k = tread (Some t) k). by rewrite Htr, Hst.
  - intros k' v' [[<- <-]|[_ Hk]]%lookup_insert_Some; [|by apply L in Hk]. apply (tread_length (Some t) k).
Qed.

Lemma obj_Code_kept o c o' : storage_ok o -> obj_Code o = (c, o') -> kept o o'.
Proof.
  intros Hs. unfold obj_Code. destruct (code o); [intros [= <- <-]; by split|].
  destruct (bool_decide _); [intros [= <- <-]; by split|].
  destruct (ContractCode _ _) as [c' [e|]]; [unfold obj_setError; destruct (obj_dbErr o)|];
    intros [= <- <-]; split; try done; by apply storage_ok_ext with o.
Qed.

(** A method that writes: the object is disarmed, and its address is dirty if it
    was armed. *)
Definition writes (f : Obj -> gset Address -> Obj * gset Address) : Prop :=
  forall o d, obj_ok o -> storage_ok o ->
    storage_ok (f o d).1 /\ obj_ok (f o d).1 /\ address (f o d).1 = address o /\ deleted (f o d).1 = deleted o /\
    onDirty (f o d).1 = false /\ (f o d).2 = if onDirty o then {[address o]} ∪ d else d.

Lemma writes_fire (g : Obj -> Obj) :
  (forall o, obj_ok o -> storage_ok o -> storage_ok (g o) /\ obj_ok (g o) /\ address (g o) = address o /\
     deleted (g o) = deleted o /\ onDirty (g o) = onDirty o) ->
  writes (fun o d => fireDirty (g o) d).
Proof.
  intros Hg o d Ho Hs. destruct (Hg o Ho Hs) as (Hs' & Ho' & Ha & Hd & Hon). unfold fireDirty. rewrite Hon.
  destruct (onDirty o) eqn:Eon; simpl; [|by split_and!].
  split_and!; try done; [by apply storage_ok_ext with (g o)|by destruct Ho'; split|by rewrite Ha].
Qed.

Lemma writes_setNonce n : writes (fun o d => obj_setNonce o d n).
Proof.
  apply (writes_fire (fun o => _)). intros o Ho Hs. split_and!; try done; [by apply storage_ok_ext with o|by destruct Ho].
Qed.

Lemma writes_setCode h c : length h = 32%nat -> writes (fun o d => obj_setCode o d h c).
Proof.
  intros Hh. apply (writes_fire (fun o => _)). intros o Ho Hs.
  split_and!; try done; [by apply storage_ok_ext with o|by destruct Ho].
Qed.

Lemma writes_setState k v : length v = 32%nat -> writes (fun o d => obj_setState o d k v).
Proof.
  intros Hv. apply (writes_fire (fun o => _)). intros o Ho [D C L]. split_and!; try done; [|by destruct Ho].
  split; simpl.
  - intros k' v'. rewrite !lookup_insert. case_decide; auto.
  - intros k' v'. rewrite !lookup_insert. case_decide; [done|]. apply C.
  - intros k' v'. rewrite lookup_insert. case_decide; [by intros [= <-]|]. apply L.
Qed.

Lemma writes_markSuicided : writes markSuicided.
Proof.
  apply (writes_fire (fun o => _)). intros o Ho Hs. split_and!; try done; [by apply storage_ok_ext with o|by destruct Ho].
Qed.

(** ** The invariant *)

(** An object the account trie already holds, ready to report its first write. *)
Definition clean (t : T) (a : Address) o : Prop :=
  onDirty o = true /\ deleted o = false /\ suicided o = false /\ dirtyStorage o = ∅ /\
  exists o0, tload t a = Some o0 /\ data o = data o0.

Definition alive s (a : Address) : Prop :=
  a ∈ stateObjectsDirty s /\ exists o, stateObjects s !! a = Some o /\ deleted o = false.

(** What undoing the entries, newest first, relies on: [D] are the addresses that
    are dirty and have an object. *)
Fixpoint good (l : list (journalEntry E T)) (D : Address -> Prop) : Prop :=
  match l with
  | [] => True
  | e :: l =>
      match e with
      | createObjectChange a => good l (fun b => D b /\ b <> a)
      | resetObjectChange p => D (address p) /\ storage_ok p /\ obj_ok p /\ deleted p = false /\ good l D
      | suicideChange a _ => D a /\ good l D
      | storageChange _ _ v => length v = 32%nat /\ good l D
      | touchChange _ _ _ => False
      | _ => good l D
      end
  end.

Lemma good_mono l (D D' : Address -> Prop) : (forall a, D a -> D' a) -> good l D -> good l D'.
Proof.
  revert D D'. induction l as [|e l IH]; intros D D' Hm; simpl; [done|].
  destruct e; try done; try (by apply IH).
  - apply IH. intros b [Hb Hne]. auto.
  - intros (? & ? & ? & ? & ?). split_and!; try done; [by apply Hm|by apply IH with D].
  - intros (? & ?). split; [by apply Hm|by apply IH with D].
  - intros (? & ?). split; [done|by apply IH with D].
Qed.

Record tracked s (l : list (journalEntry E T)) : Prop := {
  tr_dirty a : a ∈ stateObjectsDirty s -> exists o, stateObjects s !! a = Some o;
  tr_clean a o : stateObjects s !! a = Some o -> a ∉ stateObjectsDirty s -> clean (trie s) a o;
  tr_deleted a o : stateObjects s !! a = Some o -> deleted o = true -> suicided o = true \/ empty o = true;
  tr_storage a o : stateObjects s !! a = Some o -> storage_ok o;
  tr_journal : good l (alive s);
}.

(** [tracked] reads the objects, the dirty set and what the trie answers. *)
Lemma tracked_ext s s' l : tracked s l -> stateObjects s' = stateObjects s ->
  stateObjectsDirty s' = stateObjectsDirty s -> (forall a, tload (trie s') a = tload (trie s) a) -> tracked s' l.
Proof.
  intros [D C De S J] Eo Ed Et. split; rewrite ?Eo, ?Ed; try done.
  - intros a o Ha Hn. destruct (C a o Ha Hn) as (? & ? & ? & ? & o0 & Hl & ?).
    split_and!; try done. exists o0. by rewrite Et.
  - eapply good_mono; [|exact J]. unfold alive. by rewrite Eo, Ed.
Qed.

(** Replacing the object at [a] by a live one. *)
Lemma tracked_put s l a o od : tracked s l -> Inv s -> stateObjects s !! a = Some o -> deleted o = false ->
  address od.1 = a -> deleted od.1 = false -> storage_ok od.1 ->
  stateObjectsDirty s ⊆ od.2 -> od.2 ⊆ {[a]} ∪ stateObjectsDirty s -> (a ∉ od.2 -> clean (trie s) a od.1) ->
  tracked (put_dirty s od) l.
Proof.
  intros [D C De S J] Hi Ho Hdo Ha Hd Hs Hsub Hsup Hcl. unfold put_dirty, st_objects.
  split; simpl; rewrite ?Ha.
  - intros b Hb. destruct (decide (b = a)) as [->|]; [eexists; apply lookup_insert_eq|].
    rewrite lookup_insert_ne by done. apply D. specialize (Hsup b Hb). set_solver.
  - intros b o' [[<- <-]|[Hne Hb]]%lookup_insert_Some Hn; [by apply Hcl|]. apply C; [done|set_solver].
  - intros b o' [[<- <-]|[Hne Hb]]%lookup_insert_Some; intros Hdel; [congruence|exact (De b o' Hb Hdel)].
  - intros b o' [[<- <-]|[Hne Hb]]%lookup_insert_Some; [done|by apply S in Hb].
  - eapply good_mono; [|exact J]. intros b [Hbd (ob & Hob & Hdb)]. split; simpl; [set_solver|].
    destruct (decide (b = a)) as [->|]; [exists od.1; by rewrite lookup_insert_eq|].
    exists ob. by rewrite lookup_insert_ne.
Qed.

Lemma put_setStateObject s o : setStateObject s o = put_dirty s (o, stateObjectsDirty s).
Proof. done. Qed.

(** Putting back an object after a read. *)
Lemma tracked_putback s l a o o' : tracked s l -> Inv s -> stateObjects s !! a = Some o -> deleted o = false ->
  kept o o' -> tracked (setStateObject s o') l.
Proof.
  intros Ht Hi Ho Hd [Ks Kd Kda (Ksu & Kde & Kon & Ka)]. rewrite put_setStateObject.
  pose proof (inv_address _ Hi _ _ Ho) as Ha.
  apply tracked_put with a o; simpl; try done; try congruence; [set_solver|].
  intros Hn. destruct (tr_clean _ _ Ht a o Ho Hn) as (? & ? & ? & ? & o0 & ? & ?).
  split_and!; try congruence. exists o0. split; congruence.
Qed.

(** A write through the object found at [a]. *)
Lemma tracked_write s l a o o' f : tracked s l -> Inv s -> stateObjects s !! a = Some o -> deleted o = false ->
  obj_ok o' -> kept o o' -> writes f ->
  let s' := put_dirty s (f o' (stateObjectsDirty s)) in tracked s' l /\ alive s' a.
Proof.
  intros Ht Hi Ho Hd Hok' [Ks Kd Kda (Ksu & Kde & Kon & Ka)] Hf. simpl.
  destruct (Hf o' (stateObjectsDirty s) Hok' Ks) as (Hs & _ & Hfa & Hfd & Hfon & Hdirty).
  pose proof (inv_address _ Hi _ _ Ho) as Ha.
  assert (a ∈ (f o' (stateObjectsDirty s)).2) as Hin.
  { rewrite Hdirty. destruct (onDirty o') eqn:Hon; [set_solver|].
    destruct (decide (a ∈ stateObjectsDirty s)) as [|Hn]; [done|].
    destruct (tr_clean _ _ Ht a o Ho Hn) as (? & _). congruence. }
  split; [|split].
  - apply tracked_put with a o; try done; try congruence; rewrite Hdirty; destruct (onDirty o'); set_solver.
  - done.
  - simpl. rewrite Hfa, Ka, Ha. eexists. rewrite lookup_insert_eq. split; [done|congruence].
Qed.

(** ** Operations *)

Lemma tracked_get s l a : Inv s -> tracked s l -> exists s',
  getStateObject a s = Ok (load s a, s') /\ Inv s' /\ tracked s' l /\ loaded s s' /\
  (forall o, load s a = Some o -> stateObjects s' !! a = Some o /\ deleted o = false).
Proof.
  intros Hi Ht. destruct (getStateObject_spec s a Hi) as (s' & Hg & Hi' & Hl & Hfound).
  exists s'. split_and!; try done.
  2:{ intros o Ho. split; [by apply Hfound|]. by destruct (load_ok _ _ _ Hi Ho) as (_ & _ & ?). }
  unfold getStateObject in Hg. destruct (stateObjects s !! a) as [o|] eqn:Ea; [by injection Hg as _ <-|].
  destruct (tGet_ok (trie s) a (inv_trie _ Hi)) as (t' & Et & _ & Hv). rewrite Et in Hg.
  assert (tracked (st_trie s t') l) as Ht'.
  { apply tracked_ext with s; try done. intros b. apply tload_view. simpl. intros k. by rewrite Hv. }
  destruct (length _ =? 0)%nat; [by injection Hg as _ <-|].
  destruct (decodeAccount _) as [d|] eqn:Ed; [|by injection Hg as _ <-]. injection Hg as Hlo <-.
  destruct Ht' as [D C De S J]. split; simpl in *.
  - intros b Hb. destruct (decide (b = a)) as [->|]; [eexists; apply lookup_insert_eq|].
    rewrite lookup_insert_ne by done. by apply D.
  - intros b o [[<- <-]|[_ Hb]]%lookup_insert_Some Hn; [|by apply C].
    split_and!; try done. exists (newObject a d true). split; [|done].
    rewrite Hlo. unfold load. rewrite Ea. apply tload_view. intros k. by rewrite Hv.
  - intros b o [[<- <-]|[_ Hb]]%lookup_insert_Some Hdel; [done|exact (De b o Hb Hdel)].
  - intros b o [[<- <-]|[_ Hb]]%lookup_insert_Some; [apply storage_ok_new|exact (S b o Hb)].
  - eapply good_mono; [|exact J]. intros b [Hbd (ob & Hob & Hdb)]. split; [done|]. simpl in *.
    exists ob. rewrite lookup_insert_ne; [done|congruence].
Qed.

Lemma tracked_cons s l e : tracked s l -> good (e :: l) (alive s) -> tracked s (e :: l).
Proof. by intros []. Qed.

Lemma tracked_book s l j : tracked s l -> tracked (st_journal s j) l.
Proof. intros Ht. by apply tracked_ext with s. Qed.

(** The object [createObject] installs is dirty and blank. *)
Lemma tracked_install s l a : tracked s l ->
  let s' := put_dirty s (freshObject a, {[a]} ∪ stateObjectsDirty s) in
  (forall p, load s a = Some p -> obj_ok p -> deleted p = false -> storage_ok p -> address p = a ->
     tracked s' (resetObjectChange p :: l)) /\
  (load s a = None -> tracked s' (createObjectChange a :: l)) /\ alive s' a.
Proof.
  intros [D C De S J] s'.
  assert (forall b, b <> a -> alive s b -> alive s' b) as Hal.
  { intros b Hne [Hb (o & Ho & Hd)]. split; simpl; [set_solver|]. exists o. by rewrite lookup_insert_ne. }
  assert (alive s' a) as Haa.
  { split; simpl; [set_solver|]. exists (freshObject a). by rewrite lookup_insert_eq. }
  assert (forall l', good l' (alive s') -> tracked s' l') as Htr.
  { intros l' Hg. split; simpl; try done.
    - intros b Hb. destruct (decide (b = a)) as [->|]; [eexists; apply lookup_insert_eq|].
      rewrite lookup_insert_ne by done. apply D. set_solver.
    - intros b o [[<- <-]|[_ Hb]]%lookup_insert_Some Hn; [set_solver|]. apply C; [done|set_solver].
    - intros b o [[<- <-]|[_ Hb]]%lookup_insert_Some Hdel; [done|exact (De b o Hb Hdel)].
    - intros b o [[<- <-]|[_ Hb]]%lookup_insert_Some; [|exact (S b o Hb)].
      apply storage_ok_ext with (newObject a (mkAccount 0 zeroHash None) true); done. }
  split_and!; [|..|done].
  - intros p Hp Hok Hd Hs Ha. apply Htr. simpl. rewrite Ha. split_and!; try done.
    eapply good_mono; [|exact J]. intros b Hb. destruct (decide (b = a)) as [->|]; auto.
  - intros Hl. apply Htr. simpl. eapply good_mono; [|exact J]. intros b Hb.
    assert (b <> a); [|auto]. intros ->. destruct Hb as [_ (o & Ho & Hd)]. unfold load in Hl. by rewrite Ho, Hd in Hl.
Qed.

Lemma load_storage_ok s l a o : tracked s l -> load s a = Some o -> storage_ok o.
Proof.
  intros Ht Hl. unfold load in Hl. destruct (stateObjects s !! a) as [o'|] eqn:Ho.
  - destruct (deleted o'); [done|]. injection Hl as ->. by apply (tr_storage _ _ Ht) in Ho.
  - unfold tload in Hl. destruct (default [] _); [done|]. destruct (decodeAccount _); [|done].
    injection Hl as <-. apply storage_ok_new.
Qed.

(** What the operations that write leave: the invariant, with the new entries. *)
Definition stays {A} s l (m : M E T A) : Prop :=
  exists r s' es, m s = Ok (r, s') /\ Inv s' /\ journal s' = journal s ++ es /\ tracked s' (rev es ++ l).

Lemma createObject_tracked s l a : Inv s -> tracked s l -> exists s' e,
  createObject a s = Ok ((freshObject a, load s a), s') /\ Inv s' /\ tracked s' (e :: l) /\ journal s' = journal s ++ [e] /\
  stateObjects s' !! a = Some (freshObject a).
Proof.
  intros Hi Ht. destruct (createObject_spec s a Hi) as (s' & Hc & (Hi' & _) & _).
  destruct (tracked_get s l a Hi Ht) as (t & Hg & Hit & Htt & Hlt & Hf).
  destruct (tracked_install t l a Htt) as (Hreset & Hcreate & _). rewrite (ld_load _ _ Hlt) in Hreset, Hcreate.
  destruct (loaded_book _ _ Hlt) as (Hj & _).
  exists s', (match load s a with Some p => resetObjectChange p | None => createObjectChange a end).
  split; [done|]. split; [done|]. unfold createObject, mbind, M_bind in Hc. rewrite Hg in Hc.
  injection Hc as <-. rewrite <- Hj. split; [|split; [done|apply lookup_insert_eq]].
  eapply (tracked_book (put_dirty t (freshObject a, {[a]} ∪ stateObjectsDirty t))).
  destruct (load s a) as [p|] eqn:Hl; [|by apply Hcreate].
  destruct (load_ok _ _ _ Hi Hl) as (? & ? & ?). apply Hreset; try done. by apply load_storage_ok with s l a.
Qed.

Lemma GetOrNew_tracked s l a : Inv s -> tracked s l -> exists o s' es,
  GetOrNewStateObject a s = Ok (o, s') /\ Inv s' /\ tracked s' (rev es ++ l) /\ journal s' = journal s ++ es /\
  stateObjects s' !! a = Some o /\ deleted o = false /\ obj_ok o /\ storage_ok o.
Proof.
  intros Hi Ht. unfold GetOrNewStateObject, mbind, M_bind.
  destruct (tracked_get s l a Hi Ht) as (t & -> & Hit & Htt & Hlt & Hf). destruct (loaded_book _ _ Hlt) as (Hj & _).
  destruct (load s a) as [o|] eqn:Hl.
  - destruct (Hf o eq_refl) as [Ho Hd]. rewrite Hd. exists o, t, []. rewrite app_nil_r.
    destruct (load_ok _ _ _ Hi Hl) as (? & _). split_and!; try done. by apply load_storage_ok with s l a.
  - destruct (createObject_tracked t l a Hit Htt) as (s' & e & -> & Hi' & Ht' & Hj' & Ho).
    exists (freshObject a), s', [e]. rewrite Hj in Hj'. split_and!; try done. apply freshObject_ok.
Qed.

Lemma kept_refl o : storage_ok o -> kept o o.
Proof. by split. Qed.

(** The setters: find or create the object, note the old value, write. *)
Lemma setter_tracked s l a es t o o' e f : tracked t (rev es ++ l) -> Inv t -> journal t = journal s ++ es ->
  stateObjects t !! a = Some o -> deleted o = false -> obj_ok o' -> kept o o' -> writes f ->
  (forall D, D a -> good (rev es ++ l) D -> good (e :: rev es ++ l) D) ->
  let s' := put_dirty (journal_append t e) (f o' (stateObjectsDirty t)) in
  Inv s' /\ journal s' = journal s ++ (es ++ [e]) /\ tracked s' (rev (es ++ [e]) ++ l).
Proof.
  intros Ht Hi Hj Ho Hd Hok Hk Hf He. simpl.
  assert (Inv (journal_append t e)) as Hi' by by apply Inv_journal.
  destruct (Hf o' (stateObjectsDirty t) Hok (kp_storage _ _ Hk)) as (_ & Hok2 & _ & Hd2 & _).
  destruct Hk as [? ? ? (? & Hde & ? & ?)] eqn:Hk'.
  split; [apply Inv_put; [done..|congruence]|]. split; [by rewrite Hj, app_assoc|].
  destruct (tracked_write (journal_append t e) (rev es ++ l) a o o' f) as [Htr Hal]; try done; [by apply tracked_book|].
  rewrite rev_app_distr. apply tracked_cons; [exact Htr|]. apply He; [exact Hal|]. apply Htr.
Qed.

(** The arguments Go's types enforce. *)
Definition op_ok (o : op) : Prop :=
  match o with OpSetState _ _ v => length v = 32%nat | _ => True end.

Lemma stays_get {A B} s l (m : M E T A) (k : A -> M E T B) r t : Inv t -> m s = Ok (r, t) -> journal t = journal s ->
  stays t l (k r) -> stays s l (m ≫= k).
Proof.
  intros Hi Hm Hj (r' & s' & es & Hk & Hi' & Hj' & Ht'). exists r', s', es.
  split_and!; try done; [unfold mbind, M_bind; by rewrite Hm|congruence].
Qed.

Lemma stays_ret {A} s l (x : A) : Inv s -> tracked s l -> stays s l (mret x).
Proof. intros Hi Ht. exists x, s, []. by rewrite app_nil_r. Qed.

(** An entry that says nothing about objects. *)
Lemma stays_note s l e (s' : St) : Inv s' -> tracked s l -> stateObjects s' = stateObjects s ->
  stateObjectsDirty s' = stateObjectsDirty s -> trie s' = trie s -> journal s' = journal s ++ [e] ->
  (forall D, good l D -> good (e :: l) D) -> stays s l (fun _ => Ok ((), s')).
Proof.
  intros Hi' Ht Eo Ed Et Ej He. exists (), s', [e]. split_and!; try done.
  apply tracked_cons; [apply tracked_ext with s; try done; intros a; by rewrite Et|].
  apply He. eapply good_mono; [|exact (tr_journal _ _ Ht)]. unfold alive. by rewrite Eo, Ed.
Qed.

Lemma stays_read_object {A} s l a (f : Obj -> outcome (stateErr E) (A * Obj)) (z : A) : Inv s -> tracked s l ->
  (forall o, load s a = Some o -> exists v o', f o = Ok (v, o') /\ obj_ok o' /\ kept o o') ->
  stays s l (o ← getStateObject a;
    match o with
    | None => mret z
    | Some so => '(v, so) ← lift (f so); _ ← modify (fun s => setStateObject s so); mret v
    end).
Proof.
  intros Hi Ht Hf. destruct (tracked_get s l a Hi Ht) as (t & Hg & Hit & Htt & Hlt & Hfo).
  eapply stays_get; [exact Hit|exact Hg|by apply loaded_book in Hlt as (-> & _)|].
  destruct (load s a) as [o|] eqn:Hl; [|by apply stays_ret]. destruct (Hfo o eq_refl) as [Ho Hd].
  destruct (Hf o eq_refl) as (v & o' & Hrun & Hok & Hk). exists v, (setStateObject t o'), [].
  split; [unfold mbind, M_bind, lift; by rewrite Hrun|]. rewrite app_nil_r. split_and!; try done.
  - apply (Inv_put t (o', _)); try done. destruct Hk as [_ _ _ (_ & Hde & _)]. simpl. congruence.
  - by apply tracked_putback with a o.
Qed.

Lemma exec_getState s l a k : Inv s -> tracked s l -> stays s l (GetState a k).
Proof.
  intros Hi Ht. apply (stays_read_object s l a (fun so => obj_GetState so k)); try done. intros o Hl.
  destruct (load_ok _ _ _ Hi Hl) as (Ho & _). destruct (obj_GetState_spec o k Ho) as (o' & Hg & _ & Ho' & _).
  exists (sview o k), o'. split_and!; try done. apply obj_GetState_kept with k (sview o k); try done.
  by apply load_storage_ok with s l a.
Qed.

Lemma exec_getCode s l a : Inv s -> tracked s l -> stays s l (GetCode a).
Proof.
  intros Hi Ht. destruct (stays_read_object s l a (fun so => Ok (obj_Code so)) None Hi Ht) as (r & s' & es & Hr & Hrest).
  - intros o Hl. destruct (load_ok _ _ _ Hi Hl) as (Ho & _). destruct (obj_Code_spec o Ho) as (o' & Hg & _ & Ho' & _).
    exists (cview o), o'. rewrite Hg. split_and!; try done. apply obj_Code_kept with (cview o); [|done].
    by apply load_storage_ok with s l a.
  - exists r, s', es. split; [|done]. rewrite <- Hr. unfold GetCode, mbind, M_bind, lift.
    destruct (getStateObject a s) as [[[o|] t]| | |]; [|done..]. by destruct (obj_Code o).
Qed.

Lemma exec_set s l (w : op) : Inv s -> tracked s l -> op_ok w ->
  match w with OpSetNonce _ _ | OpSetCode _ _ | OpSetState _ _ _ => stays s l (exec w) | _ => True end.
Proof.
  intros Hi Ht Hop. destruct w; try done; simpl;
    destruct (GetOrNew_tracked s l a Hi Ht) as (o & t & es & Hg & Hit & Htt & Hj & Ho & Hd & Hok & Hs).
  - unfold SetNonce. eexists (), _, (es ++ [_]). split; [unfold mbind, M_bind; by rewrite Hg|].
    apply (setter_tracked s l a es t o o _ (fun o d => obj_setNonce o d n)); try done.
    apply writes_setNonce.
  - destruct (obj_Code_spec o Hok) as (o' & Hc & _ & Hok' & _).
    unfold SetCode. eexists (), _, (es ++ [_]). split; [unfold mbind, M_bind; by rewrite Hg, Hc|].
    apply (setter_tracked s l a es t o o' _ (fun o d => obj_setCode o d _ c)); try done;
      [by apply obj_Code_kept with (cview o)|apply writes_setCode, BytesToHash_length].
  - destruct (obj_GetState_spec o k Hok) as (o' & Hc & _ & Hok' & _).
    unfold SetState. eexists (), _, (es ++ [_]). split; [unfold mbind, M_bind, lift; by rewrite Hg, Hc|].
    apply (setter_tracked s l a es t o o' _ (fun o d => obj_setState o d k v)); try done.
    + by apply obj_GetState_kept with k (sview o k).
    + by apply writes_setState.
    + intros D _ HD. split; [by apply sview_length|done].
Qed.

Lemma exec_suicide s l a : Inv s -> tracked s l -> stays s l (exec (OpSuicide a)).
Proof.
  intros Hi Ht. destruct (tracked_get s l a Hi Ht) as (t & Hg & Hit & Htt & Hlt & Hf).
  destruct (loaded_book _ _ Hlt) as (Hj & _). simpl. unfold Suicide, stays, mbind, M_bind. rewrite Hg.
  destruct (load s a) as [o|] eqn:Hl; [|exists (), t, []; by rewrite app_nil_r].
  destruct (Hf o eq_refl) as [Ho Hd]. destruct (load_ok _ _ _ Hi Hl) as (Hok & _).
  eexists (), _, ([] ++ [_]). split; [done|].
  apply (setter_tracked s l a [] t o o _ markSuicided); try done; [by rewrite app_nil_r| |apply writes_markSuicided].
  apply kept_refl. by apply load_storage_ok with s l a.
Qed.

Lemma exec_tracked s l (w : op) : Inv s -> tracked s l -> op_ok w -> stays s l (exec w).
Proof.
  intros Hi Ht Hop. pose proof (exec_set s l w Hi Ht Hop) as Hset. destruct w; try exact Hset; simpl.
  - destruct (createObject_tracked s l a Hi Ht) as (s' & e & Hc & Hi' & Ht' & Hj & _).
    exists (), s', [e]. split; [unfold CreateAccount, mbind, M_bind; by rewrite Hc|done].
  - by apply exec_suicide.
  - eapply stays_note; try done. by destruct Hi.
  - eapply stays_note; try done. destruct Hi; split; try done. by apply wrap_range.
  - unfold AddPreimage, modify. destruct (preimages s !! h) eqn:Hp.
    + by exists (), s, []; rewrite Hp, app_nil_r.
    + destruct (stays_note s l (addPreimageChange h)
        (st_preimages (journal_append s (addPreimageChange h)) (<[h:=p]> (preimages s)))) as (r & s' & es & Hr & Hrest);
        try done; [by destruct Hi|]. exists (), s', es. rewrite Hp. split; [|done]. by injection Hr as _ ->.
  - exists (), (st_tx s th bh ti), []. rewrite app_nil_r. split_and!; try done; [by destruct Hi|by apply tracked_ext with s].
  - destruct (tracked_get s l a Hi Ht) as (t & Hg & Hit & Htt & Hlt & _).
    exists (), t, []. rewrite app_nil_r. unfold GetNonce, mbind, M_bind. rewrite Hg.
    split_and!; try done. by apply loaded_book in Hlt as (-> & _).
  - destruct (exec_getState s l a k Hi Ht) as (r & s' & es & Hr & Hrest). exists (), s', es.
    split; [unfold mbind, M_bind; by rewrite Hr|done].
  - destruct (exec_getCode s l a Hi Ht) as (r & s' & es & Hr & Hrest). exists (), s', es.
    split; [unfold mbind, M_bind; by rewrite Hr|done].
Qed.

(** ** Undoing *)

Lemma undo_write_tracked s l a f t : tracked s l -> Inv s -> writes f ->
  (o ← getStateObject a; obj ← deref o; upd_object f obj) s = Ok ((), t) -> tracked t l.
Proof.
  intros Ht Hi Hf. destruct (tracked_get s l a Hi Ht) as (s1 & Hg & Hi1 & Ht1 & _ & Hfo).
  unfold mbind, M_bind. rewrite Hg. destruct (load s a) as [o|] eqn:Hl; [|done].
  destruct (Hfo o eq_refl) as [Ho Hd]. destruct (load_ok _ _ _ Hi Hl) as (Hok & _). intros [= <-].
  apply tracked_write with a o; try done. apply kept_refl. by apply load_storage_ok with s l a.
Qed.

Lemma undo_suicide_tracked s l a b t : tracked s (suicideChange a b :: l) -> Inv s ->
  undo (suicideChange a b) s = Ok ((), t) -> tracked t l.
Proof.
  intros Ht Hi. assert (tracked s l) as Ht0 by (destruct Ht as [? ? ? ? [_ ?]]; by split).
  destruct (tr_journal _ _ Ht) as [[Hdirty (o & Ho & Hd)] _].
  simpl. unfold mbind, M_bind, getStateObject. rewrite Ho, Hd. intros [= <-].
  pose proof (inv_address _ Hi _ _ Ho) as Ha. rewrite put_setStateObject.
  apply tracked_put with a o; simpl; try done; [|set_solver].
  apply storage_ok_ext with o; try done. by apply (tr_storage _ _ Ht) in Ho.
Qed.

Lemma undo_tracked s l e t : tracked s (e :: l) -> Inv s -> undo e s = Ok ((), t) -> tracked t l.
Proof.
  intros Ht Hi Hu. pose proof Ht as [D C De S J].
  destruct e; simpl in J; try done; try (injection Hu as <-; apply tracked_ext with s; try done; by split).
  - injection Hu as <-. split; simpl.
    + intros b Hb. rewrite lookup_delete_ne by set_solver. apply D. set_solver.
    + intros b o [Hne Hb]%lookup_delete_Some Hn. apply C; [done|set_solver].
    + intros b o [Hne Hb]%lookup_delete_Some. exact (De b o Hb).
    + intros b o [Hne Hb]%lookup_delete_Some. exact (S b o Hb).
    + eapply good_mono; [|exact J]. intros b [[Hb (o & Ho & Hd)] Hne]. split; simpl; [set_solver|].
      exists o. by rewrite lookup_delete_ne.
  - destruct J as ([Hdirty (o & Ho & Hd)] & Hs & Hok & Hdp & J). injection Hu as <-. rewrite put_setStateObject.
    apply tracked_put with (address prev) o; simpl; try done; set_solver.
  - exact (undo_suicide_tracked _ _ _ _ _ Ht Hi Hu).
  - refine (undo_write_tracked s l account _ t _ Hi (writes_setNonce prev) Hu). by split.
  - destruct J as [Hv J]. refine (undo_write_tracked s l account _ t _ Hi (writes_setState key prevalue Hv) Hu). by split.
  - refine (undo_write_tracked s l account _ t _ Hi (writes_setCode _ prevcode (BytesToHash_length prevhash)) Hu). by split.
  - simpl in Hu. unfold mbind, M_bind, getS in Hu.
    destruct (length _ =? 1)%nat; [|destruct (length _ =? 0)%nat; [done|]];
      injection Hu as <-; apply tracked_ext with s; try done; by split.
Qed.

Lemma undos_tracked k s l t : Forall entry_ok k -> Inv s -> tracked s (k ++ l) -> mapM_ undo k s = Ok ((), t) ->
  tracked t l.
Proof.
  intros Hk. revert s. induction Hk as [|e k He Hk IH]; intros s Hi Ht Hr; [by injection Hr as <-|].
  simpl in Hr. unfold mbind, M_bind in Hr. destruct (undo e s) as [[[] u]| | |] eqn:Eu; try done.
  destruct (undo_congr e He s s u ltac:(reflexivity) Hi Hi Eu) as (u' & Eu' & _ & Hiu & _). rewrite Eu in Eu'.
  injection Eu' as <-. apply (IH u); try done. by apply undo_tracked with s e.
Qed.

(** ** Executions *)

Definition cmd_ok (c : cmd) : Prop := match c with Do w => op_ok w | _ => True end.

Lemma run_cmd_tracked s stk c s' : history s stk -> tracked s (rev (journal s)) -> cmd_ok c ->
  run_cmd c s = Ok ((), s') -> tracked s' (rev (journal s')).
Proof.
  intros Hh Ht Hc Hr. pose proof (history_inv _ _ Hh) as Hi. destruct c as [w| |id]; simpl in *.
  - destruct (exec_tracked s _ w Hi Ht Hc) as ([] & s2 & es & He & _ & Hj & Ht2). rewrite He in Hr. injection Hr as <-.
    by rewrite Hj, rev_app_distr.
  - injection Hr as <-. by apply tracked_ext with s.
  - destruct (decide (id ∈ map rev_id (validRevisions s))) as [Hv|Hv]; [|by rewrite (revert_invalid _ _ _ Hh Hv) in Hr].
    apply (history_valid _ _ _ Hh) in Hv as (g & Hin).
    destruct (revert_run s stk id g Hh Hin) as (es & u & Hj & Hes & Hu & _ & _ & Hrun).
    rewrite Hrun in Hr. injection Hr as <-. simpl. apply tracked_ext with u; try done.
    apply undos_tracked with (rev es) s; try done; [by apply Forall_rev|]. by rewrite <- rev_app_distr, <- Hj.
Qed.

Lemma run_tracked cs s stk s' : history s stk -> tracked s (rev (journal s)) -> Forall cmd_ok cs ->
  run cs s = Ok ((), s') -> (exists stk', history s' stk') /\ tracked s' (rev (journal s')).
Proof.
  revert s stk. induction cs as [|c cs IH]; intros s stk Hh Ht Hok Hr.
  { injection Hr as <-. eauto. }
  apply Forall_cons in Hok as [Hc Hok]. unfold run in Hr. simpl in Hr. unfold mbind, M_bind in Hr.
  destruct (run_cmd_history s stk c Hh) as [(t & stk1 & Hct & Hht & _)|(id & _ & _ & Hp)]; [|by rewrite Hp in Hr].
  rewrite Hct in Hr. apply (IH t stk1); try done. by apply run_cmd_tracked with s stk c.
Qed.

End Dirty.
