(* ===== verification/StateFinalise.v ===== *)
(** * Finalising a transaction

    [Finalise(true)] of core/state/statedb.go, as [IntermediateRoot] calls it
    after every transaction: afterwards the account trie holds exactly the
    accounts the state answers for, suicided and empty ones removed, whatever
    sequence of operations, snapshots and reverts came before. *)

From stdpp Require Import base gmap list.
From S2P Require Import Prelude Types TrieIface StateObject StateDB StateView StateRevert StateInstance StateFlush StateHistory StateDirty.
Local Open Scope Z_scope.

Section Finalise.
Context {E T : Type} `{StateEnvLaws E T}.

Abbreviation St := (StateDB E T).
Abbreviation Obj := (stateObject E T).
Implicit Types (s : St) (o : Obj).

(** ** Writing the account trie *)

Lemma tload_delete t t' a : (forall k, t_view t' k = if decide (k = a) then None else t_view t k) ->
  tload t' a = (None : option Obj) /\ forall b, b <> a -> tload t' b = (tload t b : option Obj).
Proof.
  intros Hv. split; [|intros b Hb]; unfold tload; rewrite Hv; [by rewrite decide_True|by rewrite decide_False].
Qed.

Lemma tload_update t t' a d : length (Root d) = 32%nat -> length (codeHashBytes d) = 32%nat ->
  (forall k, t_view t' k = if decide (k = a) then (if decide (encodeAccount d = []) then None else Some (encodeAccount d))
                           else t_view t k) ->
  tload t' a = Some (newObject a d true : Obj) /\ forall b, b <> a -> tload t' b = (tload t b : option Obj).
Proof.
  intros Hr Hc Hv. split; [|intros b Hb]; unfold tload; rewrite Hv; [|by rewrite decide_False].
  rewrite decide_True by done. pose proof (encodeAccount_nonempty d) as Hne. rewrite decide_False by done. simpl.
  pose proof (decodeAccount_encodeAccount d Hr Hc) as Hd. destruct (encodeAccount d) as [|x l]; [done|].
  by rewrite Hd.
Qed.

Lemma newObject_data a d b : length (codeHashBytes d) = 32%nat -> data (newObject a d b : Obj) = d.
Proof. unfold codeHashBytes. by destruct d as [n r [h|]]. Qed.

(** ** One address *)

(** What finalising leaves of the object [o] at [a]. *)
Definition finalised o (a : Address) s' : Prop :=
  if suicided o || empty o then stateObjects s' !! a = Some (with_deleted o true) /\ tload (trie s') a = None
  else exists o', flushed o o' /\ stateObjects s' !! a = Some o' /\
         tload (trie s') a = Some (newObject a (data o') true) /\ length (codeHashBytes (data o')) = 32%nat.

Definition untouched s s' (b : Address) : Prop :=
  stateObjects s' !! b = stateObjects s !! b /\ tload (trie s') b = tload (trie s) b.

Definition same_rest s s' : Prop :=
  stateObjectsDirty s' = stateObjectsDirty s /\ logs s' = logs s /\ logSize s' = logSize s /\
  preimages s' = preimages s /\ nextRevisionId s' = nextRevisionId s.

(** Deleted objects are ones finalising would delete again. *)
Definition del_ok o : Prop := deleted o = true -> suicided o = true \/ empty o = true.

Lemma finalised_object o a s' b o' : del_ok o -> obj_ok o -> address o = a -> finalised o a s' ->
  stateObjects s' !! a = Some o' ->
  address o' = a /\ obj_ok o' /\ del_ok o' /\ (deleted o' = true -> tload (trie s') a = (b : option Obj) -> b = None).
Proof.
  intros Hdo Hok Ha Hf Ho'. unfold finalised in Hf. destruct (suicided o || empty o) eqn:Eg.
  - destruct Hf as [Hf Hn]. rewrite Hf in Ho'. injection Ho' as <-. split_and!; try done.
    + by destruct Hok.
    + intros _. by apply orb_true_iff in Eg.
    + congruence.
  - destruct Hf as (o2 & Hfl & Hf & Hl & Hlen). rewrite Hf in Ho'. injection Ho' as <-.
    destruct (fl_rest _ _ Hfl) as (Hd & _). apply orb_false_iff in Eg as [Es Ee].
    assert (deleted o2 = false).
    { destruct (deleted o2) eqn:Ed; [|done]. symmetry in Hd. destruct (Hdo Hd); congruence. }
    split_and!; [by rewrite (so_address _ _ (fl_same _ _ Hfl))|apply Hfl|intros ?; congruence|congruence].
Qed.

Lemma Inv_finalised s s' a o : Inv s -> stateObjects s !! a = Some o -> del_ok o -> t_ok (trie s') ->
  logSize s' = logSize s -> finalised o a s' -> (forall b, b <> a -> untouched s s' b) -> Inv s'.
Proof.
  intros [It Ia Io Id Is Il] Ho Hdo Ht Hls Hf Hu.
  pose proof (fun o' => finalised_object o a s' (tload (trie s') a) o' Hdo (Io _ _ Ho) (Ia _ _ Ho) Hf) as Hat.
  split; try done; try (rewrite Hls; done).
  - intros b o' Hb. destruct (decide (b = a)) as [->|Hne]; [by apply Hat|].
    destruct (Hu b Hne) as [Eb El]. rewrite Eb in Hb. eauto.
  - intros b o' Hb. destruct (decide (b = a)) as [->|Hne]; [by apply Hat|].
    destruct (Hu b Hne) as [Eb El]. rewrite Eb in Hb. eauto.
  - intros b o' Hb Hd. destruct (decide (b = a)) as [->|Hne]; [by apply (Hat o')|].
    destruct (Hu b Hne) as [Eb El]. rewrite Eb in Hb. rewrite El. eauto.
  - intros b o' Hb. destruct (decide (b = a)) as [->|Hne].
    + unfold finalised in Hf. destruct (suicided o || empty o); [destruct Hf; congruence|].
      destruct Hf as (o2 & _ & _ & Hl & Hlen). rewrite Hl in Hb. injection Hb as <-.
      split; [done|]. by rewrite newObject_data.
    + destruct (Hu b Hne) as [Eb El]. rewrite El in Hb. eauto.
Qed.

Lemma finaliseObject_spec s a o : Inv s -> stateObjects s !! a = Some o -> storage_ok o -> del_ok o ->
  exists s', finaliseObject true a s = Ok ((), s') /\ Inv s' /\ finalised o a s' /\
    (forall b, b <> a -> untouched s s' b) /\ same_rest s s'.
Proof.
  intros Hi Ho Hs Hdo. pose proof (inv_address _ Hi _ _ Ho) as Ha. pose proof (inv_obj _ Hi _ _ Ho) as Hok.
  assert (exists s', finaliseObject true a s = Ok ((), s') /\ t_ok (trie s') /\ finalised o a s' /\
    (forall b, b <> a -> untouched s s' b) /\ same_rest s s') as (s' & Hr & Ht & Hf & Hu & Hsr).
  2:{ exists s'. split_and!; try done; try apply Hsr. apply Inv_finalised with s a o; try done. apply Hsr. }
  unfold finaliseObject, mbind, M_bind, getS, deref, lift. rewrite Ho. simpl. unfold finalised.
  destruct (suicided o || empty o) eqn:Eg.
  - unfold deleteStateObject, mbind, M_bind, modify, trie_write. simpl.
    destruct (tDelete_ok (trie s) (address o) (inv_trie _ Hi)) as (t' & -> & Ht' & Hv). eexists. split; [done|].
    rewrite Ha in *. destruct (tload_delete _ _ _ Hv) as [Hn Hother]. split_and!; try done; simpl; rewrite ?Ha.
    + by rewrite lookup_insert_eq.
    + intros b Hb. split; simpl; [by rewrite Ha, lookup_insert_ne|by apply Hother].
  - destruct (updateRoot_spec o Hok Hs) as (o' & -> & Hfl & Hroot).
    pose proof (so_address _ _ (fl_same _ _ Hfl)) as Ha'. rewrite Ha in Ha'.
    pose proof (ook_hash _ (fl_ok _ _ Hfl)) as Hch.
    unfold updateStateObject, modify, trie_write. simpl.
    destruct (tUpdate_ok (trie s) (address o') (encodeAccount (data o')) (inv_trie _ Hi)) as (t' & -> & Ht' & Hv).
    eexists. split; [done|]. rewrite Ha' in *. destruct (tload_update _ _ _ _ Hroot Hch Hv) as [Hn Hother].
    split_and!; try done; simpl.
    + exists o'. by rewrite Ha', lookup_insert_eq.
    + intros b Hb. split; simpl; [by rewrite Ha', lookup_insert_ne|by apply Hother].
Qed.

(** ** The loop *)

Lemma finalised_untouched o a s1 s2 : finalised o a s1 -> untouched s1 s2 a -> finalised o a s2.
Proof. intros Hf [Eo Et]. unfold finalised in *. by rewrite Eo, Et. Qed.

Lemma finalise_loop l s : NoDup l -> Inv s ->
  (forall a, a ∈ l -> exists o, stateObjects s !! a = Some o /\ storage_ok o /\ del_ok o) ->
  exists s', mapM_ (finaliseObject true) l s = Ok ((), s') /\ Inv s' /\ same_rest s s' /\
    (forall a o, a ∈ l -> stateObjects s !! a = Some o -> finalised o a s') /\
    (forall b, b ∉ l -> untouched s s' b).
Proof.
  intros Hnd. revert s. induction Hnd as [|a l Ha Hnd IH]; intros s Hi Hall.
  { exists s. split_and!; try done. by intros ? ? ?%not_elem_of_nil. }
  destruct (Hall a (list_elem_of_here a l)) as (o & Ho & Hs & Hd).
  destruct (finaliseObject_spec s a o Hi Ho Hs Hd) as (s1 & Hr & Hi1 & Hf1 & Hu1 & R1).
  destruct (IH s1 Hi1) as (s' & Hr' & Hi' & R' & Hf' & Hu').
  { intros b Hb. destruct (Hu1 b) as [Eb _]; [congruence|]. rewrite Eb. apply Hall. by apply list_elem_of_further. }
  exists s'. split; [simpl; unfold mbind, M_bind; by rewrite Hr|]. split; [done|].
  split; [destruct R1 as (? & ? & ? & ? & ?), R' as (? & ? & ? & ? & ?); split_and!; congruence|]. split.
  - intros b ob [->|Hb]%elem_of_cons Hob.
    + rewrite Ho in Hob. injection Hob as <-. by apply finalised_untouched with s1; [|apply Hu'].
    + apply (Hf' b); [done|]. destruct (Hu1 b) as [Eb _]; [congruence|]. by rewrite Eb.
  - intros b [Hne Hb]%not_elem_of_cons. destruct (Hu1 b Hne) as [E1 T1], (Hu' b Hb) as [E2 T2].
    split; congruence.
Qed.

(** ** What is left afterwards *)

(** Between transactions: nothing to revert, and the dirty set is in order. *)
Definition between s : Prop := Inv s /\ journal s = [] /\ validRevisions s = [] /\ tracked s [].

(** What the trie of [s'] says of [a], against what [s] answered. *)
Definition settled s s' (a : Address) : Prop :=
  match load s a with
  | None => load s' a = None /\ tload (trie s') a = None
  | Some o =>
      if suicided o || (bool_decide (a ∈ stateObjectsDirty s) && empty o)
      then load s' a = None /\ tload (trie s') a = None
      else exists o' o0, load s' a = Some o' /\ same_obj o' o /\ tload (trie s') a = Some o0 /\
             data o0 = data o' /\ forall k, tread (strie o') k = sview o k
  end.

Lemma settled_dirty s s' a o l : Inv s -> tracked s l -> a ∈ stateObjectsDirty s -> stateObjects s !! a = Some o ->
  finalised o a s' -> settled s s' a.
Proof.
  intros Hi Ht Ha Ho Hf. unfold settled, load. rewrite Ho. unfold finalised in Hf.
  pose proof (tr_deleted _ _ Ht a o Ho) as Hdo. rewrite bool_decide_true by done. simpl.
  destruct (deleted o) eqn:Hd.
  - assert (suicided o || empty o = true) as Hg by (apply orb_true_iff; auto). rewrite Hg in Hf.
    destruct Hf as [-> ->]. done.
  - destruct (suicided o || empty o); [by destruct Hf as [-> ->]|].
    destruct Hf as (o' & Hfl & -> & -> & Hlen). destruct (fl_rest _ _ Hfl) as (Hde & _). rewrite Hde, Hd.
    exists o', (newObject a (data o') true). split_and!; try done; [apply Hfl|by apply newObject_data|].
    destruct (fl_trie _ _ Hfl) as (t & Htr & Hv). intros k. unfold strie. by rewrite Htr.
Qed.

Lemma settled_clean s s' a l : Inv s -> tracked s l -> a ∉ stateObjectsDirty s -> untouched s s' a -> settled s s' a.
Proof.
  intros Hi Ht Ha [Eo Et]. unfold settled. rewrite bool_decide_false by done.
  assert (load s' a = load s a) as -> by (unfold load; by rewrite Eo, Et). rewrite Et.
  destruct (load s a) as [o|] eqn:Hl; unfold load in Hl; destruct (stateObjects s !! a) as [o1|] eqn:Ho; try done.
  - destruct (tr_clean _ _ Ht a o1 Ho Ha) as (_ & Hd & Hsu & Hds & o0 & Hl0 & Hda). rewrite Hd in Hl.
    injection Hl as ->. rewrite Hsu. simpl. exists o, o0. split_and!; try done. intros k.
    rewrite sview_clean; [done|by apply (tr_storage _ _ Ht) in Ho|]. by rewrite Hds.
  - assert (suicided o = false /\ cachedStorage o = ∅) as [-> Hc].
    { unfold tload in Hl. destruct (default [] _); [done|]. destruct (decodeAccount _); [|done]. by injection Hl as <-. }
    simpl. exists o, o. split_and!; try done. intros k. unfold sview. by rewrite Hc.
  - destruct (tr_clean _ _ Ht a o1 Ho Ha) as (_ & Hd & _). by rewrite Hd in Hl.
Qed.

Lemma tracked_finalised s s' l : Inv s -> tracked s l -> stateObjectsDirty s' = stateObjectsDirty s ->
  (forall a o, a ∈ stateObjectsDirty s -> stateObjects s !! a = Some o -> finalised o a s') ->
  (forall b, b ∉ stateObjectsDirty s -> untouched s s' b) -> tracked s' [].
Proof.
  intros Hi Ht Ed Hf Hu.
  assert (forall a o', a ∈ stateObjectsDirty s -> stateObjects s' !! a = Some o' -> del_ok o' /\ storage_ok o') as Hd.
  { intros a o' Ha Ho'. destruct (tr_dirty _ _ Ht a Ha) as (o & Ho). specialize (Hf a o Ha Ho).
    split.
    - refine (proj1 (proj2 (proj2 (finalised_object o a s' None o' _ _ _ Hf Ho')))).
      + by intros ?; apply (tr_deleted _ _ Ht a).
      + by apply (inv_obj _ Hi a).
      + by apply (inv_address _ Hi a).
    - unfold finalised in Hf. pose proof (tr_storage _ _ Ht a o Ho) as Hs. destruct (suicided o || empty o).
      + destruct Hf as [Hf _]. rewrite Hf in Ho'. injection Ho' as <-. by apply storage_ok_ext with o.
      + destruct Hf as (o2 & Hfl & Hf & _). rewrite Hf in Ho'. injection Ho' as <-. apply Hfl. }
  split; rewrite ?Ed; try done.
  - intros a Ha. destruct (tr_dirty _ _ Ht a Ha) as (o & Ho). specialize (Hf a o Ha Ho). unfold finalised in Hf.
    destruct (suicided o || empty o); [destruct Hf; eauto|]. destruct Hf as (? & _ & ? & _). eauto.
  - intros a o Ho Ha. destruct (Hu a Ha) as [Eo Et]. rewrite Eo in Ho. unfold clean. rewrite Et.
    by apply (tr_clean _ _ Ht).
  - intros a o Ho. destruct (decide (a ∈ stateObjectsDirty s)) as [Ha|Ha]; [by apply (Hd a)|].
    destruct (Hu a Ha) as [Eo Et]. rewrite Eo in Ho. exact (tr_deleted _ _ Ht a o Ho).
  - intros a o Ho. destruct (decide (a ∈ stateObjectsDirty s)) as [Ha|Ha]; [by apply (Hd a)|].
    destruct (Hu a Ha) as [Eo Et]. rewrite Eo in Ho. exact (tr_storage _ _ Ht a o Ho).
Qed.

Lemma Finalise_spec s l : Inv s -> tracked s l -> exists s', Finalise true s = Ok ((), s') /\ between s' /\
  refund s' = 0 /\ forall a, settled s s' a.
Proof.
  intros Hi Ht. unfold Finalise, mbind, M_bind, getS.
  destruct (finalise_loop (elements (stateObjectsDirty s)) s) as (s' & Hr & Hi' & R & Hf & Hu); try done.
  { apply NoDup_elements. }
  { intros a Ha%elem_of_elements. destruct (tr_dirty _ _ Ht a Ha) as (o & Ho). exists o. split; [done|].
    split; [exact (tr_storage _ _ Ht a o Ho)|exact (tr_deleted _ _ Ht a o Ho)]. }
  assert (forall a o, a ∈ stateObjectsDirty s -> stateObjects s !! a = Some o -> finalised o a s') as Hf'
    by (intros a o Ha; apply Hf; by apply elem_of_elements).
  assert (forall b, b ∉ stateObjectsDirty s -> untouched s s' b) as Hu'
    by (intros b Hb; apply Hu; by rewrite elem_of_elements).
  rewrite Hr. eexists. split; [done|]. split; [|split; [done|]].
  - split; [by destruct Hi'|]. split_and!; try done. eapply tracked_ext with s'; try done.
    by apply tracked_finalised with s l; [..|apply R| |].
  - intros a. destruct (decide (a ∈ stateObjectsDirty s)) as [Ha|Ha].
    + destruct (tr_dirty _ _ Ht a Ha) as (o & Ho). apply (settled_dirty s s' a o l); auto.
    + apply (settled_clean s s' a l); auto.
Qed.

(** C28: after any sequence of operations, snapshots and reverts of a transaction,
    [Finalise(true)] succeeds (no dirty address lacks its object) and settles
    every address: suicided and dirty empty accounts are gone from the state and
    from the trie; every other account is in the trie with the nonce, root and
    code hash the state answers, its storage trie holds every slot; and the
    state is ready for the next transaction. *)
Theorem finalise_persists s0 cs s :
  between s0 -> Forall cmd_ok cs -> run cs s0 = Ok ((), s) ->
  exists s', Finalise true s = Ok ((), s') /\ between s' /\ refund s' = 0 /\ forall a, settled s s' a.
Proof.
  intros (Hi & Hj & Hv & Ht) Hok Hr. change [] with (rev (A:=journalEntry E T) []) in Ht. rewrite <- Hj in Ht.
  destruct (run_tracked cs s0 [] s (history_base _ Hi Hv) Ht Hok Hr) as ((stk & Hh) & Ht').
  apply (Finalise_spec s (rev (journal s))); [by apply history_inv in Hh|done].
Qed.

End Finalise.

(** ** Example *)

Lemma memState_between : between memState.
Proof. split; [exact memState_Inv|]. by split_and!. Qed.

Lemma finalise_persists_witness : exists s' o0,
  Finalise true (run_on before_cmds memState) = Ok ((), s') /\
  tload (trie s') addr1 = Some o0 /\ Nonce (data o0) = 3.
Proof.
  destruct (finalise_persists memState before_cmds (run_on before_cmds memState) memState_between)
    as (s' & Hr & _ & _ & Hs).
  - repeat constructor.
  - vm_compute. reflexivity.
  - specialize (Hs addr1). unfold settled in Hs.
    destruct (load (run_on before_cmds memState) addr1) as [o|] eqn:Hl; vm_compute in Hl; [|discriminate].
    injection Hl as <-. simpl in Hs. destruct Hs as (o' & o0 & _ & Hso & Ht & Hd & _).
    exists s', o0. split; [exact Hr|]. split; [exact Ht|]. rewrite Hd, (so_nonce _ _ Hso). reflexivity.
Defined.
