(* ===== verification/ManagedState.v ===== *)
(** * Virtual nonces (core/state/managed_state.go)

    [ManagedState] puts a table of virtual nonces over a copy of a state: the
    transaction pool keeps in it the nonce each account will have once its pending
    transactions are executed.  An entry holds the first tracked nonce and one flag
    per nonce handed out since; the pointer to the state object that an entry also
    holds is never read.

    The specification is a function from addresses to nonces, [Nonces]; every
    operation of [ManagedState] is shown to act on it, whatever mixture of table
    entries and state objects represents it. *)

From stdpp Require Import base gmap list.
From S2P Require Import Prelude Types TrieIface StateObject StateDB StateView StateRevert StateInstance StateFlush StateHistory StateDirty StateFinalise.
Local Open Scope Z_scope.

(** ** Specification: the nonce of every account *)

Record Nonces : Type := mkNonces { chain_nonce : Address -> Z; virtual : gmap Address Z }.

Definition nonce_at (v : Nonces) (a : Address) : Z := default (chain_nonce v a) (virtual v !! a).
Definition set_nonce (v : Nonces) (a : Address) (n : Z) : Nonces := mkNonces (chain_nonce v) (<[a := n]> (virtual v)).

Lemma nonce_at_set v a n b : nonce_at (set_nonce v a n) b = if decide (b = a) then n else nonce_at v b.
Proof. unfold nonce_at. simpl. case_decide; [subst; by rewrite lookup_insert_eq|by rewrite lookup_insert_ne]. Qed.

(** ** The table *)

Record account : Type := mkTracked { nstart : Z; nonces : list bool }.

Record ManagedState (E T : Type) : Type := mkManaged { ms_db : StateDB E T; ms_accounts : gmap Address account }.
Arguments mkManaged {_ _}. Arguments ms_db {_ _}. Arguments ms_accounts {_ _}.

Section Managed.
Context {E T : Type} `{TrieOps E T} `{StateEnv E T}.
Implicit Types (ms : ManagedState E T) (a : Address).

Abbreviation MS A := (ManagedState E T -> outcome (stateErr E) (A * ManagedState E T)).

Definition on_db {A} (m : M E T A) ms : outcome (stateErr E) (A * ManagedState E T) :=
  '(r, s) ← m (ms_db ms); Ok (r, mkManaged s (ms_accounts ms)).

Definition ManageState (statedb : StateDB E T) : outcome (stateErr E) (ManagedState E T) :=
  s ← Copy statedb; Ok (mkManaged s ∅).

Definition SetBacking (statedb : StateDB E T) ms : ManagedState E T := mkManaged statedb (ms_accounts ms).

Definition newAccount (so : stateObject E T) : account := mkTracked (Nonce (data so)) [].

Definition hasAccount ms a : bool := match ms_accounts ms !! a with Some _ => true | None => false end.

(** The nonce an entry stands for. *)
Definition next_nonce (acc : account) : Z := u64 (Z.of_nat (length (nonces acc)) + nstart acc).

Definition put_account a (acc : account) ms : ManagedState E T := mkManaged (ms_db ms) (<[a := acc]> (ms_accounts ms)).

Definition getAccount a : MS account := fun ms =>
  match ms_accounts ms !! a with
  | None =>
      '(so, ms) ← on_db (GetOrNewStateObject a) ms;
      Ok (newAccount so, put_account a (newAccount so) ms)
  | Some acc =>
      '(so, ms) ← on_db (getStateObject a) ms;
      match so with
      | Some so =>
          if next_nonce acc <? Nonce (data so) then Ok (newAccount so, put_account a (newAccount so) ms)
          else Ok (acc, ms)
      | None => Ok (acc, ms)
      end
  end.

(** [n - account.nstart] is a [uint64]: a nonce below the first tracked one wraps
    around and leaves the entry alone. *)
Definition RemoveNonce a (n : Z) : MS unit := fun ms =>
  if hasAccount ms a then
    '(acc, ms) ← getAccount a ms;
    let d := u64 (n - nstart acc) in
    Ok (tt, if d <=? Z.of_nat (length (nonces acc))
            then put_account a (mkTracked (nstart acc) (take (Z.to_nat d) (nonces acc))) ms else ms)
  else Ok (tt, ms).

(** The first flag that is not set. *)
Fixpoint first_free (l : list bool) : option nat :=
  match l with
  | [] => None
  | true :: l => S <$> first_free l
  | false :: _ => Some 0%nat
  end.

Definition NewNonce a : MS Z := fun ms =>
  '(acc, ms) ← getAccount a ms;
  match first_free (nonces acc) with
  | Some i => Ok (u64 (nstart acc + Z.of_nat i), ms)
  | None =>
      let acc := mkTracked (nstart acc) (nonces acc ++ [true]) in
      Ok (u64 (Z.of_nat (length (nonces acc)) - 1 + nstart acc), put_account a acc ms)
  end.

Definition ms_GetNonce a : MS Z := fun ms =>
  if hasAccount ms a then '(acc, ms) ← getAccount a ms; Ok (next_nonce acc, ms)
  else on_db (GetNonce a) ms.

Definition ms_SetNonce a (nonce : Z) : MS unit := fun ms =>
  '(so, ms) ← on_db (GetOrNewStateObject a) ms;
  '(_, ms) ← on_db (_ ← modify (fun s => journal_append s (nonceChange (address so) (Nonce (data so))));
                    upd_object (fun o d => obj_setNonce o d nonce) so) ms;
  Ok (tt, put_account a (mkTracked nonce []) ms).

End Managed.

(** ** Refinement *)

Section Refinement.
Context {E T : Type} `{StateEnvLaws E T}.
Implicit Types (ms : ManagedState E T) (a b : Address) (s : StateDB E T).

Definition db_nonce s a : Z := match load s a with Some o => Nonce (data o) | None => 0 end.

(** What [ms] answers: an entry counts unless the state has overtaken it. *)
Definition virtual_nonce ms a : Z :=
  match ms_accounts ms !! a with
  | Some acc => Z.max (next_nonce acc) (db_nonce (ms_db ms) a)
  | None => db_nonce (ms_db ms) a
  end.

(** Flags are only ever set, and nonces are machine words. *)
Record managed_ok ms : Prop := {
  mo_db : Inv (ms_db ms);
  mo_flags a acc : ms_accounts ms !! a = Some acc ->
    Forall (eq true) (nonces acc) /\ 0 <= nstart acc /\ nstart acc + Z.of_nat (length (nonces acc)) < 2 ^ 64;
  mo_word a : 0 <= db_nonce (ms_db ms) a < 2 ^ 64;
}.

Definition represents ms (v : Nonces) : Prop := managed_ok ms /\ forall a, virtual_nonce ms a = nonce_at v a.

Lemma next_nonce_eq ms a acc : managed_ok ms -> ms_accounts ms !! a = Some acc ->
  next_nonce acc = nstart acc + Z.of_nat (length (nonces acc)).
Proof. intros Hok Ha. destruct (mo_flags _ Hok _ _ Ha) as (_ & ? & ?). unfold next_nonce, u64. rewrite wrap_small; lia. Qed.

Lemma first_free_set l : Forall (eq true) l -> first_free l = None.
Proof. induction 1 as [|b l <- _ IH]; [done|]. simpl. by rewrite IH. Qed.

Lemma managed_put ms a acc : managed_ok ms -> Forall (eq true) (nonces acc) -> 0 <= nstart acc ->
  nstart acc + Z.of_nat (length (nonces acc)) < 2 ^ 64 -> managed_ok (put_account a acc ms).
Proof.
  intros [Hd Hf Hw] Hx Hy Hz. split; try done. simpl. intros b acc' [[<- <-]|[_ Hb]]%lookup_insert_Some; [done|by apply (Hf b)].
Qed.

(** Reading or creating an object keeps every nonce: a new account has nonce 0. *)
Lemma account_target_nonce s a : Nonce (data (target s a)) = db_nonce s a.
Proof. unfold db_nonce, target. by destruct (load s a). Qed.

Lemma GetOrNew_nonces s a : Inv s -> exists s', GetOrNewStateObject a s = Ok (target s a, s') /\ Inv s' /\
  forall b, db_nonce s' b = db_nonce s b.
Proof.
  intros Hi. destruct (GetOrNew_spec s a Hi) as (s' & Hg & Hu & Hl). exists s'. split_and!; [done|by eapply undoable_Inv|].
  intros b. unfold db_nonce at 1. rewrite Hl. case_decide; [subst b; apply account_target_nonce|done].
Qed.

Lemma getStateObject_nonces s a : Inv s -> exists s', getStateObject a s = Ok (load s a, s') /\ Inv s' /\
  forall b, db_nonce s' b = db_nonce s b.
Proof.
  intros Hi. destruct (getStateObject_spec s a Hi) as (s' & Hg & Hi' & Hl & _). exists s'. split_and!; try done.
  intros b. unfold db_nonce. by rewrite (ld_load _ _ Hl).
Qed.

(** Another state with the same nonces below the table. *)
Lemma managed_db ms s : managed_ok ms -> Inv s -> (forall b, db_nonce s b = db_nonce (ms_db ms) b) ->
  managed_ok (mkManaged s (ms_accounts ms)) /\ forall b, virtual_nonce (mkManaged s (ms_accounts ms)) b = virtual_nonce ms b.
Proof.
  intros [Hd Hf Hw] Hi Hn. split; [split; simpl; auto|].
  - intros a. rewrite Hn. apply Hw.
  - intros b. unfold virtual_nonce. simpl. by rewrite Hn.
Qed.

(** Replacing the entry of [a]. *)
Lemma virtual_put ms a acc b : virtual_nonce (put_account a acc ms) b =
  if decide (b = a) then Z.max (next_nonce acc) (db_nonce (ms_db ms) a) else virtual_nonce ms b.
Proof.
  unfold virtual_nonce. simpl. case_decide; [subst; by rewrite lookup_insert_eq|by rewrite lookup_insert_ne].
Qed.

(** [getAccount] answers the entry in force, which it leaves in the table. *)
Definition entry_in_force ms a : account :=
  match ms_accounts ms !! a with
  | Some acc => if next_nonce acc <? db_nonce (ms_db ms) a then mkTracked (db_nonce (ms_db ms) a) [] else acc
  | None => mkTracked (db_nonce (ms_db ms) a) []
  end.

Lemma getAccount_spec ms a : managed_ok ms -> exists ms', getAccount a ms = Ok (entry_in_force ms a, ms') /\
  managed_ok ms' /\ ms_accounts ms' !! a = Some (entry_in_force ms a) /\
  (forall b, virtual_nonce ms' b = virtual_nonce ms b) /\ db_nonce (ms_db ms') a = db_nonce (ms_db ms) a /\
  next_nonce (entry_in_force ms a) = virtual_nonce ms a.
Proof.
  intros Hok. pose proof (mo_word _ Hok a) as Hw. set (n := db_nonce (ms_db ms) a) in *.
  assert (next_nonce (mkTracked n []) = n) as Hn by (unfold next_nonce, u64; simpl; rewrite wrap_small; lia).
  unfold getAccount, entry_in_force, on_db. fold n. destruct (ms_accounts ms !! a) as [acc|] eqn:Ha.
  - destruct (getStateObject_nonces _ a (mo_db _ Hok)) as (s & -> & Hi & Hs).
    destruct (managed_db ms s Hok Hi Hs) as [Hok' Hv]. simpl.
    assert (match load (ms_db ms) a with Some so => next_nonce acc <? Nonce (data so) | None => false end =
            (next_nonce acc <? n)) as Hc.
    { unfold n, db_nonce. destruct (load (ms_db ms) a); [done|]. rewrite (next_nonce_eq ms a acc) by done.
      destruct (mo_flags _ Hok _ _ Ha) as (_ & ? & _). symmetry. apply Z.ltb_ge. lia. }
    destruct (Z.ltb_spec (next_nonce acc) n) as [Hlt|Hge].
    + destruct (load (ms_db ms) a) as [so|] eqn:Hl; [|done]. rewrite Hc.
      replace (newAccount so) with (mkTracked n []) by (unfold newAccount, n, db_nonce; by rewrite Hl).
      eexists. split; [done|]. split; [apply managed_put; simpl; try done; lia|]. split; [apply lookup_insert_eq|].
      split; [|split; [apply Hs|]].
      * intros b. rewrite virtual_put, Hv, Hn. simpl. rewrite Hs. case_decide; [subst b|done].
        unfold virtual_nonce. rewrite Ha. fold n. lia.
      * rewrite Hn. unfold virtual_nonce. rewrite Ha. fold n. lia.
    + exists (mkManaged s (ms_accounts ms)). split; [destruct (load (ms_db ms) a); [by rewrite Hc|done]|].
      split_and!; try done. unfold virtual_nonce. rewrite Ha. fold n. lia.
  - destruct (GetOrNew_nonces _ a (mo_db _ Hok)) as (s & -> & Hi & Hs). destruct (managed_db ms s Hok Hi Hs) as [Hok' Hv]. simpl.
    replace (newAccount (target (ms_db ms) a)) with (mkTracked n []) by (unfold newAccount; by rewrite account_target_nonce).
    eexists. split; [done|]. split; [apply managed_put; simpl; try done; lia|]. split; [apply lookup_insert_eq|].
    split; [|split; [apply Hs|unfold virtual_nonce; by rewrite Ha]].
    intros b. rewrite virtual_put, Hv, Hn. simpl. rewrite Hs. case_decide; [subst b|done].
    unfold virtual_nonce. rewrite Ha. fold n. lia.
Qed.

Lemma represents_eq ms ms' v : represents ms v -> managed_ok ms' -> (forall b, virtual_nonce ms' b = virtual_nonce ms b) ->
  represents ms' v.
Proof. intros [_ Hv] Hok Heq. split; [done|]. intros a. by rewrite Heq. Qed.

Lemma GetNonce_refines ms v a : represents ms v -> exists ms', ms_GetNonce a ms = Ok (nonce_at v a, ms') /\ represents ms' v.
Proof.
  intros Hr. pose proof Hr as [Hok Hv]. unfold ms_GetNonce, hasAccount. destruct (ms_accounts ms !! a) as [acc|] eqn:Ha.
  - destruct (getAccount_spec ms a Hok) as (ms' & -> & Hok' & _ & Heq & _ & Hn). exists ms'. simpl.
    rewrite Hn, Hv. split; [done|by eapply represents_eq].
  - unfold on_db, GetNonce, mbind at 2, M_bind. destruct (getStateObject_nonces _ a (mo_db _ Hok)) as (s & -> & Hi & Hs).
    simpl. eexists. split; [rewrite <- Hv; unfold virtual_nonce; by rewrite Ha|].
    destruct (managed_db ms s Hok Hi Hs) as [Hok' Hvs]. by eapply represents_eq.
Qed.

Lemma ms_SetNonce_run a n ms : ms_SetNonce a n ms =
  ('(_, ms) ← on_db (SetNonce a n) ms; Ok (tt, put_account a (mkTracked n []) ms)).
Proof.
  unfold ms_SetNonce, on_db, SetNonce, mbind, M_bind, outcome_bind.
  destruct (GetOrNewStateObject a (ms_db ms)) as [[so s]| | |]; reflexivity.
Qed.

Lemma SetNonce_refines ms v a n : represents ms v -> 0 <= n < 2 ^ 64 ->
  exists ms', ms_SetNonce a n ms = Ok (tt, ms') /\ represents ms' (set_nonce v a n).
Proof.
  intros [Hok Hv] Hn. rewrite ms_SetNonce_run. unfold on_db.
  destruct (SetNonce_sets (ms_db ms) a n (mo_db _ Hok)) as (s & -> & Hu & Hother & o & Ho & _ & Hb & _). simpl.
  eexists. split; [done|]. assert (forall b, db_nonce s b = if decide (b = a) then n else db_nonce (ms_db ms) b) as Hs.
  { intros b. unfold db_nonce. case_decide; [subst b; by rewrite Ho|by rewrite Hother]. }
  assert (managed_ok (put_account a (mkTracked n []) (mkManaged s (ms_accounts ms)))) as Hok'.
  { apply managed_put; simpl; try done; try lia. destruct Hok as [Hi Hf Hw]. split; simpl; [by eapply undoable_Inv|done|].
    intros b. rewrite Hs. case_decide; [done|apply Hw]. }
  split; [done|]. intros b. rewrite virtual_put, nonce_at_set. simpl. rewrite Hs. case_decide as Hba.
  - rewrite decide_True by done. unfold next_nonce, u64. simpl. rewrite wrap_small; lia.
  - rewrite <- Hv. unfold virtual_nonce. simpl. rewrite Hs. by rewrite decide_False.
Qed.

Lemma NewNonce_refines ms v a : represents ms v -> nonce_at v a + 1 < 2 ^ 64 ->
  exists ms', NewNonce a ms = Ok (nonce_at v a, ms') /\ represents ms' (set_nonce v a (nonce_at v a + 1)).
Proof.
  intros [Hok Hv] Hn. unfold NewNonce. destruct (getAccount_spec ms a Hok) as (ms' & -> & Hok' & Ha & Heq & Hd & Hnx). simpl.
  set (acc := entry_in_force ms a) in *. destruct (mo_flags _ Hok' _ _ Ha) as (Hf & Hx & Hy).
  rewrite (next_nonce_eq ms' a acc) in Hnx by done. rewrite Hv in Hnx.
  rewrite first_free_set by done. rewrite length_app. simpl. eexists. split.
  { f_equal. f_equal. unfold u64. rewrite wrap_small; lia. }
  split; [apply managed_put; simpl; rewrite ?length_app; simpl; try done; [by apply Forall_app; split; [|constructor]|lia]|].
  intros b. rewrite virtual_put, nonce_at_set, Heq, Hv, Hd. case_decide; [subst b|done].
  unfold next_nonce, u64. simpl. rewrite length_app. simpl. rewrite wrap_small by lia.
  pose proof (Hv a) as Hva. unfold virtual_nonce in Hva. destruct (ms_accounts ms !! a); lia.
Qed.

(** [RemoveNonce] forgets the nonces from [n] on, if they are tracked. *)
Definition forgets ms a (n : Z) : bool :=
  hasAccount ms a && (nstart (entry_in_force ms a) <=? n) && (n <=? virtual_nonce ms a).

Lemma RemoveNonce_refines ms v a n : represents ms v -> 0 <= n < 2 ^ 64 -> exists ms', RemoveNonce a n ms = Ok (tt, ms') /\
  represents ms' (if forgets ms a n then set_nonce v a (Z.max n (db_nonce (ms_db ms) a)) else v).
Proof.
  intros Hr Hn. pose proof Hr as [Hok Hv]. unfold RemoveNonce, forgets. destruct (hasAccount ms a) eqn:Hh; [|by exists ms].
  destruct (getAccount_spec ms a Hok) as (ms' & -> & Hok' & Ha & Heq & Hd & Hnx). simpl.
  set (acc := entry_in_force ms a) in *. destruct (mo_flags _ Hok' _ _ Ha) as (Hf & Hx & Hy).
  rewrite (next_nonce_eq ms' a acc) in Hnx by done. rewrite <- Hnx.
  destruct (Z.leb_spec (nstart acc) n) as [Hle|Hlt]; simpl.
  - unfold u64. rewrite wrap_small by lia. destruct (Z.leb_spec (n - nstart acc) (Z.of_nat (length (nonces acc)))) as [Hl|Hl].
    + rewrite (proj2 (Z.leb_le _ _)) by lia. eexists. split; [done|].
      assert (length (take (Z.to_nat (n - nstart acc)) (nonces acc)) = Z.to_nat (n - nstart acc)) as Hlen by (rewrite length_take; lia).
      split; [apply managed_put; simpl; rewrite ?Hlen; try done; [by apply Forall_take|lia]|].
      intros b. rewrite virtual_put, nonce_at_set, Heq, Hv, Hd. case_decide; [subst b|done].
      unfold next_nonce, u64. simpl. rewrite Hlen, wrap_small; lia.
    + rewrite (proj2 (Z.leb_gt _ _)) by lia. exists ms'. split; [done|by eapply represents_eq].
  - assert (u64 (n - nstart acc) = n - nstart acc + 2 ^ 64) as ->.
    { unfold u64, wrap. rewrite <- (Z.mod_add _ 1) by lia. rewrite Z.mod_small; lia. }
    rewrite (proj2 (Z.leb_gt _ _)) by lia. exists ms'. split; [done|by eapply represents_eq].
Qed.

(** ** [ManageState]: the copy has the nonces of the original *)

Lemma copyObjects_spec (l : list Address) objs : (forall a, a ∈ l -> is_Some (objs !! a)) ->
  exists m, copyObjects l objs = Some m /\
  forall a, m !! a = if decide (a ∈ l) then (fun o : stateObject E T => deepCopy o true) <$> objs !! a else None.
Proof.
  induction l as [|x l IH]; intros Hl; [exists ∅; split; [done|]; intros a; rewrite decide_False by apply not_elem_of_nil; done|].
  destruct IH as (m & Hm & Hlk). { intros a Ha. apply Hl. by right. }
  destruct (Hl x (list_elem_of_here _ _)) as [o Ho]. exists (<[x := deepCopy o true]> m).
  simpl. rewrite Ho, Hm. split; [done|]. intros a. rewrite lookup_insert. case_decide as Hxa.
  - subst x. rewrite decide_True by by left. by rewrite Ho.
  - rewrite Hlk. destruct (decide (a ∈ l)).
    + by rewrite decide_True by by right.
    + rewrite decide_False; [done|]. rewrite elem_of_cons. naive_solver.
Qed.

Lemma deepCopy_data (o : stateObject E T) (b : bool) : obj_ok o -> data (deepCopy o b) = data o.
Proof.
  intros [_ Hh]. unfold deepCopy, newObject. simpl. unfold codeHashBytes in Hh.
  destruct (CodeHash (data o)) eqn:Hc; [done|]. discriminate Hh.
Qed.

Lemma deepCopy_ok (o : stateObject E T) (b : bool) : obj_ok o -> obj_ok (deepCopy o b).
Proof.
  intros Hok. split; [|rewrite deepCopy_data by done; by apply ook_hash]. simpl. intros t.
  destruct (obj_trie o) as [t0|] eqn:Ht; [|done]. intros [= <-]. by apply CopyTrie_ok, (ook_trie _ Hok).
Qed.

Lemma Copy_spec s l : Inv s -> tracked s l -> exists c, Copy s = Ok c /\ Inv c /\
  (forall a, db_nonce c a = db_nonce s a) /\ journal c = [] /\ validRevisions c = [].
Proof.
  intros Hi Ht. unfold Copy.
  destruct (copyObjects_spec (elements (stateObjectsDirty s)) (stateObjects s)) as (m & -> & Hm).
  { intros a Ha%elem_of_elements. by destruct (tr_dirty _ _ Ht a Ha) as [o Ho]; exists o. }
  destruct (CopyTrie_ok (trie s) (inv_trie _ Hi)) as [Hok Hview].
  assert (forall a, tload (CopyTrie (trie s)) a = (tload (trie s) a : option (stateObject E T))) as Hload.
  { intros a. apply tload_view. intros k. by rewrite Hview. }
  assert (forall a o, m !! a = Some o -> exists o0, stateObjects s !! a = Some o0 /\ o = deepCopy o0 true) as Hinv.
  { intros a o. rewrite Hm. case_decide; [|done]. intros (o0 & -> & Ho)%fmap_Some. by exists o0. }
  simpl. eexists. split; [done|]. split_and!; try done.
  - split; simpl; try done.
    + intros a o (o0 & Ho & ->)%Hinv. exact (inv_address _ Hi a o0 Ho).
    + intros a o (o0 & Ho & ->)%Hinv. by apply deepCopy_ok, (inv_obj _ Hi a).
    + intros a o (o0 & Ho & ->)%Hinv. simpl. rewrite Hload. exact (inv_deleted _ Hi a o0 Ho).
    + intros a o. rewrite Hload. apply (inv_stored _ Hi).
    + apply (inv_logSize _ Hi).
  - intros a. unfold db_nonce, load. simpl. rewrite Hm, Hload. case_decide as Hd.
    + rewrite elem_of_elements in Hd. destruct (tr_dirty _ _ Ht a Hd) as [o Ho]. rewrite Ho. simpl.
      destruct (deleted o); [done|]. pose proof (deepCopy_data o true (inv_obj _ Hi _ _ Ho)) as Hdd. unfold deepCopy in Hdd. simpl in Hdd.
      simpl. by rewrite Hdd.
    + rewrite elem_of_elements in Hd. destruct (stateObjects s !! a) as [o|] eqn:Ho; [|done].
      destruct (tr_clean _ _ Ht a o Ho Hd) as (_ & -> & _ & _ & o0 & -> & ->). done.
Qed.

Lemma ManageState_represents s l : Inv s -> tracked s l -> (forall a, 0 <= db_nonce s a < 2 ^ 64) ->
  exists ms, ManageState s = Ok ms /\ represents ms (mkNonces (db_nonce s) ∅).
Proof.
  intros Hi Ht Hw. destruct (Copy_spec s l Hi Ht) as (c & Hc & Hic & Hn & _). unfold ManageState. rewrite Hc.
  eexists. split; [done|]. split; [split; simpl; try done|].
  - intros a. rewrite Hn. apply Hw.
  - intros a. unfold virtual_nonce, nonce_at. simpl. apply Hn.
Qed.

(** ** Sequences of operations *)

Inductive nonce_op : Type := NGet (a : Address) | NSet (a : Address) (n : Z) | NNew (a : Address).

(** The specification: answers and nonces; an overflow has no specification. *)
Definition spec_op (o : nonce_op) (v : Nonces) : option (Z * Nonces) :=
  match o with
  | NGet a => Some (nonce_at v a, v)
  | NSet a n => if (0 <=? n) && (n <? 2 ^ 64) then Some (0, set_nonce v a n) else None
  | NNew a => let n := nonce_at v a in if n + 1 <? 2 ^ 64 then Some (n, set_nonce v a (n + 1)) else None
  end.

Definition run_op (o : nonce_op) ms : outcome (stateErr E) (Z * ManagedState E T) :=
  match o with
  | NGet a => ms_GetNonce a ms
  | NSet a n => '(_, ms) ← ms_SetNonce a n ms; Ok (0, ms)
  | NNew a => NewNonce a ms
  end.

Fixpoint spec_ops (os : list nonce_op) (v : Nonces) : option (list Z * Nonces) :=
  match os with
  | [] => Some ([], v)
  | o :: os => '(r, v) ← spec_op o v; '(rs, v) ← spec_ops os v; Some (r :: rs, v)
  end.

Fixpoint run_ops (os : list nonce_op) ms : outcome (stateErr E) (list Z * ManagedState E T) :=
  match os with
  | [] => Ok ([], ms)
  | o :: os => '(r, ms) ← run_op o ms; '(rs, ms) ← run_ops os ms; Ok (r :: rs, ms)
  end.

Lemma run_op_refines o ms v r v' : represents ms v -> spec_op o v = Some (r, v') ->
  exists ms', run_op o ms = Ok (r, ms') /\ represents ms' v'.
Proof.
  intros Hr. destruct o as [a|a n|a]; simpl.
  - intros [= <- <-]. by apply GetNonce_refines.
  - destruct (_ && _) eqn:Hb; [|done]. intros [= <- <-]. apply andb_true_iff in Hb as [?%Z.leb_le ?%Z.ltb_lt].
    destruct (SetNonce_refines ms v a n Hr ltac:(lia)) as (ms' & -> & Hr'). by exists ms'.
  - destruct (Z.ltb_spec (nonce_at v a + 1) (2 ^ 64)); [|done]. intros [= <- <-]. by apply NewNonce_refines.
Qed.

(** C33: The managed state of a state implements a table of nonces that starts from
    the state's: every sequence of [GetNonce], [SetNonce] and [NewNonce] answers
    like the table, until a nonce leaves 64 bits. *)
Theorem managed_nonces s l : Inv s -> tracked s l -> (forall a, 0 <= db_nonce s a < 2 ^ 64) ->
  exists ms, ManageState s = Ok ms /\ forall os rs v', spec_ops os (mkNonces (db_nonce s) ∅) = Some (rs, v') ->
    exists ms', run_ops os ms = Ok (rs, ms') /\ represents ms' v'.
Proof.
  intros Hi Ht Hw. destruct (ManageState_represents s l Hi Ht Hw) as (ms & Hm & Hr). exists ms. split; [done|].
  clear Hm. revert ms Hr. generalize (mkNonces (db_nonce s) ∅). intros v ms Hr os. revert ms v Hr.
  induction os as [|o os IH]; intros ms v Hr rs v' Hs; simpl in *; [injection Hs as <- <-; by exists ms|].
  apply bind_Some in Hs as ((r & v1) & Ho & Hs). apply bind_Some in Hs as ((rs1 & v2) & Hos & [= <- <-]).
  destruct (run_op_refines o ms v r v1 Hr Ho) as (ms1 & -> & Hr1). simpl.
  destruct (IH ms1 v1 Hr1 rs1 v2 Hos) as (ms2 & -> & Hr2). by exists ms2.
Qed.

End Refinement.

Definition exAccount : Address := replicate 19 0 ++ [5].

Lemma managed_nonces_witness : exists ms ms', ManageState memState = Ok ms /\
  run_ops [NNew exAccount; NGet exAccount; NSet exAccount 9; NNew exAccount; NNew exAccount; NGet exAccount] ms =
    Ok ([0; 1; 0; 9; 10; 11], ms').
Proof.
  destruct memState_between as (Hi & _ & _ & Ht).
  destruct (managed_nonces memState [] Hi Ht) as (ms & Hm & Hrun).
  { intros a. unfold db_nonce, load. simpl. rewrite lookup_empty. done. }
  exists ms. destruct (Hrun [NNew exAccount; NGet exAccount; NSet exAccount 9; NNew exAccount; NNew exAccount; NGet exAccount]
    [0; 1; 0; 9; 10; 11] (set_nonce (set_nonce (set_nonce (set_nonce (mkNonces (db_nonce memState) ∅) exAccount 1) exAccount 9) exAccount 10) exAccount 11))
    as (ms' & Hr & _); [vm_compute; reflexivity|]. exists ms'. split; [exact Hm|exact Hr].
Defined.
