(* ===== verification/StateFrame.v ===== *)
(** * What the operations of the account state leave alone

    The context of a transaction and the bindings of the account trie are
    untouched by every operation, by reverts too; the logs and the refund by all
    but the operations on them. *)

From stdpp Require Import base gmap list.
From S2P Require Import Prelude Types TrieIface StateObject StateDB StateView.
Local Open Scope Z_scope.

Section Frame.
Context {E T : Type} `{StateEnvLaws E T}.
Abbreviation St := (StateDB E T).
Implicit Types s : St.

(** The transaction context and the bindings of the account trie. *)
Record same_context s s' : Prop := {
  sc_view k : t_view (trie s') k = t_view (trie s) k;
  sc_thash : thash s' = thash s;
  sc_index : txIndex s' = txIndex s;
}.

Record same_logs s s' : Prop := {
  sl_context : same_context s s';
  sl_logs : logs s' = logs s;
  sl_size : logSize s' = logSize s;
  sl_refund : refund s' = refund s;
}.

#[export] Instance same_context_preorder : PreOrder same_context.
Proof.
  split; [by intros s; split|]. intros s1 s2 s3 [V1 ? ?] [V2 ? ?]. split; congruence.
Qed.

#[export] Instance same_logs_preorder : PreOrder same_logs.
Proof.
  split; [by intros s|]. intros s1 s2 s3 [? ? ? ?] [? ? ? ?]. split; try congruence. by etransitivity.
Qed.

(** [m] relates the states before and after it by [R]. *)
Definition framed {A} (R : St -> St -> Prop) (m : M E T A) : Prop := forall s r s',
  t_ok (trie s) -> m s = Ok (r, s') -> t_ok (trie s') /\ R s s'.

Lemma framed_ret {A} R `{!PreOrder R} (a : A) : framed R (mret a).
Proof. intros s r s' Ht [= _ <-]. by split. Qed.

Lemma framed_bind {A B} R `{!PreOrder R} (m : M E T A) (k : A -> M E T B) :
  framed R m -> (forall a, framed R (k a)) -> framed R (m ≫= k).
Proof.
  intros Hm Hk s r s' Ht. unfold mbind, M_bind. destruct (m s) as [[a s1]| | |] eqn:Em; try done. intros Hr.
  destruct (Hm s a s1 Ht Em) as [Ht1 HR1]. destruct (Hk a s1 r s' Ht1 Hr) as [Ht' HR2]. split; [done|by etransitivity].
Qed.

Lemma framed_modify (R : St -> St -> Prop) (f : St -> St) : (forall s, trie (f s) = trie s) -> (forall s, R s (f s)) -> framed R (modify f).
Proof. intros Hf HR s r s' Ht [= _ <-]. by rewrite Hf. Qed.

Lemma framed_getS R `{!PreOrder R} : framed R getS.
Proof. intros s r s' Ht [= _ <-]. by split. Qed.

Lemma framed_lift {A} R `{!PreOrder R} (o : outcome (stateErr E) A) : framed R (lift o).
Proof. intros s r s' Ht. unfold lift. destruct o; try done. intros [= _ <-]. by split. Qed.

Lemma framed_weaken {A} (m : M E T A) : framed same_logs m -> framed same_context m.
Proof. intros Hm s r s' Ht Hr. destruct (Hm s r s' Ht Hr) as [? []]. done. Qed.

Lemma framed_getStateObject a : framed same_logs (getStateObject a).
Proof.
  intros s r s' Ht. unfold getStateObject. destruct (stateObjects s !! a); [by intros [= _ <-]|].
  destruct (tGet_ok (trie s) a Ht) as (t' & -> & Ht' & Hv).
  assert (same_logs s (st_trie s t')) as Hs by (by split; [split|..]).
  destruct (length _ =? 0)%nat; [by intros [= _ <-]|]. destruct (decodeAccount _); intros [= _ <-]; by split.
Qed.

Hint Resolve framed_getStateObject framed_weaken : framed.
Ltac framed :=
  repeat first
    [ progress eauto with framed
    | apply framed_ret; apply _
    | apply framed_getS; apply _
    | apply framed_lift; apply _
    | apply framed_bind; [apply _| |]
    | apply framed_modify; [done|]
    | progress intros
    | match goal with
      | |- framed _ (match ?x with _ => _ end) => destruct x
      end
    | by repeat split ].

Lemma framed_createObject a : framed same_logs (createObject a).
Proof. unfold createObject. framed. Qed.
Hint Resolve framed_createObject : framed.

Lemma framed_GetOrNew a : framed same_logs (GetOrNewStateObject a).
Proof. unfold GetOrNewStateObject. framed. Qed.
Hint Resolve framed_GetOrNew : framed.

Lemma framed_CreateAccount a : framed same_logs (CreateAccount a).
Proof. unfold CreateAccount. framed. Qed.
Lemma framed_SetNonce a n : framed same_logs (SetNonce a n).
Proof. unfold SetNonce, upd_object. framed. Qed.
Lemma framed_SetCode a c : framed same_logs (SetCode a c).
Proof. unfold SetCode, upd_object. framed. Qed.
Lemma framed_SetState a k v : framed same_logs (SetState a k v).
Proof. unfold SetState, upd_object. framed. Qed.
Lemma framed_GetState a k : framed same_logs (GetState a k).
Proof. unfold GetState. framed. Qed.
Lemma framed_GetNonce a : framed same_logs (GetNonce a).
Proof. unfold GetNonce. framed. Qed.
Lemma framed_AddLog l : framed same_context (AddLog l).
Proof. unfold AddLog. framed. Qed.

Lemma framed_undo e : framed same_context (undo e).
Proof. destruct e; simpl; unfold deref, upd_object; framed. Qed.

Lemma framed_undos es : framed same_context (mapM_ undo es).
Proof. induction es as [|e es IH]; simpl; [framed|]. apply framed_bind; [apply _|apply framed_undo|done]. Qed.

Hint Resolve framed_undos : framed.

Lemma framed_Revert id : framed same_context (RevertToSnapshot id).
Proof.
  unfold RevertToSnapshot. framed.
Qed.

End Frame.
