(* ===== verification/StateSim.v ===== *)
(** * Two account states that answer alike

    Two states whose accounts answer the same questions stay so when the same
    operations run on both, although their caches, dirty sets and journals
    differ.  The relation also follows the snapshots that both sides can still
    return to, so that reverting on both sides keeps it, and finalising. *)

From stdpp Require Import base gmap list.
From S2P Require Import Prelude Types TrieIface StateObject StateDB StateView StateRevert StateHistory StateInstance.
From S2P Require Import StateFlush StateDirty StateFinalise StateFrame.
Local Open Scope Z_scope.

Section Sim.
Context {E T : Type} `{StateEnvLaws E T}.
Abbreviation St := (StateDB E T).
Abbreviation Obj := (stateObject E T).
Implicit Types (s g : St) (o : Obj).

(** ** The relation *)

Record same_view o o' : Prop := {
  sv_nonce : Nonce (data o) = Nonce (data o');
  sv_hash : codeHashBytes (data o) = codeHashBytes (data o');
  sv_code : cview o = cview o';
  sv_storage k : sview o k = sview o' k;
  sv_suicided : suicided o = suicided o';
}.

Lemma same_obj_view o o' : same_obj o o' -> same_view o o'.
Proof. by intros []. Qed.

#[export] Instance same_view_equiv : Equivalence same_view.
Proof.
  split; [by intros o|by intros o o' []|]. intros o1 o2 o3 [] []. split; congruence.
Qed.

Lemma empty_view o o' : same_view o o' -> empty o = empty o'.
Proof. intros [Hn Hh _ _ _]. unfold empty. by rewrite Hn, Hh. Qed.

(** A log without the hash of the block, which is not known while the block is
    produced. *)
Definition without_block (l : Log) : Log :=
  mkLog (log_Address l) (log_Topics l) (log_Data l) (log_BlockNumber l) (log_TxHash l) (log_TxIndex l)
    zeroHash (log_Index l) (log_Removed l).

Definition logs_at s (h : Hash) : list Log := default [] (logs s !! h).

Record answers_eq s s' : Prop := {
  ae_load a : opt_rel same_view (load s a) (load s' a);
  ae_logs h : map without_block (logs_at s h) = map without_block (logs_at s' h);
  ae_size : logSize s = logSize s';
  ae_refund : refund s = refund s';
}.

#[export] Instance answers_eq_equiv : Equivalence answers_eq.
Proof.
  split.
  - intros s. by split.
  - intros s s' []. by split.
  - intros s1 s2 s3 [] []. split; try congruence. intros a. by transitivity (load s2 a).
Qed.

Lemma state_eq_answers_eq s s' : state_eq s s' -> answers_eq s s'.
Proof.
  intros [Hl _ ? Hlogs ? _]. split; try done.
  - intros a. specialize (Hl a). destruct (load s a), (load s' a); try done. by apply same_obj_view.
  - intros h. unfold logs_at. by rewrite Hlogs.
Qed.

(** No account in the trie is empty. *)
Definition no_empty s : Prop := forall a o, tload (trie s) a = Some o -> empty o = false.

(** A state within a transaction: [stk] are the snapshots it can return to. *)
Definition open_at (stk : list (Z * St)) s : Prop :=
  history s stk /\ tracked s (rev (journal s)) /\ no_empty s.

(** The snapshots both sides can return to, with the states they were taken in. *)
Abbreviation pending := (list ((Z * St) * (Z * St))).

Record paired (L : pending) s1 s2 : Prop := {
  pd_left : exists k, open_at k s1 /\ map fst L `sublist_of` k;
  pd_right : exists k, open_at k s2 /\ map snd L `sublist_of` k;
  pd_pending : Forall (fun p => answers_eq p.1.2 p.2.2) L;
  pd_eq : answers_eq s1 s2;
  pd_thash : thash s1 = thash s2;
  pd_index : txIndex s1 = txIndex s2;
}.

(** Both computations panic, or return related results and states. *)
Definition both {A} (L : pending) (m1 m2 : M E T A) (R : A -> A -> Prop) (L' : pending) : Prop :=
  forall s1 s2, paired L s1 s2 ->
  match m1 s1, m2 s2 with
  | Ok (a1, t1), Ok (a2, t2) => R a1 a2 /\ paired L' t1 t2
  | Panic, Panic => True
  | _, _ => False
  end.

Lemma open_inv stk s : open_at stk s -> Inv s.
Proof. intros [Hh _]. by apply history_inv in Hh. Qed.

Lemma paired_inv L s1 s2 : paired L s1 s2 -> Inv s1 /\ Inv s2.
Proof. intros [(? & ? & _) (? & ? & _) _ _ _ _]. by split; eapply open_inv. Qed.

Lemma no_empty_view s s' : no_empty s -> (forall k, t_view (trie s') k = t_view (trie s) k) -> no_empty s'.
Proof. intros Hn Hv a o. rewrite (tload_view (trie s') (trie s)) by done. apply Hn. Qed.

(** ** One operation *)

Lemma open_step stk s s' w : open_at stk s -> op_ok w -> exec w s = Ok ((), s') ->
  (forall k, t_view (trie s') k = t_view (trie s) k) -> open_at stk s'.
Proof.
  intros (Hh & Ht & Hn) Hok He Hc. pose proof (history_inv _ _ Hh) as Hi. split_and!.
  - destruct (exec_undoable s w Hi) as (t & Ht' & Hu). rewrite He in Ht'. injection Ht' as <-. by apply history_undoable with s.
  - destruct (exec_tracked s (rev (journal s)) w Hi Ht Hok) as (r & t & es & Ht' & _ & Hj & Htr). destruct r. rewrite He in Ht'.
    injection Ht' as <-. by rewrite Hj, rev_app_distr.
  - by apply no_empty_view with s.
Qed.

(** The same operation on both sides, when it keeps the answers alike. *)
Lemma both_exec L w : op_ok w -> framed same_context (exec w : M E T unit) ->
  (forall s1 s2 t1 t2, Inv s1 -> Inv s2 -> thash s1 = thash s2 -> txIndex s1 = txIndex s2 -> answers_eq s1 s2 ->
     exec w s1 = Ok ((), t1) -> exec w s2 = Ok ((), t2) -> answers_eq t1 t2) ->
  both L (exec w) (exec w) eq L.
Proof.
  intros Hok Hf Hw s1 s2 Hp. destruct (paired_inv _ _ _ Hp) as [Hi1 Hi2].
  destruct (exec_undoable s1 w Hi1) as (t1 & Ht1 & Hu1). destruct (exec_undoable s2 w Hi2) as (t2 & Ht2 & Hu2).
  rewrite Ht1, Ht2. split; [done|].
  destruct (Hf s1 () t1 (inv_trie _ Hi1) Ht1) as [_ Hc1]. destruct (Hf s2 () t2 (inv_trie _ Hi2) Ht2) as [_ Hc2].
  destruct Hp as [(k1 & Ho1 & Hk1) (k2 & Ho2 & Hk2) HL He Hth Hix]. destruct Hc1 as [V1 ? ?], Hc2 as [V2 ? ?].
  split; try congruence.
  - exists k1. split; [by apply open_step with s1 w|done].
  - exists k2. split; [by apply open_step with s2 w|done].
  - by apply (Hw s1 s2).
Qed.

(** Operations that leave the logs alone are compared account by account. *)
Lemma answers_eq_accounts s1 s2 t1 t2 : answers_eq s1 s2 -> same_logs s1 t1 -> same_logs s2 t2 ->
  (forall a, opt_rel same_view (load t1 a) (load t2 a)) -> answers_eq t1 t2.
Proof.
  intros [_ Hl Hs Hr] [_ L1 S1 R1] [_ L2 S2 R2] Ha. split; [done| |congruence..].
  intros h. unfold logs_at in *. rewrite L1, L2. apply Hl.
Qed.

Lemma target_view s1 s2 a : answers_eq s1 s2 -> same_view (target s1 a) (target s2 a).
Proof.
  intros He. pose proof (ae_load _ _ He a) as Ha. unfold target.
  by destruct (load s1 a), (load s2 a).
Qed.

Lemma both_sets L w a (P : St -> Obj -> Prop) : op_ok w -> framed same_logs (exec w : M E T unit) ->
  (forall s, Inv s -> sets s a (exec w) (P s)) ->
  (forall s1 s2 o1 o2, same_view (target s1 a) (target s2 a) -> P s1 o1 -> P s2 o2 -> same_view o1 o2) ->
  both L (exec w) (exec w) eq L.
Proof.
  intros Hok Hf Hs HP. apply both_exec; [done|by apply framed_weaken|].
  intros s1 s2 t1 t2 Hi1 Hi2 _ _ He Ht1 Ht2.
  apply answers_eq_accounts with s1 s2; [done|by apply (Hf s1 ()); [apply inv_trie|]|by apply (Hf s2 ()); [apply inv_trie|]|].
  destruct (Hs s1 Hi1) as (u1 & Hu1 & _ & Hother1 & o1 & Hl1 & _ & HP1). rewrite Ht1 in Hu1. injection Hu1 as <-.
  destruct (Hs s2 Hi2) as (u2 & Hu2 & _ & Hother2 & o2 & Hl2 & _ & HP2). rewrite Ht2 in Hu2. injection Hu2 as <-.
  intros b. destruct (decide (b = a)) as [->|Hb].
  - rewrite Hl1, Hl2. simpl. apply HP with s1 s2; try done. by apply target_view.
  - rewrite Hother1, Hother2 by done. apply (ae_load _ _ He).
Qed.

Lemma both_SetNonce L a n : both L (SetNonce a n) (SetNonce a n) eq L.
Proof.
  eapply (both_sets L (OpSetNonce a n) a); [done|apply framed_SetNonce|intros s Hi; exact (SetNonce_sets s a n Hi)|].
  intros s1 s2 o1 o2 [] (? & ? & ? & S1 & ?) (? & ? & ? & S2 & ?). split; congruence.
Qed.

Lemma both_SetCode L a c : both L (SetCode a c) (SetCode a c) eq L.
Proof.
  eapply (both_sets L (OpSetCode a c) a); [done|apply framed_SetCode|intros s Hi; exact (SetCode_sets s a c Hi)|].
  intros s1 s2 o1 o2 [] (? & ? & ? & S1 & ?) (? & ? & ? & S2 & ?). split; congruence.
Qed.

Lemma both_SetState L a k v : length v = 32%nat -> both L (SetState a k v) (SetState a k v) eq L.
Proof.
  intros Hv.
  eapply (both_sets L (OpSetState a k v) a); [done|apply framed_SetState|intros s Hi; exact (SetState_sets s a k v Hi)|].
  intros s1 s2 o1 o2 [] (? & ? & ? & S1 & ?) (? & ? & ? & S2 & ?). split; try congruence. intros k'. rewrite S1, S2.
  by destruct (decide _).
Qed.

Lemma both_CreateAccount L a : both L (CreateAccount a) (CreateAccount a) eq L.
Proof.
  eapply (both_sets L (OpCreateAccount a) a); [done|apply framed_CreateAccount|intros s Hi; exact (CreateAccount_sets s a Hi)|].
  intros s1 s2 o1 o2 _ -> ->. reflexivity.
Qed.

(** ** Composition *)

Lemma both_ret {A} L (R : A -> A -> Prop) a1 a2 : R a1 a2 -> both L (mret a1) (mret a2) R L.
Proof. by intros HR s1 s2 Hp. Qed.

Lemma both_bind {A B} L L1 L2 (m1 m2 : M E T A) (k1 k2 : A -> M E T B) (R : A -> A -> Prop) (Q : B -> B -> Prop) :
  both L m1 m2 R L1 -> (forall a1 a2, R a1 a2 -> both L1 (k1 a1) (k2 a2) Q L2) -> both L (m1 ≫= k1) (m2 ≫= k2) Q L2.
Proof.
  intros Hm Hk s1 s2 Hp. specialize (Hm s1 s2 Hp). unfold mbind, M_bind.
  destruct (m1 s1) as [[a1 t1]| | |], (m2 s2) as [[a2 t2]| | |]; try done. destruct Hm as [HR Hp']. by apply Hk.
Qed.

Lemma paired_drop L e s1 s2 : paired (e :: L) s1 s2 -> paired L s1 s2.
Proof.
  intros [(k1 & ? & Hk1) (k2 & ? & Hk2) HL ? ? ?]. simpl in Hk1, Hk2. apply Forall_cons in HL as [_ HL].
  split; try done; [exists k1|exists k2]; (split; [done|]); (etransitivity; [|eassumption]); by apply sublist_cons.
Qed.

Lemma both_drop {A} L L' e (m1 m2 : M E T A) R : both L m1 m2 R (e :: L') -> both L m1 m2 R L'.
Proof.
  intros Hm s1 s2 Hp. specialize (Hm s1 s2 Hp). destruct (m1 s1) as [[]| | |], (m2 s2) as [[]| | |]; try done.
  destruct Hm as [? ?]. split; [done|by eapply paired_drop].
Qed.

(** ** Reads *)

Lemma answers_eq_state s1 s2 t1 t2 : answers_eq s1 s2 -> state_eq t1 s1 -> state_eq t2 s2 -> answers_eq t1 t2.
Proof.
  intros He Ht1%state_eq_answers_eq Ht2%state_eq_answers_eq. rewrite Ht1, He. by symmetry.
Qed.

Lemma both_read {A} L a (f : option Obj -> A) : (forall x y, opt_rel same_view x y -> f x = f y) ->
  both L (o ← getStateObject a; mret (f o)) (o ← getStateObject a; mret (f o)) eq L.
Proof.
  intros Hf s1 s2 Hp. destruct (paired_inv _ _ _ Hp) as [Hi1 Hi2].
  assert (both L (exec (OpGetNonce a)) (exec (OpGetNonce a)) eq L) as Hb.
  { apply both_exec; [done| |].
    - apply framed_weaken, framed_bind; [apply _|apply framed_GetNonce|intros ?; apply framed_ret; apply _].
    - intros t1 t2 u1 u2 Ht1 Ht2 _ _ He. simpl. unfold GetNonce, mbind, M_bind.
      destruct (getStateObject_spec t1 a Ht1) as (v1 & -> & _ & Hl1 & _).
      destruct (getStateObject_spec t2 a Ht2) as (v2 & -> & _ & Hl2 & _). intros [= <-] [= <-].
      by apply answers_eq_state with t1 t2; [|apply loaded_state_eq..]. }
  specialize (Hb s1 s2 Hp). simpl in Hb. unfold GetNonce, mbind, M_bind in *.
  destruct (getStateObject_spec s1 a Hi1) as (t1 & G1 & _). destruct (getStateObject_spec s2 a Hi2) as (t2 & G2 & _).
  rewrite G1, G2 in Hb |- *. simpl in *. destruct Hb as [_ Hb]. split; [|done].
  apply Hf, (ae_load _ _ (pd_eq _ _ _ Hp)).
Qed.

Lemma both_GetNonce L a : both L (GetNonce a) (GetNonce a) eq L.
Proof. apply both_read. intros [x|] [y|]; try done. by intros []. Qed.

Lemma both_Exist L a : both L (Exist a) (Exist a) eq L.
Proof. apply both_read. by intros [x|] [y|]. Qed.

Lemma both_GetCodeHash L a : both L (GetCodeHash a) (GetCodeHash a) eq L.
Proof. apply both_read. intros [x|] [y|]; try done. intros []. simpl. congruence. Qed.

Lemma both_GetState L a k : both L (GetState a k) (GetState a k) eq L.
Proof.
  intros s1 s2 Hp. destruct (paired_inv _ _ _ Hp) as [Hi1 Hi2].
  assert (both L (exec (OpGetState a k)) (exec (OpGetState a k)) eq L) as Hb.
  { apply both_exec; [done| |].
    - apply framed_weaken, framed_bind; [apply _|apply framed_GetState|intros ?; apply framed_ret; apply _].
    - intros t1 t2 u1 u2 Ht1 Ht2 _ _ He. simpl. unfold mbind, M_bind.
      destruct (GetState_undoable t1 a k Ht1) as (v1 & -> & U1 & J1).
      destruct (GetState_undoable t2 a k Ht2) as (v2 & -> & U2 & J2). intros [= <-] [= <-].
      by apply answers_eq_state with t1 t2; [|apply undoable_same_journal..]. }
  specialize (Hb s1 s2 Hp). simpl in Hb. unfold mbind, M_bind in *.
  destruct (GetState_undoable s1 a k Hi1) as (t1 & G1 & _). destruct (GetState_undoable s2 a k Hi2) as (t2 & G2 & _).
  rewrite G1, G2 in Hb |- *. simpl in Hb. destruct Hb as [_ Hb]. split; [|done].
  pose proof (ae_load _ _ (pd_eq _ _ _ Hp) a) as Ha. destruct (load s1 a), (load s2 a); try done. by destruct Ha.
Qed.

(** ** Logs *)

Lemma load_logs s l n e a : load (st_logs (journal_append s e) l n) a = load s a.
Proof. done. Qed.

Lemma both_AddLog L l : both L (AddLog l) (AddLog l) eq L.
Proof.
  apply (both_exec L (OpAddLog l)); [done|apply framed_AddLog|].
  intros s1 s2 t1 t2 _ _ Hth Hix [Ha Hl Hs Hr] [= <-] [= <-]. split; simpl; try congruence; [done|].
  intros h. specialize (Hl h). unfold logs_at in *. simpl. rewrite <- Hth, !lookup_insert.
  destruct (decide (thash s1 = h)) as [->|]; [|done]. simpl. rewrite !map_app, Hl. f_equal.
  simpl. unfold without_block. simpl. by rewrite Hix, Hs.
Qed.

Lemma both_GetLogs L h : both L (GetLogs h) (GetLogs h) (fun x y => map without_block x = map without_block y) L.
Proof. intros s1 s2 Hp. simpl. split; [|done]. apply (ae_logs _ _ (pd_eq _ _ _ Hp)). Qed.

(** Each side may give its own block hash. *)
Lemma both_Prepare L th bh1 bh2 ti : both L (Prepare th bh1 ti) (Prepare th bh2 ti) eq L.
Proof.
  intros s1 s2 [(k1 & Ho1 & Hk1) (k2 & Ho2 & Hk2) HL [Ha Hl Hs Hr] _ _]. simpl. split; [done|]. split; try done.
  - exists k1. split; [|done]. by apply open_step with s1 (OpPrepare th bh1 ti).
  - exists k2. split; [|done]. by apply open_step with s2 (OpPrepare th bh2 ti).
Qed.

(** ** Snapshots *)

Lemma open_snapshot stk s : open_at stk s -> exists id s', Snapshot s = Ok (id, s') /\
  open_at ((id, s) :: stk) s' /\ state_eq s' s /\ thash s' = thash s /\ txIndex s' = txIndex s.
Proof.
  intros (Hh & Ht & Hn). eexists _, _. split; [done|]. split; [|done]. split_and!; try done.
  - by eapply history_take.
  - by apply tracked_ext with s.
Qed.

Lemma both_Snapshot L s1 s2 : paired L s1 s2 -> exists id1 id2 t1 t2,
  Snapshot s1 = Ok (id1, t1) /\ Snapshot s2 = Ok (id2, t2) /\ paired (((id1, s1), (id2, s2)) :: L) t1 t2.
Proof.
  intros [(l1 & Ho1 & Hl1) (l2 & Ho2 & Hl2) HL He Hth Hix].
  destruct (open_snapshot l1 s1 Ho1) as (id1 & t1 & G1 & Ot1 & Ht1 & Hth1 & Hix1).
  destruct (open_snapshot l2 s2 Ho2) as (id2 & t2 & G2 & Ot2 & Ht2 & Hth2 & Hix2).
  exists id1, id2, t1, t2. split_and!; [done..|]. split; try congruence.
  - exists ((id1, s1) :: l1). split; [done|]. simpl. by apply sublist_skip.
  - exists ((id2, s2) :: l2). split; [done|]. simpl. by apply sublist_skip.
  - by constructor.
  - by apply answers_eq_state with s1 s2.
Qed.

Lemma history_pop k id g stk s : history s (k ++ (id, g) :: stk) -> history g stk.
Proof.
  revert s. induction k as [|[i g'] k IH]; simpl; intros s Hh; inversion Hh; subst; [done|by eapply IH].
Qed.

Lemma open_revert k id g stk s : open_at (k ++ (id, g) :: stk) s -> exists r, RevertToSnapshot id s = Ok ((), r) /\
  open_at stk r /\ like g r /\ thash r = thash s /\ txIndex r = txIndex s.
Proof.
  intros (Hh & Ht & Hn). destruct (revert_valid s _ id g Hh) as (r & _ & Hr & Hlk & _); [set_solver|].
  destruct (framed_Revert id s () r) as [_ [Hv Hth Hix]]; [by apply inv_trie; apply history_inv in Hh|done|].
  exists r. split; [done|]. split; [|done]. split_and!.
  - apply history_like with g; [|done]. by apply history_pop in Hh.
  - apply (run_tracked [RevertTo id] s _ r Hh Ht); [by repeat constructor|].
    unfold run. simpl. unfold mbind, M_bind. by rewrite Hr.
  - by apply no_empty_view with s.
Qed.

Lemma both_Revert L id1 g1 id2 g2 :
  both (((id1, g1), (id2, g2)) :: L) (RevertToSnapshot id1) (RevertToSnapshot id2) eq L.
Proof.
  intros s1 s2 [(l1 & Ho1 & Hl1) (l2 & Ho2 & Hl2) HL He Hth Hix]. apply Forall_cons in HL as [Hg HL]. simpl in *.
  apply sublist_cons_l in Hl1 as (p1 & q1 & -> & Hl1). apply sublist_cons_l in Hl2 as (p2 & q2 & -> & Hl2).
  destruct (open_revert _ _ _ _ _ Ho1) as (r1 & -> & Hr1 & E1 & ? & ?).
  destruct (open_revert _ _ _ _ _ Ho2) as (r2 & -> & Hr2 & E2 & ? & ?). split; [done|]. split; try congruence.
  - by exists q1.
  - by exists q2.
  - by apply answers_eq_state with g1 g2; [|apply lk_eq..].
Qed.

(** ** Finalising *)

Lemma clean_not_empty s l a o : tracked s l -> no_empty s -> a ∉ stateObjectsDirty s -> load s a = Some o -> empty o = false.
Proof.
  intros Ht Hn Ha Hl. unfold load in Hl. destruct (stateObjects s !! a) as [o'|] eqn:Ho; [|by apply (Hn a)].
  destruct (deleted o'); [done|]. injection Hl as ->.
  destruct (tr_clean _ _ Ht a o Ho Ha) as (_ & _ & _ & _ & o0 & Hl0 & Hd). apply Hn in Hl0.
  unfold empty in *. by rewrite Hd.
Qed.

(** Without empty accounts in the trie, what stays does not depend on the dirty set. *)
Lemma settled_view s s' a l : tracked s l -> no_empty s -> settled s s' a ->
  match load s a with
  | Some o => if suicided o || empty o then load s' a = None /\ tload (trie s') a = None
              else exists o' o0, load s' a = Some o' /\ same_obj o' o /\ tload (trie s') a = Some o0 /\ empty o0 = false
  | None => load s' a = None /\ tload (trie s') a = None
  end.
Proof.
  intros Ht Hn. unfold settled. destruct (load s a) as [o|] eqn:Hl; [|done].
  case_bool_decide as Ha; simpl.
  - destruct (suicided o); simpl; [done|]. destruct (empty o) eqn:He; [done|]. intros (o' & o0 & ? & Hs & ? & Hd & _).
    exists o', o0. split_and!; try done. unfold empty in *. destruct Hs as [_ _ Hn' Hc _ _ _]. by rewrite Hd, Hn', Hc.
  - pose proof (clean_not_empty s l a o Ht Hn Ha Hl) as He. rewrite He, orb_false_r.
    destruct (suicided o); [done|]. simpl. intros (o' & o0 & ? & Hs & ? & Hd & _).
    exists o', o0. split_and!; try done. unfold empty in *. destruct Hs as [_ _ Hn' Hc _ _ _]. by rewrite Hd, Hn', Hc.
Qed.

Record same_tx s s' : Prop := {
  st_logs_eq : logs s' = logs s;
  st_size_eq : logSize s' = logSize s;
  st_thash_eq : thash s' = thash s;
  st_index_eq : txIndex s' = txIndex s;
}.

#[export] Instance same_tx_preorder : PreOrder same_tx.
Proof. split; [by intros s|]. intros s1 s2 s3 [] []. split; congruence. Qed.

Lemma framed_trie_write op : (forall t, t_ok t -> exists t', op t = (Ok (), t') /\ t_ok t') -> framed same_tx (trie_write op).
Proof.
  intros Hop s r s' Ht. unfold trie_write. destruct (Hop (trie s) Ht) as (t' & -> & Ht'). intros [= _ <-]. by split.
Qed.

Lemma framed_finaliseObject b a : framed same_tx (finaliseObject b a).
Proof.
  assert (forall k v, framed same_tx (trie_write (fun tr => tUpdate tr k v))) as Hu.
  { intros k v. apply framed_trie_write. intros t Ht. destruct (tUpdate_ok t k v Ht) as (t' & ? & ? & _). eauto. }
  assert (forall k, framed same_tx (trie_write (fun tr => tDelete tr k))) as Hd.
  { intros k. apply framed_trie_write. intros t Ht. destruct (tDelete_ok t k Ht) as (t' & ? & ? & _). eauto. }
  unfold finaliseObject, deleteStateObject, updateStateObject, deref.
  apply framed_bind; [apply _|apply framed_getS; apply _|]. intros s.
  apply framed_bind; [apply _|apply framed_lift; apply _|]. intros o.
  destruct (suicided o || _).
  - by apply framed_bind; [apply _|apply framed_modify|].
  - apply framed_bind; [apply _|apply framed_lift; apply _|]. intros o'. by apply framed_bind; [apply _|apply framed_modify|].
Qed.

Lemma framed_Finalise b : framed same_tx (Finalise b).
Proof.
  unfold Finalise. apply framed_bind; [apply _|apply framed_getS; apply _|]. intros s.
  apply framed_bind; [apply _| |by intros _; apply framed_modify].
  induction (elements (stateObjectsDirty s)) as [|a l IH]; simpl; [apply framed_ret; apply _|].
  by apply framed_bind; [apply _|apply framed_finaliseObject|].
Qed.

(** Between transactions: nothing is journalled, no snapshot is left. *)
Definition live s : Prop := forall a o, load s a = Some o -> suicided o = false /\ empty o = false.
Definition ready s : Prop := between s /\ no_empty s /\ live s.

Lemma ready_open s : ready s -> open_at [] s.
Proof.
  intros ((Hi & Hj & Hv & Ht) & Hn & _). split_and!; [by apply history_base|by rewrite Hj|done].
Qed.

Lemma ready_paired s : ready s -> paired [] s s.
Proof. intros Hs%ready_open. split; try done; by exists []. Qed.

Lemma ready_like k g r : ready g -> open_at k r -> like g r -> ready r.
Proof.
  intros ((_ & Hj & Hv & _) & _ & Hl) (_ & Ht & Hn) [Hs Hi Ej Ev _]. rewrite Ej, Hj in Ht.
  split; [split_and!; try done; congruence|]. split; [done|]. intros a o Ho. pose proof (se_load _ _ Hs a) as Ha.
  rewrite Ho in Ha. destruct (load g a) as [o'|] eqn:Hg; [|done]. apply Hl in Hg as [Hsu He]. simpl in Ha.
  rewrite (so_suicided _ _ Ha), (empty_view _ _ (same_obj_view _ _ Ha)). done.
Qed.

Lemma open_Finalise stk s : open_at stk s -> exists s', Finalise true s = Ok ((), s') /\ ready s' /\ same_tx s s' /\
  refund s' = 0 /\ forall a, match load s a with
    | Some o => if suicided o || empty o then load s' a = None else exists o', load s' a = Some o' /\ same_obj o' o
    | None => load s' a = None
    end.
Proof.
  intros (Hh & Ht & Hn). pose proof (history_inv _ _ Hh) as Hi.
  destruct (Finalise_spec s _ Hi Ht) as (s' & Hr & Hb & Hrf & Hs). exists s'. split; [done|].
  assert (forall a, _) as Hv by (intros a; exact (settled_view s s' a _ Ht Hn (Hs a))). split; [split; [done|split]|].
  - intros a o Ho. specialize (Hv a). destruct (load s a) as [p|]; [destruct (suicided p || empty p)|].
    + destruct Hv as [_ Hv]. by rewrite Hv in Ho.
    + destruct Hv as (o' & o0 & _ & _ & Hv & He). rewrite Hv in Ho. by injection Ho as <-.
    + destruct Hv as [_ Hv]. by rewrite Hv in Ho.
  - intros a o Ho. specialize (Hv a). destruct (load s a) as [p|]; [destruct (suicided p || empty p) eqn:Hd|].
    + destruct Hv as [Hv _]. by rewrite Hv in Ho.
    + destruct Hv as (o' & o0 & Hv & Hso & _). rewrite Hv in Ho. injection Ho as <-. apply orb_false_iff in Hd as [? ?].
      by rewrite (so_suicided _ _ Hso), (empty_view _ _ (same_obj_view _ _ Hso)).
    + destruct Hv as [Hv _]. by rewrite Hv in Ho.
  - split; [by apply (framed_Finalise true s () s'); [apply inv_trie|]|]. split; [done|]. intros a. specialize (Hv a).
    destruct (load s a) as [p|]; [destruct (suicided p || empty p)|]; [apply Hv| |apply Hv].
    destruct Hv as (o' & o0 & ? & ? & _). eauto.
Qed.

Lemma both_Finalise k1 k2 s1 s2 : open_at k1 s1 -> open_at k2 s2 -> answers_eq s1 s2 -> exists t1 t2,
  Finalise true s1 = Ok ((), t1) /\ Finalise true s2 = Ok ((), t2) /\ ready t1 /\ ready t2 /\
  answers_eq t1 t2 /\ same_tx s1 t1 /\ same_tx s2 t2.
Proof.
  intros Ho1 Ho2 [Ha Hl Hs Hr].
  destruct (open_Finalise _ _ Ho1) as (t1 & R1 & Y1 & [L1 S1 T1 X1] & F1 & V1).
  destruct (open_Finalise _ _ Ho2) as (t2 & R2 & Y2 & [L2 S2 T2 X2] & F2 & V2).
  exists t1, t2. split_and!; try done. split; try congruence.
  - intros a. specialize (Ha a). specialize (V1 a). specialize (V2 a).
    destruct (load s1 a) as [o1|], (load s2 a) as [o2|]; try done; [|by rewrite V1, V2].
    simpl in Ha. rewrite (sv_suicided _ _ Ha), (empty_view _ _ Ha) in V1.
    destruct (suicided o2 || empty o2); [by rewrite V1, V2|].
    destruct V1 as (p1 & -> & P1%same_obj_view), V2 as (p2 & -> & P2%same_obj_view). simpl. rewrite P1, Ha. by symmetry.
  - intros h. unfold logs_at in *. by rewrite L1, L2.
Qed.

Lemma load_hash s h tr a : ready s -> tHash (trie s) = (h, tr) -> load (st_trie s tr) a = load s a.
Proof.
  intros ((Hi & _) & _) Hh. destruct (tHash_ok (trie s) (inv_trie _ Hi)) as (_ & _ & Hview). rewrite Hh in Hview. simpl in Hview.
  unfold load. simpl. destruct (stateObjects s !! a); [done|]. by apply tload_view.
Qed.

Lemma ready_hash (u : St) h tr : ready u -> tHash (trie u) = (h, tr) -> ready (st_trie u tr).
Proof.
  intros ((Hi & Hj & Hv & Ht) & Hn & Hl) Hh. pose proof Hi as [It Ia Io Id Is Ls].
  destruct (tHash_ok (trie u) It) as (_ & Hok & Hview). rewrite Hh in Hok, Hview. simpl in Hok, Hview.
  assert (forall a, tload tr a = tload (trie u) a) as Htl by (intros a; by apply tload_view).
  assert (forall a, load (st_trie u tr) a = load u a) as Hld by (intros a; by apply (load_hash u h)).
  split; [|split; [|intros a o; rewrite Hld; apply Hl]].
  - split_and!; try done; [|by apply tracked_ext with u]. split; simpl; try done.
    + intros a o Ho Hd. rewrite Htl. by apply (Id a o).
    + intros a o. rewrite Htl. apply Is.
  - intros a o. simpl. rewrite Htl. apply Hn.
Qed.

Lemma both_IntermediateRoot k1 k2 s1 s2 : open_at k1 s1 -> open_at k2 s2 -> answers_eq s1 s2 -> exists h1 h2 t1 t2,
  IntermediateRoot s1 = Ok (h1, t1) /\ IntermediateRoot s2 = Ok (h2, t2) /\ answers_eq t1 t2.
Proof.
  intros O1 O2 Hp. destruct (both_Finalise _ _ _ _ O1 O2 Hp) as (u1 & u2 & F1 & F2 & [(Hi1 & _) _] & [(Hi2 & _) _] & He & _).
  assert (forall u : St, Inv u -> exists h t, hashTrie u = Ok (h, t) /\ answers_eq t u) as Hh.
  { intros u Hu. unfold hashTrie. destruct (tHash_ok (trie u) (inv_trie _ Hu)) as (_ & _ & Hv).
    destruct (tHash (trie u)) as [h tr]. simpl in Hv. exists h, (st_trie u tr). split; [done|]. split; try done.
    intros a. unfold load. simpl. destruct (stateObjects u !! a); [reflexivity|]. by rewrite (tload_view tr (trie u) a Hv). }
  destruct (Hh u1 Hi1) as (h1 & t1 & R1 & A1), (Hh u2 Hi2) as (h2 & t2 & R2 & A2). exists h1, h2, t1, t2.
  unfold IntermediateRoot, mbind, M_bind. rewrite F1, F2. split_and!; [done..|]. rewrite A1, He. by symmetry.
Qed.

End Sim.

Lemma memState_ready : ready memState.
Proof. split; [exact memState_between|]. split; intros a o Ho; vm_compute in Ho; discriminate. Qed.
