(* ===== verification/Genesis.v ===== *)
(** * The genesis state (core/genesis/genesis.go)

    The accounts a genesis specification allocates, the state built from them and
    the default specification, which gives code to the address of the balance
    contract. *)

From stdpp Require Import base gmap list.
From S2P Require Import Prelude Types TrieIface StateObject StateDB StateView StateRevert StateHistory.
From S2P Require Import StateInstance StateFlush StateDirty StateFinalise StateFrame StateSim.
Local Open Scope Z_scope.

Record GenesisAccount : Type := mkGenesisAccount {
  ga_Code : option (list byte);
  ga_Storage : gmap Hash Hash;
  ga_Nonce : Z;
}.

Record GenesisSpec : Type := mkGenesis {
  gen_Number : Z;
  gen_Timestamp : Z;
  gen_ParentHash : Hash;
  gen_Alloc : gmap Address GenesisAccount;
}.

(** The fields of the header that [ToBlock] sets. *)
Record genesisHeader : Type := mkGenesisHeader { gh_Number : Z; gh_Time : Z; gh_ParentHash : Hash; gh_StateRootHash : Hash }.

(** [DefaultGenesisBlock] *)
Definition DefaultGenesisBlock : GenesisSpec :=
  mkGenesis 0 0 zeroHash {[ zeroAddress := mkGenesisAccount (Some [1; 2; 3; 4; 5]) ∅ 0 ]}.

Section Genesis.
Context {E T : Type} `{TrieOps E T} `{StateEnv E T}.

Definition alloc_account (x : Address * GenesisAccount) : M E T unit :=
  _ ← SetCode x.1 (ga_Code x.2);
  _ ← SetNonce x.1 (ga_Nonce x.2);
  mapM_ (fun kv => SetState x.1 kv.1 kv.2) (map_to_list (ga_Storage x.2)).

(** [ToBlock] on the state opened at the zero root. *)
Definition ToBlock (g : GenesisSpec) : M E T genesisHeader :=
  _ ← mapM_ alloc_account (map_to_list (gen_Alloc g));
  root ← IntermediateRoot;
  mret (mkGenesisHeader (gen_Number g) (gen_Timestamp g) (gen_ParentHash g) root).
End Genesis.

Section GenesisState.
Context {E T : Type} `{StateEnvLaws E T}.
Abbreviation St := (StateDB E T).
Implicit Types s : St.

(** What an allocation asks of the object of its account. *)
Record allocated (g : GenesisAccount) (o : stateObject E T) : Prop := {
  al_nonce : Nonce (data o) = ga_Nonce g;
  al_hash : codeHashBytes (data o) = BytesToHash (Keccak256 (default [] (ga_Code g)));
  al_code : cview o = ga_Code g;
  al_storage k : sview o k = default zeroHash (ga_Storage g !! k);
  al_suicided : suicided o = false;
}.

Definition alloc_ok (g : GenesisAccount) : Prop := map_Forall (fun _ v => length v = 32%nat) (ga_Storage g).

Lemma sets_open s a w P : open_at [] s -> op_ok w -> framed same_logs (exec w : M E T unit) -> sets s a (exec w) P ->
  exists s' o, exec w s = Ok ((), s') /\ open_at [] s' /\ (forall b, b <> a -> load s' b = load s b) /\ load s' a = Some o /\ P o.
Proof.
  intros Ho Hok Hf (s' & Hr & _ & Hoth & o & Hl & _ & HP). exists s', o. split_and!; try done.
  apply open_step with s w; try done. by apply (Hf s () s' (inv_trie _ (open_inv _ _ Ho)) Hr).
Qed.

Lemma store_slots a (l : list (Hash * Hash)) : forall s o, open_at [] s -> load s a = Some o ->
  Forall (fun kv => length kv.2 = 32%nat) l -> NoDup l.*1 ->
  exists s' o', mapM_ (fun kv => SetState a kv.1 kv.2) l s = Ok ((), s') /\ open_at [] s' /\
    (forall b, b <> a -> load s' b = load s b) /\ load s' a = Some o' /\
    Nonce (data o') = Nonce (data o) /\ codeHashBytes (data o') = codeHashBytes (data o) /\ cview o' = cview o /\
    suicided o' = suicided o /\ (forall k v, (k, v) ∈ l -> sview o' k = v) /\ forall k, k ∉ l.*1 -> sview o' k = sview o k.
Proof.
  induction l as [|[k v] l IH]; intros s o Ho Hl Hlen Hnd; simpl.
  { exists s, o. split_and!; try done. by intros k v ?%not_elem_of_nil. }
  apply Forall_cons in Hlen as [Hv Hlen]. apply NoDup_cons in Hnd as [Hk Hnd]. simpl in Hv.
  destruct (sets_open s a (OpSetState a k v) _ Ho Hv (framed_SetState a k v) (SetState_sets s a k v (open_inv _ _ Ho)))
    as (s1 & o1 & Hr & Ho1 & Hoth & Hl1 & N1 & H1' & C1 & S1 & U1). simpl in Hr.
  assert (target s a = o) as Ht by (unfold target; by rewrite Hl). rewrite Ht in *.
  destruct (IH s1 o1 Ho1 Hl1 Hlen Hnd) as (s' & o' & Hr' & Ho' & Hoth' & Hl' & N2 & H2' & C2 & U2 & In2 & Out2).
  exists s', o'. unfold mbind, M_bind. rewrite Hr. split_and!; try done; try congruence.
  - intros b Hb. by rewrite Hoth', Hoth.
  - intros k' v' [[= -> ->]|Hin]%elem_of_cons; [|by apply In2]. rewrite Out2 by done. by rewrite S1, decide_True.
  - intros k' [Hne Hk']%not_elem_of_cons. rewrite Out2 by done. by rewrite S1, decide_False.
Qed.

Lemma alloc_spec s a g : open_at [] s -> load s a = None -> alloc_ok g -> exists s' o,
  alloc_account (a, g) s = Ok ((), s') /\ open_at [] s' /\ (forall b, b <> a -> load s' b = load s b) /\
  load s' a = Some o /\ allocated g o.
Proof.
  intros Ho Hn Hg. assert (target s a = freshObject a) as Ht by (unfold target; by rewrite Hn).
  destruct (sets_open s a (OpSetCode a (ga_Code g)) _ Ho I (framed_SetCode a (ga_Code g)) (SetCode_sets s a (ga_Code g) (open_inv _ _ Ho)))
    as (s1 & o1 & R1 & O1 & Oth1 & L1 & N1 & H1' & C1 & S1 & U1). rewrite Ht in *.
  destruct (sets_open s1 a (OpSetNonce a (ga_Nonce g)) _ O1 I (framed_SetNonce a (ga_Nonce g)) (SetNonce_sets s1 a (ga_Nonce g) (open_inv _ _ O1)))
    as (s2 & o2 & R2 & O2 & Oth2 & L2 & N2 & H2' & C2 & S2 & U2).
  assert (target s1 a = o1) as Ht1 by (unfold target; by rewrite L1). rewrite Ht1 in *.
  destruct (store_slots a (map_to_list (ga_Storage g)) s2 o2 O2 L2) as (s3 & o3 & R3 & O3 & Oth3 & L3 & N3 & H3' & C3 & U3 & In3 & Out3).
  { apply Forall_forall. intros [k v] Hin%elem_of_map_to_list. by apply (Hg k). }
  { apply NoDup_fst_map_to_list. }
  exists s3, o3. split; [|split; [done|split; [|split; [done|]]]].
  - unfold alloc_account, mbind, M_bind. cbn [fst snd]. simpl in R1, R2. by rewrite R1, R2.
  - intros b Hb. by rewrite Oth3, Oth2, Oth1.
  - split; try congruence; [|by rewrite U3, U2, U1].
    intros k. destruct (ga_Storage g !! k) as [v|] eqn:Hk; simpl; [apply In3; by apply elem_of_map_to_list|].
    rewrite Out3; [by rewrite S2, S1, sview_fresh|].
    intros ([k' v] & -> & Hin%elem_of_map_to_list)%list_elem_of_fmap. simpl in Hk. congruence.
Qed.

Lemma allocs_spec l : forall s, open_at [] s -> NoDup l.*1 -> (forall a, a ∈ l.*1 -> load s a = None) ->
  Forall (fun x => alloc_ok x.2) l -> exists s', mapM_ alloc_account l s = Ok ((), s') /\ open_at [] s' /\
    (forall a g, (a, g) ∈ l -> exists o, load s' a = Some o /\ allocated g o) /\
    forall a, a ∉ l.*1 -> load s' a = load s a.
Proof.
  induction l as [|[a g] l IH]; intros s Ho Hnd Hnone Hok; simpl.
  { exists s. split_and!; try done. by intros a g ?%not_elem_of_nil. }
  apply NoDup_cons in Hnd as [Ha Hnd]. apply Forall_cons in Hok as [Hg Hok]. 
  destruct (alloc_spec s a g Ho (Hnone a (list_elem_of_here _ _)) Hg) as (s1 & o & R1 & O1 & Oth1 & L1 & A1).
  destruct (IH s1 O1 Hnd) as (s' & R & O' & In' & Out'); [|done|].
  { intros b Hb. rewrite Oth1 by (by intros ->). apply Hnone. by apply list_elem_of_further. }
  exists s'. unfold mbind, M_bind. rewrite R1. split_and!; try done.
  - intros b h [[= -> ->]|Hin]%elem_of_cons; [|by apply In']. exists o. by rewrite Out'.
  - intros b [Hne Hb]%not_elem_of_cons. by rewrite Out', Oth1.
Qed.

(** The state [New] opens on an empty trie. *)
Definition opened (t : T) : St := mkState t ∅ ∅ None 0 zeroHash zeroHash 0 ∅ 0 ∅ [] [] 0.

Lemma opened_open t : t_ok t -> (forall k, t_view t k = None) -> open_at [] (opened t) /\ forall a, load (opened t) a = None.
Proof.
  intros Ht Hv. assert (forall a, tload t a = (None : option (stateObject E T))) as Hl by (intros a; unfold tload; by rewrite Hv).
  split; [|intros a; apply Hl]. split_and!; [apply history_base; [|done]| |].
  - split; simpl; try done. intros a o. by rewrite Hl.
  - split; simpl; try done.
  - intros a o. simpl. by rewrite Hl.
Qed.

Lemma ToBlock_run g t : t_ok t -> (forall k, t_view t k = None) -> map_Forall (fun _ x => alloc_ok x) (gen_Alloc g) ->
  exists root s', ToBlock g (opened t) = Ok (mkGenesisHeader (gen_Number g) (gen_Timestamp g) (gen_ParentHash g) root, s') /\
    ready s' /\ forall a, match gen_Alloc g !! a with
    | None => load s' a = None
    | Some x => exists o, allocated x o /\
        if empty o then load s' a = None else exists o', load s' a = Some o' /\ same_obj o' o
    end.
Proof.
  intros Ht Hv Hg. destruct (opened_open t Ht Hv) as [Ho Hnone].
  destruct (allocs_spec (map_to_list (gen_Alloc g)) (opened t) Ho) as (s1 & R1 & O1 & In1 & Out1).
  { apply NoDup_fst_map_to_list. } { done. }
  { apply Forall_forall. intros [a x] Hin%elem_of_map_to_list. by apply (Hg a). }
  destruct (open_Finalise [] s1 O1) as (u & Hu & Hy & _ & _ & Hl).
  destruct (tHash (trie u)) as [h tr] eqn:Hh. pose proof (ready_hash u h tr Hy Hh) as Hyt.
  eexists _, (st_trie u tr). split; [unfold ToBlock, IntermediateRoot, hashTrie, mbind, M_bind; by rewrite R1, Hu, Hh|].
  split; [done|]. intros a. rewrite (load_hash u h tr a Hy Hh). specialize (Hl a).
  destruct (gen_Alloc g !! a) as [x|] eqn:Ha.
  - destruct (In1 a x) as (o & Hoa & Hal); [by apply elem_of_map_to_list|]. rewrite Hoa, (al_suicided _ _ Hal) in Hl. by exists o.
  - rewrite Out1, Hnone in Hl; [done|]. intros ([b x] & -> & Hin%elem_of_map_to_list)%list_elem_of_fmap. simpl in Ha. congruence.
Qed.

(** C35: the genesis state holds exactly the allocated accounts that are not empty,
    each with the nonce, code and storage of its allocation, and is ready for the
    first block.  An account allocated without nonce and code is dropped, storage
    and all. *)
Theorem genesis_state g t : t_ok t -> (forall k, t_view t k = None) -> map_Forall (fun _ x => alloc_ok x) (gen_Alloc g) ->
  exists h s', ToBlock g (opened t) = Ok (h, s') /\ ready s' /\
    gh_Number h = gen_Number g /\ gh_Time h = gen_Timestamp g /\ gh_ParentHash h = gen_ParentHash g /\
    forall a, match gen_Alloc g !! a with
    | None => load s' a = None
    | Some x =>
        if (ga_Nonce x =? 0) && bool_decide (BytesToHash (Keccak256 (default [] (ga_Code x))) = emptyCodeHash)
        then load s' a = None else exists o, load s' a = Some o /\ allocated x o
    end.
Proof.
  intros Ht Hv Hg. destruct (ToBlock_run g t Ht Hv Hg) as (root & s' & Hr & Hy & Ha).
  eexists _, s'. split; [exact Hr|]. split_and!; try done. intros a. specialize (Ha a).
  destruct (gen_Alloc g !! a) as [x|]; [|done]. destruct Ha as (o & [Hn Hc Hco Hs Hsu] & Hl).
  unfold empty in Hl. rewrite Hn, Hc in Hl. destruct (_ && _); [done|].
  destruct Hl as (o' & Ho' & []). exists o'. split; [done|]. split; congruence.
Qed.

End GenesisState.

Lemma genesis_state_witness : exists h s', ToBlock DefaultGenesisBlock (opened (∅ : memTrie)) = Ok (h, s') /\ ready s' /\
  exists o, load s' zeroAddress = Some o /\ cview o = Some [1; 2; 3; 4; 5].
Proof.
  destruct (genesis_state DefaultGenesisBlock (∅ : memTrie)) as (h & s' & Hr & Hy & _ & _ & _ & Ha).
  - done.
  - intros k. apply lookup_empty.
  - intros a x Hx. simpl in Hx. apply lookup_singleton_Some in Hx as [_ <-]. intros k v. simpl. by rewrite lookup_empty.
  - exists h, s'. split; [done|]. split; [done|]. specialize (Ha zeroAddress).
    change (gen_Alloc DefaultGenesisBlock !! zeroAddress) with (Some (mkGenesisAccount (Some [1; 2; 3; 4; 5]) ∅ 0)) in Ha.
    cbv beta iota in Ha. rewrite bool_decide_false, andb_false_r in Ha by (vm_compute; discriminate). destruct Ha as (o & Ho & [_ _ Hc _ _]). exists o. split; [exact Ho|exact Hc].
Defined.
