(* ===== verification/Bitutil.v ===== *)
(** * Bit utilities (common/bitutil)

    [Compress]: the sparse bitset compression of compress.go, with its round
    trip in both directions.  [Bulk]: the word-at-a-time loops of bitutil.go
    against the byte-at-a-time ones. *)

From stdpp Require Import base gmap list.
From S2P Require Import Prelude.
Local Open Scope Z_scope.

Module Compress.

Inductive compressErr : Type :=
  | errMissingData
  | errUnreferencedData
  | errExceededTarget
  | errZeroContent.

(** The bit [1 << byte(7-i%8)] and the test of bit [i] of a bitset. *)
Definition bitMask (i : nat) : Z := Z.shiftl 1 (7 - Z.of_nat (i mod 8)).
Definition hasBit (bs : list byte) (i : nat) : bool :=
  negb (Z.land (nth (i / 8) bs 0) (bitMask i) =? 0).

(** The loop of [bitsetEncodeBytes] from index [i] on. *)
Fixpoint gather (i : nat) (data nonZeroBitset nonZeroBytes : list byte) : list byte * list byte :=
  match data with
  | [] => (nonZeroBitset, nonZeroBytes)
  | b :: data =>
      if b =? 0 then gather (S i) data nonZeroBitset nonZeroBytes
      else gather (S i) data
             (<[(i / 8)%nat := Z.lor (nth (i / 8) nonZeroBitset 0) (bitMask i)]> nonZeroBitset)
             (nonZeroBytes ++ [b])
  end.

Fixpoint bitsetEncode (fuel : nat) (data : list byte) : outcome compressErr (list byte) :=
  match fuel with
  | O => OutOfFuel
  | S fuel =>
      match data with
      | [] => Ok []
      | [b] => Ok (if b =? 0 then [] else [b])
      | _ =>
          let '(nonZeroBitset, nonZeroBytes) := gather 0 data (replicate ((length data + 7) / 8) 0) [] in
          if (length nonZeroBytes =? 0)%nat then Ok []
          else out ← bitsetEncode fuel nonZeroBitset; Ok (out ++ nonZeroBytes)
      end
  end.

(** The bitset of [n >= 2] bytes has fewer than [n] bytes. *)
Definition bitsetEncodeBytes (data : list byte) : outcome compressErr (list byte) :=
  bitsetEncode (S (length data)) data.

Definition CompressBytes (data : list byte) : outcome compressErr (list byte) :=
  out ← bitsetEncodeBytes data;
  Ok (if (length out <? length data)%nat then out else data).

(** The loop of [bitsetDecodePartialBytes]: [n] iterations from index [i] on. *)
Fixpoint scatter (n i : nat) (nonZeroBitset data decomp : list byte) (ptr : nat)
    : outcome compressErr (list byte * nat) :=
  match n with
  | O => Ok (decomp, ptr)
  | S n =>
      if hasBit nonZeroBitset i then
        match data !! ptr with
        | None => Err errMissingData
        | Some b =>
            if (length decomp <=? i)%nat then Err errExceededTarget
            else if b =? 0 then Err errZeroContent
            else scatter n (S i) nonZeroBitset data (<[i := b]> decomp) (S ptr)
        end
      else scatter n (S i) nonZeroBitset data decomp ptr
  end.

Fixpoint bitsetDecodePartial (fuel : nat) (data : list byte) (target : nat)
    : outcome compressErr (list byte * nat) :=
  match fuel with
  | O => OutOfFuel
  | S fuel =>
      if (target =? 0)%nat then Ok ([], 0%nat)
      else
        match data with
        | [] => Ok (replicate target 0, 0%nat)
        | b :: _ =>
            if (target =? 1)%nat then Ok ([b], if b =? 0 then 0%nat else 1%nat)
            else
              '(nonZeroBitset, ptr) ← bitsetDecodePartial fuel data ((target + 7) / 8);
              scatter (8 * length nonZeroBitset) 0 nonZeroBitset data (replicate target 0) ptr
        end
  end.

Definition bitsetDecodePartialBytes (data : list byte) (target : nat) : outcome compressErr (list byte * nat) :=
  bitsetDecodePartial (S target) data target.

Definition bitsetDecodeBytes (data : list byte) (target : nat) : outcome compressErr (list byte) :=
  '(out, size) ← bitsetDecodePartialBytes data target;
  if (size =? length data)%nat then Ok out else Err errUnreferencedData.

Definition DecompressBytes (data : list byte) (target : nat) : outcome compressErr (list byte) :=
  if (target <? length data)%nat then Err errExceededTarget
  else if (length data =? target)%nat then Ok data
  else bitsetDecodeBytes data target.

(** ** Bits *)

Lemma land_pow2 a k : 0 <= k -> negb (Z.land a (Z.shiftl 1 k) =? 0) = Z.testbit a k.
Proof.
  intros Hk. rewrite Z.shiftl_1_l. destruct (Z.testbit a k) eqn:Ha.
  - apply negb_true_iff, Z.eqb_neq. intros H0. assert (Z.testbit (Z.land a (2 ^ k)) k = false) by (rewrite H0; apply Z.bits_0).
    by rewrite Z.land_spec, Ha, Z.pow2_bits_true in H.
  - apply negb_false_iff, Z.eqb_eq. apply Z.bits_inj_0. intros n. rewrite Z.land_spec, Z.pow2_bits_eqb by done.
    destruct (Z.eqb_spec k n) as [->|]; [by rewrite Ha|apply andb_false_r].
Qed.

Lemma bit_range (i : nat) : 0 <= 7 - Z.of_nat (i mod 8) < 8.
Proof. pose proof (Nat.mod_upper_bound i 8 ltac:(lia)). lia. Qed.

Lemma hasBit_testbit bs i : hasBit bs i = Z.testbit (nth (i / 8) bs 0) (7 - Z.of_nat (i mod 8)).
Proof. apply land_pow2. pose proof (bit_range i). lia. Qed.

Lemma nth_insert (l : list Z) i j x : (i < length l)%nat -> nth j (<[i:=x]> l) 0 = if decide (i = j) then x else nth j l 0.
Proof.
  intros Hi. rewrite !nth_lookup.
  destruct (decide (i = j)) as [<-|Hne]; [by rewrite list_lookup_insert_eq|by rewrite list_lookup_insert_ne].
Qed.

Lemma index_eq i j : (i / 8 = j / 8)%nat -> (i mod 8 = j mod 8)%nat -> i = j.
Proof. intros H1 H2. rewrite (Nat.div_mod_eq i 8), (Nat.div_mod_eq j 8). congruence. Qed.

Lemma hasBit_set bs i j : (i / 8 < length bs)%nat ->
  hasBit (<[(i / 8)%nat := Z.lor (nth (i / 8) bs 0) (bitMask i)]> bs) j = (bool_decide (i = j) || hasBit bs j)%bool.
Proof.
  intros Hi. rewrite !hasBit_testbit, nth_insert by done. pose proof (bit_range i). pose proof (bit_range j).
  destruct (decide (i / 8 = j / 8)%nat) as [He|He].
  - rewrite Z.lor_spec. unfold bitMask. rewrite Z.shiftl_1_l, Z.pow2_bits_eqb by lia. rewrite He, orb_comm. f_equal.
    destruct (Z.eqb_spec (7 - Z.of_nat (i mod 8)) (7 - Z.of_nat (j mod 8))) as [Hm|Hm]; case_bool_decide as Hb; try done.
    + destruct Hb. apply index_eq; [done|lia].
    + by subst j.
  - rewrite bool_decide_false; [done|]. by intros ->.
Qed.

(** A bitset is determined by its bits. *)
Lemma bitset_ext bs bs' : Forall byte_ok bs -> Forall byte_ok bs' -> length bs = length bs' ->
  (forall i, (i < 8 * length bs)%nat -> hasBit bs i = hasBit bs' i) -> bs = bs'.
Proof.
  intros Hb Hb' Hl Hbits. apply (nth_ext bs bs' 0 0 Hl). intros n Hn.
  assert (byte_ok (nth n bs 0)) as H1 by (rewrite List.Forall_forall in Hb; apply Hb, nth_In; lia).
  assert (byte_ok (nth n bs' 0)) as H2 by (rewrite List.Forall_forall in Hb'; apply Hb', nth_In; lia).
  apply Z.bits_inj'. intros k Hk. destruct (decide (k < 8)) as [Hk8|Hk8].
  - specialize (Hbits (8 * n + Z.to_nat (7 - k))%nat ltac:(lia)). rewrite !hasBit_testbit in Hbits.
    replace ((8 * n + Z.to_nat (7 - k)) / 8)%nat with n in Hbits by (apply Nat.div_unique with (Z.to_nat (7 - k)); lia).
    replace ((8 * n + Z.to_nat (7 - k)) mod 8)%nat with (Z.to_nat (7 - k)) in Hbits by (apply Nat.mod_unique with n; lia).
    by replace (7 - Z.of_nat (Z.to_nat (7 - k))) with k in Hbits by lia.
  - unfold byte_ok in *. rewrite !(Z.bits_above_log2 _ k); try lia.
    + destruct (decide (nth n bs' 0 = 0)) as [->|]; [simpl; lia|]. apply Z.log2_lt_pow2; [lia|].
      apply Z.lt_le_trans with (2 ^ 8); [lia|apply Z.pow_le_mono_r; lia].
    + destruct (decide (nth n bs 0 = 0)) as [->|]; [simpl; lia|]. apply Z.log2_lt_pow2; [lia|].
      apply Z.lt_le_trans with (2 ^ 8); [lia|apply Z.pow_le_mono_r; lia].
Qed.

(** ** The loops *)

Definition nonZero (l : list byte) : list byte := List.filter (fun b => negb (b =? 0)) l.
Definition nzAt (l : list byte) (j : nat) : bool :=
  match l !! j with Some b => negb (b =? 0) | None => false end.

Lemma byte_ok_lor a b : byte_ok a -> byte_ok b -> byte_ok (Z.lor a b).
Proof.
  unfold byte_ok. intros Ha Hb. split; [apply Z.lor_nonneg; lia|].
  destruct (decide (Z.lor a b = 0)) as [->|Hn]; [lia|].
  assert (0 <= Z.lor a b) by (apply Z.lor_nonneg; lia).
  apply (Z.log2_lt_pow2 _ 8); [lia|]. rewrite Z.log2_lor by lia.
  assert (forall x, 0 <= x < 256 -> Z.log2 x < 8) as Hx.
  { intros x Hx. destruct (decide (x = 0)) as [->|]; [done|]. apply Z.log2_lt_pow2; [lia|]. apply Hx. }
  apply Z.max_lub_lt; auto.
Qed.

Lemma byte_ok_mask i : byte_ok (bitMask i).
Proof.
  unfold bitMask, byte_ok. pose proof (bit_range i). rewrite Z.shiftl_1_l. split; [lia|].
  apply (Z.pow_lt_mono_r 2 _ 8); lia.
Qed.

Lemma nth_byte_ok l i : Forall byte_ok l -> byte_ok (nth i l 0).
Proof.
  intros Hl. rewrite nth_lookup. destruct (l !! i) eqn:Hi; simpl; [|by unfold byte_ok].
  by apply (Forall_lookup_1 _ _ _ _ Hl Hi).
Qed.

Lemma gather_spec data : forall i bs nz, (i + length data <= 8 * length bs)%nat -> Forall byte_ok bs ->
  exists bs', gather i data bs nz = (bs', nz ++ nonZero data) /\ length bs' = length bs /\ Forall byte_ok bs' /\
    forall j, hasBit bs' j = (hasBit bs j || (bool_decide (i <= j)%nat && nzAt data (j - i)))%bool.
Proof.
  induction data as [|b data IH]; intros i bs nz Hlen Hb; simpl.
  { exists bs. rewrite app_nil_r. split_and!; try done. intros j. unfold nzAt. simpl.
    by rewrite andb_false_r, orb_false_r. }
  simpl in Hlen. destruct (Z.eqb_spec b 0) as [->|Hne]; simpl.
  - destruct (IH (S i) bs nz ltac:(lia) Hb) as (bs' & -> & Hl & Hb' & Hbits). exists bs'. split_and!; try done.
    intros j. rewrite Hbits. f_equal. destruct (decide (j = i)) as [->|].
    + rewrite Nat.sub_diag. rewrite bool_decide_false by lia. by rewrite bool_decide_true by lia.
    + destruct (decide (i <= j)%nat); [|by rewrite !bool_decide_false by lia].
      rewrite !bool_decide_true by lia. by replace (j - i)%nat with (S (j - S i)) by lia.
  - assert (i / 8 < length bs)%nat as Hi by (apply Nat.Div0.div_lt_upper_bound; lia).
    destruct (IH (S i) (<[(i / 8)%nat := Z.lor (nth (i / 8) bs 0) (bitMask i)]> bs) (nz ++ [b])) as (bs' & -> & Hl & Hb' & Hbits).
    { rewrite length_insert. lia. }
    { apply Forall_insert; [done|]. apply byte_ok_lor; [by apply nth_byte_ok|apply byte_ok_mask]. }
    rewrite length_insert in Hl. exists bs'. rewrite <- app_assoc. split_and!; try done.
    intros j. rewrite Hbits, hasBit_set by done. rewrite (orb_comm (bool_decide (i = j))), <- orb_assoc. f_equal.
    destruct (decide (j = i)) as [->|].
    + rewrite Nat.sub_diag, (bool_decide_true (i = i)), (bool_decide_true (i <= i)%nat) by lia.
      unfold nzAt. simpl. by rewrite (proj2 (Z.eqb_neq b 0) Hne).
    + rewrite (bool_decide_false (i = j)) by congruence. simpl.
      destruct (decide (i <= j)%nat); [|by rewrite !bool_decide_false by lia].
      rewrite !bool_decide_true by lia. by replace (j - i)%nat with (S (j - S i)) by lia.
Qed.

Lemma nonZero_drop D i b : D !! i = Some b -> nonZero (drop i D) = (if b =? 0 then [] else [b]) ++ nonZero (drop (S i) D).
Proof. intros Hb. rewrite (drop_S D b i Hb). simpl. by destruct (b =? 0). Qed.

Lemma nzAt_ge D j : (length D <= j)%nat -> nzAt D j = false.
Proof. intros H. unfold nzAt. by rewrite lookup_ge_None_2. Qed.

(** Decoding with the bits of [D] restores [D]. *)
Lemma scatter_complete D bs pre rest : forall n i ptr decomp,
  (forall j, (i <= j)%nat -> hasBit bs j = nzAt D j) ->
  length pre = ptr -> (length D <= n + i)%nat ->
  decomp = take i D ++ replicate (length D - i) 0 ->
  scatter n i bs (pre ++ nonZero (drop i D) ++ rest) decomp ptr = Ok (D, (ptr + length (nonZero (drop i D)))%nat).
Proof.
  induction n as [|n IH] in pre |- *; intros i ptr decomp Hbits Hpre Hn ->; simpl.
  { rewrite take_ge, drop_ge by lia. replace (length D - i)%nat with 0%nat by lia. simpl. by rewrite app_nil_r, Nat.add_0_r. }
  rewrite Hbits by lia. destruct (D !! i) as [b|] eqn:Hb.
  2:{ apply lookup_ge_None in Hb. rewrite nzAt_ge by done. rewrite (drop_ge D i), <- (drop_ge D (S i)) by lia.
      rewrite (IH pre (S i) ptr _); [done|auto with lia|done|lia|].
      rewrite !take_ge by lia. by replace (length D - i)%nat with (length D - S i)%nat by lia. }
  pose proof (lookup_lt_Some _ _ _ Hb) as Hi. unfold nzAt. rewrite Hb.
  rewrite (nonZero_drop D i b Hb). destruct (Z.eqb_spec b 0) as [->|Hne]; simpl.
  - rewrite (IH pre (S i) ptr _); [done|auto with lia|done|lia|].
    rewrite (take_S_r D i 0 Hb), <- app_assoc. by replace (length D - i)%nat with (S (length D - S i)) by lia.
  - rewrite list_lookup_middle by done. rewrite length_app, length_take, length_replicate.
    destruct (Nat.leb_spec (i `min` length D + (length D - i)) i); [lia|].
    rewrite (proj2 (Z.eqb_neq b 0) Hne).
    replace (pre ++ b :: nonZero (drop (S i) D) ++ rest) with ((pre ++ [b]) ++ nonZero (drop (S i) D) ++ rest)
      by by rewrite <- app_assoc.
    rewrite (IH (pre ++ [b]) (S i) (S ptr) _); [f_equal; f_equal; lia|auto with lia|rewrite length_app; simpl; lia|lia|].
    rewrite (take_S_r D i b Hb). rewrite insert_app_r_alt; rewrite length_take; [|lia].
    replace (i - i `min` length D)%nat with 0%nat by lia. replace (length D - i)%nat with (S (length D - S i)) by lia.
    by rewrite <- app_assoc.
Qed.

(** ** Encoding, then decoding *)

Lemma bitset_shrinks n : (2 <= n)%nat -> ((n + 7) / 8 < n)%nat.
Proof. intros Hn. apply Nat.Div0.div_lt_upper_bound. lia. Qed.

Lemma bitset_room n : (n <= 8 * ((n + 7) / 8))%nat.
Proof. pose proof (Nat.div_mod_eq (n + 7) 8). pose proof (Nat.mod_upper_bound (n + 7) 8 ltac:(lia)). lia. Qed.

Lemma hasBit_zeros n j : hasBit (replicate n 0) j = false.
Proof. rewrite hasBit_testbit, nth_lookup. destruct (_ !! _) eqn:Hr; simpl; [|apply Z.bits_0].
  apply lookup_replicate in Hr as [-> _]. apply Z.bits_0. Qed.

Lemma zeros_byte_ok n : Forall byte_ok (replicate n 0).
Proof. apply Forall_replicate. by unfold byte_ok. Qed.

(** The bitset of [data]. *)
Lemma gather_bitset data : exists bs,
  gather 0 data (replicate ((length data + 7) / 8) 0) [] = (bs, nonZero data) /\
  length bs = ((length data + 7) / 8)%nat /\ Forall byte_ok bs /\ forall j, hasBit bs j = nzAt data j.
Proof.
  destruct (gather_spec data 0 (replicate ((length data + 7) / 8) 0) []) as (bs & Hg & Hl & Hb & Hbits).
  { rewrite length_replicate. simpl. apply bitset_room. }
  { apply zeros_byte_ok. }
  exists bs. rewrite length_replicate in Hl. split_and!; try done. intros j.
  rewrite Hbits, hasBit_zeros, bool_decide_true, Nat.sub_0_r by lia. done.
Qed.

Lemma nonZero_nil data : nonZero data = [] <-> forall j, nzAt data j = false.
Proof.
  unfold nzAt. induction data as [|b data IH]; simpl; [done|]. destruct (Z.eqb_spec b 0) as [->|Hb]; simpl.
  - rewrite IH. split; intros Hj j; [destruct j; [done|apply (Hj j)]|apply (Hj (S j))].
  - split; [done|]. intros Hj. specialize (Hj 0%nat). simpl in Hj. by rewrite (proj2 (Z.eqb_neq b 0) Hb) in Hj.
Qed.

Lemma nonZero_bitset bs data : (forall j, hasBit bs j = nzAt data j) -> nonZero data <> [] -> nonZero bs <> [].
Proof.
  intros Hbits Hd Hbs. apply Hd, nonZero_nil. intros j. rewrite <- Hbits, hasBit_testbit, nth_lookup.
  apply (proj1 (nonZero_nil bs)) with (j / 8)%nat in Hbs. unfold nzAt in Hbs.
  destruct (bs !! (j / 8)%nat) as [b|]; simpl; [|apply Z.bits_0].
  apply negb_false_iff, Z.eqb_eq in Hbs as ->. apply Z.bits_0.
Qed.

(** What follows the encoding of a list that is not all zero does not matter. *)
Lemma encode_decode f1 : forall f2 data, (length data < f1)%nat -> (length data < f2)%nat -> Forall byte_ok data ->
  exists out, bitsetEncode f1 data = Ok out /\
    (nonZero data = [] -> out = []) /\
    (nonZero data <> [] -> out <> [] /\ forall rest,
       bitsetDecodePartial f2 (out ++ rest) (length data) = Ok (data, length out)).
Proof.
  induction f1 as [|f1 IH]; intros f2 data H1 H2 Hb; [lia|]. destruct f2 as [|f2]; [lia|].
  destruct data as [|b [|b' data]].
  { exists []. by split_and!. }
  { simpl. exists (if b =? 0 then [] else [b]). split; [done|]. destruct (b =? 0) eqn:Hz; simpl; [by split|].
    split; [done|]. intros _. split; [done|]. intros rest. by rewrite Hz. }
  set (D := b :: b' :: data) in *.
  assert (2 <= length D)%nat as H2D by (unfold D; simpl; lia). pose proof (bitset_shrinks _ H2D) as Hsh.
  destruct (gather_bitset D) as (bs & Hg & Hl & Hbs & Hbits).
  destruct (IH f2 bs ltac:(lia) ltac:(lia) Hbs) as (obs & He & _ & Hdec).
  assert (bitsetEncode (S f1) D = if (length (nonZero D) =? 0)%nat then Ok []
            else out ← bitsetEncode f1 bs; Ok (out ++ nonZero D)) as Henc.
  { change (bitsetEncode (S f1) D) with
      (let '(nonZeroBitset, nonZeroBytes) := gather 0 D (replicate ((length D + 7) / 8) 0) [] in
       if (length nonZeroBytes =? 0)%nat then Ok []
       else out ← bitsetEncode f1 nonZeroBitset; Ok (out ++ nonZeroBytes)). by rewrite Hg. }
  rewrite Henc, He. destruct (nonZero D) as [|z nz] eqn:Hnz; [by exists []|].
  exists (obs ++ z :: nz). split; [done|]. split; [done|]. intros _.
  destruct (Hdec ltac:(apply (nonZero_bitset bs D Hbits); congruence)) as [Hne Hrest].
  split; [by destruct obs|]. intros rest. rewrite <- app_assoc. destruct obs as [|o obs]; [done|].
  cbn [bitsetDecodePartial]. destruct (Nat.eqb_spec (length D) 0); [lia|]. destruct (Nat.eqb_spec (length D) 1); [lia|].
  cbn [app]. specialize (Hrest ((z :: nz) ++ rest)). rewrite Hl in Hrest. cbn [app] in Hrest. rewrite Hrest. simpl.
  change (o :: obs ++ z :: nz ++ rest) with ((o :: obs) ++ (z :: nz) ++ rest). rewrite <- Hnz.
  etransitivity; [apply (scatter_complete D bs (o :: obs) rest _ 0)|].
  - intros j _. apply Hbits.
  - done.
  - pose proof (bitset_room (length D)). rewrite Hl. lia.
  - simpl. done.
  - rewrite drop_0. simpl. by rewrite length_app.
Qed.

(** ** Decoding, then encoding *)

Lemma scatter_sound bs input : forall n i decomp ptr out ptr',
  scatter n i bs input decomp ptr = Ok (out, ptr') ->
  (forall j, (i <= j)%nat -> (j < length decomp)%nat -> decomp !! j = Some 0) ->
  (n + i = 8 * length bs)%nat ->
  length out = length decomp /\ (forall j, (j < i)%nat -> out !! j = decomp !! j) /\
  (forall j, (i <= j)%nat -> (j < n + i)%nat -> hasBit bs j = nzAt out j) /\
  (forall j, (n + i <= j)%nat -> nzAt out j = false) /\
  (ptr <= length input -> ptr' <= length input)%nat /\
  exists k, ptr' = (ptr + k)%nat /\ take k (drop ptr input) = nonZero (drop i out).
Proof.
  induction n as [|n IH]; intros i decomp ptr out ptr' Hr Hz Hn; simpl in Hr.
  { injection Hr as <- <-. assert (forall j, (i <= j)%nat -> nzAt decomp j = false) as Hj.
    { intros j Hj. unfold nzAt. destruct (decide (j < length decomp)%nat); [by rewrite Hz|by rewrite lookup_ge_None_2 by lia]. }
    split_and!; try done; [intros; lia|]. exists 0%nat. split; [lia|]. symmetry.
    apply nonZero_nil. intros j. unfold nzAt. rewrite lookup_drop. apply Hj. lia. }
  assert (forall d p, scatter n (S i) bs input d p = Ok (out, ptr') -> length d = length decomp ->
     (forall j, (S i <= j)%nat -> d !! j = decomp !! j) ->
     length out = length decomp /\ (forall j, (j < S i)%nat -> out !! j = d !! j) /\
     (forall j, (S i <= j)%nat -> (j < n + S i)%nat -> hasBit bs j = nzAt out j) /\
     (forall j, (n + S i <= j)%nat -> nzAt out j = false) /\ (p <= length input -> ptr' <= length input)%nat /\
     exists k, ptr' = (p + k)%nat /\ take k (drop p input) = nonZero (drop (S i) out)) as Hstep.
  { intros d p Hd Hld Hsame. rewrite <- Hld. apply IH; [done| |lia].
    intros j Hj Hlt. rewrite Hsame by done. apply Hz; lia. }
  destruct (hasBit bs i) eqn:Hbit.
  - destruct (input !! ptr) as [b|] eqn:Hb; [|done]. destruct (Nat.leb_spec (length decomp) i) as [|Hi]; [done|].
    destruct (Z.eqb_spec b 0) as [|Hne]; [done|].
    destruct (Hstep _ _ Hr) as (Hl & Hbefore & Hbits & Hafter & Hp & k & -> & Hk).
    { apply length_insert. }
    { intros j Hj. apply list_lookup_insert_ne. lia. }
    assert (out !! i = Some b) as Hoi by (rewrite Hbefore by lia; by apply list_lookup_insert_eq).
    pose proof (lookup_lt_Some _ _ _ Hb). split_and!; try done.
    + intros j Hj. rewrite Hbefore by lia. apply list_lookup_insert_ne. lia.
    + intros j Hj Hlt. destruct (decide (j = i)) as [->|]; [|apply Hbits; lia].
      rewrite Hbit. unfold nzAt. rewrite Hoi. by rewrite (proj2 (Z.eqb_neq b 0) Hne).
    + intros j Hj. apply Hafter. lia.
    + intros _. apply Hp. lia.
    + exists (S k). split; [lia|]. rewrite (nonZero_drop out i b Hoi), (proj2 (Z.eqb_neq b 0) Hne).
      rewrite (drop_S input b ptr Hb). simpl. by rewrite Hk.
  - destruct (Hstep _ _ Hr) as (Hl & Hbefore & Hbits & Hafter & Hp & k & -> & Hk); [done|done|].
    assert (nzAt out i = false) as Hoi.
    { unfold nzAt. rewrite Hbefore by lia. destruct (decide (i < length decomp)%nat); [by rewrite Hz|by rewrite lookup_ge_None_2 by lia]. }
    split_and!; try done.
    + intros j Hj. apply Hbefore. lia.
    + intros j Hj Hlt. destruct (decide (j = i)) as [->|]; [congruence|apply Hbits; lia].
    + intros j Hj. apply Hafter. lia.
    + exists k. split; [done|]. rewrite Hk. destruct (out !! i) as [b|] eqn:Hb.
      * rewrite (nonZero_drop out i b Hb). unfold nzAt in Hoi. rewrite Hb in Hoi. apply negb_false_iff in Hoi. by rewrite Hoi.
      * apply lookup_ge_None in Hb. by rewrite !drop_ge by lia.
Qed.

Lemma scatter_bytes bs input : Forall byte_ok input -> forall n i decomp ptr out ptr',
  Forall byte_ok decomp -> scatter n i bs input decomp ptr = Ok (out, ptr') -> Forall byte_ok out.
Proof.
  intros Hin. induction n as [|n IH]; intros i decomp ptr out ptr' Hd Hr; simpl in Hr; [by injection Hr as <- <-|].
  destruct (hasBit bs i); [|by apply IH in Hr]. destruct (input !! ptr) as [b|] eqn:Hb; [|done].
  destruct (_ <=? _)%nat; [done|]. destruct (b =? 0); [done|]. apply IH in Hr; [done|].
  apply Forall_insert; [done|]. exact (Forall_lookup_1 _ _ _ _ Hin Hb).
Qed.

Lemma nonZero_zeros n : nonZero (replicate n 0) = [].
Proof. by induction n. Qed.

Lemma encode_zeros f n : (n < f)%nat -> bitsetEncode f (replicate n 0) = Ok [].
Proof.
  intros Hn. destruct (encode_decode f f (replicate n 0)) as (out & He & Hz & _);
    rewrite ?length_replicate; try done; [apply zeros_byte_ok|].
  rewrite He. f_equal. apply Hz, nonZero_zeros.
Qed.

(** The bitset part of a decoded list encodes to what it was decoded from. *)
Lemma encode_parts f out bs (p : list byte) : (2 <= length out)%nat -> length bs = ((length out + 7) / 8)%nat ->
  (length bs < f)%nat -> Forall byte_ok bs -> (forall j, (j < 8 * length bs)%nat -> hasBit bs j = nzAt out j) ->
  bitsetEncode f bs = Ok p -> bitsetEncode (S f) out = Ok (p ++ nonZero out).
Proof.
  intros H2 Hl Hf Hb Hbits He. destruct (gather_bitset out) as (bs' & Hg & Hl' & Hb' & Hbits').
  assert (bs' = bs) as ->.
  { apply bitset_ext; try done; [congruence|]. intros i Hi. rewrite Hbits', Hbits; [done|]. by rewrite Hl, <- Hl'. }
  destruct out as [|x [|y out]]; [simpl in H2; lia..|]. set (D := x :: y :: out) in *.
  change (bitsetEncode (S f) D) with
      (let '(nonZeroBitset, nonZeroBytes) := gather 0 D (replicate ((length D + 7) / 8) 0) [] in
       if (length nonZeroBytes =? 0)%nat then Ok []
       else out ← bitsetEncode f nonZeroBitset; Ok (out ++ nonZeroBytes)). rewrite Hg, He.
  destruct (nonZero D) as [|z nz] eqn:Hnz; [|done]. simpl. rewrite app_nil_r. f_equal.
  assert (bs = replicate (length bs) 0) as Hz.
  { apply bitset_ext; try done; [apply zeros_byte_ok|by rewrite length_replicate|].
    intros i Hi. rewrite hasBit_zeros, Hbits'. by apply nonZero_nil. }
  rewrite Hz, encode_zeros in He by (by rewrite ?length_replicate). by injection He.
Qed.

Lemma decode_encode f2 : forall f1 data target out n,
  bitsetDecodePartial f2 data target = Ok (out, n) -> (target < f1)%nat -> Forall byte_ok data ->
  length out = target /\ Forall byte_ok out /\ (n <= length data)%nat /\ bitsetEncode f1 out = Ok (take n data).
Proof.
  induction f2 as [|f2 IH]; intros f1 data target out n Hr Hf Hb; [done|]. cbn [bitsetDecodePartial] in Hr.
  destruct f1 as [|f1]; [lia|]. destruct (Nat.eqb_spec target 0) as [->|H0].
  { injection Hr as <- <-. split_and!; try done; simpl; first [lia|by destruct data]. }
  destruct data as [|b data].
  { injection Hr as <- <-. rewrite length_replicate. split_and!; try done; [apply zeros_byte_ok|].
    simpl (take _ _). rewrite encode_zeros by done. done. }
  destruct (Nat.eqb_spec target 1) as [->|H1].
  { injection Hr as <- <-. apply Forall_cons in Hb as [Hb _]. simpl.
    split_and!; [done|by apply Forall_singleton|destruct (b =? 0); simpl; lia|by destruct (b =? 0)]. }
  assert (2 <= target)%nat as H2 by lia. pose proof (bitset_shrinks target H2) as Hsh.
  destruct (bitsetDecodePartial f2 (b :: data) ((target + 7) / 8)) as [[bs ptr]| | |] eqn:Ed; try done. simpl in Hr.
  destruct (IH f1 _ _ _ _ Ed ltac:(lia) Hb) as (Hl & Hbs & Hptr & He).
  destruct (scatter_sound bs (b :: data) _ _ _ _ _ _ Hr) as (Hlo & _ & Hbits & _ & Hp & k & -> & Hk).
  { intros j _ Hj. rewrite length_replicate in Hj. by apply lookup_replicate_2. }
  { lia. }
  rewrite length_replicate in Hlo. split; [done|].
  split; [by apply (scatter_bytes bs (b :: data) Hb _ _ _ _ _ _ (zeros_byte_ok target) Hr)|]. split; [by apply Hp|].
  rewrite <- take_take_drop, Hk, drop_0. apply encode_parts with bs; try done; [lia|congruence|lia|].
  intros j Hj. apply Hbits; lia.
Qed.

(** ** Claims *)

(** C39: compression loses nothing: [CompressBytes] succeeds on every byte string,
    never grows it, and [DecompressBytes] with the original length returns the
    original. *)
Theorem compress_roundtrip data : Forall byte_ok data ->
  exists c, CompressBytes data = Ok c /\ (length c <= length data)%nat /\ DecompressBytes c (length data) = Ok data.
Proof.
  intros Hb. unfold CompressBytes, bitsetEncodeBytes.
  destruct (encode_decode (S (length data)) (S (length data)) data ltac:(lia) ltac:(lia) Hb) as (out & -> & Hz & Hnz).
  simpl. eexists. split; [done|]. destruct (Nat.ltb_spec (length out) (length data)) as [Hlt|Hge].
  2:{ split; [done|]. unfold DecompressBytes. by rewrite Nat.ltb_irrefl, Nat.eqb_refl. }
  split; [lia|]. unfold DecompressBytes. destruct (Nat.ltb_spec (length data) (length out)); [lia|].
  destruct (Nat.eqb_spec (length out) (length data)); [lia|]. unfold bitsetDecodeBytes, bitsetDecodePartialBytes.
  destruct (decide (nonZero data = [])) as [Hn|Hn].
  - rewrite (Hz Hn) in *. cbn [bitsetDecodePartial]. simpl in Hlt. destruct (Nat.eqb_spec (length data) 0); [lia|]. simpl.
    f_equal. clear -Hn. induction data as [|b data IH]; [done|]. simpl in *.
    destruct (Z.eqb_spec b 0) as [->|]; [|done]. simpl in Hn. f_equal. by apply IH.
  - destruct (Hnz Hn) as [_ Hd]. specialize (Hd []). rewrite app_nil_r in Hd. rewrite Hd. simpl. by rewrite Nat.eqb_refl.
Qed.

(** the bitset encoding is canonical: whatever [bitsetDecodeBytes] accepts is
    the encoding of its result, which has the target length. *)
Theorem decompress_canonical data target out : Forall byte_ok data ->
  bitsetDecodeBytes data target = Ok out ->
  length out = target /\ Forall byte_ok out /\ bitsetEncodeBytes out = Ok data.
Proof.
  intros Hb. unfold bitsetDecodeBytes, bitsetDecodePartialBytes.
  destruct (bitsetDecodePartial (S target) data target) as [[o n]| | |] eqn:Hr; simpl; try done.
  destruct (Nat.eqb_spec n (length data)) as [->|]; [|done]. intros [= <-].
  destruct (decode_encode _ (S target) _ _ _ _ Hr ltac:(lia) Hb) as (Hl & Ho & _ & He).
  rewrite take_ge in He by lia. split_and!; try done. unfold bitsetEncodeBytes. by rewrite Hl.
Qed.

Lemma compress_roundtrip_witness : exists c,
  CompressBytes [0; 7; 0; 0; 0; 0; 0; 0; 0; 9; 0] = Ok c /\
  DecompressBytes c 11 = Ok [0; 7; 0; 0; 0; 0; 0; 0; 0; 9; 0].
Proof.
  destruct (compress_roundtrip [0; 7; 0; 0; 0; 0; 0; 0; 0; 9; 0]) as (c & Hc & _ & Hd).
  - repeat constructor; lia.
  - exists c. split; [exact Hc|exact Hd].
Defined.

Lemma decompress_canonical_witness : bitsetEncodeBytes [0; 7; 0; 0; 0; 0; 0; 0; 0; 9; 0] = Ok [192; 64; 64; 7; 9].
Proof.
  refine (proj2 (proj2 (decompress_canonical [192; 64; 64; 7; 9] 11 _ _ _))).
  - repeat constructor; lia.
  - vm_compute. reflexivity.
Defined.

End Compress.

(** Byte strings are values here: the destination is a third string, as long as
    the caller made it.  A word is [wordSize] bytes read in the byte order of the
    machine; both orders are covered. *)
Module Bulk.

(** A word store past the end of the destination: Go's bounds check does not see
    it, because the slice header is reinterpreted; the caller must provide the space. *)
Inductive bulkErr : Type := overrun.

Section Bulk.
Context (wordSize : nat) (bigEndian supportsUnaligned : bool).

Fixpoint le (bs : list byte) : Z := match bs with [] => 0 | b :: bs => b + 256 * le bs end.
Fixpoint le_bytes (n : nat) (z : Z) : list byte :=
  match n with O => [] | S n => z mod 256 :: le_bytes n (z / 256) end.

(** [aw[i]] and [dw[i] = z]. *)
Definition load_word (l : list byte) (i : nat) : Z :=
  let bs := take wordSize (drop (wordSize * i) l) in le (if bigEndian then rev bs else bs).
Definition store_word (l : list byte) (i : nat) (z : Z) : outcome bulkErr (list byte) :=
  if (length l <? wordSize * S i)%nat then Err overrun
  else
    let bs := le_bytes wordSize z in
    Ok (take (wordSize * i) l ++ (if bigEndian then rev bs else bs) ++ drop (wordSize * S i) l).

(** [for i := i; i < i+n; i++ { dst[i] = a[i] op b[i] }] *)
Fixpoint byte_loop (op : Z -> Z -> Z) (n i : nat) (dst a b : list byte) : outcome bulkErr (list byte) :=
  match n with
  | O => Ok dst
  | S n =>
      x ← of_index (a !! i);
      y ← of_index (b !! i);
      if (length dst <=? i)%nat then Panic
      else byte_loop op n (S i) (<[i := op x y]> dst) a b
  end.

Fixpoint word_loop (op : Z -> Z -> Z) (n i : nat) (dst a b : list byte) : outcome bulkErr (list byte) :=
  match n with
  | O => Ok dst
  | S n =>
      dst ← store_word dst i (op (load_word a i) (load_word b i));
      word_loop op n (S i) dst a b
  end.

Definition safeBytes (op : Z -> Z -> Z) (dst a b : list byte) : outcome bulkErr (list byte * nat) :=
  let n := (if length b <? length a then length b else length a)%nat in
  dst ← byte_loop op n 0 dst a b; Ok (dst, n).

Definition fastBytes (op : Z -> Z -> Z) (dst a b : list byte) : outcome bulkErr (list byte * nat) :=
  let n := (if length b <? length a then length b else length a)%nat in
  let w := (n / wordSize)%nat in
  dst ← word_loop op w 0 dst a b;
  dst ← byte_loop op (n mod wordSize) (n - n mod wordSize) dst a b; Ok (dst, n).

Definition safeXORBytes := safeBytes Z.lxor.
Definition fastXORBytes := fastBytes Z.lxor.
Definition XORBytes dst a b := if supportsUnaligned then fastXORBytes dst a b else safeXORBytes dst a b.
Definition safeANDBytes := safeBytes Z.land.
Definition fastANDBytes := fastBytes Z.land.
Definition ANDBytes dst a b := if supportsUnaligned then fastANDBytes dst a b else safeANDBytes dst a b.
Definition safeORBytes := safeBytes Z.lor.
Definition fastORBytes := fastBytes Z.lor.
Definition ORBytes dst a b := if supportsUnaligned then fastORBytes dst a b else safeORBytes dst a b.

Definition safeTestBytes (p : list byte) : bool := existsb (fun x => negb (x =? 0)) p.
Definition fastTestBytes (p : list byte) : bool :=
  let n := length p in
  let w := (n / wordSize)%nat in
  existsb (fun i => negb (load_word p i =? 0)) (seq 0 w) ||
  existsb (fun x => negb (x =? 0)) (drop (n - n mod wordSize) p).
Definition TestBytes (p : list byte) : bool := if supportsUnaligned then fastTestBytes p else safeTestBytes p.

(** ** Bitwise operations on words are byte by byte *)

Definition bitwise (op : Z -> Z -> Z) : Prop :=
  (exists f, f false false = false /\ forall x y k, Z.testbit (op x y) k = f (Z.testbit x k) (Z.testbit y k)) /\
  forall x y, 0 <= x -> 0 <= y -> 0 <= op x y.

Lemma testbit_cons_low x z k : byte_ok x -> 0 <= k < 8 -> Z.testbit (x + 256 * z) k = Z.testbit x k.
Proof.
  intros Hx Hk. rewrite <- (Z.mod_pow2_bits_low (x + 256 * z) 8 k) by lia.
  replace ((x + 256 * z) mod 2 ^ 8) with x; [done|]. change (2 ^ 8) with 256. unfold byte_ok in Hx.
  apply Z.mod_unique with z; lia.
Qed.

Lemma testbit_cons_high x z k : byte_ok x -> 8 <= k -> Z.testbit (x + 256 * z) k = Z.testbit z (k - 8).
Proof.
  intros Hx Hk. unfold byte_ok in Hx. replace k with (k - 8 + 8) at 1 by lia. rewrite <- Z.div_pow2_bits by lia.
  f_equal. change (2 ^ 8) with 256. symmetry. apply Z.div_unique with x; lia.
Qed.

Lemma byte_testbit_high x k : byte_ok x -> 8 <= k -> Z.testbit x k = false.
Proof.
  intros Hx Hk. replace x with (x + 256 * 0) by lia. rewrite testbit_cons_high by done. apply Z.bits_0.
Qed.

Lemma byte_ok_bits x : (forall k, 8 <= k -> Z.testbit x k = false) -> 0 <= x -> byte_ok x.
Proof.
  intros Hk Hx. unfold byte_ok. split; [done|]. destruct (decide (x < 256)) as [|Hge]; [done|].
  assert (8 <= Z.log2 x) by (apply Z.log2_le_pow2; lia).
  pose proof (Z.bit_log2 x ltac:(lia)) as Hl. by rewrite Hk in Hl.
Qed.

Lemma bitwise_byte op x y : bitwise op -> byte_ok x -> byte_ok y -> byte_ok (op x y).
Proof.
  intros [(f & Hf0 & Hf) Hpos] Hx Hy. apply byte_ok_bits; [|unfold byte_ok in *; apply Hpos; lia].
  intros k Hk. by rewrite Hf, !byte_testbit_high.
Qed.

Lemma op_cons op x y z w : bitwise op -> byte_ok x -> byte_ok y ->
  op (x + 256 * z) (y + 256 * w) = op x y + 256 * op z w.
Proof.
  intros Hop Hx Hy. pose proof (bitwise_byte op x y Hop Hx Hy). destruct Hop as [(f & Hf0 & Hf) _].
  apply Z.bits_inj'. intros k Hk. rewrite Hf. destruct (decide (k < 8)).
  - rewrite !testbit_cons_low by (try done; lia). by rewrite Hf.
  - rewrite !testbit_cons_high by (try done; lia). by rewrite Hf.
Qed.

Lemma op_le op xs ys : bitwise op -> length xs = length ys -> Forall byte_ok xs -> Forall byte_ok ys ->
  op (le xs) (le ys) = le (zip_with op xs ys).
Proof.
  intros Hop Hl Hx Hy. revert ys Hl Hy. induction Hx as [|x xs Hx Hxs IH]; intros [|y ys] Hl Hy; try done; simpl.
  - destruct Hop as [(f & Hf0 & Hf) _]. apply Z.bits_inj'. intros k Hk. by rewrite Hf, !Z.bits_0.
  - apply Forall_cons in Hy as [Hy Hys]. rewrite op_cons by done. rewrite IH; [done|by injection Hl|done].
Qed.

Lemma le_bytes_le bs : Forall byte_ok bs -> le_bytes (length bs) (le bs) = bs.
Proof.
  induction 1 as [|b bs Hb Hbs IH]; [done|]. simpl. unfold byte_ok in Hb.
  replace ((b + 256 * le bs) mod 256) with b by (apply Z.mod_unique with (le bs); lia).
  replace ((b + 256 * le bs) / 256) with (le bs) by (apply Z.div_unique with b; lia). by rewrite IH.
Qed.

Lemma zip_with_rev (op : Z -> Z -> Z) xs ys : length xs = length ys ->
  rev (zip_with op (rev xs) (rev ys)) = zip_with op xs ys.
Proof.
  revert ys. induction xs as [|x xs IH]; intros [|y ys] Hl; try done. simpl. injection Hl as Hl.
  rewrite zip_with_app by (by rewrite !length_rev). rewrite rev_app_distr. simpl. by rewrite IH.
Qed.

(** ** Windows of the destination *)

Definition splice (i : nat) (bs dst : list byte) : list byte := take i dst ++ bs ++ drop (i + length bs) dst.

Lemma splice_splice i xs ys dst : (i + length xs + length ys <= length dst)%nat ->
  splice (i + length xs) ys (splice i xs dst) = splice i (xs ++ ys) dst.
Proof.
  intros Hl. unfold splice. rewrite length_app, Nat.add_assoc. rewrite !(app_assoc (take i dst) xs).
  rewrite take_app_length' by (rewrite length_app, length_take; lia).
  rewrite drop_app_ge by (rewrite length_app, length_take; lia).
  rewrite length_app, length_take_le by lia. rewrite drop_drop.
  replace (i + length xs + (i + length xs + length ys - (i + length xs)))%nat with (i + length xs + length ys)%nat by lia.
  by rewrite !app_assoc.
Qed.

Lemma splice_length i bs dst : (i + length bs <= length dst)%nat -> length (splice i bs dst) = length dst.
Proof. intros Hl. unfold splice. rewrite !length_app, length_take, length_drop. lia. Qed.

(** The bytes [op] gives at positions [i] to [i+n]. *)
Definition window (op : Z -> Z -> Z) (i n : nat) (a b : list byte) : list byte :=
  zip_with op (take n (drop i a)) (take n (drop i b)).

Lemma window_length op i n a b : (i + n <= length a)%nat -> (i + n <= length b)%nat -> length (window op i n a b) = n.
Proof. intros Ha Hb. unfold window. rewrite length_zip_with, !length_take, !length_drop. lia. Qed.

Lemma window_app op i n m a b : (i + n + m <= length a)%nat -> (i + n + m <= length b)%nat ->
  window op i n a b ++ window op (i + n) m a b = window op i (n + m) a b.
Proof.
  intros Ha Hb. unfold window. rewrite <- zip_with_app by (rewrite !length_take, !length_drop; lia).
  by rewrite <- !drop_drop, !take_take_drop.
Qed.

Lemma byte_loop_spec op a b : forall n i dst, (i + n <= length a)%nat -> (i + n <= length b)%nat -> (i + n <= length dst)%nat ->
  byte_loop op n i dst a b = Ok (splice i (window op i n a b) dst).
Proof.
  induction n as [|n IH]; intros i dst Ha Hb Hd; simpl.
  { unfold splice, window. simpl. by rewrite Nat.add_0_r, take_drop. }
  destruct (lookup_lt_is_Some_2 a i ltac:(lia)) as [x Hx], (lookup_lt_is_Some_2 b i ltac:(lia)) as [y Hy].
  rewrite Hx, Hy. simpl. destruct (Nat.leb_spec (length dst) i); [lia|].
  assert (<[i:=op x y]> dst = splice i (window op i 1 a b) dst) as ->.
  { unfold window. rewrite (drop_S a x i Hx), (drop_S b y i Hy). simpl. unfold splice. simpl.
    rewrite insert_take_drop by lia. by rewrite Nat.add_1_r. }
  pose proof (window_length op i 1 a b ltac:(lia) ltac:(lia)) as H1.
  pose proof (window_length op (S i) n a b ltac:(lia) ltac:(lia)) as H2.
  rewrite IH by (rewrite ?splice_length; lia). f_equal.
  change (S n) with (1 + n)%nat. rewrite <- (window_app op i 1 n a b) by lia. rewrite Nat.add_1_r. rewrite <- splice_splice by lia.
  by rewrite H1, Nat.add_1_r.
Qed.

Lemma store_word_spec op i dst a b : bitwise op -> Forall byte_ok a -> Forall byte_ok b ->
  (wordSize * S i <= length a)%nat -> (wordSize * S i <= length b)%nat -> (wordSize * S i <= length dst)%nat ->
  store_word dst i (op (load_word a i) (load_word b i)) =
  Ok (splice (wordSize * i) (window op (wordSize * i) wordSize a b) dst).
Proof.
  intros Hop Ha Hb Hla Hlb Hld. unfold store_word, load_word, splice.
  destruct (Nat.ltb_spec (length dst) (wordSize * S i)); [lia|]. f_equal. f_equal.
  rewrite window_length by lia. replace (wordSize * i + wordSize)%nat with (wordSize * S i)%nat by lia. f_equal.
  set (xs := take wordSize (drop (wordSize * i) a)). set (ys := take wordSize (drop (wordSize * i) b)).
  assert (length xs = wordSize /\ length ys = wordSize) as [Lx Ly].
  { unfold xs, ys. rewrite !length_take, !length_drop. lia. }
  assert (Forall byte_ok xs /\ Forall byte_ok ys) as [Bx By] by (split; by apply Forall_take, Forall_drop).
  assert (forall xs ys, length xs = wordSize -> length ys = wordSize -> Forall byte_ok xs -> Forall byte_ok ys ->
    le_bytes wordSize (op (le xs) (le ys)) = zip_with op xs ys) as Hkey.
  { intros us vs Lu Lv Bu Bv. rewrite op_le by (try done; congruence).
    rewrite <- (le_bytes_le (zip_with op us vs)) at 2; [by rewrite length_zip_with, Lu, Lv, Nat.min_id|].
    clear -Hop Bu Bv. revert vs Bv. induction Bu as [|u us Hu Bu IH]; intros vs Bv; [constructor|].
    destruct Bv as [|v vs Hv Bv]; [constructor|]. simpl. constructor; [by apply bitwise_byte|by apply IH]. }
  unfold window. fold xs ys. destruct bigEndian.
  - rewrite Hkey by (rewrite ?length_rev; try done; by apply Forall_rev). apply zip_with_rev. congruence.
  - by apply Hkey.
Qed.

Lemma word_loop_spec op a b : bitwise op -> Forall byte_ok a -> Forall byte_ok b -> forall n i dst,
  (wordSize * (i + n) <= length a)%nat -> (wordSize * (i + n) <= length b)%nat -> (wordSize * (i + n) <= length dst)%nat ->
  word_loop op n i dst a b = Ok (splice (wordSize * i) (window op (wordSize * i) (wordSize * n) a b) dst).
Proof.
  intros Hop Ha Hb. induction n as [|n IH]; intros i dst Hla Hlb Hld; cbn [word_loop].
  { unfold splice, window. rewrite Nat.mul_0_r. simpl. by rewrite Nat.add_0_r, take_drop. }
  rewrite store_word_spec by (try done; lia). simpl.
  pose proof (window_length op (wordSize * i) wordSize a b ltac:(lia) ltac:(lia)) as H1.
  pose proof (window_length op (wordSize * S i) (wordSize * n) a b ltac:(lia) ltac:(lia)) as H2.
  rewrite IH by (rewrite ?splice_length; lia). f_equal. rewrite (Nat.mul_succ_r wordSize n), (Nat.add_comm (wordSize * n)).
  replace (wordSize * S i)%nat with (wordSize * i + wordSize)%nat in * by lia.
  rewrite <- window_app by lia. rewrite <- splice_splice by lia. by rewrite H1.
Qed.

Lemma fast_safe op dst a b : (0 < wordSize)%nat -> bitwise op -> Forall byte_ok a -> Forall byte_ok b ->
  let n := (length a `min` length b)%nat in (n <= length dst)%nat ->
  safeBytes op dst a b = Ok (zip_with op a b ++ drop n dst, n) /\
  fastBytes op dst a b = Ok (zip_with op a b ++ drop n dst, n).
Proof.
  intros Hw Hop Ha Hb n Hd. unfold safeBytes, fastBytes.
  assert ((if length b <? length a then length b else length a)%nat = n) as ->.
  { unfold n. destruct (Nat.ltb_spec (length b) (length a)); lia. }
  assert (splice 0 (window op 0 n a b) dst = zip_with op a b ++ drop n dst) as Hres.
  { unfold splice, window. rewrite !drop_0. simpl. rewrite length_zip_with, !length_take.
    replace (n `min` length a `min` (n `min` length b))%nat with n by lia. f_equal. rewrite <- zip_with_take. apply take_ge. rewrite length_zip_with. lia. }
  split.
  - rewrite byte_loop_spec by lia. simpl. by rewrite Hres.
  - pose proof (Nat.div_mod_eq n wordSize) as Hdm. pose proof (Nat.mod_upper_bound n wordSize ltac:(lia)) as Hm.
    rewrite word_loop_spec by (try done; simpl; lia). simpl.
    assert (length (window op (wordSize * 0) (wordSize * (n / wordSize)) a b) = (wordSize * (n / wordSize))%nat) as Hl
      by (apply window_length; lia).
    rewrite byte_loop_spec by (rewrite ?splice_length; lia). simpl. f_equal. f_equal. rewrite <- Hres.
    rewrite Nat.mul_0_r in *. replace (n - n mod wordSize)%nat with (0 + wordSize * (n / wordSize))%nat by lia.
    rewrite <- Hl at 1. rewrite splice_splice; [|rewrite !window_length; lia].
    rewrite window_app by lia. by rewrite <- Hdm.
Qed.

Lemma bitwise_lxor : bitwise Z.lxor.
Proof. split; [exists xorb; split; [done|apply Z.lxor_spec]|]. intros x y Hx Hy. apply Z.lxor_nonneg. lia. Qed.
Lemma bitwise_land : bitwise Z.land.
Proof. split; [exists andb; split; [done|apply Z.land_spec]|]. intros x y Hx Hy. apply Z.land_nonneg. lia. Qed.
Lemma bitwise_lor : bitwise Z.lor.
Proof. split; [exists orb; split; [done|apply Z.lor_spec]|]. intros x y Hx Hy. apply Z.lor_nonneg. lia. Qed.

(** ** Testing for a set bit *)

Lemma le_nonneg bs : Forall byte_ok bs -> 0 <= le bs.
Proof. induction 1 as [|b bs Hb Hbs IH]; simpl; [lia|]. unfold byte_ok in Hb. lia. Qed.

Lemma le_zero bs : Forall byte_ok bs -> negb (le bs =? 0) = existsb (fun x => negb (x =? 0)) bs.
Proof.
  induction 1 as [|b bs Hb Hbs IH]; [done|]. simpl. rewrite <- IH. pose proof (le_nonneg bs Hbs). unfold byte_ok in Hb.
  destruct (Z.eqb_spec b 0), (Z.eqb_spec (le bs) 0), (Z.eqb_spec (b + 256 * le bs) 0); simpl; lia.
Qed.

Lemma existsb_rev (f : Z -> bool) l : existsb f (rev l) = existsb f l.
Proof. induction l as [|x l IH]; [done|]. simpl. rewrite existsb_app, IH. simpl. by rewrite orb_false_r, orb_comm. Qed.

Lemma load_word_zero p i : Forall byte_ok p ->
  negb (load_word p i =? 0) = existsb (fun x => negb (x =? 0)) (take wordSize (drop (wordSize * i) p)).
Proof.
  intros Hp. assert (Forall byte_ok (take wordSize (drop (wordSize * i) p))) by by apply Forall_take, Forall_drop.
  unfold load_word. destruct bigEndian.
  - rewrite le_zero by (by apply Forall_rev). apply existsb_rev.
  - by rewrite le_zero.
Qed.

Lemma existsb_words p : Forall byte_ok p -> forall n i,
  existsb (fun i => negb (load_word p i =? 0)) (seq i n) =
  existsb (fun x => negb (x =? 0)) (take (wordSize * n) (drop (wordSize * i) p)).
Proof.
  intros Hp. induction n as [|n IH]; intros i; simpl; [by rewrite Nat.mul_0_r|].
  rewrite IH, load_word_zero by done. rewrite <- existsb_app.
  replace (wordSize * S i)%nat with (wordSize * i + wordSize)%nat by lia.
  rewrite <- drop_drop, take_take_drop. by replace (wordSize + wordSize * n)%nat with (wordSize * S n)%nat by lia.
Qed.

(** the word-at-a-time and the byte-at-a-time loops agree, for either byte
    order and any word size: with a destination long enough, [XORBytes],
    [ANDBytes] and [ORBytes] write the operation of the first [min] bytes, leave
    the rest alone and return their number. *)
Theorem bulk_operations dst a b :
  (0 < wordSize)%nat -> Forall byte_ok a -> Forall byte_ok b ->
  let n := (length a `min` length b)%nat in (n <= length dst)%nat ->
  XORBytes dst a b = Ok (zip_with Z.lxor a b ++ drop n dst, n) /\
  ANDBytes dst a b = Ok (zip_with Z.land a b ++ drop n dst, n) /\
  ORBytes dst a b = Ok (zip_with Z.lor a b ++ drop n dst, n).
Proof.
  intros Hw Ha Hb n Hd.
  destruct (fast_safe Z.lxor dst a b Hw bitwise_lxor Ha Hb Hd) as [X1 X2].
  destruct (fast_safe Z.land dst a b Hw bitwise_land Ha Hb Hd) as [A1 A2].
  destruct (fast_safe Z.lor dst a b Hw bitwise_lor Ha Hb Hd) as [O1 O2].
  unfold XORBytes, ANDBytes, ORBytes. by destruct supportsUnaligned.
Qed.

(** [TestBytes] is true exactly when some byte is not zero. *)
Theorem TestBytes_spec p : (0 < wordSize)%nat -> Forall byte_ok p ->
  TestBytes p = true <-> exists x, x ∈ p /\ x <> 0.
Proof.
  intros Hw Hp. assert (fastTestBytes p = safeTestBytes p) as Hfs.
  { unfold fastTestBytes, safeTestBytes. rewrite existsb_words by done. rewrite Nat.mul_0_r, drop_0, <- existsb_app.
    pose proof (Nat.div_mod_eq (length p) wordSize) as Hdm.
    replace (length p - length p mod wordSize)%nat with (wordSize * (length p / wordSize))%nat by lia. by rewrite take_drop. }
  assert (TestBytes p = safeTestBytes p) as -> by (unfold TestBytes; by destruct supportsUnaligned).
  unfold safeTestBytes. rewrite existsb_exists. setoid_rewrite <- list_elem_of_In.
  split; intros (x & Hx & Hn); exists x; (split; [done|]).
  - by apply negb_true_iff, Z.eqb_neq in Hn.
  - by apply negb_true_iff, Z.eqb_neq.
Qed.

End Bulk.

Lemma bulk_operations_witness :
  XORBytes 2 false true (replicate 4 0) [1; 2; 3] [255; 2; 1; 9] = Ok ([254; 0; 2; 0], 3%nat).
Proof.
  refine (proj1 (bulk_operations 2 false true (replicate 4 0) [1; 2; 3] [255; 2; 1; 9] _ _ _ _)).
  - lia.
  - repeat constructor; lia.
  - repeat constructor; lia.
  - vm_compute. lia.
Defined.

Lemma TestBytes_spec_witness : TestBytes 2 false true [0; 0; 4] = true.
Proof.
  apply (TestBytes_spec 2 false true [0; 0; 4]).
  - lia.
  - repeat constructor; lia.
  - exists 4. split; [apply list_elem_of_In; simpl; auto|lia].
Defined.

End Bulk.
