(* ===== verification/Bloom.v ===== *)
(** * Log blooms (common/types/bloom.go, utils/bloom/bloom.go, utils/bloom/generator.go)

    The 2048-bit filter of a receipt or block: three bits per topic, taken from
    its hash; and the generator that rotates a section of filters into one bit
    vector per filter bit. *)

From stdpp Require Import base gmap list.
From S2P Require Import Prelude Types.
Local Open Scope Z_scope.

Definition BloomByteLength : nat := 256.
Definition BloomBitLength : nat := 2048.

(** [SetBytes] of a fresh filter panics on a slice that is too long. *)
Definition BytesToBloom (d : list byte) : outcome unit (list byte) :=
  if (BloomByteLength <? length d)%nat then Panic
  else Ok (copy_at (replicate BloomByteLength 0) (BloomByteLength - length d) d).

(** [Bloom.Big] *)
Definition Bloom_Big (b : list byte) : Z := be b.

Section Bloom.
Context (keccak : list byte -> list byte).

(** The bit chosen by the pair of bytes at [i]; an index out of the hash panics. *)
Definition bloom_bit (h : list byte) (i : nat) : option Z :=
  b0 ← h !! i; b1 ← h !! S i; Some (Z.land (b1 + Z.shiftl b0 8) 2047).

Definition calculateBloom (b : list byte) : outcome unit Z :=
  let h := keccak b in
  i0 ← of_index (bloom_bit h 0);
  i1 ← of_index (bloom_bit h 2);
  i2 ← of_index (bloom_bit h 4);
  Ok (Z.lor (Z.lor (Z.lor 0 (Z.shiftl 1 i0)) (Z.shiftl 1 i1)) (Z.shiftl 1 i2)).

Fixpoint bloom_of (topics : list (list byte)) (bin : Z) : outcome unit Z :=
  match topics with
  | [] => Ok bin
  | t :: topics => c ← calculateBloom t; bloom_of topics (Z.lor bin c)
  end.

Definition CreateBloom (topics : list (list byte)) : outcome unit (list byte) :=
  bin ← bloom_of topics 0; BytesToBloom (big_Bytes bin).

Definition BloomLookup (bin topic : list byte) : outcome unit bool :=
  cmp ← calculateBloom topic;
  Ok (Z.land (Bloom_Big bin) cmp =? cmp).

(** ** No false negatives *)

Hypothesis keccak_length : forall b, length (keccak b) = 32%nat.

Lemma bloom_bit_ok b i : (i < 31)%nat -> exists z, bloom_bit (keccak b) i = Some z /\ 0 <= z < 2048.
Proof.
  intros Hi. unfold bloom_bit.
  destruct (lookup_lt_is_Some_2 (keccak b) i) as [x ->]; [rewrite keccak_length; lia|].
  destruct (lookup_lt_is_Some_2 (keccak b) (S i)) as [y ->]; [rewrite keccak_length; lia|]. simpl.
  eexists. split; [done|]. change 2047 with (Z.ones 11). rewrite Z.land_ones by lia. apply Z.mod_pos_bound. lia.
Qed.

Lemma lor_bound a b n : 0 <= n -> 0 <= a < 2 ^ n -> 0 <= b < 2 ^ n -> 0 <= Z.lor a b < 2 ^ n.
Proof.
  intros Hn Ha Hb. split; [apply Z.lor_nonneg; lia|].
  assert (forall x, 0 <= x -> (x < 2 ^ n <-> forall m, n <= m -> Z.testbit x m = false)) as Hbits.
  { intros x Hx. split.
    - intros Hlt m Hm. destruct (decide (x = 0)) as [->|]; [apply Z.bits_0|].
      apply Z.bits_above_log2; [lia|]. apply Z.lt_le_trans with n; [|lia]. apply Z.log2_lt_pow2; lia.
    - intros Hb'. destruct (decide (x = 0)) as [->|]; [apply Z.pow_pos_nonneg; lia|].
      apply Z.log2_lt_pow2; [lia|]. destruct (Z.lt_ge_cases (Z.log2 x) n) as [|Hge]; [done|].
      specialize (Hb' (Z.log2 x) Hge). rewrite Z.bit_log2 in Hb' by lia. done. }
  apply Hbits; [apply Z.lor_nonneg; lia|]. intros m Hm. rewrite Z.lor_spec.
  rewrite (proj1 (Hbits a ltac:(lia)) ltac:(lia) m Hm), (proj1 (Hbits b ltac:(lia)) ltac:(lia) m Hm). done.
Qed.

Lemma calculateBloom_ok b : exists c, calculateBloom b = Ok c /\ 0 <= c < 2 ^ 2048.
Proof.
  unfold calculateBloom.
  destruct (bloom_bit_ok b 0) as (i0 & -> & H0); [lia|]. destruct (bloom_bit_ok b 2) as (i1 & -> & H1); [lia|].
  destruct (bloom_bit_ok b 4) as (i2 & -> & H2); [lia|]. simpl. eexists. split; [done|].
  assert (forall i, 0 <= i < 2048 -> 0 <= Z.shiftl 1 i < 2 ^ 2048) as Hs.
  { intros i Hi. rewrite Z.shiftl_1_l. split; [apply Z.pow_nonneg; lia|]. apply Z.pow_lt_mono_r; lia. }
  repeat apply lor_bound; try done; try (by apply Hs); try (by apply Z.pow_nonneg).
Qed.

(** [c] is among the bits of [bin]. *)
Definition within (c bin : Z) : Prop := Z.land bin c = c.

Lemma within_lor c bin d : within c bin -> within c (Z.lor bin d).
Proof.
  unfold within. intros Hw. apply Z.bits_inj'. intros i Hi. rewrite Z.land_spec, Z.lor_spec.
  apply (f_equal (fun z => Z.testbit z i)) in Hw. rewrite Z.land_spec in Hw.
  by destruct (Z.testbit bin i), (Z.testbit c i), (Z.testbit d i).
Qed.

Lemma bloom_of_ok topics : forall bin, 0 <= bin < 2 ^ 2048 -> exists r,
  bloom_of topics bin = Ok r /\ 0 <= r < 2 ^ 2048 /\ (forall c, within c bin -> within c r) /\
  forall t, t ∈ topics -> exists c, calculateBloom t = Ok c /\ within c r.
Proof.
  induction topics as [|t topics IH]; intros bin Hb; simpl.
  { exists bin. split_and!; try done; try lia. by intros t ?%elem_of_nil. }
  destruct (calculateBloom_ok t) as (c & Hc & Hr). rewrite Hc. simpl.
  destruct (IH (Z.lor bin c)) as (r & Hbo & Hrr & Hmono & Hin); [by apply lor_bound|].
  exists r. split_and!; try done; try lia.
  - intros d Hd. apply Hmono. by apply within_lor.
  - intros t' [->|Ht]%elem_of_cons; [|by apply Hin]. exists c. split; [done|]. apply Hmono. rewrite Z.lor_comm.
    apply within_lor. unfold within. apply Z.land_diag.
Qed.

Lemma BytesToBloom_big v : 0 <= v < 2 ^ 2048 -> exists b, BytesToBloom (big_Bytes v) = Ok b /\ length b = 256%nat /\ be b = v.
Proof.
  intros Hv. destruct (big_Bytes_spec v ltac:(lia)) as [Hbe _].
  assert (length (big_Bytes v) <= 256)%nat as Hl by (apply big_Bytes_length; done).
  unfold BytesToBloom, BloomByteLength. rewrite (proj2 (Nat.ltb_ge 256 _)) by lia. eexists. split; [done|].
  rewrite copy_at_full by (rewrite ?length_replicate; lia). rewrite take_replicate, Nat.min_l by lia. split.
  - rewrite length_app, length_replicate. lia.
  - rewrite be_app, be_zeros, Hbe. lia.
Qed.

(** C37: the filter of a list of topics is a filter of 256 bytes that never misses
    one of them. *)
Theorem bloom_no_false_negative topics t : t ∈ topics -> exists b,
  CreateBloom topics = Ok b /\ length b = 256%nat /\ BloomLookup b t = Ok true.
Proof.
  intros Ht. destruct (bloom_of_ok topics 0 ltac:(lia)) as (r & Hb & Hr & _ & Hin).
  destruct (BytesToBloom_big r Hr) as (b & Hbb & Hl & Hbe). exists b. unfold CreateBloom. rewrite Hb. simpl.
  split_and!; try done. destruct (Hin t Ht) as (c & Hc & Hw). unfold BloomLookup. rewrite Hc. simpl.
  unfold Bloom_Big. rewrite Hbe. f_equal. apply Z.eqb_eq. exact Hw.
Qed.

Lemma CreateBloom_ok topics : exists b, CreateBloom topics = Ok b /\ length b = 256%nat.
Proof.
  destruct (bloom_of_ok topics 0 ltac:(lia)) as (r & Hb & Hr & _). destruct (BytesToBloom_big r Hr) as (b & Hbb & Hl & _).
  exists b. unfold CreateBloom. by rewrite Hb.
Qed.

End Bloom.

(** ** The generator *)

Record Generator : Type := mkGen { g_blooms : list (list byte); g_sections : nat; g_nextBit : nat }.

Inductive genErr : Type := SectionCount | SectionOutOfBounds | UnexpectedIndex | NotGenerated.

Definition NewGenerator (sections : nat) : outcome genErr Generator :=
  if negb (sections mod 8 =? 0)%nat then Err SectionCount
  else Ok (mkGen (replicate BloomBitLength (replicate (sections / 8) 0)) sections 0).

(** Whether bit [i] of a filter is set: [bloom[255 - i/8] & (1 << i%8)]. *)
Definition bloom_has (bloom : list byte) (i : nat) : bool :=
  negb (Z.land (default 0 (bloom !! (BloomByteLength - 1 - i / 8)%nat)) (Z.shiftl 1 (Z.of_nat (i mod 8))) =? 0).

Definition AddBloom (b : Generator) (index : nat) (bloom : list byte) : outcome genErr Generator :=
  if (g_sections b <=? g_nextBit b)%nat then Err SectionOutOfBounds
  else if negb (g_nextBit b =? index)%nat then Err UnexpectedIndex
  else
    let byteIndex := (g_nextBit b / 8)%nat in
    let bitMask := Z.shiftl 1 (Z.of_nat (7 - g_nextBit b mod 8)) in
    Ok (mkGen (imap (fun i row => if bloom_has bloom i then alter (fun x => Z.lor x bitMask) byteIndex row else row) (g_blooms b))
          (g_sections b) (S (g_nextBit b))).

Definition Bitset (b : Generator) (idx : nat) : outcome genErr (list byte) :=
  if negb (g_nextBit b =? g_sections b)%nat then Err NotGenerated
  else if (g_sections b <=? idx)%nat then Err SectionOutOfBounds
  else of_index (g_blooms b !! idx).

(** Adding the filters of a section one after the other. *)
Fixpoint add_all (b : Generator) (blooms : list (list byte)) : outcome genErr Generator :=
  match blooms with
  | [] => Ok b
  | x :: blooms => b ← AddBloom b (g_nextBit b) x; add_all b blooms
  end.

(** Bit [j] of a bit vector, most significant first. *)
Definition row_bit (row : list byte) (j : nat) : bool :=
  match row !! (j / 8)%nat with Some x => Z.testbit x (Z.of_nat (7 - j mod 8)) | None => false end.

(** *** Bits *)

Lemma be_testbit bs k r : Forall byte_ok bs -> (k < length bs)%nat -> 0 <= r < 8 ->
  Z.testbit (be bs) (8 * Z.of_nat k + r) = Z.testbit (default 0 (bs !! (length bs - 1 - k)%nat)) r.
Proof.
  revert k. induction bs as [|x bs IH] using rev_ind; intros k Hall Hk Hr; [simpl in Hk; lia|].
  apply Forall_app in Hall as [Hbs Hx]. apply Forall_cons in Hx as [Hx _]. unfold byte_ok in Hx.
  rewrite be_app. rewrite length_app in *. simpl length in *. change (256 ^ Z.of_nat 1) with (2 ^ 8).
  change (be [x]) with (0 * 256 + x). replace (0 * 256 + x) with x by lia.
  assert (be bs * 2 ^ 8 + x = Z.lor (Z.shiftl (be bs) 8) x) as ->.
  { rewrite Z.shiftl_mul_pow2 by lia. apply Z.bits_inj'. intros i Hi. rewrite Z.lor_spec.
    rewrite <- (Z.mod_small x (2 ^ 8)) by lia. destruct (Z.lt_ge_cases i 8) as [Hlt|Hge].
    - rewrite Z.mul_pow2_bits_low by lia. rewrite <- (Z.mod_pow2_bits_low _ 8 i) by lia.
      rewrite Z.add_comm, Z.mod_add by lia. simpl. by rewrite Z.mod_pow2_bits_low, Z.mod_pow2_bits_low by lia.
    - rewrite Z.mul_pow2_bits by lia. rewrite (Z.mod_pow2_bits_high x 8 i) by lia. rewrite orb_false_r.
      replace i with (i - 8 + 8) at 1 by lia. rewrite <- Z.div_pow2_bits by lia. f_equal.
      rewrite Z.div_add_l by lia. rewrite Z.div_small by (apply Z.mod_pos_bound; lia). lia. }
  rewrite Z.lor_spec, Z.shiftl_spec by lia. destruct k as [|k].
  - replace (8 * Z.of_nat 0 + r) with r by lia. rewrite Z.testbit_neg_r by lia. simpl.
    rewrite lookup_app_r by lia. by replace (length bs + 1 - 1 - 0 - length bs)%nat with 0%nat by lia.
  - replace (8 * Z.of_nat (S k) + r - 8) with (8 * Z.of_nat k + r) by lia. rewrite IH by (done || lia).
    rewrite <- (Z.mod_small x (2 ^ 8)) by lia. rewrite Z.mod_pow2_bits_high by lia. rewrite orb_false_r.
    rewrite lookup_app_l by lia. do 3 f_equal. lia.
Qed.

Lemma bloom_has_spec bloom i : length bloom = 256%nat -> Forall byte_ok bloom -> (i < 2048)%nat ->
  bloom_has bloom i = Z.testbit (be bloom) (Z.of_nat i).
Proof.
  intros Hl Hb Hi. pose proof (Nat.div_mod_eq i 8) as Hdm. pose proof (Nat.mod_upper_bound i 8) as Hm.
  replace (Z.of_nat i) with (8 * Z.of_nat (i / 8) + Z.of_nat (i mod 8)) by lia.
  rewrite be_testbit by (done || lia). rewrite Hl. unfold bloom_has, BloomByteLength.
  set (x := default 0 _). set (r := Z.of_nat (i mod 8)). assert (0 <= r) by lia.
  rewrite Z.shiftl_1_l. destruct (Z.testbit x r) eqn:Ht.
  - apply negb_true_iff, Z.eqb_neq. intros He. apply (f_equal (fun z => Z.testbit z r)) in He.
    rewrite Z.land_spec, Ht, Z.pow2_bits_true, Z.bits_0 in He by lia. done.
  - apply negb_false_iff, Z.eqb_eq. apply Z.bits_inj'. intros j Hj. rewrite Z.land_spec, Z.bits_0.
    rewrite Z.pow2_bits_eqb by lia. destruct (Z.eqb_spec r j) as [<-|]; [by rewrite Ht|by rewrite andb_false_r].
Qed.

Lemma row_bit_alter (row : list byte) (n j : nat) : (n / 8 < length row)%nat ->
  row_bit (alter (fun x => Z.lor x (Z.shiftl 1 (Z.of_nat (7 - n mod 8)%nat))) (n / 8)%nat row) j = row_bit row j || (j =? n)%nat.
Proof.
  intros Hn. unfold row_bit. pose proof (Nat.div_mod_eq n 8). pose proof (Nat.mod_upper_bound n 8).
  pose proof (Nat.div_mod_eq j 8). pose proof (Nat.mod_upper_bound j 8).
  destruct (decide (n / 8 = j / 8)%nat) as [He|He].
  - rewrite He, list_lookup_alter_eq. destruct (lookup_lt_is_Some_2 row (j / 8)%nat ltac:(lia)) as [x ->]. simpl.
    rewrite Z.lor_spec, Z.shiftl_1_l, Z.pow2_bits_eqb by lia. f_equal.
    destruct (Nat.eqb_spec j n) as [->|Hne]; [apply Z.eqb_refl|apply Z.eqb_neq; lia].
  - rewrite list_lookup_alter_ne by done. destruct (Nat.eqb_spec j n); [congruence|]. by rewrite orb_false_r.
Qed.

(** *** Rotation *)

(** The generator holds the rotation of the filters [bs]. *)
Record rotated (b : Generator) (bs : list (list byte)) : Prop := {
  rot_rows : length (g_blooms b) = 2048%nat;
  rot_len i row : g_blooms b !! i = Some row -> length row = (g_sections b / 8)%nat;
  rot_next : g_nextBit b = length bs;
  rot_bits i row j : g_blooms b !! i = Some row ->
    row_bit row j = match bs !! j with Some x => bloom_has x i | None => false end;
}.

Lemma AddBloom_rotated b bs x : rotated b bs -> (length bs < g_sections b)%nat -> (g_sections b mod 8 = 0)%nat ->
  exists b', AddBloom b (g_nextBit b) x = Ok b' /\ rotated b' (bs ++ [x]) /\ g_sections b' = g_sections b.
Proof.
  intros [Hr Hl Hn Hb] Hlt Hmod. unfold AddBloom. rewrite Hn, (proj2 (Nat.leb_gt _ _)), Nat.eqb_refl by lia. simpl.
  eexists. split; [done|]. split; [|done].
  assert (length bs / 8 < g_sections b / 8)%nat as Hidx.
  { pose proof (Nat.div_mod_eq (g_sections b) 8). pose proof (Nat.div_mod_eq (length bs) 8). lia. }
  split; simpl; [by rewrite length_imap| |rewrite length_app; simpl; lia|].
  - intros i row. rewrite list_lookup_imap, fmap_Some. intros (row0 & Hrow & ->).
    destruct (bloom_has x i); [rewrite length_alter|]; by apply Hl with i.
  - intros i row j. rewrite list_lookup_imap, fmap_Some. intros (row0 & Hrow & ->).
    assert (row_bit row0 j || (if bloom_has x i then (j =? length bs)%nat else false) =
      match (bs ++ [x]) !! j with Some y => bloom_has y i | None => false end) as Hspec.
    { rewrite (Hb i row0 j Hrow). destruct (lt_eq_lt_dec j (length bs)) as [[Hj| ->]|Hj].
      - rewrite lookup_app_l by lia. destruct (lookup_lt_is_Some_2 bs j Hj) as [y ->].
        rewrite (proj2 (Nat.eqb_neq _ _)) by lia. by destruct (bloom_has x i), (bloom_has y i).
      - rewrite list_lookup_middle, (lookup_ge_None_2 bs), Nat.eqb_refl by done. by destruct (bloom_has x i).
      - rewrite (lookup_ge_None_2 bs), lookup_ge_None_2 by (rewrite ?length_app; simpl; lia).
        rewrite (proj2 (Nat.eqb_neq _ _)) by lia. by destruct (bloom_has x i). }
    destruct (bloom_has x i); [rewrite row_bit_alter by (rewrite (Hl i row0 Hrow); lia); done|by rewrite orb_false_r in Hspec].
Qed.

Lemma add_all_rotated bs2 : forall b bs, rotated b bs -> (length bs + length bs2 <= g_sections b)%nat -> (g_sections b mod 8 = 0)%nat ->
  exists b', add_all b bs2 = Ok b' /\ rotated b' (bs ++ bs2) /\ g_sections b' = g_sections b.
Proof.
  induction bs2 as [|x bs2 IH]; intros b bs Hr Hl Hm; simpl in *; [exists b; by rewrite app_nil_r|].
  destruct (AddBloom_rotated b bs x Hr ltac:(lia) Hm) as (b1 & -> & Hr1 & Hs1). simpl.
  destruct (IH b1 (bs ++ [x]) Hr1) as (b2 & -> & Hr2 & Hs2); [rewrite length_app, Hs1; simpl; lia|by rewrite Hs1|].
  exists b2. rewrite <- app_assoc in Hr2. split_and!; [done|done|congruence].
Qed.

Lemma NewGenerator_rotated n : (n mod 8 = 0)%nat -> exists b, NewGenerator n = Ok b /\ rotated b [] /\ g_sections b = n.
Proof.
  intros Hn. unfold NewGenerator. rewrite Hn. change (negb (0 =? 0)%nat) with false. cbv iota. eexists. split; [reflexivity|]. split; [|done]. split; cbn [g_blooms g_sections g_nextBit]; [apply length_replicate| |done|].
  - intros i row [-> _]%lookup_replicate. apply length_replicate.
  - intros i row j [-> _]%lookup_replicate. unfold row_bit. destruct (replicate _ _ !! _) as [x|] eqn:Hx; [|done].
    apply lookup_replicate in Hx as [-> _]. apply Z.bits_0.
Qed.

(** after a section of filters was added in order, the bit vector at [idx] has
    as its bit [j] the bit [idx] of filter [j]: the generator transposes. *)
Theorem generator_transposes bs idx : (length bs mod 8 = 0)%nat -> (idx < length bs)%nat -> (idx < 2048)%nat ->
  Forall (fun b => length b = 256%nat /\ Forall byte_ok b) bs ->
  exists b b' row, NewGenerator (length bs) = Ok b /\ add_all b bs = Ok b' /\ Bitset b' idx = Ok row /\
    length row = (length bs / 8)%nat /\
    forall j x, bs !! j = Some x -> row_bit row j = Z.testbit (be x) (Z.of_nat idx).
Proof.
  intros Hm Hi Hi2 Hall. destruct (NewGenerator_rotated _ Hm) as (b & Hb & Hr & Hs).
  destruct (add_all_rotated bs b [] Hr) as (b' & Ha & [Hrows Hlen Hnext Hbits] & Hs'); [rewrite Hs; simpl; lia|by rewrite Hs|].
  simpl in *. destruct (lookup_lt_is_Some_2 (g_blooms b') idx ltac:(lia)) as [row Hrow].
  exists b, b', row. split_and!; try done.
  - unfold Bitset. rewrite Hnext, Hs', Hs, Nat.eqb_refl. simpl. rewrite (proj2 (Nat.leb_gt _ _)) by lia. by rewrite Hrow.
  - rewrite (Hlen idx row Hrow), Hs', Hs. done.
  - intros j x Hx. rewrite (Hbits idx row j Hrow), Hx. rewrite Forall_forall in Hall.
    destruct (Hall x) as [? ?]; [by apply list_elem_of_lookup_2 in Hx|]. by apply bloom_has_spec.
Qed.

(** ** Examples *)

Definition sumHash (b : list byte) : list byte := replicate 31 (fold_right Z.add 0 b mod 256) ++ [Z.of_nat (length b) mod 256].

Lemma bloom_no_false_negative_witness : exists b, CreateBloom sumHash [[1; 2]; [3]] = Ok b /\ BloomLookup sumHash b [3] = Ok true.
Proof.
  destruct (bloom_no_false_negative sumHash (fun b => eq_refl) [[1; 2]; [3]] [3]) as (b & Hb & _ & Hl).
  - apply list_elem_of_further, list_elem_of_here.
  - exists b. split; [exact Hb|exact Hl].
Defined.

Definition ex_filters : list (list byte) := replicate 7 (replicate 256 0) ++ [replicate 255 0 ++ [5]].

Lemma generator_transposes_witness : exists b b' row, NewGenerator 8 = Ok b /\ add_all b ex_filters = Ok b' /\
  Bitset b' 2 = Ok row /\ row_bit row 7 = true.
Proof.
  destruct (generator_transposes ex_filters 2 eq_refl) as (b & b' & row & Hn & Ha & Hs & _ & Hbit).
  - apply Nat.ltb_lt. vm_compute. reflexivity.
  - apply Nat.ltb_lt. vm_compute. reflexivity.
  - apply Forall_forall. intros x Hx. apply elem_of_app in Hx as [[-> _]%elem_of_replicate| ->%list_elem_of_singleton];
      (split; [reflexivity|]); repeat (apply Forall_app; split); try (apply Forall_replicate; by vm_compute).
    constructor; [by vm_compute|constructor].
  - exists b, b', row. split_and!; [exact Hn|exact Ha|exact Hs|].
    rewrite (Hbit 7%nat (replicate 255 0 ++ [5]) eq_refl). vm_compute. reflexivity.
Defined.
