(* ===== verification/Numerals.v ===== *)
(** * Numerals of the Go standard library

    The parts of strconv and encoding/hex that the sources use: printing and
    parsing of integers in base 10 and 16, and the hex codec of byte strings.
    Strings are lists of bytes. *)

From stdpp Require Import strings base list numbers option.
From S2P Require Import Prelude.

(** The bytes of a string literal. *)
Definition str (s : string) : list byte := map (fun c => Z.of_N (Ascii.N_of_ascii c)) (String.list_ascii_of_string s).

(** ** Digits *)

Definition hexdigit (d : Z) : byte := if d <? 10 then 48 + d else 87 + d.

(** The value of a hexadecimal digit, of either case ([fromHexChar] of
    encoding/hex); a decimal digit is one below ten. *)
Definition digit_val (c : byte) : option Z :=
  if (48 <=? c) && (c <=? 57) then Some (c - 48)
  else if (97 <=? c) && (c <=? 102) then Some (c - 97 + 10)
  else if (65 <=? c) && (c <=? 70) then Some (c - 65 + 10)
  else None.

Lemma digit_val_hexdigit d : 0 <= d < 16 -> digit_val (hexdigit d) = Some d.
Proof.
  intros Hd. unfold digit_val, hexdigit.
  destruct (Z.ltb_spec d 10); repeat (case_match; try lia); f_equal; lia.
Qed.

Lemma digit_val_range c d : digit_val c = Some d -> 0 <= d < 16.
Proof. unfold digit_val. intros Hd. repeat (case_match; simplify_eq; try lia). Qed.

(** ** Numbers *)

(** The value of a digit string in base [b], if all of it are digits. *)
Fixpoint base_val (b acc : Z) (s : list byte) : option Z :=
  match s with
  | [] => Some acc
  | c :: s =>
      match digit_val c with
      | Some d => if d <? b then base_val b (acc * b + d) s else None
      | None => None
      end
  end.

Definition numval (b : Z) (s : list byte) : option Z := base_val b 0 s.

(** [strconv.AppendUint(nil, n, base)]: the shortest digit string; [n] has at most
    [log2 n + 1] digits. *)
Fixpoint to_base (fuel : nat) (b n : Z) (acc : list byte) : list byte :=
  match fuel with
  | O => acc
  | S fuel => if n <? b then hexdigit n :: acc else to_base fuel b (n / b) (hexdigit (n mod b) :: acc)
  end.

Definition FormatUint (n b : Z) : list byte := to_base (S (Z.to_nat (Z.log2 n))) b n [].

(** [strconv.AppendInt(nil, n, 10)] *)
Definition FormatInt (n : Z) : list byte :=
  if n <? 0 then 45 :: FormatUint (- n) 10 else FormatUint n 10.

Inductive numErr : Type := NumSyntax | NumRange.

Definition maxUint64 : Z := 2 ^ 64 - 1.
Definition maxInt64 : Z := 2 ^ 63 - 1.
Definition minInt64 : Z := - 2 ^ 63.

(** The loop of [strconv.ParseUint] at 64 bits: the value and the error. *)
Fixpoint parse_uint_loop (b n : Z) (s : list byte) : Z * option numErr :=
  match s with
  | [] => (n, None)
  | c :: s =>
      match digit_val c with
      | None => (0, Some NumSyntax)
      | Some d =>
          if b <=? d then (0, Some NumSyntax)
          else if maxUint64 / b + 1 <=? n then (maxUint64, Some NumRange)
          else
            let n1 := u64 (u64 (n * b) + d) in
            if n1 <? u64 (n * b) then (maxUint64, Some NumRange) else parse_uint_loop b n1 s
      end
  end.

Definition ParseUint (s : list byte) (b : Z) : Z * option numErr :=
  match s with [] => (0, Some NumSyntax) | _ => parse_uint_loop b 0 s end.

(** [strconv.ParseInt(s, 10, 64)], which is also [Atoi] where [int] has 64 bits:
    a value out of range is clamped. *)
Definition Atoi (s : list byte) : Z * option numErr :=
  let '(neg, rest) := match s with
                      | 43 :: r => (false, r)
                      | 45 :: r => (true, r)
                      | _ => (false, s)
                      end in
  match s with
  | [] => (0, Some NumSyntax)
  | _ =>
      match ParseUint rest 10 with
      | (_, Some NumSyntax) => (0, Some NumSyntax)
      | (un, _) =>
          if negb neg && (2 ^ 63 <=? un) then (maxInt64, Some NumRange)
          else if neg && (2 ^ 63 <? un) then (minInt64, Some NumRange)
          else (if neg then - un else un, None)
      end
  end.

(** ** encoding/hex *)

Definition hex_encode (b : list byte) : list byte :=
  b ≫= fun x => [hexdigit (Z.shiftr x 4); hexdigit (Z.land x 15)].

Inductive hexErr : Type := InvalidByte (c : byte) | OddLength.

(** [hex.Decode]: the bytes decoded before the first error, and the error. *)
Fixpoint hex_decode (s : list byte) : list byte * option hexErr :=
  match s with
  | [] => ([], None)
  | [c] => ([], Some (match digit_val c with Some _ => OddLength | None => InvalidByte c end))
  | c1 :: c2 :: s =>
      match digit_val c1, digit_val c2 with
      | None, _ => ([], Some (InvalidByte c1))
      | _, None => ([], Some (InvalidByte c2))
      | Some a, Some b => let '(l, e) := hex_decode s in (Z.lor (Z.shiftl a 4) b :: l, e)
      end
  end.

(** ** Printing and parsing *)

Lemma base_val_ge b s : 0 < b -> forall acc v, 0 <= acc -> base_val b acc s = Some v -> acc <= v.
Proof.
  intros Hb. induction s as [|c s IH]; simpl; intros acc v Ha Hv; [by simplify_eq|].
  destruct (digit_val c) as [d|] eqn:Hd; [|done]. apply digit_val_range in Hd.
  destruct (d <? b); [|done]. apply IH in Hv; nia.
Qed.

Lemma to_base_val b fuel : 2 <= b <= 16 -> forall n acc, 0 <= n < b ^ Z.of_nat fuel -> (0 < fuel)%nat ->
  base_val b 0 (to_base fuel b n acc) = base_val b n acc.
Proof.
  intros Hb. induction fuel as [|fuel IH]; intros n acc Hn Hf; [lia|]. simpl.
  destruct (Z.ltb_spec n b) as [Hlt|Hge]; simpl.
  { rewrite digit_val_hexdigit by lia. rewrite (proj2 (Z.ltb_lt n b)) by lia. f_equal; lia. }
  pose proof (Z.mod_pos_bound n b ltac:(lia)) as Hm. pose proof (Z.div_mod n b ltac:(lia)) as Hdm.
  rewrite Nat2Z.inj_succ, Z.pow_succ_r in Hn by lia.
  assert (n / b < b ^ Z.of_nat fuel) by (apply Z.div_lt_upper_bound; lia).
  rewrite IH; [|split; [apply Z.div_pos; lia|done]|].
  - simpl. rewrite digit_val_hexdigit by lia. rewrite (proj2 (Z.ltb_lt _ b)) by lia. f_equal. lia.
  - destruct fuel; [|lia]. change (b ^ Z.of_nat 0) with 1 in *. lia.
Qed.

Lemma log2_fuel b n : 2 <= b -> 0 <= n -> n < b ^ Z.of_nat (S (Z.to_nat (Z.log2 n))).
Proof.
  intros Hb Hn. destruct (decide (n = 0)) as [->|Hz].
  { simpl Z.log2. rewrite Nat2Z.inj_succ. apply Z.pow_pos_nonneg; lia. }
  pose proof (Z.log2_spec n ltac:(lia)) as [_ Hl]. pose proof (Z.log2_nonneg n).
  replace (Z.of_nat (S (Z.to_nat (Z.log2 n)))) with (Z.succ (Z.log2 n)) by lia.
  apply Z.lt_le_trans with (2 ^ Z.succ (Z.log2 n)); [done|]. apply Z.pow_le_mono_l. lia.
Qed.

Lemma numval_FormatUint b n : 2 <= b <= 16 -> 0 <= n -> numval b (FormatUint n b) = Some n.
Proof.
  intros Hb Hn. unfold numval, FormatUint. rewrite to_base_val; [done|done| |lia].
  split; [done|]. apply log2_fuel; lia.
Qed.

(** The most significant digit. *)
Lemma to_base_head b fuel : 2 <= b -> forall n acc, 0 < n < b ^ Z.of_nat fuel ->
  exists d r, to_base fuel b n acc = hexdigit d :: r /\ 0 < d < b.
Proof.
  intros Hb. induction fuel as [|fuel IH]; intros n acc Hn; [change (b ^ Z.of_nat 0) with 1 in *; lia|]. simpl.
  destruct (Z.ltb_spec n b) as [Hlt|Hge]; [eauto with lia|].
  rewrite Nat2Z.inj_succ, Z.pow_succ_r in Hn by lia.
  apply IH. split; [apply Z.div_str_pos; lia|apply Z.div_lt_upper_bound; lia].
Qed.

Lemma FormatUint_head b n : 2 <= b -> 0 < n -> exists d r, FormatUint n b = hexdigit d :: r /\ 0 < d < b.
Proof. intros Hb Hn. apply to_base_head; [done|]. split; [done|]. apply log2_fuel; lia. Qed.

Lemma to_base_length b fuel : 2 <= b -> forall n acc k, 0 <= n < b ^ Z.of_nat k -> (0 < k)%nat ->
  (length (to_base fuel b n acc) <= k + length acc)%nat.
Proof.
  intros Hb. induction fuel as [|fuel IH]; intros n acc k Hn Hk; simpl; [lia|].
  destruct (Z.ltb_spec n b) as [Hlt|Hge]; simpl; [lia|].
  destruct k as [|k]; [lia|]. rewrite Nat2Z.inj_succ, Z.pow_succ_r in Hn by lia.
  assert (n / b < b ^ Z.of_nat k) by (apply Z.div_lt_upper_bound; lia).
  assert (0 < n / b) by (apply Z.div_str_pos; lia).
  destruct k as [|k]; [change (b ^ Z.of_nat 0) with 1 in *; lia|].
  etransitivity; [apply (IH _ _ (S k)); lia|]. simpl. lia.
Qed.

Lemma FormatUint_length b n k : 2 <= b -> 0 <= n < b ^ Z.of_nat k -> (0 < k)%nat -> (length (FormatUint n b) <= k)%nat.
Proof. intros Hb Hn Hk. unfold FormatUint. etransitivity; [by apply (to_base_length b _ Hb n [] k)|]. simpl. lia. Qed.

Lemma FormatUint_nonempty b n : 2 <= b -> 0 <= n -> FormatUint n b <> [].
Proof.
  intros Hb Hn. destruct (decide (n = 0)) as [->|Hz].
  - unfold FormatUint. simpl. by rewrite (proj2 (Z.ltb_lt 0 b)) by lia.
  - destruct (FormatUint_head b n) as (d & r & -> & _); [lia|lia|done].
Qed.

(** A digit string is accepted exactly when its value fits 64 bits. *)
Lemma parse_uint_loop_spec b : 2 <= b <= 16 -> forall s n, 0 <= n < 2 ^ 64 ->
  match base_val b n s with
  | Some v => parse_uint_loop b n s = if v <? 2 ^ 64 then (v, None) else (maxUint64, Some NumRange)
  | None => exists v e, parse_uint_loop b n s = (v, Some e)
  end.
Proof.
  intros Hb. induction s as [|c s IH]; intros n Hn; simpl.
  { by rewrite (proj2 (Z.ltb_lt n _)) by lia. }
  destruct (digit_val c) as [d|] eqn:Hd; [|eauto]. apply digit_val_range in Hd.
  destruct (Z.ltb_spec d b) as [Hdb|Hdb]; [|rewrite (proj2 (Z.leb_le b d)) by lia; eauto].
  rewrite (proj2 (Z.leb_gt b d)) by lia. set (M := 2 ^ 64) in *.
  assert (M = 18446744073709551616) as HM by reflexivity.
  pose proof (Z.div_mod (M - 1) b ltac:(lia)) as Hdm. pose proof (Z.mod_pos_bound (M - 1) b ltac:(lia)) as Hm.
  assert (forall v, base_val b (n * b + d) s = Some v -> n * b + d <= v) as Hge by (intros v; apply base_val_ge; nia).
  unfold u64, wrap, maxUint64 in *. fold M. fold M in IH. destruct (Z.leb_spec ((M - 1) / b + 1) n) as [Hc|Hc].
  { destruct (base_val b (n * b + d) s) as [v|]; [|eauto]. specialize (Hge v eq_refl).
    by rewrite (proj2 (Z.ltb_ge v M)) by nia. }
  assert (n * b < M) as Hnb by nia. rewrite (Z.mod_small (n * b)) by nia.
  destruct (Z.ltb_spec ((n * b + d) mod M) (n * b)) as [Ho|Ho].
  - assert (M <= n * b + d).
    { destruct (Z.le_gt_cases M (n * b + d)) as [|Hlt]; [done|]. rewrite Z.mod_small in Ho; nia. }
    destruct (base_val b (n * b + d) s) as [v|]; [|eauto]. specialize (Hge v eq_refl).
    by rewrite (proj2 (Z.ltb_ge v M)) by nia.
  - assert (n * b + d < M).
    { destruct (Z.le_gt_cases M (n * b + d)) as [Hle|]; [|done].
      replace (n * b + d) with (n * b + d - M + 1 * M) in Ho by lia. rewrite Z.mod_add, Z.mod_small in Ho; nia. }
    rewrite Z.mod_small by nia. apply IH. nia.
Qed.

Lemma ParseUint_spec b s : 2 <= b <= 16 -> s <> [] ->
  match numval b s with
  | Some v => ParseUint s b = if v <? 2 ^ 64 then (v, None) else (maxUint64, Some NumRange)
  | None => exists v e, ParseUint s b = (v, Some e)
  end.
Proof. intros Hb Hs. destruct s as [|c s]; [done|]. apply parse_uint_loop_spec; [done|lia]. Qed.

Lemma Atoi_FormatInt n : minInt64 <= n <= maxInt64 -> Atoi (FormatInt n) = (n, None).
Proof.
  unfold minInt64, maxInt64. intros Hn. set (M := 2 ^ 63) in *. assert (M = 9223372036854775808) as HM by reflexivity.
  assert (forall m, 0 <= m <= M -> ParseUint (FormatUint m 10) 10 = (m, None)) as Hp.
  { intros m Hm. pose proof (ParseUint_spec 10 (FormatUint m 10) ltac:(lia) ltac:(apply FormatUint_nonempty; lia)) as Hs.
    rewrite numval_FormatUint in Hs by lia. rewrite Hs.
    rewrite (proj2 (Z.ltb_lt m _)); [done|]. change (2 ^ 64) with (2 * M). lia. }
  unfold FormatInt, Atoi. destruct (Z.ltb_spec n 0) as [Hneg|Hpos].
  - rewrite Hp by lia. simpl. fold M. rewrite (proj2 (Z.ltb_ge M _)) by lia. f_equal. lia.
  - assert (exists c r, FormatUint n 10 = c :: r /\ 48 <= c <= 57) as (c & r & Hf & Hc).
    { destruct (decide (n = 0)) as [->|]; [by exists 48, []|].
      destruct (FormatUint_head 10 n ltac:(lia) ltac:(lia)) as (d & r & Hf & Hd). exists (hexdigit d), r. split; [done|].
      unfold hexdigit. destruct (Z.ltb_spec d 10); lia. }
    pose proof (Hp n ltac:(lia)) as Hpn. rewrite Hf in *.
    assert (match c :: r with 43 :: r0 => (false, r0) | 45 :: r0 => (true, r0) | _ => (false, c :: r) end = (false, c :: r)) as ->.
    { destruct c as [|p|]; [done| |done]. repeat (destruct p as [p|p|]; try done; try lia). }
    rewrite Hpn. simpl. fold M. rewrite (proj2 (Z.leb_gt M n)) by lia. done.
Qed.

(** ** The hex codec *)

Lemma nibbles x : byte_ok x -> 0 <= Z.shiftr x 4 < 16 /\ 0 <= Z.land x 15 < 16 /\ Z.lor (Z.shiftl (Z.shiftr x 4) 4) (Z.land x 15) = x.
Proof.
  unfold byte_ok. intros Hx. rewrite Z.shiftr_div_pow2 by lia. change (2 ^ 4) with 16.
  change 15 with (Z.ones 4). rewrite Z.land_ones by lia. change (2 ^ 4) with 16.
  pose proof (Z.div_mod x 16 ltac:(lia)). pose proof (Z.mod_pos_bound x 16 ltac:(lia)).
  split; [split; [apply Z.div_pos; lia|apply Z.div_lt_upper_bound; lia]|]. split; [lia|].
  rewrite Z.lor_comm, Z.shiftl_mul_pow2 by lia. change (2 ^ 4) with 16.
  apply Z.bits_inj'. intros i Hi. rewrite Z.lor_spec. replace 16 with (2 ^ 4) by done.
  destruct (Z.lt_ge_cases i 4) as [Hlt|Hge].
  - rewrite Z.mul_pow2_bits_low, orb_false_r by lia. by rewrite Z.mod_pow2_bits_low by lia.
  - rewrite Z.mul_pow2_bits, Z.div_pow2_bits, Z.mod_pow2_bits_high by lia. simpl. f_equal. lia.
Qed.

Lemma hex_decode_encode b : Forall byte_ok b -> hex_decode (hex_encode b) = (b, None).
Proof.
  induction 1 as [|x b Hx Hb IH]; [done|]. destruct (nibbles x Hx) as (Hh & Hl & Hv).
  change (hex_encode (x :: b)) with (hexdigit (Z.shiftr x 4) :: hexdigit (Z.land x 15) :: hex_encode b).
  cbn [hex_decode]. rewrite !digit_val_hexdigit, IH by done. by rewrite Hv.
Qed.

Lemma hex_encode_length b : length (hex_encode b) = (2 * length b)%nat.
Proof.
  induction b as [|x b IH]; [done|].
  change (hex_encode (x :: b)) with (hexdigit (Z.shiftr x 4) :: hexdigit (Z.land x 15) :: hex_encode b).
  simpl. rewrite IH. lia.
Qed.

Lemma hex_encode_digits b : Forall byte_ok b -> Forall (fun c => is_Some (digit_val c)) (hex_encode b).
Proof.
  induction 1 as [|x b Hx Hb IH]; [constructor|]. destruct (nibbles x Hx) as (Hh & Hl & _).
  change (hex_encode (x :: b)) with (hexdigit (Z.shiftr x 4) :: hexdigit (Z.land x 15) :: hex_encode b).
  repeat constructor; [rewrite digit_val_hexdigit by done; eauto..|done].
Qed.
