(* ===== verification/Hex.v ===== *)
(** * Hex strings (common/types/util/hex, common/types/util/bytes.go)

    Decoding and encoding of 0x-prefixed byte strings and quantities, their
    text and JSON unmarshallers, and the conversions of hashes and addresses
    built on them (common/types/hash.go, address.go).  A method that fills its
    receiver takes the old value and returns the new one. *)

From stdpp Require Import strings base gmap list.
From S2P Require Import Prelude Types Numerals.

Inductive decError : Type :=
| ErrEmptyString | ErrSyntax | ErrMissingPrefix | ErrOddLength | ErrEmptyNumber
| ErrLeadingZero | ErrUint64Range | ErrUintRange | ErrBig256Range.

Definition has0xPrefix (input : list byte) : bool :=
  match input with a :: c :: _ => (a =? 48) && ((c =? 120) || (c =? 88)) | _ => false end.

(** [mapError] on the errors of strconv and of encoding/hex. *)
Definition mapNumError (e : numErr) : decError := match e with NumRange => ErrUint64Range | NumSyntax => ErrSyntax end.
Definition mapHexError (e : hexErr) : decError := match e with InvalidByte _ => ErrSyntax | OddLength => ErrOddLength end.

Definition badNibble : Z := 2 ^ 64 - 1.
Definition decodeNibble (c : byte) : Z :=
  if (48 <=? c) && (c <=? 57) then c - 48
  else if (65 <=? c) && (c <=? 70) then c - 65 + 10
  else if (97 <=? c) && (c <=? 102) then c - 97 + 10
  else badNibble.

(** ** hex.go *)

Definition Decode (input : list byte) : list byte * option decError :=
  if (length input =? 0)%nat then ([], Some ErrEmptyString)
  else if negb (has0xPrefix input) then ([], Some ErrMissingPrefix)
  else let '(b, err) := hex_decode (drop 2 input) in (b, mapHexError <$> err).

Definition must {A} (r : A * option decError) : outcome decError A :=
  match r with (a, None) => Ok a | (_, Some _) => Panic end.

Definition MustDecode (input : list byte) : outcome decError (list byte) := must (Decode input).

Definition Encode (b : list byte) : list byte := str "0x" ++ hex_encode b.

Definition checkNumber (input : list byte) : outcome decError (list byte) :=
  if (length input =? 0)%nat then Err ErrEmptyString
  else if negb (has0xPrefix input) then Err ErrMissingPrefix
  else
    match drop 2 input with
    | [] => Err ErrEmptyNumber
    | c :: rest => if (1 <? length (c :: rest))%nat && (c =? 48) then Err ErrLeadingZero else Ok (c :: rest)
    end.

Definition DecodeUint64 (input : list byte) : Z * option decError :=
  match checkNumber input with
  | Ok raw => let '(dec, err) := ParseUint raw 16 in (dec, mapNumError <$> err)
  | Err e => (0, Some e)
  | _ => (0, None)
  end.

Definition MustDecodeUint64 (input : list byte) : outcome decError Z := must (DecodeUint64 input).

Definition EncodeUint64 (i : Z) : list byte := str "0x" ++ FormatUint i 16.

Definition bigWordNibbles : nat := 16.

(** The inner loop of [DecodeBig]: the digits of one machine word. *)
Fixpoint word_loop (w : Z) (ds : list byte) : outcome decError Z :=
  match ds with
  | [] => Ok w
  | c :: ds =>
      let nib := decodeNibble c in
      if nib =? badNibble then Err ErrSyntax else word_loop (u64 (u64 (w * 16) + nib)) ds
  end.

(** The outer loop: the words from the end of the string on. *)
Fixpoint words_loop (k : nat) (raw : list byte) (endp : nat) : outcome decError (list Z) :=
  match k with
  | O => Ok []
  | S k =>
      let start := (endp - bigWordNibbles)%nat in
      w ← word_loop 0 (drop start (take endp raw));
      ws ← words_loop k raw start;
      Ok (w :: ws)
  end.

(** [new(big.Int).SetBits(words)] *)
Definition SetBits (words : list Z) : Z := foldr (fun w acc => w + 2 ^ 64 * acc) 0 words.

Definition decode_words (raw : list byte) : outcome decError Z :=
  if (64 <? length raw)%nat then Err ErrBig256Range
  else
    words ← words_loop (length raw / bigWordNibbles + 1)%nat raw (length raw);
    Ok (SetBits words).

Definition DecodeBig (input : list byte) : outcome decError Z :=
  raw ← checkNumber input; decode_words raw.

Definition MustDecodeBig (input : list byte) : outcome decError Z :=
  match DecodeBig input with Err _ => Panic | r => r end.

(** [fmt.Sprintf] of a [big.Int] with %#x prints the sign before the prefix. *)
Definition EncodeBig (v : Z) : list byte :=
  if v =? 0 then str "0x0"
  else (if v <? 0 then str "-" else []) ++ str "0x" ++ FormatUint (Z.abs v) 16.

(** ** json.go *)

Definition isString (input : list byte) : bool :=
  (2 <=? length input)%nat && bool_decide (head input = Some 34) && bool_decide (list.last input = Some 34).

Definition checkText (input : list byte) (wantPrefix : bool) : outcome decError (list byte) :=
  if (length input =? 0)%nat then Ok []
  else
    raw ← (if has0xPrefix input then Ok (drop 2 input) else if wantPrefix then Err ErrMissingPrefix else Ok input);
    if negb (length raw mod 2 =? 0)%nat then Err ErrOddLength else Ok raw.

Definition checkNumberText (input : list byte) : outcome decError (list byte) :=
  if (length input =? 0)%nat then Ok []
  else if negb (has0xPrefix input) then Err ErrMissingPrefix
  else
    match drop 2 input with
    | [] => Err ErrEmptyNumber
    | c :: rest => if (1 <? length (c :: rest))%nat && (c =? 48) then Err ErrLeadingZero else Ok (c :: rest)
    end.

Definition Bytes_MarshalText (b : list byte) : list byte := str "0x" ++ hex_encode b.

(** A receiver that is assigned only on success. *)
Definition assign {A E} (old : A) (r : outcome E A) : A * option E :=
  match r with Ok a => (a, None) | Err e => (old, Some e) | _ => (old, None) end.

Definition Bytes_UnmarshalText (b input : list byte) : list byte * option decError :=
  assign b (raw ← checkText input true;
            match hex_decode raw with (dec, None) => Ok dec | (_, Some e) => Err (mapHexError e) end).

(** Errors of the fixed-size decoders; [wrapTypeError] turns a [decError] into a
    [json.UnmarshalTypeError]. *)
Inductive textErr : Type := TextDec (e : decError) | TextLength (have want : Z).
Inductive jsonErr : Type := NonString | TypeError (e : decError) | LengthError (have want : Z).

Definition wrapTypeError (e : textErr) : jsonErr :=
  match e with TextDec e => TypeError e | TextLength h w => LengthError h w end.

Definition unmarshalFixed (wantPrefix : bool) (input out : list byte) : list byte * option textErr :=
  match checkText input wantPrefix with
  | Ok raw =>
      if negb (length raw / 2 =? length out)%nat
      then (out, Some (TextLength (Z.of_nat (length raw)) (Z.of_nat (length out) * 2)))
      else if existsb (fun b => decodeNibble b =? badNibble) raw then (out, Some (TextDec ErrSyntax))
      else (copy_at out 0 (fst (hex_decode raw)), None)
  | Err e => (out, Some (TextDec e))
  | _ => (out, None)
  end.

Definition UnmarshalFixedText (input out : list byte) : list byte * option textErr := unmarshalFixed true input out.
Definition UnmarshalFixedUnprefixedText (input out : list byte) : list byte * option textErr := unmarshalFixed false input out.

(** [input[1:len(input)-1]] *)
Definition unquoted (input : list byte) : list byte := take (length input - 2) (drop 1 input).

Definition UnmarshalFixedJSON (input out : list byte) : list byte * option jsonErr :=
  if negb (isString input) then (out, Some NonString)
  else let '(out, e) := UnmarshalFixedText (unquoted input) out in (out, wrapTypeError <$> e).

(** The JSON forms of the other types: a string with the text form inside. *)
Definition unmarshalJSON {A} (text : A -> list byte -> A * option decError) (b : A) (input : list byte) : A * option jsonErr :=
  if negb (isString input) then (b, Some NonString)
  else let '(b, e) := text b (unquoted input) in (b, TypeError <$> e).

Definition Bytes_UnmarshalJSON : list byte -> list byte -> list byte * option jsonErr := unmarshalJSON Bytes_UnmarshalText.

Definition Big_MarshalText (b : Z) : list byte := EncodeBig b.
Definition Big_UnmarshalText (b : Z) (input : list byte) : Z * option decError :=
  assign b (raw ← checkNumberText input; decode_words raw).
Definition Big_UnmarshalJSON : Z -> list byte -> Z * option jsonErr := unmarshalJSON Big_UnmarshalText.

Definition Uint64_MarshalText (b : Z) : list byte := str "0x" ++ FormatUint b 16.
Definition Uint64_UnmarshalText (b : Z) (input : list byte) : Z * option decError :=
  assign b (raw ← checkNumberText input;
            if (16 <? length raw)%nat then Err ErrUint64Range else word_loop 0 raw).
Definition Uint64_UnmarshalJSON : Z -> list byte -> Z * option jsonErr := unmarshalJSON Uint64_UnmarshalText.

Definition Uint_UnmarshalText (b : Z) (input : list byte) : Z * option decError :=
  match Uint64_UnmarshalText 0 input with
  | (u, Some ErrUint64Range) => (b, Some ErrUintRange)
  | (u, e) => if maxUint64 <? u then (b, Some ErrUintRange)
              else match e with Some e => (b, Some e) | None => (u, None) end
  end.
Definition Uint_UnmarshalJSON : Z -> list byte -> Z * option jsonErr := unmarshalJSON Uint_UnmarshalText.

(** ** util/bytes.go *)

Definition Bytes2Hex (d : list byte) : list byte := hex_encode d.
Definition Hex2Bytes (s : list byte) : list byte := fst (hex_decode s).

Definition ToHex (b : list byte) : list byte :=
  let hex := Bytes2Hex b in
  str "0x" ++ (if (length hex =? 0)%nat then str "0" else hex).

Definition FromHex (s : list byte) : list byte :=
  let s := if (1 <? length s)%nat && has0xPrefix s then drop 2 s else s in
  let s := if (length s mod 2 =? 1)%nat then str "0" ++ s else s in
  Hex2Bytes s.

Definition isHexCharacter (c : byte) : bool :=
  ((48 <=? c) && (c <=? 57)) || ((97 <=? c) && (c <=? 102)) || ((65 <=? c) && (c <=? 70)).
Definition IsHex (s : list byte) : bool :=
  if negb (length s mod 2 =? 0)%nat then false else forallb isHexCharacter s.

Definition Hex2BytesFixed (s : list byte) (flen : nat) : list byte :=
  let h := fst (hex_decode s) in
  if (length h =? flen)%nat then h
  else if (flen <? length h)%nat then drop (length h - flen) h
  else copy_at (replicate flen 0) (flen - length h) h.

(** ** Hashes and addresses *)

Definition HexToHash (s : list byte) : Hash := BytesToHash (FromHex s).
Definition HexToAddress (s : list byte) : Address := BytesToAddress (FromHex s).
Definition Hash_Hex (h : Hash) : list byte := Encode h.

Definition IsHexAddress (s : list byte) : bool :=
  let s := if has0xPrefix s then drop 2 s else s in
  (length s =? 2 * AddressLength)%nat && IsHex s.

(** One step of the checksum loop of [Address.Hex]: [h] is the byte of the hash
    for position [i]. *)
Definition checksum_char (i : nat) (c h : byte) : byte :=
  let hb := if (i mod 2 =? 0)%nat then Z.shiftr h 4 else Z.land h 15 in
  if (57 <? c) && (7 <? hb) then c - 32 else c.

(** [Address.Hex]: [keccak] is the hash of the lower case digits. *)
Definition Address_Hex (keccak : list byte -> list byte) (a : Address) : list byte :=
  let unchecksummed := hex_encode a in
  let hash := keccak unchecksummed in
  str "0x" ++ imap (fun i c => checksum_char i c (default 0 (hash !! (i / 2)%nat))) unchecksummed.

Definition Address_UnmarshalText (a input : list byte) : list byte * option textErr := UnmarshalFixedText input a.
Definition Hash_UnmarshalText (h input : list byte) : list byte * option textErr := UnmarshalFixedText input h.

(** ** Digits and words *)

Lemma decodeNibble_digit c : decodeNibble c = default badNibble (digit_val c).
Proof.
  unfold decodeNibble, digit_val.
  destruct (Z.leb_spec 48 c), (Z.leb_spec c 57), (Z.leb_spec 65 c), (Z.leb_spec c 70), (Z.leb_spec 97 c), (Z.leb_spec c 102);
    simpl; done || lia.
Qed.

Lemma decodeNibble_bad c : (decodeNibble c =? badNibble) = true <-> digit_val c = None.
Proof.
  rewrite decodeNibble_digit. destruct (digit_val c) as [d|] eqn:Hd; simpl; [|done].
  apply digit_val_range in Hd. split; [|done]. unfold badNibble. intros He%Z.eqb_eq. lia.
Qed.

Lemma base_val_app b acc x y : base_val b acc (x ++ y) = base_val b acc x ≫= fun v => base_val b v y.
Proof.
  revert acc. induction x as [|c x IH]; intros acc; simpl; [done|].
  destruct (digit_val c); [|done]. case_match; [apply IH|done].
Qed.

Lemma base_val_acc b acc s : base_val b acc s = (fun v => acc * b ^ Z.of_nat (length s) + v) <$> numval b s.
Proof.
  unfold numval. revert acc. induction s as [|c s IH]; intros acc; simpl; [f_equal; lia|].
  destruct (digit_val c) as [d|]; [|done]. destruct (d <? b); [|done].
  rewrite (IH (acc * b + d)), (IH (0 * b + d)). destruct (base_val b 0 s); simpl; [|done]. f_equal.
  rewrite Nat2Z.inj_succ, Z.pow_succ_r by lia. lia.
Qed.

Lemma numval_bound s v : numval 16 s = Some v -> 0 <= v < 16 ^ Z.of_nat (length s).
Proof.
  revert v. induction s as [|c s IH] using rev_ind; intros v; [intros [= <-]; done|].
  unfold numval in *. rewrite base_val_app. destruct (base_val 16 0 s) as [w|]; simpl; [|done].
  destruct (digit_val c) as [d|] eqn:Hd; [|done]. apply digit_val_range in Hd. destruct (d <? 16); [|done].
  intros [= <-]. specialize (IH w eq_refl). rewrite length_app. simpl.
  rewrite Nat2Z.inj_add, Z.pow_add_r by lia. change (16 ^ Z.of_nat 1) with 16. nia.
Qed.

Lemma hexword_loop_spec ds : forall w, 0 <= w -> (w + 1) * 16 ^ Z.of_nat (length ds) <= 2 ^ 64 ->
  word_loop w ds = match base_val 16 w ds with Some v => Ok v | None => Err ErrSyntax end.
Proof.
  induction ds as [|c ds IH]; intros w Hw Hb; [done|]. simpl word_loop. simpl base_val.
  destruct (decodeNibble c =? badNibble) eqn:Hbad; [apply decodeNibble_bad in Hbad; by rewrite Hbad|].
  rewrite decodeNibble_digit in *. destruct (digit_val c) as [d|] eqn:Hd; simpl in *; [|done].
  apply digit_val_range in Hd. rewrite (proj2 (Z.ltb_lt d 16)) by lia.
  rewrite Nat2Z.inj_succ, Z.pow_succ_r in Hb by lia.
  pose proof (Z.pow_pos_nonneg 16 (Z.of_nat (length ds)) ltac:(lia) ltac:(lia)).
  assert ((w + 1) * 16 <= 2 ^ 64) by nia.
  unfold u64. rewrite (wrap_small 64 (w * 16)), wrap_small by lia. apply IH; nia.
Qed.

Lemma words_loop_spec raw k : forall e, (e <= length raw)%nat -> (e <= 16 * k)%nat ->
  match numval 16 (take e raw) with
  | Some v => exists ws, words_loop k raw e = Ok ws /\ SetBits ws = v
  | None => words_loop k raw e = Err ErrSyntax
  end.
Proof.
  induction k as [|k IH]; intros e He Hk.
  { replace e with 0%nat by lia. by exists []. }
  simpl words_loop. unfold bigWordNibbles. set (st := (e - 16)%nat).
  assert (take e raw = take st raw ++ drop st (take e raw)) as Hsplit.
  { rewrite <- (take_drop st (take e raw)) at 1. rewrite take_take. by replace (st `min` e)%nat with st by lia. }
  assert (length (drop st (take e raw)) = e - st)%nat as Hlen by (rewrite length_drop, length_take; lia).
  assert (numval 16 (take e raw) = numval 16 (take st raw) ≫= fun v => base_val 16 v (drop st (take e raw))) as ->.
  { unfold numval. by rewrite <- base_val_app, <- Hsplit. }
  rewrite hexword_loop_spec; [|lia|].
  2:{ rewrite Hlen. change (2 ^ 64) with (16 ^ Z.of_nat 16). rewrite Z.add_0_l, Z.mul_1_l.
      apply Z.pow_le_mono_r; lia. }
  specialize (IH st ltac:(lia) ltac:(lia)).
  destruct (numval 16 (take st raw)) as [v|] eqn:Hv; simpl.
  - rewrite base_val_acc. unfold numval. destruct (base_val 16 0 (drop st (take e raw))) as [w|] eqn:Hw; simpl; [|done].
    destruct IH as (ws & -> & <-). simpl. exists (w :: ws). split; [done|]. simpl. rewrite Hlen.
    destruct (decide (st = 0%nat)) as [Hz|Hz].
    + rewrite Hz in Hv. simpl in Hv. injection Hv as Hv. rewrite <- Hv. lia.
    + replace (e - st)%nat with 16%nat by lia. change (16 ^ Z.of_nat 16) with (2 ^ 64). lia.
  - destruct (base_val 16 0 (drop st (take e raw))); simpl; [|done]. by rewrite IH.
Qed.

(** The word loop computes the value of the digits. *)
Lemma decode_words_spec raw : (length raw <= 64)%nat ->
  decode_words raw = match numval 16 raw with Some v => Ok v | None => Err ErrSyntax end.
Proof.
  intros Hl. unfold decode_words. rewrite (proj2 (Nat.ltb_ge 64 _)) by lia.
  pose proof (words_loop_spec raw (length raw / bigWordNibbles + 1) (length raw)) as Hw.
  rewrite take_ge in Hw by done. unfold bigWordNibbles in *.
  pose proof (Nat.div_mod_eq (length raw) 16). pose proof (Nat.mod_upper_bound (length raw) 16).
  specialize (Hw ltac:(lia) ltac:(lia)). destruct (numval 16 raw); [|by rewrite Hw].
  destruct Hw as (ws & -> & <-). done.
Qed.

(** ** Canonical numerals *)

Definition lower (c : byte) : byte := if (65 <=? c) && (c <=? 70) then c + 32 else c.

Lemma lower_digit c d : digit_val c = Some d -> hexdigit d = lower c.
Proof.
  unfold digit_val, lower, hexdigit. intros Hd. destruct (Z.leb_spec 65 c), (Z.leb_spec c 70); simpl;
    repeat (case_match; simplify_eq; try lia).
Qed.

Lemma to_base_snoc b fuel v d acc : 2 <= b -> 0 < v -> 0 <= d < b ->
  to_base (S fuel) b (v * b + d) acc = to_base fuel b v (hexdigit d :: acc).
Proof.
  intros Hb Hv Hd. simpl. rewrite (proj2 (Z.ltb_ge _ b)) by nia.
  rewrite Z.div_add_l, (Z.div_small d), Z.add_0_r by lia. f_equal. f_equal. f_equal.
  rewrite Z.add_comm, Z.mod_add, Z.mod_small by lia. done.
Qed.

(** With enough fuel the digits printed are the digits read. *)
Lemma to_base_canonical s : forall fuel acc v c, numval 16 (c :: s) = Some v -> c <> 48 ->
  (length (c :: s) <= fuel)%nat -> to_base fuel 16 v acc = map lower (c :: s) ++ acc.
Proof.
  induction s as [|c' s IH] using rev_ind; intros fuel acc v c Hv Hc Hf.
  - destruct fuel as [|fuel]; [simpl in Hf; lia|]. unfold numval in Hv. simpl in Hv.
    destruct (digit_val c) as [d|] eqn:Hd; [|done]. pose proof (digit_val_range c d Hd).
    rewrite (proj2 (Z.ltb_lt d 16)) in Hv by lia. simplify_eq. simpl.
    rewrite (proj2 (Z.ltb_lt _ 16)) by lia. by rewrite Z.mul_0_l, Z.add_0_l, (lower_digit c d Hd).
  - change (c :: s ++ [c']) with ((c :: s) ++ [c']) in *. unfold numval in Hv. rewrite base_val_app in Hv.
    destruct (base_val 16 0 (c :: s)) as [w|] eqn:Hw; simpl in Hv; [|done].
    destruct (digit_val c') as [d|] eqn:Hd; [|done]. pose proof (digit_val_range c' d Hd).
    rewrite (proj2 (Z.ltb_lt d 16)) in Hv by lia. simplify_eq.
    assert (0 < w).
    { simpl in Hw. destruct (digit_val c) as [d0|] eqn:Hd0; [|done]. pose proof (digit_val_range c d0 Hd0).
      rewrite (proj2 (Z.ltb_lt d0 16)) in Hw by lia. apply base_val_ge in Hw; [|lia|lia].
      assert (d0 <> 0); [|lia]. intros ->. revert Hd0 Hc. unfold digit_val. repeat case_match; intros; simplify_eq; lia. }
    rewrite length_app in Hf. simpl in Hf. destruct fuel as [|fuel]; [lia|].
    rewrite to_base_snoc by lia. rewrite (IH fuel _ w c Hw Hc) by (simpl; lia).
    rewrite map_app, <- app_assoc. simpl. by rewrite (lower_digit c' d Hd).
Qed.

(** ** Prefixes *)

Lemma drop_prefix s : drop 2 (str "0x" ++ s) = s.
Proof. done. Qed.

Lemma checkNumber_spec input raw : checkNumber input = Ok raw <->
  has0xPrefix input = true /\ drop 2 input = raw /\ raw <> [] /\ (head raw = Some 48 -> length raw = 1%nat).
Proof.
  unfold checkNumber. destruct input as [|a [|c r]]; try (simpl; split; [done|by intros (? & _)]).
  rewrite (proj2 (Nat.eqb_neq _ 0)) by done. destruct (has0xPrefix (a :: c :: r)); simpl; [|split; [done|by intros []]].
  destruct r as [|x r]; simpl; [split; [done|by intros (_ & <- & ? & _)]|].
  destruct (Nat.ltb_spec 1 (S (length r))) as [Hl|Hl]; simpl.
  - destruct (Z.eqb_spec x 48) as [->|Hx].
    + split; [done|]. intros (_ & <- & _ & Hh). specialize (Hh eq_refl). simpl in Hh. lia.
    + split; [intros [= <-]; split_and!; intros; simpl in *; simplify_eq; done|]. by intros (_ & <- & _).
  - split; [intros [= <-]; split_and!; try done; simpl; lia|]. by intros (_ & <- & _).
Qed.

(** The text form accepts what the string form accepts, and the empty string. *)
Lemma checkNumberText_eq input : input <> [] -> checkNumberText input = checkNumber input.
Proof. by destruct input. Qed.

Lemma checkNumber_ok_or_err s : (exists raw, checkNumber s = Ok raw) \/ (exists e, checkNumber s = Err e).
Proof. unfold checkNumber. repeat case_match; eauto. Qed.

(** The printed form of a quantity passes the syntax check. *)
Lemma checkNumber_Format n : 0 <= n -> checkNumber (str "0x" ++ FormatUint n 16) = Ok (FormatUint n 16).
Proof.
  intros Hn. apply checkNumber_spec. split_and!; [done|done|apply FormatUint_nonempty; lia|].
  destruct (decide (n = 0)) as [->|Hz]; [done|].
  destruct (FormatUint_head 16 n ltac:(lia) ltac:(lia)) as (d & r & -> & Hd). simpl. intros [= Hh].
  unfold hexdigit in Hh. destruct (d <? 10) eqn:E; lia.
Qed.

Lemma to_base_fuel b k fuel : 2 <= b -> forall n acc, 0 <= n < b ^ Z.of_nat fuel -> (0 < fuel)%nat ->
  to_base (fuel + k) b n acc = to_base fuel b n acc.
Proof.
  intros Hb. induction fuel as [|fuel IH]; intros n acc Hn Hf; [lia|]. simpl.
  destruct (Z.ltb_spec n b) as [Hlt|Hge]; [done|].
  rewrite Nat2Z.inj_succ, Z.pow_succ_r in Hn by lia.
  assert (n / b < b ^ Z.of_nat fuel) by (apply Z.div_lt_upper_bound; lia).
  assert (0 < n / b) by (apply Z.div_str_pos; lia).
  apply IH; [lia|]. destruct fuel; [|lia]. change (b ^ Z.of_nat 0) with 1 in *. lia.
Qed.

(** A quantity that passes the syntax check is printed as it was written. *)
Lemma FormatUint_canonical s raw w : checkNumber s = Ok raw -> numval 16 raw = Some w ->
  FormatUint w 16 = map lower raw.
Proof.
  intros (_ & _ & Hne & Hz)%checkNumber_spec Hw. destruct raw as [|c r]; [done|].
  destruct (decide (c = 48)) as [->|Hc].
  { specialize (Hz eq_refl). destruct r; [|done]. unfold numval in Hw. simpl in Hw. by injection Hw as <-. }
  assert (0 <= w) by (apply numval_bound in Hw; lia).
  unfold FormatUint. rewrite <- (to_base_fuel 16 (length (c :: r))); [|lia|split; [done|apply log2_fuel; lia]|lia].
  rewrite (to_base_canonical r _ [] w c Hw Hc) by lia. by rewrite app_nil_r.
Qed.

Lemma checkNumber_length s raw w k : checkNumber s = Ok raw -> numval 16 raw = Some w -> w < 16 ^ Z.of_nat k ->
  (0 < k)%nat -> (length raw <= k)%nat.
Proof.
  intros Hc Hw Hk Hpos. rewrite <- (length_map lower raw), <- (FormatUint_canonical s raw w Hc Hw).
  apply FormatUint_length; [lia| |done]. split; [apply numval_bound in Hw; lia|done].
Qed.

(** ** Claims *)

(** The hex form of a byte string decodes to it, through [Decode], the text
    unmarshaller and, when it is not empty, [FromHex] of [ToHex]. *)
Theorem hex_bytes_roundtrip (b old : list byte) : Forall byte_ok b ->
  Decode (Encode b) = (b, None) /\ Bytes_UnmarshalText old (Bytes_MarshalText b) = (b, None) /\
  (b <> [] -> FromHex (ToHex b) = b).
Proof.
  intros Hb. pose proof (hex_decode_encode b Hb) as Hd.
  assert (length (hex_encode b) mod 2 = 0)%nat as Hev.
  { rewrite hex_encode_length, Nat.mul_comm. by apply Nat.Div0.mod_mul. }
  split_and!.
  - unfold Decode, Encode. by rewrite drop_prefix, Hd.
  - unfold Bytes_UnmarshalText, checkText, Bytes_MarshalText. rewrite drop_prefix. simpl. rewrite Hev. simpl. by rewrite Hd.
  - intros Hne. unfold FromHex, ToHex, Bytes2Hex, Hex2Bytes.
    assert (length (hex_encode b) <> 0)%nat by (rewrite hex_encode_length; destruct b; simpl; [done|lia]).
    rewrite (proj2 (Nat.eqb_neq _ 0)) by done. rewrite drop_prefix. simpl. rewrite Hev. simpl. by rewrite Hd.
Qed.

(** C40: [DecodeUint64] accepts exactly the prefixed digit strings without leading
    zero whose value fits 64 bits, and returns that value; the text unmarshaller
    accepts the same non-empty inputs; and an accepted string is, up to case, what
    [EncodeUint64] prints. *)
Theorem uint64_exact (s : list byte) (v old : Z) : s <> [] ->
  (DecodeUint64 s = (v, None) <-> exists raw, checkNumber s = Ok raw /\ numval 16 raw = Some v /\ v < 2 ^ 64) /\
  (DecodeUint64 s = (v, None) <-> Uint64_UnmarshalText old s = (v, None)) /\
  (DecodeUint64 s = (v, None) -> EncodeUint64 v = str "0x" ++ map lower (drop 2 s)).
Proof.
  intros Hs. unfold DecodeUint64, Uint64_UnmarshalText, EncodeUint64. rewrite (checkNumberText_eq s Hs).
  destruct (checkNumber s) as [raw|e| |] eqn:Hc; try by destruct (checkNumber_ok_or_err s) as [(? & ?)|(? & ?)]; congruence.
  2:{ simpl. split_and!; try done; split; try done; by intros (? & ? & _). }
  pose proof Hc as Hspec. apply checkNumber_spec in Hspec as (_ & Hraw & Hne & _). simpl.
  pose proof (ParseUint_spec 16 raw ltac:(lia) Hne) as Hp.
  assert ((let '(dec, err) := ParseUint raw 16 in (dec, mapNumError <$> err)) = (v, None) <-> numval 16 raw = Some v /\ v < 2 ^ 64) as Hex.
  { destruct (numval 16 raw) as [w|]; [|destruct Hp as (? & ? & ->); split; [done|by intros []]].
    rewrite Hp. destruct (Z.ltb_spec w (2 ^ 64)); split; simpl; [intros [= <-]; done|by intros [[= ->] _]|done|intros [[= ->] ?]; lia]. }
  rewrite Hex. split_and!.
  - split; [intros []; eauto|]. by intros (? & [= <-] & ?).
  - destruct (Nat.ltb_spec 16 (length raw)) as [Hl|Hl]; simpl.
    + split; [|done]. intros [Hv Hlt]. pose proof (checkNumber_length s raw v 16 Hc Hv Hlt ltac:(lia)). lia.
    + rewrite hexword_loop_spec; [|lia|].
      2:{ rewrite Z.add_0_l, Z.mul_1_l. change (2 ^ 64) with (16 ^ Z.of_nat 16). apply Z.pow_le_mono_r; lia. }
      fold (numval 16 raw). destruct (numval 16 raw) as [w|] eqn:Hw; simpl; [|split; [by intros []|done]].
      split; [by intros [[= ->] _]|]. intros [= ->]. split; [done|]. apply numval_bound in Hw.
      apply Z.lt_le_trans with (16 ^ Z.of_nat (length raw)); [lia|].
      change (2 ^ 64) with (16 ^ Z.of_nat 16). apply Z.pow_le_mono_r; lia.
  - intros [Hv _]. by rewrite (FormatUint_canonical s raw v Hc Hv), Hraw.
Qed.

(** [DecodeBig], which assembles 64-bit words from the end of the string,
    accepts exactly the prefixed digit strings without leading zero of at most 256
    bits and returns their value; it never reports anything but an error or a value. *)
Theorem big_exact (s : list byte) (v : Z) :
  DecodeBig s = Ok v <-> exists raw, checkNumber s = Ok raw /\ numval 16 raw = Some v /\ v < 2 ^ 256.
Proof.
  unfold DecodeBig. rewrite outcome_bind_Ok. apply exist_proper. intros raw. split; intros [Hc Hv]; (split; [done|]).
  - unfold decode_words in Hv. destruct (Nat.ltb_spec 64 (length raw)) as [|Hl]; [done|].
    assert (decode_words raw = Ok v) as Hv' by (unfold decode_words; by rewrite (proj2 (Nat.ltb_ge 64 _)) by lia).
    rewrite decode_words_spec in Hv' by done. destruct (numval 16 raw) as [w|] eqn:Hw; [|done].
    injection Hv' as ->. split; [done|]. apply numval_bound in Hw.
    apply Z.lt_le_trans with (16 ^ Z.of_nat (length raw)); [lia|]. change (2 ^ 256) with (16 ^ Z.of_nat 64).
    apply Z.pow_le_mono_r; lia.
  - destruct Hv as [Hw Hlt]. pose proof (checkNumber_length s raw v 64 Hc Hw Hlt ltac:(lia)).
    rewrite decode_words_spec by done. by rewrite Hw.
Qed.

(** quantities survive a round trip: printing and decoding 64-bit and
    non-negative 256-bit numbers, by function or by text unmarshaller. *)
Theorem quantity_roundtrip (n v old : Z) : 0 <= n < 2 ^ 64 -> 0 <= v < 2 ^ 256 ->
  DecodeUint64 (EncodeUint64 n) = (n, None) /\ Uint64_UnmarshalText old (Uint64_MarshalText n) = (n, None) /\
  DecodeBig (EncodeBig v) = Ok v /\ Big_UnmarshalText old (Big_MarshalText v) = (v, None).
Proof.
  intros Hn Hv.
  assert (EncodeBig v = str "0x" ++ FormatUint v 16) as He.
  { unfold EncodeBig. destruct (Z.eqb_spec v 0) as [->|]; [done|]. rewrite (proj2 (Z.ltb_ge v 0)) by lia.
    by rewrite Z.abs_eq by lia. }
  assert (forall m k, 0 <= m < 16 ^ Z.of_nat k -> (0 < k)%nat -> (length (FormatUint m 16) <= k)%nat) as Hl.
  { intros. apply FormatUint_length; lia. }
  split_and!.
  - unfold DecodeUint64, EncodeUint64. rewrite checkNumber_Format by lia. simpl.
    pose proof (ParseUint_spec 16 (FormatUint n 16) ltac:(lia) ltac:(apply FormatUint_nonempty; lia)) as Hp.
    rewrite numval_FormatUint in Hp by lia. rewrite Hp, (proj2 (Z.ltb_lt _ _)) by lia. done.
  - unfold Uint64_UnmarshalText, Uint64_MarshalText. rewrite checkNumberText_eq, checkNumber_Format by (done || lia). simpl.
    pose proof (Hl n 16%nat Hn ltac:(lia)). rewrite (proj2 (Nat.ltb_ge 16 _)) by lia.
    rewrite hexword_loop_spec; [|lia|].
    + fold (numval 16 (FormatUint n 16)). by rewrite numval_FormatUint by lia.
    + rewrite Z.add_0_l, Z.mul_1_l. change (2 ^ 64) with (16 ^ Z.of_nat 16). apply Z.pow_le_mono_r; lia.
  - unfold DecodeBig. rewrite He, checkNumber_Format by lia. simpl.
    rewrite decode_words_spec by (apply Hl; [done|lia]). by rewrite numval_FormatUint by lia.
  - unfold Big_UnmarshalText, Big_MarshalText. rewrite He, checkNumberText_eq, checkNumber_Format by (done || lia). simpl.
    rewrite decode_words_spec by (apply Hl; [done|lia]). by rewrite numval_FormatUint by lia.
Qed.

Lemma hex_decode_total s : Forall (fun c => is_Some (digit_val c)) s -> (length s mod 2 = 0)%nat ->
  snd (hex_decode s) = None /\ length (fst (hex_decode s)) = (length s / 2)%nat.
Proof.
  intros Hall. remember (length s) as n eqn:Hn. revert s Hn Hall. induction (lt_wf n) as [n _ IH]. intros s -> Hall Hev.
  destruct s as [|c1 [|c2 s]]; [done|done|]. apply Forall_cons in Hall as [[a Ha] [[b Hb] Hall]%Forall_cons].
  cbn [hex_decode]. rewrite Ha, Hb. replace (length (c1 :: c2 :: s)) with (length s + 1 * 2)%nat in * by (simpl; lia).
  rewrite Nat.Div0.mod_add in Hev. rewrite Nat.div_add by lia.
  destruct (IH (length s) ltac:(lia) s eq_refl Hall Hev) as [He Hl].
  destruct (hex_decode s) as [l e]. simpl in *. split; [done|lia].
Qed.

Lemma hex_decode_digits s r : hex_decode s = (r, None) -> Forall (fun c => is_Some (digit_val c)) s.
Proof.
  remember (length s) as n eqn:Hn. revert s r Hn. induction (lt_wf n) as [n _ IH]. intros s r -> Hd.
  destruct s as [|c1 [|c2 s]]; [constructor|done|]. cbn [hex_decode] in Hd.
  destruct (digit_val c1) eqn:Ha; [|done]. destruct (digit_val c2) eqn:Hb; [|done].
  destruct (hex_decode s) as [l e] eqn:Hs. simplify_eq. repeat (constructor; [by eauto|]).
  apply (IH (length s) ltac:(simpl; lia) s l eq_refl Hs).
Qed.

Lemma existsb_bad raw : existsb (fun b => decodeNibble b =? badNibble) raw = false <-> Forall (fun c => is_Some (digit_val c)) raw.
Proof.
  induction raw as [|c raw IH]; simpl; [split; [constructor|done]|].
  by rewrite orb_false_iff, Forall_cons, IH, <- not_true_iff_false, decodeNibble_bad, not_eq_None_Some.
Qed.

(** the decoder of fixed-size types fills the output exactly when the text is
    prefixed, has the right length and only hex digits, and otherwise leaves it as
    it was. *)
Theorem fixed_text_exact (input out : list byte) (r : list byte) : out <> [] ->
  (UnmarshalFixedText input out = (r, None) <->
     exists raw, input = take 2 input ++ raw /\ has0xPrefix input = true /\ length raw = (2 * length out)%nat /\
       hex_decode raw = (r, None)) /\
  (forall r' e, UnmarshalFixedText input out = (r', Some e) -> r' = out).
Proof.
  intros Hout. unfold UnmarshalFixedText, unmarshalFixed, checkText. split.
  2:{ intros r' e. repeat case_match; intros; simplify_eq; done. }
  destruct (length input =? 0)%nat eqn:E0.
  { apply Nat.eqb_eq, nil_length_inv in E0 as ->. simpl. split; [|by intros (? & _ & ? & _)].
    destruct out; [done|]. simpl. done. }
  destruct (has0xPrefix input) eqn:Hp; simpl; [|split; [done|by intros (? & _ & ? & _)]].
  assert (forall raw, input = take 2 input ++ raw <-> raw = drop 2 input) as Hraw.
  { intros raw. rewrite <- (take_drop 2 input) at 1. split; [by intros ->%app_inv_head|by intros ->]. }
  set (raw := drop 2 input) in *.
  destruct (Nat.eqb_spec (length raw mod 2) 0) as [Hev|Hodd]; simpl.
  2:{ split; [done|]. intros (raw' & ->%Hraw & _ & Hl & _). destruct Hodd. replace (length raw) with (length out * 2)%nat by lia. by apply Nat.Div0.mod_mul. }
  pose proof (Nat.div_mod_eq (length raw) 2) as Hdm. rewrite Hev in Hdm.
  destruct (Nat.eqb_spec (length raw / 2) (length out)) as [Hlen|Hlen]; simpl.
  2:{ split; [done|]. intros (raw' & ->%Hraw & _ & Hl & _). lia. }
  destruct (existsb _ raw) eqn:Hb.
  - split; [done|]. intros (raw' & ->%Hraw & _ & _ & Hd). apply not_false_iff_true in Hb. destruct Hb.
    apply existsb_bad. by apply hex_decode_digits with r.
  - apply existsb_bad in Hb. destruct (hex_decode_total raw Hb Hev) as [He Hl]. destruct (hex_decode raw) as [l e] eqn:Hd.
    simpl in *. subst e. assert (copy_at out 0 l = l) as ->.
    { unfold copy_at. rewrite take_0, Nat.sub_0_r, take_ge, drop_ge by lia. apply app_nil_r. }
    split; [intros [= <-]|intros (raw' & ->%Hraw & _ & _ & Hd'); congruence].
    exists raw. split_and!; [by apply Hraw|done|lia|done].
Qed.

(** ** Addresses *)

Lemma hex_decode_ext s s' : map digit_val s = map digit_val s' -> Forall (fun c => is_Some (digit_val c)) s ->
  (length s mod 2 = 0)%nat -> hex_decode s = hex_decode s'.
Proof.
  remember (length s) as n eqn:Hn. revert s s' Hn. induction (lt_wf n) as [n _ IH]. intros s s' -> Hm Hall Hev.
  destruct s as [|c1 [|c2 s]], s' as [|d1 [|d2 s']]; try done. simpl in Hm. injection Hm as H1 H2 Hm.
  apply Forall_cons in Hall as [[a Ha] [[b Hb] Hall]%Forall_cons]. cbn [hex_decode]. rewrite <- H1, <- H2, Ha, Hb.
  replace (length (c1 :: c2 :: s)) with (length s + 1 * 2)%nat in Hev by (simpl; lia). rewrite Nat.Div0.mod_add in Hev.
  by rewrite (IH (length s) ltac:(simpl; lia) s s' eq_refl Hm Hall Hev).
Qed.

(** The checksum only changes the case of letters. *)
Lemma checksum_digit i c h d : digit_val c = Some d -> lower c = c -> digit_val (checksum_char i c h) = digit_val c.
Proof.
  intros Hd Hlow. unfold checksum_char. destruct (_ && _) eqn:E; [|done]. apply andb_true_iff in E as [E _].
  unfold lower in Hlow. unfold digit_val in *.
  destruct (Z.leb_spec 48 c), (Z.leb_spec c 57), (Z.leb_spec 97 c), (Z.leb_spec c 102), (Z.leb_spec 65 c), (Z.leb_spec c 70);
    simpl in *; try lia; try done; simplify_eq.
  repeat (case_match; try lia). f_equal. lia.
Qed.

Lemma hexdigit_lower d : 0 <= d < 16 -> lower (hexdigit d) = hexdigit d.
Proof. intros Hd. symmetry. rewrite <- (lower_digit (hexdigit d) d) at 1; [done|by apply digit_val_hexdigit]. Qed.

Lemma hex_encode_lower b : Forall byte_ok b -> Forall (fun c => is_Some (digit_val c) /\ lower c = c) (hex_encode b).
Proof.
  induction 1 as [|x b Hx Hb IH]; [constructor|]. destruct (nibbles x Hx) as (Hh & Hl & _).
  change (hex_encode (x :: b)) with (hexdigit (Z.shiftr x 4) :: hexdigit (Z.land x 15) :: hex_encode b).
  repeat (apply Forall_cons; split; [split; [rewrite digit_val_hexdigit by done; eauto|by apply hexdigit_lower]|]). done.
Qed.

Definition checksummed (keccak : list byte -> list byte) (a : Address) : list byte :=
  imap (fun i c => checksum_char i c (default 0 (keccak (hex_encode a) !! (i / 2)%nat))) (hex_encode a).

Lemma checksummed_spec keccak a : Forall byte_ok a ->
  hex_decode (checksummed keccak a) = (a, None) /\ length (checksummed keccak a) = (2 * length a)%nat /\
  Forall (fun c => is_Some (digit_val c)) (checksummed keccak a).
Proof.
  intros Ha. pose proof (hex_encode_lower a Ha) as Hall.
  assert (forall i, digit_val <$> (checksummed keccak a !! i) = digit_val <$> (hex_encode a !! i)) as Hi.
  { intros i. unfold checksummed. generalize (keccak (hex_encode a)). intros h. rewrite list_lookup_imap.
    destruct (hex_encode a !! i) as [c|] eqn:Hc; [|done]. simpl. f_equal.
    eapply Forall_lookup_1 in Hall as [[d Hd] Hlow]; [|exact Hc]. by apply checksum_digit with d. }
  assert (map digit_val (checksummed keccak a) = map digit_val (hex_encode a)) as Hm.
  { apply list_eq. intros i. rewrite !list_lookup_fmap. apply Hi. }
  assert (length (checksummed keccak a) = 2 * length a)%nat as Hl by (unfold checksummed; by rewrite length_imap, hex_encode_length).
  assert (Forall (fun c => is_Some (digit_val c)) (checksummed keccak a)) as Hd.
  { apply Forall_lookup_2. intros i c Hc. pose proof (Hi i) as He.
    rewrite Hc in He. destruct (hex_encode a !! i) as [c'|] eqn:Hc'; simplify_eq/=. rewrite He.
    by eapply Forall_lookup_1 in Hall as [? _]. }
  split_and!; try done. rewrite (hex_decode_ext _ (hex_encode a)); [by apply hex_decode_encode|done|done|].
  rewrite Hl, Nat.mul_comm. by apply Nat.Div0.mod_mul.
Qed.

Lemma isHex_digit c : isHexCharacter c = true <-> is_Some (digit_val c).
Proof.
  unfold isHexCharacter, digit_val.
  destruct (Z.leb_spec 48 c), (Z.leb_spec c 57), (Z.leb_spec 97 c), (Z.leb_spec c 102), (Z.leb_spec 65 c), (Z.leb_spec c 70);
    simpl; split; eauto; try done; by intros [? ?].
Qed.

Lemma FromHex_prefixed s : (length s mod 2 = 0)%nat -> FromHex (str "0x" ++ s) = fst (hex_decode s).
Proof. intros Hs. unfold FromHex, Hex2Bytes. rewrite drop_prefix. simpl. by rewrite Hs. Qed.

Lemma HexToAddress_Hex keccak a : length a = 20%nat -> Forall byte_ok a -> HexToAddress (Address_Hex keccak a) = a.
Proof.
  intros Ha Hba. destruct (checksummed_spec keccak a Hba) as (Hd & Hl & _). rewrite Ha in Hl.
  change (Address_Hex keccak a) with (str "0x" ++ checksummed keccak a).
  unfold HexToAddress. rewrite FromHex_prefixed by (by rewrite Hl). rewrite Hd. simpl.
  unfold BytesToAddress, Address_SetBytes. rewrite setBytes_eq by done. unfold AddressLength. by rewrite Ha.
Qed.

Lemma Address_Hex_digits keccak a : Forall byte_ok a -> exists ds, Address_Hex keccak a = str "0x" ++ ds /\
  Forall (fun c => is_Some (digit_val c)) ds.
Proof. intros Ha. exists (checksummed keccak a). split; [done|]. by apply checksummed_spec. Qed.

(** the checksummed form of an address is accepted as an address and reads back
    as it, whatever the hash; so does the hex form of a hash. *)
Theorem address_hex_roundtrip (keccak : list byte -> list byte) (a h old : list byte) :
  length a = 20%nat -> Forall byte_ok a -> length h = 32%nat -> Forall byte_ok h -> length old = 20%nat ->
  HexToAddress (Address_Hex keccak a) = a /\ IsHexAddress (Address_Hex keccak a) = true /\
  Address_UnmarshalText old (Address_Hex keccak a) = (a, None) /\ HexToHash (Hash_Hex h) = h.
Proof.
  intros Ha Hba Hh Hbh Hold. destruct (checksummed_spec keccak a Hba) as (Hd & Hl & Hdig).
  change (Address_Hex keccak a) with (str "0x" ++ checksummed keccak a). rewrite Ha in Hl.
  split_and!.
  - by apply HexToAddress_Hex.
  - unfold IsHexAddress. rewrite drop_prefix. simpl. rewrite Hl. unfold IsHex. rewrite Hl. simpl.
    apply Is_true_true, forallb_True. eapply Forall_impl; [exact Hdig|].
    intros c Hc. apply Is_true_true, isHex_digit. done.
  - unfold Address_UnmarshalText, UnmarshalFixedText, unmarshalFixed, checkText. rewrite drop_prefix. simpl. rewrite Hl. simpl.
    rewrite Hl, Hold. simpl. rewrite (proj2 (existsb_bad _) Hdig), Hd. simpl. f_equal.
    unfold copy_at. rewrite take_0, Nat.sub_0_r, take_ge, drop_ge by lia. apply app_nil_r.
  - unfold HexToHash, Hash_Hex, Encode. rewrite FromHex_prefixed by (by rewrite hex_encode_length, Hh).
    rewrite hex_decode_encode by done. by apply BytesToHash_id.
Qed.

(** ** Examples *)

Definition ex_bytes : list byte := [1; 171; 255].

Lemma ex_bytes_ok : Forall byte_ok ex_bytes.
Proof. repeat constructor; by vm_compute. Qed.

Lemma hex_bytes_roundtrip_witness : Decode (Encode ex_bytes) = (ex_bytes, None) /\ FromHex (ToHex ex_bytes) = ex_bytes.
Proof.
  destruct (hex_bytes_roundtrip ex_bytes [] ex_bytes_ok) as (Hd & _ & Hf). split; [exact Hd|]. apply Hf. discriminate.
Defined.

Lemma uint64_exact_witness : EncodeUint64 754 = str "0x" ++ map lower (drop 2 (str "0X2F2")).
Proof.
  apply (proj2 (proj2 (uint64_exact (str "0X2F2") 754 0 ltac:(discriminate)))). vm_compute. reflexivity.
Defined.

Lemma quantity_roundtrip_witness : DecodeUint64 (EncodeUint64 (2 ^ 64 - 1)) = (2 ^ 64 - 1, None) /\ DecodeBig (EncodeBig (2 ^ 255)) = Ok (2 ^ 255).
Proof. destruct (quantity_roundtrip (2 ^ 64 - 1) (2 ^ 255) 0) as (H1 & _ & H2 & _); [lia|lia|]. split; [exact H1|exact H2]. Defined.

Lemma fixed_text_exact_witness : UnmarshalFixedText (str "0x01ABff") [9; 9; 9] = (ex_bytes, None).
Proof.
  apply (proj1 (fixed_text_exact (str "0x01ABff") [9; 9; 9] ex_bytes ltac:(discriminate))).
  exists (str "01ABff"). split_and!; vm_compute; reflexivity.
Defined.

Lemma address_hex_roundtrip_witness :
  HexToAddress (Address_Hex (fun _ => replicate 32 255) (replicate 20 171)) = replicate 20 171 /\
  Address_Hex (fun _ => replicate 32 255) (replicate 20 171) = str "0xABABABABABABABABABABABABABABABABABABABAB".
Proof.
  destruct (address_hex_roundtrip (fun _ => replicate 32 255) (replicate 20 171) (replicate 32 1) (replicate 20 0)) as (H1 & _).
  - reflexivity.
  - repeat constructor; by vm_compute.
  - reflexivity.
  - repeat constructor; by vm_compute.
  - reflexivity.
  - split; [exact H1|]. vm_compute. reflexivity.
Defined.

(** A negative number is printed with its sign before the prefix. *)
Example EncodeBig_sign : EncodeBig (-255) = str "-0xff" /\ DecodeBig (EncodeBig (-255)) = Err ErrMissingPrefix.
Proof. split; vm_compute; reflexivity. Qed.

(** The empty byte string does not survive [FromHex] of [ToHex]. *)
Example ToHex_empty : FromHex (ToHex []) = [0].
Proof. reflexivity. Qed.
