(* ===== verification/Json.v ===== *)
(** * encoding/json, as far as the built-in contract uses it

    The parser of JSON texts into values, decoding into
    [map[string]interface{}] and into a struct with one integer field, and the
    encoder of the values the contract stores.  Strings are byte lists; a number
    keeps its literal. *)

From stdpp Require Import strings base gmap list.
From S2P Require Import Prelude Numerals.

Inductive jval : Type :=
| JNull
| JBool (b : bool)
| JNum (lit : list byte)
| JStr (s : list byte)
| JArr (l : list jval)
| JObj (m : list (list byte * jval)).

(** ** Lexical elements *)

Definition is_space (c : byte) : bool := (c =? 32) || (c =? 9) || (c =? 13) || (c =? 10).

Fixpoint skip (s : list byte) : list byte :=
  match s with c :: r => if is_space c then skip r else s | [] => [] end.

Definition is_digit (c : byte) : bool := (48 <=? c) && (c <=? 57).

Fixpoint span_digits (s : list byte) : list byte * list byte :=
  match s with
  | c :: r => if is_digit c then let '(d, r') := span_digits r in (c :: d, r') else ([], s)
  | [] => ([], [])
  end.

(** Digits of a fraction or exponent: at least one. *)
Definition digits1 (s : list byte) : option (list byte * list byte) :=
  match span_digits s with ([], _) => None | r => Some r end.

(** The integer part: no leading zero. *)
Definition int_part (s : list byte) : option (list byte * list byte) :=
  match s with
  | c :: r => if c =? 48 then Some ([c], r) else digits1 s
  | [] => None
  end.

Definition frac_part (s : list byte) : option (list byte * list byte) :=
  match s with
  | c :: r => if c =? 46 then '(d, r) ← digits1 r; Some (c :: d, r) else Some ([], s)
  | [] => Some ([], [])
  end.

Definition exp_part (s : list byte) : option (list byte * list byte) :=
  match s with
  | c :: r =>
      if (c =? 101) || (c =? 69) then
        match r with
        | g :: r' =>
            if (g =? 43) || (g =? 45) then '(d, r) ← digits1 r'; Some (c :: g :: d, r)
            else '(d, r) ← digits1 r; Some (c :: d, r)
        | [] => None
        end
      else Some ([], s)
  | [] => Some ([], [])
  end.

Definition number (s : list byte) : option (list byte * list byte) :=
  let '(sg, s) := match s with c :: r => if c =? 45 then ([c], r) else ([], s) | [] => ([], s) end in
  '(i, s) ← int_part s;
  '(f, s) ← frac_part s;
  '(e, s) ← exp_part s;
  Some (sg ++ i ++ f ++ e, s).

(** ** Strings *)

(** The length of the valid UTF-8 sequence that [s] starts with, 0 if there is
    none ([utf8.DecodeRune]). *)
Definition utf8_width (s : list byte) : nat :=
  let cont c := (128 <=? c) && (c <=? 191) in
  match s with
  | a :: b :: r =>
      if (194 <=? a) && (a <=? 223) then (if cont b then 2%nat else 0%nat)
      else
        match r with
        | c :: r =>
            if (224 <=? a) && (a <=? 239) then
              let lo := if a =? 224 then 160 else 128 in
              let hi := if a =? 237 then 159 else 191 in
              if (lo <=? b) && (b <=? hi) && cont c then 3%nat else 0%nat
            else
              match r with
              | d :: _ =>
                  if (240 <=? a) && (a <=? 244) then
                    let lo := if a =? 240 then 144 else 128 in
                    let hi := if a =? 244 then 143 else 191 in
                    if (lo <=? b) && (b <=? hi) && cont c && cont d then 4%nat else 0%nat
                  else 0%nat
              | [] => 0%nat
              end
        | [] => 0%nat
        end
  | _ => 0%nat
  end.

(** [utf8.EncodeRune] *)
Definition utf8_encode (r : Z) : list byte :=
  if r <? 128 then [r]
  else if r <? 2048 then [192 + Z.shiftr r 6; 128 + Z.land r 63]
  else if r <? 65536 then [224 + Z.shiftr r 12; 128 + Z.land (Z.shiftr r 6) 63; 128 + Z.land r 63]
  else [240 + Z.shiftr r 18; 128 + Z.land (Z.shiftr r 12) 63; 128 + Z.land (Z.shiftr r 6) 63; 128 + Z.land r 63].

Definition replacement : list byte := [239; 191; 189].

(** Four hex digits. *)
Definition hex4 (s : list byte) : option Z :=
  if (length s <? 4)%nat then None else numval 16 (take 4 s).

(** A second surrogate escape that completes [r1]: the rune. *)
Definition surrogate_pair (r1 : Z) (s : list byte) : option Z :=
  match s with
  | b :: u :: s =>
      if (b =? 92) && (u =? 117) then
        r2 ← hex4 s;
        if (55296 <=? r1) && (r1 <? 56320) && (56320 <=? r2) && (r2 <? 57344)
        then Some ((r1 - 55296) * 1024 + (r2 - 56320) + 65536) else None
      else None
  | _ => None
  end.

(** The escape after a backslash: the bytes it stands for and the rest. *)
Definition escape (s : list byte) : option (list byte * list byte) :=
  match s with
  | [] => None
  | c :: r =>
      if (c =? 34) || (c =? 92) || (c =? 47) then Some ([c], r)
      else if c =? 98 then Some ([8], r)
      else if c =? 102 then Some ([12], r)
      else if c =? 110 then Some ([10], r)
      else if c =? 114 then Some ([13], r)
      else if c =? 116 then Some ([9], r)
      else if c =? 117 then
        rr ← hex4 r;
        let r := drop 4 r in
        if (55296 <=? rr) && (rr <? 57344) then
          match surrogate_pair rr r with
          | Some dec => Some (utf8_encode dec, drop 6 r)
          | None => Some (replacement, r)
          end
        else Some (utf8_encode rr, r)
      else None
  end.

(** The rest of a string literal after its opening quote; every step consumes a
    byte, so the length is fuel enough. *)
Fixpoint string_lit (fuel : nat) (s : list byte) : option (list byte * list byte) :=
  match fuel, s with
  | S fuel, c :: r =>
      if c =? 34 then Some ([], r)
      else if c =? 92 then '(x, r) ← escape r; '(t, r) ← string_lit fuel r; Some (x ++ t, r)
      else if c <? 32 then None
      else if c <? 128 then '(t, r) ← string_lit fuel r; Some (c :: t, r)
      else
        match utf8_width s with
        | O => '(t, r) ← string_lit fuel r; Some (replacement ++ t, r)
        | w => '(t, r) ← string_lit fuel (drop w s); Some (take w s ++ t, r)
        end
  | _, _ => None
  end.

(** ** Values *)

(** [lit l s]: the rest of [s] after the letters [l]. *)
Fixpoint literal (l s : list byte) : option (list byte) :=
  match l, s with
  | [], _ => Some s
  | a :: l, c :: s => if a =? c then literal l s else None
  | _, [] => None
  end.

Fixpoint value (fuel : nat) (s : list byte) : option (jval * list byte) :=
  match fuel with
  | O => None
  | S fuel =>
      match skip s with
      | [] => None
      | c :: r =>
          if c =? 123 then
            match skip r with
            | c' :: r' => if c' =? 125 then Some (JObj [], r') else '(m, r) ← members fuel r; Some (JObj m, r)
            | [] => None
            end
          else if c =? 91 then
            match skip r with
            | c' :: r' => if c' =? 93 then Some (JArr [], r') else '(l, r) ← elements fuel r; Some (JArr l, r)
            | [] => None
            end
          else if c =? 34 then '(t, r) ← string_lit (length r) r; Some (JStr t, r)
          else if c =? 116 then r ← literal (str "true") (c :: r); Some (JBool true, r)
          else if c =? 102 then r ← literal (str "false") (c :: r); Some (JBool false, r)
          else if c =? 110 then r ← literal (str "null") (c :: r); Some (JNull, r)
          else '(n, r) ← number (c :: r); Some (JNum n, r)
      end
  end
with elements (fuel : nat) (s : list byte) : option (list jval * list byte) :=
  match fuel with
  | O => None
  | S fuel =>
      '(v, r) ← value fuel s;
      match skip r with
      | c :: r => if c =? 44 then '(l, r) ← elements fuel r; Some (v :: l, r)
                  else if c =? 93 then Some ([v], r) else None
      | [] => None
      end
  end
with members (fuel : nat) (s : list byte) : option (list (list byte * jval) * list byte) :=
  match fuel with
  | O => None
  | S fuel =>
      match skip s with
      | c :: r =>
          if c =? 34 then
            '(k, r) ← string_lit (length r) r;
            match skip r with
            | c :: r =>
                if c =? 58 then
                  '(v, r) ← value fuel r;
                  match skip r with
                  | c :: r => if c =? 44 then '(m, r) ← members fuel r; Some ((k, v) :: m, r)
                              else if c =? 125 then Some ([(k, v)], r) else None
                  | [] => None
                  end
                else None
            | [] => None
            end
          else None
      | [] => None
      end
  end.

(** A whole text; nesting needs at most two calls per byte. *)
Definition parse (s : list byte) : option jval :=
  match value (2 * length s + 2) s with
  | Some (v, r) => match skip r with [] => Some v | _ => None end
  | None => None
  end.

(** ** Decoding *)

(** Whether [strconv.ParseFloat] overflows on a literal: its value is at least the
    midpoint between the largest float64 and 2^1024. *)
Definition float_overflows (lit : list byte) : bool :=
  let lit := match lit with c :: r => if c =? 45 then r else lit | [] => lit end in
  let '(ip, r) := span_digits lit in
  let '(fp, r) := match r with c :: r' => if c =? 46 then span_digits r' else ([], r) | [] => ([], r) end in
  let e := match r with
           | _ :: g :: d => if g =? 45 then - default 0 (numval 10 d) else if g =? 43 then default 0 (numval 10 d)
                            else default 0 (numval 10 (g :: d))
           | _ => 0
           end in
  let m := default 0 (numval 10 (ip ++ fp)) in
  let x := e - Z.of_nat (length fp) in
  let limit := 2 ^ 1024 - 2 ^ 970 in
  if m =? 0 then false else if 0 <=? x then limit <=? m * 10 ^ x else limit * 10 ^ (- x) <=? m.

(** Whether decoding a value into an [interface{}] succeeds. *)
Fixpoint decodable (v : jval) : bool :=
  match v with
  | JNum lit => negb (float_overflows lit)
  | JArr l => forallb decodable l
  | JObj m => forallb (fun kv => decodable kv.2) m
  | _ => true
  end.

(** [json.Unmarshal] into a [map[string]interface{}]: the last of equal keys wins. *)
Definition UnmarshalMap (s : list byte) : option (gmap (list byte) jval) :=
  match parse s with
  | Some JNull => Some ∅
  | Some (JObj m) =>
      if forallb (fun kv => decodable kv.2) m then Some (foldl (fun acc kv => <[kv.1 := kv.2]> acc) ∅ m) else None
  | _ => None
  end.

(** Field names are matched without regard to case. *)
Definition fold_eq (a b : list byte) : bool :=
  bool_decide (map (fun c => Z.land c 223) a = map (fun c => Z.land c 223) b).

(** Decoding an object into [struct { Amount int `json:"amount"` }]. *)
Fixpoint decode_amount (m : list (list byte * jval)) (amount : Z) : option Z :=
  match m with
  | [] => Some amount
  | (k, v) :: m =>
      if fold_eq k (str "amount") then
        match v with
        | JNull => decode_amount m amount
        | JNum lit => match Atoi lit with (n, None) => decode_amount m n | _ => None end
        | _ => None
        end
      else decode_amount m amount
  end.

Definition UnmarshalAmount (s : list byte) : option Z :=
  match parse s with
  | Some JNull => Some 0
  | Some (JObj m) => decode_amount m 0
  | _ => None
  end.

(** ** Encoding *)

Definition quote : byte := 34.
Definition quoted (s : list byte) : list byte := quote :: s ++ [quote].

(** [json.Marshal] of the same struct. *)
Definition MarshalAmount (n : Z) : list byte :=
  str "{" ++ quoted (str "amount") ++ str ":" ++ FormatInt n ++ str "}".

(** [json.Marshal] of a map from strings to strings, of plain characters: keys in
    increasing order. *)
Fixpoint MarshalStrings (l : list (list byte * list byte)) : list byte :=
  match l with
  | [] => []
  | [(k, v)] => quoted k ++ str ":" ++ quoted v
  | (k, v) :: l => quoted k ++ str ":" ++ quoted v ++ str "," ++ MarshalStrings l
  end.
Definition MarshalObject (l : list (list byte * list byte)) : list byte := str "{" ++ MarshalStrings l ++ str "}".

(** ** Reading back what is written *)

(** Characters that stand for themselves in a string literal. *)
Definition plain (c : byte) : Prop := 32 <= c < 128 /\ c <> 34 /\ c <> 92.

Lemma string_lit_plain t r fuel : Forall plain t -> (length t < fuel)%nat ->
  string_lit fuel (t ++ 34 :: r) = Some (t, r).
Proof.
  intros Ht. revert fuel. induction Ht as [|c t [Hr [Hq Hb]] Ht IH]; intros fuel Hf; (destruct fuel as [|fuel]; [simpl in Hf; lia|]); [done|].
  simpl in *. rewrite (proj2 (Z.eqb_neq c 34)), (proj2 (Z.eqb_neq c 92)), (proj2 (Z.ltb_ge c 32)), (proj2 (Z.ltb_lt c 128)) by lia.
  by rewrite IH by lia.
Qed.

Lemma skip_head c r : is_space c = false -> skip (c :: r) = c :: r.
Proof. intros Hc. simpl. by rewrite Hc. Qed.

Lemma quoted_app t r : quoted t ++ r = 34 :: t ++ 34 :: r.
Proof. unfold quoted, quote. simpl. by rewrite <- app_assoc. Qed.

Lemma value_string fuel t r : Forall plain t -> value (S fuel) (quoted t ++ r) = Some (JStr t, r).
Proof.
  intros Ht. rewrite quoted_app. cbn [value]. rewrite skip_head by done.
  change (34 =? 123) with false. change (34 =? 91) with false. change (34 =? 34) with true. cbv iota.
  rewrite string_lit_plain; [done|done|]. rewrite length_app. simpl. lia.
Qed.

Lemma members_string l fuel : forall r, l <> [] -> Forall (fun kv => Forall plain kv.1 /\ Forall plain kv.2) l -> (length l < fuel)%nat ->
  members fuel (MarshalStrings l ++ 125 :: r) = Some ((fun kv => (kv.1, JStr kv.2)) <$> l, r).
Proof.
  revert fuel. induction l as [|[k v] l IH]; intros fuel r Hne Hall Hf; [done|].
  destruct fuel as [|[|fuel]]; [simpl in Hf; lia..|]. apply Forall_cons in Hall as [[Hk Hv] Hall]. simpl in Hk, Hv.
  assert (forall rest, members (S (S fuel)) (quoted k ++ str ":" ++ quoted v ++ rest) =
    match skip rest with
    | c :: r => if c =? 44 then '(m, r) ← members (S fuel) r; Some ((k, JStr v) :: m, r)
                else if c =? 125 then Some ([(k, JStr v)], r) else None
    | [] => None
    end) as Hone.
  { intros rest. rewrite quoted_app. cbn [members]. rewrite skip_head by done. change (34 =? 34) with true. cbv iota.
    rewrite string_lit_plain by (done || (rewrite length_app; simpl; lia)).
    unfold mbind, option_bind. change (str ":" ++ quoted v ++ rest) with (58 :: (quoted v ++ rest)).
    rewrite skip_head by done. change (58 =? 58) with true. cbv iota. rewrite value_string by done. done. }
  destruct l as [|kv l].
  - change (MarshalStrings [(k, v)]) with (quoted k ++ str ":" ++ quoted v). rewrite <- !app_assoc, Hone. done.
  - change (MarshalStrings ((k, v) :: kv :: l)) with (quoted k ++ str ":" ++ quoted v ++ str "," ++ MarshalStrings (kv :: l)).
    rewrite <- !app_assoc, Hone.
    change (str "," ++ MarshalStrings (kv :: l) ++ 125 :: r) with (44 :: (MarshalStrings (kv :: l) ++ 125 :: r)). rewrite skip_head by done. change (44 =? 44) with true. cbv iota.
    rewrite IH; [done|done|done|simpl in *; lia].
Qed.

Lemma parse_object l : l <> [] -> Forall (fun kv => Forall plain kv.1 /\ Forall plain kv.2) l ->
  parse (MarshalObject l) = Some (JObj ((fun kv => (kv.1, JStr kv.2)) <$> l)).
Proof.
  intros Hne Hall. unfold parse, MarshalObject. change (str "{") with [123]. change (str "}") with [125].
  set (s := MarshalStrings l). assert (length l <= length s)%nat as Hlen.
  { clear. subst s. induction l as [|[k v] [|kv l] IH]; [simpl; lia|simpl; rewrite length_app; simpl; lia|].
    change (MarshalStrings ((k, v) :: kv :: l)) with (quoted k ++ str ":" ++ quoted v ++ str "," ++ MarshalStrings (kv :: l)).
    rewrite !length_app. change (length (str ":")) with 1%nat. simpl in *. lia. }
  rewrite !length_app. simpl length. replace (2 * (1 + (length s + 1)) + 2)%nat with (S (2 * length s + 5))%nat by lia.
  simpl app. cbn [value]. rewrite skip_head by done. change (123 =? 123) with true. cbv iota.
  assert (exists r, s ++ [125] = 34 :: r) as [r Hr].
  { subst s. destruct l as [|[k v] [|kv l]]; [done|simpl; by rewrite quoted_app || (eexists; reflexivity)|eexists; reflexivity]. }
  rewrite Hr, skip_head by done. change (34 =? 125) with false. cbv iota. rewrite <- Hr.
  subst s. rewrite (members_string l); [done|done|done|lia].
Qed.

(** ** Amounts *)

Definition digits (s : list byte) : Prop := Forall (fun c => is_digit c = true) s.

Lemma span_digits_app ds c r : digits ds -> is_digit c = false -> span_digits (ds ++ c :: r) = (ds, c :: r).
Proof.
  intros Hd Hc. induction Hd as [|x ds Hx Hd IH]; simpl; [by rewrite Hc|]. by rewrite Hx, IH.
Qed.

Lemma FormatUint_digits n : 0 <= n -> digits (FormatUint n 10).
Proof.
  unfold FormatUint. generalize (S (Z.to_nat (Z.log2 n))). intros fuel. assert (digits []) as Hacc by constructor.
  revert Hacc. generalize ([] : list byte). revert n. induction fuel as [|fuel IH]; intros n acc Hacc Hn; [done|]. simpl.
  assert (forall d, 0 <= d < 10 -> is_digit (hexdigit d) = true) as Hd.
  { intros d Hd. unfold is_digit, hexdigit. rewrite (proj2 (Z.ltb_lt d 10)) by lia. lia. }
  destruct (Z.ltb_spec n 10) as [Hlt|Hge]; [constructor; [apply Hd; lia|done]|].
  apply IH; [|apply Z.div_pos; lia]. constructor; [|done]. apply Hd. apply Z.mod_pos_bound. lia.
Qed.

Lemma int_part_Format n c r : 0 <= n -> is_digit c = false -> int_part (FormatUint n 10 ++ c :: r) = Some (FormatUint n 10, c :: r).
Proof.
  intros Hn Hc. destruct (decide (n = 0)) as [->|Hz]; [done|].
  pose proof (FormatUint_digits n Hn) as Hd.
  destruct (FormatUint_head 10 n ltac:(lia) ltac:(lia)) as (d & rest & Hf & Hdr). rewrite Hf in *. simpl.
  assert (hexdigit d <> 48) as Hne by (unfold hexdigit; rewrite (proj2 (Z.ltb_lt d 10)) by lia; lia).
  rewrite (proj2 (Z.eqb_neq _ _) Hne). unfold digits1.
  change (hexdigit d :: rest ++ c :: r) with ((hexdigit d :: rest) ++ c :: r). by rewrite span_digits_app.
Qed.

Lemma number_Format n r : number (FormatInt n ++ 125 :: r) = Some (FormatInt n, 125 :: r).
Proof.
  unfold number, FormatInt. destruct (Z.ltb_spec n 0) as [Hneg|Hpos].
  - simpl app. cbv iota. change (45 =? 45) with true. cbv iota. rewrite int_part_Format by (done || lia). simpl.
    by rewrite app_nil_r.
  - assert (exists c rest, FormatUint n 10 = c :: rest /\ is_digit c = true) as (c & rest & Hf & Hc).
    { pose proof (FormatUint_digits n Hpos) as Hd. pose proof (FormatUint_nonempty 10 n ltac:(lia) Hpos).
      destruct (FormatUint n 10) as [|c rest]; [done|]. apply Forall_cons in Hd as [? _]. eauto. }
    assert (int_part (FormatUint n 10 ++ 125 :: r) = Some (FormatUint n 10, 125 :: r)) as Hip by (apply int_part_Format; done).
    rewrite Hf in *. simpl app in *. cbv iota beta. assert (c =? 45 = false) as -> by (unfold is_digit in Hc; lia).
    rewrite Hip. simpl. by rewrite app_nil_r.
Qed.

Lemma value_number fuel n r : value (S fuel) (FormatInt n ++ 125 :: r) = Some (JNum (FormatInt n), 125 :: r).
Proof.
  pose proof (number_Format n r) as Hn.
  assert (exists c rest, FormatInt n = c :: rest /\ (is_digit c = true \/ c = 45)) as (c & rest & Hf & Hc).
  { unfold FormatInt. destruct (Z.ltb_spec n 0); [eauto|].
    pose proof (FormatUint_digits n ltac:(lia)) as Hd. pose proof (FormatUint_nonempty 10 n ltac:(lia) ltac:(lia)).
    destruct (FormatUint n 10) as [|c rest]; [done|]. apply Forall_cons in Hd as [? _]. eauto. }
  assert (48 <= c <= 57 \/ c = 45) as Hr by (unfold is_digit in Hc; lia).
  rewrite Hf in *. simpl app in *. cbn [value]. rewrite skip_head by (unfold is_space; lia).
  rewrite (proj2 (Z.eqb_neq c 123)), (proj2 (Z.eqb_neq c 91)), (proj2 (Z.eqb_neq c 34)), (proj2 (Z.eqb_neq c 116)),
    (proj2 (Z.eqb_neq c 102)), (proj2 (Z.eqb_neq c 110)) by lia.
  by rewrite Hn.
Qed.

Lemma parse_amount n : parse (MarshalAmount n) = Some (JObj [(str "amount", JNum (FormatInt n))]).
Proof.
  unfold parse, MarshalAmount. rewrite quoted_app.
  change (str "{" ++ 34 :: str "amount" ++ 34 :: str ":" ++ FormatInt n ++ str "}")
    with (123 :: 34 :: str "amount" ++ 34 :: 58 :: FormatInt n ++ [125]).
  match goal with |- context [value (?k + 2) _] => replace (k + 2)%nat with (S (S (S (k - 1)))) by (simpl; lia); generalize (k - 1)%nat end.
  intros k. cbn [value]. rewrite skip_head by done. change (123 =? 123) with true. cbv iota.
  rewrite skip_head by done. change (34 =? 125) with false. cbv iota. cbn [members]. rewrite skip_head by done.
  change (34 =? 34) with true. cbv iota. rewrite string_lit_plain.
  2:{ repeat constructor; done. }
  2:{ rewrite length_app. simpl. lia. }
  unfold mbind, option_bind. rewrite skip_head by done. change (58 =? 58) with true. cbv iota.
  by rewrite value_number.
Qed.

(** An amount of 64 bits is read back as it was written. *)
Lemma UnmarshalAmount_Marshal n : minInt64 <= n <= maxInt64 -> UnmarshalAmount (MarshalAmount n) = Some n.
Proof.
  intros Hn. unfold UnmarshalAmount. rewrite parse_amount. simpl. rewrite Atoi_FormatInt by done. done.
Qed.

(** ** Encoding arbitrary strings *)

(** A string literal as [json.Marshal] writes it: quotes, backslashes, controls, the
    characters <, >, & and the line separators U+2028 and U+2029 are escaped. *)
Fixpoint escape_string (s : list byte) : list byte :=
  match s with
  | [] => []
  | 226 :: 128 :: 168 :: r => str "\u2028" ++ escape_string r
  | 226 :: 128 :: 169 :: r => str "\u2029" ++ escape_string r
  | c :: r =>
      (if (c =? 34) || (c =? 92) then [92; c]
       else if c =? 10 then str "\n" else if c =? 13 then str "\r" else if c =? 9 then str "\t"
       else if (c <? 32) || (c =? 60) || (c =? 62) || (c =? 38)
            then str "\u00" ++ [hexdigit (Z.shiftr c 4); hexdigit (Z.land c 15)]
       else [c]) ++ escape_string r
  end.

(** [json.Marshal] of [AccountsBalance]: a nil slice is [null]. *)
Definition MarshalAccount (a : list byte * Z) : list byte :=
  str "{" ++ quoted (str "address") ++ str ":" ++ quoted (escape_string a.1) ++ str "," ++
  quoted (str "amount") ++ str ":" ++ FormatInt a.2 ++ str "}".

Fixpoint join (sep : list byte) (l : list (list byte)) : list byte :=
  match l with [] => [] | [x] => x | x :: l => x ++ sep ++ join sep l end.

Definition MarshalAccounts (l : list (list byte * Z)) : list byte :=
  str "{" ++ quoted (str "all") ++ str ":" ++
  (match l with [] => str "null" | _ => str "[" ++ join (str ",") (map MarshalAccount l) ++ str "]" end) ++ str "}".
