(* ===== verification/Heap.v ===== *)
(** * Binary heaps

    Go's [container/heap], which the transaction pool (core/txprocessor) uses for
    its nonce and priority indices: [up], [down], [Init], [Push], [Pop] and
    [Remove] over a slice and a [Less].  Every operation keeps the heap order and
    the elements. *)

From stdpp Require Import base list numbers option.
From S2P Require Import Prelude.
Local Open Scope nat_scope.

Section Heap.
Context {A : Type} `{!Inhabited A} (less : A -> A -> bool).

Implicit Types (h : list A) (i j k n : nat).

Definition parent (j : nat) : nat := (j - 1) / 2.

Definition swap h i j : list A :=
  match h !! i, h !! j with
  | Some x, Some y => <[i := y]> (<[j := x]> h)
  | _, _ => h
  end.

(** [j] decreases at every step. *)
Fixpoint up_loop (fuel : nat) h j : list A :=
  match fuel with
  | O => h
  | S fuel =>
      let i := parent j in
      if (i =? j) || negb (less (h !!! j) (h !!! i)) then h
      else up_loop fuel (swap h i j) i
  end.
Definition up h j : list A := up_loop (S j) h j.

(** The smaller of the two children of [i]. *)
Definition down_child h i n : nat :=
  let j1 := 2 * i + 1 in
  let j2 := j1 + 1 in
  if (j2 <? n) && less (h !!! j2) (h !!! j1) then j2 else j1.

(** [i] increases at every step and stays below [n]; the result carries the last
    position. *)
Fixpoint down_loop (fuel : nat) h i n : list A * nat :=
  match fuel with
  | O => (h, i)
  | S fuel =>
      let j1 := 2 * i + 1 in
      if n <=? j1 then (h, i)
      else
        let j := down_child h i n in
        if negb (less (h !!! j) (h !!! i)) then (h, i)
        else down_loop fuel (swap h i j) j n
  end.
Definition down h i0 n : list A * bool :=
  let '(h, i) := down_loop (S n) h i0 n in (h, i0 <? i).

Fixpoint init_loop (m : nat) h n : list A :=
  match m with O => h | S i => init_loop i (fst (down h i n)) n end.
Definition Init h : list A := init_loop (length h / 2) h (length h).

Definition Push h (x : A) : list A := up (h ++ [x]) (length h).

(** Popping an empty heap panics: [None]. *)
Definition Pop h : option (A * list A) :=
  match length h with
  | O => None
  | S n =>
      let h := fst (down (swap h 0 n) 0 n) in
      x ← h !! n; Some (x, take n h)
  end.

Definition Remove h i : option (A * list A) :=
  match length h with
  | O => None
  | S n =>
      let h := if n =? i then h
               else let '(h, moved) := down (swap h i n) i n in
                    if moved then h else up h i in
      x ← h !! n; Some (x, take n h)
  end.

(** The element at [i] has changed. *)
Definition Fix h i : list A :=
  let '(h, moved) := down h i (length h) in if moved then h else up h i.

(** ** Order *)

(** [Less] is the strict part of a total preorder. *)
Class StrictOrder_ : Prop := {
  le_trans_ x y z : less y x = false -> less z y = false -> less z x = false;
  less_asym x y : less x y = true -> less y x = false;
}.
Context `{!StrictOrder_}.

Definition hle h i j : Prop := less (h !!! j) (h !!! i) = false.

Lemma hle_trans h i j k : hle h i j -> hle h j k -> hle h i k.
Proof. unfold hle. intros H1 H2. by apply le_trans_ with (h !!! j). Qed.

(** The first [n] elements are in heap order, for parents from [lo] on. *)
Definition heap_from lo h n : Prop := forall k, 0 < k < n -> lo <= parent k -> hle h (parent k) k.
Abbreviation is_heap h := (heap_from 0 h (length h)).

Lemma parent_lt k : 0 < k -> parent k < k.
Proof. intros. unfold parent. apply Nat.Div0.div_lt_upper_bound. lia. Qed.

Lemma parent_children i k : 0 < k -> parent k = i <-> k = 2 * i + 1 \/ k = 2 * i + 2.
Proof.
  intros Hk. unfold parent. pose proof (Nat.div_mod_eq (k - 1) 2). pose proof (Nat.mod_upper_bound (k - 1) 2 ltac:(lia)). lia.
Qed.

Lemma swap_length h i j : length (swap h i j) = length h.
Proof. unfold swap. destruct (h !! i), (h !! j); by rewrite ?length_insert. Qed.

Lemma swap_lookup h i j k : i < length h -> j < length h ->
  swap h i j !!! k = if decide (k = i) then h !!! j else if decide (k = j) then h !!! i else h !!! k.
Proof.
  intros Hi Hj. unfold swap.
  destruct (lookup_lt_is_Some_2 h i Hi) as [x Hx], (lookup_lt_is_Some_2 h j Hj) as [y Hy]. rewrite Hx, Hy.
  destruct (decide (k = i)) as [->|].
  { rewrite list_lookup_total_insert_eq by (by rewrite length_insert). symmetry. by apply list_lookup_total_correct. }
  rewrite list_lookup_total_insert_ne by done.
  destruct (decide (k = j)) as [->|]; [|by rewrite list_lookup_total_insert_ne].
  rewrite list_lookup_total_insert_eq by done. symmetry. by apply list_lookup_total_correct.
Qed.

Lemma swap_Permutation h i j : swap h i j ≡ₚ h.
Proof.
  unfold swap. destruct (h !! i) as [x|] eqn:Hx, (h !! j) as [y|] eqn:Hy; try done.
  destruct (decide (i = j)) as [->|Hne].
  { simplify_eq. rewrite list_insert_insert_eq, list_insert_id by done. done. }
  apply Permutation_inj. split; [by rewrite !length_insert|].
  exists (fun k => if decide (k = i) then j else if decide (k = j) then i else k). split.
  - intros a b. repeat case_decide; congruence.
  - intros k. repeat case_decide; subst.
    + rewrite list_lookup_insert_eq; [done|]. rewrite length_insert. by apply lookup_lt_Some in Hx.
    + rewrite list_lookup_insert_ne, list_lookup_insert_eq; [done|by apply lookup_lt_Some in Hy|done].
    + by rewrite !list_lookup_insert_ne.
Qed.

(** What rearranging the first [n] elements keeps. *)
Record shuffled n h h' : Prop := {
  sh_perm : h' ≡ₚ h;
  sh_rest k : n <= k -> h' !! k = h !! k;
}.

Lemma shuffled_refl n h : shuffled n h h.
Proof. by split. Qed.

Lemma shuffled_trans n h1 h2 h3 : shuffled n h1 h2 -> shuffled n h2 h3 -> shuffled n h1 h3.
Proof. intros [P1 R1] [P2 R2]. split; [by rewrite P2|]. intros k Hk. by rewrite R2, R1. Qed.

Lemma shuffled_length n h h' : shuffled n h h' -> length h' = length h.
Proof. intros [P _]. by apply Permutation_length. Qed.

Lemma shuffled_swap n h i j : i < n -> j < n -> shuffled n h (swap h i j).
Proof.
  intros Hi Hj. split; [apply swap_Permutation|]. intros k Hk. unfold swap.
  destruct (h !! i), (h !! j); try done. rewrite !list_lookup_insert_ne by lia. done.
Qed.

(** ** Moving up *)

(** Heap order everywhere but between [j] and its parent. *)
Definition up_ok h n j : Prop :=
  (forall k, 0 < k < n -> k <> j -> hle h (parent k) k) /\
  (forall k, 0 < k < n -> parent k = j -> 0 < j -> hle h (parent j) k).

Lemma up_step h n j : j < n -> n <= length h -> 0 < j -> up_ok h n j ->
  less (h !!! j) (h !!! parent j) = true -> up_ok (swap h (parent j) j) n (parent j).
Proof.
  intros Hj Hn H0 [Hk Hc] Hless. pose proof (parent_lt j H0) as Hi. set (i := parent j) in *.
  pose proof (less_asym _ _ Hless) as Hji. split.
  - intros k Hkn Hki. unfold hle. rewrite !swap_lookup by lia. rewrite (decide_False (P := k = i)) by done.
    destruct (decide (k = j)) as [->|Hkj].
    { fold i. rewrite decide_True by done. exact Hji. }
    pose proof (parent_lt k ltac:(lia)). destruct (decide (parent k = i)) as [Hp|Hp].
    { pose proof (Hk k Hkn Hkj) as Hik. rewrite Hp in Hik. apply (hle_trans h j i k); done. }
    destruct (decide (parent k = j)) as [Hp'|Hp']; [by apply Hc|]. by apply Hk.
  - intros k Hkn Hp H0i. pose proof (parent_lt i H0i). unfold hle. rewrite !swap_lookup by lia.
    rewrite (decide_False (P := parent i = i)), (decide_False (P := parent i = j)) by lia.
    pose proof (Hk i ltac:(lia) ltac:(lia)) as Hpi.
    destruct (decide (k = i)) as [->|]; [pose proof (parent_lt i H0i); lia|].
    destruct (decide (k = j)) as [->|Hkj]; [exact Hpi|]. pose proof (Hk k Hkn Hkj) as Hik. rewrite Hp in Hik.
    by apply (hle_trans h (parent i) i k).
Qed.

Lemma up_loop_spec n fuel : forall h j, j < fuel -> j < n -> n <= length h -> up_ok h n j ->
  heap_from 0 (up_loop fuel h j) n /\ shuffled n h (up_loop fuel h j).
Proof.
  induction fuel as [|fuel IH]; intros h j Hf Hj Hn Hok; [lia|]. cbn [up_loop].
  destruct (Nat.eqb_spec (parent j) j) as [He|He]; simpl.
  { split; [|apply shuffled_refl]. intros k Hk _. apply Hok; [done|]. intros ->. pose proof (parent_lt j). lia. }
  assert (0 < j) as H0 by (destruct j; [done|lia]). pose proof (parent_lt j H0).
  destruct (less (h !!! j) (h !!! parent j)) eqn:Hl; simpl.
  - destruct (IH (swap h (parent j) j) (parent j)) as [Hheap Hshuf]; rewrite ?swap_length; try lia; [by apply up_step|].
    split; [done|]. apply shuffled_trans with (swap h (parent j) j); [by apply shuffled_swap; lia|done].
  - split; [|apply shuffled_refl]. intros k Hk _. destruct (decide (k = j)) as [->|]; [done|]. by apply Hok.
Qed.

(** ** Moving down *)

(** Heap order, for parents from [lo] on, everywhere but around [i]. *)
Definition down_ok lo h n i : Prop :=
  (forall k, 0 < k < n -> lo <= parent k -> k <> i -> parent k <> i -> hle h (parent k) k) /\
  (forall k, 0 < k < n -> parent k = i -> 0 < i -> lo <= parent i -> hle h (parent i) k).

Lemma down_step lo h n i j : 0 < j < n -> n <= length h -> lo <= i -> parent j = i -> down_ok lo h n i ->
  (forall k, 0 < k < n -> parent k = i -> hle h j k) -> less (h !!! j) (h !!! i) = true ->
  down_ok lo (swap h i j) n j /\ hle (swap h i j) i j.
Proof.
  intros Hj Hn Hlo Hp [Hk Hc] Hmin Hless. pose proof (parent_lt j ltac:(lia)) as Hij. rewrite Hp in Hij.
  split; [split|].
  - intros k Hkn Hkl Hkj Hpk. pose proof (parent_lt k ltac:(lia)). unfold hle. rewrite !swap_lookup by lia.
    rewrite (decide_False (P := parent k = j)), (decide_False (P := k = j)) by done.
    destruct (decide (k = i)) as [->|Hki].
    { rewrite decide_False by lia. apply Hc; try done; lia. }
    destruct (decide (parent k = i)); [by apply Hmin|by apply Hk].
  - intros k Hkn Hpk _ Hlp. pose proof (parent_lt k ltac:(lia)). unfold hle. rewrite Hp, !swap_lookup by lia.
    rewrite (decide_True (P := i = i)), (decide_False (P := k = i)), (decide_False (P := k = j)) by lia.
    rewrite <- Hpk. apply Hk; lia.
  - unfold hle. rewrite !swap_lookup by lia. rewrite (decide_True (P := i = i)), (decide_False (P := j = i)), (decide_True (P := j = j)) by lia.
    by apply less_asym.
Qed.

(** The smaller child. *)
Lemma smaller_child h n i : 2 * i + 1 < n ->
  let j := down_child h i n in 0 < j < n /\ parent j = i /\ forall k, 0 < k < n -> parent k = i -> hle h j k.
Proof.
  intros Hn j. set (j1 := 2 * i + 1). set (j2 := j1 + 1).
  change j with (if (j2 <? n) && less (h !!! j2) (h !!! j1) then j2 else j1) in *. clear j.
  set (j := if (j2 <? n) && less (h !!! j2) (h !!! j1) then j2 else j1).
  assert (j = j1 \/ j = j2 /\ j2 < n) as Hj.
  { unfold j. destruct (Nat.ltb_spec j2 n); simpl; [|by left]. destruct (less _ _); auto. }
  assert (0 < j < n) as Hjn by (unfold j1, j2 in *; lia).
  split; [done|]. split; [apply parent_children; unfold j1, j2 in *; lia|].
  intros k Hk Hpk. apply parent_children in Hpk; [|lia]. unfold hle, j.
  assert (forall x, less (h !!! x) (h !!! x) = false) as Hrefl.
  { intros x. destruct (less (h !!! x) (h !!! x)) eqn:E; [|done]. pose proof (less_asym _ _ E). congruence. }
  destruct Hpk as [Hpk|Hpk]; [replace k with j1 by (unfold j1; lia)|replace k with j2 by (unfold j2, j1; lia)].
  - destruct (Nat.ltb_spec j2 n); simpl; [|apply Hrefl]. destruct (less (h !!! j2) (h !!! j1)) eqn:E; [by apply less_asym|apply Hrefl].
  - destruct (Nat.ltb_spec j2 n); simpl; [|unfold j2, j1 in *; lia].
    destruct (less (h !!! j2) (h !!! j1)) eqn:E; [apply Hrefl|done].
Qed.

Lemma down_loop_spec lo n fuel : forall h i, n <= i + fuel -> n <= length h -> lo <= i -> down_ok lo h n i ->
  let r := down_loop fuel h i n in shuffled n h r.1 /\ i <= r.2 /\
  (r.2 = i -> r.1 = h /\ forall k, 0 < k < n -> parent k = i -> hle h i k) /\
  (i < r.2 -> heap_from lo r.1 n).
Proof.
  induction fuel as [|fuel IH]; intros h i Hf Hn Hlo Hok; cbn [down_loop].
  { simpl. split_and!; [apply shuffled_refl|done| |lia]. intros _. split; [done|]. intros k Hk Hp.
    pose proof (parent_lt k). lia. }
  destruct (Nat.leb_spec n (2 * i + 1)) as [Hle|Hlt].
  { simpl. split_and!; [apply shuffled_refl|done| |lia]. intros _. split; [done|]. intros k Hk Hp.
    apply parent_children in Hp; lia. }
  destruct (smaller_child h n i Hlt) as (Hj & Hp & Hmin).
  set (j := down_child h i n) in *. destruct (less (h !!! j) (h !!! i)) eqn:Hl; simpl negb; cbn iota.
  2:{ split_and!; [apply shuffled_refl|done| |simpl; lia]. intros _. split; [done|]. intros k Hk Hpk.
      apply (hle_trans h i j k); [exact Hl|by apply Hmin]. }
  pose proof (parent_lt j ltac:(lia)) as Hij. rewrite Hp in Hij.
  destruct (down_step lo h n i j Hj Hn Hlo Hp Hok Hmin Hl) as [Hok' Hpair].
  destruct (IH (swap h i j) j) as (Hsh & Hge & Hstop & Hmoved); rewrite ?swap_length; try done; try lia.
  set (r := down_loop fuel (swap h i j) j n) in *.
  split_and!; [|lia|lia|].
  - apply shuffled_trans with (swap h i j); [apply shuffled_swap; lia|done].
  - intros _. destruct (decide (r.2 = j)) as [He|Hne]; [|apply Hmoved; lia].
    destruct (Hstop He) as [-> Hch]. intros k Hk Hpl. destruct (decide (k = j)) as [->|]; [by rewrite Hp|].
    destruct (decide (parent k = j)) as [Hpk|]; [rewrite Hpk; by apply Hch|]. by apply Hok'.
Qed.

Lemma down_spec lo h n i : n <= length h -> lo <= i -> down_ok lo h n i ->
  let r := down h i n in shuffled n h r.1 /\
  (r.2 = false -> r.1 = h /\ forall k, 0 < k < n -> parent k = i -> hle h i k) /\
  (r.2 = true -> heap_from lo r.1 n).
Proof.
  intros Hn Hlo Hok. destruct (down_loop_spec lo n (S n) h i ltac:(lia) Hn Hlo Hok) as (Hsh & Hge & Hstop & Hmv).
  unfold down. destruct (down_loop (S n) h i n) as [h' i'] eqn:E. simpl in *.
  split; [done|]. destruct (Nat.ltb_spec i i'); split; intros; try done; [by apply Hmv|apply Hstop; lia].
Qed.

Lemma down_heap lo h n i : n <= length h -> lo <= i -> down_ok lo h n i ->
  (0 < i < n -> lo <= parent i -> hle h (parent i) i) ->
  heap_from lo (down h i n).1 n /\ shuffled n h (down h i n).1.
Proof.
  intros Hn Hlo Hok Hi. destruct (down_spec lo h n i Hn Hlo Hok) as (Hsh & Hstop & Hmv). split; [|done].
  destruct (down h i n).2; [by apply Hmv|]. destruct (Hstop eq_refl) as [-> Hch]. intros k Hk Hpl.
  destruct (decide (k = i)) as [->|]; [by apply Hi|].
  destruct (decide (parent k = i)) as [Hp|]; [rewrite Hp; by apply Hch|by apply Hok].
Qed.

(** ** The operations *)

Lemma heap_root h n k : heap_from 0 h n -> k < n -> hle h 0 k.
Proof.
  intros Hh. induction k as [k IH] using lt_wf_ind. intros Hk. destruct (decide (k = 0)) as [->|Hne].
  - unfold hle. destruct (less (h !!! 0) (h !!! 0)) eqn:E; [|done]. pose proof (less_asym _ _ E). congruence.
  - pose proof (parent_lt k ltac:(lia)). apply (hle_trans h 0 (parent k) k); [apply IH; lia|apply Hh; lia].
Qed.

Lemma init_loop_spec n m : forall h, n = length h -> heap_from m h n ->
  heap_from 0 (init_loop m h n) n /\ shuffled n h (init_loop m h n).
Proof.
  induction m as [|i IH]; intros h Hn Hh; cbn [init_loop]; [split; [done|apply shuffled_refl]|].
  destruct (down_heap i h n i) as [Hd Hs]; [lia|done|split|..].
  - intros k Hk Hp Hki Hpi. apply Hh; lia.
  - intros k _ _ H0 Hp. pose proof (parent_lt i H0). lia.
  - intros [H0 _] Hp. pose proof (parent_lt i H0). lia.
  - destruct (IH (down h i n).1) as [Hf Hs']; [by rewrite (shuffled_length _ _ _ Hs)|done|].
    split; [done|by apply shuffled_trans with (down h i n).1].
Qed.

Lemma Init_spec h : is_heap (Init h) /\ Init h ≡ₚ h.
Proof.
  unfold Init. destruct (init_loop_spec (length h) (length h / 2) h eq_refl) as [Hh Hs].
  - intros k Hk Hp.
    pose proof (Nat.div_mod_eq (length h) 2). pose proof (Nat.mod_upper_bound (length h) 2 ltac:(lia)).
    assert (k = 2 * parent k + 1 \/ k = 2 * parent k + 2) by (by apply parent_children; [lia|]). lia.
  - split; [by rewrite (shuffled_length _ _ _ Hs)|apply Hs].
Qed.

Lemma heap_from_ext h h' n : (forall k, k < n -> h' !!! k = h !!! k) -> heap_from 0 h n -> heap_from 0 h' n.
Proof.
  intros He Hh k Hk Hp. pose proof (parent_lt k ltac:(lia)). unfold hle. rewrite !He by lia. by apply Hh.
Qed.

Lemma Push_spec h x : is_heap h -> is_heap (Push h x) /\ Push h x ≡ₚ x :: h.
Proof.
  intros Hh. unfold Push, up.
  assert (length (h ++ [x]) = S (length h)) as Hl by (rewrite length_app; simpl; lia).
  destruct (up_loop_spec (S (length h)) (S (length h)) (h ++ [x]) (length h)) as [Hu Hs]; try lia.
  { split; [|intros k Hk Hp; pose proof (parent_lt k); lia]. intros k Hk Hne. pose proof (parent_lt k ltac:(lia)).
    unfold hle. rewrite !lookup_total_app_l by lia. apply Hh; lia. }
  split; [by rewrite (shuffled_length _ _ _ Hs), Hl|]. rewrite (sh_perm _ _ _ Hs). symmetry. apply Permutation_cons_append.
Qed.

(** Cutting off the last element of a rearranged heap. *)
Lemma cut_last h h' n x : length h = S n -> shuffled n h h' -> heap_from 0 h' n -> h !! n = Some x ->
  (y ← h' !! n; Some (y, take n h')) = Some (x, take n h') /\ is_heap (take n h') /\ h ≡ₚ x :: take n h'.
Proof.
  intros Hl Hs Hh Hx. pose proof (shuffled_length _ _ _ Hs) as Hl'.
  assert (h' !! n = Some x) as Hx' by (rewrite (sh_rest _ _ _ Hs n); done). rewrite Hx'. split; [done|]. split.
  - rewrite length_take_le by lia. apply heap_from_ext with h'; [|done]. intros k Hk. by rewrite lookup_total_take, decide_True.
  - rewrite <- (sh_perm _ _ _ Hs). rewrite <- (take_drop_middle h' n x Hx') at 1.
    rewrite drop_ge by lia. symmetry. apply Permutation_cons_append.
Qed.

Lemma Pop_spec h : is_heap h -> h <> [] -> exists h',
  Pop h = Some (h !!! 0, h') /\ is_heap h' /\ h ≡ₚ (h !!! 0) :: h' /\ forall y, y ∈ h' -> less y (h !!! 0) = false.
Proof.
  intros Hh Hne. unfold Pop. destruct (length h) as [|n] eqn:Hl; [by destruct h|].
  destruct (down_heap 0 (swap h 0 n) n 0) as [Hd Hs]; rewrite ?swap_length; try lia.
  { split; [|lia]. intros k Hk _ H0 Hp. pose proof (parent_lt k ltac:(lia)).
    unfold hle. rewrite !swap_lookup by lia. rewrite !decide_False by lia. apply Hh; lia. }
  assert (swap h 0 n !! n = Some (h !!! 0)) as Hx.
  { destruct (lookup_lt_is_Some_2 (swap h 0 n) n) as [y Hy]; [rewrite swap_length; lia|]. rewrite Hy. f_equal.
    apply list_lookup_total_correct in Hy. rewrite <- Hy, swap_lookup by lia. repeat case_decide; subst; done. }
  destruct (cut_last (swap h 0 n) _ n _ ltac:(by rewrite swap_length) Hs Hd Hx) as (Hr & Hheap & Hperm).
  apply (Permutation_trans (Permutation_sym (swap_Permutation h 0 n))) in Hperm.
  eexists. split; [exact Hr|]. split_and!; try done.
  intros y Hy. assert (y ∈ h) as Hyh by (rewrite Hperm; by apply list_elem_of_further).
  apply list_elem_of_lookup in Hyh as [k Hk]. pose proof (lookup_lt_Some _ _ _ Hk).
  apply list_lookup_total_correct in Hk as <-. apply (heap_root h (length h)); [by rewrite Hl|done].
Qed.

Lemma Remove_spec h i x : is_heap h -> h !! i = Some x -> exists h',
  Remove h i = Some (x, h') /\ is_heap h' /\ h ≡ₚ x :: h'.
Proof.
  intros Hh Hx. pose proof (lookup_lt_Some _ _ _ Hx) as Hi. unfold Remove. destruct (length h) as [|n] eqn:Hl; [lia|].
  destruct (Nat.eqb_spec n i) as [->|Hni].
  { destruct (cut_last h h i x Hl (shuffled_refl i h)) as (Hr & ? & ?); try done; [|by exists (take i h)].
    intros k Hk. apply Hh. lia. }
  assert (down_ok 0 (swap h i n) n i) as Hok.
  { split.
    - intros k Hk _ Hki Hpi. pose proof (parent_lt k ltac:(lia)). unfold hle. rewrite !swap_lookup by lia.
      rewrite !decide_False by lia. apply Hh; lia.
    - intros k Hk Hp H0 _. pose proof (parent_lt i H0). pose proof (parent_lt k ltac:(lia)). unfold hle.
      rewrite !swap_lookup by lia. rewrite !decide_False by lia.
      apply (hle_trans h (parent i) i k); [apply Hh; lia|]. rewrite <- Hp. apply Hh; lia. }
  destruct (down_spec 0 (swap h i n) n i) as (Hs & Hstop & Hmv); rewrite ?swap_length; try done; try lia.
  destruct (down (swap h i n) i n) as [h1 moved] eqn:Ed. simpl in *.
  assert (swap h i n !! n = Some x) as Hx'.
  { destruct (lookup_lt_is_Some_2 (swap h i n) n) as [y Hy]; [rewrite swap_length; lia|]. rewrite Hy. f_equal.
    apply list_lookup_total_correct in Hy, Hx. rewrite <- Hy, swap_lookup, <- Hx by lia. repeat case_decide; subst; done. }
  assert (heap_from 0 (if moved then h1 else up h1 i) n /\ shuffled n (swap h i n) (if moved then h1 else up h1 i)) as [Hf Hs'].
  { destruct moved; [split; [by apply Hmv|done]|]. destruct (Hstop eq_refl) as [-> Hch].
    apply (up_loop_spec n (S i) (swap h i n) i); rewrite ?swap_length; try lia. destruct Hok as [Hok1 Hok2]. split.
    - intros k Hk Hki. destruct (decide (parent k = i)) as [Hp|]; [rewrite Hp; by apply Hch|]. apply Hok1; try done; lia.
    - intros k Hk Hp H0. apply Hok2; try done; lia. }
  destruct (cut_last (swap h i n) _ n x ltac:(by rewrite swap_length) Hs' Hf Hx') as (Hr & Hheap & Hperm).
  apply (Permutation_trans (Permutation_sym (swap_Permutation h i n))) in Hperm.
  eexists. split; [exact Hr|]. done.
Qed.

Lemma Fix_spec h i x : is_heap h -> i < length h -> is_heap (Fix (<[i:=x]> h) i) /\ Fix (<[i:=x]> h) i ≡ₚ <[i:=x]> h.
Proof.
  intros Hh Hi. set (h1 := <[i:=x]> h). assert (length h1 = length h) as Hl by apply length_insert.
  assert (forall k, k <> i -> h1 !!! k = h !!! k) as Hne by (intros k Hk; by apply list_lookup_total_insert_ne).
  assert (down_ok 0 h1 (length h1) i) as Hok.
  { rewrite Hl. split.
    - intros k Hk _ Hki Hpi. unfold hle. rewrite !Hne by done. apply Hh; lia.
    - intros k Hk Hp H0 _. pose proof (parent_lt i H0). pose proof (parent_lt k ltac:(lia)). unfold hle.
      rewrite !Hne by lia. apply (hle_trans h (parent i) i k); [apply Hh; lia|]. rewrite <- Hp. apply Hh; lia. }
  destruct (down_spec 0 h1 (length h1) i) as (Hs & Hstop & Hmv); try done; try lia.
  unfold Fix. destruct (down h1 i (length h1)) as [h2 moved]. simpl in *. destruct moved.
  - split; [|apply Hs]. rewrite (shuffled_length _ _ _ Hs). by apply Hmv.
  - destruct (Hstop eq_refl) as [-> Hch]. destruct (up_loop_spec (length h1) (S i) h1 i) as [Hu Hs']; try lia.
    + destruct Hok as [Hok1 Hok2]. split.
      * intros k Hk Hki. destruct (decide (parent k = i)) as [Hp|]; [rewrite Hp; by apply Hch|]. apply Hok1; try done; lia.
      * intros k Hk Hp H0. apply Hok2; try done; lia.
    + split; [by unfold up; rewrite (shuffled_length _ _ _ Hs')|apply Hs'].
Qed.

End Heap.
