(* ===== verification/TxList.v ===== *)
(** * Transaction lists (core/txprocessor/tx_list.go)

    [txSortedMap]: transactions of one account by nonce, with a heap of nonces and
    a cache of the sorted slice.  [txList]: the list the pool keeps per account.
    [txPriorityList]: the priority heap over all transactions of the pool.

    A transaction is what the lists look at: its nonce, its priority and its hash.
    Maps are ranged over in an unspecified order; the model takes the order of
    [map_to_list], and the theorems determine the results up to that order. *)

From stdpp Require Import base gmap list sorting.
From S2P Require Import Prelude Types Heap.
Local Open Scope Z_scope.

Class TxView (Tx : Type) : Type := {
  Nonce : Tx -> Z;
  GetPriority : Tx -> Z;
  TxHash : Tx -> Hash;
  Nonce_range tx : 0 <= Nonce tx < 2 ^ 64;
}.

Section SortedMap.
Context {Tx : Type} `{TxView Tx}.
Implicit Types (tx : Tx) (items : gmap Z Tx) (index : list Z).

(** ** The heap of nonces *)

#[local] Instance Z_StrictOrder : StrictOrder_ Z.ltb.
Proof. split; intros; lia. Qed.

Record txSortedMap : Type := mkSorted {
  items : gmap Z Tx;
  index : list Z;
  cache : option (list Tx);
}.

Definition newTxSortedMap : txSortedMap := mkSorted ∅ [] None.

Definition sm_Get (m : txSortedMap) (nonce : Z) : option Tx := items m !! nonce.

Definition sm_Put (m : txSortedMap) tx : txSortedMap :=
  let nonce := Nonce tx in
  let idx := match items m !! nonce with None => Push Z.ltb (index m) nonce | Some _ => index m end in
  mkSorted (<[nonce := tx]> (items m)) idx None.

(** Go appends [m.items[nonce]] even if it were nil; an index entry without its
    transaction is a [Panic] here, and the invariant excludes it. *)
Fixpoint forward_loop (fuel : nat) (threshold : Z) (its : gmap Z Tx) (idx : list Z) (removed : list Tx)
    : outcome unit (gmap Z Tx * list Z * list Tx) :=
  match fuel with
  | O => OutOfFuel
  | S fuel =>
      match idx with
      | [] => Ok (its, idx, removed)
      | n0 :: _ =>
          if n0 <? threshold then
            '(nonce, idx) ← of_index (Pop Z.ltb idx);
            tx ← of_index (its !! nonce);
            forward_loop fuel threshold (delete nonce its) idx (removed ++ [tx])
          else Ok (its, idx, removed)
      end
  end.

Definition sm_Forward (m : txSortedMap) (threshold : Z) : outcome unit (list Tx * txSortedMap) :=
  '(its, idx, removed) ← forward_loop (S (length (index m))) threshold (items m) (index m) [];
  match cache m with
  | None => Ok (removed, mkSorted its idx None)
  | Some c =>
      if (length c <? length removed)%nat then Panic
      else Ok (removed, mkSorted its idx (Some (drop (length removed) c)))
  end.

Definition sm_Filter (m : txSortedMap) (f : Tx -> bool) : list Tx * txSortedMap :=
  let removed := (filter (fun kv => f kv.2 = true) (map_to_list (items m))).*2 in
  let its := filter (fun kv => f kv.2 = false) (items m) in
  if (length removed =? 0)%nat then (removed, mkSorted its (index m) (cache m))
  else (removed, mkSorted its (Init Z.ltb (map_to_list its).*1) None).

(** The loop of [Cap]: [size] goes down to [threshold]. *)
Fixpoint cap_loop (k size : nat) (its : gmap Z Tx) (idx : list Z) (drops : list Tx)
    : outcome unit (gmap Z Tx * list Tx) :=
  match k with
  | O => Ok (its, drops)
  | S k =>
      n ← of_index (idx !! (size - 1)%nat);
      tx ← of_index (its !! n);
      cap_loop k (size - 1) (delete n its) idx (drops ++ [tx])
  end.

Definition sm_Cap (m : txSortedMap) (threshold : nat) : outcome unit (list Tx * txSortedMap) :=
  let size := length (map_to_list (items m)) in
  if (size <=? threshold)%nat then Ok ([], m)
  else
    let idx := merge_sort Z.le (index m) in
    '(its, drops) ← cap_loop (size - threshold) size (items m) idx [];
    if (length idx <? threshold)%nat then Panic
    else
      let idx := Init Z.ltb (take threshold idx) in
      match cache m with
      | None => Ok (drops, mkSorted its idx None)
      | Some c =>
          if (length c <? length drops)%nat then Panic
          else Ok (drops, mkSorted its idx (Some (take (length c - length drops) c)))
      end.

Fixpoint find_index (nonce : Z) (idx : list Z) : option nat :=
  match idx with
  | [] => None
  | n :: idx => if n =? nonce then Some 0%nat else S <$> find_index nonce idx
  end.

Definition sm_Remove (m : txSortedMap) (nonce : Z) : outcome unit (bool * txSortedMap) :=
  match items m !! nonce with
  | None => Ok (false, m)
  | Some _ =>
      idx ← match find_index nonce (index m) with
            | None => Ok (index m)
            | Some i => '(_, idx) ← of_index (Remove Z.ltb (index m) i); Ok idx
            end;
      Ok (true, mkSorted (delete nonce (items m)) idx None)
  end.

Fixpoint ready_loop (fuel : nat) (next : Z) (its : gmap Z Tx) (idx : list Z) (ready : list Tx)
    : outcome unit (gmap Z Tx * list Z * list Tx) :=
  match fuel with
  | O => OutOfFuel
  | S fuel =>
      match idx with
      | [] => Ok (its, idx, ready)
      | n0 :: _ =>
          if n0 =? next then
            tx ← of_index (its !! next);
            '(_, idx) ← of_index (Pop Z.ltb idx);
            ready_loop fuel (u64 (next + 1)) (delete next its) idx (ready ++ [tx])
          else Ok (its, idx, ready)
      end
  end.

Definition sm_Ready (m : txSortedMap) (start : Z) : outcome unit (list Tx * txSortedMap) :=
  match index m with
  | [] => Ok ([], m)
  | n0 :: _ =>
      if start <? n0 then Ok ([], m)
      else
        '(its, idx, ready) ← ready_loop (S (length (index m))) n0 (items m) (index m) [];
        Ok (ready, mkSorted its idx None)
  end.

Definition sm_Len (m : txSortedMap) : nat := length (map_to_list (items m)).

(** [sort.Sort(TxByNonce(...))] *)
Definition by_nonce (a b : Tx) : Prop := Nonce a <= Nonce b.
#[local] Instance by_nonce_dec a b : Decision (by_nonce a b).
Proof. unfold by_nonce. apply _. Defined.
Definition sort_by_nonce (l : list Tx) : list Tx := merge_sort by_nonce l.

Definition sm_Flatten (m : txSortedMap) : list Tx * txSortedMap :=
  match cache m with
  | Some c => (c, m)
  | None => let c := sort_by_nonce (map_to_list (items m)).*2 in (c, mkSorted (items m) (index m) (Some c))
  end.

(** ** Sorted listings of a map *)

Definition ssorted (l : list Tx) : Prop := StronglySorted (fun a b => Nonce a < Nonce b) l.

(** [l] lists the transactions of [its], by increasing nonce. *)
Definition listing (its : gmap Z Tx) (l : list Tx) : Prop :=
  ssorted l /\ forall tx, tx ∈ l <-> its !! Nonce tx = Some tx.

Lemma ssorted_unique l1 l2 : ssorted l1 -> ssorted l2 -> (forall x, x ∈ l1 <-> x ∈ l2) -> l1 = l2.
Proof.
  intros H1. revert l2. induction H1 as [|a l1 Hs1 IH Ha]; intros l2 H2 Hm.
  { destruct l2 as [|b l2]; [done|]. destruct (not_elem_of_nil b). apply Hm, list_elem_of_here. }
  rewrite Forall_forall in Ha. destruct H2 as [|b l2 Hs2 Hb].
  { exfalso. destruct (not_elem_of_nil a). apply Hm, list_elem_of_here. }
  rewrite Forall_forall in Hb. assert (a = b) as <-.
  { pose proof (proj1 (Hm a) (list_elem_of_here _ _)) as [?|Hal]%elem_of_cons; [done|].
    pose proof (proj2 (Hm b) (list_elem_of_here _ _)) as [?|Hbl]%elem_of_cons; [done|].
    specialize (Ha _ Hbl). specialize (Hb _ Hal). lia. }
  f_equal. apply IH; [done|]. intros x. specialize (Hm x). rewrite !elem_of_cons in Hm. split; intros Hx.
  - destruct (proj1 Hm (or_intror Hx)) as [->|]; [|done]. specialize (Ha _ Hx). lia.
  - destruct (proj2 Hm (or_intror Hx)) as [->|]; [|done]. specialize (Hb _ Hx). lia.
Qed.

Lemma listing_unique its l1 l2 : listing its l1 -> listing its l2 -> l1 = l2.
Proof. intros [S1 M1] [S2 M2]. apply ssorted_unique; try done. intros x. by rewrite M1, M2. Qed.

Lemma ssorted_app l1 l2 : ssorted l1 -> ssorted l2 -> (forall a b, a ∈ l1 -> b ∈ l2 -> Nonce a < Nonce b) ->
  ssorted (l1 ++ l2).
Proof.
  induction 1 as [|a l1 Hs IH Ha]; intros H2 Hlt; [done|]. simpl. constructor.
  - apply IH; [done|]. intros x y Hx Hy. apply Hlt; [by apply list_elem_of_further|done].
  - rewrite Forall_forall in *. intros x [Hx|Hx]%elem_of_app; [by apply Ha|].
    apply Hlt; [apply list_elem_of_here|done].
Qed.

Lemma ssorted_app_inv l1 l2 : ssorted (l1 ++ l2) ->
  ssorted l1 /\ ssorted l2 /\ forall a b, a ∈ l1 -> b ∈ l2 -> Nonce a < Nonce b.
Proof.
  intros Hs. split_and!; [by eapply StronglySorted_app_1_l|by eapply StronglySorted_app_1_r|].
  intros a b Ha Hb. by apply (StronglySorted_app_1_elem_of _ _ _ _ _ Hs Ha Hb).
Qed.

(** The two halves of a listing, cut at a nonce. *)
Lemma listing_split its lo hi c l1 l2 : listing its c -> listing lo l1 -> listing hi l2 ->
  (forall n, its !! n = match lo !! n with Some tx => Some tx | None => hi !! n end) ->
  (forall n m tx tx', lo !! n = Some tx -> hi !! m = Some tx' -> n < m) -> c = l1 ++ l2.
Proof.
  intros Hc [S1 M1] [S2 M2] Hits Hlt. apply (listing_unique its); [done|]. split.
  - apply ssorted_app; try done. intros a b Ha%M1 Hb%M2. by eapply Hlt.
  - intros tx. rewrite elem_of_app, M1, M2, Hits. destruct (lo !! Nonce tx) as [tx'|] eqn:El; [|naive_solver].
    split; [|by left]. intros [?|Hh]; [done|]. pose proof (Hlt _ _ _ _ El Hh). lia.
Qed.

(** ** The invariant *)

Record idx_ok (its : gmap Z Tx) (idx : list Z) : Prop := {
  io_heap : heap_from Z.ltb 0 idx (length idx);
  io_nodup : NoDup idx;
  io_elem n : n ∈ idx <-> is_Some (its !! n);
  io_nonce n tx : its !! n = Some tx -> Nonce tx = n;
}.

Record sm_ok (m : txSortedMap) : Prop := {
  ok_index : idx_ok (items m) (index m);
  ok_cache c : cache m = Some c -> listing (items m) c;
}.

Lemma newTxSortedMap_ok : sm_ok newTxSortedMap.
Proof.
  split; [|done]. split; simpl; [intros k Hk; lia|constructor| |done].
  intros n. rewrite elem_of_nil. split; [done|by intros [? ?]].
Qed.

Lemma sort_listing its idx : idx_ok its idx -> listing its (sort_by_nonce (map_to_list its).*2).
Proof.
  intros Hok. unfold sort_by_nonce.
  assert (Transitive by_nonce) by (intros a b c; unfold by_nonce; lia).
  assert (Total by_nonce) by (intros a b; unfold by_nonce; lia).
  pose proof (StronglySorted_merge_sort by_nonce (map_to_list its).*2) as Hs.
  pose proof (merge_sort_Permutation by_nonce (map_to_list its).*2) as Hp.
  assert (forall tx, tx ∈ (map_to_list its).*2 <-> its !! Nonce tx = Some tx) as Hm.
  { intros tx. rewrite list_elem_of_fmap. split.
    - intros ([n tx'] & -> & Hel%elem_of_map_to_list). simpl. by rewrite (io_nonce _ _ Hok _ _ Hel).
    - intros Hl. exists (Nonce tx, tx). split; [done|by apply elem_of_map_to_list]. }
  assert (NoDup (Nonce <$> merge_sort by_nonce (map_to_list its).*2)) as Hnd.
  { rewrite Hp, <- list_fmap_compose. replace (Nonce ∘ snd <$> map_to_list its) with (map_to_list its).*1;
      [apply NoDup_fst_map_to_list|]. apply list_fmap_ext. intros i [n tx] Hi. simpl.
    apply list_elem_of_lookup_2, elem_of_map_to_list in Hi. by rewrite (io_nonce _ _ Hok _ _ Hi). }
  split; [|intros tx; by rewrite Hp, Hm].
  clear Hp. induction Hs as [|a l Hs IH Ha]; [constructor|]. apply NoDup_cons in Hnd as [Hna Hnd].
  constructor; [by apply IH|]. rewrite Forall_forall in *. intros x Hx. specialize (Ha x Hx). unfold by_nonce in Ha.
  assert (Nonce a <> Nonce x); [|lia]. intros He. apply Hna. rewrite He. by apply list_elem_of_fmap_2.
Qed.

(** ** Operations *)

Lemma sm_Put_ok m tx : sm_ok m -> sm_ok (sm_Put m tx).
Proof.
  intros [[Hh Hnd He Hn] _]. split; [|done]. simpl. split; simpl.
  - destruct (items m !! Nonce tx); [done|]. exact (proj1 (Push_spec Z.ltb (index m) (Nonce tx) Hh)).
  - destruct (items m !! Nonce tx) eqn:El; [done|]. rewrite (proj2 (Push_spec _ (index m) (Nonce tx) Hh)).
    apply NoDup_cons. split; [|done]. rewrite He, El. by intros [? ?].
  - intros n. rewrite lookup_insert_is_Some'. destruct (items m !! Nonce tx) eqn:El.
    + rewrite He. split; [by right|]. intros [<-|?]; [by rewrite El|done].
    + rewrite (proj2 (Push_spec _ (index m) (Nonce tx) Hh)), elem_of_cons, He. naive_solver.
  - intros n tx' [[<- <-]|[_ Hl]]%lookup_insert_Some; [done|by apply Hn].
Qed.

Lemma pop_step its n0 idx0 : idx_ok its (n0 :: idx0) -> exists idx' tx,
  Pop Z.ltb (n0 :: idx0) = Some (n0, idx') /\ its !! n0 = Some tx /\ Nonce tx = n0 /\
  idx_ok (delete n0 its) idx' /\ length idx' = length idx0 /\
  forall n, is_Some (delete n0 its !! n) -> n0 < n.
Proof.
  intros [Hh Hnd He Hn]. destruct (Pop_spec Z.ltb (n0 :: idx0) Hh ltac:(done)) as (idx' & Hp & Hh' & Hperm & Hmin).
  simpl in Hp, Hperm, Hmin. destruct (proj1 (He n0) (list_elem_of_here _ _)) as [tx Htx].
  pose proof Hnd as Hnd'. rewrite Hperm in Hnd'. apply NoDup_cons in Hnd' as [Hn0 Hnd'].
  assert (forall n, n ∈ idx' <-> is_Some (delete n0 its !! n)) as Hel.
  { intros n. rewrite lookup_delete_is_Some. rewrite <- (He n), Hperm, elem_of_cons. split; [|naive_solver].
    intros Hi. split; [|by right]. by intros ->. }
  exists idx', tx. split_and!; try done; [by apply Hn| | |].
  - split; try done. intros n tx' [_ Hl]%lookup_delete_Some. by apply Hn.
  - apply Permutation_length in Hperm. simpl in Hperm. lia.
  - intros n Hs. apply Hel in Hs as Hi. specialize (Hmin n Hi). assert (n <> n0) by (by intros ->). lia.
Qed.

Lemma listing_cons its n0 tx l : its !! n0 = Some tx -> Nonce tx = n0 -> listing (delete n0 its) l ->
  (forall n, is_Some (delete n0 its !! n) -> n0 < n) -> listing its (tx :: l).
Proof.
  intros Htx Hn [Hs Hm] Hlt. split.
  - constructor; [done|]. rewrite Forall_forall. intros x Hx%Hm. rewrite Hn. apply Hlt. by rewrite Hx.
  - intros x. rewrite elem_of_cons, Hm, lookup_delete_Some. split.
    + intros [->|[_ ?]]; [congruence|done].
    + intros Hx. destruct (decide (n0 = Nonce x)) as [->|]; [left; congruence|by right].
Qed.

Definition below (its : gmap Z Tx) (t : Z) : gmap Z Tx := filter (fun kv => kv.1 < t) its.
Definition above (its : gmap Z Tx) (t : Z) : gmap Z Tx := filter (fun kv => t <= kv.1) its.

Lemma below_lookup its t n : below its t !! n = if decide (n < t) then its !! n else None.
Proof.
  unfold below. destruct (its !! n) as [tx|] eqn:Hl.
  - case_decide; [by apply map_lookup_filter_Some_2|]. apply map_lookup_filter_None. right. intros. simpl. lia.
  - rewrite map_lookup_filter_None_2 by (by left). by case_decide.
Qed.

Lemma above_lookup its t n : above its t !! n = if decide (n < t) then None else its !! n.
Proof.
  unfold above. destruct (its !! n) as [tx|] eqn:Hl.
  - case_decide; [apply map_lookup_filter_None; right; intros; simpl; lia|]. apply map_lookup_filter_Some_2; [done|]. simpl. lia.
  - rewrite map_lookup_filter_None_2 by (by left). by case_decide.
Qed.

Lemma forward_loop_spec t fuel : forall its idx removed, (length idx < fuel)%nat -> idx_ok its idx ->
  exists its' idx' r, forward_loop fuel t its idx removed = Ok (its', idx', removed ++ r) /\
    idx_ok its' idx' /\ its' = above its t /\ listing (below its t) r.
Proof.
  induction fuel as [|fuel IH]; intros its idx removed Hf Hok; [lia|]. cbn [forward_loop].
  assert (forall n0 idx0, idx = n0 :: idx0 -> forall n, is_Some (its !! n) -> n0 <= n) as Hmin.
  { intros n0 idx0 -> n Hs. destruct (pop_step _ _ _ Hok) as (_ & _ & _ & _ & _ & _ & _ & Hlt).
    destruct (decide (n0 = n)) as [->|]; [lia|]. specialize (Hlt n). rewrite lookup_delete_ne in Hlt by done. specialize (Hlt Hs). lia. }
  assert ((idx = [] \/ exists n0 idx0, idx = n0 :: idx0 /\ t <= n0) ->
    its = above its t /\ listing (below its t) []) as Hstop.
  { intros Hc. assert (forall n, is_Some (its !! n) -> t <= n) as Hge.
    { intros n Hs. destruct Hc as [->|(n0 & idx0 & -> & Hle)]; [|specialize (Hmin n0 idx0 eq_refl n Hs); lia].
      by apply (io_elem _ _ Hok), elem_of_nil in Hs. }
    assert (its = above its t /\ below its t = ∅) as [H1 ->].
    { split; apply map_eq; intros n; rewrite ?above_lookup, ?below_lookup, ?lookup_empty; case_decide as Hd; try done;
        destruct (its !! n) eqn:Hl; try done; specialize (Hge n ltac:(by rewrite Hl)); lia. }
    split; [done|]. split; [constructor|]. intros tx. rewrite lookup_empty. split; [by intros ?%elem_of_nil|done]. }
  destruct idx as [|n0 idx0].
  { destruct Hstop as [H1 H2]; [by left|]. exists its, [], []. by rewrite app_nil_r. }
  destruct (Z.ltb_spec n0 t) as [Hlt|Hge].
  2:{ destruct Hstop as [H1 H2]; [right; by exists n0, idx0|]. exists its, (n0 :: idx0), []. by rewrite app_nil_r. }
  destruct (pop_step _ _ _ Hok) as (idx' & tx & Hp & Htx & Hn & Hok' & Hlen & Hgt).
  rewrite Hp. simpl. rewrite Htx. simpl. simpl in Hf.
  destruct (IH (delete n0 its) idx' (removed ++ [tx]) ltac:(lia) Hok') as (its' & idx2 & r & Hr & Hok2 & -> & Hlist).
  exists (above (delete n0 its) t), idx2, (tx :: r). rewrite Hr, <- app_assoc. split_and!; try done.
  - apply map_eq. intros n. rewrite !above_lookup. case_decide; [done|]. by rewrite lookup_delete_ne by lia.
  - apply (listing_cons _ n0); try done.
    + rewrite below_lookup. by rewrite decide_True.
    + replace (delete n0 (below its t)) with (below (delete n0 its) t); [done|].
      apply map_eq. intros n. rewrite below_lookup, !lookup_delete, below_lookup. repeat case_decide; done.
    + intros n. rewrite lookup_delete_is_Some, below_lookup. intros [Hne Hs]. apply Hgt.
      rewrite lookup_delete_ne by done. by case_decide; [|destruct Hs].
Qed.

Lemma sm_Forward_ok m t : sm_ok m -> exists removed m', sm_Forward m t = Ok (removed, m') /\ sm_ok m' /\
  listing (below (items m) t) removed /\ items m' = above (items m) t.
Proof.
  intros [Hok Hc]. unfold sm_Forward.
  destruct (forward_loop_spec t (S (length (index m))) (items m) (index m) [] ltac:(lia) Hok)
    as (its' & idx' & r & -> & Hok' & -> & Hl). simpl.
  destruct (cache m) as [c|] eqn:Ec; [|eexists _, _; by split_and!].
  assert (c = r ++ sort_by_nonce (map_to_list (above (items m) t)).*2) as ->.
  { eapply listing_split; [by apply Hc|exact Hl|by eapply sort_listing|..].
    - intros n. rewrite below_lookup, above_lookup. case_decide; [|done]. by destruct (items m !! n).
    - intros n n' tx tx'. rewrite below_lookup, above_lookup. repeat case_decide; try done. lia. }
  rewrite length_app. destruct (Nat.ltb_spec (length r + length (sort_by_nonce (map_to_list (above (items m) t)).*2)) (length r)); [lia|].
  eexists _, _. split; [done|]. rewrite drop_app_length. split_and!; try done. split; [done|]. simpl.
  intros c [= <-]. by eapply sort_listing.
Qed.

Lemma idx_keys its idx : idx_ok its idx -> idx ≡ₚ (map_to_list its).*1.
Proof.
  intros Hok. apply NoDup_Permutation; [apply Hok|apply NoDup_fst_map_to_list|].
  intros n. rewrite (io_elem _ _ Hok), list_elem_of_fmap. split.
  - intros [tx Hl]. exists (n, tx). split; [done|by apply elem_of_map_to_list].
  - intros ([n' tx] & -> & Hel%elem_of_map_to_list). by exists tx.
Qed.

Lemma keys_idx its idx : (forall n tx, its !! n = Some tx -> Nonce tx = n) -> heap_from Z.ltb 0 idx (length idx) ->
  idx ≡ₚ (map_to_list its).*1 -> idx_ok its idx.
Proof.
  intros Hn Hh Hp. split; try done.
  - rewrite Hp. apply NoDup_fst_map_to_list.
  - intros n. rewrite Hp, list_elem_of_fmap. split.
    + intros ([n' tx] & -> & Hel%elem_of_map_to_list). by exists tx.
    + intros [tx Hl]. exists (n, tx). split; [done|by apply elem_of_map_to_list].
Qed.

Lemma sm_Filter_ok m f : sm_ok m -> let r := sm_Filter m f in sm_ok r.2 /\
  items r.2 = filter (fun kv => f kv.2 = false) (items m) /\
  NoDup r.1 /\ forall tx, tx ∈ r.1 <-> items m !! Nonce tx = Some tx /\ f tx = true.
Proof.
  intros [Hok Hc]. unfold sm_Filter.
  set (rm := (filter (fun kv => f kv.2 = true) (map_to_list (items m))).*2).
  assert (forall tx, tx ∈ rm <-> items m !! Nonce tx = Some tx /\ f tx = true) as Hrm.
  { intros tx. unfold rm. rewrite list_elem_of_fmap. split.
    - intros ([n tx'] & -> & [Hf Hel%elem_of_map_to_list]%list_elem_of_filter). simpl in *.
      by rewrite (io_nonce _ _ Hok _ _ Hel).
    - intros [Hl Hf]. exists (Nonce tx, tx). split; [done|]. apply list_elem_of_filter. by rewrite elem_of_map_to_list. }
  assert (NoDup rm) as Hnd.
  { apply (NoDup_fmap_1 Nonce). unfold rm. rewrite <- list_fmap_compose.
    replace (Nonce ∘ snd <$> filter (fun kv => f kv.2 = true) (map_to_list (items m)))
      with (filter (fun kv => f kv.2 = true) (map_to_list (items m))).*1.
    - apply (sublist_NoDup _ (map_to_list (items m)).*1); [apply NoDup_fst_map_to_list|].
      apply fmap_sublist, sublist_filter.
    - apply list_fmap_ext. intros i [n tx] Hi. simpl. apply list_elem_of_lookup_2, list_elem_of_filter in Hi as [_ Hel].
      apply elem_of_map_to_list in Hel. by rewrite (io_nonce _ _ Hok _ _ Hel). }
  assert (forall n tx, filter (fun kv => f kv.2 = false) (items m) !! n = Some tx -> Nonce tx = n) as Hn.
  { intros n tx [Hl _]%map_lookup_filter_Some. by apply (io_nonce _ _ Hok). }
  destruct (Nat.eqb_spec (length rm) 0) as [Hz|Hz]; simpl; (split; [|by split_and!]).
  - assert (filter (fun kv => f kv.2 = false) (items m) = items m) as ->; [|by split].
    apply map_eq. intros n. destruct (items m !! n) as [tx|] eqn:Hl; [|by apply map_lookup_filter_None_2; left].
    apply map_lookup_filter_Some_2; [done|]. simpl. destruct (f tx) eqn:Hf; [|done].
    apply length_zero_iff_nil in Hz. exfalso. apply (not_elem_of_nil tx). rewrite <- Hz. apply Hrm.
    by rewrite (io_nonce _ _ Hok _ _ Hl).
  - split; [|done]. simpl. destruct (Init_spec Z.ltb (map_to_list (filter (fun kv => f kv.2 = false) (items m))).*1).
    by apply keys_idx.
Qed.

Lemma find_index_spec n idx : n ∈ idx -> exists i, find_index n idx = Some i /\ idx !! i = Some n.
Proof.
  induction idx as [|x idx IH]; [by intros ?%elem_of_nil|]. intros [->|Hin]%elem_of_cons; simpl.
  - rewrite Z.eqb_refl. by exists 0%nat.
  - destruct (Z.eqb_spec x n) as [->|]; [by exists 0%nat|]. destruct (IH Hin) as (i & -> & Hi). by exists (S i).
Qed.

Lemma sm_Remove_ok m nonce : sm_ok m -> exists m',
  sm_Remove m nonce = Ok (bool_decide (is_Some (items m !! nonce)), m') /\ sm_ok m' /\
  items m' = delete nonce (items m).
Proof.
  intros Hm. pose proof Hm as [Hok Hc]. unfold sm_Remove. destruct (items m !! nonce) as [tx|] eqn:Hl.
  2:{ exists m. rewrite bool_decide_false by (by intros [? ?]). split_and!; try done. by rewrite delete_id. }
  rewrite bool_decide_true by done. destruct (find_index_spec nonce (index m)) as (i & -> & Hi).
  { apply (io_elem _ _ Hok). by exists tx. }
  destruct (Remove_spec Z.ltb (index m) i nonce (io_heap _ _ Hok) Hi) as (idx' & Hr & Hh' & Hp).
  rewrite Hr. simpl. eexists. split; [done|]. split; [|done]. split; [|done]. simpl.
  apply keys_idx; [|done|].
  - intros n tx' [_ Hl']%lookup_delete_Some. by apply (io_nonce _ _ Hok).
  - apply (Permutation_cons_inv (a := nonce)). rewrite <- Hp, (idx_keys _ _ Hok).
    by rewrite <- (map_to_list_delete _ _ _ Hl).
Qed.

Lemma sm_Flatten_ok m : sm_ok m -> let r := sm_Flatten m in sm_ok r.2 /\ items r.2 = items m /\ listing (items m) r.1.
Proof.
  intros Hm. pose proof Hm as [Hok Hc]. unfold sm_Flatten. destruct (cache m) as [c|] eqn:Ec; simpl.
  - split_and!; try done; by apply Hc.
  - pose proof (sort_listing _ _ Hok) as Hl. split_and!; try done; try apply Hl. split; [done|]. simpl. by intros c [= <-].
Qed.

(** ** Dropping the highest nonces *)

Lemma listing_snoc its n tx l : its !! n = Some tx -> Nonce tx = n -> listing (delete n its) l ->
  (forall n', is_Some (delete n its !! n') -> n' < n) -> listing its (l ++ [tx]).
Proof.
  intros Htx Hn [Hs Hm] Hlt. split.
  - apply ssorted_app; [done|by repeat constructor|]. intros a b Ha%Hm Hb%list_elem_of_singleton. subst b. rewrite Hn.
    apply Hlt. by rewrite Ha.
  - intros x. rewrite elem_of_app, list_elem_of_singleton, Hm, lookup_delete_Some. split.
    + intros [[_ ?]|?]; congruence.
    + intros Hx. destruct (decide (n = Nonce x)) as [->|]; [right; congruence|by left].
Qed.

Lemma below_delete its n c : below (delete n its) c = delete n (below its c).
Proof. apply map_eq. intros k. rewrite below_lookup, !lookup_delete, below_lookup. repeat case_decide; done. Qed.
Lemma above_delete its n c : above (delete n its) c = delete n (above its c).
Proof. apply map_eq. intros k. rewrite above_lookup, !lookup_delete, above_lookup. repeat case_decide; done. Qed.

Lemma cap_loop_spec (ns : list Z) k : forall size its drops c, StronglySorted Z.lt ns -> (S k <= size <= length ns)%nat ->
  (forall n, is_Some (its !! n) <-> n ∈ take size ns) -> (forall n tx, its !! n = Some tx -> Nonce tx = n) ->
  ns !! (size - S k)%nat = Some c ->
  exists d, cap_loop (S k) size its ns drops = Ok (below its c, drops ++ d) /\
    listing (above its c) (rev d) /\ length d = S k.
Proof.
  induction k as [|k IH]; intros size its drops c Hs Hsz Hdom Hn Hc; cbn [cap_loop];
    destruct (lookup_lt_is_Some_2 ns (size - 1) ltac:(lia)) as [n Hns]; rewrite Hns; simpl.
  all: assert (n ∈ take size ns) as Hin by (apply list_elem_of_lookup; exists (size - 1)%nat; rewrite lookup_take_lt; [done|lia]).
  all: destruct (proj2 (Hdom n) Hin) as [tx Htx]; rewrite Htx; simpl.
  all: assert (forall n', is_Some (delete n its !! n') <-> n' ∈ take (size - 1) ns) as Hdom'.
  1,3: intros n'; rewrite lookup_delete_is_Some, Hdom; replace size with (S (size - 1)) at 1 by lia;
    rewrite (take_S_r ns (size - 1) n Hns), elem_of_app, list_elem_of_singleton; split; [naive_solver|];
    intros Hi; split; [|by left]; intros <-; apply list_elem_of_lookup in Hi as [i Hi];
    pose proof (lookup_lt_Some _ _ _ Hi) as Hlt; rewrite length_take in Hlt; rewrite lookup_take_lt in Hi by lia;
    pose proof (StronglySorted_lookup _ _ i (size - 1) _ _ Hs ltac:(lia) Hi Hns); lia.
  all: assert (forall n', is_Some (delete n its !! n') -> n' < n) as Hmax.
  1,3: intros n' Hi%Hdom'; apply list_elem_of_lookup in Hi as [i Hi];
    pose proof (lookup_lt_Some _ _ _ Hi) as Hlt; rewrite length_take in Hlt; rewrite lookup_take_lt in Hi by lia;
    by apply (StronglySorted_lookup _ _ i (size - 1) _ _ Hs ltac:(lia) Hi Hns).
  - assert (c = n) as -> by congruence. exists [tx]. split; [|split; [|done]].
    + f_equal. f_equal. apply map_eq. intros n'. rewrite below_lookup. destruct (delete n its !! n') eqn:Hl.
      * specialize (Hmax n' ltac:(by rewrite Hl)). rewrite decide_True by done. by apply lookup_delete_Some in Hl as [_ ->].
      * case_decide; [|done]. rewrite lookup_delete_ne in Hl by lia. done.
    + apply (listing_snoc _ n tx []); try done.
      * by rewrite above_lookup, decide_False by lia.
      * by apply Hn.
      * rewrite <- above_delete. split; [constructor|]. intros x. rewrite elem_of_nil. split; [done|].
        rewrite above_lookup. case_decide; [done|]. intros Hl. specialize (Hmax (Nonce x) ltac:(by rewrite Hl)). lia.
      * intros n'. rewrite <- above_delete, above_lookup. case_decide; [by intros [? ?]|]. apply Hmax.
  - destruct (IH (size - 1)%nat (delete n its) (drops ++ [tx]) c) as (d & Hr & Hl & Hlen); try done; try lia.
    { intros n' tx' [_ Hl]%lookup_delete_Some. by apply Hn. }
    { by replace (size - 1 - S k)%nat with (size - S (S k))%nat by lia. }
    assert (c < n) as Hcn by (apply (StronglySorted_lookup _ _ (size - S (S k)) (size - 1) _ _ Hs ltac:(lia) Hc Hns)).
    exists (tx :: d). cbn [cap_loop] in Hr. rewrite Hr, <- app_assoc. split; [|split; [|simpl; lia]].
    + f_equal. f_equal. rewrite below_delete. apply delete_id. rewrite below_lookup, decide_False by lia. done.
    + simpl. apply (listing_snoc _ n); [by rewrite above_lookup, decide_False by lia|by apply Hn|by rewrite <- above_delete|].
      intros n'. rewrite <- above_delete, above_lookup. case_decide; [by intros [? ?]|]. apply Hmax.
Qed.

Lemma sorted_index its idx : idx_ok its idx -> StronglySorted Z.lt (merge_sort Z.le idx) /\ merge_sort Z.le idx ≡ₚ idx.
Proof.
  intros Hok. pose proof (merge_sort_Permutation Z.le idx) as Hp. split; [|done].
  assert (NoDup (merge_sort Z.le idx)) as Hnd by (rewrite Hp; apply Hok).
  pose proof (StronglySorted_merge_sort Z.le idx) as Hs. clear Hp.
  induction Hs as [|a l Hs IH Ha]; [constructor|]. apply NoDup_cons in Hnd as [Hna Hnd]. constructor; [by apply IH|].
  rewrite Forall_forall in *. intros x Hx. specialize (Ha x Hx). assert (a <> x) by (by intros ->). lia.
Qed.

Lemma sm_Cap_ok m threshold : sm_ok m -> exists drops m', sm_Cap m threshold = Ok (drops, m') /\ sm_ok m' /\
  ((sm_Len m <= threshold)%nat /\ drops = [] /\ m' = m \/
   (threshold < sm_Len m)%nat /\ sm_Len m' = threshold /\
   exists c, items m' = below (items m) c /\ listing (above (items m) c) (rev drops)).
Proof.
  intros Hm. pose proof Hm as [Hok Hc]. unfold sm_Cap, sm_Len.
  destruct (Nat.leb_spec (length (map_to_list (items m))) threshold) as [|Hlt]; [exists [], m; split_and!; try done; by left|].
  set (ns := merge_sort Z.le (index m)). destruct (sorted_index _ _ Hok) as [Hs Hp]. fold ns in Hs, Hp.
  set (size := length (map_to_list (items m))) in *.
  assert (length ns = size) as Hlen.
  { unfold size. rewrite Hp, (idx_keys _ _ Hok). by rewrite length_fmap. }
  destruct (lookup_lt_is_Some_2 ns threshold ltac:(lia)) as [c Hct].
  destruct (cap_loop_spec ns (size - threshold - 1) size (items m) [] c Hs) as (d & Hr & Hd & Hdl); try lia.
  { intros n. rewrite take_ge by lia. by rewrite Hp, (io_elem _ _ Hok). }
  { apply Hok. }
  { by replace (size - S (size - threshold - 1))%nat with threshold by lia. }
  replace (S (size - threshold - 1)) with (size - threshold)%nat in Hr, Hdl by lia. rewrite Hr. simpl.
  destruct (Nat.ltb_spec (length ns) threshold); [lia|].
  assert (forall n, n ∈ take threshold ns <-> n ∈ ns /\ n < c) as Htake.
  { intros n. split.
    - intros Hi. apply list_elem_of_lookup in Hi as [i Hi]. pose proof (lookup_lt_Some _ _ _ Hi) as Hil. rewrite length_take in Hil.
      rewrite lookup_take_lt in Hi by lia. split; [by apply list_elem_of_lookup_2 in Hi|].
      apply (StronglySorted_lookup _ _ i threshold _ _ Hs ltac:(lia) Hi Hct).
    - intros [Hi Hn]. apply list_elem_of_lookup in Hi as [i Hi]. destruct (decide (i < threshold)%nat).
      + apply list_elem_of_lookup. exists i. by rewrite lookup_take_lt by lia.
      + destruct (decide (i = threshold)) as [->|]; [simplify_eq; lia|].
        pose proof (StronglySorted_lookup _ _ threshold i _ _ Hs ltac:(lia) Hct Hi). lia. }
  destruct (Init_spec Z.ltb (take threshold ns)) as [Hh Hip].
  assert (idx_ok (below (items m) c) (Init Z.ltb (take threshold ns))) as Hok'.
  { split; [done| | |].
    - rewrite Hip. apply (sublist_NoDup _ ns); [rewrite Hp; apply Hok|apply sublist_take].
    - intros n. rewrite Hip, Htake, Hp, (io_elem _ _ Hok), below_lookup.
      case_decide; split; [by intros [? ?]|done|lia|by intros [? ?]].
    - intros n tx. rewrite below_lookup. case_decide; [|done]. apply Hok. }
  assert (length (map_to_list (below (items m) c)) = threshold) as Hlen'.
  { rewrite <- (length_fmap fst), <- (idx_keys _ _ Hok'), Hip, length_take. lia. }
  destruct (cache m) as [ca|] eqn:Ec.
  2:{ exists d. eexists. split; [done|]. split; [by split|]. right. split_and!; try done. by exists c. }
  assert (ca = sort_by_nonce (map_to_list (below (items m) c)).*2 ++ rev d) as ->.
  { eapply (listing_split (items m) (below (items m) c) (above (items m) c)); [by apply Hc|by eapply sort_listing|done|..].
    - intros n. rewrite below_lookup, above_lookup. case_decide; [|done]. by destruct (items m !! n).
    - intros n n' tx tx'. rewrite below_lookup, above_lookup. repeat case_decide; try done. lia. }
  rewrite length_app, length_rev. destruct (Nat.ltb_spec (length (sort_by_nonce (map_to_list (below (items m) c)).*2) + length d) (length d)); [lia|].
  exists d. eexists. split; [done|]. rewrite Nat.add_sub, take_app_length. split; [|right; split_and!; try done; by exists c].
  split; [done|]. simpl. intros c' [= <-]. by eapply sort_listing.
Qed.

(** ** The ready run *)

(** [next] before it wraps around. *)
Lemma ready_loop_spec fuel : forall next its idx ready, (length idx < fuel)%nat -> idx_ok its idx -> 0 <= next <= 2 ^ 64 ->
  (forall n, is_Some (its !! n) -> next <= n) ->
  exists its' idx' r, ready_loop fuel (u64 next) its idx ready = Ok (its', idx', ready ++ r) /\
    let stop := next + Z.of_nat (length r) in
    idx_ok its' idx' /\ its' = above its stop /\ listing (below its stop) r /\ its !! stop = None /\
    (forall n, next <= n < stop -> is_Some (its !! n)).
Proof.
  induction fuel as [|fuel IH]; intros next its idx ready Hf Hok Hnext Hge; [lia|]. cbn [ready_loop].
  assert (forall n, is_Some (its !! n) -> n < 2 ^ 64) as Hmax.
  { intros n [tx Hl]. rewrite <- (io_nonce _ _ Hok _ _ Hl). apply Nonce_range. }
  assert (its !! next = None -> exists its' idx' r, Ok (E := unit) (its, idx, ready) = Ok (its', idx', ready ++ r) /\
    let stop := next + Z.of_nat (length r) in
    idx_ok its' idx' /\ its' = above its stop /\ listing (below its stop) r /\ its !! stop = None /\
    (forall n, next <= n < stop -> is_Some (its !! n))) as Hstop.
  { intros Hnone. exists its, idx, []. rewrite app_nil_r. simpl. rewrite Z.add_0_r. split_and!; try done; try lia.
    - apply map_eq. intros n. rewrite above_lookup. case_decide; [|done]. destruct (its !! n) eqn:Hl; [|done].
      specialize (Hge n ltac:(by rewrite Hl)). lia.
    - split; [constructor|]. intros tx. rewrite elem_of_nil, below_lookup. case_decide as Hd; [|done]. split; [done|].
      intros Hl. specialize (Hge (Nonce tx) ltac:(by rewrite Hl)). lia. }
  destruct idx as [|n0 idx0].
  { apply Hstop. destruct (its !! next) eqn:Hl; [|done].
    by apply mk_is_Some, (io_elem _ _ Hok), elem_of_nil in Hl. }
  destruct (pop_step _ _ _ Hok) as (idx' & tx & Hp & Htx & Hn & Hok' & Hlen & Hgt).
  pose proof (Hge n0 ltac:(by rewrite Htx)) as Hn0. pose proof (Hmax n0 ltac:(by rewrite Htx)) as Hn0'.
  assert (u64 next = if decide (next = 2 ^ 64) then 0 else next) as Hu.
  { unfold u64, wrap. case_decide as Hd; [rewrite Hd; by apply Z_mod_same_full|]. apply Z.mod_small. lia. }
  rewrite Hu. rewrite decide_False by lia. clear Hu. destruct (Z.eqb_spec n0 next) as [->|Hne].
  2:{ apply Hstop. destruct (its !! next) eqn:Hl; [|done].
      specialize (Hgt next ltac:(rewrite lookup_delete_ne by done; by rewrite Hl)). lia. }
  rewrite Htx. simpl. rewrite Hp. simpl. simpl in Hf.
  destruct (IH (next + 1) (delete next its) idx' (ready ++ [tx]) ltac:(lia) Hok' ltac:(lia)) as (its' & idx2 & r & Hr & Hok2 & -> & Hl & Hnone & Hrun).
  { intros n Hs. specialize (Hgt n Hs). lia. }
  exists (above (delete next its) (next + 1 + Z.of_nat (length r))), idx2, (tx :: r).
  rewrite Hr, <- app_assoc. cbn [length]. cbv zeta. replace (next + Z.of_nat (S (length r))) with (next + 1 + Z.of_nat (length r)) by lia.
  split_and!; try done.
  - rewrite above_delete. apply delete_id. by rewrite above_lookup, decide_True by lia.
  - apply (listing_cons _ next); [by rewrite below_lookup, decide_True by lia|done|by rewrite <- below_delete|].
    intros n. rewrite <- below_delete, below_lookup. case_decide; [apply Hgt|by intros [? ?]].
  - rewrite lookup_delete_ne in Hnone by lia. done.
  - intros n Hns. destruct (decide (n = next)) as [->|]; [by rewrite Htx|]. specialize (Hrun n ltac:(lia)).
    by rewrite lookup_delete_ne in Hrun.
Qed.

(** The head of the heap is the lowest nonce. *)
Lemma idx_head its n0 idx0 : idx_ok its (n0 :: idx0) -> is_Some (its !! n0) /\ forall n, is_Some (its !! n) -> n0 <= n.
Proof.
  intros Hok. destruct (pop_step _ _ _ Hok) as (_ & tx & _ & Htx & _ & _ & _ & Hgt). split; [by rewrite Htx|].
  intros n Hs. destruct (decide (n = n0)) as [->|]; [lia|]. specialize (Hgt n). rewrite lookup_delete_ne in Hgt by done.
  specialize (Hgt Hs). lia.
Qed.

Lemma sm_Ready_ok m start : sm_ok m -> exists ready m', sm_Ready m start = Ok (ready, m') /\ sm_ok m' /\
  ((forall n, is_Some (items m !! n) -> start < n) /\ ready = [] /\ m' = m \/
   exists first, is_Some (items m !! first) /\ first <= start /\ (forall n, is_Some (items m !! n) -> first <= n) /\
     let stop := first + Z.of_nat (length ready) in
     (forall n, first <= n < stop -> is_Some (items m !! n)) /\ items m !! stop = None /\
     listing (below (items m) stop) ready /\ items m' = above (items m) stop).
Proof.
  intros Hm. pose proof Hm as [Hok Hc]. unfold sm_Ready. destruct (index m) as [|n0 idx0] eqn:Ei.
  { exists [], m. split_and!; try done. left. split_and!; try done. intros n Hs.
    by apply (io_elem _ _ Hok), elem_of_nil in Hs. }
  destruct (idx_head _ _ _ Hok) as [[tx0 Hs0] Hmin]. destruct (Z.ltb_spec start n0) as [Hlt|Hge].
  { exists [], m. split_and!; try done. left. split_and!; try done. intros n Hs. specialize (Hmin n Hs). lia. }
  assert (0 <= n0 < 2 ^ 64) as Hr0 by (rewrite <- (io_nonce _ _ Hok _ _ Hs0); apply Nonce_range).
  destruct (ready_loop_spec (S (length (n0 :: idx0))) n0 (items m) (n0 :: idx0) [] ltac:(lia) Hok ltac:(lia) Hmin)
    as (its' & idx' & r & Hr & Hok' & -> & Hl & Hnone & Hrun).
  replace (u64 n0) with n0 in Hr by (unfold u64, wrap; by rewrite Z.mod_small). rewrite Hr. simpl.
  exists r. eexists. split; [done|]. split; [by split|]. right. exists n0. by split_and!.
Qed.

End SortedMap.
Arguments txSortedMap : clear implicits.

(** ** The list of one account *)

Section TxList.
Context {Tx : Type} `{TxView Tx}.
Implicit Types (tx : Tx).

Record txList : Type := mkTxList {
  strict : bool;
  txs : txSortedMap Tx;
  l_priority : Z;
}.

Definition newTxList (strict : bool) : txList := mkTxList strict newTxSortedMap 0.

Definition Overlaps (l : txList) tx : bool :=
  match sm_Get (txs l) (Nonce tx) with Some _ => true | None => false end.

Definition Add (l : txList) tx : bool * option Tx * txList :=
  let old := sm_Get (txs l) (Nonce tx) in
  if match old with Some o => GetPriority tx <=? GetPriority o | None => false end then (false, None, l)
  else
    let p := if l_priority l <? GetPriority tx then GetPriority tx else l_priority l in
    (true, old, mkTxList (strict l) (sm_Put (txs l) tx) p).

Definition with_txs (l : txList) (m : txSortedMap Tx) : txList := mkTxList (strict l) m (l_priority l).

Definition Forward (l : txList) (threshold : Z) : outcome unit (list Tx * txList) :=
  '(r, m) ← sm_Forward (txs l) threshold; Ok (r, with_txs l m).

(** [lowest] starts from [math.MaxUint64]. *)
Definition lowest_nonce (removed : list Tx) : Z :=
  fold_left (fun lowest tx => if Nonce tx <? lowest then Nonce tx else lowest) removed (2 ^ 64 - 1).

Definition Filter (l : txList) (priority : Z) : list Tx * list Tx * txList :=
  if l_priority l <=? priority then ([], [], l)
  else
    let '(removed, m) := sm_Filter (txs l) (fun tx => priority <? GetPriority tx) in
    if strict l && negb (length removed =? 0)%nat then
      let lowest := lowest_nonce removed in
      let '(invalids, m) := sm_Filter m (fun tx => lowest <? Nonce tx) in
      (removed, invalids, mkTxList (strict l) m priority)
    else (removed, [], mkTxList (strict l) m priority).

Definition Cap (l : txList) (threshold : nat) : outcome unit (list Tx * txList) :=
  '(r, m) ← sm_Cap (txs l) threshold; Ok (r, with_txs l m).

Definition RemoveTx (l : txList) tx : outcome unit (bool * list Tx * txList) :=
  let nonce := Nonce tx in
  '(removed, m) ← sm_Remove (txs l) nonce;
  if removed : bool then
    if strict l then
      let '(invalids, m) := sm_Filter m (fun tx => nonce <? Nonce tx) in Ok (true, invalids, with_txs l m)
    else Ok (true, [], with_txs l m)
  else Ok (false, [], with_txs l m).

Definition Ready (l : txList) (start : Z) : outcome unit (list Tx * txList) :=
  '(r, m) ← sm_Ready (txs l) start; Ok (r, with_txs l m).

Definition Len (l : txList) : nat := sm_Len (txs l).
Definition Empty (l : txList) : bool := (Len l =? 0)%nat.
Definition Flatten (l : txList) : list Tx * txList :=
  let '(r, m) := sm_Flatten (txs l) in (r, with_txs l m).

(** *** Invariant: a sorted map whose priorities the cap bounds. *)

Definition capped (m : txSortedMap Tx) (p : Z) : Prop := forall n tx, items m !! n = Some tx -> GetPriority tx <= p.
Definition list_ok (l : txList) : Prop := sm_ok (txs l) /\ capped (txs l) (l_priority l).

(** No gap between two nonces of the list. *)
Definition gapless (m : txSortedMap Tx) : Prop :=
  forall a b c, is_Some (items m !! a) -> is_Some (items m !! c) -> a <= b <= c -> is_Some (items m !! b).

Lemma lowest_nonce_spec removed : let lo := lowest_nonce removed in
  (forall tx, tx ∈ removed -> lo <= Nonce tx) /\ (removed <> [] -> exists tx, tx ∈ removed /\ lo = Nonce tx).
Proof.
  unfold lowest_nonce. assert (forall l m, let lo := fold_left (fun lowest tx => if Nonce tx <? lowest then Nonce tx else lowest) l m in
    lo <= m /\ (forall tx, tx ∈ l -> lo <= Nonce tx) /\ (lo = m \/ exists tx, tx ∈ l /\ lo = Nonce tx)) as Hf.
  { induction l as [|x l IH]; intros m; cbn [fold_left]; cbv zeta.
    { split_and!; [lia|by intros ? ?%elem_of_nil|by left]. }
    destruct (IH (if Nonce x <? m then Nonce x else m)) as (Hle & Hall & Hor). cbv zeta in *.
    set (lo := fold_left _ l _) in *. destruct (Z.ltb_spec (Nonce x) m).
    - split; [lia|]. split.
      + intros tx [->|Hin]%elem_of_cons; [done|auto].
      + right. destruct Hor as [->|(tx & Hin & ->)]; [exists x|exists tx]; split; try done; [apply list_elem_of_here|by apply list_elem_of_further].
    - split; [lia|]. split.
      + intros tx [->|Hin]%elem_of_cons; [lia|auto].
      + destruct Hor as [->|(tx & Hin & ->)]; [by left|right; exists tx; split; [by apply list_elem_of_further|done]]. }
  destruct (Hf removed (2 ^ 64 - 1)) as (Hle & Hall & Hor). cbv zeta in *. split; [done|]. intros Hne.
  destruct Hor as [Heq|?]; [|done]. destruct removed as [|x r]; [done|]. exists x.
  split; [apply list_elem_of_here|]. pose proof (Hall x (list_elem_of_here _ _)). pose proof (Nonce_range x). lia.
Qed.

(** What the two passes of [Filter] leave. *)
Definition keeps (m m' : txSortedMap Tx) (P : Tx -> Prop) : Prop :=
  sm_ok m' /\ forall n tx, items m' !! n = Some tx <-> items m !! n = Some tx /\ P tx.

Lemma sm_Filter_keeps m f : sm_ok m -> keeps m (sm_Filter m f).2 (fun tx => f tx = false).
Proof.
  intros Hm. destruct (sm_Filter_ok m f Hm) as (Hok & Hit & _). split; [done|]. intros n tx.
  rewrite Hit, map_lookup_filter_Some. done.
Qed.

(** Cutting a gapless list above a nonce leaves it gapless. *)
Lemma gapless_cut m m' P : gapless m -> keeps m m' P -> (exists cut, forall n tx, items m !! n = Some tx -> P tx <-> n < cut) ->
  gapless m'.
Proof.
  intros Hg [_ Hk] (cut & Hcut) a b c [ta Ha%Hk] [tc Hc%Hk] Habc. destruct Ha as [Ha Pa], Hc as [Hc Pc].
  destruct (Hg a b c ltac:(by rewrite Ha) ltac:(by rewrite Hc) Habc) as [tb Hb]. exists tb. apply Hk. split; [done|].
  apply (Hcut b tb Hb). apply (Hcut c tc Hc) in Pc. lia.
Qed.

Lemma capped_keeps m m' p (P : Tx -> Prop) : capped m p -> (forall n tx, items m' !! n = Some tx -> items m !! n = Some tx) -> capped m' p.
Proof. intros Hc Hs n tx Hl. by eapply Hc, Hs. Qed.

Lemma below_sub (m : gmap Z Tx) c n tx : below m c !! n = Some tx -> m !! n = Some tx.
Proof. rewrite below_lookup. by case_decide. Qed.
Lemma above_sub (m : gmap Z Tx) c n tx : above m c !! n = Some tx -> m !! n = Some tx.
Proof. rewrite above_lookup. by case_decide. Qed.

(** The cases of [Filter]. *)
Lemma Filter_cases l p : list_ok l -> exists removed invalids m',
  Filter l p = (removed, invalids, mkTxList (strict l) m' (if l_priority l <=? p then l_priority l else p)) /\
  (forall tx, tx ∈ removed <-> items (txs l) !! Nonce tx = Some tx /\ p < GetPriority tx) /\
  (strict l = false -> invalids = []) /\
  keeps (txs l) m' (fun tx => if strict l then forall x, x ∈ removed -> Nonce tx < Nonce x else GetPriority tx <= p) /\
  (forall tx, tx ∈ invalids <-> strict l = true /\ items (txs l) !! Nonce tx = Some tx /\ GetPriority tx <= p /\
     exists x, x ∈ removed /\ Nonce x < Nonce tx).
Proof.
  intros [Hok Hcap]. unfold Filter. destruct (Z.leb_spec (l_priority l) p) as [Hle|Hgt].
  { exists [], [], (txs l). split_and!; try done.
    - by destruct l.
    - intros tx. rewrite elem_of_nil. split; [done|]. intros [Hl Hp]. specialize (Hcap _ _ Hl). lia.
    - split; [done|]. intros n tx. split; [|by intros [? _]]. intros Hl. split; [done|]. destruct (strict l); [by intros x ?%elem_of_nil|].
      specialize (Hcap _ _ Hl). lia.
    - intros tx. rewrite elem_of_nil. split; [done|]. by intros (_ & _ & _ & x & ?%elem_of_nil & _). }
  destruct (sm_Filter_ok (txs l) (fun tx => p <? GetPriority tx) Hok) as (Hok1 & _ & _ & Hrm).
  pose proof (sm_Filter_keeps (txs l) (fun tx => p <? GetPriority tx) Hok) as [_ Hk1].
  destruct (sm_Filter (txs l) (fun tx => p <? GetPriority tx)) as [removed m1]. simpl in *.
  assert (forall tx, tx ∈ removed <-> items (txs l) !! Nonce tx = Some tx /\ p < GetPriority tx) as Hrm'.
  { intros tx. rewrite Hrm, Z.ltb_lt. done. }
  assert (forall n tx, items m1 !! n = Some tx <-> items (txs l) !! n = Some tx /\ GetPriority tx <= p) as Hk1'.
  { intros n tx. rewrite Hk1, Z.ltb_ge. done. }
  destruct (strict l && negb (length removed =? 0)%nat) eqn:Hs.
  2:{ exists removed, [], m1. split_and!; try done.
      - split; [done|]. intros n tx. rewrite Hk1'. destruct (strict l); [|done]. destruct removed; [|done]. split; intros [Hl Hp]; split; try done.
        + by intros x ?%elem_of_nil.
        + destruct (decide (GetPriority tx <= p)); [done|]. exfalso. apply (not_elem_of_nil tx). apply Hrm'.
          rewrite (io_nonce _ _ (ok_index _ Hok) _ _ Hl). split; [done|lia].
      - intros tx. rewrite elem_of_nil. split; [done|]. intros (Hst & _ & _ & x & Hx & _). rewrite Hst in Hs.
        destruct removed; [by apply elem_of_nil in Hx|done]. }
  apply andb_true_iff in Hs as [Hst Hne]. destruct (lowest_nonce_spec removed) as [Hlo (x & Hx & Hxl)].
  { by destruct removed. }
  destruct (sm_Filter_ok m1 (fun tx => lowest_nonce removed <? Nonce tx) Hok1) as (Hok2 & _ & _ & Hinv).
  pose proof (sm_Filter_keeps m1 (fun tx => lowest_nonce removed <? Nonce tx) Hok1) as [_ Hk2].
  destruct (sm_Filter m1 _) as [invalids m2]. simpl in *. exists removed, invalids, m2. rewrite Hst.
  split_and!; try done.
  - split; [done|]. intros n tx. rewrite Hk2, Hk1', Z.ltb_ge. split.
    + intros [[Hl Hp] Hn]. split; [done|]. intros y Hy. specialize (Hlo y Hy). assert (Nonce tx <> Nonce x); [|lia].
      intros He. apply Hrm' in Hx as [Hlx Hpx]. rewrite <- He, (io_nonce _ _ (ok_index _ Hok) _ _ Hl) in Hlx. simplify_eq. lia.
    + intros [Hl Hall]. pose proof (Hall x Hx). split; [|lia]. split; [done|].
      destruct (decide (GetPriority tx <= p)); [done|]. assert (tx ∈ removed) as Hin.
      { apply Hrm'. rewrite (io_nonce _ _ (ok_index _ Hok) _ _ Hl). split; [done|lia]. }
      specialize (Hall tx Hin). lia.
  - intros tx. rewrite Hinv, Hk1', Z.ltb_lt. split.
    + intros [[Hl Hp] Hn]. split_and!; try done. exists x. split; [done|lia].
    + intros (_ & Hl & Hp & y & Hy & Hn). split; [done|]. specialize (Hlo y Hy). lia.
Qed.

Lemma keeps_list_ok l m' (P : Tx -> Prop) b : list_ok l -> keeps (txs l) m' P -> list_ok (mkTxList b m' (l_priority l)).
Proof. intros [Hok Hc] [Hm' Hk]. split; [done|]. intros n tx Hl%Hk. destruct Hl as [Hl _]. exact (Hc n tx Hl). Qed.

(** *** What an operation takes out of a list *)

Record extracts (l l' : txList) (R : list Tx) : Prop := {
  ex_ok : list_ok l';
  ex_strict : strict l' = strict l;
  ex_sub n tx : items (txs l') !! n = Some tx -> items (txs l) !! n = Some tx;
  ex_out tx : tx ∈ R <-> items (txs l) !! Nonce tx = Some tx /\ items (txs l') !! Nonce tx = None;
  ex_nodup : NoDup (Nonce <$> R);
}.

Lemma list_nonce l n tx : list_ok l -> items (txs l) !! n = Some tx -> Nonce tx = n.
Proof. intros [Hok _]. apply (io_nonce _ _ (ok_index _ Hok)). Qed.

Lemma Len_size l : Len l = size (items (txs l)).
Proof. unfold Len, sm_Len. by rewrite length_map_to_list. Qed.

Lemma Empty_spec l : Empty l = true <-> items (txs l) = ∅.
Proof. unfold Empty. rewrite Nat.eqb_eq, Len_size. split; [apply map_size_empty_inv|intros ->; apply map_size_empty]. Qed.

Lemma ssorted_nodup R : ssorted R -> NoDup (Nonce <$> R).
Proof.
  induction 1 as [|a l Hs IH Ha]; [constructor|]. simpl. apply NoDup_cons. split; [|done].
  rewrite list_elem_of_fmap. intros (x & He & Hx). rewrite Forall_forall in Ha. specialize (Ha x Hx). lia.
Qed.

(** The transactions of a list by nonce. *)
Definition keyed (R : list Tx) : gmap Z Tx := list_to_map ((fun tx => (Nonce tx, tx)) <$> R).

Lemma keyed_lookup R n tx : NoDup (Nonce <$> R) -> keyed R !! n = Some tx <-> tx ∈ R /\ Nonce tx = n.
Proof.
  intros Hnd. unfold keyed. rewrite <- elem_of_list_to_map by by rewrite <- list_fmap_compose.
  rewrite list_elem_of_fmap. split; [intros (x & [= -> ->] & Hx)|intros [Hx <-]]; by eauto.
Qed.

Lemma extracts_Len l l' R : list_ok l -> extracts l l' R -> Len l = (Len l' + length R)%nat.
Proof.
  intros Hl [Hok' _ Hsub Hout Hnd].
  assert (items (txs l') ##ₘ keyed R) as Hdis.
  { apply map_disjoint_spec. intros n x y Hx Hy. apply keyed_lookup in Hy as [Hy <-]; [|done].
    apply Hout in Hy as [_ Hy]. congruence. }
  rewrite !Len_size. replace (items (txs l)) with (items (txs l') ∪ keyed R).
  - rewrite map_size_disj_union by done. f_equal. unfold keyed.
    rewrite <- length_map_to_list, map_to_list_to_map; [by rewrite length_fmap|]. by rewrite <- list_fmap_compose.
  - apply map_eq. intros n. apply option_eq. intros tx. rewrite lookup_union_Some by done. rewrite keyed_lookup by done. split.
    + intros [?|[Hx <-]]; [by apply Hsub|by apply Hout].
    + intros Hn. pose proof (list_nonce _ _ _ Hl Hn) as Hnc. destruct (items (txs l') !! n) as [x|] eqn:Hx.
      * left. specialize (Hsub n x Hx). congruence.
      * right. split; [|done]. apply Hout. by rewrite Hnc.
Qed.

(** [R] lists a part of the list, up to order, and [m'] is the rest. *)
Lemma extracts_part l m' part R R' : list_ok l -> sm_ok m' -> R ≡ₚ R' -> listing part R' ->
  (forall n, items (txs l) !! n = match part !! n with Some tx => Some tx | None => items m' !! n end) ->
  (forall n, is_Some (part !! n) -> items m' !! n = None) -> extracts l (with_txs l m') R.
Proof.
  intros Hl Hm Hp [Hs Hi] Hits Hdis.
  assert (forall n tx, items m' !! n = Some tx -> items (txs l) !! n = Some tx) as Hsub.
  { intros n tx Hn. rewrite Hits. destruct (part !! n) eqn:Hpn; [|done]. rewrite (Hdis n) in Hn; [done|by rewrite Hpn]. }
  split; simpl; try done.
  - split; [done|]. simpl. intros n tx Hn. apply (proj2 Hl n tx). by apply Hsub.
  - intros tx. rewrite Hp, Hi, Hits. destruct (part !! Nonce tx) as [x|] eqn:Hpn.
    + split; [|by intros [? _]]. intros ?. split; [done|]. apply Hdis. by rewrite Hpn.
    + split; [done|]. intros [Ha Hb]. congruence.
  - rewrite Hp. by apply ssorted_nodup.
Qed.

Lemma below_above (m : gmap Z Tx) c n : m !! n = match below m c !! n with Some tx => Some tx | None => above m c !! n end.
Proof. rewrite below_lookup, above_lookup. case_decide; [|done]. by destruct (m !! n). Qed.

Lemma above_below (m : gmap Z Tx) c n : m !! n = match above m c !! n with Some tx => Some tx | None => below m c !! n end.
Proof. rewrite below_lookup, above_lookup. case_decide; [done|]. by destruct (m !! n). Qed.

Lemma not_above (m : gmap Z Tx) c n : is_Some (below m c !! n) -> above m c !! n = None.
Proof. rewrite below_lookup, above_lookup. case_decide; [done|]. by intros [? ?]. Qed.

Lemma not_below (m : gmap Z Tx) c n : is_Some (above m c !! n) -> below m c !! n = None.
Proof. rewrite below_lookup, above_lookup. case_decide; [|done]. by intros [? ?]. Qed.

Lemma Forward_extracts l t : list_ok l -> exists R l', Forward l t = Ok (R, l') /\ extracts l l' R /\
  items (txs l') = above (items (txs l)) t.
Proof.
  intros Hl. unfold Forward. destruct (sm_Forward_ok (txs l) t (proj1 Hl)) as (R & m' & -> & Hok & Hls & Hit).
  exists R, (with_txs l m'). split; [done|]. split; [|done].
  apply (extracts_part l m' (below (items (txs l)) t) R R Hl); try done; rewrite Hit; [apply below_above|apply not_above].
Qed.

Lemma extracts_none l : list_ok l -> extracts l (with_txs l (txs l)) [].
Proof.
  intros Hl. apply (extracts_part l (txs l) ∅ [] [] Hl (proj1 Hl) (Permutation_refl _)).
  - split; [constructor|]. intros tx. rewrite elem_of_nil, lookup_empty. done.
  - intros n. by rewrite lookup_empty.
  - intros n. rewrite lookup_empty. by intros [? ?].
Qed.

Lemma Cap_extracts l k : list_ok l -> exists R l', Cap l k = Ok (R, l') /\ extracts l l' R /\
  ((Len l <= k)%nat /\ R = [] /\ items (txs l') = items (txs l) \/
   (k < Len l)%nat /\ Len l' = k /\ exists c, items (txs l') = below (items (txs l)) c).
Proof.
  intros Hl. unfold Cap. destruct (sm_Cap_ok (txs l) k (proj1 Hl)) as (R & m' & -> & Hok & Hcase).
  exists R, (with_txs l m'). split; [done|]. destruct Hcase as [(Hk & -> & ->)|(Hk & Hlen & c & Hit & Hls)].
  - split; [by apply extracts_none|by left].
  - split; [|right; split_and!; try done; by exists c].
    apply (extracts_part l m' (above (items (txs l)) c) R (rev R) Hl Hok (Permutation_rev R) Hls); rewrite Hit;
      [apply above_below|apply not_below].
Qed.

(** The run that [Ready] takes starts at the lowest nonce, if that is at most [start]. *)
Lemma Ready_extracts l start : list_ok l -> exists R l', Ready l start = Ok (R, l') /\ extracts l l' R /\ ssorted R /\
  ((forall n, is_Some (items (txs l) !! n) -> start < n) /\ R = [] /\ items (txs l') = items (txs l) \/
   exists first, is_Some (items (txs l) !! first) /\ first <= start /\ (forall n, is_Some (items (txs l) !! n) -> first <= n) /\
     let stop := first + Z.of_nat (length R) in
     (forall n, first <= n < stop -> is_Some (items (txs l) !! n)) /\ items (txs l) !! stop = None /\
     items (txs l') = above (items (txs l)) stop).
Proof.
  intros Hl. unfold Ready. destruct (sm_Ready_ok (txs l) start (proj1 Hl)) as (R & m' & -> & Hok & Hcase).
  exists R, (with_txs l m'). split; [done|]. destruct Hcase as [(Hlt & -> & ->)|(first & Hf & Hle & Hmin & Hrun & Hst & Hls & Hit)].
  - split; [by apply extracts_none|]. split; [constructor|by left].
  - split; [|split; [apply Hls|right; exists first; by split_and!]].
    apply (extracts_part l m' _ R R Hl Hok (Permutation_refl _) Hls); rewrite Hit; [apply below_above|apply not_above].
Qed.

Lemma Remove_extracts l tx : list_ok l -> exists inv l',
  RemoveTx l tx = Ok (bool_decide (is_Some (items (txs l) !! Nonce tx)), inv, l') /\
  extracts l l' (match items (txs l) !! Nonce tx with Some old => old :: inv | None => [] end) /\
  (strict l = false -> inv = []) /\
  items (txs l') = match items (txs l) !! Nonce tx with
                   | Some _ => if strict l then below (items (txs l)) (Nonce tx) else delete (Nonce tx) (items (txs l))
                   | None => items (txs l)
                   end.
Proof.
  intros Hl. pose proof Hl as [Hok Hc]. unfold RemoveTx. destruct (sm_Remove_ok (txs l) (Nonce tx) Hok) as (m & -> & Hokm & Hit). simpl.
  destruct (items (txs l) !! Nonce tx) as [old|] eqn:Hold.
  2:{ rewrite bool_decide_false by (by intros [? ?]). exists [], (with_txs l m). rewrite delete_id in Hit by done.
      split_and!; try done. split; simpl; try done.
      - split; [done|]. intros n x. simpl. rewrite Hit. apply Hc.
      - intros n x. by rewrite Hit.
      - intros x. rewrite elem_of_nil, Hit. split; [done|]. intros [? ?]. congruence.
      - constructor. }
  pose proof (list_nonce _ _ _ Hl Hold) as Hno. rewrite bool_decide_true by done. destruct (strict l) eqn:Hst.
  - pose proof (sm_Filter_ok m (fun x => Nonce tx <? Nonce x) Hokm) as Hf. simpl in Hf.
    destruct (sm_Filter m (fun x => Nonce tx <? Nonce x)) as [inv m2] eqn:Hfe. destruct Hf as (Hokf & Hitf & Hnd & Hin). simpl in *.
    assert (items m2 = below (items (txs l)) (Nonce tx)) as Hit2.
    { apply map_eq. intros n. apply option_eq. intros x. rewrite Hitf, map_lookup_filter_Some, Hit, lookup_delete_Some. simpl.
      rewrite below_lookup, Z.ltb_ge. split.
      - intros [[Hne Hn] Hle]. rewrite (list_nonce _ _ _ Hl Hn) in Hle. rewrite decide_True by lia. done.
      - case_decide; [|done]. intros Hn. rewrite (list_nonce _ _ _ Hl Hn). split; [split; [lia|done]|lia]. }
    exists inv, (with_txs l m2). split_and!; try done. split; simpl; try done.
    + split; [done|]. intros n x. simpl. rewrite Hit2. intros Hn%below_sub. by eapply Hc.
    + intros n x. rewrite Hit2. apply below_sub.
    + intros x. rewrite elem_of_cons, Hin, Hit2, Hit, lookup_delete_Some, Z.ltb_lt, below_lookup. split.
      * intros [->|[[Hne Hx] Hlt]]; [rewrite Hno; split; [done|by rewrite decide_False by lia]|].
        split; [done|]. by rewrite decide_False by lia.
      * case_decide; [intros [? ?]; congruence|]. intros [Hx _]. destruct (decide (Nonce x = Nonce tx)) as [He|].
        -- left. rewrite He in Hx. congruence.
        -- right. split; [split; [done|done]|lia].
    + apply NoDup_cons. split.
      * rewrite list_elem_of_fmap. intros (x & He & [_ Hx%Z.ltb_lt]%Hin). lia.
      * apply NoDup_fmap_2_strong; [|done]. intros x y [Hx _]%Hin [Hy _]%Hin Hxy. rewrite Hxy in Hx. congruence.
  - exists [], (with_txs l m). split_and!; try done. split; simpl; try done.
    + split; [done|]. intros n x. simpl. rewrite Hit. intros [_ Hn]%lookup_delete_Some. by eapply Hc.
    + intros n x. rewrite Hit. by intros [_ Hn]%lookup_delete_Some.
    + intros x. rewrite list_elem_of_singleton, Hit. split.
      * intros ->. rewrite Hno. split; [done|]. apply lookup_delete_eq.
      * rewrite lookup_delete_None. intros [Hx [He|?]]; [rewrite <- He in Hx|]; congruence.
    + repeat constructor. by intros ?%elem_of_nil.
Qed.

Lemma Add_free l tx : list_ok l -> items (txs l) !! Nonce tx = None ->
  exists l', Add l tx = (true, None, l') /\ list_ok l' /\ strict l' = strict l /\
  items (txs l') = <[Nonce tx := tx]> (items (txs l)).
Proof.
  intros [Hok Hc] Hn. unfold Add, sm_Get. rewrite Hn. eexists. split; [done|]. split_and!; try done.
  split; [by apply sm_Put_ok|]. simpl. intros n x.
  change (items (sm_Put (txs l) tx)) with (<[Nonce tx := tx]> (items (txs l))). intros [[<- <-]|[_ Hx]]%lookup_insert_Some.
  - destruct (Z.ltb_spec (l_priority l) (GetPriority tx)); lia.
  - specialize (Hc _ _ Hx). destruct (Z.ltb_spec (l_priority l) (GetPriority tx)); lia.
Qed.

Lemma Add_taken l tx o : list_ok l -> items (txs l) !! Nonce tx = Some o ->
  Add l tx = (false, None, l) /\ GetPriority tx <= GetPriority o \/
  exists l', Add l tx = (true, Some o, l') /\ GetPriority o < GetPriority tx /\ list_ok l' /\ strict l' = strict l /\
  items (txs l') = <[Nonce tx := tx]> (items (txs l)).
Proof.
  intros [Hok Hc] Hn. unfold Add, sm_Get. rewrite Hn. destruct (Z.leb_spec (GetPriority tx) (GetPriority o)) as [Hle|Hgt]; [by left|].
  right. eexists. split; [done|]. split_and!; try done.
  split; [by apply sm_Put_ok|]. simpl. intros n x.
  change (items (sm_Put (txs l) tx)) with (<[Nonce tx := tx]> (items (txs l))). intros [[<- <-]|[_ Hx]]%lookup_insert_Some.
  - destruct (Z.ltb_spec (l_priority l) (GetPriority tx)); lia.
  - specialize (Hc _ _ Hx). destruct (Z.ltb_spec (l_priority l) (GetPriority tx)); lia.
Qed.

Lemma Flatten_extracts l : list_ok l -> let r := Flatten l in list_ok r.2 /\ strict r.2 = strict l /\
  items (txs r.2) = items (txs l) /\ listing (items (txs l)) r.1.
Proof.
  intros [Hok Hc]. unfold Flatten. pose proof (sm_Flatten_ok (txs l) Hok) as Hf.
  destruct (sm_Flatten (txs l)) as [r m]. simpl in *. destruct Hf as (Hm & Hit & Hl). split_and!; try done.
  split; [done|]. intros n tx. simpl. rewrite Hit. apply Hc.
Qed.

(** ** Claims *)

(** [Forward(threshold)] removes exactly the transactions below the threshold,
    returns them by increasing nonce and keeps the others, with the heap and the
    cached order in step. *)
Theorem txList_Forward l threshold : list_ok l -> exists removed l',
  Forward l threshold = Ok (removed, l') /\ list_ok l' /\
  listing (below (items (txs l)) threshold) removed /\ items (txs l') = above (items (txs l)) threshold.
Proof.
  intros [Hok Hc]. unfold Forward. destruct (sm_Forward_ok (txs l) threshold Hok) as (r & m' & -> & Hok' & Hl & Hit).
  exists r, (with_txs l m'). split_and!; try done. split; [done|]. simpl. intros n tx. rewrite Hit.
  intros Hn%above_sub. by eapply Hc.
Qed.

(** [Cap(threshold)] does nothing to a short list; on a longer one it keeps the
    [threshold] lowest nonces and returns the others, highest nonce first. *)
Theorem txList_Cap l threshold : list_ok l -> exists drops l',
  Cap l threshold = Ok (drops, l') /\ list_ok l' /\
  ((Len l <= threshold)%nat /\ drops = [] /\ txs l' = txs l \/
   (threshold < Len l)%nat /\ Len l' = threshold /\
   exists c, items (txs l') = below (items (txs l)) c /\ listing (above (items (txs l)) c) (rev drops)).
Proof.
  intros [Hok Hc]. unfold Cap. destruct (sm_Cap_ok (txs l) threshold Hok) as (r & m' & -> & Hok' & Hcase).
  exists r, (with_txs l m'). split; [done|]. split; [|destruct Hcase as [(? & ? & ->)|?]; [by left|by right]].
  split; [done|]. simpl. intros n tx Hl. destruct Hcase as [(_ & _ & ->)|(_ & _ & c & Hit & _)]; [by eapply Hc|].
  rewrite Hit in Hl. apply below_sub in Hl. by eapply Hc.
Qed.

(** C36: [Ready(start)] returns nothing when every nonce is above [start]; otherwise
    it removes and returns, in order, the longest run of consecutive nonces from
    the lowest one on, and keeps the others, even those below [start]. *)
Theorem txList_Ready l start : list_ok l -> exists ready l',
  Ready l start = Ok (ready, l') /\ list_ok l' /\
  ((forall n, is_Some (items (txs l) !! n) -> start < n) /\ ready = [] /\ txs l' = txs l \/
   exists first, is_Some (items (txs l) !! first) /\ first <= start /\
     (forall n, is_Some (items (txs l) !! n) -> first <= n) /\
     let stop := first + Z.of_nat (length ready) in
     (forall n, first <= n < stop -> is_Some (items (txs l) !! n)) /\ items (txs l) !! stop = None /\
     listing (below (items (txs l)) stop) ready /\ items (txs l') = above (items (txs l)) stop).
Proof.
  intros [Hok Hc]. unfold Ready. destruct (sm_Ready_ok (txs l) start Hok) as (r & m' & -> & Hok' & Hcase).
  exists r, (with_txs l m'). split; [done|]. split; [|destruct Hcase as [(? & ? & ->)|?]; [by left|by right]].
  split; [done|]. simpl. intros n tx Hl. destruct Hcase as [(_ & _ & ->)|(f & _ & _ & _ & _ & _ & _ & Hit)]; [by eapply Hc|].
  rewrite Hit in Hl. apply above_sub in Hl. by eapply Hc.
Qed.

(** [Filter(priority)], short circuit included, removes exactly the transactions
    above the priority; a strict list also gives up everything behind the first
    removed nonce, so that it stays gapless. *)
Theorem txList_Filter l p : list_ok l -> let '(removed, invalids, l') := Filter l p in
  list_ok l' /\ (forall tx, tx ∈ removed <-> items (txs l) !! Nonce tx = Some tx /\ p < GetPriority tx) /\
  capped (txs l') p /\ (strict l = false -> invalids = []) /\
  (strict l = true -> gapless (txs l) -> gapless (txs l')) /\
  (forall tx, items (txs l) !! Nonce tx = Some tx <->
     items (txs l') !! Nonce tx = Some tx \/ tx ∈ removed \/ tx ∈ invalids).
Proof.
  intros Hl. destruct (Filter_cases l p Hl) as (rm & inv & m' & -> & Hrm & Hns & Hk & Hinv). pose proof Hl as [Hok Hc].
  pose proof Hk as [Hok' Hk'].
  assert (capped m' p) as Hcp.
  { intros n tx Hn. destruct (decide (GetPriority tx <= p)); [done|]. exfalso. apply Hk' in Hn as [Hn HP].
    destruct (strict l); [|lia]. specialize (HP tx). rewrite Hrm, (io_nonce _ _ (ok_index _ Hok) _ _ Hn) in HP.
    specialize (HP ltac:(split; [done|lia])). lia. }
  simpl. split_and!; try done.
  - split; [done|]. simpl. destruct (Z.leb_spec (l_priority l) p); [|done]. intros n tx [Hn _]%Hk'. by eapply Hc.
  - intros Hst Hg. rewrite Hst in Hk. apply (gapless_cut _ _ _ Hg Hk).
    destruct (lowest_nonce_spec rm) as [Hlo Hex]. destruct (decide (rm = [])) as [->|Hne].
    + exists (2 ^ 64). intros n tx Hn. rewrite <- (io_nonce _ _ (ok_index _ Hok) _ _ Hn). pose proof (Nonce_range tx).
      split; [lia|]. by intros _ x ?%elem_of_nil.
    + destruct (Hex Hne) as (x & Hx & Hxl). exists (Nonce x). intros n tx Hn.
      rewrite <- (io_nonce _ _ (ok_index _ Hok) _ _ Hn). split; [by auto|]. intros Hlt y Hy. specialize (Hlo y Hy). lia.
  - intros tx. rewrite Hk', Hrm, Hinv. split; [|naive_solver]. intros Hn. destruct (decide (p < GetPriority tx)); [by right; left|].
    destruct (strict l); [|left; split; [done|lia]]. destruct (decide (Exists (fun x => Nonce x <= Nonce tx) rm)) as [He|He].
    + right; right. apply Exists_exists in He as (x & Hx & Hle). split_and!; try done; [lia|]. exists x. split; [done|].
      assert (Nonce x <> Nonce tx); [|lia]. intros He. apply Hrm in Hx as [Hlx Hpx]. rewrite He in Hlx. simplify_eq. lia.
    + left. split; [done|]. intros x Hx. destruct (decide (Nonce tx < Nonce x)); [done|]. destruct He. apply Exists_exists.
      exists x. split; [done|lia].
Qed.

(** [Add] accepts a transaction exactly when no transaction with its nonce has
    at least its priority; it returns the one it replaces and touches no other nonce. *)
Theorem txList_Add l tx : list_ok l -> let '(accepted, old, l') := Add l tx in
  list_ok l' /\
  (accepted = true <-> forall o, items (txs l) !! Nonce tx = Some o -> GetPriority o < GetPriority tx) /\
  (accepted = true -> old = items (txs l) !! Nonce tx /\ items (txs l') = <[Nonce tx := tx]> (items (txs l))) /\
  (accepted = false -> old = None /\ l' = l).
Proof.
  intros [Hok Hc]. unfold Add, sm_Get.
  destruct (items (txs l) !! Nonce tx) as [o|] eqn:Ho; [destruct (Z.leb_spec (GetPriority tx) (GetPriority o)) as [Hle|Hgt]|]; simpl.
  { split_and!; try done. split; [done|]. intros Hall. specialize (Hall o eq_refl). lia. }
  all: split; [split; [by apply sm_Put_ok|]|split_and!; try done].
  2: split; [|done]; intros _ o' [= <-]; lia.
  all: simpl; intros n x; change (items (sm_Put (txs l) tx)) with (<[Nonce tx := tx]> (items (txs l)));
    intros [[<- <-]|[_ Hl]]%lookup_insert_Some; [destruct (Z.ltb_spec (l_priority l) (GetPriority tx)); lia|];
    specialize (Hc _ _ Hl); destruct (Z.ltb_spec (l_priority l) (GetPriority tx)); lia.
Qed.

(** [Remove] reports whether the nonce was present; it removes that nonce, and
    in a strict list everything behind it, so that the list stays gapless. *)
Theorem txList_Remove l tx : list_ok l -> exists removed invalids l',
  RemoveTx l tx = Ok (removed, invalids, l') /\ list_ok l' /\
  removed = bool_decide (is_Some (items (txs l) !! Nonce tx)) /\
  items (txs l') = (if strict l && removed then below (items (txs l)) (Nonce tx) else delete (Nonce tx) (items (txs l))) /\
  (strict l = true -> gapless (txs l) -> gapless (txs l')).
Proof.
  intros [Hok Hc]. unfold RemoveTx. destruct (sm_Remove_ok (txs l) (Nonce tx) Hok) as (m & -> & Hokm & Hit). simpl.
  assert (capped m (l_priority l)) as Hcm by (intros n x; rewrite Hit; intros [_ Hn]%lookup_delete_Some; by eapply Hc).
  destruct (bool_decide (is_Some (items (txs l) !! Nonce tx))) eqn:Hb.
  2:{ exists false, [], (with_txs l m). rewrite andb_false_r. split_and!; try done. intros _ Hg a b c. simpl.
      apply bool_decide_eq_false in Hb. rewrite Hit, delete_id; [apply Hg|].
      destruct (items (txs l) !! Nonce tx); [by destruct Hb|done]. }
  destruct (strict l) eqn:Hst; [|by exists true, [], (with_txs l m)].
  destruct (sm_Filter_ok m (fun x => Nonce tx <? Nonce x) Hokm) as (Hokf & Hitf & _).
  destruct (sm_Filter m (fun x => Nonce tx <? Nonce x)) as [inv m2]. simpl in *.
  assert (items m2 = below (items (txs l)) (Nonce tx)) as Hit2.
  { apply map_eq. intros n. apply option_eq. intros x. rewrite Hitf, map_lookup_filter_Some, Hit, lookup_delete_Some. simpl.
    rewrite below_lookup, Z.ltb_ge. split.
    - intros [[Hne Hl] Hle]. rewrite (io_nonce _ _ (ok_index _ Hok) _ _ Hl) in Hle. rewrite decide_True by lia. done.
    - case_decide; [|done]. intros Hl. rewrite (io_nonce _ _ (ok_index _ Hok) _ _ Hl). split; [split; [lia|done]|lia]. }
  exists true, inv, (with_txs l m2). split_and!; try done.
  - split; [done|]. simpl. intros n x. rewrite Hit2. intros Hn%below_sub. by eapply Hc.
  - intros _ Hg a b c. simpl. rewrite Hit2, !below_lookup. repeat case_decide; try (by intros [? ?]); try (by intros _ [? ?]).
    + intros Ha Hc' Habc. by apply (Hg a b c).
    + intros _ _ ?. lia.
Qed.

End TxList.
Arguments txList : clear implicits.

(** ** The priority heap of the pool *)

Section PriorityList.
Context {Tx : Type} `{TxView Tx} `{!Inhabited Tx}.
(** [l.all], the pool's map of known transactions, and the local accounts. *)
Context (all : gmap Hash Tx) (containsTx : Tx -> bool).
Implicit Types (tx : Tx).

Definition p_less (a b : Tx) : bool := GetPriority a <? GetPriority b.
#[local] Instance p_StrictOrder : StrictOrder_ p_less.
Proof. split; unfold p_less; intros; lia. Qed.

Record txPriorityList : Type := mkPL { pl_items : list Tx; stales : Z }.

Definition newTxPriorityList : txPriorityList := mkPL [] 0.
Definition pl_Put (l : txPriorityList) tx : txPriorityList := mkPL (Push p_less (pl_items l) tx) (stales l).

Definition Removed (l : txPriorityList) : txPriorityList :=
  let st := stales l + 1 in
  if st <=? Z.of_nat (length (pl_items l)) / 4 then mkPL (pl_items l) st
  else mkPL (Init p_less (map_to_list all).*2) 0.

Definition live tx : bool := match all !! TxHash tx with Some _ => true | None => false end.

Definition push_all (save : list Tx) (h : list Tx) : list Tx := fold_left (Push p_less) save h.

Fixpoint pcap_loop (fuel : nat) (threshold : Z) (h : list Tx) (st : Z) (drop save : list Tx)
    : outcome unit (list Tx * Z * list Tx * list Tx) :=
  match fuel with
  | O => OutOfFuel
  | S fuel =>
      match h with
      | [] => Ok (h, st, drop, save)
      | _ =>
          '(tx, h) ← of_index (Pop p_less h);
          if negb (live tx) then pcap_loop fuel threshold h (st - 1) drop save
          else if threshold <=? GetPriority tx then Ok (h, st, drop, save ++ [tx])
          else if containsTx tx then pcap_loop fuel threshold h st drop (save ++ [tx])
          else pcap_loop fuel threshold h st (drop ++ [tx]) save
      end
  end.

Definition pl_Cap (l : txPriorityList) (threshold : Z) : outcome unit (list Tx * txPriorityList) :=
  '(h, st, drop, save) ← pcap_loop (S (length (pl_items l))) threshold (pl_items l) (stales l) [] [];
  Ok (drop, mkPL (push_all save h) st).

Fixpoint stale_loop (fuel : nat) (h : list Tx) (st : Z) : outcome unit (list Tx * Z) :=
  match fuel with
  | O => OutOfFuel
  | S fuel =>
      match h with
      | [] => Ok (h, st)
      | head :: _ =>
          if live head then Ok (h, st)
          else '(_, h) ← of_index (Pop p_less h); stale_loop fuel h (st - 1)
      end
  end.

Definition Underpriority (l : txPriorityList) tx : outcome unit (bool * txPriorityList) :=
  if containsTx tx then Ok (false, l)
  else
    '(h, st) ← stale_loop (S (length (pl_items l))) (pl_items l) (stales l);
    match h with
    | [] => Ok (false, mkPL h st)
    | cheapest :: _ => Ok (GetPriority tx <=? GetPriority cheapest, mkPL h st)
    end.

Fixpoint discard_loop (fuel count : nat) (h : list Tx) (st : Z) (drop save : list Tx)
    : outcome unit (list Tx * Z * list Tx * list Tx) :=
  match fuel with
  | O => OutOfFuel
  | S fuel =>
      match h, count with
      | [], _ | _, O => Ok (h, st, drop, save)
      | _, S count' =>
          '(tx, h) ← of_index (Pop p_less h);
          if negb (live tx) then discard_loop fuel count h (st - 1) drop save
          else if containsTx tx then discard_loop fuel count h st drop (save ++ [tx])
          else discard_loop fuel count' h st (drop ++ [tx]) save
      end
  end.

Definition Discard (l : txPriorityList) (count : nat) : outcome unit (list Tx * txPriorityList) :=
  '(h, st, drop, save) ← discard_loop (S (length (pl_items l))) count (pl_items l) (stales l) [] [];
  Ok (drop, mkPL (push_all save h) st).

(** *** Invariant: the items are a heap. *)

Definition pl_ok (l : txPriorityList) : Prop := heap_from p_less 0 (pl_items l) (length (pl_items l)).

Lemma pl_Put_ok l tx : pl_ok l -> pl_ok (pl_Put l tx).
Proof. intros Hl. exact (proj1 (Push_spec p_less (pl_items l) tx Hl)). Qed.

Lemma Removed_ok l : pl_ok l -> pl_ok (Removed l).
Proof. intros Hl. unfold Removed. destruct (_ <=? _); [exact Hl|]. apply Init_spec, _. Qed.

Lemma push_all_spec save h : heap_from p_less 0 h (length h) ->
  heap_from p_less 0 (push_all save h) (length (push_all save h)) /\ push_all save h ≡ₚ save ++ h.
Proof.
  revert h. induction save as [|x save IH]; intros h Hh; [done|]. simpl.
  destruct (Push_spec p_less h x Hh) as [Hp Hperm]. destruct (IH _ Hp) as [Hf Hpf]. split; [done|].
  unfold push_all in *. simpl. rewrite Hpf, Hperm. by rewrite Permutation_middle.
Qed.

Lemma pop_cases h : heap_from p_less 0 h (length h) -> h <> [] -> exists tx h', Pop p_less h = Some (tx, h') /\
  heap_from p_less 0 h' (length h') /\ h ≡ₚ tx :: h' /\ (forall y, y ∈ h' -> GetPriority tx <= GetPriority y) /\
  head h = Some tx /\ length h = S (length h').
Proof.
  intros Hh Hne. destruct (Pop_spec p_less h Hh Hne) as (h' & Hp & Hh' & Hperm & Hmin).
  exists (h !!! 0%nat), h'. split_and!; try done.
  - intros y Hy. specialize (Hmin y Hy). unfold p_less in Hmin. lia.
  - by destruct h.
  - by apply Permutation_length in Hperm.
Qed.

(** What a draining loop did with the heap [h]: [d] dropped, [sv] saved, [z] stale
    entries thrown away, [h'] left. *)
Record drained (h h' d sv z : list Tx) : Prop := {
  dr_heap : heap_from p_less 0 h' (length h');
  dr_perm : h ≡ₚ h' ++ d ++ sv ++ z;
  dr_drop tx : tx ∈ d -> live tx = true /\ containsTx tx = false;
  dr_save tx : tx ∈ sv -> live tx = true;
  dr_stale tx : tx ∈ z -> live tx = false;
  dr_order x y : x ∈ d -> y ∈ h' -> GetPriority x <= GetPriority y;
}.

Lemma drained_nil h : heap_from p_less 0 h (length h) -> drained h h [] [] [].
Proof. intros Hh. split; try done; [by rewrite !app_nil_r|set_solver..]. Qed.

(** One more popped transaction, stale, saved or dropped. *)
Lemma drained_pop h h1 tx h' d sv z : h ≡ₚ tx :: h1 -> (forall y, y ∈ h1 -> GetPriority tx <= GetPriority y) ->
  drained h1 h' d sv z ->
  (live tx = false -> drained h h' d sv (tx :: z)) /\
  (live tx = true -> drained h h' d (tx :: sv) z) /\
  (live tx = true -> containsTx tx = false -> drained h h' (tx :: d) sv z).
Proof.
  intros Hp Hmin [Hh Hperm Hd Hs Hz Ho]. split_and!; intros Hl; [split..|intros Hr; split]; try done.
  - rewrite Hp, Hperm, !app_assoc. apply Permutation_middle.
  - intros x [->|Hx]%elem_of_cons; auto.
  - rewrite Hp, Hperm, !(app_assoc h' d). apply (Permutation_middle (h' ++ d) (sv ++ z) tx).
  - intros x [->|Hx]%elem_of_cons; auto.
  - rewrite Hp, Hperm. apply (Permutation_middle h' (d ++ sv ++ z) tx).
  - intros x [->|Hx]%elem_of_cons; auto.
  - intros x y [->|Hx]%elem_of_cons Hy; [|auto]. apply Hmin. rewrite Hperm. apply elem_of_app. by left.
Qed.

Lemma discard_loop_spec fuel : forall count h st dr0 sv0, (length h < fuel)%nat -> heap_from p_less 0 h (length h) ->
  exists h' d sv z, discard_loop fuel count h st dr0 sv0 = Ok (h', st - Z.of_nat (length z), dr0 ++ d, sv0 ++ sv) /\
    drained h h' d sv z /\ (forall tx, tx ∈ sv -> containsTx tx = true) /\
    (length d <= count)%nat /\ (length d = count \/ h' = []).
Proof.
  induction fuel as [|fuel IH]; intros count h st dr0 sv0 Hf Hh; [lia|]. cbn [discard_loop].
  assert ((h = [] \/ count = 0%nat) -> exists h' d sv z, Ok (E := unit) (h, st, dr0, sv0) =
      Ok (h', st - Z.of_nat (length z), dr0 ++ d, sv0 ++ sv) /\ drained h h' d sv z /\
      (forall tx, tx ∈ sv -> containsTx tx = true) /\ (length d <= count)%nat /\ (length d = count \/ h' = [])) as Hstop.
  { intros Hc. exists h, [], [], []. rewrite !app_nil_r. split; [simpl; by rewrite Z.sub_0_r|].
    split; [by apply drained_nil|]. split; [by intros ? ?%elem_of_nil|]. split; [simpl; lia|].
    destruct Hc as [-> | ->]; [by right|by left]. }
  destruct h as [|x h0]; [by apply Hstop; left|]. destruct count as [|count]; [by apply Hstop; right|].
  set (h := x :: h0) in *. destruct (pop_cases h Hh ltac:(done)) as (tx & h1 & -> & Hh1 & Hp & Hmin & _ & Hlen).
  simpl. destruct (live tx) eqn:Hl; simpl; [destruct (containsTx tx) eqn:Hc|].
  - destruct (IH (S count) h1 st dr0 (sv0 ++ [tx]) ltac:(lia) Hh1) as (h' & d & sv & z & -> & Hd & Hsv & Hle & Hor).
    destruct (drained_pop h h1 tx h' d sv z Hp Hmin Hd) as (_ & Hs & _).
    exists h', d, (tx :: sv), z. rewrite <- app_assoc. split_and!; try done; [by apply Hs|].
    intros y [->|Hy]%elem_of_cons; auto.
  - destruct (IH count h1 st (dr0 ++ [tx]) sv0 ltac:(lia) Hh1) as (h' & d & sv & z & -> & Hd & Hsv & Hle & Hor).
    destruct (drained_pop h h1 tx h' d sv z Hp Hmin Hd) as (_ & _ & Hs).
    exists h', (tx :: d), sv, z. rewrite <- app_assoc. split_and!; try done; [by apply Hs|simpl; lia|].
    destruct Hor as [<-|?]; [by left|by right].
  - destruct (IH (S count) h1 (st - 1) dr0 sv0 ltac:(lia) Hh1) as (h' & d & sv & z & -> & Hd & Hsv & Hle & Hor).
    destruct (drained_pop h h1 tx h' d sv z Hp Hmin Hd) as (Hs & _ & _).
    exists h', d, sv, (tx :: z). split_and!; try done; [|by apply Hs]. simpl. f_equal. f_equal. f_equal. f_equal. lia.
Qed.

Lemma pcap_loop_spec threshold fuel : forall h st dr0 sv0, (length h < fuel)%nat -> heap_from p_less 0 h (length h) ->
  exists h' d sv z, pcap_loop fuel threshold h st dr0 sv0 = Ok (h', st - Z.of_nat (length z), dr0 ++ d, sv0 ++ sv) /\
    drained h h' d sv z /\ (forall tx, tx ∈ sv -> containsTx tx = true \/ threshold <= GetPriority tx) /\
    (forall tx, tx ∈ d -> GetPriority tx < threshold) /\ (forall tx, tx ∈ h' -> threshold <= GetPriority tx).
Proof.
  induction fuel as [|fuel IH]; intros h st dr0 sv0 Hf Hh; [lia|]. cbn [pcap_loop].
  destruct h as [|x h0].
  { exists [], [], [], []. rewrite !app_nil_r. split; [simpl; by rewrite Z.sub_0_r|].
    split_and!; [by apply drained_nil|by intros ? ?%elem_of_nil..]. }
  set (h := x :: h0) in *. destruct (pop_cases h Hh ltac:(done)) as (tx & h1 & -> & Hh1 & Hp & Hmin & _ & Hlen).
  simpl. destruct (live tx) eqn:Hl; simpl.
  2:{ destruct (IH h1 (st - 1) dr0 sv0 ltac:(lia) Hh1) as (h' & d & sv & z & -> & Hd & Hsv & Hdr & Hge).
      destruct (drained_pop h h1 tx h' d sv z Hp Hmin Hd) as (Hs & _ & _).
      exists h', d, sv, (tx :: z). split_and!; try done; [|by apply Hs]. simpl. f_equal. f_equal. f_equal. f_equal. lia. }
  destruct (Z.leb_spec threshold (GetPriority tx)) as [Hth|Hth].
  { destruct (drained_pop h h1 tx h1 [] [] [] Hp Hmin (drained_nil h1 Hh1)) as (_ & Hs & _).
    exists h1, [], [tx], []. rewrite app_nil_r. split; [simpl; by rewrite Z.sub_0_r|]. split_and!; [by apply Hs|..].
    - intros y ->%list_elem_of_singleton. by right.
    - by intros ? ?%elem_of_nil.
    - intros y Hy. specialize (Hmin y Hy). lia. }
  destruct (containsTx tx) eqn:Hc.
  - destruct (IH h1 st dr0 (sv0 ++ [tx]) ltac:(lia) Hh1) as (h' & d & sv & z & -> & Hd & Hsv & Hdr & Hge).
    destruct (drained_pop h h1 tx h' d sv z Hp Hmin Hd) as (_ & Hs & _).
    exists h', d, (tx :: sv), z. rewrite <- app_assoc. split_and!; try done; [by apply Hs|].
    intros y [->|Hy]%elem_of_cons; auto.
  - destruct (IH h1 st (dr0 ++ [tx]) sv0 ltac:(lia) Hh1) as (h' & d & sv & z & -> & Hd & Hsv & Hdr & Hge).
    destruct (drained_pop h h1 tx h' d sv z Hp Hmin Hd) as (_ & _ & Hs).
    exists h', (tx :: d), sv, z. rewrite <- app_assoc. split_and!; try done; [by apply Hs|].
    intros y [->|Hy]%elem_of_cons; auto.
Qed.

Lemma stale_loop_spec fuel : forall h st, (length h < fuel)%nat -> heap_from p_less 0 h (length h) ->
  exists h' z, stale_loop fuel h st = Ok (h', st - Z.of_nat (length z)) /\ heap_from p_less 0 h' (length h') /\
    h ≡ₚ h' ++ z /\ (forall tx, tx ∈ z -> live tx = false) /\
    (h' = [] \/ exists x, head h' = Some x /\ live x = true /\ forall y, y ∈ h' -> GetPriority x <= GetPriority y).
Proof.
  induction fuel as [|fuel IH]; intros h st Hf Hh; [lia|]. cbn [stale_loop]. destruct h as [|x h0].
  { exists [], []. split; [simpl; by rewrite Z.sub_0_r|]. split_and!; try done; [by intros ? ?%elem_of_nil|by left]. }
  destruct (pop_cases (x :: h0) Hh ltac:(done)) as (tx & h1 & Hpop & Hh1 & Hp & Hmin & Hhd & Hlen).
  simpl in Hhd. injection Hhd as ->. destruct (live tx) eqn:Hl.
  - exists (tx :: h0), []. rewrite app_nil_r. split; [simpl; by rewrite Z.sub_0_r|]. split_and!; try done; [by intros ? ?%elem_of_nil|].
    right. exists tx. split_and!; try done. intros y Hy. rewrite Hp in Hy. apply elem_of_cons in Hy as [->|Hy]; [lia|by apply Hmin].
  - rewrite Hpop. simpl. destruct (IH h1 (st - 1) ltac:(lia) Hh1) as (h' & z & -> & Hh' & Hp' & Hz & Hor).
    exists h', (tx :: z). split_and!; try done.
    + simpl. f_equal. f_equal. lia.
    + rewrite Hp, Hp'. apply Permutation_middle.
    + intros y [->|Hy]%elem_of_cons; auto.
Qed.

Lemma restored (h' d sv z : list Tx) : h' ++ d ++ sv ++ z ≡ₚ (sv ++ h') ++ d ++ z.
Proof.
  rewrite (Permutation_app_comm sv h'), <- !app_assoc. apply Permutation_app_head. rewrite !app_assoc.
  apply Permutation_app_tail, Permutation_app_comm.
Qed.

Lemma Discard_ok l count : pl_ok l -> exists drop l' stale,
  Discard l count = Ok (drop, l') /\ pl_ok l' /\
  pl_items l ≡ₚ pl_items l' ++ drop ++ stale /\ stales l' = stales l - Z.of_nat (length stale) /\
  (forall tx, tx ∈ stale -> live tx = false) /\
  (forall tx, tx ∈ drop -> live tx = true /\ containsTx tx = false) /\ (length drop <= count)%nat /\
  (forall x y, x ∈ drop -> y ∈ pl_items l' -> containsTx y = false -> GetPriority x <= GetPriority y) /\
  ((length drop < count)%nat -> forall y, y ∈ pl_items l' -> containsTx y = true).
Proof.
  intros Hl. unfold Discard.
  destruct (discard_loop_spec (S (length (pl_items l))) count (pl_items l) (stales l) [] [] ltac:(lia) Hl)
    as (h' & d & sv & z & -> & [Hh Hp Hd Hs Hz Ho] & Hsv & Hle & Hor). simpl.
  destruct (push_all_spec sv h' Hh) as [Hph Hpp]. exists d, (mkPL (push_all sv h') (stales l - Z.of_nat (length z))), z.
  split_and!; try done; simpl.
  - by rewrite Hp, Hpp, restored.
  - intros x y Hx Hy Hc. rewrite Hpp in Hy. apply elem_of_app in Hy as [Hy|Hy]; [|by apply Ho].
    rewrite (Hsv y Hy) in Hc. done.
  - intros Hlt y Hy. rewrite Hpp in Hy. destruct Hor as [? | ->]; [lia|]. rewrite app_nil_r in Hy. by apply Hsv.
Qed.

(** [Discard(count)] drops up to [count] known transactions of remote accounts,
    and none that remains known, remote and in the heap has a lower priority; it
    stops short only when no such transaction is left; local transactions stay and
    stale entries leave with the counter adjusted. *)
Theorem Discard_spec l count : pl_ok l -> exists drop l' stale,
  Discard l count = Ok (drop, l') /\ pl_ok l' /\
  pl_items l ≡ₚ pl_items l' ++ drop ++ stale /\ stales l' = stales l - Z.of_nat (length stale) /\
  (forall tx, tx ∈ stale -> live tx = false) /\
  (forall tx, tx ∈ drop -> live tx = true /\ containsTx tx = false) /\ (length drop <= count)%nat /\
  (forall x y, x ∈ drop -> y ∈ pl_items l' -> containsTx y = false -> GetPriority x <= GetPriority y) /\
  ((length drop < count)%nat -> forall y, y ∈ pl_items l' -> containsTx y = true).
Proof. apply Discard_ok. Qed.

(** [Cap(threshold)] drops exactly the known remote transactions below the
    threshold that the heap holds: afterwards every known transaction in it is
    local or at or above the threshold. *)
Theorem pl_Cap_spec l threshold : pl_ok l -> exists drop l' stale,
  pl_Cap l threshold = Ok (drop, l') /\ pl_ok l' /\
  pl_items l ≡ₚ pl_items l' ++ drop ++ stale /\ stales l' = stales l - Z.of_nat (length stale) /\
  (forall tx, tx ∈ stale -> live tx = false) /\
  (forall tx, tx ∈ drop -> live tx = true /\ containsTx tx = false /\ GetPriority tx < threshold) /\
  (forall tx, tx ∈ pl_items l' -> containsTx tx = true \/ threshold <= GetPriority tx).
Proof.
  intros Hl. unfold pl_Cap.
  destruct (pcap_loop_spec threshold (S (length (pl_items l))) (pl_items l) (stales l) [] [] ltac:(lia) Hl)
    as (h' & d & sv & z & -> & [Hh Hp Hd Hs Hz Ho] & Hsv & Hdr & Hge). simpl.
  destruct (push_all_spec sv h' Hh) as [Hph Hpp]. exists d, (mkPL (push_all sv h') (stales l - Z.of_nat (length z))), z.
  split_and!; try done; simpl.
  - by rewrite Hp, Hpp, restored.
  - intros tx Ht. destruct (Hd tx Ht). auto.
  - intros tx Ht. rewrite Hpp in Ht. apply elem_of_app in Ht as [Ht|Ht]; [by apply Hsv|right; by apply Hge].
Qed.

(** [Underpriority] is true exactly for a transaction of a remote account that no
    known transaction in the heap is below, provided there is one. *)
Theorem Underpriority_spec l tx : pl_ok l -> exists b l',
  Underpriority l tx = Ok (b, l') /\ pl_ok l' /\
  (b = true <-> containsTx tx = false /\ (exists y, y ∈ pl_items l /\ live y = true) /\
     forall y, y ∈ pl_items l -> live y = true -> GetPriority tx <= GetPriority y).
Proof.
  intros Hl. unfold Underpriority. destruct (containsTx tx) eqn:Hc.
  { exists false, l. split_and!; try done. split; [done|]. by intros (? & _). }
  destruct (stale_loop_spec (S (length (pl_items l))) (pl_items l) (stales l) ltac:(lia) Hl)
    as (h' & z & -> & Hh & Hp & Hz & Hor). simpl.
  assert (forall y, y ∈ pl_items l -> live y = true -> y ∈ h') as Hlive.
  { intros y Hy Hly. rewrite Hp in Hy. apply elem_of_app in Hy as [?|Hy]; [done|]. by rewrite Hz in Hly. }
  destruct Hor as [->|(x & Hx & Hlx & Hmin)].
  - eexists _, _. split; [done|]. split; [done|]. split; [done|]. intros (_ & (y & Hy & Hly) & _).
    by apply Hlive, elem_of_nil in Hy.
  - destruct h' as [|x' h']; [done|]. simpl in Hx. injection Hx as ->. eexists _, _. split; [done|]. split; [done|].
    assert (x ∈ pl_items l) as Hxl by (rewrite Hp; apply elem_of_app; left; apply list_elem_of_here).
    rewrite Z.leb_le. split.
    + intros Hle. split_and!; [done|by exists x|]. intros y Hy Hly. specialize (Hmin y (Hlive y Hy Hly)). lia.
    + intros (_ & _ & Hall). by apply Hall.
Qed.

End PriorityList.

(** ** Examples *)

(** A transaction with nonce and priority. *)
Definition exTx : Type := Z * Z.
#[export] Instance exTx_view : TxView exTx := {|
  Nonce tx := u64 tx.1; GetPriority tx := tx.2; TxHash tx := [tx.1; tx.2];
  Nonce_range tx := wrap_range 64 tx.1 ltac:(lia) |}.
#[export] Instance exTx_inhabited : Inhabited exTx := populate (0, 0).

Definition add_all (b : bool) (l : list exTx) : txList exTx :=
  fold_left (fun acc (tx : exTx) => (Add acc tx).2) l (newTxList b).

Lemma newTxList_ok b : list_ok (newTxList b : txList exTx).
Proof. split; [apply newTxSortedMap_ok|]. intros n tx. simpl. by rewrite lookup_empty. Qed.

(** Nonces 5, 6, 7 and 9; a low priority at 6. *)
Definition exPending : txList exTx := add_all true [(5, 10); (7, 30); (6, 20); (9, 5)].

Lemma Add_ok (l : txList exTx) tx : list_ok l -> list_ok (Add l tx).2.
Proof.
  intros [Hok Hc]. unfold Add. destruct (match sm_Get _ _ with Some o => _ | None => _ end); [done|].
  split; [by apply sm_Put_ok|]. intros n x. change (items (txs _)) with (<[Nonce tx := tx]> (items (txs l))). simpl.
  intros [[<- <-]|[_ Hl]]%lookup_insert_Some; [|specialize (Hc _ _ Hl)];
    destruct (Z.ltb_spec (l_priority l) tx.2); simpl in *; lia.
Qed.

Lemma add_all_ok b l : list_ok (add_all b l).
Proof.
  unfold add_all. generalize (newTxList_ok b). generalize (newTxList (Tx := exTx) b).
  induction l as [|tx l IH]; intros acc Hacc; [done|]. apply IH. by apply Add_ok.
Qed.

Lemma txList_Forward_witness : exists l', Forward exPending 7 = Ok ([(5, 10); (6, 20)], l') /\ list_ok l'.
Proof.
  destruct (txList_Forward exPending 7 (add_all_ok _ _)) as (r & l' & Hr & Hok & _).
  exists l'. split; [|exact Hok]. rewrite Hr. f_equal. f_equal. assert (fst <$> (match Forward exPending 7 with Ok x => Some x | _ => None end) = Some [(5, 10); (6, 20)]) as He by (vm_compute; reflexivity).
  rewrite Hr in He. simpl in He. congruence.
Defined.

(** The value an operation returns first. *)
Definition result {A B} (r : outcome unit (A * B)) : option A := match r with Ok x => Some x.1 | _ => None end.

Lemma txList_Cap_witness : exists drops l', Cap exPending 2 = Ok (drops, l') /\ list_ok l' /\ drops = [(9, 5); (7, 30)].
Proof.
  destruct (txList_Cap exPending 2 (add_all_ok _ _)) as (r & l' & Hr & Hok & _). exists r, l'.
  split; [exact Hr|]. split; [exact Hok|]. assert (result (Cap exPending 2) = Some [(9, 5); (7, 30)]) as He by (vm_compute; reflexivity).
  rewrite Hr in He. simpl in He. congruence.
Defined.

Lemma txList_Ready_witness : exists ready l', Ready exPending 5 = Ok (ready, l') /\ list_ok l' /\ ready = [(5, 10); (6, 20); (7, 30)].
Proof.
  destruct (txList_Ready exPending 5 (add_all_ok _ _)) as (r & l' & Hr & Hok & _). exists r, l'.
  split; [exact Hr|]. split; [exact Hok|].
  assert (result (Ready exPending 5) = Some [(5, 10); (6, 20); (7, 30)]) as He by (vm_compute; reflexivity).
  rewrite Hr in He. simpl in He. congruence.
Defined.

(** Transactions below [start] stay in the list when a nonce is missing before them. *)
Example ready_leaves_lower : match Ready (add_all false [(1, 10); (3, 30)]) 5 with
  | Ok (ready, l') => ready = [(1, 10)] /\ items (txs l') !! 3 = Some (3, 30)
  | _ => False
  end.
Proof. vm_compute. done. Qed.

Lemma txList_Filter_witness : list_ok (Filter exPending 15).2 /\ items (txs (Filter exPending 15).2) !! 9 = None.
Proof.
  pose proof (txList_Filter exPending 15 (add_all_ok _ _)) as Hf.
  destruct (Filter exPending 15) as [[rm inv] l'] eqn:E. destruct Hf as (Hok & _). split; [exact Hok|].
  assert (items (txs (Filter exPending 15).2) !! 9 = None) as He by (vm_compute; reflexivity).
  rewrite E in He. exact He.
Defined.

Lemma txList_Add_witness : list_ok (Add exPending (6, 20)).2 /\ (Add exPending (6, 20)).1.1 = false.
Proof.
  pose proof (txList_Add exPending (6, 20) (add_all_ok _ _)) as Ha.
  destruct (Add exPending (6, 20)) as [[b old] l'] eqn:E. destruct Ha as (Hok & _). split; [exact Hok|].
  assert ((Add exPending (6, 20)).1.1 = false) as He by (vm_compute; reflexivity). rewrite E in He. exact He.
Defined.

Lemma txList_Remove_witness : exists inv l', RemoveTx exPending (6, 0) = Ok (true, inv, l') /\ list_ok l' /\
  items (txs l') !! 7 = None.
Proof.
  destruct (txList_Remove exPending (6, 0) (add_all_ok _ _)) as (b & inv & l' & Hr & Hok & Hb & Hit & _).
  exists inv, l'. assert (b = true) as -> by (rewrite Hb; vm_compute; reflexivity).
  split; [exact Hr|]. split; [exact Hok|]. rewrite Hit. vm_compute. reflexivity.
Defined.

(** A pool that knows four transactions, the first of a local account; the heap
    also holds a stale one. *)
Definition exAll : gmap Hash exTx := list_to_map ((fun tx => (TxHash tx, tx)) <$> [(1, 10); (2, 40); (3, 20); (4, 30)]).
Definition exLocal (tx : exTx) : bool := tx.1 =? 1.
Definition exHeap : txPriorityList := fold_left pl_Put [(1, 10); (2, 40); (9, 5); (3, 20); (4, 30)] newTxPriorityList.

Lemma exHeap_ok : pl_ok exHeap.
Proof.
  assert (forall (l : list exTx) acc, pl_ok acc -> pl_ok (fold_left pl_Put l acc)) as Hf.
  { induction l as [|tx l IH]; intros acc Hacc; [done|]. apply IH. by apply pl_Put_ok. }
  apply Hf. intros k Hk. simpl in Hk. lia.
Qed.

Lemma Discard_spec_witness : exists drop l', Discard exAll exLocal exHeap 2 = Ok (drop, l') /\ pl_ok l' /\ drop = [(3, 20); (4, 30)].
Proof.
  destruct (Discard_spec exAll exLocal exHeap 2 exHeap_ok) as (d & l' & z & Hr & Hok & _). exists d, l'.
  split; [exact Hr|]. split; [exact Hok|].
  assert (result (Discard exAll exLocal exHeap 2) = Some [(3, 20); (4, 30)]) as He by (vm_compute; reflexivity).
  rewrite Hr in He. simpl in He. congruence.
Defined.

Lemma pl_Cap_spec_witness : exists drop l', pl_Cap exAll exLocal exHeap 25 = Ok (drop, l') /\ pl_ok l' /\ drop = [(3, 20)].
Proof.
  destruct (pl_Cap_spec exAll exLocal exHeap 25 exHeap_ok) as (d & l' & z & Hr & Hok & _). exists d, l'.
  split; [exact Hr|]. split; [exact Hok|].
  assert (result (pl_Cap exAll exLocal exHeap 25) = Some [(3, 20)]) as He by (vm_compute; reflexivity).
  rewrite Hr in He. simpl in He. congruence.
Defined.

Lemma Underpriority_spec_witness : exists b l', Underpriority exAll exLocal exHeap (7, 8) = Ok (b, l') /\ pl_ok l' /\ b = true.
Proof.
  destruct (Underpriority_spec exAll exLocal exHeap (7, 8) exHeap_ok) as (b & l' & Hr & Hok & _). exists b, l'.
  split; [exact Hr|]. split; [exact Hok|].
  assert (result (Underpriority exAll exLocal exHeap (7, 8)) = Some true) as He by (vm_compute; reflexivity).
  rewrite Hr in He. simpl in He. congruence.
Defined.
