(* ===== verification/TxOrder.v ===== *)
(** * The order in which a producer takes transactions

    [TransactionsByPriorityAndNonce] and [TransactionForProducing] of
    core/transaction/transaction.go, and the loop of [commitTransactions]
    (blockproducer/producer.go) that draws from it: the best head first, then
    [Shift] to the next transaction of the same account or [Pop] to skip it.

    [Sender] recovers the account from the signature (transaction_signing.go); it
    is a function of the transaction here. *)

From stdpp Require Import base gmap list.
From S2P Require Import Prelude Types Heap TxList.
Local Open Scope Z_scope.

Section TxOrder.
Context {Tx : Type} `{TxView Tx} `{!Inhabited Tx} (Sender : Tx -> Address).
Implicit Types (tx : Tx).

(** [TxByPriority.Less] *)
Definition by_priority (a b : Tx) : bool := GetPriority b <? GetPriority a.
#[local] Instance by_priority_order : StrictOrder_ by_priority.
Proof. split; unfold by_priority; intros; lia. Qed.

Record txQueue : Type := mkQueue { q_txs : gmap Address (list Tx); heads : list Tx }.

(** The loop over the accounts: [accTxs[0]] of an empty list panics. *)
Fixpoint collect (accs : list Address) (txs : gmap Address (list Tx)) (hs : list Tx) : outcome unit (gmap Address (list Tx) * list Tx) :=
  match accs with
  | [] => Ok (txs, hs)
  | a :: accs =>
      match default [] (txs !! a) with
      | [] => Panic
      | tx :: rest => collect accs (<[Sender tx := rest]> txs) (hs ++ [tx])
      end
  end.

Definition NewTransactionsByPriorityAndNonce (txs : gmap Address (list Tx)) (txReword : Tx) : outcome unit txQueue :=
  '(txs, hs) ← collect (map_to_list txs).*1 txs [txReword];
  Ok (mkQueue txs (Init by_priority hs)).

Definition Peek (t : txQueue) : option Tx := head (heads t).

Definition Shift (t : txQueue) : outcome unit txQueue :=
  match heads t with
  | [] => Panic
  | h0 :: _ =>
      let acc := Sender h0 in
      match q_txs t !! acc with
      | Some (tx :: rest) =>
          Ok (mkQueue (<[acc := rest]> (q_txs t)) (Fix by_priority (<[0%nat := tx]> (heads t)) 0))
      | _ => '(_, hs) ← of_index (Heap.Pop by_priority (heads t)); Ok (mkQueue (q_txs t) hs)
      end
  end.

Definition Pop (t : txQueue) : outcome unit txQueue :=
  '(_, hs) ← of_index (Heap.Pop by_priority (heads t)); Ok (mkQueue (q_txs t) hs).

(** How an attempt to execute a transaction ends: the cases that [commitTransactions]
    distinguishes. *)
Inductive attempt (L : Type) : Type :=
  | Executed (logs : list L)
  | NonceTooLow
  | NonceTooHigh
  | Failed.
#[global] Arguments Executed {L}.
#[global] Arguments NonceTooLow {L}.
#[global] Arguments NonceTooHigh {L}.
#[global] Arguments Failed {L}.

Section CommitLoop.
(** [try_tx tx tcount st] is [Sender], [Prepare] and [commitTransaction] on the
    producer's state [st]; it is about the transaction as [Sender] leaves it. *)
Context {St L E : Type} (try_tx : Tx -> Z -> St -> outcome E (attempt L * St)).

(** [tcount] and [coalescedLogs] with the state. *)
Record env : Type := mkEnv { tcount : Z; coalesced : list L; est : St }.

Definition account_result (r : attempt L) (st : St) (e : env) : env :=
  match r with
  | Executed logs => mkEnv (tcount e + 1) (coalesced e ++ logs) st
  | _ => mkEnv (tcount e) (coalesced e) st
  end.

Definition next_head (r : attempt L) (t : txQueue) : outcome unit txQueue :=
  match r with NonceTooHigh => Pop t | _ => Shift t end.

Definition lift {A} (o : outcome unit A) : outcome E A :=
  match o with Ok a => Ok a | Err _ => Panic | Panic => Panic | OutOfFuel => OutOfFuel end.

(** The loop of [commitTransactions]; it also returns the transactions it tried, in
    order, each with its result. *)
Fixpoint commit_loop (fuel : nat) (t : txQueue) (e : env) : outcome E (list (Tx * attempt L) * env) :=
  match fuel with
  | O => OutOfFuel
  | S fuel =>
      match Peek t with
      | None => Ok ([], e)
      | Some tx =>
          '(r, st) ← try_tx tx (tcount e) (est e);
          t ← lift (next_head r t);
          '(l, e) ← commit_loop fuel t (account_result r st e);
          Ok ((tx, r) :: l, e)
      end
  end.

(** Trying the transactions [l] one after the other from [e] gives the results
    listed with them and ends in [e']. *)
Inductive tried : env -> list (Tx * attempt L) -> env -> Prop :=
  | tried_nil e : tried e [] e
  | tried_cons e tx r st l e' :
      try_tx tx (tcount e) (est e) = Ok (r, st) -> tried (account_result r st e) l e' -> tried e ((tx, r) :: l) e'.

Lemma commit_loop_tried fuel t e out e' : commit_loop fuel t e = Ok (out, e') -> tried e out e'.
Proof.
  revert t e out. induction fuel as [|fuel IH]; intros t e out; simpl; [done|].
  destruct (Peek t) as [tx|]; [|intros [= <- <-]; constructor].
  destruct (try_tx tx (tcount e) (est e)) as [[r st]| | |] eqn:Htry; try done. simpl.
  destruct (lift (next_head r t)) as [t'| | |]; try done. simpl.
  destruct (commit_loop fuel t' (account_result r st e)) as [[l e1]| | |] eqn:Hl; try done. intros [= <- <-].
  apply tried_cons with st; [done|by apply (IH t')].
Qed.
End CommitLoop.

(** *** What is left of each account *)

Definition of_account (a : Address) (tx : Tx) : Prop := Sender tx = a.
#[local] Instance of_account_dec a tx : Decision (of_account a tx).
Proof. unfold of_account. apply _. Defined.

(** The transactions of [a] still to come: its head and what is behind it. *)
Definition remaining (t : txQueue) (a : Address) : list Tx :=
  match filter (of_account a) (heads t) with
  | [] => []
  | h :: _ => h :: default [] (q_txs t !! a)
  end.

Record queue_ok (t : txQueue) : Prop := {
  qo_heap : heap_from by_priority 0 (heads t) (length (heads t));
  qo_nodup : NoDup (Sender <$> heads t);
  qo_sender a l tx : q_txs t !! a = Some l -> tx ∈ l -> Sender tx = a;
}.

Definition lengths (m : gmap Address (list Tx)) : nat := sum_list_with length (map_to_list m).*2.
Definition size (t : txQueue) : nat := length (heads t) + lengths (q_txs t).

Lemma lengths_insert m a l l0 : m !! a = Some l0 -> (lengths (<[a := l]> m) + length l0 = lengths m + length l)%nat.
Proof.
  intros Ha. unfold lengths. rewrite <- insert_delete_eq.
  assert (Hp : map_to_list m ≡ₚ (a, l0) :: map_to_list (delete a m)) by (symmetry; by apply map_to_list_delete).
  rewrite Hp, map_to_list_insert by apply lookup_delete_eq. simpl. lia.
Qed.

Lemma Permutation_short (l l' : list Tx) : l ≡ₚ l' -> (length l' <= 1)%nat -> l = l'.
Proof.
  intros Hp Hl. destruct l' as [|x [|y l']]; simpl in Hl; [by apply Permutation_nil_r in Hp|by apply Permutation_singleton_r in Hp|lia].
Qed.

Lemma filter_none (P : Tx -> Prop) `{!forall x, Decision (P x)} l : (forall x, x ∈ l -> ~ P x) -> filter P l = [].
Proof.
  induction l as [|x l IH]; intros Hn; [done|]. rewrite filter_cons, decide_False by (apply Hn, list_elem_of_here).
  apply IH. intros y Hy. apply Hn. by apply list_elem_of_further.
Qed.

(** At most one head per account. *)
Lemma heads_filter hs a : NoDup (Sender <$> hs) -> (length (filter (of_account a) hs) <= 1)%nat.
Proof.
  induction hs as [|h hs IH]; simpl; intros Hnd; [lia|]. apply NoDup_cons in Hnd as [Hh Hnd].
  rewrite filter_cons. case_decide as Hd; [|by apply IH]. simpl.
  assert (filter (of_account a) hs = []) as ->; [|simpl; lia].
  apply filter_none. intros x Hx Hsx. unfold of_account in *. apply Hh. rewrite Hd, <- Hsx. by apply list_elem_of_fmap_2.
Qed.

Lemma filter_Permutation hs hs' a : NoDup (Sender <$> hs) -> hs' ≡ₚ hs -> filter (of_account a) hs' = filter (of_account a) hs.
Proof.
  intros Hnd Hp. apply Permutation_short; [by rewrite Hp|by apply heads_filter].
Qed.

Lemma head_filter h hs : NoDup (Sender <$> h :: hs) -> filter (of_account (Sender h)) (h :: hs) = [h].
Proof.
  intros Hnd. pose proof (heads_filter (h :: hs) (Sender h) Hnd) as Hl. rewrite filter_cons in *.
  rewrite decide_True in * by done. simpl in Hl. destruct (filter (of_account (Sender h)) hs); [done|simpl in Hl; lia].
Qed.

Lemma filter_other h hs a : Sender h <> a -> filter (of_account a) (h :: hs) = filter (of_account a) hs.
Proof. intros Hne. rewrite filter_cons. by rewrite decide_False. Qed.

(** ** The schedule *)

(** [out] is a schedule of the lists [rem]: every transaction is the first one left
    of its account and has the highest priority among the first ones of all
    accounts; after one whose nonce is too high, its account is skipped. *)
Definition rest_after {L} (r : attempt L) (l : list Tx) : list Tx := match r with NonceTooHigh => [] | _ => l end.

Inductive schedule {L} : (Address -> list Tx) -> list (Tx * attempt L) -> Prop :=
  | schedule_nil rem : (forall a, rem a = []) -> schedule rem []
  | schedule_cons rem rem' tx r l out :
      rem (Sender tx) = tx :: l ->
      (forall a h l', rem a = h :: l' -> GetPriority h <= GetPriority tx) ->
      rem' (Sender tx) = rest_after r l ->
      (forall a, a <> Sender tx -> rem' a = rem a) ->
      schedule rem' out -> schedule rem ((tx, r) :: out).

Lemma Pop_ok t h0 hs0 : queue_ok t -> heads t = h0 :: hs0 -> exists t', Pop t = Ok t' /\ queue_ok t' /\
  remaining t' (Sender h0) = [] /\ (forall a, a <> Sender h0 -> remaining t' a = remaining t a) /\ (size t' < size t)%nat.
Proof.
  intros [Hh Hnd Hs] Heq. unfold Pop. destruct (Pop_spec by_priority (heads t) Hh) as (hs & Hp & Hh' & Hperm & _); [by rewrite Heq|].
  rewrite Hp. rewrite Heq in Hperm. simpl in *. apply Permutation_cons_inv in Hperm. rewrite Heq in Hnd.
  eexists. split; [done|]. pose proof Hnd as Hnd2. apply NoDup_cons in Hnd2 as [Hn0 Hnd0]. split_and!.
  - split; simpl; try done. by rewrite <- Hperm.
  - unfold remaining. simpl. rewrite (filter_Permutation hs0 hs) by (try done; by symmetry).
    assert (filter (of_account (Sender h0)) hs0 = []) as ->; [|done].
    apply filter_none. intros x Hx Hsx. apply Hn0. rewrite <- Hsx. by apply list_elem_of_fmap_2.
  - intros a Ha. unfold remaining. simpl. rewrite (filter_Permutation hs0 hs) by (try done; by symmetry).
    rewrite Heq, filter_other by done. done.
  - unfold size. simpl. rewrite Heq. apply Permutation_length in Hperm. simpl. lia.
Qed.

Lemma Shift_ok t h0 hs0 : queue_ok t -> heads t = h0 :: hs0 -> exists t', Shift t = Ok t' /\ queue_ok t' /\
  remaining t' (Sender h0) = default [] (q_txs t !! Sender h0) /\
  (forall a, a <> Sender h0 -> remaining t' a = remaining t a) /\ (size t' < size t)%nat.
Proof.
  intros Hok Heq. unfold Shift. rewrite Heq.
  destruct (q_txs t !! Sender h0) as [[|tx rest]|] eqn:Hq;
    [destruct (Pop_ok t h0 hs0 Hok Heq) as (t' & Hp & ?); unfold Pop in Hp; rewrite Heq in Hp; by exists t'| |
     destruct (Pop_ok t h0 hs0 Hok Heq) as (t' & Hp & ?); unfold Pop in Hp; rewrite Heq in Hp; by exists t'].
  destruct Hok as [Hh Hnd Hs]. rewrite Heq in Hh, Hnd. simpl in *.
  destruct (Fix_spec by_priority (h0 :: hs0) 0 tx Hh ltac:(simpl; lia)) as [Hh' Hperm]. simpl in *.
  assert (Sender tx = Sender h0) as Htx by (apply (Hs _ _ _ Hq), list_elem_of_here).
  assert (NoDup (Sender <$> tx :: hs0)) as Hnd' by (simpl; by rewrite Htx).
  eexists. split; [done|]. split_and!; simpl.
  - split; simpl; [done|by rewrite Hperm|]. intros a l x [[<- <-]|[_ Ha]]%lookup_insert_Some Hx; [|by eapply Hs].
    apply (Hs _ _ _ Hq). by apply list_elem_of_further.
  - unfold remaining. simpl. rewrite (filter_Permutation _ _ _ Hnd' Hperm), <- Htx, head_filter by done.
    by rewrite lookup_insert_eq.
  - intros a Ha. unfold remaining. simpl. rewrite (filter_Permutation _ _ _ Hnd' Hperm), Heq.
    rewrite !filter_other by congruence. by rewrite lookup_insert_ne.
  - unfold size. simpl. rewrite Heq, Hperm. simpl. pose proof (lengths_insert (q_txs t) (Sender h0) rest (tx :: rest) Hq).
    simpl in *. lia.
Qed.

Lemma Peek_best t h0 hs0 a h l : queue_ok t -> heads t = h0 :: hs0 -> remaining t a = h :: l -> GetPriority h <= GetPriority h0.
Proof.
  intros [Hh _ _] Heq Hr. unfold remaining in Hr. destruct (filter (of_account a) (heads t)) as [|h' fl] eqn:Hf; [done|].
  injection Hr as -> _. assert (h ∈ heads t) as Hin.
  { assert (h ∈ filter (of_account a) (heads t)) as Hi by (rewrite Hf; apply list_elem_of_here). by apply list_elem_of_filter in Hi as [_ ?]. }
  apply list_elem_of_lookup in Hin as [k Hk]. pose proof (lookup_lt_Some _ _ _ Hk) as Hlt.
  pose proof (heap_root by_priority (heads t) _ k Hh Hlt) as Hle. unfold hle, by_priority in Hle.
  rewrite (list_lookup_total_correct _ _ _ Hk), Heq in Hle. simpl in Hle. lia.
Qed.

Lemma next_head_ok {L} (r : attempt L) t h0 hs0 : queue_ok t -> heads t = h0 :: hs0 -> exists t', next_head r t = Ok t' /\ queue_ok t' /\
  remaining t' (Sender h0) = rest_after r (default [] (q_txs t !! Sender h0)) /\
  (forall a, a <> Sender h0 -> remaining t' a = remaining t a) /\ (size t' < size t)%nat.
Proof.
  intros Hok Heq. destruct r; simpl; try by apply Shift_ok with hs0. by apply Pop_ok with hs0.
Qed.

Lemma commit_loop_schedule {St L E} (try_tx : Tx -> Z -> St -> outcome E (attempt L * St)) (P : St -> Prop) fuel :
  (forall tx n st, P st -> exists r st', try_tx tx n st = Ok (r, st') /\ P st') ->
  forall t e, (size t < fuel)%nat -> queue_ok t -> P (est e) ->
  exists out e', commit_loop try_tx fuel t e = Ok (out, e') /\ schedule (remaining t) out /\ tried try_tx e out e'.
Proof.
  intros Htry. induction fuel as [|fuel IH]; intros t e Hf Hok HP; [lia|]. cbn [commit_loop]. unfold Peek.
  destruct (heads t) as [|h0 hs0] eqn:Heq; simpl.
  { exists [], e. split_and!; [done| |constructor]. constructor. intros a. unfold remaining. by rewrite Heq. }
  assert (remaining t (Sender h0) = h0 :: default [] (q_txs t !! Sender h0)) as Hrem.
  { unfold remaining. rewrite Heq, head_filter; [done|]. rewrite <- Heq. apply Hok. }
  destruct (Htry h0 (tcount e) (est e) HP) as (r & st & Hr & HP'). rewrite Hr. simpl.
  destruct (next_head_ok r t h0 hs0 Hok Heq) as (t' & -> & Hok' & Hr' & Ho' & Hsz). simpl.
  destruct (IH t' (account_result r st e) ltac:(lia) Hok') as (out & e' & -> & Hsch & Htr); [by destruct r|]. simpl.
  exists ((h0, r) :: out), e'. split_and!; [done| |by apply tried_cons with st].
  apply (schedule_cons _ (remaining t') h0 r (default [] (q_txs t !! Sender h0))); try done.
  intros a h l. by apply Peek_best with hs0.
Qed.

Lemma schedule_prefix {L} rem (out : list (Tx * attempt L)) : schedule rem out -> (forall a tx, tx ∈ rem a -> Sender tx = a) ->
  forall a, filter (of_account a) out.*1 `prefix_of` rem a /\
    ((forall tx, (tx, NonceTooHigh) ∉ out) -> filter (of_account a) out.*1 = rem a).
Proof.
  induction 1 as [rem Hr|rem rem' tx r l out Hr _ Hr' Ho _ IH]; intros Hs a.
  { rewrite Hr. by split; [apply prefix_nil|]. }
  assert (forall b x, x ∈ rem' b -> Sender x = b) as Hs'.
  { intros b x. destruct (decide (b = Sender tx)) as [->|Hb]; [|rewrite Ho by done; apply Hs].
    rewrite Hr'. intros Hx. apply Hs. rewrite Hr. destruct r; try by apply list_elem_of_further. by apply elem_of_nil in Hx. }
  destruct (IH Hs' a) as [Hp Hk]. rewrite fmap_cons. simpl.
  assert ((forall x, (x, NonceTooHigh) ∉ (tx, r) :: out) -> r <> NonceTooHigh /\ forall x, (x, NonceTooHigh) ∉ out) as Hh.
  { intros Hn. split; [intros ->; apply (Hn tx), list_elem_of_here|]. intros x Hx. by apply (Hn x), list_elem_of_further. }
  destruct (decide (a = Sender tx)) as [->|Hne].
  - rewrite filter_cons, decide_True by done. rewrite Hr, Hr' in *. split.
    + apply prefix_cons. destruct r; try done. apply prefix_nil_inv in Hp as ->. apply prefix_nil.
    + intros [Hne Hn]%Hh. rewrite Hk by done. by destruct r.
  - rewrite filter_other by congruence. rewrite (Ho a Hne) in *. split; [done|]. intros [_ Hn]%Hh. by apply Hk.
Qed.

Lemma schedule_ext {L} rem rem2 (out : list (Tx * attempt L)) : (forall a, rem a = rem2 a) -> schedule rem out -> schedule rem2 out.
Proof.
  intros Heq Hsch. revert Heq. destruct Hsch as [r Hr|r r' tx a l o Hr Hbest Hr' Ho Hs]; intros Heq.
  - constructor. intros a. rewrite <- Heq. apply Hr.
  - apply (schedule_cons rem2 r' tx a l o); [| |exact Hr'| |exact Hs].
    + rewrite <- Heq. exact Hr.
    + intros b h l'. rewrite <- Heq. apply Hbest.
    + intros b Hb. rewrite <- Heq. by apply Ho.
Qed.

(** ** The initial queue *)

(** The transactions of every account of the pool were sent by it. *)
Definition pending_ok (txs : gmap Address (list Tx)) : Prop :=
  forall a l, txs !! a = Some l -> l <> [] /\ forall tx, tx ∈ l -> Sender tx = a.

Lemma collect_spec accs : forall txs hs, NoDup accs ->
  (forall a, a ∈ accs -> exists tx rest, txs !! a = Some (tx :: rest) /\ Sender tx = a) ->
  exists txs' hl, collect accs txs hs = Ok (txs', hs ++ hl) /\ Sender <$> hl = accs /\
    (forall a, a ∉ accs -> txs' !! a = txs !! a) /\
    (forall tx, tx ∈ hl -> exists rest, txs !! Sender tx = Some (tx :: rest) /\ txs' !! Sender tx = Some rest).
Proof.
  induction accs as [|a accs IH]; intros txs hs Hnd Hall; simpl.
  { exists txs, []. rewrite app_nil_r. split_and!; try done. by intros tx ?%elem_of_nil. }
  apply NoDup_cons in Hnd as [Ha Hnd]. destruct (Hall a (list_elem_of_here _ _)) as (tx & rest & Hl & Hs). rewrite Hl. simpl.
  destruct (IH (<[Sender tx := rest]> txs) (hs ++ [tx]) Hnd) as (txs' & hl & -> & Hsl & Hother & Hhl).
  { intros b Hb. destruct (Hall b) as (tx' & rest' & Hl' & Hs'); [by apply list_elem_of_further|].
    exists tx', rest'. rewrite lookup_insert_ne by congruence. done. }
  exists txs', (tx :: hl). rewrite <- app_assoc. split_and!; [done|by rewrite fmap_cons, Hs, Hsl| |].
  - intros b [Hne Hb]%not_elem_of_cons. rewrite Hother by done. by rewrite lookup_insert_ne by congruence.
  - intros x [->|Hx]%elem_of_cons.
    + exists rest. rewrite Hs. split; [done|]. rewrite Hother by done. rewrite Hs. apply lookup_insert_eq.
    + destruct (Hhl x Hx) as (r & Hr & Hr'). exists r. split; [|done]. rewrite lookup_insert_ne in Hr; [done|].
      assert (Sender x ∈ accs) by (rewrite <- Hsl; by apply list_elem_of_fmap_2). congruence.
Qed.

Lemma New_ok txs reward : pending_ok txs -> txs !! Sender reward = None -> exists t,
  NewTransactionsByPriorityAndNonce txs reward = Ok t /\ queue_ok t /\
  forall a, remaining t a = if decide (a = Sender reward) then [reward] else default [] (txs !! a).
Proof.
  intros Hp Hrw. unfold NewTransactionsByPriorityAndNonce.
  destruct (collect_spec (map_to_list txs).*1 txs [reward]) as (txs' & hl & -> & Hsl & Hother & Hhl).
  { apply NoDup_fst_map_to_list. }
  { intros a ([a' l] & -> & Hel%elem_of_map_to_list)%list_elem_of_fmap. destruct (Hp _ _ Hel) as [Hne Hs].
    destruct l as [|tx rest]; [done|]. exists tx, rest. split; [done|]. apply Hs, list_elem_of_here. }
  simpl. destruct (Init_spec by_priority (reward :: hl)) as [Hh Hperm].
  assert (forall a, a ∈ (map_to_list txs).*1 <-> is_Some (txs !! a)) as Hkeys.
  { intros a. rewrite list_elem_of_fmap. split.
    - intros ([b l] & -> & Hel%elem_of_map_to_list). by exists l.
    - intros [l Hl]. exists (a, l). split; [done|by apply elem_of_map_to_list]. }
  assert (NoDup (Sender <$> reward :: hl)) as Hnd.
  { rewrite fmap_cons, Hsl. apply NoDup_cons. split; [|apply NoDup_fst_map_to_list]. rewrite Hkeys, Hrw. by intros [? ?]. }
  eexists. split; [done|]. split.
  { split; simpl; [done|by rewrite Hperm|]. intros a l tx Hl Hin.
    destruct (decide (a ∈ (map_to_list txs).*1)) as [Ha|Ha].
    - rewrite <- Hsl in Ha. apply list_elem_of_fmap in Ha as (h & -> & Hh'). destruct (Hhl h Hh') as (r & Hr & Hr').
      destruct (Hp _ _ Hr) as [_ Hs]. rewrite Hl in Hr'. injection Hr' as ->. apply Hs. by apply list_elem_of_further.
    - rewrite Hother in Hl by done. destruct Ha. apply Hkeys. by rewrite Hl. }
  intros a. unfold remaining. cbn [heads q_txs]. rewrite (filter_Permutation _ _ a Hnd Hperm).
  destruct (decide (a = Sender reward)) as [->|Hne].
  - rewrite head_filter by done. rewrite Hother, Hrw; [done|]. rewrite Hkeys, Hrw. by intros [? ?].
  - rewrite filter_other by congruence. destruct (txs !! a) as [l|] eqn:Hl.
    + assert (a ∈ (map_to_list txs).*1) as Ha by (apply Hkeys; by rewrite Hl).
      rewrite <- Hsl in Ha. apply list_elem_of_fmap in Ha as (h & -> & Hh'). destruct (Hhl h Hh') as (r & Hr & Hr').
      assert (filter (of_account (Sender h)) hl = [h]) as ->.
      { pose proof (heads_filter hl (Sender h)) as Hle. rewrite Hsl in Hle. specialize (Hle (NoDup_fst_map_to_list _)).
        assert (h ∈ filter (of_account (Sender h)) hl) as Hin by (by apply list_elem_of_filter).
        destruct (filter (of_account (Sender h)) hl) as [|x [|]]; [by apply elem_of_nil in Hin| |simpl in Hle; lia].
        by apply list_elem_of_singleton in Hin as ->. }
      rewrite Hr'. simpl. congruence.
    + rewrite filter_none; [done|]. intros x Hx Hsx. destruct (Hhl x Hx) as (r & Hr & _). unfold of_account in Hsx.
      rewrite Hsx in Hr. congruence.
Qed.

(** C34: the producer tries the pool's transactions best priority first among the
    next ones of every account and in the pool's order within each account.  When
    no attempt panics the loop ends, its state, count and logs are those of trying
    the transactions in that order, and unless some nonce is too high every
    transaction is tried.  The account of the reward transaction has no transactions
    in the pool: with some, they are tried out of order. *)
Theorem commit_order {St L E} (try_tx : Tx -> Z -> St -> outcome E (attempt L * St)) (P : St -> Prop) txs reward st :
  pending_ok txs -> txs !! Sender reward = None ->
  (forall tx n st, P st -> exists r st', try_tx tx n st = Ok (r, st') /\ P st') -> P st ->
  let rem a := if decide (a = Sender reward) then [reward] else default [] (txs !! a) in
  exists t out e, NewTransactionsByPriorityAndNonce txs reward = Ok t /\
    commit_loop try_tx (S (size t)) t (mkEnv 0 [] st) = Ok (out, e) /\
    schedule rem out /\ tried try_tx (mkEnv 0 [] st) out e /\
    forall a, filter (of_account a) out.*1 `prefix_of` rem a /\
      ((forall tx, (tx, NonceTooHigh) ∉ out) -> filter (of_account a) out.*1 = rem a).
Proof.
  intros Hp Hrw Htry HP rem. destruct (New_ok txs reward Hp Hrw) as (t & Ht & Hok & Hrem).
  destruct (commit_loop_schedule try_tx P (S (size t)) Htry t (mkEnv 0 [] st) ltac:(lia) Hok HP) as (out & e & Hout & Hsch & Htr).
  assert (schedule rem out) as Hsch' by (by apply (schedule_ext (remaining t))).
  exists t, out, e. split_and!; try done. apply schedule_prefix; [done|].
  intros b tx. unfold rem. case_decide as Hd; [intros ->%list_elem_of_singleton; done|].
  destruct (txs !! b) as [l|] eqn:Hl; [|by intros ?%elem_of_nil]. apply (Hp _ _ Hl).
Qed.

End TxOrder.

(** ** Examples *)

Definition exSender (tx : exTx) : Address := [tx.1 / 100].
Definition exPool : gmap Address (list exTx) := {[ [1] := [(100, 3); (101, 9)]; [2] := [(200, 5)] ]}.

Lemma exPool_ok : pending_ok exSender exPool.
Proof.
  unfold exPool. intros a l [[<- <-]|[_ [<- <-]%lookup_singleton_Some]]%lookup_insert_Some; (split; [done|]); intros tx Hin;
    apply list_elem_of_In in Hin; simpl in Hin; destruct_or? Hin; subst; done.
Qed.

(** An executor that accepts a transaction exactly when it carries the nonce its
    account has next; the state maps accounts to nonces. *)
Definition exTry (tx : exTx) (_ : Z) (st : gmap Address Z) : outcome unit (attempt exTx * gmap Address Z) :=
  let a := exSender tx in
  let n := default 0 (st !! a) in
  let nonce := tx.1 mod 100 in
  Ok (if n <? nonce then (NonceTooHigh, st) else if nonce <? n then (NonceTooLow, st)
      else (Executed [tx], <[a := n + 1]> st)).

Lemma commit_order_witness : exists t out e, NewTransactionsByPriorityAndNonce exSender exPool (900, 10) = Ok t /\
  commit_loop exSender exTry (S (size t)) t (mkEnv 0 [] ∅) = Ok (out, e) /\
  coalesced e = [(900, 10); (200, 5); (100, 3); (101, 9)].
Proof.
  destruct (commit_order exSender exTry (fun _ => True) exPool (900, 10) ∅ exPool_ok) as (t & out & e & Ht & Ho & _).
  - vm_compute. reflexivity.
  - intros tx n st _. unfold exTry. repeat case_match; eauto.
  - done.
  - exists t, out, e. split_and!; [exact Ht|exact Ho|].
    assert (match NewTransactionsByPriorityAndNonce exSender exPool (900, 10) with
            | Ok t => match commit_loop exSender exTry (S (size t)) t (mkEnv 0 [] ∅) with Ok (_, e) => coalesced e | _ => [] end
            | _ => [] end = [(900, 10); (200, 5); (100, 3); (101, 9)]) as He by (vm_compute; reflexivity).
    rewrite Ht, Ho in He. exact He.
Defined.

(** When the account of the reward transaction has transactions in the pool itself,
    its nonce order is lost.  Here the account is at nonce 2, the reward carries
    nonce 2 and the pool holds 3 and 4: after the reward the transaction with
    nonce 4 is offered before the one with nonce 3, and is skipped for it. *)
Example reward_account_out_of_order : exists t,
  NewTransactionsByPriorityAndNonce exSender {[ [1] := [(103, 3); (104, 9)] ]} (102, 10) = Ok t /\
  match commit_loop exSender exTry (S (size t)) t (mkEnv 0 [] {[ [1] := 2 ]}) with
  | Ok (out, _) => out = [((102, 10), Executed [(102, 10)]); ((104, 9), NonceTooHigh); ((103, 3), Executed [(103, 3)])]
  | _ => False
  end.
Proof. eexists. split; [vm_compute; reflexivity|]. vm_compute. reflexivity. Qed.
