(* ===== verification/Vm.v ===== *)
(** * The virtual machine and its built-in contract

    core/sdk (values of the running block, kept in memory over the state and
    the database), core/interpreter/balancetransfer (the contract that keeps
    balances) and core/interpreter (the dispatch of actions to contracts).  The
    goroutine that handles a work item and the channel it answers on carry one
    value; the call is modelled by the answer.  A failed type assertion or nil
    dereference there takes the process down: [Panic]. *)

From stdpp Require Import strings base gmap list.
From S2P Require Import Prelude Types TrieIface Numerals Hex Json StateObject StateDB.
Local Open Scope Z_scope.

(** A Go [int]: 64 bits, two's complement. *)
Definition i64 (z : Z) : Z := (z + 2 ^ 63) mod 2 ^ 64 - 2 ^ 63.

Lemma i64_small z : minInt64 <= z <= maxInt64 -> i64 z = z.
Proof. unfold minInt64, maxInt64, i64. intros Hz. rewrite Z.mod_small; lia. Qed.

Lemma i64_range z : minInt64 <= i64 z <= maxInt64.
Proof.
  unfold minInt64, maxInt64, i64. pose proof (Z.mod_pos_bound (z + 2 ^ 63) (2 ^ 64) ltac:(lia)). lia.
Qed.

Record ActionResult : Type := mkResult { res_Key : list byte; res_Val : list byte }.

Record Action : Type := mkAction { act_Address : option Address; act_Params : list byte }.

(** The loop at the head of the signer's [Hash] replaces nil addresses, in the
    transaction itself; every call of [Sender] that recovers the signer runs it. *)
Definition fill_address (a : Action) : Action :=
  match act_Address a with None => mkAction (Some zeroAddress) (act_Params a) | Some _ => a end.

(** The errors of the contract and of the dispatch, one per message. *)
Inductive cErr : Type :=
| BadParams | NoFuncId | FuncIdFormat | NoFunc (id : Z)
| NoAddresses | AddressesType | AddressType
| NoFrom | NoTo | NoProducer | NoCoinbase
| NoData (a : Address) | BadData | Insufficient (have want : Z) | NilHandler | NoContract.

(** ** State and effects *)

(** [TmpKey]: contract, key and state root (always the zero hash). *)
Abbreviation TmpKey := (Address * Address * Hash)%type (only parsing).

(** The account state and [TmpConTracts] of [TmpStatusManager]. *)
Record vstate (E T : Type) : Type := mkV {
  v_state : StateDB E T;
  v_tmp : gmap Address (gmap TmpKey (list byte));
}.
Arguments mkV {_ _}. Arguments v_state {_ _}. Arguments v_tmp {_ _}.

(** Computations that may also return an error of the contract. *)
Definition C (E T A : Type) : Type := vstate E T -> outcome (stateErr E) ((cErr + A) * vstate E T).

#[export] Instance C_ret {E T} : MRet (C E T) := fun A a s => Ok (inr a, s).
#[export] Instance C_bind {E T} : MBind (C E T) := fun A B f m s =>
  match m s with
  | Ok (inr a, s') => f a s'
  | Ok (inl e, s') => Ok (inl e, s')
  | Err e => Err e
  | Panic => Panic
  | OutOfFuel => OutOfFuel
  end.

Definition raise {E T A} (e : cErr) : C E T A := fun s => Ok (inl e, s).
Definition crash {E T A} : C E T A := fun _ => Panic.
(** A method of the account state. *)
Definition on_state {E T A} (m : M E T A) : C E T A := fun s =>
  match m (v_state s) with
  | Ok (a, st) => Ok (inr a, mkV st (v_tmp s))
  | Err e => Err e
  | Panic => Panic
  | OutOfFuel => OutOfFuel
  end.
Definition getTmp {E T : Type} : C E T (gmap Address (gmap TmpKey (list byte))) := fun s => Ok (inr (v_tmp s), s).
Definition setTmp {E T : Type} (m : gmap Address (gmap TmpKey (list byte))) : C E T unit := fun s => Ok (inr (), mkV (v_state s) m).

Section Vm.
Context {E T : Type} `{TrieOps E T} `{StateEnv E T}.
(** [db.Get]: [None] is any error of the database. *)
Context (dbGet : list byte -> option (list byte)).
Abbreviation CM := (C E T).

(** ** core/sdk *)

Definition tmp_key (contractAddress : Address) (key : list byte) : TmpKey :=
  (contractAddress, BytesToAddress key, zeroHash).

(** [ExistContract] followed by [ExistValue] of the node. *)
Definition ExistValue (tmp : gmap Address (gmap TmpKey (list byte))) (contractAddress : Address) (key : list byte) : option (list byte) :=
  match tmp !! contractAddress with
  | Some node => node !! tmp_key contractAddress key
  | None => None
  end.

Definition Keccak256Hash (b : list byte) : Hash := BytesToHash (Keccak256 b).

Definition SetValue (contractAddress : Address) (key value : list byte) : CM unit :=
  tmp ← getTmp;
  let node := default ∅ (tmp !! contractAddress) in
  setTmp (<[contractAddress := <[tmp_key contractAddress key := value]> node]> tmp).

Definition GetValue (contractAddress : Address) (key : list byte) : CM (option (list byte)) :=
  tmp ← getTmp;
  match ExistValue tmp contractAddress key with
  | Some data => mret (Some data)
  | None =>
      let stateKey := Keccak256Hash (contractAddress ++ key) in
      LevelDbKey ← on_state (GetState contractAddress stateKey);
      mret (dbGet LevelDbKey)
  end.

(** [sysparam]: nil, or the coinbase of its handler. *)
Abbreviation sysparam := (option Address) (only parsing).

Definition with_sys {A} (sys : sysparam) (f : Address -> CM A) : CM A :=
  match sys with Some coinbase => f coinbase | None => crash end.

Definition Sys_GetValue (sys : sysparam) (contractAddress : Address) (key : list byte) : CM (option (list byte)) :=
  with_sys sys (fun _ => GetValue contractAddress key).
Definition Sys_SetValue (sys : sysparam) (contractAddress : Address) (key value : list byte) : CM unit :=
  with_sys sys (fun _ => SetValue contractAddress key value).
Definition Sys_GetCoinbase (sys : sysparam) : CM Address := with_sys sys mret.

(** ** core/interpreter/balancetransfer *)

Definition BalanceTransferAddress : Address := zeroAddress.

Abbreviation params := (gmap (list byte) jval) (only parsing).

(** [param[k].(string)] of a value that is there. *)
Definition as_string (v : jval) : CM (list byte) := match v with JStr s => mret s | _ => crash end.

(** A required address parameter. *)
Definition address_param (param : params) (k : list byte) (missing : cErr) : CM Address :=
  match param !! k with
  | Some v => s ← as_string v; mret (HexToAddress s)
  | None => raise missing
  end.

(** The optional amount: an unreadable one is what [Atoi] returns with its error. *)
Definition amount_param (param : params) : CM Z :=
  match param !! str "amount" with
  | Some v => s ← as_string v; mret (fst (Atoi s))
  | None => mret 0
  end.

Definition unmarshal_balance (data : list byte) : CM Z :=
  match UnmarshalAmount data with Some n => mret n | None => raise BadData end.

(** Moving [amount] from one record to another: the common body of
    [TransferBalance] and [TransferFee]. *)
Definition transfer (sys : sysparam) (fromAddress toAddress : Address) (amount : Z) : CM (list ActionResult) :=
  if bool_decide (fromAddress = toAddress) then mret []
  else
    dataFrom ← Sys_GetValue sys BalanceTransferAddress fromAddress;
    match dataFrom with
    | None => raise (NoData fromAddress)
    | Some dataFrom =>
        balanceFrom ← unmarshal_balance dataFrom;
        if balanceFrom <? amount then raise (Insufficient balanceFrom amount)
        else
          dataTo ← Sys_GetValue sys BalanceTransferAddress toAddress;
          balanceTo ← match dataTo with None => mret 0 | Some d => unmarshal_balance d end;
          let bytesFrom := MarshalAmount (i64 (balanceFrom - amount)) in
          let bytesTo := MarshalAmount (i64 (balanceTo + amount)) in
          _ ← Sys_SetValue sys BalanceTransferAddress fromAddress bytesFrom;
          _ ← Sys_SetValue sys BalanceTransferAddress toAddress bytesTo;
          _ ← Sys_GetValue sys BalanceTransferAddress toAddress;
          mret [mkResult fromAddress bytesFrom; mkResult toAddress bytesTo]
    end.

Definition TransferBalance (param : params) (sys : sysparam) : CM (list ActionResult) :=
  fromAddress ← address_param param (str "from") NoFrom;
  toAddress ← address_param param (str "to") NoTo;
  amount ← amount_param param;
  transfer sys fromAddress toAddress amount.

Definition TransferFee (param : params) (sys : sysparam) : CM (list ActionResult) :=
  fromAddress ← address_param param (str "from") NoFrom;
  toAddress ← Sys_GetCoinbase sys;
  feeAmount ← amount_param param;
  transfer sys fromAddress toAddress feeAmount.

Definition reward : Z := 500000.

Definition RewordBlockProducer (param : params) (sys : sysparam) : CM (list ActionResult) :=
  producer ← address_param param (str "producer") NoProducer;
  data ← Sys_GetValue sys BalanceTransferAddress producer;
  balance ← match data with
            | None => mret reward
            | Some d => n ← unmarshal_balance d; mret (i64 (n + reward))
            end;
  let bytes := MarshalAmount balance in
  _ ← Sys_SetValue sys BalanceTransferAddress producer bytes;
  mret [mkResult producer bytes].

(** The strings of a JSON array. *)
Fixpoint string_list (l : list jval) : CM (list (list byte)) :=
  match l with
  | [] => mret []
  | JStr s :: l => r ← string_list l; mret (s :: r)
  | _ :: _ => raise AddressType
  end.

Fixpoint query_balances (sys : sysparam) (l : list (list byte)) : CM (list (list byte * Z)) :=
  match l with
  | [] => mret []
  | v :: l =>
      d ← Sys_GetValue sys BalanceTransferAddress (HexToAddress v);
      let n := match d with Some d => default 0 (UnmarshalAmount d) | None => 0 end in
      r ← query_balances sys l;
      mret ((v, n) :: r)
  end.

Definition GetBalance (param : params) (sys : sysparam) : CM (list ActionResult) :=
  match param !! str "addresses" with
  | None => raise NoAddresses
  | Some (JArr l) =>
      addrs ← string_list l;
      all ← query_balances sys addrs;
      mret [mkResult [] (MarshalAccounts all)]
  | Some _ => raise AddressesType
  end.

Definition funcMapper (id : Z) : option (params -> sysparam -> CM (list ActionResult)) :=
  if id =? 0 then Some TransferBalance
  else if id =? 1 then Some RewordBlockProducer
  else if id =? 2 then Some TransferFee
  else if id =? 3 then Some GetBalance
  else None.

(** [ContractBalancer.DoFun] *)
Definition DoFun (ps : list byte) (sys : sysparam) : CM (list ActionResult) :=
  match UnmarshalMap ps with
  | None => raise BadParams
  | Some jsonParams =>
      match jsonParams !! str "funcId" with
      | None => raise NoFuncId
      | Some v =>
          s ← as_string v;
          match Atoi s with
          | (_, Some _) => raise FuncIdFormat
          | (id, None) =>
              match funcMapper id with
              | Some doFunc => doFunc jsonParams sys
              | None => raise (NoFunc id)
              end
          end
      end
  end.

(** ** core/interpreter *)

(** The registered contracts, and the lookups of [InnerContractManager]. *)
Definition allInnerRegister : list (Address * (list byte -> sysparam -> CM (list ActionResult))) :=
  [(BalanceTransferAddress, DoFun)].

Fixpoint inner_of (l : list (Address * (list byte -> sysparam -> CM (list ActionResult)))) (a : Address)
    : option (list byte -> sysparam -> CM (list ActionResult)) :=
  match l with
  | [] => None
  | (b, f) :: l => match inner_of l a with Some g => Some g | None => if bool_decide (a = b) then Some f else None end
  end.

Definition Vms_DealAction (contractAddress : Address) (action : Action) (sys : sysparam) : CM (list ActionResult) :=
  match inner_of allInnerRegister contractAddress with
  | Some doFun => doFun (act_Params action) sys
  | None => raise NoContract
  end.

(** [SendWork] with the receive from its channel: [*action.Address] of a nil
    address panics. *)
Definition SendWork (action : Action) (sys : sysparam) : CM (list ActionResult) :=
  match act_Address action with
  | None => crash
  | Some a => Vms_DealAction a action sys
  end.

(** [GetStorage]: the value of the first result. *)
Definition GetStorage (action : Action) (sys : sysparam) : CM (list byte) :=
  results ← SendWork action sys;
  match results with
  | [] => crash
  | r :: _ => mret (res_Val r)
  end.

End Vm.

(** ** Fees *)

Inductive feeErr : Type := WrongContract | FeeParams | FeeNoFuncId | FeeNumber (e : numErr) | NotFee | FeeNoAmount.

(** [CheckFee] of publicFunc.go, and [GetPriority] of inter.go: zero with an error. *)
Definition CheckFee (addr : Address) (ps : list byte) : outcome unit (Z * option feeErr) :=
  if negb (bool_decide (addr = BalanceTransferAddress)) then Ok (0, Some WrongContract)
  else
    match UnmarshalMap ps with
    | None => Ok (0, Some FeeParams)
    | Some jsonParams =>
        match jsonParams !! str "funcId" with
        | None => Ok (0, Some FeeNoFuncId)
        | Some (JStr s) =>
            match Atoi s with
            | (_, Some e) => Ok (0, Some (FeeNumber e))
            | (vi, None) =>
                if negb (vi =? 2) then Ok (0, Some NotFee)
                else
                  match jsonParams !! str "amount" with
                  | None => Ok (0, Some FeeNoAmount)
                  | Some (JStr a) =>
                      match Atoi a with
                      | (_, Some e) => Ok (0, Some (FeeNumber e))
                      | (n, None) => Ok (n, None)
                      end
                  | Some _ => Panic
                  end
            end
        | Some _ => Panic
        end
    end.

Definition GetPriority (actions : list Action) : outcome unit Z :=
  match actions with
  | mkAction (Some a) ps :: _ => '(priority, _) ← CheckFee a ps; Ok priority
  | _ => Panic
  end.

(** ** Parameters written by the node *)

(** [MakeActionParamsReword] and [MakaBalanceTransferParam]: [json.Marshal] sorts
    the keys. *)
Definition MakeActionParamsReword (keccak : list byte -> list byte) (producer : Address) : list byte :=
  MarshalObject [(str "funcId", str "1"); (str "producer", Address_Hex keccak producer)].

Definition MakaBalanceTransferParam (keccak : list byte -> list byte) (from to : Address) (amount : Z) : list byte :=
  MarshalObject [(str "amount", FormatInt amount); (str "from", Address_Hex keccak from);
                 (str "funcId", str "0"); (str "to", Address_Hex keccak to)].
