(* ===== verification/Ledger.v ===== *)
(** * What the built-in contract does to balances

    The records of the contract, wherever they are kept (in memory, or through
    the state in the database), form a ledger; every action of the contract
    implements an operation on the ledger and leaves the answers of the account
    state alone.  From the specification: transfers conserve the total, the
    parameters the node writes itself are executed as meant, and the fee by which
    the pool ranks a transaction is the fee its execution moves. *)

From stdpp Require Import strings base gmap list.
From S2P Require Import Prelude Types TrieIface Numerals Hex Json StateObject StateDB StateView StateRevert StateInstance StateHistory Vm.
Local Open Scope Z_scope.

(** ** The specification *)

Definition ledger : Type := Address -> option (list byte).

Definition update (L : ledger) (a : Address) (d : list byte) : ledger :=
  fun b => if decide (b = a) then Some d else L b.

(** An operation on the ledger; [None] is a panic. *)
Definition Spec (A : Type) : Type := ledger -> option ((cErr + A) * ledger).

#[export] Instance Spec_ret : MRet Spec := fun A a L => Some (inr a, L).
#[export] Instance Spec_bind : MBind Spec := fun A B f m L =>
  match m L with
  | Some (inr a, L') => f a L'
  | Some (inl e, L') => Some (inl e, L')
  | None => None
  end.

Definition fails {A} (e : cErr) : Spec A := fun L => Some (inl e, L).
Definition panics {A} : Spec A := fun _ => None.

(** A balance that can be read: no record is a balance of zero for a receiver. *)
Definition spec_transfer (from to : Address) (amount : Z) : Spec (list ActionResult) := fun L =>
  if decide (from = to) then Some (inr [], L)
  else
    match L from with
    | None => Some (inl (NoData from), L)
    | Some df =>
        match UnmarshalAmount df, (match L to with None => Some 0 | Some dt => UnmarshalAmount dt end) with
        | None, _ => Some (inl BadData, L)
        | Some bf, bt =>
            if bf <? amount then Some (inl (Insufficient bf amount), L)
            else
              match bt with
              | None => Some (inl BadData, L)
              | Some bt =>
                  let f := MarshalAmount (i64 (bf - amount)) in
                  let t := MarshalAmount (i64 (bt + amount)) in
                  Some (inr [mkResult from f; mkResult to t], update (update L from f) to t)
              end
        end
    end.

Definition spec_string (v : jval) : Spec (list byte) := match v with JStr s => mret s | _ => panics end.

Definition spec_address (param : gmap (list byte) jval) (k : list byte) (missing : cErr) : Spec Address :=
  match param !! k with Some v => s ← spec_string v; mret (HexToAddress s) | None => fails missing end.

Definition spec_amount (param : gmap (list byte) jval) : Spec Z :=
  match param !! str "amount" with Some v => s ← spec_string v; mret (fst (Atoi s)) | None => mret 0 end.

(** [producer] gets [reward] more than it has. *)
Definition spec_reward (producer : Address) : Spec (list ActionResult) := fun L =>
  match (match L producer with None => Some 0 | Some d => UnmarshalAmount d end) with
  | None => Some (inl BadData, L)
  | Some n =>
      let d := MarshalAmount (i64 (n + reward)) in
      Some (inr [mkResult producer d], update L producer d)
  end.

Definition balance_in (L : ledger) (a : Address) : Z :=
  match L a with Some d => default 0 (UnmarshalAmount d) | None => 0 end.

(** The strings of an array, up to the first element that is not one. *)
Fixpoint all_strings (l : list jval) : option (list (list byte)) :=
  match l with
  | [] => Some []
  | JStr s :: l => cons s <$> all_strings l
  | _ :: _ => None
  end.

Definition spec_function (coinbase : Address) (param : gmap (list byte) jval) (id : Z) : Spec (list ActionResult) :=
  if id =? 0 then
    from ← spec_address param (str "from") NoFrom;
    to ← spec_address param (str "to") NoTo;
    amount ← spec_amount param;
    spec_transfer from to amount
  else if id =? 1 then
    producer ← spec_address param (str "producer") NoProducer;
    spec_reward producer
  else if id =? 2 then
    from ← spec_address param (str "from") NoFrom;
    amount ← spec_amount param;
    spec_transfer from coinbase amount
  else if id =? 3 then
    match param !! str "addresses" with
    | None => fails NoAddresses
    | Some (JArr l) =>
        match all_strings l with
        | Some addrs => fun L =>
            Some (inr [mkResult [] (MarshalAccounts ((fun a => (a, balance_in L (HexToAddress a))) <$> addrs))], L)
        | None => fails AddressType
        end
    | Some _ => fails AddressesType
    end
  else fails (NoFunc id).

(** The function that the parameters name. *)
Definition spec_call (f : gmap (list byte) jval -> Z -> Spec (list ActionResult)) (ps : list byte) : Spec (list ActionResult) :=
  match UnmarshalMap ps with
  | None => fails BadParams
  | Some param =>
      match param !! str "funcId" with
      | None => fails NoFuncId
      | Some v =>
          s ← spec_string v;
          match Atoi s with (id, None) => f param id | _ => fails FuncIdFormat end
      end
  end.

Definition spec_DoFun (coinbase : Address) (ps : list byte) : Spec (list ActionResult) := spec_call (spec_function coinbase) ps.

Definition spec_action (coinbase : Address) (action : Action) : Spec (list ActionResult) :=
  match act_Address action with
  | None => panics
  | Some a => if decide (a = BalanceTransferAddress) then spec_DoFun coinbase (act_Params action) else fails NoContract
  end.

(** The same without system parameters, as the creation of a contract runs its first
    action: every access to the ledger panics. *)
Definition spec_bare_function (param : gmap (list byte) jval) (id : Z) : Spec (list ActionResult) :=
  if id =? 0 then
    from ← spec_address param (str "from") NoFrom;
    to ← spec_address param (str "to") NoTo;
    _ ← spec_amount param;
    if decide (from = to) then mret [] else panics
  else if id =? 1 then
    _ ← spec_address param (str "producer") NoProducer; panics
  else if id =? 2 then
    _ ← spec_address param (str "from") NoFrom; panics
  else if id =? 3 then
    match param !! str "addresses" with
    | None => fails NoAddresses
    | Some (JArr l) =>
        match all_strings l with
        | Some [] => mret [mkResult [] (MarshalAccounts [])]
        | Some _ => panics
        | None => fails AddressType
        end
    | Some _ => fails AddressesType
    end
  else fails (NoFunc id).

Definition spec_bare_action (action : Action) : Spec (list ActionResult) :=
  match act_Address action with
  | None => panics
  | Some a => if decide (a = BalanceTransferAddress) then spec_call spec_bare_function (act_Params action) else fails NoContract
  end.

(** ** Refinement *)

Section Refinement.
Context {E T : Type} `{StateEnvLaws E T} (dbGet : list byte -> option (list byte)).
Abbreviation V := (vstate E T).
Implicit Types s : V.

Definition record_at s (c : Address) (k : list byte) : option (list byte) :=
  match ExistValue (v_tmp s) c k with
  | Some d => Some d
  | None => dbGet (a_storage (account_of (v_state s) c) (Keccak256Hash (c ++ k)))
  end.

Definition agrees s (L : ledger) : Prop :=
  forall a, length a = 20%nat -> record_at s BalanceTransferAddress a = L a.

(** Only caches of the account state change. *)
Record kept s s' : Prop := {
  kept_undo : undoable (v_state s) (v_state s');
  kept_eq : state_eq (v_state s') (v_state s);
}.

Lemma ckept_refl s : Inv (v_state s) -> kept s s.
Proof. intros Hi. split; [|reflexivity]. apply undoable_loaded; [done|apply loaded_refl]. Qed.

Lemma ckept_trans s1 s2 s3 : kept s1 s2 -> kept s2 s3 -> kept s1 s3.
Proof.
  intros [U1 E1] [U2 E2]. split; [|by etransitivity]. apply undoable_trans with (v_state s2); [apply U1|done..].
Qed.

Lemma kept_Inv s s' : kept s s' -> Inv (v_state s').
Proof. intros [U _]. apply U. Qed.

Definition sim {A} (m : C E T A) (f : Spec A) : Prop := forall s L, Inv (v_state s) -> agrees s L ->
  match f L with
  | None => m s = Panic
  | Some (r, L') => exists s', m s = Ok (r, s') /\ kept s s' /\ agrees s' L'
  end.

Lemma sim_ret {A} (a : A) : sim (mret a) (mret a).
Proof. intros s L Hi Ha. exists s. split; [done|]. split; [by apply ckept_refl|done]. Qed.

Lemma sim_fails {A} e : sim (raise e : C E T A) (fails e).
Proof. intros s L Hi Ha. exists s. split; [done|]. split; [by apply ckept_refl|done]. Qed.

Lemma sim_panics {A} : sim (crash : C E T A) panics.
Proof. by intros s L Hi Ha. Qed.

Lemma sim_bind {A B} (m : C E T A) (f : Spec A) (k : A -> C E T B) (g : A -> Spec B) :
  sim m f -> (forall a, sim (k a) (g a)) -> sim (m ≫= k) (f ≫= g).
Proof.
  intros Hm Hk s L Hi Ha. specialize (Hm s L Hi Ha). unfold mbind, C_bind, Spec_bind.
  destruct (f L) as [[[e|a] L']|]; [..|by rewrite Hm]; destruct Hm as (s1 & -> & K1 & A1); [by exists s1|].
  specialize (Hk a s1 L' (kept_Inv _ _ K1) A1). destruct (g a L') as [[r L2]|]; [|done].
  destruct Hk as (s2 & -> & K2 & A2). exists s2. split_and!; [done|by apply ckept_trans with s1|done].
Qed.

(** A step that wrote no journal entry changed no answer. *)
Lemma GetValue_spec s c k : Inv (v_state s) -> exists s',
  GetValue dbGet c k s = Ok (inr (record_at s c k), s') /\ kept s s' /\ v_tmp s' = v_tmp s.
Proof.
  intros Hi. unfold GetValue, record_at, mbind, C_bind, getTmp.
  destruct (ExistValue (v_tmp s) c k) as [d|]; [by exists s; split_and!; [|apply ckept_refl|]|].
  unfold on_state. destruct (GetState_undoable (v_state s) c (Keccak256Hash (c ++ k)) Hi) as (st & -> & Hu & Hj).
  exists (mkV st (v_tmp s)). split_and!; [|split; [done|]|done].
  - simpl. do 4 f_equal. unfold account_of. by destruct (load (v_state s) c).
  - by apply undoable_same_journal.
Qed.

Lemma record_at_kept s s' c k : kept s s' -> v_tmp s' = v_tmp s -> record_at s' c k = record_at s c k.
Proof.
  intros [_ Hse] Ht. unfold record_at. rewrite Ht. destruct (ExistValue (v_tmp s) c k); [done|].
  destruct (state_eq_account _ _ c Hse) as (_ & _ & Hst & _). by rewrite Hst.
Qed.

Lemma tmp_key_inj c k k' : length k = 20%nat -> length k' = 20%nat -> tmp_key c k = tmp_key c k' -> k = k'.
Proof.
  intros Hk Hk' [= He]. unfold BytesToAddress, Address_SetBytes in He. rewrite !setBytes_eq in He by done.
  unfold AddressLength in He. rewrite Hk, Hk' in He. exact He.
Qed.

Lemma SetValue_spec s k d : Inv (v_state s) -> length k = 20%nat -> exists s',
  SetValue BalanceTransferAddress k d s = Ok (inr (), s') /\ kept s s' /\
  forall L, agrees s L -> agrees s' (update L k d).
Proof.
  intros Hi Hk. set (node := default ∅ (v_tmp s !! BalanceTransferAddress)).
  exists (mkV (v_state s) (<[BalanceTransferAddress := <[tmp_key BalanceTransferAddress k := d]> node]> (v_tmp s))).
  split; [reflexivity|]. split.
  { split; [|reflexivity]. apply undoable_loaded; [done|apply loaded_refl]. }
  intros L Ha a Hlen. unfold record_at, update, ExistValue. simpl. rewrite lookup_insert_eq.
  destruct (decide (a = k)) as [->|Hne]; [by rewrite lookup_insert_eq|].
  rewrite lookup_insert_ne by (intros He; by apply tmp_key_inj in He). specialize (Ha a Hlen). unfold record_at, ExistValue in Ha.
  rewrite <- Ha. subst node. destruct (v_tmp s !! BalanceTransferAddress); simpl; [done|by rewrite lookup_empty].
Qed.

(** Reading a record of the contract. *)
Lemma sim_get {A} cb a (k : option (list byte) -> C E T A) (f : Spec A) : length a = 20%nat ->
  (forall s L, Inv (v_state s) -> agrees s L -> forall s', kept s s' -> agrees s' L ->
     match f L with
     | None => k (L a) s' = Panic
     | Some (r, L') => exists s2, k (L a) s' = Ok (r, s2) /\ kept s' s2 /\ agrees s2 L'
     end) ->
  sim (Sys_GetValue dbGet (Some cb) BalanceTransferAddress a ≫= k) f.
Proof.
  intros Hlen Hk s L Hi Ha. simpl. unfold mbind, C_bind.
  destruct (GetValue_spec s BalanceTransferAddress a Hi) as (s1 & -> & K1 & T1). rewrite (Ha a Hlen).
  assert (agrees s1 L) as A1 by (intros b Hb; rewrite (record_at_kept s s1); auto).
  specialize (Hk s L Hi Ha s1 K1 A1). destruct (f L) as [[r L']|]; [|done].
  destruct Hk as (s2 & -> & K2 & A2). exists s2. split_and!; [done|by apply ckept_trans with s1|done].
Qed.

(** The same, for a continuation that is itself refined for every answer. *)
Lemma sim_get' {A} cb a (k : option (list byte) -> C E T A) (g : option (list byte) -> Spec A) : length a = 20%nat ->
  (forall d, sim (k d) (g d)) -> sim (Sys_GetValue dbGet (Some cb) BalanceTransferAddress a ≫= k) (fun L => g (L a) L).
Proof.
  intros Hlen Hk. apply sim_get; [done|]. intros s L Hi Ha s' K A'. apply (Hk (L a)); [by apply kept_Inv with s|done].
Qed.

Lemma sim_set {A} cb a d (k : unit -> C E T A) (g : Spec A) : length a = 20%nat ->
  sim (k ()) g -> sim (Sys_SetValue (Some cb) BalanceTransferAddress a d ≫= k) (fun L => g (update L a d)).
Proof.
  intros Hlen Hk s L Hi Ha. simpl. unfold mbind, C_bind.
  destruct (SetValue_spec s a d Hi Hlen) as (s1 & -> & K1 & A1).
  specialize (Hk s1 (update L a d) (kept_Inv _ _ K1) (A1 L Ha)). destruct (g (update L a d)) as [[r L']|]; [|done].
  destruct Hk as (s2 & -> & K2 & A2). exists s2. split_and!; [done|by apply ckept_trans with s1|done].
Qed.

Lemma sim_ext {A} (m : C E T A) (f g : Spec A) : sim m f -> (forall L, f L = g L) -> sim m g.
Proof. intros Hm Hfg s L Hi Ha. rewrite <- Hfg. by apply Hm. Qed.

Lemma sim_unmarshal d : sim (unmarshal_balance d) (match UnmarshalAmount d with Some n => mret n | None => fails BadData end).
Proof. unfold unmarshal_balance. destruct (UnmarshalAmount d); [apply sim_ret|apply sim_fails]. Qed.

Lemma HexToAddress_length x : length (HexToAddress x) = 20%nat.
Proof. by apply setBytes_length. Qed.

(** ** The actions of the contract *)

Lemma transfer_sim cb from to amount : length from = 20%nat -> length to = 20%nat ->
  sim (transfer dbGet (Some cb) from to amount) (spec_transfer from to amount).
Proof.
  intros Hf Ht. unfold transfer. case_bool_decide as Hft.
  { eapply sim_ext; [apply sim_ret|]. intros L. unfold spec_transfer. by rewrite decide_True. }
  set (um d := match UnmarshalAmount d with Some n => mret n | None => fails BadData end : Spec Z).
  set (write bf bt := fun L : ledger =>
    let f := MarshalAmount (i64 (bf - amount)) in let t := MarshalAmount (i64 (bt + amount)) in
    Some (inr [mkResult from f; mkResult to t] : cErr + list ActionResult, update (update L from f) to t)).
  set (credit bf := fun dt => bt ← match dt with None => mret 0 | Some d => um d end; write bf bt).
  set (debit := fun df => match df with
    | None => fails (NoData from)
    | Some df => bf ← um df; if bf <? amount then fails (Insufficient bf amount) else fun L => credit bf (L to) L
    end).
  apply (sim_ext _ (fun L => debit (L from) L)).
  - apply sim_get'; [done|]. intros [df|]; [|apply sim_fails]. apply sim_bind; [apply sim_unmarshal|]. intros bf.
    destruct (bf <? amount); [apply sim_fails|]. apply sim_get'; [done|]. intros dt. apply sim_bind.
    { destruct dt; [apply sim_unmarshal|apply sim_ret]. }
    intros bt. set (f := MarshalAmount (i64 (bf - amount))). set (t := MarshalAmount (i64 (bt + amount))).
    set (r := [mkResult from f; mkResult to t]).
    refine (sim_set cb from f _ (fun L => Some (inr r, update L to t)) Hf _).
    refine (sim_set cb to t _ (mret r) Ht _). refine (sim_get' cb to _ (fun _ => mret r) Ht _). intros _. apply sim_ret.
  - intros L. unfold spec_transfer, debit. rewrite decide_False by done. destruct (L from) as [df|]; [|done].
    unfold um, credit, mbind, Spec_bind. destruct (UnmarshalAmount df) as [bf|]; [|done]. simpl. destruct (bf <? amount); [done|].
    destruct (L to) as [dt|]; [unfold um; destruct (UnmarshalAmount dt)|]; done.
Qed.

Lemma reward_sim cb producer : length producer = 20%nat ->
  sim (data ← Sys_GetValue dbGet (Some cb) BalanceTransferAddress producer;
       balance ← match data with
                 | None => mret reward
                 | Some d => n ← unmarshal_balance d; mret (i64 (n + reward))
                 end;
       _ ← Sys_SetValue (Some cb) BalanceTransferAddress producer (MarshalAmount balance);
       mret [mkResult producer (MarshalAmount balance)]) (spec_reward producer).
Proof.
  intros Hp. set (um d := match UnmarshalAmount d with Some n => mret n | None => fails BadData end : Spec Z).
  set (bal d := match d with None => mret reward | Some d => n ← um d; mret (i64 (n + reward)) end : Spec Z).
  set (write b := fun L : ledger => Some (inr [mkResult producer (MarshalAmount b)] : cErr + list ActionResult, update L producer (MarshalAmount b))).
  apply (sim_ext _ (fun L => (b ← bal (L producer); write b) L)).
  - apply (sim_get' cb producer _ (fun d => b ← bal d; write b)); [done|]. intros d. apply sim_bind.
    { destruct d; [apply sim_bind; [apply sim_unmarshal|intros n; apply sim_ret]|apply sim_ret]. }
    intros b. refine (sim_set cb producer (MarshalAmount b) _ (mret [mkResult producer (MarshalAmount b)]) Hp _). apply sim_ret.
  - intros L. unfold spec_reward, bal, write, um, mbind, Spec_bind.
    destruct (L producer) as [d|]; [destruct (UnmarshalAmount d)|]; done.
Qed.

Lemma sim_address param k e : sim (address_param param k e : C E T Address) (spec_address param k e).
Proof.
  unfold address_param, spec_address. destruct (param !! k) as [v|]; [|apply sim_fails].
  apply sim_bind; [destruct v; apply sim_ret || apply sim_panics|]. intros x. apply sim_ret.
Qed.

Lemma sim_amount param : sim (amount_param param : C E T Z) (spec_amount param).
Proof.
  unfold amount_param, spec_amount. destruct (param !! str "amount") as [v|]; [|apply sim_ret].
  apply sim_bind; [destruct v; apply sim_ret || apply sim_panics|]. intros x. apply sim_ret.
Qed.

(** Address parameters are addresses. *)
Lemma sim_address_bind {B} param k e (m : Address -> C E T B) g :
  (forall a, length a = 20%nat -> sim (m a) (g a)) -> sim (address_param param k e ≫= m) (spec_address param k e ≫= g).
Proof.
  intros Hm. unfold address_param, spec_address. destruct (param !! k) as [v|]; [|intros s L Hi Ha; exists s; split; [done|split; [by apply ckept_refl|done]]].
  destruct v; try (intros s' L Hi Ha; done). intros s' L Hi Ha. apply (Hm (HexToAddress s)); [apply HexToAddress_length|done..].
Qed.

Lemma string_list_eq l : (string_list l : C E T _) = match all_strings l with Some x => mret x | None => raise AddressType end.
Proof.
  induction l as [|[| | |x| |] l IH]; try done. simpl. rewrite IH. by destruct (all_strings l).
Qed.

Lemma query_sim cb addrs : sim (query_balances dbGet (Some cb) addrs)
  (fun L => Some (inr ((fun a => (a, balance_in L (HexToAddress a))) <$> addrs), L)).
Proof.
  induction addrs as [|a addrs IH]; [apply (sim_ret [])|]. cbn [query_balances].
  set (n d := match d with Some d => default 0 (UnmarshalAmount d) | None => 0 end).
  set (rest := (fun L => Some (inr ((fun b => (b, balance_in L (HexToAddress b))) <$> addrs), L)) : Spec _) in IH.
  apply (sim_ext _ (fun L => (r ← rest; mret ((a, n (L (HexToAddress a))) :: r)) L)); [|done].
  apply (sim_get' cb (HexToAddress a) _ (fun d => r ← rest; mret ((a, n d) :: r))); [apply HexToAddress_length|].
  intros d. apply sim_bind; [exact IH|]. intros r. apply sim_ret.
Qed.

Lemma sim_function cb param id : length cb = 20%nat ->
  sim (match funcMapper dbGet id with Some doFunc => doFunc param (Some cb) | None => raise (NoFunc id) end)
      (spec_function cb param id).
Proof.
  intros Hcb. unfold funcMapper, spec_function.
  destruct (id =? 0).
  { apply sim_address_bind. intros from Hf. apply sim_address_bind. intros to Ht.
    apply sim_bind; [apply sim_amount|]. intros amount. by apply transfer_sim. }
  destruct (id =? 1). { apply sim_address_bind. intros p Hp. by apply reward_sim. }
  destruct (id =? 2).
  { apply sim_address_bind. intros from Hf. unfold sim.
    change (sim (amount_param param ≫= fun a => transfer dbGet (Some cb) from cb a)
                (spec_amount param ≫= fun a => spec_transfer from cb a)).
    apply sim_bind; [apply sim_amount|]. intros amount. by apply transfer_sim. }
  destruct (id =? 3); [|apply sim_fails]. unfold GetBalance.
  destruct (param !! str "addresses") as [[| | | |l|]|]; try apply sim_fails. rewrite string_list_eq.
  destruct (all_strings l) as [addrs|]; [|apply sim_fails].
  refine (sim_bind _ _ (fun all => mret [mkResult [] (MarshalAccounts all)]) (fun all => mret [mkResult [] (MarshalAccounts all)])
    (query_sim cb addrs) _).
  intros all. apply sim_ret.
Qed.

(** Every action of the contract implements its specification. *)
Lemma SendWork_sim cb action : length cb = 20%nat -> sim (SendWork dbGet action (Some cb)) (spec_action cb action).
Proof.
  intros Hcb. unfold SendWork, spec_action. destruct (act_Address action) as [a|]; [|apply sim_panics].
  unfold Vms_DealAction. simpl. case_bool_decide as Ha; [rewrite decide_True by done|rewrite decide_False by done; apply sim_fails].
  unfold DoFun, spec_DoFun, spec_call. destruct (UnmarshalMap (act_Params action)) as [param|]; [|apply sim_fails].
  destruct (param !! str "funcId") as [v|]; [|apply sim_fails].
  apply sim_bind; [destruct v; apply sim_ret || apply sim_panics|]. intros x.
  destruct (Atoi x) as [id [e|]]; [apply sim_fails|]. by apply sim_function.
Qed.

(** *** Without system parameters *)

(** [m] does what [f] says, whatever the state and the ledger, and touches neither. *)
Definition detached {A} (m : C E T A) (f : Spec A) : Prop := forall s L,
  match f L with
  | None => m s = Panic
  | Some (r, L') => m s = Ok (r, s) /\ L' = L
  end.

Lemma detached_ret {A} (a : A) : detached (mret a) (mret a).
Proof. by intros s L. Qed.
Lemma detached_fails {A} e : detached (raise e : C E T A) (fails e).
Proof. by intros s L. Qed.
Lemma detached_panics {A} : detached (crash : C E T A) panics.
Proof. by intros s L. Qed.

Lemma detached_bind {A B} (m : C E T A) (f : Spec A) (k : A -> C E T B) (g : A -> Spec B) :
  detached m f -> (forall a, detached (k a) (g a)) -> detached (m ≫= k) (f ≫= g).
Proof.
  intros Hm Hk s L. specialize (Hm s L). unfold mbind, C_bind, Spec_bind.
  destruct (f L) as [[[e|a] L']|]; [..|by rewrite Hm]; destruct Hm as [-> ->]; [done|apply Hk].
Qed.

Hint Resolve detached_ret detached_fails detached_panics : detached.

Lemma detached_string v : detached (as_string v : C E T _) (spec_string v).
Proof. destruct v; simpl; auto with detached. Qed.

Lemma detached_address param k e : detached (address_param param k e : C E T Address) (spec_address param k e).
Proof.
  unfold address_param, spec_address. destruct (param !! k); [|apply detached_fails].
  apply detached_bind; [apply detached_string|]. auto with detached.
Qed.

Lemma detached_amount param : detached (amount_param param : C E T Z) (spec_amount param).
Proof.
  unfold amount_param, spec_amount. destruct (param !! _); [|apply detached_ret].
  apply detached_bind; [apply detached_string|]. auto with detached.
Qed.

Lemma detached_function param id :
  detached (match funcMapper dbGet id with Some doFunc => doFunc param None | None => raise (NoFunc id) end) (spec_bare_function param id).
Proof.
  unfold funcMapper, spec_bare_function. destruct (id =? 0).
  { apply detached_bind; [apply detached_address|]. intros from. apply detached_bind; [apply detached_address|]. intros to.
    apply detached_bind; [apply detached_amount|]. intros amount. unfold transfer.
    case_bool_decide; [rewrite decide_True by done|rewrite decide_False by done]; auto with detached. }
  destruct (id =? 1). { apply detached_bind; [apply detached_address|]. intros p. apply detached_panics. }
  destruct (id =? 2). { apply detached_bind; [apply detached_address|]. intros p. apply detached_panics. }
  destruct (id =? 3); [|apply detached_fails]. unfold GetBalance.
  destruct (param !! str "addresses") as [[| | | |l|]|]; try apply detached_fails. rewrite string_list_eq.
  destruct (all_strings l) as [[|x addrs]|]; [apply (detached_ret [mkResult [] (MarshalAccounts [])])|apply detached_panics|apply detached_fails].
Qed.

(** Without system parameters an action never reaches the ledger. *)
Lemma SendWork_bare action : detached (SendWork dbGet action None) (spec_bare_action action).
Proof.
  unfold SendWork, spec_bare_action. destruct (act_Address action) as [a|]; [|apply detached_panics].
  unfold Vms_DealAction. simpl. case_bool_decide as Ha; [rewrite decide_True by done|rewrite decide_False by done; apply detached_fails].
  unfold DoFun, spec_call. destruct (UnmarshalMap (act_Params action)) as [param|]; [|apply detached_fails].
  destruct (param !! str "funcId") as [v|]; [|apply detached_fails]. apply detached_bind; [apply detached_string|]. intros x.
  destruct (Atoi x) as [id [e|]]; [apply detached_fails|]. apply detached_function.
Qed.

(** ** Balances *)

(** The balance the contract finds for [a]: no or unreadable record counts as zero. *)
Definition balance s (a : Address) : Z := balance_in (record_at s BalanceTransferAddress) a.

Definition total s (l : list Address) : Z := foldr (fun a acc => balance s a + acc) 0 l.

Lemma agrees_self s : agrees s (record_at s BalanceTransferAddress).
Proof. by intros a. Qed.

Lemma agrees_balance s L a : agrees s L -> length a = 20%nat -> balance s a = balance_in L a.
Proof. intros Ha Hl. unfold balance, balance_in. by rewrite (Ha a Hl). Qed.

Lemma balance_update L a d b : balance_in (update L a d) b = if decide (b = a) then default 0 (UnmarshalAmount d) else balance_in L b.
Proof. unfold balance_in, update. by destruct (decide (b = a)). Qed.

Lemma balance_amount n : minInt64 <= n <= maxInt64 -> default 0 (UnmarshalAmount (MarshalAmount n)) = n.
Proof. intros Hn. by rewrite UnmarshalAmount_Marshal. Qed.

(** What a transfer that succeeds did. *)
Lemma transfer_done s s' cb from to amount res : Inv (v_state s) -> length from = 20%nat -> length to = 20%nat -> from <> to ->
  transfer dbGet (Some cb) from to amount s = Ok (inr res, s') ->
  kept s s' /\ amount <= balance s from /\
  (forall a, length a = 20%nat -> balance s' a =
     if decide (a = to) then i64 (balance s to + amount)
     else if decide (a = from) then i64 (balance s from - amount) else balance s a).
Proof.
  intros Hi Hf Ht Hne Hr. pose proof (transfer_sim cb from to amount Hf Ht s _ Hi (agrees_self s)) as Hs.
  unfold spec_transfer in Hs. rewrite decide_False in Hs by done.
  set (L := record_at s BalanceTransferAddress) in *.
  assert (balance s from = balance_in L from /\ balance s to = balance_in L to) as [Bf Bt] by done.
  unfold balance_in in Bf, Bt.
  destruct (L from) as [df|]; [|destruct Hs as (? & Hs & _); congruence].
  destruct (UnmarshalAmount df) as [bf|]; [|destruct Hs as (? & Hs & _); congruence]. simpl in Bf.
  destruct (Z.ltb_spec bf amount); [destruct Hs as (? & Hs & _); congruence|].
  destruct (match L to with None => Some 0 | Some dt => UnmarshalAmount dt end) as [bt|] eqn:Hbt;
    [|destruct Hs as (? & Hs & _); congruence].
  assert (balance s to = bt) as Bt' by (rewrite Bt; destruct (L to); [by rewrite Hbt|congruence]).
  destruct Hs as (s1 & Hs1 & K & A). rewrite Hr in Hs1. injection Hs1 as -> ->. split; [done|]. split; [lia|].
  intros a Ha. rewrite (agrees_balance _ _ a A Ha), !balance_update, !balance_amount by apply i64_range.
  by rewrite Bf, Bt'.
Qed.

Lemma total_split s l a : NoDup l -> a ∈ l -> total s l = balance s a + total s (filter (fun b => b <> a) l).
Proof.
  induction 1 as [|b l Hb Hnd IH]; intros Ha; [by apply elem_of_nil in Ha|]. rewrite filter_cons. simpl.
  destruct (decide (b = a)) as [->|Hne].
  - rewrite decide_False by auto. f_equal. rewrite filter_all; [done|]. intros c Hc ->. done.
  - rewrite decide_True by done. simpl. rewrite IH; [lia|]. by apply elem_of_cons in Ha as [->|].
Qed.

Lemma total_ext s s' l : (forall a, a ∈ l -> balance s' a = balance s a) -> total s' l = total s l.
Proof.
  induction l as [|a l IH]; intros He; [done|]. simpl. rewrite (He a (list_elem_of_here _ _)), IH; [done|].
  intros b Hb. apply He. by apply list_elem_of_further.
Qed.

(** ** Claims *)

(** C7: every action sent to the virtual machine implements its specification on
    the ledger: it panics when the specification does, returns the specified result
    or error, leaves the specified ledger, and changes no answer of the account
    state. *)
Theorem contract_refines s L cb action : Inv (v_state s) -> agrees s L -> length cb = 20%nat ->
  match spec_action cb action L with
  | None => SendWork dbGet action (Some cb) s = Panic
  | Some (r, L') => exists s', SendWork dbGet action (Some cb) s = Ok (r, s') /\ agrees s' L' /\
      Inv (v_state s') /\ forall q, answer_of (v_state s') q = answer_of (v_state s) q
  end.
Proof.
  intros Hi Ha Hcb. pose proof (SendWork_sim cb action Hcb s L Hi Ha) as Hs.
  destruct (spec_action cb action L) as [[r L']|]; [|done]. destruct Hs as (s' & Hs & K & A). exists s'.
  split_and!; try done; [by apply kept_Inv with s|]. intros q. apply state_eq_answers, K.
Qed.

(** C32: a transfer that succeeds, between different accounts and without overflow,
    takes the amount from a balance that covers it, adds it to the other and leaves
    the total over any set of accounts that holds both unchanged. *)
Theorem transfer_conserves s s' cb from to amount res l :
  Inv (v_state s) -> length from = 20%nat -> length to = 20%nat -> from <> to ->
  transfer dbGet (Some cb) from to amount s = Ok (inr res, s') ->
  minInt64 <= balance s from - amount <= maxInt64 -> minInt64 <= balance s to + amount <= maxInt64 ->
  NoDup l -> from ∈ l -> to ∈ l -> Forall (fun a => length a = 20%nat) l ->
  amount <= balance s from /\ balance s' from = balance s from - amount /\ balance s' to = balance s to + amount /\
  total s' l = total s l.
Proof.
  intros Hi Hf Ht Hne Hr Of Ot Hnd Hfl Htl Hlen.
  destruct (transfer_done s s' cb from to amount res Hi Hf Ht Hne Hr) as (_ & Hle & Hb).
  assert (balance s' from = balance s from - amount) as Bf.
  { rewrite (Hb from Hf), decide_False, decide_True by done. by apply i64_small. }
  assert (balance s' to = balance s to + amount) as Bt.
  { rewrite (Hb to Ht), decide_True by done. by apply i64_small. }
  split_and!; try done. rewrite Forall_forall in Hlen.
  assert (to ∈ filter (fun b => b <> from) l) as Htl' by (apply list_elem_of_filter; split; [congruence|done]).
  rewrite (total_split s' l from), (total_split s l from), (total_split s' _ to), (total_split s _ to); try done.
  2, 3: by apply NoDup_filter.
  rewrite (total_ext s s'), Bf, Bt; [lia|]. intros a [Ha1 [Ha2 Ha3]%list_elem_of_filter]%list_elem_of_filter.
  rewrite (Hb a), !decide_False by auto. done.
Qed.

End Refinement.

(** ** Parameters written by the node *)

Lemma digit_plain c : is_Some (digit_val c) -> plain c.
Proof.
  intros [d Hd]. unfold digit_val in Hd. unfold plain.
  destruct (Z.leb_spec 48 c), (Z.leb_spec c 57), (Z.leb_spec 97 c), (Z.leb_spec c 102), (Z.leb_spec 65 c), (Z.leb_spec c 70);
    simpl in Hd; try done; lia.
Qed.

Lemma Address_Hex_plain keccak a : Forall byte_ok a -> Forall plain (Address_Hex keccak a).
Proof.
  intros (ds & -> & Hd)%(Address_Hex_digits keccak). apply Forall_app. split; [by repeat constructor|].
  eapply Forall_impl; [exact Hd|]. apply digit_plain.
Qed.

Lemma UnmarshalMap_object l : l <> [] -> Forall (fun kv => Forall plain kv.1 /\ Forall plain kv.2) l ->
  UnmarshalMap (MarshalObject l) = Some (foldl (fun acc kv => <[kv.1 := JStr kv.2]> acc) ∅ l).
Proof.
  intros Hne Hall. unfold UnmarshalMap. rewrite parse_object by done.
  assert (forall l : list (list byte * list byte), forallb (fun kv => decodable kv.2) ((fun kv => (kv.1, JStr kv.2)) <$> l) = true) as ->
    by (clear; intros l; induction l; done).
  f_equal. generalize (∅ : gmap (list byte) jval). clear. induction l as [|[k v] l IH]; intros acc; [done|]. apply IH.
Qed.

Lemma reward_params x : Forall plain x -> exists param : gmap (list byte) jval,
  UnmarshalMap (MarshalObject [(str "funcId", str "1"); (str "producer", x)]) = Some param /\
  param !! str "funcId" = Some (JStr (str "1")) /\ param !! str "producer" = Some (JStr x).
Proof.
  intros Hx. eexists. split; [apply UnmarshalMap_object; [done|]|split; vm_compute; reflexivity].
  apply Forall_cons; split; [split; by repeat constructor|]. apply Forall_cons; split; [split; [by repeat constructor|done]|constructor].
Qed.

Lemma transfer_params a f t : Forall plain a -> Forall plain f -> Forall plain t -> exists param : gmap (list byte) jval,
  UnmarshalMap (MarshalObject [(str "amount", a); (str "from", f); (str "funcId", str "0"); (str "to", t)]) = Some param /\
  param !! str "funcId" = Some (JStr (str "0")) /\ param !! str "from" = Some (JStr f) /\
  param !! str "to" = Some (JStr t) /\ param !! str "amount" = Some (JStr a).
Proof.
  intros Ha Hf Ht. eexists. split; [apply UnmarshalMap_object; [done|]|split_and!; vm_compute; reflexivity].
  do 2 (apply Forall_cons; split; [split; [by repeat constructor|done]|]).
  apply Forall_cons; split; [split; by repeat constructor|]. apply Forall_cons; split; [split; [by repeat constructor|done]|constructor].
Qed.

Section Params.
Context {E T : Type} `{StateEnvLaws E T} (dbGet : list byte -> option (list byte)) (keccak : list byte -> list byte).

(** the parameters that the node writes itself are executed as meant: the
    reward of a block credits its producer, and a transfer moves the given amount
    between the given accounts; text and hex forms lose nothing on the way. *)
Theorem node_params_execute cb p from to amount (s : vstate E T) (L : ledger) :
  length p = 20%nat -> Forall byte_ok p -> length from = 20%nat -> Forall byte_ok from ->
  length to = 20%nat -> Forall byte_ok to -> minInt64 <= amount <= maxInt64 ->
  spec_action cb (mkAction (Some zeroAddress) (MakeActionParamsReword keccak p)) L = spec_reward p L /\
  SendWork dbGet (mkAction (Some zeroAddress) (MakaBalanceTransferParam keccak from to amount)) (Some cb) s =
    transfer dbGet (Some cb) from to amount s.
Proof.
  intros Hp Bp Hf Bf Ht Bt Ha. pose proof (Address_Hex_plain keccak) as Hpl.
  assert (forall x, Forall (fun c => is_digit c = true) x -> Forall plain x) as Hdig.
  { intros x Hx. eapply Forall_impl; [exact Hx|]. intros c. unfold is_digit, plain. lia. }
  assert (Forall plain (FormatInt amount)) as Hamt.
  { unfold FormatInt. destruct (Z.ltb_spec amount 0); [apply Forall_cons; split; [done|]|]; apply Hdig, FormatUint_digits; lia. }
  split.
  - transitivity (spec_DoFun cb (MakeActionParamsReword keccak p) L); [reflexivity|].
    destruct (reward_params (Address_Hex keccak p)) as (param & Hu & Hid & Hpr); [by apply Hpl|].
    unfold spec_DoFun, spec_call, MakeActionParamsReword. rewrite Hu, Hid. change (spec_function cb param 1 L = spec_reward p L).
    unfold spec_function. cbn [Z.eqb]. unfold spec_address. rewrite Hpr. cbv [mbind Spec_bind mret Spec_ret spec_string].
    by rewrite HexToAddress_Hex.
  - transitivity (DoFun dbGet (MakaBalanceTransferParam keccak from to amount) (Some cb) s); [reflexivity|].
    destruct (transfer_params (FormatInt amount) (Address_Hex keccak from) (Address_Hex keccak to)) as (param & Hu & Hid & Hfr & Hto & Ham);
      [done|by apply Hpl..|].
    unfold DoFun, MakaBalanceTransferParam. rewrite Hu, Hid. change (TransferBalance dbGet param (Some cb) s = transfer dbGet (Some cb) from to amount s).
    unfold TransferBalance, address_param, amount_param. rewrite Hfr, Hto, Ham. cbv [mbind C_bind mret C_ret as_string].
    by rewrite Atoi_FormatInt, !HexToAddress_Hex.
Qed.

End Params.

(** the priority that the pool gives to a transaction is the fee that executing
    its first action moves to the producer: when [CheckFee] finds a fee, the action
    is the transfer of exactly that amount to the coinbase. *)
Theorem fee_is_priority {E T} `{StateEnvLaws E T} dbGet addr ps n cb (s : vstate E T) :
  CheckFee addr ps = Ok (n, None) ->
  GetPriority [mkAction (Some addr) ps] = Ok n /\
  exists param, UnmarshalMap ps = Some param /\
    SendWork dbGet (mkAction (Some addr) ps) (Some cb) s =
      (from ← address_param param (str "from") NoFrom; transfer dbGet (Some cb) from cb n) s.
Proof.
  intros Hc. split; [simpl; by rewrite Hc|]. unfold CheckFee in Hc. case_bool_decide as Ha; simpl in Hc; [|done].
  destruct (UnmarshalMap ps) as [param|] eqn:Hu; [|done]. exists param. split; [done|].
  destruct (param !! str "funcId") as [[| | |x| |]|] eqn:Hid; try done.
  destruct (Atoi x) as [vi [e|]] eqn:Hx; [done|]. destruct (Z.eqb_spec vi 2) as [->|]; simpl in Hc; [|done].
  destruct (param !! str "amount") as [[| | |y| |]|] eqn:Ham; try done.
  destruct (Atoi y) as [m [e|]] eqn:Hy; simplify_eq.
  transitivity (DoFun dbGet ps (Some cb) s); [reflexivity|]. unfold DoFun. rewrite Hu, Hid.
  cbv [mbind C_bind mret C_ret as_string]. rewrite Hx. unfold funcMapper. cbn [Z.eqb Pos.eqb].
  unfold TransferFee, amount_param. rewrite Ham.
  cbv [mbind C_bind mret C_ret as_string Sys_GetCoinbase with_sys].
  destruct (address_param param (str "from") NoFrom s) as [[[e|a] s1]|e| |]; [reflexivity|rewrite Hy; reflexivity|reflexivity..].
Qed.

(** ** Examples *)

Definition alice : Address := replicate 19 0 ++ [10].
Definition bob : Address := replicate 19 0 ++ [11].
Definition noDb : list byte -> option (list byte) := fun _ => None.

(** Alice has 100 and Bob 50. *)
Definition exLedger : vstate unit memTrie :=
  mkV memState {[ zeroAddress := {[ tmp_key zeroAddress alice := MarshalAmount 100; tmp_key zeroAddress bob := MarshalAmount 50 ]} ]}.

Definition txParams (amount : Z) : list byte := MakaBalanceTransferParam (fun _ => replicate 32 0) alice bob amount.

Definition balances_after (r : outcome (stateErr unit) ((cErr + list ActionResult) * vstate unit memTrie)) : option (Z * Z) :=
  match r with Ok (inr _, s) => Some (balance noDb s alice, balance noDb s bob) | _ => None end.

Lemma contract_refines_witness : exists r s',
  SendWork noDb (mkAction (Some zeroAddress) (txParams 30)) (Some zeroAddress) exLedger = Ok (r, s') /\ Inv (v_state s').
Proof.
  pose proof (contract_refines noDb exLedger (record_at noDb exLedger BalanceTransferAddress) zeroAddress
    (mkAction (Some zeroAddress) (txParams 30)) memState_Inv (agrees_self noDb exLedger) eq_refl) as Hr.
  assert (match spec_action zeroAddress (mkAction (Some zeroAddress) (txParams 30)) (record_at noDb exLedger BalanceTransferAddress)
          with Some _ => true | None => false end = true) as He by (vm_compute; reflexivity).
  destruct (spec_action _ _ _) as [[r L']|]; [|discriminate].
  destruct Hr as (s' & Hs & _ & Hi & _). exists r, s'. split; [exact Hs|exact Hi].
Defined.

Definition exTransferred : vstate unit memTrie :=
  match transfer noDb (Some zeroAddress) alice bob 30 exLedger with Ok (_, s) => s | _ => exLedger end.

Lemma transfer_conserves_witness : total noDb exTransferred [alice; bob] = 150 /\ balance noDb exTransferred bob = 80.
Proof.
  destruct (transfer_conserves noDb exLedger exTransferred zeroAddress alice bob 30
    [mkResult alice (MarshalAmount 70); mkResult bob (MarshalAmount 80)] [alice; bob] memState_Inv eq_refl eq_refl) as (_ & _ & Hb & Ht).
  - vm_compute. discriminate.
  - vm_compute. reflexivity.
  - vm_compute. split; discriminate.
  - vm_compute. split; discriminate.
  - apply (bool_decide_unpack _). vm_compute. exact I.
  - apply list_elem_of_here.
  - apply list_elem_of_further, list_elem_of_here.
  - repeat constructor.
  - rewrite Ht, Hb. split; vm_compute; reflexivity.
Defined.

Lemma node_params_execute_witness :
  balances_after (SendWork noDb (mkAction (Some zeroAddress) (txParams 30)) (Some zeroAddress) exLedger) = Some (70, 80).
Proof.
  destruct (node_params_execute noDb (fun _ => replicate 32 0) zeroAddress alice alice bob 30 exLedger (fun _ => None)) as [_ Hs].
  1, 3, 5: reflexivity.
  1-3: repeat constructor; by vm_compute.
  { vm_compute. split; discriminate. }
  unfold txParams. rewrite Hs. vm_compute. reflexivity.
Defined.

Definition feeParams : list byte :=
  MarshalObject [(str "amount", str "7"); (str "from", Address_Hex (fun _ => replicate 32 0) alice); (str "funcId", str "2")].

Lemma fee_is_priority_witness : GetPriority [mkAction (Some zeroAddress) feeParams] = Ok 7.
Proof.
  apply (fee_is_priority noDb zeroAddress feeParams 7 bob exLedger). vm_compute. reflexivity.
Defined.

(** ** Behaviour to know about *)

(** A negative amount moves balance the other way, without the owner's consent and
    below zero; nothing compares the payer with the signer of the transaction. *)
Example negative_amount_takes :
  balances_after (SendWork noDb (mkAction (Some zeroAddress) (txParams (-1000))) (Some zeroAddress) exLedger) = Some (1100, -950).
Proof. vm_compute. reflexivity. Qed.

(** The sum of the receiver wraps around at 64 bits. *)
Example receiver_overflow :
  balance noDb (match transfer noDb (Some zeroAddress) alice bob 100
    (mkV memState {[ zeroAddress := {[ tmp_key zeroAddress alice := MarshalAmount 100; tmp_key zeroAddress bob := MarshalAmount maxInt64 ]} ]})
    with Ok (_, s) => s | _ => exLedger end) bob = minInt64 + 99.
Proof. vm_compute. reflexivity. Qed.

(** A function id or amount that is not a string takes the process down, in the
    virtual machine and in the pool. *)
Example non_string_parameter :
  let ps := str "{" ++ quoted (str "funcId") ++ str ":2}" in
  SendWork noDb (mkAction (Some zeroAddress) ps) (Some zeroAddress) exLedger = Panic /\
  GetPriority [mkAction (Some zeroAddress) ps] = Panic.
Proof. split; vm_compute; reflexivity. Qed.

(** Anyone may call the reward function. *)
Example anyone_mints :
  let ps := MakeActionParamsReword (fun _ => replicate 32 0) alice in
  balances_after (SendWork noDb (mkAction (Some zeroAddress) ps) (Some bob) exLedger) = Some (500100, 50).
Proof. vm_compute. reflexivity. Qed.
