(* ===== verification/Processor.v ===== *)
(** * Executing transactions (core/stateprocessor, core/interpreter/interface.go)

    The state transition of one transaction, its receipt, the processing of a
    whole block, and the producer's attempt to include a transaction
    (blockproducer/producer.go).  The sender of a transaction is the result of
    the signature check; the address of a new contract is a function of sender
    and nonce. *)

From stdpp Require Import strings base gmap list.
From S2P Require Import Prelude Types TrieIface Numerals Hex Json StateObject StateDB Bloom Heap TxList TxOrder Vm.
Local Open Scope Z_scope.

(** [interpreter.MemDatabase] *)
Record MemDatabase : Type := mkMem { mem_Address : Address; mem_Key : list byte; mem_Val : list byte }.

(** A transaction as producer and processor see it: [msg_from] is [None] when the
    signature is not valid, [msg_priority] is what the pool computed. *)
Record message : Type := mkMessage {
  msg_from : option Address;
  msg_nonce : Z;
  msg_actions : list Action;
  msg_hash : Hash;
  msg_priority : Z;
}.

#[export] Instance message_inhabited : Inhabited message := populate (mkMessage None 0 [] zeroHash 0).

Lemma msg_nonce_range tx : 0 <= u64 (msg_nonce tx) < 2 ^ 64.
Proof. by apply wrap_range. Qed.

#[export] Instance message_view : TxView message := {
  TxList.Nonce tx := u64 (msg_nonce tx);
  TxList.GetPriority := msg_priority;
  TxList.TxHash := msg_hash;
  TxList.Nonce_range := msg_nonce_range;
}.

Record Receipt : Type := mkReceipt {
  r_Status : Z;
  r_Bloom : list byte;
  r_Logs : list Log;
  r_TxHash : Hash;
  r_ContractAddress : Address;
}.

Inductive procErr : Type := InvalidSender | ErrNonceTooHigh | ErrNonceTooLow | AddressCollision | CodeTooLong.

(** The state the processor works on: accounts, values in memory, and the values
    collected for the database ([DbCache]). *)
Record pstate (E T : Type) : Type := mkP { p_vm : vstate E T; p_cache : gmap (list byte) MemDatabase }.
Arguments mkP {_ _}. Arguments p_vm {_ _}. Arguments p_cache {_ _}.

Definition p_state {E T : Type} (s : pstate E T) : StateDB E T := v_state (p_vm s).

(** Computations on it; errors are values. *)
Definition P (E T A : Type) : Type := pstate E T -> outcome (stateErr E) (A * pstate E T).

#[export] Instance P_ret {E T} : MRet (P E T) := fun A a s => Ok (a, s).
#[export] Instance P_bind {E T} : MBind (P E T) := fun A B f m s =>
  match m s with
  | Ok (a, s') => f a s'
  | Err e => Err e
  | Panic => Panic
  | OutOfFuel => OutOfFuel
  end.

Definition db {E T A : Type} (m : M E T A) : P E T A := fun s =>
  match m (p_state s) with
  | Ok (a, st) => Ok (a, mkP (mkV st (v_tmp (p_vm s))) (p_cache s))
  | Err e => Err e
  | Panic => Panic
  | OutOfFuel => OutOfFuel
  end.
Definition vm {E T A : Type} (m : C E T A) : P E T (cErr + A) := fun s =>
  match m (p_vm s) with
  | Ok (r, v) => Ok (r, mkP v (p_cache s))
  | Err e => Err e
  | Panic => Panic
  | OutOfFuel => OutOfFuel
  end.
Definition cache_put {E T : Type} (k : list byte) (m : MemDatabase) : P E T unit := fun s =>
  Ok ((), mkP (p_vm s) (<[k := m]> (p_cache s))).
(** A computation that does not touch the state and reports no error. *)
Definition pure {E T A : Type} (o : outcome unit A) : P E T A := fun s =>
  match o with Ok a => Ok (a, s) | OutOfFuel => OutOfFuel | _ => Panic end.
Definition nil_deref {E T A : Type} : P E T A := fun _ => Panic.

Section Processor.
Context {E T : Type} `{TrieOps E T} `{StateEnv E T}.
Context (dbGet : list byte -> option (list byte)) (CreateAddress : Address -> Z -> Address).
Abbreviation PM := (P E T).

Definition MaxCodeSize : Z := 32768.

(** ** Contract creation *)

(** The virtual machine is called without system parameters; an error of the fee
    transfer is dropped, because the result [err] is still nil there. *)
Definition Create (sender : Address) (actions : list Action) : PM (procErr + list ActionResult) :=
  nonce ← db (GetNonce sender);
  _ ← db (SetNonce sender (u64 (nonce + 1)));
  let contractAddr := CreateAddress sender nonce in
  contractHash ← db (GetCodeHash contractAddr);
  n ← db (GetNonce contractAddr);
  if negb (n =? 0) || (negb (bool_decide (contractHash = zeroHash)) && negb (bool_decide (contractHash = BytesToHash emptyCodeHash)))
  then mret (inl AddressCollision)
  else
    snapshot ← db Snapshot;
    _ ← db (CreateAccount contractAddr);
    _ ← db (SetNonce contractAddr 1);
    match actions with
    | [a0; a1] =>
        result ← vm (SendWork dbGet a0 None);
        match result with
        | inl _ => _ ← db (RevertToSnapshot snapshot); mret (inr [])
        | inr results =>
            if MaxCodeSize <? Z.of_nat (length (act_Params a1))
            then _ ← db (RevertToSnapshot snapshot); mret (inl CodeTooLong)
            else _ ← db (SetCode contractAddr (Some (act_Params a1))); mret (inr results)
        end
    | _ => _ ← db (RevertToSnapshot snapshot); mret (inl CodeTooLong)
    end.

(** ** The state transition *)

Definition from (f : Address) : PM unit :=
  e ← db (Exist f);
  if (e : bool) then mret () else db (CreateAccount f).

Definition preCheck (sender : Address) (nonce : Z) : PM (option procErr) :=
  _ ← from sender;
  n ← db (GetNonce sender);
  mret (if n <? nonce then Some ErrNonceTooHigh else if nonce <? n then Some ErrNonceTooLow else None).

(** [MakeLog]: both topics and data are taken from the keys. *)
Definition MakeLog (address : Address) (results : list ActionResult) (blockNumber : Z) : Log :=
  mkLog address (map (fun r => BytesToHash (res_Key r)) results) (map res_Key results) blockNumber
    zeroHash 0 zeroHash 0 false.

Definition mem_of (a : Address) (results : list ActionResult) : list MemDatabase :=
  map (fun r => mkMem a (res_Key r) (res_Val r)) results.

(** The loop over the actions; [None] when one of them failed. *)
Fixpoint run_actions (sys : option Address) (number : Z) (actions : list Action) : PM (option (list MemDatabase)) :=
  match actions with
  | [] => mret (Some [])
  | action :: rest =>
      result ← vm (SendWork dbGet action sys);
      match result, act_Address action with
      | inl _, _ => mret None
      | inr _, None => nil_deref
      | inr results, Some a =>
          _ ← db (AddLog (MakeLog a results number));
          r ← run_actions sys number rest;
          mret ((fun l => mem_of a results ++ l) <$> r)
      end
  end.

(** The last loop of [TransitionDb]. *)
Fixpoint store_results (l : list MemDatabase) : PM unit :=
  match l with
  | [] => mret ()
  | r :: l =>
      let storageKey := mem_Address r ++ mem_Key r in
      let storageKeyHash := Keccak256Hash storageKey in
      let storageValHash := Keccak256Hash (mem_Val r) in
      _ ← db (SetState (mem_Address r) storageKeyHash storageValHash);
      _ ← cache_put storageKey (mkMem (mem_Address r) storageValHash (mem_Val r));
      store_results l
  end.

Definition is_creation (actions : list Action) : bool :=
  match actions with [_; a1] => match act_Address a1 with None => true | Some _ => false end | _ => false end.

(** [TransitionDb]: the flag [failed], or an error. *)
Definition TransitionDb (sys : option Address) (number : Z) (sender : Address) (nonce : Z) (actions : list Action)
    : PM (procErr + bool) :=
  err ← preCheck sender nonce;
  match err with
  | Some e => mret (inl e)
  | None =>
      _ ← from sender;
      snapshot ← db Snapshot;
      if is_creation actions then
        r ← Create sender actions;
        match r with
        | inl e => _ ← db (RevertToSnapshot snapshot); mret (inl e)
        | inr results =>
            match head actions ≫= act_Address with
            | None => nil_deref
            | Some a =>
                _ ← db (AddLog (MakeLog a results number));
                _ ← store_results (mem_of a results);
                mret (inr false)
            end
        end
      else
        n ← db (GetNonce sender);
        _ ← db (SetNonce sender (u64 (n + 1)));
        r ← run_actions sys number actions;
        match r with
        | None => _ ← db (RevertToSnapshot snapshot); mret (inr true)
        | Some mem => _ ← store_results mem; mret (inr false)
        end
  end.

(** ** Receipts *)

Definition NewReceipt (failed : bool) : Z := if failed then 0 else 1.

(** [append(topics, log.Address, log.Topics...)] over the logs. *)
Definition log_topics (l : list Log) : list (list byte) := l ≫= fun x => log_Address x :: log_Topics x.

(** [AsMessage] copies the actions before [Sender] replaces the nil addresses in the
    transaction: the transition runs on the copy, and the test of the receipt on
    the transaction. *)
Definition ApplyTransaction (sys : option Address) (number : Z) (tx : message) : PM (procErr + Receipt) :=
  match msg_from tx with
  | None => mret (inl InvalidSender)
  | Some sender =>
      r ← TransitionDb sys number sender (msg_nonce tx) (msg_actions tx);
      match r with
      | inl e => mret (inl e)
      | inr failed =>
          _ ← db (Finalise true);
          logs ← db (GetLogs (msg_hash tx));
          bloom ← pure (CreateBloom Keccak256 (log_topics logs));
          mret (inr (mkReceipt (NewReceipt failed) bloom logs (msg_hash tx)
            (if is_creation (fill_address <$> msg_actions tx) then CreateAddress sender (msg_nonce tx) else zeroAddress)))
      end
  end.

(** ** Blocks *)

(** The loop of [Process] over the transactions from index [i] on. *)
Fixpoint process_txs (sys : option Address) (number : Z) (blockHash : Hash) (i : Z) (txs : list message)
    : PM (procErr + list Receipt) :=
  match txs with
  | [] => mret (inr [])
  | tx :: txs =>
      _ ← db (Prepare (msg_hash tx) blockHash i);
      r ← ApplyTransaction sys number tx;
      match r with
      | inl e => mret (inl e)
      | inr receipt =>
          rest ← process_txs sys number blockHash (i + 1) txs;
          mret (match rest with inl e => inl e | inr l => inr (receipt :: l) end)
      end
  end.

(** [Process]: [coinbase] is the signer of the block; the engine then finalises the
    block, which computes the state root ([Finalize] of consensus/basic_engine.go). *)
Definition Process (coinbase : Address) (number : Z) (blockHash : Hash) (txs : list message) : PM (procErr + list Receipt) :=
  r ← process_txs (Some coinbase) number blockHash 0 txs;
  match r with
  | inl e => mret (inl e)
  | inr receipts => _ ← db IntermediateRoot; mret (inr receipts)
  end.

(** [WriteCacheDb]: the database after the collected values were put into it. *)
Definition WriteCacheDb (cache : gmap (list byte) MemDatabase) : list byte -> option (list byte) :=
  foldl (fun get x k => if decide (k = mem_Key x) then Some (mem_Val x) else get k) dbGet (map_to_list cache).*2.

(** ** The producer *)

(** [commitTransaction]: an error reverts what the attempt did. *)
Definition commitTransaction (coinbase : Address) (number : Z) (tx : message) : PM (procErr + Receipt) :=
  snap ← db Snapshot;
  r ← ApplyTransaction (Some coinbase) number tx;
  match r with
  | inl e => _ ← db (RevertToSnapshot snap); mret (inl e)
  | inr receipt => mret (inr receipt)
  end.

(** The transaction after a call of [Sender]. *)
Definition after_Sender (tx : message) : message :=
  mkMessage (msg_from tx) (msg_nonce tx) (fill_address <$> msg_actions tx) (msg_hash tx) (msg_priority tx).

(** One iteration of the loop of [commitTransactions] up to its [switch], on the
    state and the transactions and receipts of [Work] so far.  It starts with a
    call of [Sender]. *)
Definition try_commit (coinbase : Address) (number : Z) (tx : message) (tcount : Z)
    (w : pstate E T * list (message * Receipt)) : outcome (stateErr E) (attempt Log * (pstate E T * list (message * Receipt))) :=
  let tx := after_Sender tx in
  '(r, s) ← (_ ← db (Prepare (msg_hash tx) zeroHash tcount); commitTransaction coinbase number tx) w.1;
  Ok (match r with
      | inl ErrNonceTooLow => (NonceTooLow, (s, w.2))
      | inl ErrNonceTooHigh => (NonceTooHigh, (s, w.2))
      | inl _ => (Failed, (s, w.2))
      | inr receipt => (Executed (r_Logs receipt), (s, w.2 ++ [(tx, receipt)]))
      end).

End Processor.
