(* ===== verification/TxPool.v ===== *)
(** * The transaction pool (core/txprocessor/tx_pool.go)

    [TxPool] keeps, per account, a list of executable transactions ([pending]) and
    one of future transactions ([queue]), the table [all] of known transactions by
    hash with a priority heap over it, and the virtual nonces of [ManagedState].
    Methods are functions from a pool to a pool; a nil dereference or an index out
    of range is [Panic].

    - [currentState] is what [pool.currentState.GetNonce] answers and [pendingState]
      the table that [ManagedState.managed_nonces] shows the managed state to be;
    - the signature check is the field [msg_from] of a transaction; the callers
      drop its error and go on with the zero address, [sender];
    - [now] is the clock; [feed] collects the transactions announced to subscribers
      and [journal] those handed to the disk journal, [None] when there is none;
    - maps are ranged over in the order of [map_to_list]. *)

From stdpp Require Import base gmap list sorting.
From S2P Require Import Prelude Types Heap TxList ManagedState Vm Processor.
Local Open Scope Z_scope.

Abbreviation Nonce := TxList.Nonce.
Abbreviation GetPriority := TxList.GetPriority.
#[global] Arguments TxList.Nonce {_ _} _ : simpl never.
#[global] Arguments TxList.GetPriority {_ _} _ : simpl never.
#[global] Arguments TxList.TxHash {_ _} _ : simpl never.

(** ** Configuration *)

Record TxPoolConfig : Type := mkConfig {
  NoLocals : bool;
  Journal : list byte;
  Rejournal : Z;
  AccountSlots : Z;
  GlobalSlots : Z;
  AccountQueue : Z;
  GlobalQueue : Z;
  Lifetime : Z;
}.

Definition second : Z := 10 ^ 9.
Definition hour : Z := 3600 * second.

(** The bytes of transactions.msgp. *)
Definition journal_name : list byte :=
  [116; 114; 97; 110; 115; 97; 99; 116; 105; 111; 110; 115; 46; 109; 115; 103; 112].

Definition DefaultTxPoolConfig : TxPoolConfig := mkConfig false journal_name hour 16 4096 64 1024 (3 * hour).

Definition sanitize (c : TxPoolConfig) : TxPoolConfig :=
  if Rejournal c <? second
  then mkConfig (NoLocals c) (Journal c) second (AccountSlots c) (GlobalSlots c) (AccountQueue c) (GlobalQueue c) (Lifetime c)
  else c.

(** ** State *)

Abbreviation lists := (gmap Address (txList message)).

Record TxPool : Type := mkPool {
  config : TxPoolConfig;
  currentState : Address -> Z;
  pendingState : Nonces;
  priority : option Z;
  locals : gset Address;
  journal : option (list message);
  pending : lists;
  queue : lists;
  beats : gmap Address Z;
  all : gmap Hash message;
  priorited : txPriorityList (Tx := message);
  feed : list message;
}.

Definition with_states (p : TxPool) cur pen : TxPool := mkPool (config p) cur pen (priority p) (locals p) (journal p)
  (pending p) (queue p) (beats p) (all p) (priorited p) (feed p).
Definition with_priority (p : TxPool) x : TxPool := mkPool (config p) (currentState p) (pendingState p) x (locals p) (journal p)
  (pending p) (queue p) (beats p) (all p) (priorited p) (feed p).
Definition with_locals (p : TxPool) x : TxPool := mkPool (config p) (currentState p) (pendingState p) (priority p) x (journal p)
  (pending p) (queue p) (beats p) (all p) (priorited p) (feed p).
Definition with_journal (p : TxPool) x : TxPool := mkPool (config p) (currentState p) (pendingState p) (priority p) (locals p) x
  (pending p) (queue p) (beats p) (all p) (priorited p) (feed p).
Definition with_pending (p : TxPool) x : TxPool := mkPool (config p) (currentState p) (pendingState p) (priority p) (locals p)
  (journal p) x (queue p) (beats p) (all p) (priorited p) (feed p).
Definition with_queue (p : TxPool) x : TxPool := mkPool (config p) (currentState p) (pendingState p) (priority p) (locals p)
  (journal p) (pending p) x (beats p) (all p) (priorited p) (feed p).
Definition with_beats (p : TxPool) x : TxPool := mkPool (config p) (currentState p) (pendingState p) (priority p) (locals p)
  (journal p) (pending p) (queue p) x (all p) (priorited p) (feed p).
Definition with_all (p : TxPool) x y : TxPool := mkPool (config p) (currentState p) (pendingState p) (priority p) (locals p)
  (journal p) (pending p) (queue p) (beats p) x y (feed p).
Definition with_feed (p : TxPool) x : TxPool := mkPool (config p) (currentState p) (pendingState p) (priority p) (locals p)
  (journal p) (pending p) (queue p) (beats p) (all p) (priorited p) x.

(** [from, _ := transaction.Sender(pool.signer, tx)] *)
Definition sender (tx : message) : Address := default zeroAddress (msg_from tx).

Definition contains (p : TxPool) (a : Address) : bool := bool_decide (a ∈ locals p).
Definition containsTx (p : TxPool) (tx : message) : bool :=
  match msg_from tx with Some a => contains p a | None => false end.

Definition nonce_of (p : TxPool) (a : Address) : Z := nonce_at (pendingState p) a.
Definition set_pending_nonce (p : TxPool) (a : Address) (n : Z) : TxPool :=
  with_states p (currentState p) (set_nonce (pendingState p) a n).

(** [if nonce := tx.Nonce(); pool.pendingState.GetNonce(addr) > nonce { SetNonce }] *)
Definition lower_nonce (p : TxPool) (a : Address) (n : Z) : TxPool :=
  if n <? nonce_of p a then set_pending_nonce p a n else p.

(** [delete(pool.all, hash); pool.priorited.Removed()] *)
Definition forget (p : TxPool) (hash : Hash) : TxPool :=
  let known := delete hash (all p) in with_all p known (Removed known (priorited p)).

Definition forget_txs (txs : list message) (p : TxPool) : TxPool := fold_left (fun p tx => forget p (TxHash tx)) txs p.

(** [pool.all[hash] = tx; pool.priorited.Put(tx)] *)
Definition remember (p : TxPool) (hash : Hash) (tx : message) : TxPool :=
  with_all p (<[hash := tx]> (all p)) (pl_Put (priorited p) tx).

(** [Cap(int)]: a negative threshold runs past the start of the index. *)
Definition cap_int (l : txList message) (threshold : Z) : outcome unit (list message * txList message) :=
  if threshold <? 0 then Panic else Cap l (Z.to_nat threshold).

Inductive poolErr : Type :=
| ErrKnown (hash : Hash)
| ErrUnderPriority
| ErrPoolFull
| ErrReplaceUnderpriority.

(** ** One transaction *)

Definition enqueueTx (p : TxPool) (hash : Hash) (tx : message) : TxPool * (poolErr + bool) :=
  let from := sender tx in
  let l := default (newTxList false) (queue p !! from) in
  let '(inserted, old, l) := Add l tx in
  let p := with_queue p (<[from := l]> (queue p)) in
  if inserted : bool then
    let p := match old with Some o => forget p (TxHash o) | None => p end in
    (remember p hash tx, inr (bool_decide (is_Some old)))
  else (p, inl ErrReplaceUnderpriority).

Definition journalTx (p : TxPool) (from : Address) (tx : message) : TxPool :=
  match journal p with
  | Some txs => if contains p from then with_journal p (Some (txs ++ [tx])) else p
  | None => p
  end.

Definition promoteTx (now : Z) (addr : Address) (p : TxPool) (tx : message) : TxPool :=
  let hash := TxHash tx in
  let l := default (newTxList true) (pending p !! addr) in
  let '(inserted, old, l) := Add l tx in
  let p := with_pending p (<[addr := l]> (pending p)) in
  if inserted : bool then
    let p := match old with Some o => forget p (TxHash o) | None => p end in
    let p := match all p !! hash with None => remember p hash tx | Some _ => p end in
    let p := with_beats p (<[addr := now]> (beats p)) in
    let p := set_pending_nonce p addr (u64 (Nonce tx + 1)) in
    with_feed p (feed p ++ [tx])
  else forget p hash.

Definition enqueue_all (p : TxPool) (txs : list message) : TxPool :=
  fold_left (fun p tx => (enqueueTx p (TxHash tx) tx).1) txs p.

Definition removeTx (hash : Hash) (p : TxPool) : outcome unit TxPool :=
  match all p !! hash with
  | None => Ok p
  | Some tx =>
      let addr := sender tx in
      let p := forget p hash in
      '(done, p) ← match pending p !! addr with
        | None => Ok (false, p)
        | Some l =>
            '(removed, invalids, l) ← RemoveTx l tx;
            let p := with_pending p (<[addr := l]> (pending p)) in
            if removed : bool then
              let p := if Empty l then with_beats (with_pending p (delete addr (pending p))) (delete addr (beats p))
                       else enqueue_all p invalids in
              Ok (true, lower_nonce p addr (Nonce tx))
            else Ok (false, p)
        end;
      if done : bool then Ok p
      else
        match queue p !! addr with
        | None => Ok p
        | Some l =>
            '(_, _, l) ← RemoveTx l tx;
            let p := with_queue p (<[addr := l]> (queue p)) in
            Ok (if Empty l then with_queue p (delete addr (queue p)) else p)
        end
  end.

Fixpoint remove_all (txs : list message) (p : TxPool) : outcome unit TxPool :=
  match txs with
  | [] => Ok p
  | tx :: txs => p ← removeTx (TxHash tx) p; remove_all txs p
  end.

(** ** Promotion *)

Definition pool_count (m : lists) : Z :=
  fold_left (fun n l => u64 (n + Z.of_nat (Len l))) (map_to_list m).*2 0.

(** The body of the loop over the accounts. *)
Definition promote_account (now : Z) (p : TxPool) (addr : Address) : outcome unit TxPool :=
  match queue p !! addr with
  | None => Ok p
  | Some l =>
      '(old, l) ← Forward l (currentState p addr);
      let p := forget_txs old (with_queue p (<[addr := l]> (queue p))) in
      '(ready, l) ← Ready l (nonce_of p addr);
      let p := fold_left (promoteTx now addr) ready (with_queue p (<[addr := l]> (queue p))) in
      '(p, l) ← (if contains p addr then Ok (p, l)
                 else
                   '(drops, l) ← cap_int l (i64 (AccountQueue (config p)));
                   Ok (forget_txs drops (with_queue p (<[addr := l]> (queue p))), l));
      Ok (if Empty l then with_queue p (delete addr (queue p)) else p)
  end.

Fixpoint promote_accounts (now : Z) (accounts : list Address) (p : TxPool) : outcome unit TxPool :=
  match accounts with
  | [] => Ok p
  | addr :: accounts => p ← promote_account now p addr; promote_accounts now accounts p
  end.

(** ** Limits *)

(** An integer as a float with [bits] significant bits: rounded to the nearest, ties
    to even. *)
Definition float_of (bits n : Z) : Z :=
  if n <? 2 ^ bits then n
  else
    let e := Z.log2 n - (bits - 1) in
    let q := n / 2 ^ e in
    let r := n mod 2 ^ e in
    let up := (2 ^ (e - 1) <? r) || ((r =? 2 ^ (e - 1)) && Z.odd q) in
    (if up then q + 1 else q) * 2 ^ e.
Definition float32 : Z -> Z := float_of 24.
Definition float64 : Z -> Z := float_of 53.

(** [prque]: a heap of items, the highest priority first. *)
Definition spammer : Type := Address * Z.
#[export] Instance spammer_inhabited : Inhabited spammer := populate (zeroAddress, 0).
Definition prque_less (a b : spammer) : bool := b.2 <? a.2.

Definition spammers (p : TxPool) : list spammer :=
  fold_left (fun h al =>
    if negb (contains p al.1) && (AccountSlots (config p) <? Z.of_nat (Len al.2))
    then Push prque_less h (al.1, float32 (Z.of_nat (Len al.2))) else h) (map_to_list (pending p)) [].

Definition pending_len (p : TxPool) (addr : Address) : outcome unit Z :=
  l ← of_index (pending p !! addr); Ok (Z.of_nat (Len l)).

(** Drop the last transaction of [addr]. *)
Definition cap_one (p : TxPool) (addr : Address) : outcome unit TxPool :=
  l ← of_index (pending p !! addr);
  '(drops, l) ← cap_int l (Z.of_nat (Len l) - 1);
  Ok (fold_left (fun p tx => lower_nonce (forget p (TxHash tx)) addr (Nonce tx)) drops
        (with_pending p (<[addr := l]> (pending p)))).

Fixpoint cap_round (addrs : list Address) (count : Z) (p : TxPool) : outcome unit (Z * TxPool) :=
  match addrs with
  | [] => Ok (count, p)
  | addr :: addrs => p ← cap_one p addr; cap_round addrs (u64 (count - 1)) p
  end.

(** [for pending > GlobalSlots && pool.pending[watch].Len() > threshold]: one round
    over [addrs] per iteration. *)
Fixpoint cap_loop (fuel : nat) (watch : Address) (threshold : Z) (addrs : list Address) (count : Z) (p : TxPool)
    : outcome unit (Z * TxPool) :=
  match fuel with
  | O => OutOfFuel
  | S fuel =>
      if GlobalSlots (config p) <? count then
        n ← pending_len p watch;
        if threshold <? n then
          '(count, p) ← cap_round addrs count p; cap_loop fuel watch threshold addrs count p
        else Ok (count, p)
      else Ok (count, p)
  end.

(** Every iteration takes a transaction from the watched list. *)
Definition cap_until (watch : Address) (threshold : Z) (addrs : list Address) (count : Z) (p : TxPool) : outcome unit (Z * TxPool) :=
  n ← pending_len p watch; cap_loop (S (Z.to_nat n)) watch threshold addrs count p.

Fixpoint spam_loop (fuel : nat) (h : list spammer) (offenders : list Address) (count : Z) (p : TxPool)
    : outcome unit (list Address * Z * TxPool) :=
  match fuel with
  | O => OutOfFuel
  | S fuel =>
      match h with
      | [] => Ok (offenders, count, p)
      | _ =>
          if GlobalSlots (config p) <? count then
            '(offender, h) ← of_index (Heap.Pop prque_less h);
            '(count, p) ← match list.last offenders with
              | None => Ok (count, p)
              | Some watch =>
                  threshold ← pending_len p offender.1;
                  cap_until watch threshold offenders count p
              end;
            spam_loop fuel h (offenders ++ [offender.1]) count p
          else Ok (offenders, count, p)
      end
  end.

(** The part of [promoteExecutables] after the accounts: equalize the pending
    lists of the large accounts. *)
Definition limit_pending (p : TxPool) : outcome unit TxPool :=
  let count := pool_count (pending p) in
  if GlobalSlots (config p) <? count then
    let h := spammers p in
    '(offenders, count, p) ← spam_loop (S (length h)) h [] count p;
    match list.last offenders with
    | Some watch =>
        if GlobalSlots (config p) <? count then
          '(_, p) ← cap_until watch (AccountSlots (config p)) offenders count p; Ok p
        else Ok p
    | None => Ok p
    end
  else Ok p.

(** [sort.Sort(addresses)], by heartbeat; an account without one has the zero time. *)
Definition by_heartbeat (a b : Address * Z) : Prop := a.2 <= b.2.
#[export] Instance by_heartbeat_dec a b : Decision (by_heartbeat a b).
Proof. unfold by_heartbeat. apply _. Defined.

Definition idle_accounts (p : TxPool) : list Address :=
  let addrs := filter (fun a => contains p a = false) (map_to_list (queue p)).*1 in
  rev (merge_sort by_heartbeat ((fun a => (a, default 0 (beats p !! a))) <$> addrs)).*1.

(** Drop from the last account on; the last account loses its highest nonces. *)
Fixpoint drop_loop (addrs : list Address) (drop : Z) (p : TxPool) : outcome unit TxPool :=
  match addrs with
  | [] => Ok p
  | addr :: addrs =>
      if 0 <? drop then
        l ← of_index (queue p !! addr);
        let size := Z.of_nat (Len l) in
        let '(txs, l) := Flatten l in
        let p := with_queue p (<[addr := l]> (queue p)) in
        if size <=? drop then p ← remove_all txs p; drop_loop addrs (drop - size) p
        else
          p ← remove_all (take (Z.to_nat drop) (rev txs)) p;
          drop_loop addrs (drop - Z.of_nat (length (take (Z.to_nat drop) (rev txs)))) p
      else Ok p
  end.

Definition limit_queue (p : TxPool) : outcome unit TxPool :=
  let queued := pool_count (queue p) in
  if GlobalQueue (config p) <? queued then drop_loop (idle_accounts p) (queued - GlobalQueue (config p)) p else Ok p.

(** [promoteExecutables(nil)] takes every account of the queue. *)
Definition promoteExecutables (now : Z) (accounts : option (list Address)) (p : TxPool) : outcome unit TxPool :=
  p ← promote_accounts now (default (map_to_list (queue p)).*1 accounts) p;
  p ← limit_pending p;
  limit_queue p.

(** ** Adding transactions *)

(** [tx.SetPriority(...)] on the transaction that arrives. *)
Definition set_priority (tx : message) (n : Z) : message :=
  mkMessage (msg_from tx) (msg_nonce tx) (msg_actions tx) (msg_hash tx) n.

(** The pool is full: make room, but refuse the transaction. *)
Definition make_room (tx : message) (p : TxPool) : outcome unit (TxPool * (poolErr + bool)) :=
  '(under, pl) ← Underpriority (all p) (containsTx p) (priorited p) tx;
  let p := with_all p (all p) pl in
  if under : bool then Ok (p, inl ErrUnderPriority)
  else
    let room := i64 (u64 (u64 (GlobalSlots (config p) + GlobalQueue (config p)) - 1)) in
    '(drop, pl) ← Discard (all p) (containsTx p) (priorited p) (Z.to_nat (Z.of_nat (size (all p)) - room));
    p ← remove_all drop (with_all p (all p) pl);
    Ok (p, inl ErrPoolFull).

(** The replacement of a pending transaction. *)
Definition replace_pending (from : Address) (l : txList message) (tx : message) (p : TxPool) : TxPool * (poolErr + bool) :=
  let '(inserted, old, l) := Add l tx in
  let p := with_pending p (<[from := l]> (pending p)) in
  if inserted : bool then
    (match old with
     | Some o => forget p (TxHash o)
     | None =>
         let p := with_all p (<[TxHash tx := tx]> (all p)) (priorited p) in
         let p := journalTx p from tx in
         with_feed p (feed p ++ [tx])
     end, inr true)
  else (p, inl ErrReplaceUnderpriority).

(** A transaction that does not replace a pending one. *)
Definition enqueue_new (tx : message) (local : bool) (p : TxPool) : TxPool * (poolErr + bool) :=
  let from := sender tx in
  match enqueueTx p (TxHash tx) tx with
  | (p, inl e) => (p, inl e)
  | (p, inr replace) =>
      let p := if local then with_locals p ({[from]} ∪ locals p) else p in
      (journalTx p from tx, inr replace)
  end.

Definition add (tx : message) (local : bool) (p : TxPool) : outcome unit (TxPool * (poolErr + bool)) :=
  prio ← Vm.GetPriority (msg_actions tx);
  let tx := set_priority tx prio in
  let hash := TxHash tx in
  if bool_decide (is_Some (all p !! hash)) then Ok (p, inl (ErrKnown hash))
  else if u64 (GlobalSlots (config p) + GlobalQueue (config p)) <=? Z.of_nat (size (all p)) then make_room tx p
  else
    let from := sender tx in
    match pending p !! from with
    | Some l => if Overlaps l tx then Ok (replace_pending from l tx p) else Ok (enqueue_new tx local p)
    | None => Ok (enqueue_new tx local p)
    end.

Definition addTx (now : Z) (tx : message) (local : bool) (p : TxPool) : outcome unit (TxPool * option poolErr) :=
  '(p, r) ← add tx local p;
  match r with
  | inl e => Ok (p, Some e)
  | inr true => Ok (p, None)
  | inr false => p ← promoteExecutables now (Some [sender tx]) p; Ok (p, None)
  end.

Definition AddLocal (now : Z) (tx : message) (p : TxPool) : outcome unit (TxPool * option poolErr) :=
  addTx now tx (negb (NoLocals (config p))) p.
Definition AddRemote (now : Z) (tx : message) (p : TxPool) : outcome unit (TxPool * option poolErr) := addTx now tx false p.

Fixpoint add_txs (txs : list message) (local : bool) (dirty : gset Address) (p : TxPool)
    : outcome unit (TxPool * gset Address * list (option poolErr)) :=
  match txs with
  | [] => Ok (p, dirty, [])
  | tx :: txs =>
      '(p, r) ← add tx local p;
      let '(err, dirty) := match r with
        | inl e => (Some e, dirty)
        | inr true => (None, dirty)
        | inr false => (None, {[sender tx]} ∪ dirty)
        end in
      '(p, dirty, errs) ← add_txs txs local dirty p;
      Ok (p, dirty, err :: errs)
  end.

Definition addTxsLocked (now : Z) (txs : list message) (local : bool) (p : TxPool) : outcome unit (TxPool * list (option poolErr)) :=
  '(p, dirty, errs) ← add_txs txs local ∅ p;
  if bool_decide (dirty = ∅) then Ok (p, errs)
  else p ← promoteExecutables now (Some (elements dirty)) p; Ok (p, errs).

Definition AddLocals (now : Z) (txs : list message) (p : TxPool) : outcome unit (TxPool * list (option poolErr)) :=
  addTxsLocked now txs (negb (NoLocals (config p))) p.
Definition AddRemotes (now : Z) (txs : list message) (p : TxPool) : outcome unit (TxPool * list (option poolErr)) :=
  addTxsLocked now txs false p.

(** ** Following the chain *)

Definition demote_account (p : TxPool) (addr : Address) : outcome unit TxPool :=
  match pending p !! addr with
  | None => Ok p
  | Some l =>
      let nonce := currentState p addr in
      '(old, l) ← Forward l nonce;
      let p := forget_txs old (with_pending p (<[addr := l]> (pending p))) in
      '(p, l) ← (if (0 <? Z.of_nat (Len l)) && negb (bool_decide (is_Some (sm_Get (txs l) nonce))) then
                   '(invalids, l) ← cap_int l 0;
                   Ok (enqueue_all (with_pending p (<[addr := l]> (pending p))) invalids, l)
                 else Ok (p, l));
      Ok (if Empty l then with_beats (with_pending p (delete addr (pending p))) (delete addr (beats p)) else p)
  end.

Fixpoint demote_accounts (addrs : list Address) (p : TxPool) : outcome unit TxPool :=
  match addrs with
  | [] => Ok p
  | addr :: addrs => p ← demote_account p addr; demote_accounts addrs p
  end.

Definition demoteUnexecutables (p : TxPool) : outcome unit TxPool := demote_accounts (map_to_list (pending p)).*1 p.

(** The loop of [reset] that moves the virtual nonces behind the pending lists:
    [txs[len(txs)-1]] of an empty list panics. *)
Fixpoint update_nonces (addrs : list Address) (p : TxPool) : outcome unit TxPool :=
  match addrs with
  | [] => Ok p
  | addr :: addrs =>
      l ← of_index (pending p !! addr);
      let '(txs, l) := Flatten l in
      last ← of_index (list.last txs);
      update_nonces addrs (set_pending_nonce (with_pending p (<[addr := l]> (pending p))) addr (u64 (Nonce last + 1)))
  end.

(** What the pool reads of blocks and headers. *)
Record poolBlock : Type := mkBlock {
  b_hash : Hash;
  b_parent : Hash;
  b_number : Z;
  b_root : Hash;
  b_txs : list message;
}.

Definition TxDifference (a b : list message) : list message :=
  let remove : gset Hash := list_to_set (TxHash <$> b) in
  filter (fun tx => TxHash tx ∉ remove) a.

Section Chain.
(** The [blockChain] interface; [StateAt] gives the nonces of the state with a root. *)
Context (GetBlock : Hash -> Z -> option poolBlock) (StateAt : Hash -> option (Address -> Z)) (CurrentBlock : poolBlock).

Definition parent_of (b : poolBlock) : option poolBlock := GetBlock (b_parent b) (u64 (b_number b - 1)).

(** [for b.NumberU64() > stop]: collect transactions down to a height; [None] when
    the chain is not rooted. *)
Fixpoint descend (fuel : nat) (b : poolBlock) (stop : Z) (txs : list message) : outcome unit (option (poolBlock * list message)) :=
  match fuel with
  | O => OutOfFuel
  | S fuel =>
      if stop <? b_number b then
        let txs := txs ++ b_txs b in
        match parent_of b with
        | None => Ok None
        | Some b => descend fuel b stop txs
        end
      else Ok (Some (b, txs))
  end.

(** [for rem.Hash() != add.Hash()] *)
Fixpoint converge (fuel : nat) (rem add : poolBlock) (discarded included : list message)
    : outcome unit (option (list message * list message)) :=
  match fuel with
  | O => OutOfFuel
  | S fuel =>
      if bool_decide (b_hash rem = b_hash add) then Ok (Some (discarded, included))
      else
        let discarded := discarded ++ b_txs rem in
        match parent_of rem with
        | None => Ok None
        | Some rem =>
            let included := included ++ b_txs add in
            match parent_of add with
            | None => Ok None
            | Some add => converge fuel rem add discarded included
            end
        end
  end.

(** The transactions to reinject; [None] is the early return of [reset]. *)
Definition reinjects (old : option poolBlock) (new : option poolBlock) : outcome unit (option (list message)) :=
  match old with
  | None => Ok (Some [])
  | Some old =>
      new ← of_index new;
      if bool_decide (b_hash old = b_parent new) then Ok (Some [])
      else if 64 <? float64 (Z.abs (float64 (b_number old) - float64 (b_number new))) then Ok (Some [])
      else
        rem ← of_index (GetBlock (b_hash old) (b_number old));
        add ← of_index (GetBlock (b_hash new) (b_number new));
        r ← descend (S (Z.to_nat (b_number rem))) rem (b_number add) [];
        match r with
        | None => Ok None
        | Some (rem, discarded) =>
            r ← descend (S (Z.to_nat (b_number add))) add (b_number rem) [];
            match r with
            | None => Ok None
            | Some (add, included) =>
                r ← converge (S (Z.to_nat (b_number rem))) rem add discarded included;
                match r with
                | None => Ok None
                | Some (discarded, included) => Ok (Some (TxDifference discarded included))
                end
            end
        end
  end.

Definition reset (now : Z) (old new : option poolBlock) (p : TxPool) : outcome unit TxPool :=
  r ← reinjects old new;
  match r with
  | None => Ok p
  | Some reinject =>
      match StateAt (b_root (default CurrentBlock new)) with
      | None => Ok p
      | Some nonces =>
          let p := with_states p nonces (mkNonces nonces ∅) in
          '(p, _) ← addTxsLocked now reinject false p;
          p ← demoteUnexecutables p;
          p ← update_nonces (map_to_list (pending p)).*1 p;
          promoteExecutables now None p
      end
  end.

(** [NewTxPool], without the journal and the event loop it starts.  [None]: the state of
    the head is not found, and the pool is left without a state to ask for nonces; the
    nonces of the pool that is reset are overwritten otherwise. *)
Definition NewTxPool (c : TxPoolConfig) (now : Z) : outcome unit (option TxPool) :=
  match StateAt (b_root CurrentBlock) with
  | None => Ok None
  | Some _ =>
      p ← reset now None (Some CurrentBlock)
        (mkPool (sanitize c) (fun _ => 0) (mkNonces (fun _ => 0) ∅) None ∅ None ∅ ∅ ∅ ∅ newTxPriorityList []);
      Ok (Some p)
  end.

End Chain.

(** ** Other entry points *)

Definition SetPriority (prio : Z) (p : TxPool) : outcome unit TxPool :=
  let p := with_priority p (Some prio) in
  '(drop, pl) ← pl_Cap (all p) (containsTx p) (priorited p) prio;
  remove_all drop (with_all p (all p) pl).

(** [new(big.Int).Set(pool.priority)] of a threshold that was never set. *)
Definition Priority (p : TxPool) : outcome unit Z := of_index (priority p).

(** The eviction tick of [loop]. *)
Fixpoint evict (now : Z) (addrs : list Address) (p : TxPool) : outcome unit TxPool :=
  match addrs with
  | [] => Ok p
  | addr :: addrs =>
      if contains p addr then evict now addrs p
      else
        match queue p !! addr with
        | None => evict now addrs p
        | Some l =>
            if Lifetime (config p) <? now - default 0 (beats p !! addr) then
              let '(txs, l) := Flatten l in
              p ← remove_all txs (with_queue p (<[addr := l]> (queue p)));
              evict now addrs p
            else evict now addrs p
        end
  end.

Definition evict_tick (now : Z) (p : TxPool) : outcome unit TxPool := evict now (map_to_list (queue p)).*1 p.

(** ** Queries *)

Definition Get (p : TxPool) (hash : Hash) : option message := all p !! hash.

Definition stats (p : TxPool) : nat * nat :=
  (sum_list (Len <$> (map_to_list (pending p)).*2), sum_list (Len <$> (map_to_list (queue p)).*2)).

Inductive TxStatus : Type := TxStatusUnknown | TxStatusQueued | TxStatusPending | TxStatusIncluded.

Definition status (p : TxPool) (hash : Hash) : TxStatus :=
  match all p !! hash with
  | None => TxStatusUnknown
  | Some tx =>
      match pending p !! sender tx with
      | Some l => match items (txs l) !! Nonce tx with Some _ => TxStatusPending | None => TxStatusQueued end
      | None => TxStatusQueued
      end
  end.

Definition Status (p : TxPool) (hashes : list Hash) : list TxStatus := status p <$> hashes.

Definition Pending (p : TxPool) : gmap Address (list message) := (fun l => (Flatten l).1) <$> pending p.
Definition Content (p : TxPool) : gmap Address (list message) * gmap Address (list message) :=
  (Pending p, (fun l => (Flatten l).1) <$> queue p).

Definition local (p : TxPool) : gmap Address (list message) :=
  set_to_map (fun a => (a, default [] (Pending p !! a) ++ default [] ((Content p).2 !! a)))
    (filter (fun a => is_Some (pending p !! a) \/ is_Some (queue p !! a)) (locals p)).
