(* ===== verification/TxPoolInv.v ===== *)
(** * The invariant of the transaction pool

    Every transaction sits under its sender and nonce; an account has no nonce both
    pending and queued; every queued transaction is known by its hash; lists and
    heap are well formed.  Between two statements of an operation a transaction can
    be out of both lists: the invariant carries those as the list [F] of
    transactions in flight, so that taking out, putting back and forgetting are
    separate steps.

    The converse of "queued transactions are known" does not hold in this code:
    see [replaced_unknown] and [first_removed_lost] in TxPoolClaims. *)

From stdpp Require Import base gmap list sorting.
From S2P Require Import Prelude Types Heap TxList ManagedState Vm Processor TxPool.
Local Open Scope Z_scope.

(** The transaction in the list of account [a] with nonce [n]. *)
Definition slot (m : lists) (a : Address) (n : Z) : option message := l ← m !! a; items (txs l) !! n.

Lemma slot_insert m a l b n : slot (<[a := l]> m) b n = if decide (b = a) then items (txs l) !! n else slot m b n.
Proof. unfold slot. case_decide; [subst; by rewrite lookup_insert_eq|by rewrite lookup_insert_ne]. Qed.

Lemma slot_delete m a b n : slot (delete a m) b n = if decide (b = a) then None else slot m b n.
Proof. unfold slot. case_decide; [subst; by rewrite lookup_delete_eq|by rewrite lookup_delete_ne]. Qed.

Lemma slot_list m a l n : m !! a = Some l -> slot m a n = items (txs l) !! n.
Proof. intros Hl. unfold slot. by rewrite Hl. Qed.

Lemma slot_default m a b n : slot m a n = items (txs (default (newTxList b) (m !! a))) !! n.
Proof. unfold slot. destruct (m !! a); [done|]. simpl. by rewrite lookup_empty. Qed.

Section Invariant.
(** The transactions the pool is ever offered: their hashes tell them apart. *)
Context (W : message -> Prop) (W_inj : forall x y, W x -> W y -> TxHash x = TxHash y -> x = y).
Implicit Types (p : TxPool) (tx : message) (a : Address) (F R : list message) (l : txList message) (m : lists).

Definition slot_of tx : Address * Z := (sender tx, Nonce tx).

Lemma slot_of_eq tx tx' : slot_of tx = slot_of tx' -> sender tx = sender tx' /\ Nonce tx = Nonce tx'.
Proof. intros He. split; [exact (f_equal fst He)|exact (f_equal snd He)]. Qed.

Record lists_ok (b : bool) m : Prop := {
  lo_list a l : m !! a = Some l -> list_ok l /\ strict l = b;
  lo_tx a n tx : slot m a n = Some tx -> sender tx = a /\ Nonce tx = n /\ W tx;
}.

Record pool_ok F p : Prop := {
  po_pending : lists_ok true (pending p);
  po_queue : lists_ok false (queue p);
  po_heap : pl_ok (priorited p);
  po_disjoint a n : slot (pending p) a n = None \/ slot (queue p) a n = None;
  po_all h tx : all p !! h = Some tx -> TxHash tx = h /\ W tx;
  po_queued a n tx : slot (queue p) a n = Some tx -> all p !! TxHash tx = Some tx;
  po_flight tx : tx ∈ F -> W tx /\ slot (pending p) (sender tx) (Nonce tx) = None /\ slot (queue p) (sender tx) (Nonce tx) = None;
  po_slots : NoDup (slot_of <$> F);
}.

(** No account is kept with an empty list. *)
Definition no_empty m : Prop := forall a l, m !! a = Some l -> Empty l = false.

Lemma newTxList_list_ok b : list_ok (newTxList b : txList message).
Proof. split; [apply newTxSortedMap_ok|]. intros n tx. simpl. by rewrite lookup_empty. Qed.

Lemma default_list_ok b m a : lists_ok b m -> let l := default (newTxList b) (m !! a) in list_ok l /\ strict l = b.
Proof. intros Hm. simpl. destruct (m !! a) as [l|] eqn:Hl; [by eapply lo_list|]. split; [apply newTxList_list_ok|done]. Qed.

Lemma lists_put b m a l : lists_ok b m -> list_ok l -> strict l = b ->
  (forall n tx, items (txs l) !! n = Some tx -> sender tx = a /\ W tx) -> lists_ok b (<[a := l]> m).
Proof.
  intros [Hm Ht] Hl Hs Htx. split.
  - intros b' l' [[<- <-]|[_ Hb]]%lookup_insert_Some; [done|by eapply Hm].
  - intros b' n tx. rewrite slot_insert. case_decide; [subst b'|by apply Ht]. intros Hn.
    destruct (Htx n tx Hn). split_and!; try done. by eapply list_nonce.
Qed.

Lemma lists_delete b m a : lists_ok b m -> lists_ok b (delete a m).
Proof.
  intros [Hm Ht]. split.
  - intros b' l' [_ Hb]%lookup_delete_Some. by eapply Hm.
  - intros b' n tx. rewrite slot_delete. case_decide; [done|apply Ht].
Qed.

(** An extraction leaves a well-formed table. *)
Lemma lists_extract b m a l l' R : lists_ok b m -> m !! a = Some l -> extracts l l' R -> lists_ok b (<[a := l']> m).
Proof.
  intros Hm Ha [Hok Hst Hsub _ _]. destruct (lo_list _ _ Hm _ _ Ha) as [_ Hs]. apply lists_put; try done; [congruence|].
  intros n tx Hn. destruct (lo_tx _ _ Hm a n tx) as (? & _ & ?); [rewrite (slot_list _ _ l) by done; by apply Hsub|done].
Qed.

(** What an extraction does to the slots. *)
Lemma slot_extract m a l l' R b n tx : m !! a = Some l -> extracts l l' R ->
  slot (<[a := l']> m) b n = Some tx -> slot m b n = Some tx.
Proof.
  intros Ha Hex. rewrite slot_insert. case_decide; [subst b|done]. rewrite (slot_list _ _ l) by done. apply (ex_sub _ _ _ Hex).
Qed.

Lemma extracted b m a l l' R tx : lists_ok b m -> m !! a = Some l -> extracts l l' R -> tx ∈ R ->
  slot m (sender tx) (Nonce tx) = Some tx /\ sender tx = a /\ W tx /\ slot (<[a := l']> m) (sender tx) (Nonce tx) = None.
Proof.
  intros Hm Ha Hex Hin. destruct (proj1 (ex_out _ _ _ Hex tx) Hin) as [Hn Hn']. rewrite <- (slot_list m a l) in Hn by done.
  destruct (lo_tx _ _ Hm _ _ _ Hn) as (Hs & _ & Hw). rewrite Hs. split_and!; try done. rewrite slot_insert. by rewrite decide_True.
Qed.

Lemma slots_app F R : NoDup (Nonce <$> R) -> (exists a, forall tx, tx ∈ R -> sender tx = a) -> NoDup (slot_of <$> F) ->
  (forall tx tx', tx ∈ R -> tx' ∈ F -> slot_of tx <> slot_of tx') -> NoDup (slot_of <$> R ++ F).
Proof.
  intros HR (a & Ha) HF Hne. rewrite fmap_app. apply NoDup_app. split_and!; [| |done].
  - apply NoDup_fmap_2_strong; [|by eapply NoDup_fmap_1]. intros x y Hx Hy [_ Hn]%slot_of_eq.
    apply list_elem_of_lookup in Hx as [i Hi], Hy as [j Hj].
    assert (i = j) as ->; [|congruence]. apply (NoDup_lookup _ i j (Nonce x) HR); rewrite list_lookup_fmap; [by rewrite Hi|by rewrite Hj, Hn].
  - intros s (x & -> & Hx)%list_elem_of_fmap (y & Hxy & Hy)%list_elem_of_fmap. by apply (Hne x y).
Qed.

Lemma take_queue F p a l l' R : pool_ok F p -> queue p !! a = Some l -> extracts l l' R ->
  pool_ok (R ++ F) (with_queue p (<[a := l']> (queue p))).
Proof.
  intros [Hp Hq Hh Hd Ha Hk Hf Hs] Hl Hex. split; simpl; try done.
  - by eapply lists_extract.
  - intros b n. destruct (Hd b n) as [?|Hn]; [by left|right]. destruct (slot (<[a:=l']> (queue p)) b n) eqn:He; [|done].
    eapply slot_extract in He; [|done..]. congruence.
  - intros b n tx Hn. eapply slot_extract in Hn; [|done..]. by eapply Hk.
  - intros tx [Hin|Hin]%elem_of_app.
    + destruct (extracted _ _ _ _ _ _ _ Hq Hl Hex Hin) as (Hn & _ & Hw & Hno). split_and!; try done.
      destruct (Hd (sender tx) (Nonce tx)) as [?|?]; [done|congruence].
    + destruct (Hf tx Hin) as (? & ? & Hno). split_and!; try done.
      destruct (slot (<[a:=l']> (queue p)) _ _) eqn:He; [|done]. eapply slot_extract in He; [|done..]. congruence.
  - apply slots_app; [apply Hex| |done|].
    + exists a. intros tx Hin. by destruct (extracted _ _ _ _ _ _ _ Hq Hl Hex Hin) as (_ & ? & _).
    + intros tx tx' Hin Hin' [Es En]%slot_of_eq. destruct (extracted _ _ _ _ _ _ _ Hq Hl Hex Hin) as (Hn & _).
      destruct (Hf tx' Hin') as (_ & _ & Hno). congruence.
Qed.

Lemma take_pending F p a l l' R : pool_ok F p -> pending p !! a = Some l -> extracts l l' R ->
  pool_ok (R ++ F) (with_pending p (<[a := l']> (pending p))).
Proof.
  intros [Hp Hq Hh Hd Ha Hk Hf Hs] Hl Hex. split; simpl; try done.
  - by eapply lists_extract.
  - intros b n. destruct (Hd b n) as [Hn|?]; [left|by right]. destruct (slot (<[a:=l']> (pending p)) b n) eqn:He; [|done].
    eapply slot_extract in He; [|done..]. congruence.
  - intros tx [Hin|Hin]%elem_of_app.
    + destruct (extracted _ _ _ _ _ _ _ Hp Hl Hex Hin) as (Hn & _ & Hw & Hno). split_and!; try done.
      destruct (Hd (sender tx) (Nonce tx)) as [?|?]; [congruence|done].
    + destruct (Hf tx Hin) as (? & Hno & ?). split_and!; try done.
      destruct (slot (<[a:=l']> (pending p)) _ _) eqn:He; [|done]. eapply slot_extract in He; [|done..]. congruence.
  - apply slots_app; [apply Hex| |done|].
    + exists a. intros tx Hin. by destruct (extracted _ _ _ _ _ _ _ Hp Hl Hex Hin) as (_ & ? & _).
    + intros tx tx' Hin Hin' [Es En]%slot_of_eq. destruct (extracted _ _ _ _ _ _ _ Hp Hl Hex Hin) as (Hn & _).
      destruct (Hf tx' Hin') as (_ & Hno & _). congruence.
Qed.

(** ** Forgetting *)

(** What configures the pool, and the chain state it follows. *)
Record same_env p p' : Prop := {
  en_config : config p' = config p;
  en_current : currentState p' = currentState p;
  en_locals : locals p' = locals p;
}.

#[export] Instance same_env_po : PreOrder same_env.
Proof. split; [by intros p|]. intros x y z [] []. split; congruence. Qed.

(** Only the index of known transactions differs. *)
Record same_lists p p' : Prop := {
  sl_env : same_env p p';
  sl_pending : pending p' = pending p;
  sl_queue : queue p' = queue p;
  sl_nonces : pendingState p' = pendingState p;
  sl_beats : beats p' = beats p;
}.

#[export] Instance same_lists_po : PreOrder same_lists.
Proof. split; [by intros p; repeat split|]. intros x y z [] []. split; try congruence. by etransitivity. Qed.

Lemma forget_same p h : same_lists p (forget p h).
Proof. by repeat split. Qed.

Lemma forget_txs_same R p : same_lists p (forget_txs R p).
Proof.
  unfold forget_txs. revert p. induction R as [|tx R IH]; intros p; simpl; [reflexivity|].
  transitivity (forget p (TxHash tx)); [apply forget_same|apply IH].
Qed.

Lemma forget_one F p tx : pool_ok (tx :: F) p -> pool_ok F (forget p (TxHash tx)).
Proof.
  intros [Hp Hq Hh Hd Ha Hk Hf Hs]. split; simpl; try done.
  - by apply Removed_ok.
  - intros h x [_ Hx]%lookup_delete_Some. by apply Ha.
  - intros a n x Hx. rewrite lookup_delete_ne; [by eapply Hk|]. intros He.
    destruct (Hf tx (list_elem_of_here _ _)) as (Hw & _ & Hno). destruct (lo_tx _ _ Hq _ _ _ Hx) as (Es & En & Hwx).
    rewrite (W_inj tx x Hw Hwx He) in Hno. congruence.
  - intros x Hx. apply Hf. by right.
  - by apply NoDup_cons in Hs as [_ ?].
Qed.

Lemma forget_flight R F p : pool_ok (R ++ F) p -> pool_ok F (forget_txs R p).
Proof. unfold forget_txs. revert p. induction R as [|tx R IH]; intros p Hp; [done|]. by apply IH, forget_one. Qed.

(** Transactions in flight may be lost. *)
Lemma lose_flight R F p : pool_ok (R ++ F) p -> pool_ok F p.
Proof.
  intros [Hp Hq Hh Hd Ha Hk Hf Hs]. split; try done.
  - intros x Hx. apply Hf. apply elem_of_app. by right.
  - rewrite fmap_app in Hs. by apply NoDup_app in Hs as (_ & _ & ?).
Qed.

(** ** Putting back *)

Lemma slot_put m a l l' tx b n : l = default (newTxList b) (m !! a) -> items (txs l') = <[Nonce tx := tx]> (items (txs l)) ->
  forall c, slot (<[a := l']> m) c n = if decide (c = a /\ n = Nonce tx) then Some tx else slot m c n.
Proof.
  intros -> Hit c. rewrite slot_insert. destruct (decide (c = a)) as [->|]; [|by rewrite decide_False by naive_solver].
  rewrite Hit. destruct (decide (n = Nonce tx)) as [->|].
  - by rewrite lookup_insert_eq, decide_True.
  - rewrite lookup_insert_ne by done. rewrite decide_False by naive_solver. by rewrite (slot_default m a b).
Qed.

Lemma lists_add b m tx l l' : lists_ok b m -> W tx -> l = default (newTxList b) (m !! sender tx) -> list_ok l' -> strict l' = strict l ->
  items (txs l') = <[Nonce tx := tx]> (items (txs l)) -> lists_ok b (<[sender tx := l']> m).
Proof.
  intros Hm Hw -> Hok Hst Hit. destruct (default_list_ok b m (sender tx) Hm) as [_ Hs].
  apply lists_put; try done; [congruence|]. intros n x. rewrite Hit. intros [[<- <-]|[_ Hx]]%lookup_insert_Some; [done|].
  rewrite <- (slot_default m (sender tx) b) in Hx. by destruct (lo_tx _ _ Hm _ _ _ Hx) as (? & _ & ?).
Qed.

(** A transaction in flight enters the queue. *)
Lemma enqueue_flight F p tx : pool_ok (tx :: F) p -> exists p',
  enqueueTx p (TxHash tx) tx = (p', inr false) /\ pool_ok F p' /\ same_env p p' /\
  pending p' = pending p /\ pendingState p' = pendingState p /\ beats p' = beats p /\
  all p' = <[TxHash tx := tx]> (all p) /\
  (forall a n, slot (queue p') a n = if decide (a = sender tx /\ n = Nonce tx) then Some tx else slot (queue p) a n) /\
  (no_empty (queue p) -> no_empty (queue p')).
Proof.
  intros [Hp Hq Hh Hd Ha Hk Hf Hs]. destruct (Hf tx (list_elem_of_here _ _)) as (Hw & Hnp & Hnq).
  unfold enqueueTx. set (l := default (newTxList false) (queue p !! sender tx)).
  destruct (default_list_ok false (queue p) (sender tx) Hq) as [Hlok Hlst]. fold l in Hlok, Hlst.
  destruct (Add_free l tx Hlok) as (l' & -> & Hl' & Hst & Hit).
  { rewrite <- Hnq. symmetry. apply slot_default. }
  rewrite bool_decide_false by (by intros [? ?]). eexists. split; [done|]. simpl.
  assert (forall a n, slot (<[sender tx:=l']> (queue p)) a n =
    if decide (a = sender tx /\ n = Nonce tx) then Some tx else slot (queue p) a n) as Hslot.
  { intros a n. by apply (slot_put (queue p) (sender tx) l l' tx false n). }
  split; [|split_and!; try done].
  - split; simpl; try done.
    + by eapply lists_add.
    + by apply pl_Put_ok.
    + intros a n. rewrite Hslot. case_decide as He; [destruct He as [-> ->]; by left|apply Hd].
    + intros h x [[<- <-]|[_ Hx]]%lookup_insert_Some; [done|by apply Ha].
    + intros a n x. rewrite Hslot. case_decide; [intros [= <-]; apply lookup_insert_eq|]. intros Hx.
      rewrite lookup_insert. case_decide as He; [|by eapply Hk]. f_equal.
      destruct (lo_tx _ _ Hq _ _ _ Hx) as (_ & _ & Hwx). by apply W_inj.
    + intros x Hx. destruct (Hf x) as (Hwx & Hxp & Hxq); [by right|]. split_and!; try done. rewrite Hslot.
      rewrite decide_False; [done|]. intros [Es En]. apply NoDup_cons in Hs as [Hs _]. apply Hs.
      apply list_elem_of_fmap. exists x. split; [|done]. unfold slot_of. by rewrite Es, En.
    + by apply NoDup_cons in Hs as [_ ?].
  - intros Hne a x [[<- <-]|[_ Hx]]%lookup_insert_Some; [|by eapply Hne].
    destruct (Empty l') eqn:He; [|done]. apply Empty_spec in He. rewrite Hit in He. by apply insert_non_empty in He.
Qed.

(** A transaction in flight enters the pending list. *)
Lemma promote_flight now F p tx : pool_ok (tx :: F) p -> exists p',
  promoteTx now (sender tx) p tx = p' /\ pool_ok F p' /\ same_env p p' /\
  queue p' = queue p /\ pendingState p' = set_nonce (pendingState p) (sender tx) (u64 (Nonce tx + 1)) /\
  (forall a n, slot (pending p') a n = if decide (a = sender tx /\ n = Nonce tx) then Some tx else slot (pending p) a n) /\
  (no_empty (pending p) -> no_empty (pending p')) /\
  (forall h, all p' !! h = if decide (h = TxHash tx) then Some (default tx (all p !! h)) else all p !! h).
Proof.
  intros [Hp Hq Hh Hd Ha Hk Hf Hs]. destruct (Hf tx (list_elem_of_here _ _)) as (Hw & Hnp & Hnq).
  eexists. split; [reflexivity|]. unfold promoteTx. set (l := default (newTxList true) (pending p !! sender tx)).
  destruct (default_list_ok true (pending p) (sender tx) Hp) as [Hlok Hlst]. fold l in Hlok, Hlst.
  destruct (Add_free l tx Hlok) as (l' & -> & Hl' & Hst & Hit).
  { rewrite <- Hnp. symmetry. apply slot_default. }
  assert (forall a n, slot (<[sender tx:=l']> (pending p)) a n =
    if decide (a = sender tx /\ n = Nonce tx) then Some tx else slot (pending p) a n) as Hslot.
  { intros a n. by apply (slot_put (pending p) (sender tx) l l' tx true n). }
  set (q := match all (with_pending p _) !! TxHash tx with Some _ => _ | None => _ end).
  assert (queue q = queue p /\ pending q = <[sender tx := l']> (pending p) /\ pl_ok (priorited q) /\ same_env p q /\
    pendingState q = pendingState p /\
    (forall h, all q !! h = if decide (h = TxHash tx) then Some (default tx (all p !! h)) else all p !! h))
    as (Eq & Ep & Hhq & Henv & Est & Hall).
  { unfold q. simpl. destruct (all p !! TxHash tx) as [x|] eqn:Hx; simpl.
    - split_and!; try done. intros h. case_decide as He; [subst h; by rewrite Hx|done].
    - split_and!; try done; [by apply pl_Put_ok|]. intros h. rewrite lookup_insert.
      destruct (decide (TxHash tx = h)) as [<-|]; [by rewrite decide_True, Hx|by rewrite decide_False]. }
  simpl. rewrite Eq, Ep, Est. split; [|split; [by destruct Henv; split|split_and!; try done]].
  - split; simpl; rewrite ?Eq, ?Ep; try done.
    + by eapply lists_add.
    + intros a n. rewrite Hslot. case_decide as He; [destruct He as [-> ->]; by right|apply Hd].
    + intros h x. rewrite Hall. case_decide as He; [|apply Ha]. subst h. destruct (all p !! TxHash tx) eqn:Hx; simpl; intros [= <-]; [by apply Ha|done].
    + intros a n x Hx. rewrite Hall. rewrite (Hk _ _ _ Hx). by case_decide.
    + intros x Hx. destruct (Hf x) as (Hwx & Hxp & Hxq); [by right|]. split_and!; try done. rewrite Hslot.
      rewrite decide_False; [done|]. intros [Es En]. apply NoDup_cons in Hs as [Hs _]. apply Hs.
      apply list_elem_of_fmap. exists x. split; [|done]. unfold slot_of. by rewrite Es, En.
    + by apply NoDup_cons in Hs as [_ ?].
  - intros Hne a x [[<- <-]|[_ Hx]]%lookup_insert_Some; [|by eapply Hne].
    destruct (Empty l') eqn:He; [|done]. apply Empty_spec in He. rewrite Hit in He. by apply insert_non_empty in He.
Qed.

(** An account whose list is empty goes. *)
Lemma drop_empty_queue F p a l : pool_ok F p -> queue p !! a = Some l -> Empty l = true ->
  pool_ok F (with_queue p (delete a (queue p))).
Proof.
  intros [Hp Hq Hh Hd Ha Hk Hf Hs] Hl He. apply Empty_spec in He.
  assert (forall b n, slot (delete a (queue p)) b n = slot (queue p) b n) as Hsl.
  { intros b n. rewrite slot_delete. case_decide; [subst b|done]. rewrite (slot_list _ _ l) by done. by rewrite He, lookup_empty. }
  split; simpl; try done; [by apply lists_delete| | |]; intros *; rewrite Hsl; [apply Hd|apply Hk|apply Hf].
Qed.

Lemma drop_empty_pending F p a l : pool_ok F p -> pending p !! a = Some l -> Empty l = true ->
  pool_ok F (with_beats (with_pending p (delete a (pending p))) (delete a (beats p))).
Proof.
  intros [Hp Hq Hh Hd Ha Hk Hf Hs] Hl He. apply Empty_spec in He.
  assert (forall b n, slot (delete a (pending p)) b n = slot (pending p) b n) as Hsl.
  { intros b n. rewrite slot_delete. case_decide; [subst b|done]. rewrite (slot_list _ _ l) by done. by rewrite He, lookup_empty. }
  split; simpl; try done; [by apply lists_delete| |]; intros *; rewrite Hsl; [apply Hd|apply Hf].
Qed.
End Invariant.
