(* ===== verification/TxPoolSteps.v ===== *)
(** * The operations of the pool preserve its invariant

    Promotion, removal, demotion, replacement and insertion, each for the whole
    pool.  Besides [pool_ok], the property [tight] is followed: the pending nonces
    of an account are exactly those from its nonce on the chain up to its virtual
    nonce. *)

From stdpp Require Import base gmap list sorting.
From S2P Require Import Prelude Types Heap TxList ManagedState Vm Processor TxPool TxPoolInv.
Local Open Scope Z_scope.

Definition tight (p : TxPool) : Prop := forall a,
  0 <= currentState p a <= nonce_of p a /\ nonce_of p a < 2 ^ 64 /\
  forall n, is_Some (slot (pending p) a n) <-> currentState p a <= n < nonce_of p a.

(** Limits that make sense as Go [int]s. *)
Record config_ok (c : TxPoolConfig) : Prop := {
  co_AccountQueue : 0 <= AccountQueue c < 2 ^ 63;
  co_AccountSlots : 0 < AccountSlots c;
  co_GlobalSlots : 0 <= GlobalSlots c;
  co_GlobalQueue : 0 <= GlobalQueue c;
}.

Lemma tight_same p p' : tight p -> currentState p' = currentState p -> pendingState p' = pendingState p ->
  (forall a n, slot (pending p') a n = slot (pending p) a n) -> tight p'.
Proof. intros Ht Ec En Es a. unfold nonce_of. rewrite Ec, En. specialize (Ht a). setoid_rewrite Es. apply Ht. Qed.

Lemma tight_same_lists p p' : same_lists p p' -> tight p -> tight p'.
Proof. intros [[_ Ec _] Ep _ En _] Ht. apply (tight_same p p' Ht); [done..|]. intros a n. by rewrite Ep. Qed.

(** [k] increasing nonces in an interval of length [k] are all of it. *)
Lemma ssorted_run (R : list message) : forall first, ssorted R ->
  (forall tx, tx ∈ R -> first <= Nonce tx < first + Z.of_nat (length R)) ->
  forall i tx, R !! i = Some tx -> Nonce tx = first + Z.of_nat i.
Proof.
  induction R as [|x R IH]; intros first Hs Hin; [done|].
  apply (ssorted_app_inv [x] R) in Hs as (_ & Hs & Hlt).
  assert (forall i tx, R !! i = Some tx -> Nonce tx = first + 1 + Z.of_nat i) as Htail.
  { apply IH; [done|]. intros tx Htx. specialize (Hlt x tx (list_elem_of_here _ _) Htx).
    pose proof (Hin x (list_elem_of_here _ _)). pose proof (Hin tx (list_elem_of_further _ _ _ Htx)). simpl in *. lia. }
  intros [|i] tx; simpl; [|intros Hi; rewrite (Htail i tx Hi); lia].
  intros [= <-]. pose proof (Hin x (list_elem_of_here _ _)) as Hx. destruct R as [|y R]; [simpl in Hx; lia|].
  pose proof (Htail 0%nat y eq_refl) as Hy. specialize (Hlt x y (list_elem_of_here _ _) (list_elem_of_here _ _)). lia.
Qed.

Section Steps.
Context (W : message -> Prop) (W_inj : forall x y, W x -> W y -> TxHash x = TxHash y -> x = y).
Context (W_nonce : forall tx, W tx -> Nonce tx + 1 < 2 ^ 64).
Implicit Types (p : TxPool) (tx : message) (a b : Address) (F R : list message) (l : txList message).

Abbreviation ok := (pool_ok W).

(** ** Promotion *)

Lemma tight_promote p p' tx : tight p -> W tx -> Nonce tx = nonce_of p (sender tx) -> currentState p' = currentState p ->
  pendingState p' = set_nonce (pendingState p) (sender tx) (u64 (Nonce tx + 1)) ->
  (forall a n, slot (pending p') a n = if decide (a = sender tx /\ n = Nonce tx) then Some tx else slot (pending p) a n) ->
  tight p' /\ nonce_of p' (sender tx) = Nonce tx + 1 /\ forall b, b <> sender tx -> nonce_of p' b = nonce_of p b.
Proof.
  intros Ht Hw Hn Ec En Es. pose proof (Nonce_range tx). pose proof (W_nonce tx Hw).
  assert (forall b, nonce_of p' b = if decide (b = sender tx) then Nonce tx + 1 else nonce_of p b) as Hno.
  { intros b. unfold nonce_of. rewrite En, nonce_at_set. case_decide; [|done]. unfold u64. apply wrap_small. lia. }
  split; [|split; [by rewrite Hno, decide_True|intros b Hb; by rewrite Hno, decide_False]].
  intros a. rewrite Ec, Hno. specialize (Ht a) as (Hc & Hlt & Hdom). setoid_rewrite Es. case_decide as Ha.
  - subst a. split_and!; try lia. intros n. destruct (decide (n = Nonce tx)) as [->|].
    + rewrite decide_True by done. split; [lia|done].
    + rewrite decide_False by naive_solver. rewrite Hdom. lia.
  - split_and!; try lia. intros n. rewrite decide_False by naive_solver. apply Hdom.
Qed.

Lemma promote_run now a R : forall F p, ok (R ++ F) p -> (forall tx, tx ∈ R -> sender tx = a) ->
  let p' := fold_left (promoteTx now a) R p in
  ok F p' /\ same_env p p' /\ queue p' = queue p /\ (no_empty (pending p) -> no_empty (pending p')) /\
  (tight p -> (forall i tx, R !! i = Some tx -> Nonce tx = nonce_of p a + Z.of_nat i) ->
     tight p' /\ nonce_of p' a = nonce_of p a + Z.of_nat (length R)) /\
  (forall b n tx, slot (pending p) b n = Some tx -> slot (pending p') b n = Some tx) /\
  (forall tx, tx ∈ R -> slot (pending p') a (Nonce tx) = Some tx) /\
  (forall b, b <> a -> nonce_of p' b = nonce_of p b) /\
  (forall b n x, slot (pending p') b n = Some x -> slot (pending p) b n = Some x \/ x ∈ R).
Proof.
  induction R as [|tx R IH]; intros F p Hp Hsend.
  { simpl. split_and!; try done; [intros Ht _; split; [done|lia]|by intros tx ?%elem_of_nil|by left]. }
  pose proof (Hsend tx (list_elem_of_here _ _)) as Hs.
  destruct (promote_flight W now (R ++ F) p tx Hp) as (q & Hq & Hok & Henv & Eq & En & Es & Hne & _).
  rewrite Hs in Hq. simpl. rewrite Hq.
  destruct (IH F q Hok) as (Hok' & Henv' & Eq' & Hne' & Ht' & Hkeep & Hin & Hnb & Hfrom); [intros x Hx; apply Hsend; by right|].
  destruct (po_flight _ _ _ Hp tx (list_elem_of_here _ _)) as (Hw & Hfree & _).
  split_and!; try done; [by etransitivity|congruence|auto| | | | |].
  - intros Ht Hrun. pose proof (Hrun 0%nat tx eq_refl) as H0.
    destruct (tight_promote p q tx Ht Hw) as (Htq & Hnq & _); try done; [rewrite Hs; lia|by destruct Henv|].
    rewrite Hs in Hnq. destruct Ht' as [? ->]; [done| |].
    { intros i x Hi. rewrite (Hrun (S i) x Hi), Hnq. lia. }
    split; [done|]. lia.
  - intros b n x Hx. apply Hkeep. rewrite Es. case_decide as He; [|done]. destruct He as [-> ->]. congruence.
  - intros x [->|Hx]%elem_of_cons; [|by apply Hin]. apply Hkeep. rewrite Es. by rewrite decide_True.
  - intros b Hb. rewrite Hnb by done. unfold nonce_of. rewrite En, nonce_at_set. by rewrite decide_False by congruence.
  - intros b n x [Hx|Hx]%Hfrom; [|right; by right]. rewrite Es in Hx. case_decide; [injection Hx as <-; right; by left|by left].
Qed.

(** The steps of [promote_account]; [q] is the list they work on. *)
Lemma queue_out F p a l l' R : ok F p -> queue p !! a = Some l -> extracts l l' R ->
  let p' := forget_txs R (with_queue p (<[a := l']> (queue p))) in
  ok F p' /\ same_env p p' /\ pending p' = pending p /\ pendingState p' = pendingState p /\ queue p' = <[a := l']> (queue p).
Proof.
  intros Hp Hl Hex p'. pose proof (take_queue W F p a l l' R Hp Hl Hex) as Ht.
  destruct (forget_txs_same R (with_queue p (<[a := l']> (queue p)))) as [[] ? ? ? ?].
  split; [by apply forget_flight|]. by split_and!.
Qed.

Definition qlen p a : nat := match queue p !! a with Some l => Len l | None => 0%nat end.
Definition plen p a : nat := match pending p !! a with Some l => Len l | None => 0%nat end.

Lemma cap_int_extracts l (k : Z) : list_ok l -> 0 <= k -> exists R l', cap_int l k = Ok (R, l') /\ extracts l l' R /\
  ((Z.of_nat (Len l) <= k) /\ R = [] /\ items (txs l') = items (txs l) \/
   (k < Z.of_nat (Len l)) /\ Z.of_nat (Len l') = k /\ exists c, items (txs l') = below (items (txs l)) c).
Proof.
  intros Hl Hk. unfold cap_int. destruct (Z.ltb_spec k 0); [lia|].
  destruct (Cap_extracts l (Z.to_nat k) Hl) as (R & l' & -> & Hex & Hcase). exists R, l'. split; [done|]. split; [done|].
  destruct Hcase as [(? & ? & ?)|(? & ? & ?)]; [left|right]; split_and!; try done; lia.
Qed.

(** The nonces of the pending list are not queued. *)
Lemma queue_above p a n : ok [] p -> tight p -> is_Some (slot (queue p) a n) -> currentState p a <= n -> nonce_of p a <= n.
Proof.
  intros Hp Ht [x Hx] Hge. destruct (decide (n < nonce_of p a)); [|lia]. exfalso. destruct (Ht a) as (_ & _ & Hdom).
  assert (is_Some (slot (pending p) a n)) as [y Hy] by (apply Hdom; lia).
  destruct (po_disjoint _ _ _ Hp a n) as [?|?]; congruence.
Qed.

(** A list without room for gaps: the run taken is the one the pending list waits for. *)
Lemma ready_run p a l R l' : ok [] p -> tight p -> queue p !! a = Some l -> (forall n, is_Some (items (txs l) !! n) -> currentState p a <= n) ->
  extracts l l' R -> ssorted R ->
  (forall n, is_Some (items (txs l) !! n) -> nonce_of p a < n) /\ R = [] /\ items (txs l') = items (txs l) \/
   (exists first, is_Some (items (txs l) !! first) /\ first <= nonce_of p a /\ (forall n, is_Some (items (txs l) !! n) -> first <= n) /\
     let stop := first + Z.of_nat (length R) in
     (forall n, first <= n < stop -> is_Some (items (txs l) !! n)) /\ items (txs l) !! stop = None /\
     items (txs l') = above (items (txs l)) stop) ->
  (forall i tx, R !! i = Some tx -> Nonce tx = nonce_of p a + Z.of_nat i) /\
  (forall n, is_Some (items (txs l') !! n) -> nonce_of p a + Z.of_nat (length R) < n).
Proof.
  intros Hp Ht Hl Hge Hex Hsort [(Hlt & -> & ->)|(first & Hf & Hle & Hmin & Hrun & Hstop & Hit)].
  { split; [done|]. intros n Hn. specialize (Hlt n Hn). simpl. lia. }
  assert (first = nonce_of p a) as ->.
  { assert (nonce_of p a <= first); [|lia]. apply queue_above; [done..|by rewrite (slot_list _ _ l)|by apply Hge]. }
  split.
  - apply ssorted_run; [done|]. intros tx Htx. apply (ex_out _ _ _ Hex) in Htx as [Hn Hno].
    rewrite Hit, above_lookup in Hno. split; [apply Hmin; by rewrite Hn|]. case_decide; [done|congruence].
  - intros n. rewrite Hit, above_lookup. case_decide; [by intros [? ?]|]. intros Hn. simpl in *.
    destruct (decide (n = nonce_of p a + Z.of_nat (length R))) as [->|]; [|lia]. rewrite Hstop in Hn. by destruct Hn.
Qed.

Lemma ready_first l l' R start x : list_ok l -> extracts l l' R ->
  (forall n, is_Some (items (txs l) !! n) -> start < n) /\ R = [] /\ items (txs l') = items (txs l) \/
   (exists first, is_Some (items (txs l) !! first) /\ first <= start /\ (forall n, is_Some (items (txs l) !! n) -> first <= n) /\
     let stop := first + Z.of_nat (length R) in
     (forall n, first <= n < stop -> is_Some (items (txs l) !! n)) /\ items (txs l) !! stop = None /\
     items (txs l') = above (items (txs l)) stop) ->
  (forall n, is_Some (items (txs l) !! n) -> start <= n) -> items (txs l) !! start = Some x -> x ∈ R.
Proof.
  intros Hl Hex Hcase Hge Hx. destruct Hcase as [(Hlt & _)|(first & Hf & Hle & Hmin & Hrun & Hstop & Hit)].
  { specialize (Hlt start ltac:(by rewrite Hx)). lia. }
  assert (first = start) as -> by (specialize (Hge first Hf); lia).
  apply (ex_out _ _ _ Hex). rewrite (list_nonce _ _ _ Hl Hx), Hit, above_lookup. split; [done|].
  destruct R as [|y R]; [|rewrite decide_True by (simpl; lia); done]. rewrite Z.add_0_r in Hstop. congruence.
Qed.

(** The end of [promote_account]: an empty list goes. *)
Lemma settle_queue F p a l : ok F p -> queue p !! a = Some l ->
  let p' := if Empty l then with_queue p (delete a (queue p)) else p in
  ok F p' /\ same_env p p' /\ pending p' = pending p /\ pendingState p' = pendingState p /\
  (forall b, b <> a -> queue p' !! b = queue p !! b) /\ queue p' !! a = (if Empty l then None else Some l).
Proof.
  intros Hp Hl. destruct (Empty l) eqn:He; simpl.
  - split; [by eapply drop_empty_queue|]. split_and!; try done; [intros b Hb; by rewrite lookup_delete_ne|apply lookup_delete_eq].
  - by split_and!.
Qed.

Lemma no_empty_settled (m m' : lists) a l : no_empty m -> (forall b, b <> a -> m' !! b = m !! b) ->
  m' !! a = (if Empty l then None else Some l) -> no_empty m'.
Proof.
  intros Hm Ho Ha b x Hx. destruct (decide (b = a)) as [->|]; [|rewrite Ho in Hx by done; by eapply Hm].
  rewrite Ha in Hx. destruct (Empty l) eqn:He; [done|congruence].
Qed.

Lemma i64_id z : 0 <= z < 2 ^ 63 -> i64 z = z.
Proof. intros Hz. unfold i64. rewrite Z.mod_small; lia. Qed.

(** The tail of [promote_account], from the limit on. *)
Lemma limit_account p a l : ok [] p -> config_ok (config p) -> queue p !! a = Some l -> exists p',
  ('(p, l) ← (if contains p a then Ok (p, l)
              else '(drops, l) ← cap_int l (i64 (AccountQueue (config p)));
                   Ok (forget_txs drops (with_queue p (<[a := l]> (queue p))), l));
   Ok (if Empty l then with_queue p (delete a (queue p)) else p) : outcome unit TxPool) = Ok p' /\
  ok [] p' /\ same_env p p' /\ pending p' = pending p /\ pendingState p' = pendingState p /\
  (forall b, b <> a -> queue p' !! b = queue p !! b) /\
  (exists l', queue p' !! a = (if Empty l' then None else Some l') /\
     (forall n tx, items (txs l') !! n = Some tx -> items (txs l) !! n = Some tx) /\
     (contains p a = false -> Z.of_nat (Len l') <= AccountQueue (config p))).
Proof.
  intros Hp Hcfg Hl. pose proof (co_AccountQueue _ Hcfg) as Hq. destruct (contains p a) eqn:Hc; simpl.
  - destruct (settle_queue [] p a l Hp Hl) as (? & ? & ? & ? & ? & ?). eexists. split; [done|]. split_and!; try done. by exists l.
  - rewrite i64_id by done. destruct (lo_list _ _ _ (po_queue _ _ _ Hp) _ _ Hl) as [Hlok _].
    destruct (cap_int_extracts l (AccountQueue (config p)) Hlok) as (R & l' & -> & Hex & Hcase); [lia|]. simpl.
    destruct (queue_out [] p a l l' R Hp Hl Hex) as (Hok & Henv & Ep & En & Eq). set (q := forget_txs R _) in *.
    destruct (settle_queue [] q a l' Hok) as (? & He' & Ep' & En' & Ho & Ha); [rewrite Eq; apply lookup_insert_eq|].
    eexists. split; [done|]. split_and!; try done; [by etransitivity|congruence|congruence| |].
    + intros b Hb. rewrite Ho, Eq by done. by apply lookup_insert_ne.
    + exists l'. split_and!; [done|apply Hex|]. intros _. destruct Hcase as [(Hle & -> & _)|(_ & -> & _)]; [|lia].
      pose proof (extracts_Len _ _ _ Hlok Hex) as Hlen. simpl in Hlen. lia.
Qed.

(** What [promote_account] leaves in the queue of the account. *)
Lemma promote_account_ok now p a : ok [] p -> config_ok (config p) -> exists p', promote_account now p a = Ok p' /\
  ok [] p' /\ same_env p p' /\ (forall b, b <> a -> queue p' !! b = queue p !! b /\ nonce_of p' b = nonce_of p b) /\
  (no_empty (pending p) -> no_empty (pending p')) /\ (no_empty (queue p) -> no_empty (queue p')) /\
  (contains p a = false -> Z.of_nat (qlen p' a) <= AccountQueue (config p)) /\
  (tight p -> tight p' /\ forall n, is_Some (slot (queue p') a n) -> nonce_of p' a < n) /\
  (forall b n x, slot (pending p') b n = Some x -> slot (pending p) b n = Some x \/ b = a /\ slot (queue p) a n = Some x) /\
  (forall b n x, slot (pending p) b n = Some x -> slot (pending p') b n = Some x) /\
  (tight p -> forall x, slot (queue p) a (nonce_of p a) = Some x -> slot (pending p') a (nonce_of p a) = Some x).
Proof.
  intros Hp Hcfg. unfold promote_account, qlen. destruct (queue p !! a) as [l|] eqn:Hl.
  2:{ exists p. rewrite Hl. split_and!; try done; [intros _; pose proof (co_AccountQueue _ Hcfg); simpl; lia| |by left|].
      - intros Ht. split; [done|]. intros n. unfold slot. rewrite Hl. by intros [? ?].
      - intros _ x. unfold slot. by rewrite Hl. }
  destruct (lo_list _ _ _ (po_queue _ _ _ Hp) _ _ Hl) as [Hlok Hlst].
  destruct (Forward_extracts l (currentState p a) Hlok) as (R1 & l1 & -> & Hex1 & Hit1). simpl.
  destruct (queue_out [] p a l l1 R1 Hp Hl Hex1) as (Hok1 & Henv1 & Ep1 & En1 & Eq1). set (p1 := forget_txs R1 _) in *.
  assert (queue p1 !! a = Some l1) as Hl1 by (rewrite Eq1; apply lookup_insert_eq).
  destruct (Ready_extracts l1 (nonce_of p1 a) (ex_ok _ _ _ Hex1)) as (R2 & l2 & -> & Hex2 & Hsort & Hcase). simpl.
  pose proof (take_queue W [] p1 a l1 l2 R2 Hok1 Hl1 Hex2) as Hok2. set (p2 := with_queue p1 _) in *.
  assert (forall tx, tx ∈ R2 -> sender tx = a) as Hsend.
  { intros tx Hin. by destruct (extracted W _ _ _ _ _ _ _ (po_queue _ _ _ Hok1) Hl1 Hex2 Hin) as (_ & ? & _). }
  destruct (promote_run now a R2 [] p2 Hok2 Hsend) as (Hok3 & Henv3 & Eq3 & Hne3 & Ht3 & Hkeep3 & Hin3 & Hnb3 & Hfrom3). set (p3 := fold_left _ R2 p2) in *.
  assert (queue p3 !! a = Some l2) as Hl3 by (rewrite Eq3; apply lookup_insert_eq).
  assert (same_env p p3) as Henv by (transitivity p1; [done|]; transitivity p2; [done|done]).
  destruct (limit_account p3 a l2 Hok3) as (p' & Hrun & Hok' & Henv' & Ep' & En' & Ho' & l3 & Ha' & Hsub & Hcap);
    [by rewrite (en_config _ _ Henv)|done|].
  exists p'. split; [exact Hrun|]. rewrite (en_config _ _ Henv) in Hcap. unfold contains in Hcap. rewrite (en_locals _ _ Henv) in Hcap.
  assert (forall b, b <> a -> queue p' !! b = queue p !! b) as Hother.
  { intros b Hb. rewrite Ho', Eq3 by done. simpl. rewrite lookup_insert_ne, Eq1 by done. by apply lookup_insert_ne. }
  split; [done|]. split; [by transitivity p3|].
  split; [intros b Hb; split; [by apply Hother|]; unfold nonce_of in *; rewrite En', Hnb3 by done; simpl; by rewrite En1|]. split_and!.
  - intros Hne. rewrite Ep'. apply Hne3. simpl. by rewrite Ep1.
  - intros Hne. by eapply no_empty_settled.
  - intros Hc. rewrite Ha'. specialize (Hcap Hc). destruct (Empty l3); [pose proof (co_AccountQueue _ Hcfg); simpl; lia|done].
  - intros Ht. assert (tight p1) as Ht1.
    { apply (tight_same p p1 Ht); [apply Henv1|done|]. intros b n. by rewrite Ep1. }
    destruct (ready_run p1 a l1 R2 l2 Hok1 Ht1 Hl1) as [Hrun2 Hafter]; try done.
    { intros n. rewrite Hit1, above_lookup, (en_current _ _ Henv1). destruct (decide (n < currentState p a)); [by intros [? ?]|intros _; lia]. }
    destruct Ht3 as [Ht3 Hn3]; [by apply (tight_same p1)|done|]. split.
    + apply (tight_same p3 p' Ht3); [apply Henv'|done|]. intros b n. by rewrite Ep'.
    + intros n [x Hx]. unfold slot in Hx. rewrite Ha' in Hx. destruct (Empty l3); [done|]. simpl in Hx.
      unfold nonce_of in *. rewrite En'. change (pendingState p2) with (pendingState p1) in Hn3. rewrite Hn3.
      apply Hafter. exists x. by apply Hsub.
  - intros b n x. rewrite Ep'. intros Hbx. destruct (Hfrom3 _ _ _ Hbx) as [Hx|Hx]; [left; simpl in Hx; by rewrite Ep1 in Hx|right].
    destruct (lo_tx _ _ _ (po_pending _ _ _ Hok3) _ _ _ Hbx) as (<- & <- & _). split; [by apply Hsend|].
    rewrite (slot_list _ _ l) by done. apply (ex_sub _ _ _ Hex1). by apply (ex_out _ _ _ Hex2) in Hx as [? _].
  - intros b n x Hx. rewrite Ep'. apply Hkeep3. simpl. by rewrite Ep1.
  - intros Ht x Hx. rewrite (slot_list _ _ l) in Hx by done. rewrite Ep'. destruct (Ht a) as (Hcur & _ & _).
    assert (x ∈ R2) as HxR; [|rewrite <- (list_nonce _ _ _ Hlok Hx); by apply Hin3].
    unfold nonce_of in Hcase. rewrite En1 in Hcase. apply (ready_first l1 l2 R2 (nonce_of p a)); [apply Hex1|done|done| |].
    + intros n. rewrite Hit1, above_lookup. destruct (decide (n < currentState p a)); [by intros [? ?]|]. intros Hn.
      apply queue_above; [done..|by rewrite (slot_list _ _ l)|lia].
    + rewrite Hit1, above_lookup. destruct (decide (nonce_of p a < currentState p a)); [lia|done].
Qed.

Definition promoted p a : Prop := forall n, is_Some (slot (queue p) a n) -> nonce_of p a < n.
Definition within p a : Prop := contains p a = false -> Z.of_nat (qlen p a) <= AccountQueue (config p).

Lemma promote_accounts_ok now accounts : forall p, ok [] p -> config_ok (config p) ->
  exists p', promote_accounts now accounts p = Ok p' /\ ok [] p' /\ same_env p p' /\
  (no_empty (pending p) -> no_empty (pending p')) /\ (no_empty (queue p) -> no_empty (queue p')) /\
  (forall b, (b ∈ accounts \/ within p b) -> within p' b) /\
  (tight p -> tight p' /\ forall b, (b ∈ accounts \/ promoted p b) -> promoted p' b).
Proof.
  induction accounts as [|a accounts IH]; intros p Hp Hcfg.
  { exists p. split_and!; try done; [intros b [?%elem_of_nil|?]; done|]. intros Ht. split; [done|]. by intros b [?%elem_of_nil|?]. }
  simpl. destruct (promote_account_ok now p a Hp Hcfg) as (q & -> & Hq & Henv & Ho & Hnp & Hnq & Hw & Ht & _). simpl.
  destruct (IH q Hq) as (p' & -> & Hp' & Henv' & Hnp' & Hnq' & Hw' & Ht'); [by rewrite (en_config _ _ Henv)|].
  exists p'. split_and!; try done; [by etransitivity|auto|auto| |].
  - intros b Hb. apply Hw'. destruct (decide (b = a)) as [->|Hne].
    + right. unfold within, contains. rewrite (en_locals _ _ Henv), (en_config _ _ Henv). exact Hw.
    + destruct Hb as [[?|Hb]%elem_of_cons|Hb]; [done|by left|right]. unfold within, contains, qlen in *.
      by rewrite (en_locals _ _ Henv), (en_config _ _ Henv), (proj1 (Ho b Hne)).
  - intros Ht0. destruct (Ht Ht0) as [Htq Hpa]. destruct (Ht' Htq) as [? Hall]. split; [done|]. intros b Hb. apply Hall.
    destruct (decide (b = a)) as [->|Hne]; [by right|]. destruct Hb as [[?|Hb]%elem_of_cons|Hb]; [done|by left|right].
    intros n. unfold slot. rewrite (proj1 (Ho b Hne)), (proj2 (Ho b Hne)). apply Hb.
Qed.

(** ** Removal *)

Lemma forget_unqueued F p h : ok F p -> (forall a n x, slot (queue p) a n = Some x -> TxHash x <> h) -> ok F (forget p h).
Proof.
  intros [Hp Hq Hh Hd Ha Hk Hf Hs] Hno. split; simpl; try done.
  - by apply Removed_ok.
  - intros h' x [_ Hx]%lookup_delete_Some. by apply Ha.
  - intros a n x Hx. rewrite lookup_delete_ne; [by eapply Hk|]. intros He. by apply (Hno a n x).
Qed.

(** A known transaction whose slot of the queue is free is not queued at all. *)
Lemma unqueued F p tx : ok F p -> W tx -> slot (queue p) (sender tx) (Nonce tx) = None ->
  forall a n x, slot (queue p) a n = Some x -> TxHash x <> TxHash tx.
Proof.
  intros Hp Hw Hno a n x Hx He. destruct (lo_tx _ _ _ (po_queue _ _ _ Hp) _ _ _ Hx) as (Es & En & Hwx).
  rewrite (W_inj x tx Hwx Hw He) in *. congruence.
Qed.

Lemma enqueue_all_ok R : forall F p, ok (R ++ F) p -> let p' := enqueue_all p R in
  ok F p' /\ same_env p p' /\ pending p' = pending p /\ pendingState p' = pendingState p /\
  (no_empty (queue p) -> no_empty (queue p')).
Proof.
  unfold enqueue_all. induction R as [|tx R IH]; intros F p Hp; [by split_and!|]. simpl.
  destruct (enqueue_flight W W_inj (R ++ F) p tx Hp) as (q & -> & Hq & Henv & Ep & En & _ & _ & _ & Hne). simpl.
  destruct (IH F q Hq) as (? & ? & ? & ? & ?). split_and!; try done; [by etransitivity|congruence|congruence|auto].
Qed.

Lemma lower_nonce_ok F p a n : ok F p -> ok F (lower_nonce p a n).
Proof. intros []. unfold lower_nonce. destruct (_ <? _); by split. Qed.

Lemma lower_nonce_env p a n : same_env p (lower_nonce p a n) /\ pending (lower_nonce p a n) = pending p /\
  queue (lower_nonce p a n) = queue p /\ all (lower_nonce p a n) = all p.
Proof. unfold lower_nonce. by destruct (_ <? _). Qed.

Lemma lower_nonce_at p a n b : nonce_of (lower_nonce p a n) b = if decide (b = a) then Z.min n (nonce_of p a) else nonce_of p b.
Proof.
  unfold lower_nonce. destruct (Z.ltb_spec n (nonce_of p a)).
  - unfold nonce_of at 1. simpl. rewrite nonce_at_set. case_decide; [lia|done].
  - case_decide; [subst; lia|done].
Qed.

(** Cutting the pending list of [a] at [c] and lowering its nonce to [c]. *)
Lemma tight_cut p p' a c : tight p -> currentState p' = currentState p -> currentState p a <= c ->
  (forall b, nonce_of p' b = if decide (b = a) then Z.min c (nonce_of p a) else nonce_of p b) ->
  (forall b n, slot (pending p') b n = if decide (b = a /\ c <= n) then None else slot (pending p) b n) -> tight p'.
Proof.
  intros Ht Ec Hc Hn Hs b. rewrite Ec, Hn. specialize (Ht b) as (H1 & H2 & H3). setoid_rewrite Hs. case_decide as Hb.
  - subst b. split_and!; try lia. intros n. destruct (decide (c <= n)).
    + rewrite decide_True by done. split; [by intros [? ?]|lia].
    + rewrite decide_False by lia. rewrite H3. lia.
  - split_and!; try lia. intros n. rewrite decide_False by naive_solver. apply H3.
Qed.

(** Removal of the pending transaction in the slot of [tx]. *)
Lemma remove_pending p tx l : ok [] p -> W tx -> pending p !! sender tx = Some l -> is_Some (items (txs l) !! Nonce tx) ->
  exists inv l', RemoveTx l tx = Ok (true, inv, l') /\
  let q := with_pending (forget p (TxHash tx)) (<[sender tx := l']> (pending p)) in
  let p' := lower_nonce (if Empty l' then with_beats (with_pending q (delete (sender tx) (pending q))) (delete (sender tx) (beats q))
                         else enqueue_all q inv) (sender tx) (Nonce tx) in
  ok [] p' /\ same_env p p' /\ (no_empty (pending p) -> no_empty (pending p')) /\ (no_empty (queue p) -> no_empty (queue p')) /\
  (tight p -> tight p').
Proof.
  intros Hp Hw Hl [old Hold]. destruct (lo_list _ _ _ (po_pending _ _ _ Hp) _ _ Hl) as [Hlok Hlst].
  destruct (Remove_extracts l tx Hlok) as (inv & l' & Hrm & Hex & _ & Hit). rewrite Hold in Hrm, Hex, Hit.
  rewrite bool_decide_true in Hrm by done. rewrite Hlst in Hit.
  exists inv, l'. split; [done|]. intros q p'.
  assert (slot (queue p) (sender tx) (Nonce tx) = None) as Hno.
  { destruct (po_disjoint _ _ _ Hp (sender tx) (Nonce tx)) as [He|]; [|done]. rewrite (slot_list _ _ l) in He by done. congruence. }
  assert (ok (inv ++ []) q) as Hq.
  { assert (q = forget (with_pending p (<[sender tx := l']> (pending p))) (TxHash tx)) as -> by reflexivity.
    apply (lose_flight W [old]). apply (forget_unqueued ((old :: inv) ++ []) (with_pending p (<[sender tx := l']> (pending p))) (TxHash tx)).
    - by apply (take_pending W [] p (sender tx) l l' (old :: inv)).
    - by apply (unqueued [] p tx). }
  assert (pending q !! sender tx = Some l') as Hl' by apply lookup_insert_eq.
  set (r := if Empty l' then _ else _) in p'.
  assert (ok [] r /\ same_env p r /\ (no_empty (pending p) -> no_empty (pending r)) /\ (no_empty (queue p) -> no_empty (queue r)) /\
    pendingState r = pendingState p /\ forall b n, slot (pending r) b n = slot (pending q) b n) as (Hr & Henv & Hnp & Hnq & En & Hs).
  { unfold r. destruct (Empty l') eqn:He.
    - split_and!; try done.
      + apply (lose_flight W inv). by apply (drop_empty_pending W _ q (sender tx) l').
      + intros Hne. eapply no_empty_settled; [exact Hne|intros b Hb; simpl; by rewrite lookup_delete_ne, lookup_insert_ne|].
        rewrite He. apply lookup_delete_eq.
      + intros b n. simpl. rewrite slot_delete. case_decide; [subst b|done]. rewrite (slot_list _ _ l') by done.
        apply Empty_spec in He. by rewrite He, lookup_empty.
    - destruct (enqueue_all_ok inv [] q Hq) as (? & ? & Ep & En & Hne). split_and!; try done; [by transitivity q| |].
      + intros Hnp. rewrite Ep. eapply no_empty_settled; [exact Hnp|intros b Hb; simpl; by rewrite lookup_insert_ne|].
        rewrite He. apply lookup_insert_eq.
      + intros b n. by rewrite Ep. }
  destruct (lower_nonce_env r (sender tx) (Nonce tx)) as (Henv' & Ep' & Eq' & _). fold p' in Henv', Ep', Eq'.
  split_and!; [by apply lower_nonce_ok|by etransitivity|rewrite Ep'; auto|rewrite Eq'; auto|].
  intros Ht. apply (tight_cut p p' (sender tx) (Nonce tx) Ht).
  - rewrite (en_current _ _ Henv'). apply Henv.
  - destruct (Ht (sender tx)) as (_ & _ & Hdom). apply (Hdom (Nonce tx)). rewrite (slot_list _ _ l) by done. by exists old.
  - intros b. unfold p'. rewrite lower_nonce_at. unfold nonce_of. by rewrite En.
  - intros b n. rewrite Ep', Hs. simpl. rewrite slot_insert, Hit, below_lookup. destruct (decide (b = sender tx)) as [->|].
    + rewrite (slot_list (pending p) _ l) by done. repeat case_decide; try done; naive_solver lia.
    + by rewrite decide_False by naive_solver.
Qed.

(** Removal from the queue, when the pending slot of [tx] is free. *)
Definition dequeue tx p : outcome unit TxPool :=
  match queue p !! sender tx with
  | None => Ok p
  | Some l =>
      '(_, _, l) ← RemoveTx l tx;
      let p := with_queue p (<[sender tx := l]> (queue p)) in
      Ok (if Empty l then with_queue p (delete (sender tx) (queue p)) else p)
  end.

Lemma dequeue_ok p tx : ok [] p -> W tx -> exists p', dequeue tx (forget p (TxHash tx)) = Ok p' /\
  ok [] p' /\ same_env p p' /\ pending p' = pending p /\ pendingState p' = pendingState p /\
  (no_empty (queue p) -> no_empty (queue p')) /\ (forall b, b <> sender tx -> queue p' !! b = queue p !! b) /\
  (forall a n, slot (queue p') a n = if decide (a = sender tx /\ n = Nonce tx) then None else slot (queue p) a n) /\
  (is_Some (slot (queue p) (sender tx) (Nonce tx)) -> qlen p (sender tx) = S (qlen p' (sender tx))).
Proof.
  intros Hp Hw. unfold dequeue, qlen. simpl. destruct (queue p !! sender tx) as [l|] eqn:Hl.
  2:{ assert (slot (queue p) (sender tx) (Nonce tx) = None) as Hno by (unfold slot; by rewrite Hl).
      eexists. split; [done|]. split; [apply forget_unqueued; [done|by apply (unqueued [] p tx)]|]. split_and!; try done.
      - intros a n. case_decide as He; [destruct He as [-> ->]; done|done].
      - rewrite Hno. by intros [? ?]. }
  destruct (lo_list _ _ _ (po_queue _ _ _ Hp) _ _ Hl) as [Hlok Hlst].
  destruct (Remove_extracts l tx Hlok) as (inv & l' & -> & Hex & Hinv & Hit). simpl. rewrite Hlst in Hit, Hinv. rewrite Hinv in Hex by done.
  set (R := match items (txs l) !! Nonce tx with Some old => [old] | None => [] end) in *.
  set (q := with_queue (forget p (TxHash tx)) (<[sender tx := l']> (queue p))).
  assert (forall a n, slot (<[sender tx := l']> (queue p)) a n = if decide (a = sender tx /\ n = Nonce tx) then None else slot (queue p) a n) as Hslot.
  { intros a n. rewrite slot_insert. destruct (decide (a = sender tx)) as [->|]; [|by rewrite decide_False by naive_solver].
    rewrite Hit, (slot_list (queue p) _ l) by done. destruct (decide (n = Nonce tx)) as [->|].
    - rewrite decide_True by done. destruct (items (txs l) !! Nonce tx) eqn:Ho; [apply lookup_delete_eq|done].
    - rewrite decide_False by naive_solver. destruct (items (txs l) !! Nonce tx); [by rewrite lookup_delete_ne|done]. }
  assert (ok [] q) as Hq.
  { assert (q = forget (with_queue p (<[sender tx := l']> (queue p))) (TxHash tx)) as -> by reflexivity.
    apply (lose_flight W R). apply forget_unqueued; [by apply (take_queue W [] p (sender tx) l l' R)|].
    apply (unqueued (R ++ []) _ tx); [by apply (take_queue W [] p (sender tx) l l' R)|done|]. simpl. by rewrite Hslot, decide_True. }
  destruct (settle_queue [] q (sender tx) l' Hq) as (Hok & Henv & Ep & En & Ho & Ha); [apply lookup_insert_eq|].
  set (r := if Empty l' then _ else q) in *. exists r. split; [done|].
  assert (forall b, b <> sender tx -> queue r !! b = queue p !! b) as Hother.
  { intros b Hb. rewrite Ho by done. by apply lookup_insert_ne. }
  split; [done|]. split; [by transitivity q|]. split_and!; [done|done|intros Hne; by eapply no_empty_settled|done| |].
  - intros a n. rewrite <- Hslot. unfold slot. destruct (decide (a = sender tx)) as [->|Hne].
    + rewrite Ha, lookup_insert_eq. destruct (Empty l') eqn:He; [|done]. apply Empty_spec in He. simpl. by rewrite He, lookup_empty.
    + by rewrite Hother, lookup_insert_ne.
  - intros [old Hold]. rewrite (slot_list _ _ l) in Hold by done. unfold R in Hex. rewrite Hold in Hex.
    pose proof (extracts_Len _ _ _ Hlok Hex) as Hlen. rewrite Ha. simpl in Hlen. destruct (Empty l') eqn:He; [|lia].
    unfold Empty in He. apply Nat.eqb_eq in He. lia.
Qed.

(** Rewriting [removeTx] with the two cases. *)
Lemma removeTx_ok h p : ok [] p -> exists p', removeTx h p = Ok p' /\ ok [] p' /\ same_env p p' /\
  (no_empty (pending p) -> no_empty (pending p')) /\ (no_empty (queue p) -> no_empty (queue p')) /\ (tight p -> tight p').
Proof.
  intros Hp. unfold removeTx. destruct (all p !! h) as [tx|] eqn:Hall; [|by exists p].
  destruct (po_all _ _ _ Hp _ _ Hall) as [<- Hw]. simpl. destruct (pending p !! sender tx) as [l|] eqn:Hl; simpl.
  2:{ destruct (dequeue_ok p tx Hp Hw) as (p' & Hd & Hok & Henv & Ep & En & Hnq & _). exists p'.
      split; [exact Hd|]. rewrite Ep. split_and!; try done. intros Ht. apply (tight_same p); [done|apply Henv|done|by rewrite Ep]. }
  destruct (items (txs l) !! Nonce tx) as [old|] eqn:Hold.
  - destruct (remove_pending p tx l Hp Hw Hl) as (inv & l' & -> & Hrest); [by exists old|]. simpl. eexists. split; [done|]. exact Hrest.
  - destruct (lo_list _ _ _ (po_pending _ _ _ Hp) _ _ Hl) as [Hlok _].
    destruct (Remove_extracts l tx Hlok) as (inv & l' & -> & Hex & _ & Hit). rewrite Hold in *.
    rewrite bool_decide_false by (by intros [? ?]). simpl.
    set (q := with_pending p (<[sender tx := l']> (pending p))).
    pose proof (take_pending W [] p (sender tx) l l' [] Hp Hl Hex : ok [] q) as Hq.
    destruct (dequeue_ok q tx Hq Hw) as (p' & Hd & Hok & Henv & Ep & En & Hnq & _). exists p'. split; [exact Hd|].
    assert (forall b n, slot (pending q) b n = slot (pending p) b n) as Hs.
    { intros b n. unfold q. simpl. rewrite slot_insert. case_decide; [subst b; by rewrite Hit, (slot_list _ _ l)|done]. }
    split_and!; try done.
    + by transitivity q.
    + intros Hne. rewrite Ep. unfold q. simpl. intros b x [[<- <-]|[_ Hx]]%lookup_insert_Some; [|by eapply Hne].
      specialize (Hne _ _ Hl). unfold Empty in *. by rewrite Len_size, Hit, <- Len_size.
    + intros Ht. apply (tight_same p); [done|apply Henv|done|]. intros b n. rewrite Ep. apply Hs.
Qed.

(** A queued transaction is really taken out of its queue, and nothing else changes. *)
Lemma removeTx_queued p tx : ok [] p -> slot (queue p) (sender tx) (Nonce tx) = Some tx -> exists p',
  removeTx (TxHash tx) p = Ok p' /\ ok [] p' /\ same_env p p' /\ pendingState p' = pendingState p /\
  (forall a n, slot (pending p') a n = slot (pending p) a n) /\
  (forall b, b <> sender tx -> queue p' !! b = queue p !! b) /\
  (forall a n, slot (queue p') a n = if decide (a = sender tx /\ n = Nonce tx) then None else slot (queue p) a n) /\
  qlen p (sender tx) = S (qlen p' (sender tx)).
Proof.
  intros Hp Hx. unfold removeTx. rewrite (po_queued _ _ _ Hp _ _ _ Hx).
  destruct (lo_tx _ _ _ (po_queue _ _ _ Hp) _ _ _ Hx) as (_ & _ & Hw). simpl.
  destruct (pending p !! sender tx) as [l|] eqn:Hl; simpl.
  2:{ destruct (dequeue_ok p tx Hp Hw) as (p' & Hd & Hok & Henv & Ep & En & Hnq & Ho & Hs & Hlen). exists p'.
      split; [exact Hd|]. split_and!; try done; [by rewrite Ep|apply Hlen; by rewrite Hx]. }
  destruct (lo_list _ _ _ (po_pending _ _ _ Hp) _ _ Hl) as [Hlok _].
  assert (items (txs l) !! Nonce tx = None) as Hold.
  { destruct (po_disjoint _ _ _ Hp (sender tx) (Nonce tx)) as [He|He]; [by rewrite (slot_list _ _ l) in He|congruence]. }
  destruct (Remove_extracts l tx Hlok) as (inv & l' & -> & Hex & _ & Hit). rewrite Hold in *.
  rewrite bool_decide_false by (by intros [? ?]). simpl.
  set (q := with_pending p (<[sender tx := l']> (pending p))).
  pose proof (take_pending W [] p (sender tx) l l' [] Hp Hl Hex : ok [] q) as Hq.
  destruct (dequeue_ok q tx Hq Hw) as (p' & Hd & Hok & Henv & Ep & En & Hnq & Ho & Hs & Hlen). exists p'.
  split; [exact Hd|]. split_and!; try done; [by transitivity q| |].
  - intros a n. rewrite Ep. unfold q. simpl. rewrite slot_insert. case_decide; [subst a; by rewrite Hit, (slot_list _ _ l)|done].
  - apply Hlen. simpl. by rewrite Hx.
Qed.

Lemma remove_all_ok txs : forall p, ok [] p -> exists p', remove_all txs p = Ok p' /\ ok [] p' /\ same_env p p' /\
  (no_empty (pending p) -> no_empty (pending p')) /\ (no_empty (queue p) -> no_empty (queue p')) /\ (tight p -> tight p').
Proof.
  induction txs as [|tx txs IH]; intros p Hp; [by exists p|]. simpl.
  destruct (removeTx_ok (TxHash tx) p Hp) as (q & -> & Hq & Henv & Hnp & Hnq & Ht). simpl.
  destruct (IH q Hq) as (p' & -> & ? & ? & ? & ? & ?). exists p'. split_and!; auto. by etransitivity.
Qed.
End Steps.
