(* ===== verification/TxPoolLimits.v ===== *)
(** * The limits of the pool

    [limit_pending] equalizes the pending lists of the large remote accounts until
    the total is within [GlobalSlots] or every such account is within
    [AccountSlots]; [limit_queue] drops queued transactions of remote accounts until
    the total is within [GlobalQueue].  Both loops end, and neither touches a local
    account. *)

From stdpp Require Import base gmap list sorting.
From S2P Require Import Prelude Types Heap TxList ManagedState Vm Processor TxPool TxPoolInv TxPoolSteps.
Local Open Scope Z_scope.

(** ** Counting *)

Definition total (m : lists) : nat := sum_list (Len <$> (map_to_list m).*2).

Lemma total_perm (m : lists) l : map_to_list m ≡ₚ l -> total m = sum_list (Len <$> l.*2).
Proof. intros Hp. unfold total. by rewrite Hp. Qed.

Lemma total_delete m a l : m !! a = Some l -> total m = (Len l + total (delete a m))%nat.
Proof. intros Ha. rewrite (total_perm m ((a, l) :: map_to_list (delete a m))); [done|]. symmetry. by apply map_to_list_delete. Qed.

Lemma total_insert m a l l' : m !! a = Some l -> (total (<[a := l']> m) + Len l = total m + Len l')%nat.
Proof.
  intros Ha. rewrite (total_delete m a l Ha), (total_delete (<[a:=l']> m) a l') by apply lookup_insert_eq.
  rewrite delete_insert_eq. lia.
Qed.

Lemma pool_count_total m : Z.of_nat (total m) < 2 ^ 64 -> pool_count m = Z.of_nat (total m).
Proof.
  assert (forall ls s, 0 <= s -> s + Z.of_nat (sum_list (Len <$> ls)) < 2 ^ 64 ->
    fold_left (fun n (l : txList message) => u64 (n + Z.of_nat (Len l))) ls s = s + Z.of_nat (sum_list (Len <$> ls))) as Hf.
  { induction ls as [|l ls IH]; intros s Hs Hlt; csimpl in *; [lia|]. unfold u64 at 2. rewrite wrap_small by lia. rewrite IH; lia. }
  intros Hlt. unfold pool_count, total in *. rewrite Hf; lia.
Qed.

(** The transactions of a table, and their number. *)
Definition contents (m : lists) : list message := map_to_list m ≫= fun al => (map_to_list (items (txs al.2))).*2.

Lemma length_contents m : length (contents m) = total m.
Proof.
  unfold contents, total. induction (map_to_list m) as [|[a l] ls IH]; [done|]. csimpl. rewrite length_app, IH. f_equal.
  unfold Len, sm_Len. by rewrite length_fmap.
Qed.

Lemma elem_contents W b m tx : lists_ok W b m -> tx ∈ contents m <-> slot m (sender tx) (Nonce tx) = Some tx.
Proof.
  intros Hm. unfold contents. rewrite list_elem_of_bind. split.
  - intros ([a l] & Hin & Hl%elem_of_map_to_list). simpl in Hin. apply list_elem_of_fmap in Hin as ([n x] & -> & Hx%elem_of_map_to_list).
    simpl. assert (slot m a n = Some x) as Hs by (by rewrite (slot_list m a l)).
    destruct (lo_tx _ _ _ Hm _ _ _ Hs) as (-> & -> & _). done.
  - intros Hs. unfold slot in Hs. destruct (m !! sender tx) as [l|] eqn:Hl; [|done]. simpl in Hs.
    exists (sender tx, l). split; [|by apply elem_of_map_to_list]. simpl. apply list_elem_of_fmap. exists (Nonce tx, tx).
    split; [done|by apply elem_of_map_to_list].
Qed.

Lemma NoDup_contents W b m : lists_ok W b m -> NoDup (contents m).
Proof.
  intros Hm. unfold contents. apply NoDup_bind; [| |apply NoDup_map_to_list].
  - intros [a l] [a' l'] tx Hl%elem_of_map_to_list Hl'%elem_of_map_to_list. simpl.
    intros ([n x] & -> & Hx%elem_of_map_to_list)%list_elem_of_fmap ([n' x'] & He & Hx'%elem_of_map_to_list)%list_elem_of_fmap.
    simpl in He. subst x'. assert (slot m a n = Some x) as Hs by (by rewrite (slot_list m a l)).
    assert (slot m a' n' = Some x) as Hs' by (by rewrite (slot_list m a' l')).
    destruct (lo_tx _ _ _ Hm _ _ _ Hs) as (<- & _ & _), (lo_tx _ _ _ Hm _ _ _ Hs') as (<- & _ & _). congruence.
  - intros [a l] Hl%elem_of_map_to_list. simpl. destruct (lo_list _ _ _ Hm _ _ Hl) as [Hok _].
    apply (NoDup_fmap_1 Nonce). rewrite <- list_fmap_compose.
    replace (Nonce ∘ snd <$> map_to_list (items (txs l))) with (map_to_list (items (txs l))).*1; [apply NoDup_fst_map_to_list|].
    apply list_fmap_ext. intros i [n tx] Hi. simpl. apply list_elem_of_lookup_2, elem_of_map_to_list in Hi.
    by rewrite (list_nonce _ _ _ Hok Hi).
Qed.

(** Slots determine the numbers. *)
Lemma total_slots W b m m' : lists_ok W b m -> lists_ok W b m' -> (forall a n, slot m' a n = slot m a n) -> total m' = total m.
Proof.
  intros Hm Hm' Hs. rewrite <- !length_contents. apply Permutation_length.
  apply NoDup_Permutation; [by eapply NoDup_contents..|]. intros tx.
  rewrite (elem_contents W b m' tx Hm'), (elem_contents W b m tx Hm). by rewrite Hs.
Qed.

Definition llen (m : lists) (a : Address) : nat := match m !! a with Some l => Len l | None => 0%nat end.

Lemma llen_slots m m' a : (forall n, slot m' a n = slot m a n) -> llen m' a = llen m a.
Proof.
  intros Hs. unfold llen, slot in *. destruct (m !! a) as [l|], (m' !! a) as [l'|]; simpl in Hs; rewrite ?Len_size.
  - f_equal. by apply map_eq.
  - symmetry. apply map_size_empty_iff, map_eq. intros n. by rewrite <- Hs, lookup_empty.
  - apply map_size_empty_iff, map_eq. intros n. by rewrite Hs, lookup_empty.
  - done.
Qed.

Lemma total_other m m' a : (forall b, b <> a -> m' !! b = m !! b) -> (total m' + llen m a = total m + llen m' a)%nat.
Proof.
  intros Ho. assert (delete a m' = delete a m) as Hd.
  { apply map_eq. intros b. rewrite !lookup_delete. case_decide; [done|]. by apply Ho. }
  assert (forall x, total x = (llen x a + total (delete a x))%nat) as Hx.
  { intros x. unfold llen. destruct (x !! a) as [l|] eqn:Hl; [by apply total_delete|]. by rewrite delete_id. }
  rewrite (Hx m), (Hx m'), Hd. lia.
Qed.

Section Limits.
Context (W : message -> Prop) (W_inj : forall x y, W x -> W y -> TxHash x = TxHash y -> x = y).
Context (W_nonce : forall tx, W tx -> Nonce tx + 1 < 2 ^ 64).
(** Fewer than 2^24 transactions, so that their numbers are exact as [float32]. *)
Context (W_small : forall txs, NoDup txs -> (forall tx, tx ∈ txs -> W tx) -> Z.of_nat (length txs) < 2 ^ 24).
Implicit Types (p : TxPool) (tx : message) (a b : Address) (l : txList message).

Abbreviation ok := (pool_ok W).

Lemma total_small (b : bool) m : lists_ok W b m -> Z.of_nat (total m) < 2 ^ 24.
Proof.
  intros Hm. rewrite <- length_contents. apply W_small; [by eapply NoDup_contents|].
  intros tx Hs%(elem_contents W b m tx Hm). by destruct (lo_tx _ _ _ Hm _ _ _ Hs) as (_ & _ & ?).
Qed.

Lemma plen_total p a : (plen p a <= total (pending p))%nat.
Proof. unfold plen. destruct (pending p !! a) as [l|] eqn:Hl; [|lia]. rewrite (total_delete _ _ _ Hl). lia. Qed.

(** ** Trimming pending lists *)

(** [p'] is [p] with some pending lists shortened from the end. *)
Record trimmed p p' : Prop := {
  tm_ok : ok [] p';
  tm_env : same_env p p';
  tm_queue : queue p' = queue p;
  tm_beats : beats p' = beats p;
  tm_tight : tight p -> tight p';
  tm_nonempty : no_empty (pending p) -> no_empty (pending p');
  tm_dom a : is_Some (pending p' !! a) <-> is_Some (pending p !! a);
  tm_nonce a : nonce_of p' a <= nonce_of p a;
  tm_sub a n tx : slot (pending p') a n = Some tx -> slot (pending p) a n = Some tx;
}.

Lemma trimmed_refl p : ok [] p -> trimmed p p.
Proof. intros Hp. by split. Qed.

Lemma trimmed_trans p q r : trimmed p q -> trimmed q r -> trimmed p r.
Proof.
  intros Hpq Hqr. destruct Hpq, Hqr. split; auto; try congruence; [by etransitivity|..].
  - intros a. by rewrite tm_dom1.
  - intros a. by transitivity (nonce_of q a).
Qed.

Lemma cap_one_ok p a : ok [] p -> (1 < plen p a)%nat -> exists p', cap_one p a = Ok p' /\ trimmed p p' /\
  (forall b, plen p b = (plen p' b + if decide (b = a) then 1 else 0)%nat) /\ total (pending p) = S (total (pending p')).
Proof.
  intros Hp Hlen. unfold cap_one, plen in *. destruct (pending p !! a) as [l|] eqn:Hl; [|lia]. simpl.
  destruct (lo_list _ _ _ (po_pending _ _ _ Hp) _ _ Hl) as [Hlok Hlst].
  destruct (cap_int_extracts l (Z.of_nat (Len l) - 1) Hlok) as (R & l' & -> & Hex & [(? & _)|(_ & Hl' & c & Hit)]); [lia..|]. simpl.
  pose proof (extracts_Len _ _ _ Hlok Hex) as HR. destruct R as [|tx [|]]; simpl in HR; [lia| |lia]. simpl.
  destruct (proj1 (ex_out _ _ _ Hex tx) (list_elem_of_here _ _)) as [Hin Hout].
  set (q := with_pending p (<[a := l']> (pending p))).
  pose proof (forget_one W W_inj [] q tx (take_pending W [] p a l l' [tx] Hp Hl Hex)) as Hq.
  destruct (lower_nonce_env (forget q (TxHash tx)) a (Nonce tx)) as (Henv & Ep & Eq & _).
  set (p' := lower_nonce (forget q (TxHash tx)) a (Nonce tx)) in *. exists p'. split; [done|].
  assert (pending p' = <[a := l']> (pending p)) as Ep' by (rewrite Ep; done).
  assert (forall b, nonce_of p' b = if decide (b = a) then Z.min (Nonce tx) (nonce_of p a) else nonce_of p b) as Hnon.
  { intros b. unfold p'. by rewrite lower_nonce_at. }
  split; [|rewrite Ep'; split].
  - split.
    + by apply lower_nonce_ok.
    + by transitivity (forget q (TxHash tx)).
    + by rewrite Eq.
    + unfold p', lower_nonce. by destruct (_ <? _).
    + intros Ht. apply (tight_cut p p' a (Nonce tx) Ht); [apply Henv| |done|].
      * destruct (Ht a) as (_ & _ & Hdom). apply (Hdom (Nonce tx)). rewrite (slot_list _ _ l) by done. by rewrite Hin.
      * intros b n. rewrite Ep', slot_insert. destruct (decide (b = a)) as [->|]; [|by rewrite decide_False by naive_solver].
        rewrite (slot_list (pending p) a l) by done. destruct (decide (Nonce tx <= n)).
        -- rewrite decide_True by done. rewrite Hit, below_lookup in *. repeat case_decide; try done; [congruence|lia].
        -- rewrite decide_False by naive_solver. destruct (items (txs l) !! n) as [x|] eqn:Hx.
           ++ destruct (items (txs l') !! n) as [y|] eqn:Hy; [by rewrite (ex_sub _ _ _ Hex _ _ Hy) in Hx; congruence|].
              pose proof (list_nonce _ _ _ Hlok Hx) as Hnx. assert (x ∈ [tx]) as Hxin by (apply (ex_out _ _ _ Hex); by rewrite Hnx).
              apply list_elem_of_singleton in Hxin as ->. lia.
           ++ destruct (items (txs l') !! n) as [y|] eqn:Hy; [by rewrite (ex_sub _ _ _ Hex _ _ Hy) in Hx|done].
    + intros Hne. rewrite Ep'. intros b x [[<- <-]|[_ Hx]]%lookup_insert_Some; [|by eapply Hne]. unfold Empty. apply Nat.eqb_neq. lia.
    + intros b. rewrite Ep'. destruct (decide (b = a)) as [->|].
      * rewrite lookup_insert_eq, Hl. done.
      * by rewrite lookup_insert_ne.
    + intros b. rewrite Hnon. case_decide; [subst; lia|lia].
    + intros b n x. rewrite Ep'. by apply (slot_extract (pending p) a l l' [tx]).
  - intros b. destruct (decide (b = a)) as [->|]; [rewrite lookup_insert_eq, Hl; lia|]. rewrite lookup_insert_ne by done. lia.
  - pose proof (total_insert (pending p) a l l' Hl). lia.
Qed.

Lemma cap_round_ok addrs : forall p, ok [] p -> NoDup addrs -> (forall a, a ∈ addrs -> (1 < plen p a)%nat) ->
  exists p', cap_round addrs (Z.of_nat (total (pending p))) p = Ok (Z.of_nat (total (pending p')), p') /\ trimmed p p' /\
  (forall b, plen p b = (plen p' b + if decide (b ∈ addrs) then 1 else 0)%nat) /\
  total (pending p) = (total (pending p') + length addrs)%nat.
Proof.
  induction addrs as [|a addrs IH]; intros p Hp Hnd Hlen.
  { exists p. split_and!; [done|by apply trimmed_refl| |simpl; lia]. intros b. rewrite decide_False by apply not_elem_of_nil. lia. }
  apply NoDup_cons in Hnd as [Hna Hnd]. simpl.
  destruct (cap_one_ok p a Hp (Hlen a (list_elem_of_here _ _))) as (q & -> & Hpq & Hq & Htq). simpl.
  pose proof (total_small true (pending p) (po_pending _ _ _ Hp)) as Hsmall.
  replace (u64 (Z.of_nat (total (pending p)) - 1)) with (Z.of_nat (total (pending q))) by (unfold u64; rewrite wrap_small; lia).
  destruct (IH q (tm_ok _ _ Hpq) Hnd) as (p' & -> & Hqp & Hp' & Htp').
  { intros b Hb. specialize (Hlen b ltac:(by right)). specialize (Hq b). rewrite decide_False in Hq by (by intros ->). lia. }
  exists p'. split_and!; [done|by eapply trimmed_trans| |lia]. intros b. rewrite Hq, Hp'. destruct (decide (b = a)) as [->|].
  - rewrite (decide_False (P := a ∈ addrs)) by done. rewrite (decide_True (P := a ∈ a :: addrs)) by by left. lia.
  - destruct (decide (b ∈ addrs)).
    + rewrite (decide_True (P := b ∈ a :: addrs)) by by right. lia.
    + rewrite (decide_False (P := b ∈ a :: addrs)); [lia|]. rewrite elem_of_cons. naive_solver.
Qed.

(** The loops over a group of accounts with equally long lists. *)
Lemma cap_loop_ok watch t addrs fuel : forall p L, ok [] p -> NoDup addrs -> watch ∈ addrs -> 0 < t ->
  (forall a, a ∈ addrs -> plen p a = L) -> (0 < L < fuel)%nat ->
  exists p' L', cap_loop fuel watch t addrs (Z.of_nat (total (pending p))) p = Ok (Z.of_nat (total (pending p')), p') /\
  trimmed p p' /\ (forall a, a ∈ addrs -> plen p' a = L') /\ (forall b, b ∉ addrs -> plen p' b = plen p b) /\ (L' <= L)%nat /\
  (Z.of_nat L <= t -> L' = L) /\ (t < Z.of_nat L -> t <= Z.of_nat L') /\
  (Z.of_nat (total (pending p')) <= GlobalSlots (config p) \/ Z.of_nat L' <= t).
Proof.
  induction fuel as [|fuel IH]; intros p L Hp Hnd Hw Ht HL Hf; [lia|]. cbn [cap_loop].
  destruct (Z.ltb_spec (GlobalSlots (config p)) (Z.of_nat (total (pending p)))) as [Hgt|Hle].
  2:{ exists p, L. split; [done|]. split; [by apply trimmed_refl|]. split_and!; try done; [lia|by left]. }
  unfold pending_len. destruct (pending p !! watch) as [l|] eqn:Hl; simpl.
  2:{ specialize (HL watch Hw). unfold plen in HL. rewrite Hl in HL. lia. }
  assert (Len l = L) as Hlen by (specialize (HL watch Hw); unfold plen in HL; by rewrite Hl in HL). rewrite Hlen.
  destruct (Z.ltb_spec t (Z.of_nat L)) as [Hlt|Hge].
  2:{ exists p, L. split; [done|]. split; [by apply trimmed_refl|]. split_and!; try done; [lia|by right]. }
  destruct (cap_round_ok addrs p Hp Hnd) as (q & -> & Hpq & Hq & Htot); [intros a Ha; rewrite (HL a Ha); lia|]. simpl.
  destruct (IH q (L - 1)%nat (tm_ok _ _ Hpq) Hnd Hw Ht) as (p' & L' & -> & Hqp & HL' & Ho & HLL & Hsm & Hbig & Hend).
  { intros a Ha. specialize (Hq a). rewrite decide_True, (HL a Ha) in Hq by done. lia. }
  { lia. }
  exists p', L'. rewrite (en_config _ _ (tm_env _ _ Hpq)) in Hend. split; [done|]. split; [by eapply trimmed_trans|]. split_and!; try done; [|lia|lia|].
  - intros b Hb. rewrite Ho by done. specialize (Hq b). rewrite decide_False in Hq by done. lia.
  - intros _. destruct (decide (t < Z.of_nat (L - 1))); [by apply Hbig|]. rewrite Hsm by lia. lia.
Qed.

Lemma cap_until_ok watch t addrs p L : ok [] p -> NoDup addrs -> watch ∈ addrs -> 0 < t ->
  (forall a, a ∈ addrs -> plen p a = L) -> (0 < L)%nat ->
  exists p' L', cap_until watch t addrs (Z.of_nat (total (pending p))) p = Ok (Z.of_nat (total (pending p')), p') /\
  trimmed p p' /\ (forall a, a ∈ addrs -> plen p' a = L') /\ (forall b, b ∉ addrs -> plen p' b = plen p b) /\ (L' <= L)%nat /\
  (Z.of_nat L <= t -> L' = L) /\ (t < Z.of_nat L -> t <= Z.of_nat L') /\
  (Z.of_nat (total (pending p')) <= GlobalSlots (config p) \/ Z.of_nat L' <= t).
Proof.
  intros Hp Hnd Hw Ht HL H0. unfold cap_until, pending_len. pose proof (HL watch Hw) as Hlen. unfold plen in Hlen.
  destruct (pending p !! watch) as [l|] eqn:Hl; [|lia]. cbn [of_index mbind outcome_bind]. rewrite Hlen, Nat2Z.id.
  apply cap_loop_ok; try done. lia.
Qed.

(** ** The loop over the large accounts *)

#[local] Instance prque_order : StrictOrder_ prque_less.
Proof. split; unfold prque_less; intros; lia. Qed.

(** Where the loop over the accounts stands: [h] are the large accounts still in the
    queue, [offenders] those already trimmed to a common length. *)
Record spam_inv p (h : list spammer) (offenders : list Address) : Prop := {
  si_heap : heap_from prque_less 0 h (length h);
  si_nodup : NoDup (h.*1 ++ offenders);
  si_prio a n : (a, n) ∈ h -> n = Z.of_nat (plen p a) /\ AccountSlots (config p) < n;
  si_remote a : a ∈ h.*1 ++ offenders -> contains p a = false;
  si_all a : contains p a = false -> AccountSlots (config p) < Z.of_nat (plen p a) -> a ∈ h.*1 ++ offenders;
  si_equal : GlobalSlots (config p) < Z.of_nat (total (pending p)) -> exists L,
    (forall a, a ∈ offenders -> plen p a = L) /\ AccountSlots (config p) < Z.of_nat L /\
    (offenders <> [] -> forall a n, (a, n) ∈ h -> n <= Z.of_nat L);
}.

Lemma elem_fst (h : list spammer) a : a ∈ h.*1 <-> exists n, (a, n) ∈ h.
Proof.
  rewrite list_elem_of_fmap. split; [intros ([b n] & -> & Hin)|intros (n & Hin)]; [by exists n|by exists (a, n)].
Qed.

(** One account more: the offenders come down to its length. *)
Lemma spam_step p h offenders a n h1 : ok [] p -> config_ok (config p) -> spam_inv p h offenders -> h ≡ₚ (a, n) :: h1 ->
  heap_from prque_less 0 h1 (length h1) -> (forall y, y ∈ h1 -> prque_less y (a, n) = false) ->
  GlobalSlots (config p) < Z.of_nat (total (pending p)) -> exists p',
  match list.last offenders with
  | None => Ok (Z.of_nat (total (pending p)), p)
  | Some watch => threshold ← pending_len p a; cap_until watch threshold offenders (Z.of_nat (total (pending p))) p
  end = Ok (Z.of_nat (total (pending p')), p') /\ trimmed p p' /\ spam_inv p' h1 (offenders ++ [a]).
Proof.
  intros Hp Hcfg [Hh Hnd Hpr Hre Hal Heq] Hperm Hh1 Hmax Hgt. destruct (Heq Hgt) as (L & HL & HLS & HLh).
  pose proof (co_AccountSlots _ Hcfg) as HAS.
  assert ((a, n) ∈ h) as Hah by (rewrite Hperm; by left). destruct (Hpr a n Hah) as [Hn Hbig].
  assert (h.*1 ++ offenders ≡ₚ h1.*1 ++ (offenders ++ [a])) as Hperm2.
  { rewrite (fmap_Permutation fst _ _ Hperm). simpl. rewrite (Permutation_app_comm offenders [a]). simpl. apply Permutation_middle. }
  assert (forall q, trimmed p q -> (forall b, b ∈ offenders ++ [a] -> (plen q b <= plen p b)%nat) ->
    (forall b, b ∉ offenders -> plen q b = plen p b) ->
    (GlobalSlots (config p) < Z.of_nat (total (pending q)) -> forall b, b ∈ offenders -> Z.of_nat (plen q b) = n) ->
    spam_inv q h1 (offenders ++ [a])) as Hmk.
  { intros q [_ Henv _ _ _ _ _ _ _] Hle Ho Hend. assert (forall b, contains q b = contains p b) as Hcon.
    { intros b. unfold contains. by rewrite (en_locals _ _ Henv). }
    assert (forall b, b ∈ h.*1 -> b ∉ offenders) as Hsep.
    { apply NoDup_app in Hnd as (_ & Hs & _). exact Hs. }
    split; rewrite ?(en_config _ _ Henv); try done.
    - by rewrite <- Hperm2.
    - intros b k Hb. assert ((b, k) ∈ h) as Hbh by (rewrite Hperm; by right). destruct (Hpr b k Hbh) as [-> ?].
      split; [|done]. rewrite Ho; [done|]. apply Hsep, elem_fst. by eexists.
    - intros b Hb. rewrite Hcon. apply Hre. by rewrite Hperm2.
    - intros b Hb Hbig'. rewrite <- Hperm2. rewrite Hcon in Hb. apply Hal; [done|].
      destruct (decide (b ∈ offenders)) as [Hin|Hni]; [|by rewrite <- (Ho b Hni)].
      specialize (Hle b). rewrite elem_of_app in Hle. specialize (Hle (or_introl Hin)). lia.
    - intros Hgt'. exists (plen p a). specialize (Hend Hgt'). split_and!; [|lia|].
      + intros b [Hb|Hb%list_elem_of_singleton]%elem_of_app; [specialize (Hend b Hb); lia|subst b].
        apply Ho, Hsep, elem_fst. by exists n.
      + intros _ b k Hb. specialize (Hmax _ Hb). unfold prque_less in Hmax. simpl in Hmax. apply Z.ltb_ge in Hmax. lia. }
  destruct (list.last offenders) as [watch|] eqn:Hlast.
  2:{ apply last_None in Hlast as ->. exists p. split; [done|]. split; [by apply trimmed_refl|]. apply Hmk; [by apply trimmed_refl|done|done|].
      intros _ b Hb. by apply elem_of_nil in Hb. }
  assert (watch ∈ offenders) as Hw by by apply last_Some_elem_of.
  assert (exists l, pending p !! a = Some l /\ Z.of_nat (Len l) = n) as (l & Hl & Hlen).
  { unfold plen in Hn. destruct (pending p !! a) as [l|]; [by exists l|simpl in Hn; lia]. }
  unfold pending_len. rewrite Hl. cbn [of_index mbind outcome_bind]. rewrite Hlen.
  assert (n <= Z.of_nat L) as HnL by (apply (HLh ltac:(by intros ->) a n Hah)).
  apply NoDup_app in Hnd as Hnd'. destruct Hnd' as (_ & Hsep & Hnd').
  destruct (cap_until_ok watch n offenders p L Hp Hnd' Hw) as (q & L' & Hrun & Hpq & HL' & Ho & HLL & Hsm & Hbg & Hend); [lia|done|lia|].
  exists q. split; [exact Hrun|]. split; [done|]. apply Hmk; try done.
  - intros b Hb. destruct (decide (b ∈ offenders)) as [Hin|Hni]; [|rewrite Ho by done; lia].
    by rewrite (HL' b Hin), (HL b Hin).
  - intros Hgt' b Hb. rewrite (HL' b Hb). destruct Hend as [?|Hend]; [lia|]. destruct (decide (Z.of_nat L <= n)).
    + rewrite Hsm by done. lia.
    + specialize (Hbg ltac:(lia)). lia.
Qed.

Lemma spam_loop_ok fuel : forall p h offenders, ok [] p -> config_ok (config p) -> spam_inv p h offenders -> (length h < fuel)%nat ->
  exists p' h' offenders', spam_loop fuel h offenders (Z.of_nat (total (pending p))) p =
    Ok (offenders', Z.of_nat (total (pending p')), p') /\ trimmed p p' /\ spam_inv p' h' offenders' /\
  (GlobalSlots (config p) < Z.of_nat (total (pending p')) -> h' = []).
Proof.
  induction fuel as [|fuel IH]; intros p h offenders Hp Hcfg Hinv Hf; [lia|]. cbn [spam_loop].
  destruct h as [|x0 h0]. { exists p, [], offenders. split; [done|]. split; [by apply trimmed_refl|done]. }
  destruct (Z.ltb_spec (GlobalSlots (config p)) (Z.of_nat (total (pending p)))) as [Hgt|Hle].
  2:{ exists p, (x0 :: h0), offenders. split; [done|]. split; [by apply trimmed_refl|]. split; [done|lia]. }
  destruct (Pop_spec prque_less (x0 :: h0) (si_heap _ _ _ Hinv) ltac:(done)) as (h1 & -> & Hh1 & Hperm & Hmin).
  simpl in Hperm, Hmin. cbn [of_index mbind outcome_bind]. destruct x0 as [a n].
  destruct (spam_step p _ offenders a n h1 Hp Hcfg Hinv Hperm Hh1 Hmin Hgt) as (q & Hrun & Hpq & Hinvq).
  cbn [lookup_total list_lookup_total fst]. rewrite Hrun. cbn [mbind outcome_bind].
  destruct (IH q h1 (offenders ++ [a]) (tm_ok _ _ Hpq)) as (p' & h' & off' & -> & Hqp & Hinv' & Hend).
  { by rewrite (en_config _ _ (tm_env _ _ Hpq)). } { done. }
  { apply Permutation_length in Hperm. simpl in *. lia. }
  exists p', h', off'. rewrite (en_config _ _ (tm_env _ _ Hpq)) in Hend. split; [done|]. split; [by eapply trimmed_trans|done].
Qed.

(** The queue of large accounts. *)
Lemma push_filter {A} (f : A -> bool) (g : A -> spammer) ls : forall h, heap_from prque_less 0 h (length h) ->
  let r := fold_left (fun h x => if f x then Push prque_less h (g x) else h) ls h in
  heap_from prque_less 0 r (length r) /\ r ≡ₚ (g <$> filter (fun x => f x = true) ls) ++ h.
Proof.
  induction ls as [|x ls IH]; intros h Hh; [done|]. csimpl. rewrite filter_cons. destruct (f x) eqn:Hf.
  - rewrite decide_True by done. destruct (Push_spec prque_less h (g x) Hh) as [Hp Hperm].
    destruct (IH _ Hp) as [? Hr]. split; [done|]. rewrite Hr, Hperm. csimpl. by rewrite Permutation_middle.
  - rewrite decide_False by congruence. by apply IH.
Qed.

Lemma float32_exact n : n < 2 ^ 24 -> float32 n = n.
Proof. intros Hn. unfold float32, float_of. by destruct (Z.ltb_spec n (2 ^ 24)); [|lia]. Qed.

Lemma spammers_inv p : ok [] p -> config_ok (config p) -> spam_inv p (spammers p) [].
Proof.
  intros Hp Hcfg. set (large := fun al : Address * txList message =>
    negb (contains p al.1) && (AccountSlots (config p) <? Z.of_nat (Len al.2))).
  set (item := fun al : Address * txList message => (al.1, float32 (Z.of_nat (Len al.2)))).
  destruct (push_filter large item (map_to_list (pending p)) [] ltac:(intros k Hk; simpl in Hk; lia)) as [Hh Hperm].
  change (fold_left _ (map_to_list (pending p)) []) with (spammers p) in Hh, Hperm. rewrite app_nil_r in Hperm.
  pose proof (total_small true _ (po_pending _ _ _ Hp)) as Hsmall.
  assert (forall a n, (a, n) ∈ spammers p <-> exists l, pending p !! a = Some l /\ contains p a = false /\
    n = Z.of_nat (Len l) /\ AccountSlots (config p) < n) as Hin.
  { intros a n. rewrite Hperm, list_elem_of_fmap. setoid_rewrite list_elem_of_filter. unfold large, item.
    assert (forall l, pending p !! a = Some l -> float32 (Z.of_nat (Len l)) = Z.of_nat (Len l)) as Hfl.
    { intros l Hl. apply float32_exact. pose proof (plen_total p a) as Hpt. unfold plen in Hpt. rewrite Hl in Hpt. lia. }
    split.
    - intros ([b l] & [= -> ->] & [Hb Hl%elem_of_map_to_list]). simpl in *. apply andb_true_iff in Hb as [?%negb_true_iff ?%Z.ltb_lt].
      exists l. rewrite (Hfl l Hl). by split_and!.
    - intros (l & Hl & Hc & -> & Hlt). exists (a, l). rewrite elem_of_map_to_list. simpl. rewrite (Hfl l Hl), Hc.
      split; [done|]. split; [|done]. by apply Z.ltb_lt in Hlt as ->. }
  split; rewrite ?app_nil_r; try done.
  - rewrite (fmap_Permutation fst _ _ Hperm), <- list_fmap_compose.
    apply (sublist_NoDup _ (map_to_list (pending p)).*1); [apply NoDup_fst_map_to_list|].
    rewrite (list_fmap_ext (fst ∘ item) fst) by done. apply fmap_sublist, sublist_filter.
  - intros a n (l & Hl & _ & -> & ?)%Hin. unfold plen. by rewrite Hl.
  - intros a (n & Hn)%elem_fst. by apply Hin in Hn as (l & _ & ? & _).
  - intros a Hc Hbig. apply elem_fst. unfold plen in Hbig. destruct (pending p !! a) as [l|] eqn:Hl.
    + exists (Z.of_nat (Len l)). apply Hin. by exists l.
    + simpl in Hbig. pose proof (co_AccountSlots _ Hcfg). lia.
  - intros _. exists (S (Z.to_nat (AccountSlots (config p)))). split_and!; [by intros a ?%elem_of_nil|lia|done].
Qed.

(** [limit_pending] ends with the total within [GlobalSlots], or with every remote
    account within [AccountSlots]. *)
Lemma limit_pending_ok p : ok [] p -> config_ok (config p) -> exists p', limit_pending p = Ok p' /\ trimmed p p' /\
  (Z.of_nat (total (pending p')) <= GlobalSlots (config p) \/
   forall a, contains p a = false -> Z.of_nat (plen p' a) <= AccountSlots (config p)).
Proof.
  intros Hp Hcfg. unfold limit_pending. pose proof (total_small true _ (po_pending _ _ _ Hp)) as Hsmall.
  rewrite pool_count_total by lia. destruct (Z.ltb_spec (GlobalSlots (config p)) (Z.of_nat (total (pending p)))) as [Hgt|Hle].
  2:{ exists p. split; [done|]. split; [by apply trimmed_refl|by left]. }
  destruct (spam_loop_ok (S (length (spammers p))) p (spammers p) [] Hp Hcfg (spammers_inv p Hp Hcfg) ltac:(lia))
    as (q & h & off & -> & Hpq & Hinv & Hend). cbn [mbind outcome_bind].
  rewrite (en_config _ _ (tm_env _ _ Hpq)). pose proof (tm_env _ _ Hpq) as Henv. destruct Hinv as [_ Hnd _ _ Hall Heq].
  rewrite (en_config _ _ Henv) in Hall, Heq.
  assert (forall a, contains q a = contains p a) as Hcon by (intros a; unfold contains; by rewrite (en_locals _ _ Henv)).
  destruct (Z.ltb_spec (GlobalSlots (config p)) (Z.of_nat (total (pending q)))) as [Hgt'|Hle'].
  2:{ exists q. split; [by destruct (list.last off)|]. split; [done|by left]. }
  rewrite (Hend Hgt') in Hall, Hnd. simpl in Hall, Hnd. destruct (Heq Hgt') as (L & HL & HLS & _).
  destruct (list.last off) as [watch|] eqn:Hlast.
  2:{ apply last_None in Hlast as ->. exists q. split; [done|]. split; [done|]. right. intros a Ha.
      destruct (decide (AccountSlots (config p) < Z.of_nat (plen q a))); [|lia]. rewrite <- Hcon in Ha. by specialize (Hall a Ha ltac:(done)) as ?%elem_of_nil. }
  pose proof (co_AccountSlots _ Hcfg).
  destruct (cap_until_ok watch (AccountSlots (config p)) off q L (tm_ok _ _ Hpq) Hnd) as (r & L' & -> & Hqr & HL' & Ho & _ & _ & Hbg & Hor);
    [by apply last_Some_elem_of|lia|done|lia|].
  cbn [mbind outcome_bind]. exists r. split; [done|]. split; [by eapply trimmed_trans|].
  rewrite (en_config _ _ Henv) in Hor. destruct Hor as [?|Hor]; [by left|]. right. intros a Ha.
  destruct (decide (a ∈ off)) as [Hin|Hni]; [by rewrite HL'|]. rewrite (Ho a Hni). rewrite <- Hcon in Ha.
  destruct (decide (AccountSlots (config p) < Z.of_nat (plen q a))); [|lia]. by specialize (Hall a Ha ltac:(done)).
Qed.

(** ** Dropping queued transactions *)

(** [p'] is [p] with fewer queued transactions. *)
Record drained p p' : Prop := {
  dq_ok : ok [] p';
  dq_env : same_env p p';
  dq_nonces : pendingState p' = pendingState p;
  dq_pending a n : slot (pending p') a n = slot (pending p) a n;
  dq_sub a n tx : slot (queue p') a n = Some tx -> slot (queue p) a n = Some tx;
  dq_pne : no_empty (pending p) -> no_empty (pending p');
  dq_qne : no_empty (queue p) -> no_empty (queue p');
}.

Lemma drained_refl p : ok [] p -> drained p p.
Proof. by split. Qed.

Lemma drained_trans p q r : drained p q -> drained q r -> drained p r.
Proof.
  intros Hpq Hqr. destruct Hpq, Hqr. split; [done|by etransitivity|congruence|intros; by rewrite dq_pending1|auto..].
Qed.

Lemma drained_tight p p' : drained p p' -> tight p -> tight p'.
Proof. intros [_ Henv En Hs _ _ _] Ht. apply (tight_same p p' Ht); [apply Henv|done|done]. Qed.

Lemma remove_queued a txs : forall p, ok [] p -> NoDup (Nonce <$> txs) ->
  (forall tx, tx ∈ txs -> sender tx = a /\ slot (queue p) a (Nonce tx) = Some tx) ->
  exists p', remove_all txs p = Ok p' /\ drained p p' /\ (forall b, b <> a -> queue p' !! b = queue p !! b) /\
  qlen p a = (qlen p' a + length txs)%nat.
Proof.
  induction txs as [|tx txs IH]; intros p Hp Hnd Htx.
  { exists p. split; [done|]. split; [by apply drained_refl|]. split; [done|simpl; lia]. }
  apply NoDup_cons in Hnd as [Hni Hnd]. simpl. destruct (Htx tx (list_elem_of_here _ _)) as [Hs Hin]. rewrite <- Hs in Hin.
  destruct (removeTx_queued W W_inj p tx Hp Hin) as (q & Hrun & Hq & Henv & En & Hps & Ho & Hqs & Hlen).
  destruct (removeTx_ok W W_inj (TxHash tx) p Hp) as (q' & Hrun' & _ & _ & Hpn & Hqn & _). rewrite Hrun in Hrun'. injection Hrun' as <-.
  rewrite Hrun. cbn [mbind outcome_bind]. rewrite Hs in Ho, Hlen.
  assert (drained p q) as Hpq.
  { split; try done. intros b n x. rewrite Hqs. by case_decide. }
  destruct (IH q Hq Hnd) as (p' & -> & Hqp & Ho' & Hlen').
  { intros x Hx. destruct (Htx x) as [Hsx Hinx]; [by right|]. split; [done|]. rewrite Hqs, decide_False; [done|].
    intros [_ He]. apply Hni. rewrite <- He. by apply list_elem_of_fmap_2. }
  exists p'. split; [done|]. split; [by eapply drained_trans|]. split; [intros b Hb; by rewrite Ho', Ho|simpl; lia].
Qed.

(** Reading a list in order fills its cache only. *)
Lemma flatten_queue p a l : ok [] p -> queue p !! a = Some l ->
  drained p (with_queue p (<[a := (Flatten l).2]> (queue p))) /\ listing (items (txs l)) (Flatten l).1 /\
  items (txs (Flatten l).2) = items (txs l).
Proof.
  intros Hp Hl. destruct (lo_list _ _ _ (po_queue _ _ _ Hp) _ _ Hl) as [Hlok Hlst].
  destruct (Flatten_extracts l Hlok) as (Hok & Hst & Hit & Hls). split; [|done].
  assert (extracts l (Flatten l).2 []) as Hex.
  { split; rewrite ?Hit; try done; [|constructor]. intros tx. rewrite elem_of_nil. split; [done|]. intros [? ?]. congruence. }
  assert (forall b n, slot (<[a := (Flatten l).2]> (queue p)) b n = slot (queue p) b n) as Hs.
  { intros b n. rewrite slot_insert. case_decide; [subst b; by rewrite Hit, (slot_list _ _ l)|done]. }
  split; try done; [exact (take_queue W [] p a l _ [] Hp Hl Hex)| |].
  - intros b n x. simpl. by rewrite Hs.
  - intros Hne b x. simpl. intros [[<- <-]|[_ Hx]]%lookup_insert_Some; [|by eapply Hne].
    specialize (Hne _ _ Hl). unfold Empty in *. by rewrite Len_size, Hit, <- Len_size.
Qed.

Lemma listing_Len l r : list_ok l -> listing (items (txs l)) r -> length r = Len l.
Proof.
  intros Hlok [Hs Hm]. unfold Len, sm_Len. rewrite <- (length_fmap snd). apply Permutation_length. apply NoDup_Permutation.
  - by apply (NoDup_fmap_1 Nonce), ssorted_nodup.
  - apply (NoDup_fmap_1 Nonce). rewrite <- list_fmap_compose.
    replace (Nonce ∘ snd <$> map_to_list (items (txs l))) with (map_to_list (items (txs l))).*1; [apply NoDup_fst_map_to_list|].
    apply list_fmap_ext. intros i [n tx] Hi. simpl. apply list_elem_of_lookup_2, elem_of_map_to_list in Hi.
    by rewrite (list_nonce _ _ _ Hlok Hi).
  - intros tx. rewrite Hm, list_elem_of_fmap. split.
    + intros Hx. exists (Nonce tx, tx). split; [done|by apply elem_of_map_to_list].
    + intros ([n x] & -> & Hx%elem_of_map_to_list). simpl. by rewrite (list_nonce _ _ _ Hlok Hx).
Qed.

(** Some transactions of an account leave. *)
Lemma drop_some p a l T : ok [] p -> queue p !! a = Some l -> T ⊆+ (Flatten l).1 -> exists p',
  remove_all T (with_queue p (<[a := (Flatten l).2]> (queue p))) = Ok p' /\ drained p p' /\
  (forall b, b <> a -> queue p' !! b = queue p !! b) /\ qlen p a = (qlen p' a + length T)%nat.
Proof.
  intros Hp Hl HT. destruct (flatten_queue p a l Hp Hl) as (Hd & [Hs Hm] & Hit). set (q := with_queue p _) in *.
  destruct (remove_queued a T q (dq_ok _ _ Hd)) as (p' & Hrun & Hqp & Ho & Hqlen).
  - destruct (submseteq_Permutation _ _ (fmap_submseteq Nonce _ _ HT)) as (k & Hk).
    pose proof (ssorted_nodup _ Hs) as Hnd. rewrite Hk in Hnd. by apply NoDup_app in Hnd as (? & _ & _).
  - intros tx Hin. assert (items (txs l) !! Nonce tx = Some tx) as Hx by (apply Hm; by eapply elem_of_submseteq).
    rewrite <- (slot_list (queue p) a l) in Hx by done. destruct (lo_tx _ _ _ (po_queue _ _ _ Hp) _ _ _ Hx) as (? & _ & _).
    split; [done|]. simpl. rewrite slot_insert, decide_True by done. by rewrite Hit, <- (slot_list (queue p) a l).
  - exists p'. split; [done|]. split; [by eapply drained_trans|]. split.
    + intros b Hb. rewrite Ho by done. by apply lookup_insert_ne.
    + unfold qlen in *. simpl in Hqlen. rewrite lookup_insert_eq, Len_size, Hit, <- Len_size in Hqlen. by rewrite Hl.
Qed.

Lemma drop_loop_ok addrs : forall drop p, ok [] p -> NoDup addrs -> (forall a, a ∈ addrs -> is_Some (queue p !! a)) -> 0 <= drop ->
  exists p', drop_loop addrs drop p = Ok p' /\ drained p p' /\ (forall b, b ∉ addrs -> queue p' !! b = queue p !! b) /\
  Z.of_nat (total (queue p)) - drop <= Z.of_nat (total (queue p')) /\
  (Z.of_nat (total (queue p')) = Z.of_nat (total (queue p)) - drop \/ forall a, a ∈ addrs -> qlen p' a = 0%nat).
Proof.
  induction addrs as [|a addrs IH]; intros drop p Hp Hnd Hin Hd; cbn [drop_loop].
  { exists p. split; [done|]. split; [by apply drained_refl|]. split; [done|]. split; [lia|]. right. by intros a ?%elem_of_nil. }
  destruct (Z.ltb_spec 0 drop) as [Hpos|Hz].
  2:{ exists p. split; [done|]. split; [by apply drained_refl|]. split; [done|]. split; [lia|]. left. lia. }
  apply NoDup_cons in Hnd as [Hna Hnd]. destruct (Hin a (list_elem_of_here _ _)) as [l Hl]. rewrite Hl. cbn [of_index mbind outcome_bind].
  destruct (lo_list _ _ _ (po_queue _ _ _ Hp) _ _ Hl) as [Hlok _]. destruct (Flatten_extracts l Hlok) as (_ & _ & _ & Hls).
  pose proof (listing_Len l _ Hlok Hls) as Hlen. pose proof (drop_some p a l) as Hsome.
  destruct (Flatten l) as [txs l'] eqn:Hfl. simpl in Hlen, Hsome.
  assert (forall T q, T ⊆+ txs -> drained p q -> (forall b, b <> a -> queue q !! b = queue p !! b) ->
    qlen p a = (qlen q a + length T)%nat -> Z.of_nat (length T) <= drop ->
    exists p', drop_loop addrs (drop - Z.of_nat (length T)) q = Ok p' /\ drained p p' /\
      (forall b, b ∉ a :: addrs -> queue p' !! b = queue p !! b) /\ qlen p' a = qlen q a /\
      Z.of_nat (total (queue p)) - drop <= Z.of_nat (total (queue p')) /\
      (Z.of_nat (total (queue p')) = Z.of_nat (total (queue p)) - drop \/ forall b, b ∈ addrs -> qlen p' b = 0%nat)) as Hnext.
  { intros T q HT Hpq Ho Hq Hle. destruct (IH (drop - Z.of_nat (length T)) q (dq_ok _ _ Hpq) Hnd) as (p' & Hrun & Hqp & Ho' & Hlo & Hor); [|lia|].
    { intros b Hb. rewrite Ho by (by intros ->). apply Hin. by right. }
    pose proof (total_other (queue p) (queue q) a Ho) as Htot. change (llen (queue p) a) with (qlen p a) in Htot.
    change (llen (queue q) a) with (qlen q a) in Htot.
    exists p'. split; [done|]. split; [by eapply drained_trans|]. split.
    - intros b Hb. rewrite elem_of_cons in Hb. rewrite Ho', Ho by naive_solver. done.
    - split; [unfold qlen; by rewrite Ho'|]. split; [lia|]. destruct Hor as [?|?]; [left; lia|by right]. }
  assert (qlen p a = Len l) as Hqa by (unfold qlen; by rewrite Hl).
  destruct (Z.leb_spec (Z.of_nat (Len l)) drop) as [Hle|Hgt].
  - destruct (Hsome txs Hp Hl) as (q & -> & Hpq & Ho & Hq); [done|]. cbn [mbind outcome_bind].
    destruct (Hnext txs q) as (p' & Hrun & Hpp & Hop & Hqq & Hlo & Hor); [done..|lia|]. rewrite Hlen in Hrun. exists p'.
    split; [done|]. split; [done|]. split; [done|]. split; [done|]. destruct Hor as [?|Hz]; [by left|]. right.
    intros b [->|Hb]%elem_of_cons; [lia|by apply Hz].
  - set (T := take (Z.to_nat drop) (rev txs)). assert (Z.of_nat (length T) = drop) as HT.
    { unfold T. rewrite length_take, length_rev. lia. }
    assert (T ⊆+ txs) as Hsub.
    { rewrite (Permutation_rev txs). apply sublist_submseteq, sublist_take. }
    destruct (Hsome T Hp Hl Hsub) as (q & -> & Hpq & Ho & Hq). cbn [mbind outcome_bind].
    destruct (Hnext T q) as (p' & Hrun & Hpp & Hop & Hqq & Hlo & _); [done..|lia|]. exists p'.
    split; [done|]. split; [done|]. split; [done|]. split; [done|]. left. rewrite HT, Z.sub_diag in Hrun.
    assert (p' = q) as ->. { destruct addrs; simpl in Hrun; by injection Hrun. }
    pose proof (total_other (queue p) (queue q) a Ho) as Htot. change (llen (queue p) a) with (qlen p a) in Htot.
    change (llen (queue q) a) with (qlen q a) in Htot. lia.
Qed.

Lemma idle_accounts_spec p : NoDup (idle_accounts p) /\
  forall a, a ∈ idle_accounts p <-> is_Some (queue p !! a) /\ contains p a = false.
Proof.
  unfold idle_accounts. set (addrs := filter _ (map_to_list (queue p)).*1).
  set (beat := fun a => (a, default 0 (beats p !! a))).
  assert (rev (merge_sort by_heartbeat (beat <$> addrs)).*1 ≡ₚ addrs) as Hperm.
  { rewrite <- (Permutation_rev _), (merge_sort_Permutation by_heartbeat (beat <$> addrs)), <- list_fmap_compose.
    rewrite (list_fmap_ext _ id) by done. by rewrite list_fmap_id. }
  split.
  - rewrite Hperm. apply NoDup_filter, NoDup_fst_map_to_list.
  - intros a. rewrite Hperm. unfold addrs. rewrite list_elem_of_filter, list_elem_of_fmap. split.
    + intros [Hc ([b l] & -> & Hl%elem_of_map_to_list)]. split; [by exists l|done].
    + intros [[l Hl] Hc]. split; [done|]. exists (a, l). split; [done|by apply elem_of_map_to_list].
Qed.

(** [limit_queue] drops exactly what exceeds [GlobalQueue], unless only local
    accounts are left. *)
Lemma limit_queue_ok p : ok [] p -> config_ok (config p) -> exists p', limit_queue p = Ok p' /\ drained p p' /\
  (forall a, contains p a = true -> queue p' !! a = queue p !! a) /\
  Z.min (GlobalQueue (config p)) (Z.of_nat (total (queue p))) <= Z.of_nat (total (queue p')) /\
  (Z.of_nat (total (queue p')) <= GlobalQueue (config p) \/ forall a, contains p a = false -> qlen p' a = 0%nat).
Proof.
  intros Hp Hcfg. unfold limit_queue. pose proof (total_small false _ (po_queue _ _ _ Hp)) as Hsmall.
  rewrite pool_count_total by lia. destruct (Z.ltb_spec (GlobalQueue (config p)) (Z.of_nat (total (queue p)))) as [Hgt|Hle].
  2:{ exists p. split; [done|]. split; [by apply drained_refl|]. split; [done|]. split; [lia|by left]. }
  destruct (idle_accounts_spec p) as [Hnd Hidle].
  destruct (drop_loop_ok (idle_accounts p) (Z.of_nat (total (queue p)) - GlobalQueue (config p)) p Hp Hnd) as (p' & Hrun & Hd & Ho & Hlo & Hor);
    [intros a Ha; by apply Hidle in Ha as [? _]|lia|].
  exists p'. split; [done|]. split; [done|]. split; [|split; [lia|]].
  - intros a Ha. apply Ho. rewrite Hidle. intros [_ ?]. congruence.
  - destruct Hor as [?|Hz]; [left; lia|right]. intros a Ha. destruct (queue p !! a) as [l|] eqn:Hl.
    + apply Hz, Hidle. by rewrite Hl.
    + unfold qlen. rewrite Ho, Hl; [done|]. rewrite Hidle, Hl. by intros [[? ?] _].
Qed.
End Limits.
