(* ===== verification/TxPoolSpec.v ===== *)
(** * What the transaction pool guarantees

    Every operation of the pool returns and preserves the invariant; the pending
    transactions of an account are executable one after the other from its nonce on
    the chain; the limits hold after every promotion. *)

From stdpp Require Import base gmap list sorting.
From S2P Require Import Prelude Types Heap TxList ManagedState Vm Processor TxPool TxPoolInv TxPoolSteps TxPoolLimits.
Local Open Scope Z_scope.

(** The limits that promotion establishes. *)
Definition pending_limited (p : TxPool) : Prop :=
  Z.of_nat (total (pending p)) <= GlobalSlots (config p) \/
  forall a, contains p a = false -> Z.of_nat (plen p a) <= AccountSlots (config p).

Definition queue_limited (p : TxPool) : Prop :=
  Z.of_nat (total (queue p)) <= GlobalQueue (config p) \/ forall a, contains p a = false -> qlen p a = 0%nat.

Section Spec.
Context (W : message -> Prop) (W_inj : forall x y, W x -> W y -> TxHash x = TxHash y -> x = y).
Context (W_nonce : forall tx, W tx -> Nonce tx + 1 < 2 ^ 64).
Context (W_small : forall txs, NoDup txs -> (forall tx, tx ∈ txs -> W tx) -> Z.of_nat (length txs) < 2 ^ 24).
Implicit Types (p : TxPool) (tx : message) (a b : Address) (l : txList message).

Abbreviation ok := (pool_ok W).

(** A pool between two operations. *)
Record sound p : Prop := {
  so_ok : ok [] p;
  so_config : config_ok (config p);
  so_pending : no_empty (pending p);
  so_queue : no_empty (queue p);
}.

Lemma limited_slots p p' : lists_ok W true (pending p) -> lists_ok W true (pending p') ->
  (forall a n, slot (pending p') a n = slot (pending p) a n) -> total (pending p') = total (pending p) /\ forall a, plen p' a = plen p a.
Proof. intros H1 H2 Hs. split; [by eapply total_slots|]. intros a. apply (llen_slots (pending p) (pending p') a). auto. Qed.

Lemma promoteExecutables_ok now accounts p : sound p -> exists p', promoteExecutables now accounts p = Ok p' /\
  sound p' /\ same_env p p' /\ pending_limited p' /\ queue_limited p' /\
  (forall b, match accounts with Some l => b ∈ l | None => True end -> within p' b) /\
  (tight p -> tight p' /\ forall b, match accounts with Some l => b ∈ l | None => True end -> promoted p' b).
Proof.
  intros [Hp Hcfg Hnp Hnq]. unfold promoteExecutables. set (accs := default _ accounts).
  destruct (promote_accounts_ok W W_inj W_nonce now accs p Hp Hcfg) as (p1 & -> & Hp1 & He1 & Hnp1 & Hnq1 & Hw1 & Ht1).
  cbn [mbind outcome_bind]. pose proof (en_config _ _ He1) as Ec1.
  destruct (limit_pending_ok W W_inj W_small p1 Hp1) as (p2 & -> & [Hp2 He2 Eq2 _ Ht2 Hnp2 _ Hn2 _] & Hlim2); [by rewrite Ec1|].
  cbn [mbind outcome_bind]. pose proof (en_config _ _ He2) as Ec2.
  destruct (limit_queue_ok W W_inj W_small p2 Hp2) as (p3 & -> & Hd & _ & _ & Hlim3); [by rewrite Ec2, Ec1|].
  pose proof Hd as [Hp3 He3 En3 Hs3 Hsub3 Hnp3 Hnq3]. pose proof (en_config _ _ He3) as Ec3.
  destruct (limited_slots p2 p3) as [Htot Hplen]; [apply Hp2|apply Hp3|done|].
  assert (forall b, (match accounts with Some l => b ∈ l | None => True end) -> b ∈ accs \/ queue p !! b = None) as Hacc.
  { intros b Hb. unfold accs. destruct accounts as [l|]; [by left|]. simpl. destruct (queue p !! b) as [x|] eqn:Hx; [|by right].
    left. apply list_elem_of_fmap. exists (b, x). split; [done|by apply elem_of_map_to_list]. }
  assert (forall b, (qlen p3 b <= qlen p2 b)%nat) as Hqle.
  { intros b. unfold qlen. destruct (queue p3 !! b) as [x|] eqn:Hx; [|lia]. rewrite Len_size. destruct (queue p2 !! b) as [y|] eqn:Hy.
    - rewrite Len_size. apply map_subseteq_size, map_subseteq_spec. intros n t Ht. rewrite <- (slot_list (queue p2) b y) by done.
      apply Hsub3. by rewrite (slot_list _ _ x).
    - destruct (decide (items (txs x) = ∅)) as [->|Hne]; [by rewrite map_size_empty|].
      apply map_choose in Hne as (n & t & Ht). exfalso. assert (slot (queue p2) b n = Some t) as Hs by (apply Hsub3; by rewrite (slot_list _ _ x)).
      unfold slot in Hs. by rewrite Hy in Hs. }
  exists p3. split; [done|]. split; [split; [done|by rewrite Ec3, Ec2, Ec1|auto|]|].
  { apply Hnq3. rewrite Eq2. by apply Hnq1. }
  split; [by transitivity p2; [transitivity p1|]|]. split_and!.
  - unfold pending_limited, contains. rewrite Htot, Ec3, (en_locals _ _ He3), Ec2, (en_locals _ _ He2). setoid_rewrite Hplen. exact Hlim2.
  - unfold queue_limited, contains. rewrite Ec3, (en_locals _ _ He3). exact Hlim3.
  - intros b Hb. assert (within p1 b) as Hw.
    { apply Hw1. destruct (Hacc b Hb) as [?|Hno]; [by left|right]. intros _. unfold qlen. rewrite Hno. pose proof (co_AccountQueue _ Hcfg). simpl. lia. }
    unfold within, contains in *. rewrite Ec3, (en_locals _ _ He3), Ec2, (en_locals _ _ He2). intros Hc. specialize (Hw Hc).
    specialize (Hqle b). unfold qlen in *. rewrite Eq2 in Hqle. lia.
  - intros Ht. destruct (Ht1 Ht) as [Htp1 Hpro]. split; [apply (drained_tight W p2 p3 Hd), Ht2, Htp1|].
    intros b Hb n [t Hn]. assert (promoted p1 b) as Hpb.
    { apply Hpro. destruct (Hacc b Hb) as [?|Hno]; [by left|right]. intros k. unfold slot. rewrite Hno. by intros [? ?]. }
    apply Hsub3 in Hn. rewrite Eq2 in Hn. specialize (Hpb n ltac:(by rewrite Hn)). unfold nonce_of in *. rewrite En3. specialize (Hn2 b). lia.
Qed.

(** ** Adding *)

(** Same configuration and chain; the local accounts may grow. *)
Definition same_chain p p' : Prop := config p' = config p /\ currentState p' = currentState p.

Lemma ok_index F p x : ok F p -> pl_ok x -> ok F (with_all p (all p) x).
Proof. intros [] Hx. by split. Qed.

Lemma make_room_ok tx p : sound p -> exists p' e, make_room tx p = Ok (p', inl e) /\ sound p' /\ same_env p p' /\ (tight p -> tight p').
Proof.
  intros [Hp Hcfg Hnp Hnq]. unfold make_room.
  destruct (Underpriority_spec (all p) (containsTx p) (priorited p) tx (po_heap _ _ _ Hp)) as (b & pl & -> & Hpl & _).
  cbn [mbind outcome_bind]. pose proof (ok_index [] p pl Hp Hpl) as Hq. destruct b.
  { eexists _, _. split; [done|]. split; [by split|]. split; [done|]. intros Ht. exact Ht. }
  destruct (Discard_ok (all p) (containsTx p) pl
    (Z.to_nat (Z.of_nat (size (all p)) - i64 (u64 (u64 (GlobalSlots (config p) + GlobalQueue (config p)) - 1)))) Hpl)
    as (drop & pl' & _ & Hrun & Hpl' & _).
  unfold containsTx, contains in *. simpl. rewrite Hrun. cbn [mbind outcome_bind].
  destruct (remove_all_ok W W_inj drop (with_all (with_all p (all p) pl) (all p) pl') (ok_index [] _ pl' Hq Hpl')) as (p' & -> & Hp' & He & Hnp' & Hnq' & Ht').
  cbn [mbind outcome_bind]. eexists _, _. split; [done|]. split; [split; auto; by rewrite (en_config _ _ He)|]. split; [by destruct He; split|].
  intros Ht. apply Ht'. exact Ht.
Qed.

(** A pending transaction gives way to one with a higher priority. *)
Lemma replace_pending_ok l tx p : sound p -> W tx -> pending p !! sender tx = Some l -> Overlaps l tx = true -> exists p' r,
  replace_pending (sender tx) l tx p = (p', r) /\ sound p' /\ same_env p p' /\ (tight p -> tight p') /\ r <> inr false.
Proof.
  intros [Hp Hcfg Hnp Hnq] Hw Hl Hov. unfold replace_pending, Overlaps, sm_Get in *.
  destruct (lo_list _ _ _ (po_pending _ _ _ Hp) _ _ Hl) as [Hlok Hlst].
  destruct (items (txs l) !! Nonce tx) as [o|] eqn:Ho; [|done].
  destruct (Add_taken l tx o Hlok Ho) as [[-> _]|(l' & -> & _ & Hok' & Hst' & Hit)].
  { eexists _, _. split; [done|]. rewrite insert_id by done. split; [split; [by destruct Hp; split|done..]|].
    split; [done|]. split; [intros Ht; exact Ht|done]. }
  set (q := with_pending p (<[sender tx := l']> (pending p))).
  assert (slot (pending p) (sender tx) (Nonce tx) = Some o) as Hso by (by rewrite (slot_list _ _ l)).
  destruct (lo_tx _ _ _ (po_pending _ _ _ Hp) _ _ _ Hso) as (Eso & Eno & Hwo).
  assert (forall a n, slot (pending q) a n = if decide (a = sender tx /\ n = Nonce tx) then Some tx else slot (pending p) a n) as Hslot.
  { intros a n. apply (slot_put (pending p) (sender tx) l l' tx true n); [by rewrite Hl|done]. }
  assert (ok [] q) as Hq.
  { pose proof Hp as [Hpp Hqq Hh Hd Ha Hk Hf Hs]. split; try done.
    - apply (lists_add W true (pending p) tx l l'); try done. by rewrite Hl.
    - intros a n. change (queue q) with (queue p). rewrite Hslot. case_decide as He; [|apply Hd]. destruct He as [-> ->].
      right. destruct (Hd (sender tx) (Nonce tx)); [congruence|done].
    - intros x Hx. by apply elem_of_nil in Hx. }
  exists (forget q (TxHash o)), (inr true). split; [done|]. split; [split; simpl; try done|split; [done|split; [|done]]].
  - apply forget_unqueued; [done|]. apply (unqueued W W_inj [] q o Hq Hwo). change (queue q) with (queue p).
    destruct (po_disjoint _ _ _ Hp (sender o) (Nonce o)) as [He|]; [|done]. rewrite Eso, Eno in He. congruence.
  - intros b x [[<- <-]|[_ Hx]]%lookup_insert_Some; [|by eapply Hnp]. destruct (Empty l') eqn:He; [|done].
    apply Empty_spec in He. rewrite Hit in He. by apply insert_non_empty in He.
  - intros Ht a. specialize (Ht a) as (? & ? & Hdom). split; [done|]. split; [done|]. intros n.
    change (is_Some (slot (pending q) a n) <-> currentState p a <= n < nonce_of p a). rewrite <- Hdom, Hslot. case_decide as He; [|done]. destruct He as [-> ->].
    rewrite Hso. split; intros _; by eexists.
Qed.

(** A transaction without pending rival enters the queue or is refused there. *)
Lemma enqueueTx_ok tx p : sound p -> W tx -> slot (pending p) (sender tx) (Nonce tx) = None -> exists p' r,
  enqueueTx p (TxHash tx) tx = (p', r) /\ sound p' /\ same_env p p' /\ pending p' = pending p /\ pendingState p' = pendingState p /\
  (forall x, r = inr x -> slot (queue p') (sender tx) (Nonce tx) = Some tx) /\
  (slot (queue p) (sender tx) (Nonce tx) = None -> r = inr false /\
     forall a n, slot (queue p') a n = if decide (a = sender tx /\ n = Nonce tx) then Some tx else slot (queue p) a n).
Proof.
  intros Hsd Hw Hnp. pose proof Hsd as [Hp Hcfg Hne Hnq]. destruct (slot (queue p) (sender tx) (Nonce tx)) as [o|] eqn:Hso.
  2:{ assert (ok [tx] p) as Hf.
      { destruct Hp. split; try done. - intros x Hx%list_elem_of_singleton. by subst x. - simpl. by apply NoDup_singleton. }
      destruct (enqueue_flight W W_inj [] p tx Hf) as (p' & Hrun & Hp' & He & Ep & En & _ & _ & Hslot & Hnq').
      exists p', (inr false). split; [done|]. split; [split; auto; [by rewrite (en_config _ _ He)|by rewrite Ep]|].
      split_and!; try done. intros x [= <-]. by rewrite Hslot, decide_True. }
  unfold enqueueTx. destruct (queue p !! sender tx) as [l|] eqn:Hl; [|by unfold slot in Hso; rewrite Hl in Hso].
  assert (items (txs l) !! Nonce tx = Some o) as Ho by (by rewrite <- (slot_list _ _ l) by done). simpl.
  destruct (lo_list _ _ _ (po_queue _ _ _ Hp) _ _ Hl) as [Hlok Hlst].
  destruct (Add_taken l tx o Hlok Ho) as [[-> _]|(l' & -> & _ & Hok' & Hst' & Hit)].
  { eexists _, _. split; [done|]. rewrite insert_id by done. split; [split; [by destruct Hp; split|done..]|]. by split_and!. }
  set (q := with_queue p (<[sender tx := l']> (queue p))). eexists _, _. split; [reflexivity|].
  destruct (lo_tx _ _ _ (po_queue _ _ _ Hp) _ _ _ Hso) as (Eso & Eno & Hwo).
  assert (forall a n, slot (<[sender tx := l']> (queue p)) a n = if decide (a = sender tx /\ n = Nonce tx) then Some tx else slot (queue p) a n) as Hslot.
  { intros a n. apply (slot_put (queue p) (sender tx) l l' tx false n); [by rewrite Hl|done]. }
  split; [split; simpl; try done|split_and!; try done; intros x _; simpl; by rewrite Hslot, decide_True].
  - pose proof Hp as [Hpp Hqq Hh Hd Ha Hk Hf Hs]. split; simpl; try done.
    + apply (lists_add W false (queue p) tx l l'); try done. by rewrite Hl.
    + by apply pl_Put_ok, Removed_ok.
    + intros a n. rewrite Hslot. case_decide as He; [|apply Hd]. destruct He as [-> ->]. by left.
    + intros h x [[<- <-]|[_ [_ Hx]%lookup_delete_Some]]%lookup_insert_Some; [done|by apply Ha].
    + intros a n x. rewrite Hslot. case_decide as He; [intros [= <-]; apply lookup_insert_eq|]. intros Hx.
      destruct (lo_tx _ _ _ Hqq _ _ _ Hx) as (Esx & Enx & Hwx). rewrite lookup_insert. case_decide as Heq; [f_equal; by apply W_inj|].
      rewrite lookup_delete_ne; [by eapply Hk|]. intros Hh'. apply He. rewrite <- Eso, <- Eno, <- Esx, <- Enx.
      by rewrite (W_inj o x Hwo Hwx Hh').
    + by intros x ?%elem_of_nil.
  - intros b x [[<- <-]|[_ Hx]]%lookup_insert_Some; [|by eapply Hnq]. destruct (Empty l') eqn:He; [|done].
    apply Empty_spec in He. rewrite Hit in He. by apply insert_non_empty in He.
Qed.

Lemma enqueue_new_ok tx (local : bool) p : sound p -> W tx -> slot (pending p) (sender tx) (Nonce tx) = None -> exists p' r,
  enqueue_new tx local p = (p', r) /\ sound p' /\ same_chain p p' /\ pending p' = pending p /\ pendingState p' = pendingState p /\
  (forall x, r = inr x -> slot (queue p') (sender tx) (Nonce tx) = Some tx) /\
  (slot (queue p) (sender tx) (Nonce tx) = None -> r = inr false /\
     forall a n, slot (queue p') a n = if decide (a = sender tx /\ n = Nonce tx) then Some tx else slot (queue p) a n).
Proof.
  intros Hsd Hw Hno. unfold enqueue_new.
  destruct (enqueueTx_ok tx p Hsd Hw Hno) as (q & r & -> & Hq & He & Ep & En & Hin & Hfree). destruct r as [e|x].
  { exists q, (inl e). by destruct He. }
  set (q1 := if local then with_locals q _ else q).
  assert (sound q1 /\ same_chain q q1 /\ pending q1 = pending q /\ pendingState q1 = pendingState q /\ queue q1 = queue q)
    as (Hs1 & He1 & Ep1 & En1 & Eq1).
  { unfold q1. destruct local; [|done]. destruct Hq as [[] ? ? ?]. by split; [split; [split|..]|]. }
  assert (sound (journalTx q1 (sender tx) tx) /\ same_chain q1 (journalTx q1 (sender tx) tx) /\
    pending (journalTx q1 (sender tx) tx) = pending q1 /\ pendingState (journalTx q1 (sender tx) tx) = pendingState q1 /\
    queue (journalTx q1 (sender tx) tx) = queue q1) as (Hs2 & He2 & Ep2 & En2 & Eq2).
  { unfold journalTx. destruct (journal q1); [|done]. destruct (contains q1 (sender tx)); [|done].
    destruct Hs1 as [[] ? ? ?]. by split; [split; [split|..]|]. }
  eexists _, _. split; [reflexivity|]. split; [done|]. split; [by destruct He1, He2, He; split; congruence|].
  rewrite Ep2, Ep1, En2, En1, Eq2, Eq1. by split_and!.
Qed.

(** [add] never panics once the priority is defined, and never gives up the invariant. *)
Lemma add_ok tx (local : bool) p prio : sound p -> Vm.GetPriority (msg_actions tx) = Ok prio -> W (set_priority tx prio) ->
  exists p' r, add tx local p = Ok (p', r) /\ sound p' /\ same_chain p p' /\ (tight p -> tight p').
Proof.
  intros Hsd Hprio Hw. unfold add. rewrite Hprio. cbn [mbind outcome_bind]. set (t := set_priority tx prio) in *.
  destruct (bool_decide _); [by exists p, (inl (ErrKnown (TxHash t)))|].
  destruct (_ <=? _).
  { destruct (make_room_ok t p Hsd) as (p' & e & -> & Hs & He & Ht). exists p', (inl e). by destruct He. }
  assert (slot (pending p) (sender t) (Nonce t) = None -> exists p' r, Ok (enqueue_new t local p) = Ok (E := unit) (p', r) /\
    sound p' /\ same_chain p p' /\ (tight p -> tight p')) as Hnew.
  { intros Hno. destruct (enqueue_new_ok t local p Hsd Hw Hno) as (p' & r & -> & Hs & He & Ep & En & _). exists p', r.
    split_and!; try done. intros Ht. apply (tight_same p); [done|apply He|done|by rewrite Ep]. }
  destruct (pending p !! sender t) as [l|] eqn:Hl; [|apply Hnew; unfold slot; by rewrite Hl].
  destruct (Overlaps l t) eqn:Hov.
  - destruct (replace_pending_ok l t p Hsd Hw Hl Hov) as (p' & r & -> & Hs & He & Ht & _). exists p', r. by destruct He.
  - apply Hnew. rewrite (slot_list _ _ l) by done. unfold Overlaps, sm_Get in Hov. by destruct (items (txs l) !! Nonce t).
Qed.

(** What a caller of [addTx] can rely on. *)
Definition limited p : Prop := pending_limited p /\ queue_limited p.

Lemma addTx_ok now tx (local : bool) p prio : sound p -> Vm.GetPriority (msg_actions tx) = Ok prio -> W (set_priority tx prio) ->
  exists p' e, addTx now tx local p = Ok (p', e) /\ sound p' /\ same_chain p p' /\ (tight p -> tight p').
Proof.
  intros Hsd Hprio Hw. unfold addTx. destruct (add_ok tx local p prio Hsd Hprio Hw) as (q & r & -> & Hq & He & Ht). cbn [mbind outcome_bind].
  destruct r as [e|[]]; [by eexists _, _|by eexists _, _|].
  destruct (promoteExecutables_ok now (Some [sender tx]) q Hq) as (p' & -> & Hp' & He' & _ & _ & _ & Ht'). cbn [mbind outcome_bind].
  eexists _, _. split; [done|]. split; [done|]. split; [destruct He, He'; by split; congruence|]. intros H0. by apply Ht', Ht.
Qed.

Lemma add_txs_ok (local : bool) txs : forall dirty p, sound p ->
  (forall tx, tx ∈ txs -> exists prio, Vm.GetPriority (msg_actions tx) = Ok prio /\ W (set_priority tx prio)) ->
  exists p' d errs, add_txs txs local dirty p = Ok (p', d, errs) /\ sound p' /\ same_chain p p' /\ (tight p -> tight p') /\
  length errs = length txs.
Proof.
  induction txs as [|tx txs IH]; intros dirty p Hsd Htx; [by exists p, dirty, []|]. cbn [add_txs].
  destruct (Htx tx (list_elem_of_here _ _)) as (prio & Hprio & Hw).
  destruct (add_ok tx local p prio Hsd Hprio Hw) as (q & r & -> & Hq & He & Ht). cbn [mbind outcome_bind].
  set (r' := match r with inl e => _ | inr true => _ | inr false => _ end). destruct r' as [err d] eqn:Hr'.
  destruct (IH d q Hq) as (p' & d' & errs & -> & Hp' & He' & Ht' & Hlen); [intros x Hx; apply Htx; by right|].
  cbn [mbind outcome_bind]. eexists _, _, _. split; [done|]. split; [done|]. split; [destruct He, He'; by split; congruence|].
  split; [auto|]. simpl. by rewrite Hlen.
Qed.

Lemma addTxsLocked_ok now (local : bool) txs p : sound p ->
  (forall tx, tx ∈ txs -> exists prio, Vm.GetPriority (msg_actions tx) = Ok prio /\ W (set_priority tx prio)) ->
  exists p' errs, addTxsLocked now txs local p = Ok (p', errs) /\ sound p' /\ same_chain p p' /\ (tight p -> tight p') /\
  length errs = length txs.
Proof.
  intros Hsd Htx. unfold addTxsLocked. destruct (add_txs_ok local txs ∅ p Hsd Htx) as (q & d & errs & -> & Hq & He & Ht & Hlen).
  cbn [mbind outcome_bind]. destruct (bool_decide _); [by eexists _, _|].
  destruct (promoteExecutables_ok now (Some (elements d)) q Hq) as (p' & -> & Hp' & He' & _ & _ & _ & Ht'). cbn [mbind outcome_bind].
  eexists _, _. split; [done|]. split; [done|]. split; [destruct He, He'; by split; congruence|]. split; [|done]. intros H0. by apply Ht', Ht.
Qed.

(** ** Eviction and the priority threshold *)

Lemma evict_ok now addrs : forall p, sound p -> exists p', evict now addrs p = Ok p' /\ sound p' /\ same_chain p p' /\ (tight p -> tight p').
Proof.
  induction addrs as [|a addrs IH]; intros p Hsd; cbn [evict]; [by exists p|].
  destruct (contains p a); [by apply IH|]. destruct (queue p !! a) as [l|] eqn:Hl; [|by apply IH].
  destruct (_ <? _); [|by apply IH]. pose proof Hsd as [Hp Hcfg Hnp Hnq]. destruct (flatten_queue W p a l Hp Hl) as (Hd & _ & _).
  destruct (Flatten l) as [txs l'] eqn:Hf. simpl in Hd.
  destruct (remove_all_ok W W_inj txs _ (dq_ok _ _ _ Hd)) as (q & -> & Hq & He & Hnp' & Hnq' & Ht). cbn [mbind outcome_bind].
  destruct (IH q) as (p' & -> & Hp' & He' & Ht').
  { split; [done|by rewrite (en_config _ _ He)|by apply Hnp', (dq_pne _ _ _ Hd)|by apply Hnq', (dq_qne _ _ _ Hd)]. }
  exists p'. split; [done|]. split; [done|]. destruct He as [Ec Eu _]. split; [destruct He' as [Ec' Eu']; split; [by rewrite Ec', Ec|by rewrite Eu', Eu]|].
  intros H0. apply Ht', Ht. by apply (drained_tight W p).
Qed.

Lemma SetPriority_ok prio p : sound p -> exists p', SetPriority prio p = Ok p' /\ sound p' /\ same_chain p p' /\ (tight p -> tight p').
Proof.
  intros [Hp Hcfg Hnp Hnq]. unfold SetPriority. set (q := with_priority p (Some prio)).
  assert (ok [] q) as Hq by (by destruct Hp; split).
  destruct (pl_Cap_spec (all q) (containsTx q) (priorited q) prio (po_heap _ _ _ Hq)) as (drop & pl & _ & -> & Hpl & _). cbn [mbind outcome_bind].
  destruct (remove_all_ok W W_inj drop (with_all q (all q) pl) (ok_index [] _ pl Hq Hpl)) as (p' & -> & Hp' & [Ec Eu _] & Hnp' & Hnq' & Ht').
  exists p'. split; [done|]. split; [split; [done|by rewrite Ec|by apply Hnp'|by apply Hnq']|]. split; [done|]. intros Ht. apply Ht'. exact Ht.
Qed.
End Spec.
