(* ===== verification/TxPoolReset.v ===== *)
(** * The pool follows the chain

    [reset] moves the pool to a new head: pending transactions that were included
    leave, transactions of abandoned blocks come back, lists with a gap in front go
    back to the queue, and the virtual nonces are set behind the pending lists. *)

From stdpp Require Import base gmap list sorting.
From S2P Require Import Prelude Types Heap TxList ManagedState Vm Processor TxPool TxPoolInv TxPoolSteps TxPoolLimits TxPoolSpec.
Local Open Scope Z_scope.

Section Reset.
Context (W : message -> Prop) (W_inj : forall x y, W x -> W y -> TxHash x = TxHash y -> x = y).
Context (W_nonce : forall tx, W tx -> Nonce tx + 1 < 2 ^ 64).
Context (W_small : forall txs, NoDup txs -> (forall tx, tx ∈ txs -> W tx) -> Z.of_nat (length txs) < 2 ^ 24).
Implicit Types (p : TxPool) (tx : message) (a b : Address) (l : txList message).

Abbreviation ok := (pool_ok W).
Abbreviation sound := (sound W).

(** ** Demotion *)

(** A list without its first executable transaction is given up. *)
Definition kept p b n : option message :=
  if decide (is_Some (slot (pending p) b (currentState p b)) /\ currentState p b <= n) then slot (pending p) b n else None.

Lemma pending_out F p a l l' R : ok F p -> pending p !! a = Some l -> extracts l l' R ->
  let p' := forget_txs R (with_pending p (<[a := l']> (pending p))) in
  ok F p' /\ same_env p p' /\ queue p' = queue p /\ pendingState p' = pendingState p /\ pending p' = <[a := l']> (pending p) /\
  beats p' = beats p.
Proof.
  intros Hp Hl Hex p'. pose proof (take_pending W F p a l l' R Hp Hl Hex) as Ht.
  destruct (forget_txs_same R (with_pending p (<[a := l']> (pending p)))) as [[] ? ? ? ?].
  split; [by apply forget_flight|]. by split_and!.
Qed.

(** The end of [demote_account]: an empty list goes, its heartbeat too. *)
Lemma settle_pending p a l : ok [] p -> pending p !! a = Some l ->
  let p' := if Empty l then with_beats (with_pending p (delete a (pending p))) (delete a (beats p)) else p in
  ok [] p' /\ same_env p p' /\ queue p' = queue p /\ pendingState p' = pendingState p /\
  (forall b, b <> a -> pending p' !! b = pending p !! b) /\ pending p' !! a = (if Empty l then None else Some l) /\
  forall b n, slot (pending p') b n = slot (pending p) b n.
Proof.
  intros Hp Hl. destruct (Empty l) eqn:He; simpl; [|by split_and!].
  split; [by eapply drop_empty_pending|]. split_and!; try done; [intros b Hb; by rewrite lookup_delete_ne|apply lookup_delete_eq|].
  intros b n. rewrite slot_delete. case_decide; [subst b|done]. rewrite (slot_list _ _ l) by done.
  apply Empty_spec in He. by rewrite He, lookup_empty.
Qed.

(** The statements of [demote_account] after [Forward]. *)
Lemma demote_gap p a l c : sound p \/ (ok [] p /\ config_ok (config p) /\ no_empty (queue p)) -> pending p !! a = Some l ->
  (forall b x, b <> a -> pending p !! b = Some x -> Empty x = false) -> exists p',
  ('(p, l) ← (if (0 <? Z.of_nat (Len l)) && negb (bool_decide (is_Some (sm_Get (txs l) c))) then
                '(invalids, l) ← cap_int l 0;
                Ok (enqueue_all (with_pending p (<[a := l]> (pending p))) invalids, l)
              else Ok (p, l));
   Ok (if Empty l then with_beats (with_pending p (delete a (pending p))) (delete a (beats p)) else p) : outcome unit TxPool) = Ok p' /\
  sound p' /\ same_env p p' /\ pendingState p' = pendingState p /\
  (forall b n, slot (pending p') b n = if decide (b = a) then (if decide (is_Some (items (txs l) !! c)) then items (txs l) !! n else None)
                                       else slot (pending p) b n).
Proof.
  intros Hsd Hl Hne. assert (ok [] p /\ config_ok (config p) /\ no_empty (queue p)) as (Hp & Hcfg & Hnq).
  { destruct Hsd as [[]|]; done. }
  destruct (lo_list _ _ _ (po_pending _ _ _ Hp) _ _ Hl) as [Hlok Hlst]. unfold sm_Get.
  assert (forall q l', ok [] q -> same_env p q -> pendingState q = pendingState p -> no_empty (queue q) -> pending q = <[a := l']> (pending p) ->
    let r := if Empty l' then with_beats (with_pending q (delete a (pending q))) (delete a (beats q)) else q in
    sound r /\ same_env p r /\ pendingState r = pendingState p /\
    forall b n, slot (pending r) b n = if decide (b = a) then items (txs l') !! n else slot (pending p) b n) as Hend.
  { intros q l' Hq He En Hnqq Ep. destruct (settle_pending q a l' Hq) as (Hr & Her & Eqr & Enr & Ho & Ha & Hs); [rewrite Ep; apply lookup_insert_eq|].
    set (r := if Empty l' then _ else q) in *. split_and!; try congruence; [|by etransitivity|intros b n; by rewrite Hs, Ep, slot_insert].
    split; [done|by rewrite (en_config _ _ Her), (en_config _ _ He)| |by rewrite Eqr].
    intros b x Hx. destruct (decide (b = a)) as [->|Hb].
    - rewrite Ha in Hx. destruct (Empty l') eqn:Hemp; [done|]. by injection Hx as <-.
    - rewrite Ho, Ep, lookup_insert_ne in Hx by done. by eapply Hne. }
  destruct (decide (is_Some (items (txs l) !! c))) as [Hc|Hc].
  { rewrite (bool_decide_true _ Hc), andb_false_r. cbn [mbind outcome_bind]. eexists. split; [done|].
    apply (Hend p l); try done. by rewrite insert_id. }
  rewrite (bool_decide_false _ Hc), andb_true_r. destruct (Z.ltb_spec 0 (Z.of_nat (Len l))) as [Hpos|Hz].
  - destruct (cap_int_extracts l 0 Hlok ltac:(lia)) as (R & l' & -> & Hex & [(? & _)|(_ & Hl' & _)]); [lia|]. cbn [mbind outcome_bind].
    pose proof (take_pending W [] p a l l' R Hp Hl Hex) as Ht.
    destruct (enqueue_all_ok W W_inj R [] _ Ht) as (Hq & He & Ep & En & Hnqq). eexists. split; [done|].
    destruct (Hend (enqueue_all (with_pending p (<[a := l']> (pending p))) R) l') as (Hr & Her & Enr & Hs); try done.
    { by transitivity (with_pending p (<[a := l']> (pending p))). } { by apply Hnqq. }
    split_and!; try done. intros b n. rewrite Hs. case_decide; [|done].
    assert (items (txs l') = ∅) as ->; [|by rewrite lookup_empty]. apply Empty_spec. unfold Empty. apply Nat.eqb_eq. lia.
  - cbn [mbind outcome_bind]. eexists. split; [done|]. destruct (Hend p l) as (Hr & Her & Enr & Hs); try done; [by rewrite insert_id|].
    split_and!; try done. intros b n. rewrite Hs. case_decide; [|done].
    assert (items (txs l) = ∅) as ->; [|by rewrite lookup_empty]. apply Empty_spec. unfold Empty. apply Nat.eqb_eq. lia.
Qed.

Lemma demote_account_ok p a : sound p -> exists p', demote_account p a = Ok p' /\ sound p' /\ same_env p p' /\
  pendingState p' = pendingState p /\ forall b n, slot (pending p') b n = if decide (b = a) then kept p a n else slot (pending p) b n.
Proof.
  intros Hsd. pose proof Hsd as [Hp Hcfg Hnp Hnq]. unfold demote_account. destruct (pending p !! a) as [l|] eqn:Hl.
  2:{ exists p. split_and!; try done. intros b n. case_decide; [subst b|done]. unfold kept.
      assert (forall k, slot (pending p) a k = None) as Hno by (intros k; unfold slot; by rewrite Hl).
      rewrite !Hno. by case_decide. }
  destruct (lo_list _ _ _ (po_pending _ _ _ Hp) _ _ Hl) as [Hlok Hlst].
  destruct (Forward_extracts l (currentState p a) Hlok) as (R & l1 & -> & Hex & Hit). cbn [mbind outcome_bind].
  destruct (pending_out [] p a l l1 R Hp Hl Hex) as (Hok1 & He1 & Eq1 & En1 & Ep1 & _). set (p1 := forget_txs R _) in *.
  destruct (demote_gap p1 a l1 (currentState p a)) as (p' & Hrun & Hs & He & En & Hslot).
  - right. split_and!; [done|by rewrite (en_config _ _ He1)|by rewrite Eq1].
  - rewrite Ep1. apply lookup_insert_eq.
  - intros b x Hb. rewrite Ep1, lookup_insert_ne by done. apply Hnp.
  - exists p'. split; [exact Hrun|]. split_and!; [done|by transitivity p1|congruence|].
    intros b n. rewrite Hslot, Ep1. destruct (decide (b = a)) as [->|]; [|by rewrite slot_insert, decide_False].
    unfold kept. rewrite Hit, !above_lookup, (slot_list _ _ l (currentState p a)), (slot_list _ _ l n) by done.
    rewrite (decide_False (P := currentState p a < currentState p a)) by lia.
    destruct (decide (is_Some (items (txs l) !! currentState p a))) as [Hs1|Hs1].
    + destruct (decide (n < currentState p a)); [rewrite decide_False by lia|rewrite decide_True by (split; [done|lia])]; done.
    + rewrite decide_False by naive_solver. done.
Qed.

Lemma demote_accounts_ok addrs : forall p, sound p -> NoDup addrs -> exists p', demote_accounts addrs p = Ok p' /\ sound p' /\
  same_env p p' /\ pendingState p' = pendingState p /\
  forall b n, slot (pending p') b n = if decide (b ∈ addrs) then kept p b n else slot (pending p) b n.
Proof.
  induction addrs as [|a addrs IH]; intros p Hsd Hnd; cbn [demote_accounts].
  { by exists p. }
  apply NoDup_cons in Hnd as [Hna Hnd]. destruct (demote_account_ok p a Hsd) as (q & -> & Hq & He & En & Hs). cbn [mbind outcome_bind].
  destruct (IH q Hq Hnd) as (p' & -> & Hp' & He' & En' & Hs'). exists p'. split_and!; [done|done|by etransitivity|congruence|].
  assert (forall b n, b <> a -> kept q b n = kept p b n) as Hkept.
  { intros b n Hb. unfold kept. by rewrite (en_current _ _ He), !Hs, !(decide_False (P := b = a)). }
  intros b n. rewrite Hs'. destruct (decide (b = a)) as [->|Hb].
  - rewrite (decide_False (P := a ∈ addrs)) by done. rewrite Hs, decide_True by done. by rewrite decide_True by by left.
  - destruct (decide (b ∈ addrs)).
    + rewrite decide_True by by right. by apply Hkept.
    + rewrite Hs, decide_False by done. rewrite decide_False; [done|]. rewrite elem_of_cons. naive_solver.
Qed.

Lemma demoteUnexecutables_ok p : sound p -> exists p', demoteUnexecutables p = Ok p' /\ sound p' /\ same_env p p' /\
  pendingState p' = pendingState p /\ forall b n, slot (pending p') b n = kept p b n.
Proof.
  intros Hsd. destruct (demote_accounts_ok (map_to_list (pending p)).*1 p Hsd (NoDup_fst_map_to_list _)) as (p' & Hrun & Hs & He & En & Hslot).
  exists p'. split_and!; try done. intros b n. rewrite Hslot. case_decide as Hin; [done|].
  assert (forall k, slot (pending p) b k = None) as Hno.
  { intros k. unfold slot. destruct (pending p !! b) as [l|] eqn:Hl; [|done]. destruct Hin. apply list_elem_of_fmap.
    exists (b, l). split; [done|by apply elem_of_map_to_list]. }
  unfold kept. rewrite !Hno. by case_decide.
Qed.

(** ** Virtual nonces *)

Lemma flatten_pending p a l : sound p -> pending p !! a = Some l ->
  let p' := with_pending p (<[a := (Flatten l).2]> (pending p)) in
  sound p' /\ (forall b n, slot (pending p') b n = slot (pending p) b n) /\ listing (items (txs l)) (Flatten l).1 /\
  forall b, is_Some (pending p' !! b) <-> is_Some (pending p !! b).
Proof.
  intros [Hp Hcfg Hnp Hnq] Hl p'. destruct (lo_list _ _ _ (po_pending _ _ _ Hp) _ _ Hl) as [Hlok Hlst].
  destruct (Flatten_extracts l Hlok) as (Hok & Hst & Hit & Hls).
  assert (extracts l (Flatten l).2 []) as Hex.
  { split; rewrite ?Hit; try done; [|constructor]. intros tx. rewrite elem_of_nil. split; [done|]. intros [? ?]. congruence. }
  split_and!; [split; try done| |done|].
  - exact (take_pending W [] p a l _ [] Hp Hl Hex).
  - unfold p'. simpl. intros b x [[<- <-]|[_ Hx]]%lookup_insert_Some; [|by eapply Hnp].
    specialize (Hnp _ _ Hl). unfold Empty in *. by rewrite Len_size, Hit, <- Len_size.
  - intros b n. simpl. rewrite slot_insert. case_decide; [subst b; by rewrite Hit, (slot_list _ _ l)|done].
  - intros b. simpl. rewrite lookup_insert. case_decide; [subst b; by rewrite Hl|done].
Qed.

(** The last transaction of a listing has the highest nonce. *)
Lemma listing_last (its : gmap Z message) r : listing its r -> (forall n tx, its !! n = Some tx -> Nonce tx = n) -> its <> ∅ ->
  exists x, list.last r = Some x /\ its !! Nonce x = Some x /\ forall n, is_Some (its !! n) -> n <= Nonce x.
Proof.
  intros [Hs Hm] Hk Hne. destruct (list.last r) as [x|] eqn:Hx.
  - exists x. split; [done|]. split; [by apply Hm, last_Some_elem_of|]. intros n [t Ht]. pose proof (Hk n t Ht) as Hn.
    apply last_Some in Hx as (r' & ->). apply ssorted_app_inv in Hs as (_ & _ & Hlt).
    assert (t ∈ r' ++ [x]) as [Hin|Hin%list_elem_of_singleton]%elem_of_app by (apply Hm; by rewrite Hn); [|subst; lia].
    specialize (Hlt t x Hin (list_elem_of_here _ _)). lia.
  - apply last_None in Hx as ->. apply map_choose in Hne as (n & t & Ht). assert (t ∈ []) as []%elem_of_nil.
    apply Hm. by rewrite (Hk n t Ht).
Qed.

(** [m] is the highest pending nonce of [b]. *)
Definition highest p b m : Prop := is_Some (slot (pending p) b m) /\ forall n, is_Some (slot (pending p) b n) -> n <= m.

Lemma update_nonces_ok addrs : forall p, sound p -> NoDup addrs -> (forall a, a ∈ addrs -> is_Some (pending p !! a)) ->
  exists p', update_nonces addrs p = Ok p' /\ sound p' /\ same_env p p' /\ queue p' = queue p /\
  (forall b n, slot (pending p') b n = slot (pending p) b n) /\
  (forall b, b ∈ addrs -> exists m, highest p b m /\ nonce_of p' b = m + 1) /\
  (forall b, b ∉ addrs -> nonce_of p' b = nonce_of p b).
Proof.
  induction addrs as [|a addrs IH]; intros p Hsd Hnd Hin; cbn [update_nonces].
  { exists p. split_and!; try done. by intros b ?%elem_of_nil. }
  apply NoDup_cons in Hnd as [Hna Hnd]. destruct (Hin a (list_elem_of_here _ _)) as [l Hl]. rewrite Hl. cbn [of_index mbind outcome_bind].
  pose proof Hsd as [Hp Hcfg Hnp Hnq]. destruct (lo_list _ _ _ (po_pending _ _ _ Hp) _ _ Hl) as [Hlok Hlst].
  destruct (flatten_pending p a l Hsd Hl) as (Hq & Hs & Hls & Hdom).
  destruct (listing_last _ _ Hls) as (x & Hx & Hxi & Hmax).
  { intros n tx. by apply list_nonce. } { intros He. specialize (Hnp _ _ Hl). by rewrite (proj2 (Empty_spec l) He) in Hnp. }
  destruct (Flatten l) as [txs l'] eqn:Hf. simpl in Hq, Hs, Hx, Hdom. rewrite Hx. cbn [of_index mbind outcome_bind].
  set (q := with_pending p (<[a:=l']> (pending p))) in *. set (r := set_pending_nonce q a (u64 (Nonce x + 1))).
  assert (sound r) as Hr by (destruct Hq as [[] ? ? ?]; by split; [split|..]).
  assert (slot (pending p) a (Nonce x) = Some x) as Hxs by (by rewrite (slot_list _ _ l)).
  destruct (lo_tx _ _ _ (po_pending _ _ _ Hp) _ _ _ Hxs) as (_ & _ & Hwx). pose proof (W_nonce x Hwx). pose proof (Nonce_range x).
  assert (forall b, nonce_of r b = if decide (b = a) then Nonce x + 1 else nonce_of p b) as Hnr.
  { intros b. unfold nonce_of, r. simpl. rewrite nonce_at_set. case_decide; [|done]. unfold u64. apply wrap_small. lia. }
  destruct (IH r Hr Hnd) as (p' & -> & Hp' & He' & Eq' & Hs' & Hhi & Hno); [intros b Hb; apply Hdom, Hin; by right|].
  exists p'. split; [done|]. split; [done|]. split; [by transitivity r|]. split_and!; try done.
  - intros b n. by rewrite Hs', <- Hs.
  - intros b [->|Hb]%elem_of_cons.
    + exists (Nonce x). split; [|by rewrite Hno, Hnr, decide_True]. split; [by rewrite Hxs|]. intros n. rewrite (slot_list _ _ l) by done. apply Hmax.
    + destruct (Hhi b Hb) as (m & [Hm1 Hm2] & Hm3). exists m. split; [|done]. split; [by rewrite <- Hs|]. intros n. rewrite <- Hs. apply Hm2.
  - intros b Hb. rewrite elem_of_cons in Hb. rewrite Hno, Hnr by naive_solver. rewrite decide_False by naive_solver. done.
Qed.

(** ** The whole of [reset] *)

Section Chain.
Context (GetBlock : Hash -> Z -> option poolBlock) (StateAt : Hash -> option (Address -> Z)) (CurrentBlock : poolBlock).

Definition words (nonces : Address -> Z) : Prop := forall a, 0 <= nonces a < 2 ^ 64.

(** After demotion and the update of the nonces the pool is tight again. *)
Lemma tight_moved p q r nonces : tight p -> words nonces -> sound q ->
  currentState r = nonces -> (forall b n, slot (pending r) b n = slot (pending q) b n) ->
  (forall b n, slot (pending q) b n =
     if decide (is_Some (slot (pending p) b (nonces b)) /\ nonces b <= n) then slot (pending p) b n else None) ->
  (forall b, is_Some (pending q !! b) -> exists m, highest q b m /\ nonce_of r b = m + 1) ->
  (forall b, pending q !! b = None -> nonce_of r b = nonces b) -> tight r.
Proof.
  intros Ht Hw [_ _ Hnp _] Ec Hr Hq Hhi Hno a. rewrite Ec. setoid_rewrite Hr. destruct (Ht a) as (Hc & Hlt & Hdom). specialize (Hw a).
  destruct (pending q !! a) as [l|] eqn:Hl.
  2:{ rewrite (Hno a Hl). split_and!; try lia. intros n. unfold slot at 1. rewrite Hl. split; [by intros [? ?]|lia]. }
  destruct (Hhi a) as (m & [Hm Hmax] & ->); [by rewrite Hl|].
  rewrite Hq in Hm. destruct (decide _) as [[Hfirst Hle]|]; [|by destruct Hm].
  assert (forall n, is_Some (slot (pending q) a n) <-> nonces a <= n < nonce_of p a) as Hsl.
  { intros n. rewrite Hq. destruct (decide (nonces a <= n)).
    - rewrite decide_True by done. rewrite Hdom. apply Hdom in Hfirst. lia.
    - rewrite decide_False by naive_solver. split; [by intros [? ?]|lia]. }
  assert (m + 1 = nonce_of p a) as ->.
  { apply Hdom in Hm. apply Hdom in Hfirst. specialize (Hmax (nonce_of p a - 1)). rewrite Hsl in Hmax. lia. }
  apply Hdom in Hfirst. split_and!; [lia|lia|lia|done].
Qed.

Lemma reset_ok now old new p reinject : sound p ->
  reinjects GetBlock old new = Ok (Some reinject) ->
  (forall tx, tx ∈ reinject -> exists prio, Vm.GetPriority (msg_actions tx) = Ok prio /\ W (set_priority tx prio)) ->
  exists p', reset GetBlock StateAt CurrentBlock now old new p = Ok p' /\ sound p' /\ config p' = config p /\
  match StateAt (b_root (default CurrentBlock new)) with
  | None => p' = p
  | Some nonces => currentState p' = nonces /\ pending_limited p' /\ queue_limited p' /\
      (tight p -> words nonces -> reinject = [] -> tight p' /\ forall b, promoted p' b)
  end.
Proof.
  intros Hsd Hre Htx. unfold reset. rewrite Hre. cbn [mbind outcome_bind].
  destruct (StateAt (b_root (default CurrentBlock new))) as [nonces|]; [|by exists p].
  set (p0 := with_states p nonces (mkNonces nonces ∅)).
  assert (sound p0) as Hp0 by (destruct Hsd as [[] ? ? ?]; by split; [split|..]).
  destruct (addTxsLocked_ok W W_inj W_nonce W_small now false reinject p0 Hp0 Htx) as (p1 & errs & Hrun1 & Hp1 & [Ec1 Eu1] & _).
  rewrite Hrun1. cbn [mbind outcome_bind].
  destruct (demoteUnexecutables_ok p1 Hp1) as (p2 & -> & Hp2 & [Ec2 Eu2 El2] & En2 & Hs2). cbn [mbind outcome_bind].
  destruct (update_nonces_ok (map_to_list (pending p2)).*1 p2 Hp2 (NoDup_fst_map_to_list _)) as (p3 & -> & Hp3 & [Ec3 Eu3 El3] & Eq3 & Hs3 & Hhi & Hno).
  { intros a ([b l] & -> & Hl%elem_of_map_to_list)%list_elem_of_fmap. by exists l. }
  cbn [mbind outcome_bind].
  destruct (promoteExecutables_ok W W_inj W_nonce W_small now None p3 Hp3) as (p4 & -> & Hp4 & [Ec4 Eu4 El4] & Hpl & Hql & _ & Ht4).
  exists p4. split; [done|]. split; [done|]. split; [by rewrite Ec4, Ec3, Ec2, Ec1|]. split; [by rewrite Eu4, Eu3, Eu2, Eu1|]. split; [done|]. split; [done|].
  intros Ht Hw ->. unfold addTxsLocked in Hrun1. cbn [add_txs mbind outcome_bind] in Hrun1. rewrite bool_decide_true in Hrun1 by done.
  injection Hrun1 as <- <-. destruct Ht4 as [? Hpro]; [|split; [done|]; intros b; by apply Hpro].
  apply (tight_moved p p2 p3 nonces Ht Hw Hp2); [by rewrite Eu3, Eu2|done|done| |].
  - intros b [l Hl]. apply Hhi. apply list_elem_of_fmap. exists (b, l). split; [done|by apply elem_of_map_to_list].
  - intros b Hb. rewrite Hno; [unfold nonce_of; by rewrite En2|]. intros ([c l] & -> & Hl%elem_of_map_to_list)%list_elem_of_fmap. simpl in Hb. congruence.
Qed.
End Chain.
End Reset.
