(* ===== verification/TxPoolClaims.v ===== *)
(** * Properties of the transaction pool

    The pools that [NewTxPool] and the entry points reach, what they guarantee to the
    block producer and to the network, and what they do not.  [ws] lists the
    transactions offered to the pool, with the priorities it computes. *)

From stdpp Require Import strings base gmap list sorting.
From S2P Require Import Prelude Types Numerals Hex Json Heap TxList ManagedState Vm Processor TxPool TxPoolInv TxPoolSteps TxPoolLimits TxPoolSpec TxPoolReset.
Local Open Scope Z_scope.

(** ** The transactions offered *)

Record world_ok (ws : list message) : Prop := {
  wo_hash : NoDup (TxHash <$> ws);
  wo_nonce tx : tx ∈ ws -> Nonce tx + 1 < 2 ^ 64;
  wo_size : Z.of_nat (length ws) < 2 ^ 24;
}.

Definition offered (ws : list message) (tx : message) : Prop := tx ∈ ws.

(** [tx] has a priority, and is then one of [ws]. *)
Definition offers (ws : list message) (tx : message) : Prop :=
  exists prio, Vm.GetPriority (msg_actions tx) = Ok prio /\ offered ws (set_priority tx prio).

Section World.
Context (ws : list message) (Hws : world_ok ws).

Lemma offered_inj x y : offered ws x -> offered ws y -> TxHash x = TxHash y -> x = y.
Proof.
  intros [i Hi]%list_elem_of_lookup [j Hj]%list_elem_of_lookup He. assert (i = j) as ->; [|congruence].
  apply (NoDup_lookup _ i j (TxHash x) (wo_hash _ Hws)); rewrite list_lookup_fmap; [by rewrite Hi|by rewrite Hj, He].
Qed.

Lemma offered_nonce tx : offered ws tx -> Nonce tx + 1 < 2 ^ 64.
Proof. apply (wo_nonce _ Hws). Qed.

Lemma offered_small txs : NoDup txs -> (forall tx, tx ∈ txs -> offered ws tx) -> Z.of_nat (length txs) < 2 ^ 24.
Proof.
  intros Hnd Hin. pose proof (submseteq_length _ _ (NoDup_submseteq txs ws Hnd Hin)). pose proof (wo_size _ Hws). lia.
Qed.
End World.

(** ** Reachable pools *)

Inductive pool_step (ws : list message) (p : TxPool) : TxPool -> Prop :=
| step_add now tx local p' e : offers ws tx -> addTx now tx local p = Ok (p', e) -> pool_step ws p p'
| step_batch now txs local p' es : Forall (offers ws) txs -> addTxsLocked now txs local p = Ok (p', es) -> pool_step ws p p'
| step_evict now p' : evict_tick now p = Ok p' -> pool_step ws p p'
| step_priority prio p' : SetPriority prio p = Ok p' -> pool_step ws p p'
| step_head GetBlock StateAt Current now old new nonces p' : reinjects GetBlock old new = Ok (Some []) ->
    StateAt (b_root (default Current new)) = Some nonces -> words nonces ->
    reset GetBlock StateAt Current now old new p = Ok p' -> pool_step ws p p'.

(** A pool that started on some chain and saw transactions, ticks and new heads that
    abandon no transaction. *)
Inductive reachable (ws : list message) : TxPool -> Prop :=
| reach_new GetBlock StateAt Current c now nonces p : config_ok c -> StateAt (b_root Current) = Some nonces -> words nonces ->
    NewTxPool GetBlock StateAt Current c now = Ok (Some p) -> reachable ws p
| reach_step p p' : reachable ws p -> pool_step ws p p' -> reachable ws p'.

Lemma sanitize_ok c : config_ok c -> config_ok (sanitize c).
Proof. intros []. unfold sanitize. by destruct (_ <? _). Qed.

Definition blank (c : TxPoolConfig) : TxPool :=
  mkPool (sanitize c) (fun _ => 0) (mkNonces (fun _ => 0) ∅) None ∅ None ∅ ∅ ∅ ∅ newTxPriorityList [].

Lemma lists_ok_empty W b : lists_ok W b ∅.
Proof. split; [intros a l|intros a n tx; unfold slot]; by rewrite lookup_empty. Qed.

Lemma blank_sound W c : config_ok c -> sound W (blank c) /\ tight (blank c).
Proof.
  intros Hc. split.
  - split; [|by apply sanitize_ok|by intros a l|by intros a l].
    split; simpl; [apply lists_ok_empty|apply lists_ok_empty| |by left|by intros h tx|by intros a n tx|by intros x ?%elem_of_nil|constructor].
    intros k [_ Hk]. simpl in Hk. lia.
  - intros a. split_and!; try done. intros n. split; [by intros [? ?]|]. unfold nonce_of, nonce_at. simpl. rewrite lookup_empty. simpl. lia.
Qed.

Lemma reachable_sound ws p : world_ok ws -> reachable ws p -> sound (offered ws) p /\ tight p.
Proof.
  intros Hws Hr. pose proof (offered_inj ws Hws) as Hinj. pose proof (offered_nonce ws Hws) as Hnon. pose proof (offered_small ws Hws) as Hsm.
  induction Hr as [GetBlock StateAt Current c now nonces p Hc Hst Hw Hrun|p p' Hr [Hs Ht] Hstep].
  - destruct (blank_sound (offered ws) c Hc) as [Hs Ht].
    destruct (reset_ok (offered ws) Hinj Hnon Hsm GetBlock StateAt Current now None (Some Current) (blank c) [] Hs eq_refl) as (p' & Hrun' & Hs' & _ & Hm);
      [by intros tx ?%elem_of_nil|].
    unfold NewTxPool in Hrun. fold (blank c) in Hrun. rewrite Hst, Hrun' in Hrun. injection Hrun as <-. simpl in Hm. rewrite Hst in Hm.
    split; [done|]. by apply Hm.
  - destruct Hstep as [now tx local p' e (prio & Hp & Hin) Hrun|now txs local p' es Hall Hrun|now p' Hrun|prio p' Hrun|
      GetBlock StateAt Current now old new nonces p' Hre Hst Hw Hrun].
    + destruct (addTx_ok _ Hinj Hnon Hsm now tx local p prio Hs Hp Hin) as (q & e' & Hrun' & Hq & _ & Htq).
      rewrite Hrun in Hrun'. injection Hrun' as <- <-. auto.
    + rewrite Forall_forall in Hall. destruct (addTxsLocked_ok _ Hinj Hnon Hsm now local txs p Hs Hall) as (q & es' & Hrun' & Hq & _ & Htq & _).
      rewrite Hrun in Hrun'. injection Hrun' as <- <-. auto.
    + destruct (evict_ok _ Hinj now (map_to_list (queue p)).*1 p Hs) as (q & Hrun' & Hq & _ & Htq).
      unfold evict_tick in Hrun. rewrite Hrun in Hrun'. injection Hrun' as <-. auto.
    + destruct (SetPriority_ok _ Hinj prio p Hs) as (q & Hrun' & Hq & _ & Htq). rewrite Hrun in Hrun'. injection Hrun' as <-. auto.
    + destruct (reset_ok _ Hinj Hnon Hsm GetBlock StateAt Current now old new p [] Hs Hre) as (q & Hrun' & Hq & _ & Hm); [by intros tx ?%elem_of_nil|].
      rewrite Hrun in Hrun'. injection Hrun' as <-. rewrite Hst in Hm. split; [done|]. by apply Hm.
Qed.

(** A list whose nonces are an interval, in order. *)
Lemma run_listing p a l : (forall n, is_Some (slot (pending p) a n) <-> currentState p a <= n < nonce_of p a) ->
  pending p !! a = Some l -> list_ok l -> listing (items (txs l)) (Flatten l).1 -> currentState p a <= nonce_of p a ->
  nonce_of p a = currentState p a + Z.of_nat (length (Flatten l).1) /\
  forall i tx, (Flatten l).1 !! i = Some tx -> Nonce tx = currentState p a + Z.of_nat i.
Proof.
  intros Hdom Hl Hlok Hls Hle. set (r := (Flatten l).1) in *. destruct Hls as [Hs Hm].
  assert (forall n, n ∈ Nonce <$> r <-> n ∈ seqZ (currentState p a) (nonce_of p a - currentState p a)) as Hel.
  { intros n. rewrite elem_of_seqZ, list_elem_of_fmap. replace (currentState p a + (nonce_of p a - currentState p a)) with (nonce_of p a) by lia.
    rewrite <- Hdom, (slot_list _ _ l) by done. split.
    - intros (x & -> & Hx%Hm). by rewrite Hx.
    - intros [x Hx]. exists x. rewrite <- (list_nonce _ _ _ Hlok Hx). split; [done|]. apply Hm. by rewrite (list_nonce _ _ _ Hlok Hx). }
  assert (Z.of_nat (length r) = nonce_of p a - currentState p a) as Hlen.
  { rewrite <- (length_fmap Nonce r), (Permutation_length (NoDup_Permutation _ _ (ssorted_nodup _ Hs) (NoDup_seqZ _ _) Hel)).
    rewrite length_seqZ. lia. }
  split; [lia|]. apply ssorted_run; [done|]. intros tx Hin. assert (Nonce tx ∈ Nonce <$> r) as Hn by by apply list_elem_of_fmap_2.
  apply Hel, elem_of_seqZ in Hn. lia.
Qed.

(** ** Claims *)

(** C22: Every pending list of a reachable pool can be executed as it stands: its
    transactions are of one account and have consecutive nonces from the account's
    nonce on the chain up to its virtual nonce; an account without pending
    transactions has its nonce on the chain as virtual nonce. *)
Theorem pending_executable ws p a : world_ok ws -> reachable ws p ->
  match Pending p !! a with
  | Some txs => txs <> [] /\ nonce_of p a = currentState p a + Z.of_nat (length txs) /\
      forall i tx, txs !! i = Some tx -> sender tx = a /\ Nonce tx = currentState p a + Z.of_nat i
  | None => nonce_of p a = currentState p a
  end.
Proof.
  intros Hws Hr. destruct (reachable_sound ws p Hws Hr) as [[Hp _ Hnp _] Ht]. destruct (Ht a) as (Hc & Hlt & Hdom).
  unfold Pending. rewrite lookup_fmap. destruct (pending p !! a) as [l|] eqn:Hl; simpl.
  2:{ destruct (decide (currentState p a < nonce_of p a)); [|lia]. assert (is_Some (slot (pending p) a (currentState p a))) as [x Hx] by (apply Hdom; lia).
      unfold slot in Hx. by rewrite Hl in Hx. }
  destruct (lo_list _ _ _ (po_pending _ _ _ Hp) _ _ Hl) as [Hlok _].
  destruct (Flatten_extracts l Hlok) as (_ & _ & _ & Hls). destruct (run_listing p a l Hdom Hl Hlok Hls) as (Hlen & Hrun); [lia|].
  split_and!; [|done|].
  - intros He. rewrite He in Hls. specialize (Hnp _ _ Hl). pose proof (listing_Len l [] Hlok Hls) as H0. simpl in H0.
    unfold Empty in Hnp. by rewrite <- H0 in Hnp.
  - intros i tx Hi. split; [|by apply Hrun]. assert (tx ∈ (Flatten l).1) as Hin by (by eapply list_elem_of_lookup_2).
    apply Hls in Hin. rewrite <- (slot_list (pending p) a l) in Hin by done. by destruct (lo_tx _ _ _ (po_pending _ _ _ Hp) _ _ _ Hin) as (? & _).
Qed.

(** C23: Adding transactions, the eviction tick, setting the threshold and a new head
    return on a reachable pool: no loop runs on, no list is missing, no index is out
    of range.  The transactions added, and those a new head brings back, are such that
    their priority can be computed: there is a first action, it names a contract, and
    the fee parameters are strings where it is the balance contract (a transaction
    without actions panics).  They number fewer than 2^24, with different hashes and
    nonces below 2^64 - 1.  Asking for a threshold that was never set is not among the
    operations: it panics. *)
Theorem pool_total ws p : world_ok ws -> reachable ws p ->
  (forall now tx local, offers ws tx -> exists p' e, addTx now tx local p = Ok (p', e)) /\
  (forall now txs local, Forall (offers ws) txs -> exists p' es, addTxsLocked now txs local p = Ok (p', es) /\ length es = length txs) /\
  (forall now, exists p', evict_tick now p = Ok p') /\
  (forall prio, exists p', SetPriority prio p = Ok p') /\
  (forall GetBlock StateAt Current now old new reinject, reinjects GetBlock old new = Ok (Some reinject) -> Forall (offers ws) reinject ->
     exists p', reset GetBlock StateAt Current now old new p = Ok p').
Proof.
  intros Hws Hr. destruct (reachable_sound ws p Hws Hr) as [Hs _].
  pose proof (offered_inj ws Hws) as Hinj. pose proof (offered_nonce ws Hws) as Hnon. pose proof (offered_small ws Hws) as Hsm. split_and!.
  - intros now tx local (prio & Hp & Hin). destruct (addTx_ok _ Hinj Hnon Hsm now tx local p prio Hs Hp Hin) as (q & e & Hrun & _). eauto.
  - intros now txs local Hall. rewrite Forall_forall in Hall.
    destruct (addTxsLocked_ok _ Hinj Hnon Hsm now local txs p Hs Hall) as (q & es & Hrun & _ & _ & _ & Hlen). eauto.
  - intros now. destruct (evict_ok _ Hinj now (map_to_list (queue p)).*1 p Hs) as (q & Hrun & _). eauto.
  - intros prio. destruct (SetPriority_ok _ Hinj prio p Hs) as (q & Hrun & _). eauto.
  - intros GetBlock StateAt Current now old new reinject Hre Hall. rewrite Forall_forall in Hall.
    destruct (reset_ok _ Hinj Hnon Hsm GetBlock StateAt Current now old new p reinject Hs Hre Hall) as (q & Hrun & _). eauto.
Qed.

(** C24: After a promotion the limits hold: the pending transactions are within
    [GlobalSlots], or every remote account is within [AccountSlots]; the queued ones
    are within [GlobalQueue], or all are of local accounts; and every remote account
    that was looked at has at most [AccountQueue] queued transactions. *)
Theorem pool_limits ws p now accounts : world_ok ws -> reachable ws p ->
  exists p', promoteExecutables now accounts p = Ok p' /\ pending_limited p' /\ queue_limited p' /\
  forall a, match accounts with Some l => a ∈ l | None => True end -> contains p' a = false ->
    Z.of_nat (qlen p' a) <= AccountQueue (config p').
Proof.
  intros Hws Hr. destruct (reachable_sound ws p Hws Hr) as [Hs _].
  destruct (promoteExecutables_ok _ (offered_inj ws Hws) (offered_nonce ws Hws) (offered_small ws Hws) now accounts p Hs)
    as (p' & Hrun & _ & _ & Hpl & Hql & Hw & _). exists p'. by split_and!.
Qed.

(** ** Branches of the chain *)

Section Branches.
Context (GetBlock : Hash -> Z -> option poolBlock).

(** What the chain promises: a block is found under its own hash and number. *)
Definition chain_ok : Prop := forall h n b, GetBlock h n = Some b -> b_hash b = h /\ b_number b = n /\ 0 <= n < 2 ^ 64 - 1.

(** The block [k] below [b], and the transactions in between, [b] included. *)
Fixpoint branch (k : nat) (b : poolBlock) : option (poolBlock * list message) :=
  match k with
  | O => Some (b, [])
  | S k => b' ← parent_of GetBlock b; '(c, txs) ← branch k b'; Some (c, b_txs b ++ txs)
  end.

Hypothesis Hchain : chain_ok.

Lemma parent_number b b' : 0 <= b_number b < 2 ^ 64 - 1 -> parent_of GetBlock b = Some b' ->
  b_number b' = b_number b - 1 /\ 0 <= b_number b' < 2 ^ 64 - 1.
Proof.
  intros Hb Hp. destruct (Hchain _ _ _ Hp) as (_ & Hn & Hr). rewrite <- Hn in Hr. unfold u64, wrap in Hn.
  destruct (decide (b_number b = 0)) as [He|].
  - rewrite He in Hn. change ((0 - 1) mod 2 ^ 64) with (2 ^ 64 - 1) in Hn. lia.
  - rewrite Z.mod_small in Hn by lia. lia.
Qed.

Lemma branch_snoc k b b' d txs c : parent_of GetBlock b = Some b' -> branch k b' = Some (c, d) -> txs = b_txs b ++ d -> branch (S k) b = Some (c, txs).
Proof. intros Hp Hk ->. simpl. rewrite Hp. simpl. by rewrite Hk. Qed.

(** A walk down to a height. *)
Lemma descend_ok fuel : forall b stop txs, 0 <= b_number b < 2 ^ 64 - 1 -> 0 <= stop -> (Z.to_nat (b_number b) < fuel)%nat ->
  (exists k, descend GetBlock fuel b stop txs = Ok None /\ branch k b = None) \/
  exists k c d, descend GetBlock fuel b stop txs = Ok (Some (c, txs ++ d)) /\ branch k b = Some (c, d) /\
    b_number c = Z.min (b_number b) stop /\ b_number c = b_number b - Z.of_nat k /\ 0 <= b_number c < 2 ^ 64 - 1.
Proof.
  induction fuel as [|fuel IH]; intros b stop txs Hb Hs Hf; [lia|]. cbn [descend].
  destruct (Z.ltb_spec stop (b_number b)) as [Hlt|Hge].
  2:{ right. exists 0%nat, b, []. rewrite app_nil_r. split_and!; try done; lia. }
  destruct (parent_of GetBlock b) as [b'|] eqn:Hp; [|left; exists 1%nat; split; [done|]; simpl; by rewrite Hp].
  destruct (parent_number b b' Hb Hp) as [Hn Hr].
  destruct (IH b' stop (txs ++ b_txs b) Hr Hs ltac:(lia)) as [(k & Hrun & Hk)|(k & c & d & Hrun & Hk & Hc & Hck & Hcr)].
  - left. exists (S k). split; [done|]. simpl. rewrite Hp. simpl. by rewrite Hk.
  - right. exists (S k), c, (b_txs b ++ d). rewrite Hrun, <- app_assoc. split_and!; try done; try lia. by eapply branch_snoc.
Qed.

(** The two walks in step. *)
Lemma converge_ok fuel : forall rem add d i, 0 <= b_number rem < 2 ^ 64 - 1 -> b_number add = b_number rem ->
  (Z.to_nat (b_number rem) < fuel)%nat ->
  (exists k, converge GetBlock fuel rem add d i = Ok None /\ (branch k rem = None \/ branch k add = None)) \/
  exists k c c' d' i', converge GetBlock fuel rem add d i = Ok (Some (d ++ d', i ++ i')) /\
    branch k rem = Some (c, d') /\ branch k add = Some (c', i') /\ b_hash c = b_hash c' /\
    forall m x y e f, (m < k)%nat -> branch m rem = Some (x, e) -> branch m add = Some (y, f) -> b_hash x <> b_hash y.
Proof.
  induction fuel as [|fuel IH]; intros rem add d i Hr Hn Hf; [lia|]. cbn [converge].
  case_bool_decide as Hh.
  { right. exists 0%nat, rem, add, [], []. rewrite !app_nil_r. split_and!; try done. intros; lia. }
  destruct (parent_of GetBlock rem) as [rem'|] eqn:Hpr; [|left; exists 1%nat; split; [done|]; left; simpl; by rewrite Hpr].
  destruct (parent_of GetBlock add) as [add'|] eqn:Hpa; [|left; exists 1%nat; split; [done|]; right; simpl; by rewrite Hpa].
  destruct (parent_number rem rem' Hr Hpr) as [Hn1 Hr1]. destruct (parent_number add add' ltac:(lia) Hpa) as [Hn2 Hr2].
  destruct (IH rem' add' (d ++ b_txs rem) (i ++ b_txs add) Hr1 ltac:(lia)) as [(k & Hrun & Hk)|(k & c & c' & d' & i' & Hrun & Hk1 & Hk2 & Hc & Hmin)].
  { destruct (decide (b_number rem = 0)); lia. }
  - left. exists (S k). split; [done|]. simpl. rewrite Hpr, Hpa. simpl. destruct Hk as [Hk|Hk]; rewrite Hk; [by left|by right].
  - right. exists (S k), c, c', (b_txs rem ++ d'), (b_txs add ++ i'). rewrite Hrun, <- !app_assoc.
    split_and!; try done; [by eapply branch_snoc..|].
    intros [|m] x y e f Hm; simpl; [by intros [= <- _] [= <- _]|]. rewrite Hpr, Hpa. simpl.
    intros ((x' & e') & Hx & [= <- _])%bind_Some ((y' & f') & Hy & [= <- _])%bind_Some. by eapply Hmin; [|exact Hx|exact Hy]; lia.
Qed.

Lemma branch_app k1 : forall b c d k2 c2 d2, branch k1 b = Some (c, d) -> branch k2 c = Some (c2, d2) ->
  branch (k1 + k2) b = Some (c2, d ++ d2).
Proof.
  induction k1 as [|k1 IH]; intros b c d k2 c2 d2; simpl.
  - by intros [= -> <-] ->.
  - intros (b' & Hp & ((c' & txs) & Hb & [= -> <-])%bind_Some)%bind_Some H2. rewrite Hp. simpl.
    by rewrite (IH _ _ _ _ _ _ Hb H2), <- app_assoc.
Qed.

Lemma branch_app_None k1 b c d k2 : branch k1 b = Some (c, d) -> branch k2 c = None -> branch (k1 + k2) b = None.
Proof.
  revert b d. induction k1 as [|k1 IH]; intros b d; simpl; [by intros [= -> <-]|].
  intros (b' & Hp & ((c' & txs) & Hb & [= -> <-])%bind_Some)%bind_Some H2. rewrite Hp. simpl. by rewrite (IH _ _ Hb H2).
Qed.
End Branches.

Lemma float64_exact n : n < 2 ^ 53 -> float64 n = n.
Proof. intros Hn. unfold float64, float_of. by destruct (Z.ltb_spec n (2 ^ 53)); [|lia]. Qed.

Lemma elem_TxDifference a b tx : tx ∈ TxDifference a b <-> tx ∈ a /\ TxHash tx ∉ TxHash <$> b.
Proof. unfold TxDifference. rewrite list_elem_of_filter, elem_of_list_to_set. tauto. Qed.

(** C26: On a reorganisation of at most 64 blocks the pool walks both branches down to
    their nearest common block, always ends, and takes back exactly the
    transactions of the abandoned branch that the new branch does not contain;
    it gives up only when a block of a branch is missing. *)
Theorem reorg_reinjects GetBlock old new rem add : chain_ok GetBlock ->
  b_hash old <> b_parent new -> 0 <= b_number old < 2 ^ 53 -> 0 <= b_number new < 2 ^ 53 -> Z.abs (b_number old - b_number new) <= 64 ->
  GetBlock (b_hash old) (b_number old) = Some rem -> GetBlock (b_hash new) (b_number new) = Some add ->
  (reinjects GetBlock (Some old) (Some new) = Ok None /\ exists k, branch GetBlock k rem = None \/ branch GetBlock k add = None) \/
  exists i j c c' discarded included reinject,
    reinjects GetBlock (Some old) (Some new) = Ok (Some reinject) /\
    branch GetBlock i rem = Some (c, discarded) /\ branch GetBlock j add = Some (c', included) /\
    b_hash c = b_hash c' /\ b_number rem - Z.of_nat i = b_number add - Z.of_nat j /\
    (forall m x y e f, (0 < m <= i)%nat -> (m <= j)%nat -> branch GetBlock (i - m) rem = Some (x, e) -> branch GetBlock (j - m) add = Some (y, f) ->
       b_hash x <> b_hash y) /\
    forall tx, tx ∈ reinject <-> tx ∈ discarded /\ TxHash tx ∉ TxHash <$> included.
Proof.
  intros Hch Hpar Hon Hnn Hdepth Hrem Hadd. unfold reinjects. cbn [of_index mbind outcome_bind].
  rewrite bool_decide_false by done. rewrite !(float64_exact (b_number _)) by lia. rewrite (float64_exact (Z.abs _)) by lia.
  destruct (Z.ltb_spec 64 (Z.abs (b_number old - b_number new))); [lia|]. rewrite Hrem, Hadd. cbn [of_index mbind outcome_bind].
  destruct (Hch _ _ _ Hrem) as (_ & En1 & Hr1), (Hch _ _ _ Hadd) as (_ & En2 & Hr2). rewrite <- En1 in Hr1. rewrite <- En2 in Hr2.
  destruct (descend_ok GetBlock Hch (S (Z.to_nat (b_number rem))) rem (b_number add) [] Hr1 ltac:(lia) ltac:(lia))
    as [(k & -> & Hk)|(k1 & r & d1 & -> & Hb1 & Hm1 & Hk1 & Hrr)]; cbn [mbind outcome_bind]; [left; split; [done|]; exists k; by left|].
  destruct (descend_ok GetBlock Hch (S (Z.to_nat (b_number add))) add (b_number r) [] Hr2 ltac:(lia) ltac:(lia))
    as [(k & -> & Hk)|(k2 & a & d2 & -> & Hb2 & Hm2 & Hk2 & Hra)]; cbn [mbind outcome_bind]; [left; split; [done|]; exists k; by right|].
  destruct (converge_ok GetBlock Hch (S (Z.to_nat (b_number r))) r a d1 d2 Hrr ltac:(lia) ltac:(lia))
    as [(k & Hrun & Hk)|(k & c & c' & e1 & e2 & Hrun & Hc1 & Hc2 & Hh & Hmin)]; rewrite !app_nil_l, Hrun; cbn [mbind outcome_bind].
  - left. split; [done|]. destruct Hk as [Hk|Hk]; [exists (k1 + k)%nat; left|exists (k2 + k)%nat; right]; by eapply branch_app_None.
  - right. exists (k1 + k)%nat, (k2 + k)%nat, c, c', (d1 ++ e1), (d2 ++ e2), (TxDifference (d1 ++ e1) (d2 ++ e2)).
    split; [done|]. split_and!; [by eapply branch_app|by eapply branch_app|done|lia| |apply elem_TxDifference].
    intros m x y e f Hmi Hmj Hx Hy. destruct (decide (m <= k)%nat) as [Hmk|Hmk].
    + destruct (branch GetBlock (k - m) r) as [[x' e']|] eqn:Hx'.
      2:{ replace (k1 + k - m)%nat with (k1 + (k - m))%nat in Hx by lia. by rewrite (branch_app_None _ _ _ _ _ _ Hb1 Hx') in Hx. }
      destruct (branch GetBlock (k - m) a) as [[y' f']|] eqn:Hy'.
      2:{ replace (k2 + k - m)%nat with (k2 + (k - m))%nat in Hy by lia. by rewrite (branch_app_None _ _ _ _ _ _ Hb2 Hy') in Hy. }
      replace (k1 + k - m)%nat with (k1 + (k - m))%nat in Hx by lia. replace (k2 + k - m)%nat with (k2 + (k - m))%nat in Hy by lia.
      rewrite (branch_app _ _ _ _ _ _ _ _ Hb1 Hx') in Hx. rewrite (branch_app _ _ _ _ _ _ _ _ Hb2 Hy') in Hy.
      injection Hx as <- _. injection Hy as <- _. by apply (Hmin (k - m)%nat x' y' e' f'); [lia|..].
    + exfalso. lia.
Qed.

(** ** Promotion of an executable transaction *)

Section Liveness.
Context (W : message -> Prop) (W_inj : forall x y, W x -> W y -> TxHash x = TxHash y -> x = y).
Context (W_nonce : forall tx, W tx -> Nonce tx + 1 < 2 ^ 64).
Context (W_small : forall txs, NoDup txs -> (forall tx, tx ∈ txs -> W tx) -> Z.of_nat (length txs) < 2 ^ 24).
Implicit Types (p q : TxPool) (a : Address).

(** Promoting one account adds at most its queue to the pending transactions. *)
Lemma promoted_total p p' a : pool_ok W [] p -> pool_ok W [] p' ->
  (forall b n x, slot (pending p') b n = Some x -> slot (pending p) b n = Some x \/ b = a /\ slot (queue p) a n = Some x) ->
  (total (pending p') <= total (pending p) + qlen p a)%nat.
Proof.
  intros Hp Hp' Hsub. rewrite <- !length_contents.
  set (v := match queue p !! a with Some l => (map_to_list (items (txs l))).*2 | None => [] end).
  assert (length v = qlen p a) as <-.
  { unfold v, qlen. destruct (queue p !! a) as [l|]; [|done]. rewrite length_fmap. done. }
  rewrite <- length_app. apply submseteq_length, NoDup_submseteq; [eapply NoDup_contents, Hp'|].
  intros x Hx%(elem_contents W true _ _ (po_pending _ _ _ Hp')). apply elem_of_app.
  destruct (Hsub _ _ _ Hx) as [Hy|[Ha Hy]]; [left; by apply (elem_contents W true _ _ (po_pending _ _ _ Hp))|right].
  unfold v. unfold slot in Hy. destruct (queue p !! a) as [l|]; [|done]. simpl in Hy. apply list_elem_of_fmap.
  exists (Nonce x, x). split; [done|by apply elem_of_map_to_list].
Qed.

Lemma promoteExecutables_live now p a x : sound W p -> tight p -> slot (queue p) a (nonce_of p a) = Some x ->
  Z.of_nat (total (pending p) + qlen p a) <= GlobalSlots (config p) -> exists p',
  promoteExecutables now (Some [a]) p = Ok p' /\ slot (pending p') a (nonce_of p a) = Some x.
Proof.
  intros [Hp Hcfg Hnp Hnq] Ht Hx Hroom. unfold promoteExecutables. simpl.
  destruct (promote_account_ok W W_inj W_nonce now p a Hp Hcfg) as (p1 & -> & Hp1 & He1 & _ & _ & _ & _ & _ & Hsub & _ & Hlive).
  cbn [mbind outcome_bind]. pose proof (promoted_total p p1 a Hp Hp1 Hsub) as Htot. pose proof (en_config _ _ He1) as Ec1.
  unfold limit_pending. pose proof (total_small W W_small true _ (po_pending _ _ _ Hp1)) as Hsm. rewrite pool_count_total by lia.
  rewrite Ec1. destruct (Z.ltb_spec (GlobalSlots (config p)) (Z.of_nat (total (pending p1)))); [lia|]. cbn [mbind outcome_bind].
  destruct (limit_queue_ok W W_inj W_small p1 Hp1) as (p2 & -> & Hd & _); [by rewrite Ec1|].
  exists p2. split; [done|]. rewrite (dq_pending _ _ _ Hd). by apply Hlive.
Qed.

(** A fresh transaction lengthens the queue of its account by one. *)
Lemma qlen_added p q tx : slot (queue p) (sender tx) (Nonce tx) = None ->
  (forall a n, slot (queue q) a n = if decide (a = sender tx /\ n = Nonce tx) then Some tx else slot (queue p) a n) ->
  qlen q (sender tx) = S (qlen p (sender tx)).
Proof.
  intros Hno Hs. set (l := default (newTxList false) (queue p !! sender tx)).
  assert (qlen p (sender tx) = size (items (txs l))) as ->.
  { unfold qlen, l. destruct (queue p !! sender tx); [by rewrite Len_size|]. simpl. by rewrite map_size_empty. }
  assert (qlen q (sender tx) = size (items (txs (default (newTxList false) (queue q !! sender tx))))) as ->.
  { unfold qlen. destruct (queue q !! sender tx); [by rewrite Len_size|]. simpl. by rewrite map_size_empty. }
  rewrite <- (map_size_insert_None (Nonce tx) tx (items (txs l))); [|unfold l; by rewrite <- slot_default]. f_equal. apply map_eq. intros n.
  rewrite <- slot_default, Hs, lookup_insert. destruct (decide (Nonce tx = n)) as [<-|Hne].
  - by rewrite decide_True.
  - rewrite decide_False by naive_solver. apply slot_default.
Qed.
End Liveness.

(** C25: A new transaction with the next nonce of its account becomes pending at
    once, when the pool has room for it and its queued successors. *)
Theorem executable_promoted ws p now tx local prio : world_ok ws -> reachable ws p ->
  Vm.GetPriority (msg_actions tx) = Ok prio -> set_priority tx prio ∈ ws -> all p !! TxHash tx = None ->
  Z.of_nat (size (all p)) < u64 (GlobalSlots (config p) + GlobalQueue (config p)) ->
  Nonce tx = nonce_of p (sender tx) -> slot (queue p) (sender tx) (Nonce tx) = None ->
  Z.of_nat (total (pending p) + qlen p (sender tx) + 1) <= GlobalSlots (config p) ->
  exists p', addTx now tx local p = Ok (p', None) /\ slot (pending p') (sender tx) (Nonce tx) = Some (set_priority tx prio).
Proof.
  intros Hws Hr Hprio Hin Hnew Hroom Hnext Hfree Hslots. destruct (reachable_sound ws p Hws Hr) as [Hs Ht].
  pose proof (offered_inj ws Hws) as Hinj. pose proof (offered_nonce ws Hws) as Hnon. pose proof (offered_small ws Hws) as Hsm.
  set (t := set_priority tx prio) in *. change (TxHash tx) with (TxHash t) in Hnew.
  change (sender tx) with (sender t) in *. change (Nonce tx) with (Nonce t) in *.
  assert (slot (pending p) (sender t) (Nonce t) = None) as Hpend.
  { destruct (slot (pending p) (sender t) (Nonce t)) eqn:He; [|done]. destruct (Ht (sender t)) as (_ & _ & Hdom).
    assert (currentState p (sender t) <= Nonce t < nonce_of p (sender t)) by (apply Hdom; by rewrite He). lia. }
  unfold addTx, add. rewrite Hprio. cbn [mbind outcome_bind]. fold t.
  rewrite bool_decide_false by (rewrite Hnew; by intros [? ?]).
  destruct (Z.leb_spec (u64 (GlobalSlots (config p) + GlobalQueue (config p))) (Z.of_nat (size (all p)))); [lia|].
  destruct (enqueue_new_ok (offered ws) Hinj t local p Hs Hin Hpend) as (q & r & Hrun & Hq & [Ec Eu] & Ep & En & _ & Hq0).
  destruct (Hq0 Hfree) as [-> Hslot]. rewrite Hrun.
  assert (tight q) as Htq by (apply (tight_same p); [done|done|done|by rewrite Ep]).
  assert (nonce_of q (sender t) = Nonce t) as Hnq by (unfold nonce_of; rewrite En; done).
  destruct (promoteExecutables_live (offered ws) Hinj Hnon Hsm now q (sender t) t Hq Htq) as (p' & Hrun' & Hlive).
  { rewrite Hnq, Hslot. by rewrite decide_True. }
  { rewrite Ec, Ep, (qlen_added p q t Hfree Hslot). lia. }
  rewrite Hnq in Hlive. exists p'. split; [|done].
  destruct (pending p !! sender t) as [l|] eqn:Hl.
  - assert (Overlaps l t = false) as ->.
    { unfold Overlaps, sm_Get. rewrite (slot_list _ _ l) in Hpend by done. by rewrite Hpend. }
    cbn [mbind outcome_bind]. change (sender tx) with (sender t). rewrite Hrun'. done.
  - cbn [mbind outcome_bind]. change (sender tx) with (sender t). rewrite Hrun'. done.
Qed.

(** ** Examples *)

Definition alice_pool : Address := replicate 19 0 ++ [1].
Definition bob_pool : Address := replicate 19 0 ++ [2].

Definition fee_params (n : Z) : list byte :=
  MarshalObject [(str "amount", FormatInt n); (str "from", str "0x00"); (str "funcId", str "2")].

(** A transaction with fee [n]; the last bytes of its hash tell it apart. *)
Definition fee_tx (who : Address) (nonce n : Z) : message :=
  mkMessage (Some who) nonce [mkAction (Some zeroAddress) (fee_params n)] (replicate 29 0 ++ [List.last who 0; nonce; n]) 0.

Definition priced (tx : message) : message :=
  set_priority tx (match Vm.GetPriority (msg_actions tx) with Ok n => n | _ => 0 end).

Definition small_config : TxPoolConfig := mkConfig false [] hour 2 4 3 4 (3 * hour).
Definition genesis_block : poolBlock := mkBlock (replicate 32 1) zeroHash 0 (replicate 32 2) [].
Definition zero_state : Hash -> option (Address -> Z) := fun _ => Some (fun _ => 0).
Definition no_blocks : Hash -> Z -> option poolBlock := fun _ _ => None.

(** The pool of a run that succeeds. *)
Definition get_pool {A} (f : A -> TxPool) (r : outcome unit A) : TxPool := match r with Ok x => f x | _ => blank small_config end.
Definition succeeds {A} (r : outcome unit A) : bool := match r with Ok _ => true | _ => false end.

Lemma succeeds_pool {A} (f : A -> TxPool) (r : outcome unit A) : succeeds r = true -> exists x, r = Ok x /\ get_pool f r = f x.
Proof. destruct r; [|done..]. intros _. by eexists. Qed.

Definition pool0 : TxPool := get_pool (default (blank small_config)) (NewTxPool no_blocks zero_state genesis_block small_config 0).
Definition exOffers : list message :=
  [fee_tx alice_pool 0 5; fee_tx alice_pool 1 6; fee_tx alice_pool 2 7; fee_tx alice_pool 0 9; fee_tx bob_pool 0 3; fee_tx bob_pool 1 3].
Definition exWorld : list message := priced <$> exOffers.

Definition pool_add (tx : message) (p : TxPool) : TxPool := get_pool fst (addTx 1 tx false p).
Definition pool1 : TxPool := pool_add (fee_tx alice_pool 0 5) pool0.
Definition pool3 : TxPool := pool_add (fee_tx alice_pool 2 7) (pool_add (fee_tx alice_pool 1 6) pool1).

Lemma exWorld_ok : world_ok exWorld.
Proof.
  split.
  - apply (bool_decide_unpack _). vm_compute. exact I.
  - apply Forall_forall. apply (bool_decide_unpack _). vm_compute. exact I.
  - vm_compute. reflexivity.
Qed.

Lemma exOffers_ok tx : tx ∈ exOffers -> offers exWorld tx.
Proof.
  intros Hin. assert (forallb (fun tx => match Vm.GetPriority (msg_actions tx) with Ok _ => true | _ => false end) exOffers = true) as Hall
    by (vm_compute; reflexivity).
  rewrite forallb_forall in Hall. specialize (Hall tx ltac:(by apply list_elem_of_In)).
  destruct (Vm.GetPriority (msg_actions tx)) as [n| | |] eqn:Hn; try discriminate Hall. exists n. split; [done|].
  unfold offered, exWorld. apply list_elem_of_fmap. exists tx. unfold priced. rewrite Hn. done.
Qed.

Lemma small_config_ok : config_ok small_config.
Proof. split; vm_compute; try split; (reflexivity || discriminate). Qed.

Lemma pool0_reachable : reachable exWorld pool0.
Proof.
  destruct (succeeds_pool (default (blank small_config)) (NewTxPool no_blocks zero_state genesis_block small_config 0)) as ([p|] & Hp & He);
    [vm_compute; reflexivity| |exfalso; by apply (f_equal (fun r => match r with Ok (Some _) => true | _ => false end)) in Hp].
  unfold pool0. rewrite He. apply (reach_new _ no_blocks zero_state genesis_block small_config 0 (fun _ => 0)); [apply small_config_ok|done|intros a; lia|exact Hp].
Qed.

Lemma pool_add_reachable tx p : reachable exWorld p -> tx ∈ exOffers -> succeeds (addTx 1 tx false p) = true -> reachable exWorld (pool_add tx p).
Proof.
  intros Hr Hin Hs. destruct (succeeds_pool fst (addTx 1 tx false p) Hs) as ([p' e] & Hp & He). unfold pool_add. rewrite He.
  apply (reach_step _ p); [done|]. eapply (step_add _ p 1 tx false p' e); [by apply exOffers_ok|exact Hp].
Qed.

Lemma exOffers_nth i tx : exOffers !! i = Some tx -> tx ∈ exOffers.
Proof. apply list_elem_of_lookup_2. Qed.

Lemma pool1_reachable : reachable exWorld pool1.
Proof. apply pool_add_reachable; [apply pool0_reachable|by apply (exOffers_nth 0)|vm_compute; reflexivity]. Qed.

Lemma pool3_reachable : reachable exWorld pool3.
Proof.
  apply pool_add_reachable; [|by apply (exOffers_nth 2)|vm_compute; reflexivity].
  apply pool_add_reachable; [apply pool1_reachable|by apply (exOffers_nth 1)|vm_compute; reflexivity].
Qed.

Lemma pending_executable_witness : nonce_of pool3 alice_pool = 3 /\ exists txs, Pending pool3 !! alice_pool = Some txs /\
  length txs = 3%nat /\ forall i tx, txs !! i = Some tx -> sender tx = alice_pool /\ Nonce tx = Z.of_nat i.
Proof.
  pose proof (pending_executable exWorld pool3 alice_pool exWorld_ok pool3_reachable) as H.
  assert (currentState pool3 alice_pool = 0) as Hc by (vm_compute; reflexivity). rewrite Hc in H.
  assert (nonce_of pool3 alice_pool = 3) as Hn by (vm_compute; reflexivity). rewrite Hn in H.
  split; [exact Hn|]. destruct (Pending pool3 !! alice_pool) as [txs|]; [|discriminate H].
  destruct H as (_ & Hlen & Hall). exists txs. split; [reflexivity|]. split; [lia|]. intros i tx Hi. destruct (Hall i tx Hi). split; [done|lia].
Defined.

Lemma pool_total_witness : exists p' e, addTx 7 (fee_tx bob_pool 0 3) true pool3 = Ok (p', e).
Proof.
  destruct (pool_total exWorld pool3 exWorld_ok pool3_reachable) as (H & _). apply H. apply exOffers_ok. by apply (exOffers_nth 4).
Defined.

Lemma pool_limits_witness : exists p', promoteExecutables 7 None pool3 = Ok p' /\ pending_limited p' /\ queue_limited p'.
Proof.
  destruct (pool_limits exWorld pool3 7 None exWorld_ok pool3_reachable) as (p' & Hrun & Hp & Hq & _). exists p'.
  split; [exact Hrun|]. split; [exact Hp|exact Hq].
Defined.

Lemma executable_promoted_witness : exists p', addTx 1 (fee_tx alice_pool 1 6) false pool1 = Ok (p', None) /\
  slot (pending p') alice_pool 1 = Some (set_priority (fee_tx alice_pool 1 6) 6).
Proof.
  apply (executable_promoted exWorld pool1 1 (fee_tx alice_pool 1 6) false 6 exWorld_ok pool1_reachable).
  - vm_compute. reflexivity.
  - apply (list_elem_of_lookup_2 _ 1). vm_compute. reflexivity.
  - vm_compute. reflexivity.
  - vm_compute. reflexivity.
  - vm_compute. reflexivity.
  - vm_compute. reflexivity.
  - vm_compute. discriminate.
Defined.

(** A fork of depth one on each side: blocks 1 and 1' over the genesis block. *)
Definition fork_old : poolBlock := mkBlock (replicate 32 3) (replicate 32 1) 1 (replicate 32 2) [fee_tx alice_pool 0 5; fee_tx bob_pool 0 3].
Definition fork_new : poolBlock := mkBlock (replicate 32 4) (replicate 32 1) 1 (replicate 32 2) [fee_tx bob_pool 0 3].
Definition fork_chain (h : Hash) (n : Z) : option poolBlock :=
  if (n =? 1) && bool_decide (h = replicate 32 3) then Some fork_old
  else if (n =? 1) && bool_decide (h = replicate 32 4) then Some fork_new
  else if (n =? 0) && bool_decide (h = replicate 32 1) then Some genesis_block
  else None.

Lemma fork_chain_ok : chain_ok fork_chain.
Proof.
  intros h n b. unfold fork_chain.
  destruct ((n =? 1) && bool_decide (h = replicate 32 3)) eqn:H3.
  { apply andb_true_iff in H3 as [->%Z.eqb_eq ->%bool_decide_eq_true_1]. by intros [= <-]. }
  destruct ((n =? 1) && bool_decide (h = replicate 32 4)) eqn:H4.
  { apply andb_true_iff in H4 as [->%Z.eqb_eq ->%bool_decide_eq_true_1]. by intros [= <-]. }
  destruct ((n =? 0) && bool_decide (h = replicate 32 1)) eqn:H0; [|discriminate].
  apply andb_true_iff in H0 as [->%Z.eqb_eq ->%bool_decide_eq_true_1]. by intros [= <-].
Qed.

Lemma reorg_reinjects_witness : exists reinject, reinjects fork_chain (Some fork_old) (Some fork_new) = Ok (Some reinject) /\
  forall tx, tx ∈ reinject <-> tx ∈ [fee_tx alice_pool 0 5; fee_tx bob_pool 0 3] /\ TxHash tx ∉ TxHash <$> [fee_tx bob_pool 0 3].
Proof.
  destruct (reorg_reinjects fork_chain fork_old fork_new fork_old fork_new fork_chain_ok) as [[Hnone _]|H].
  - discriminate.
  - vm_compute. split; [discriminate|reflexivity].
  - vm_compute. split; [discriminate|reflexivity].
  - vm_compute. discriminate.
  - vm_compute. reflexivity.
  - vm_compute. reflexivity.
  - assert (match reinjects fork_chain (Some fork_old) (Some fork_new) with Ok None => true | _ => false end = false) as Hf by (vm_compute; reflexivity).
    rewrite Hnone in Hf. discriminate Hf.
  - destruct H as (i & j & c & c' & d & inc & r & Hr & Hd & Hi & Hh & Hnum & _ & Hel). exists r. split; [exact Hr|]. intros tx. rewrite Hel.
    assert (i = j) as <- by (change (b_number fork_old) with 1 in Hnum; change (b_number fork_new) with 1 in Hnum; lia).
    destruct i as [|[|i]].
    + injection Hd as <- <-. injection Hi as <- <-. discriminate Hh.
    + assert (branch fork_chain 1 fork_old = Some (genesis_block, [fee_tx alice_pool 0 5; fee_tx bob_pool 0 3])) as Hb1 by (vm_compute; reflexivity).
      assert (branch fork_chain 1 fork_new = Some (genesis_block, [fee_tx bob_pool 0 3])) as Hb2 by (vm_compute; reflexivity).
      rewrite Hb1 in Hd. rewrite Hb2 in Hi. injection Hd as _ <-. injection Hi as _ <-. reflexivity.
    + assert (branch fork_chain (S (S i)) fork_old = None) as Hb by reflexivity. rewrite Hb in Hd. discriminate Hd.
Defined.

(** ** Behaviour to know about *)

(** What the pool says of a transaction, and whether it is pending. *)
Definition report (p : TxPool) (tx : message) : TxStatus * bool * bool :=
  (status p (TxHash tx), bool_decide (is_Some (slot (pending p) (sender tx) (Nonce tx))),
   bool_decide (is_Some (slot (queue p) (sender tx) (Nonce tx)))).

(** A transaction that replaces a pending one is pending, but the pool does not know
    it by its hash, does not announce it, and counts one transaction less. *)
Example replaced_unknown :
  let tx := fee_tx alice_pool 0 9 in
  let p := pool_add tx pool3 in
  report p tx = (TxStatusUnknown, true, false) /\ size (all p) = 2%nat /\ size (all pool3) = 3%nat /\
  bool_decide (TxHash tx ∈ TxHash <$> feed p) = false.
Proof. vm_compute. repeat split. Qed.

(** When the first pending transaction of an account is removed, the others stay
    known but are in no list any more: they are reported as queued, and offering one
    again is refused. *)
Example first_removed_lost :
  let p := get_pool id (SetPriority 6 pool3) in
  report p (fee_tx alice_pool 1 6) = (TxStatusQueued, false, false) /\
  match addTx 2 (fee_tx alice_pool 1 6) false p with Ok (_, Some (ErrKnown _)) => True | _ => False end.
Proof. vm_compute. split; [reflexivity|exact I]. Qed.

(** A full pool drops a transaction to make room for a better one, and then refuses
    the better one too. *)
Definition tiny_config : TxPoolConfig := mkConfig false [] hour 1 1 1 1 (3 * hour).
Definition tiny_pool : TxPool :=
  pool_add (fee_tx bob_pool 0 3) (pool_add (fee_tx alice_pool 0 5) (get_pool (default (blank tiny_config)) (NewTxPool no_blocks zero_state genesis_block tiny_config 0))).

Example full_pool_refuses :
  size (all tiny_pool) = 2%nat /\
  match addTx 2 (fee_tx alice_pool 1 6) false tiny_pool with
  | Ok (p, e) => e = Some ErrPoolFull /\ size (all p) = 1%nat
  | _ => False
  end.
Proof. vm_compute. repeat split. Qed.

(** A transaction without valid signature is pooled, as one of the zero address. *)
Example unsigned_pooled :
  let tx := mkMessage None 0 [mkAction (Some zeroAddress) (fee_params 5)] (replicate 32 9) 0 in
  report (pool_add tx pool0) tx = (TxStatusPending, true, false).
Proof. vm_compute. reflexivity. Qed.

(** A transaction without actions stops the node. *)
Example no_actions_panic : addTx 1 (mkMessage (Some alice_pool) 0 [] (replicate 32 9) 0) false pool0 = Panic.
Proof. vm_compute. reflexivity. Qed.

(** So does asking for the priority threshold before it was set. *)
Example threshold_unset : Priority pool0 = Panic.
Proof. vm_compute. reflexivity. Qed.
