(* ===== verification/Replay.v ===== *)
(** * A block replays as it was produced

    The producer tries transactions one after the other and drops those that are
    rejected; every other node processes the transactions that were kept.  Both
    runs give the same receipts, up to the block hash in the logs, and states
    that answer alike.  Also: what a rejected and what a failed transaction
    leave behind. *)

From stdpp Require Import strings base gmap list.
From S2P Require Import Prelude Types TrieIface Numerals Hex Json StateObject StateDB StateView StateRevert StateHistory.
From S2P Require Import StateInstance StateFlush StateDirty StateFinalise StateFrame StateSim Bloom Heap TxList TxOrder Vm Ledger Processor.
Local Open Scope Z_scope.

Section Replay.
Context {E T : Type} `{StateEnvLaws E T}.
Context (dbGet : list byte -> option (list byte)) (CreateAddress : Address -> Z -> Address).
Abbreviation St := (StateDB E T).
Abbreviation pending := (list ((Z * St) * (Z * St))).

(** ** Contract calls on both sides *)

Definition same_memory (L : pending) (v1 v2 : vstate E T) : Prop :=
  paired L (v_state v1) (v_state v2) /\ v_tmp v1 = v_tmp v2.

Definition twice {A} (L : pending) (m : C E T A) : Prop := forall v1 v2, same_memory L v1 v2 ->
  match m v1, m v2 with
  | Ok (r1, w1), Ok (r2, w2) => r1 = r2 /\ same_memory L w1 w2
  | Panic, Panic => True
  | _, _ => False
  end.

Lemma twice_ret {A} L (a : A) : twice L (mret a).
Proof. by intros v1 v2 Hv. Qed.
Lemma twice_raise {A} L e : twice L (raise e : C E T A).
Proof. by intros v1 v2 Hv. Qed.
Lemma twice_crash {A} L : twice L (crash : C E T A).
Proof. by intros v1 v2 Hv. Qed.

Lemma twice_bind {A B} L (m : C E T A) (k : A -> C E T B) : twice L m -> (forall a, twice L (k a)) -> twice L (m ≫= k).
Proof.
  intros Hm Hk v1 v2 Hv. specialize (Hm v1 v2 Hv). unfold mbind, C_bind.
  destruct (m v1) as [[[e1|a1] w1]| | |], (m v2) as [[[e2|a2] w2]| | |]; try done; destruct Hm as [[=] Hw]; subst; [done|].
  by apply Hk.
Qed.

Lemma twice_on_state {A} L (m : M E T A) : both L m m eq L -> twice L (on_state m).
Proof.
  intros Hm v1 v2 [Hp Ht]. specialize (Hm _ _ Hp). unfold on_state.
  destruct (m (v_state v1)) as [[a1 t1]| | |], (m (v_state v2)) as [[a2 t2]| | |]; try done.
  destruct Hm as [-> Hp']. done.
Qed.

Lemma twice_getTmp {A} L (k : _ -> C E T A) : (forall tmp, twice L (k tmp)) -> twice L (getTmp ≫= k).
Proof.
  intros Hk v1 v2 Hv. pose proof Hv as [_ Ht]. unfold mbind, C_bind, getTmp. rewrite <- Ht. by apply Hk.
Qed.

Lemma twice_GetValue L c k : twice L (GetValue dbGet c k : C E T _).
Proof.
  apply twice_getTmp. intros tmp. destruct (ExistValue _ _ _); [apply twice_ret|].
  apply twice_bind; [apply twice_on_state, both_GetState|intros; apply twice_ret].
Qed.

Lemma twice_SetValue L c k d : twice L (SetValue c k d : C E T unit).
Proof. intros v1 v2 [Hp Ht]. simpl. by rewrite Ht. Qed.

Hint Resolve twice_ret twice_raise twice_crash twice_GetValue twice_SetValue : twice.
Ltac twice :=
  repeat first
    [ progress eauto with twice
    | apply twice_bind
    | progress intros
    | match goal with |- twice _ (match ?x with _ => _ end) => destruct x end ].

Lemma twice_transfer L sys from to amount : twice L (transfer dbGet sys from to amount : C E T _).
Proof. unfold transfer, Sys_GetValue, Sys_SetValue, with_sys, unmarshal_balance. twice. Qed.
Hint Resolve twice_transfer : twice.

Lemma twice_address L param k e : twice L (address_param param k e : C E T _).
Proof. unfold address_param, as_string. twice. Qed.
Lemma twice_amount L param : twice L (amount_param param : C E T _).
Proof. unfold amount_param, as_string. twice. Qed.
Hint Resolve twice_address twice_amount : twice.

Lemma twice_query L sys l : twice L (query_balances dbGet sys l : C E T _).
Proof. induction l; simpl; unfold Sys_GetValue, with_sys; twice. Qed.
Lemma twice_strings L l : twice L (string_list l : C E T _).
Proof. induction l as [|[] l IH]; simpl; twice. Qed.
Hint Resolve twice_query twice_strings : twice.

Lemma twice_function L id f param sys : funcMapper dbGet id = Some f -> twice L (f param sys : C E T _).
Proof.
  unfold funcMapper. destruct (id =? 0); [|destruct (id =? 1); [|destruct (id =? 2); [|destruct (id =? 3); [|done]]]];
    intros [= <-].
  - unfold TransferBalance. twice.
  - unfold RewordBlockProducer, Sys_GetValue, Sys_SetValue, with_sys, unmarshal_balance. twice.
  - unfold TransferFee, Sys_GetCoinbase, with_sys. twice.
  - unfold GetBalance. twice.
Qed.

Lemma twice_SendWork L action sys : twice L (SendWork dbGet action sys : C E T _).
Proof.
  unfold SendWork, Vms_DealAction. destruct (act_Address action) as [a|]; [|apply twice_crash]. simpl.
  case_bool_decide; [|apply twice_raise]. unfold DoFun.
  destruct (UnmarshalMap _) as [param|]; [|apply twice_raise]. destruct (param !! _) as [v|]; [|apply twice_raise].
  apply twice_bind; [destruct v; simpl; twice|]. intros s. destruct (Atoi s) as [id [e|]]; [apply twice_raise|].
  destruct (funcMapper dbGet id) eqn:Hf; [by eapply twice_function|apply twice_raise].
Qed.

(** ** Transactions on both sides *)

Definition same_run (L : pending) (s1 s2 : pstate E T) : Prop :=
  same_memory L (p_vm s1) (p_vm s2) /\ p_cache s1 = p_cache s2.

(** [K] gives the snapshots that are left, by the result. *)
Definition alike {A} (L : pending) (m1 m2 : P E T A) (R : A -> A -> Prop) (K : A -> pending) : Prop :=
  forall s1 s2, same_run L s1 s2 ->
  match m1 s1, m2 s2 with
  | Ok (a1, t1), Ok (a2, t2) => R a1 a2 /\ same_run (K a1) t1 t2
  | Panic, Panic => True
  | _, _ => False
  end.

Lemma alike_ret {A} L (R : A -> A -> Prop) (K : A -> pending) a1 a2 : R a1 a2 -> K a1 = L -> alike L (mret a1) (mret a2) R K.
Proof. intros HR HK s1 s2 Hs. simpl. by rewrite HK. Qed.

Lemma alike_bind {A B} L (m1 m2 : P E T A) R K (k1 k2 : A -> P E T B) Q K' : alike L m1 m2 R K ->
  (forall a1 a2, R a1 a2 -> alike (K a1) (k1 a1) (k2 a2) Q K') -> alike L (m1 ≫= k1) (m2 ≫= k2) Q K'.
Proof.
  intros Hm Hk s1 s2 Hs. specialize (Hm s1 s2 Hs). unfold mbind, P_bind.
  destruct (m1 s1) as [[a1 t1]| | |], (m2 s2) as [[a2 t2]| | |]; try done. destruct Hm as [HR Ht]. by apply Hk.
Qed.

Lemma alike_db {A} L L' (m1 m2 : M E T A) R : both L m1 m2 R L' -> alike L (db m1) (db m2) R (fun _ => L').
Proof.
  intros Hm s1 s2 [[Hp Ht] Hc]. specialize (Hm _ _ Hp). unfold db, p_state.
  destruct (m1 (v_state (p_vm s1))) as [[a1 t1]| | |], (m2 (v_state (p_vm s2))) as [[a2 t2]| | |]; try done. by destruct Hm.
Qed.

Lemma alike_vm {A} L (m : C E T A) : twice L m -> alike L (vm m) (vm m) eq (fun _ => L).
Proof.
  intros Hm s1 s2 [Hv Hc]. specialize (Hm _ _ Hv). unfold vm.
  destruct (m (p_vm s1)) as [[a1 t1]| | |], (m (p_vm s2)) as [[a2 t2]| | |]; try done. by destruct Hm.
Qed.

Lemma alike_cache L k x : alike L (cache_put k x) (cache_put k x) eq (fun _ => L).
Proof. intros s1 s2 [Hv Hc]. simpl. split; [done|]. split; [done|]. simpl. by rewrite Hc. Qed.

Lemma alike_nil {A} L R K : alike L (nil_deref : P E T A) nil_deref R K.
Proof. by intros s1 s2 Hs. Qed.

(** A step that keeps the snapshots, followed by the rest. *)
Lemma alike_step {A B} L (m1 m2 : M E T A) (k1 k2 : A -> P E T B) Q K : both L m1 m2 eq L ->
  (forall a, alike L (k1 a) (k2 a) Q K) -> alike L (db m1 ≫= k1) (db m2 ≫= k2) Q K.
Proof. intros Hm Hk. eapply alike_bind; [by apply alike_db|]. by intros a ? <-. Qed.

Lemma alike_Snapshot {B} L (k1 k2 : Z -> P E T B) Q K :
  (forall id1 id2 g1 g2, alike (((id1, g1), (id2, g2)) :: L) (k1 id1) (k2 id2) Q K) ->
  alike L (db Snapshot ≫= k1) (db Snapshot ≫= k2) Q K.
Proof.
  intros Hk s1 s2 [[Hp Ht] Hc]. destruct (both_Snapshot _ _ _ Hp) as (id1 & id2 & t1 & t2 & G1 & G2 & Hp').
  unfold mbind, P_bind, db, p_state. rewrite G1, G2. by apply (Hk id1 id2 (v_state (p_vm s1)) (v_state (p_vm s2))).
Qed.

Lemma alike_Revert {B} L id1 id2 g1 g2 (k1 k2 : unit -> P E T B) Q K :
  alike L (k1 ()) (k2 ()) Q K ->
  alike (((id1, g1), (id2, g2)) :: L) (db (RevertToSnapshot id1) ≫= k1) (db (RevertToSnapshot id2) ≫= k2) Q K.
Proof. intros Hk. eapply alike_bind; [apply alike_db, both_Revert|]. by intros [] [] _. Qed.

Lemma alike_forget {A} L e (m1 m2 : P E T A) R K : alike L m1 m2 R K -> alike (e :: L) m1 m2 R K.
Proof. intros Hm s1 s2 [[Hp Ht] Hc]. apply Hm. split; [split; [by eapply paired_drop|done]|done]. Qed.

(** ** The state transition *)

Lemma alike_from L a : alike L (from a) (from a) eq (fun _ => L).
Proof.
  apply alike_step; [apply both_Exist|]. intros [|]; [by apply alike_ret|]. apply alike_db, both_CreateAccount.
Qed.

Lemma alike_preCheck L a n : alike L (preCheck a n) (preCheck a n) eq (fun _ => L).
Proof.
  eapply alike_bind; [apply alike_from|]. intros [] [] _. apply alike_step; [apply both_GetNonce|].
  intros n'. by apply alike_ret.
Qed.

Lemma alike_store L l : alike L (store_results l) (store_results l) eq (fun _ => L).
Proof.
  induction l as [|x l IH]; simpl; [by apply alike_ret|].
  apply alike_step; [apply both_SetState, BytesToHash_length|]. intros _.
  eapply alike_bind; [apply alike_cache|]. by intros [] [] _.
Qed.

Lemma alike_actions L sys number actions :
  alike L (run_actions dbGet sys number actions) (run_actions dbGet sys number actions) eq (fun _ => L).
Proof.
  induction actions as [|action actions IH]; simpl; [by apply alike_ret|].
  eapply alike_bind; [apply alike_vm, twice_SendWork|]. intros [e|results] ? <-; [by apply alike_ret|].
  destruct (act_Address action) as [a|]; [|apply alike_nil]. apply alike_step; [apply both_AddLog|]. intros _.
  eapply alike_bind; [exact IH|]. intros r ? <-. by apply alike_ret.
Qed.

Lemma alike_Create L sender actions :
  alike L (Create dbGet CreateAddress sender actions) (Create dbGet CreateAddress sender actions) eq (fun _ => L).
Proof.
  apply alike_step; [apply both_GetNonce|]. intros n. apply alike_step; [apply both_SetNonce|]. intros _.
  apply alike_step; [apply both_GetCodeHash|]. intros h. apply alike_step; [apply both_GetNonce|]. intros m.
  destruct (negb _ || _); [by apply alike_ret|]. apply alike_Snapshot. intros id1 id2 g1 g2.
  apply alike_step; [apply both_CreateAccount|]. intros _. apply alike_step; [apply both_SetNonce|]. intros _.
  destruct actions as [|a0 [|a1 [|]]]; try (by apply alike_Revert, alike_ret).
  eapply alike_bind; [apply alike_vm, twice_SendWork|]. intros [e|results] ? <-; [by apply alike_Revert, alike_ret|].
  destruct (_ <? _); [by apply alike_Revert, alike_ret|]. apply alike_forget.
  apply alike_step; [apply both_SetCode|]. intros _. by apply alike_ret.
Qed.

Lemma alike_TransitionDb L sys number sender nonce actions :
  alike L (TransitionDb dbGet CreateAddress sys number sender nonce actions)
          (TransitionDb dbGet CreateAddress sys number sender nonce actions) eq (fun _ => L).
Proof.
  eapply alike_bind; [apply alike_preCheck|]. intros [e|] ? <-; [by apply alike_ret|].
  eapply alike_bind; [apply alike_from|]. intros [] [] _. apply alike_Snapshot. intros id1 id2 g1 g2.
  destruct (is_creation actions).
  - eapply alike_bind; [apply alike_Create|]. intros [e|results] ? <-; [by apply alike_Revert, alike_ret|].
    apply alike_forget. destruct (head actions ≫= act_Address) as [a|]; [|apply alike_nil].
    apply alike_step; [apply both_AddLog|]. intros _.
    eapply alike_bind; [apply alike_store|]. intros [] [] _. by apply alike_ret.
  - apply alike_step; [apply both_GetNonce|]. intros n. apply alike_step; [apply both_SetNonce|]. intros _.
    eapply alike_bind; [apply alike_actions|]. intros [mem|] ? <-; [|by apply alike_Revert, alike_ret].
    apply alike_forget. eapply alike_bind; [apply alike_store|]. intros [] [] _. by apply alike_ret.
Qed.

(** ** Receipts *)

Record receipt_eq (x y : Receipt) : Prop := {
  re_status : r_Status x = r_Status y;
  re_bloom : r_Bloom x = r_Bloom y;
  re_logs : map without_block (r_Logs x) = map without_block (r_Logs y);
  re_hash : r_TxHash x = r_TxHash y;
  re_address : r_ContractAddress x = r_ContractAddress y;
}.

Definition result_eq (x y : procErr + Receipt) : Prop :=
  match x, y with inl e, inl e' => e = e' | inr r, inr r' => receipt_eq r r' | _, _ => False end.

Lemma log_topics_block l : log_topics (map without_block l) = log_topics l.
Proof. unfold log_topics. induction l as [|x l IH]; [done|].
  rewrite map_cons, !bind_cons, IH. done. Qed.

Lemma alike_Finalise {B} L (k1 k2 : unit -> P E T B) Q K : alike [] (k1 ()) (k2 ()) Q K ->
  alike L (db (Finalise true) ≫= k1) (db (Finalise true) ≫= k2) Q K.
Proof.
  intros Hk s1 s2 [[[(l1 & O1 & _) (l2 & O2 & _) _ Hp Hth Hix] Ht] Hc].
  destruct (both_Finalise _ _ _ _ O1 O2 Hp) as (t1 & t2 & F1 & F2 & Y1%ready_open & Y2%ready_open & He & [] & []).
  unfold mbind, P_bind, db, p_state. rewrite F1, F2. apply Hk. split; [|done]. split; [|done].
  split; try done; [by exists []|by exists []|simpl; congruence..].
Qed.

Lemma alike_ApplyTransaction L sys number tx :
  alike L (ApplyTransaction dbGet CreateAddress sys number tx) (ApplyTransaction dbGet CreateAddress sys number tx) result_eq
    (fun r => match r with inl _ => L | inr _ => [] end).
Proof.
  unfold ApplyTransaction. destruct (msg_from tx) as [sender|]; [|by apply alike_ret].
  eapply alike_bind; [apply alike_TransitionDb|]. intros [e|failed] ? <-; [by apply alike_ret|].
  apply alike_Finalise. eapply alike_bind; [apply alike_db, both_GetLogs|]. intros l1 l2 Hl.
  assert (log_topics l1 = log_topics l2) as Ht by (by rewrite <- (log_topics_block l1), <- (log_topics_block l2), Hl).
  rewrite Ht. destruct (CreateBloom_ok Keccak256 Keccak256_length (log_topics l2)) as (b & Hb & _).
  intros s1 s2 Hs. unfold mbind, P_bind, pure. rewrite Hb. simpl. by split.
Qed.

(** ** What a rejected transaction leaves *)

Definition silent {A} (m : C E T A) : Prop := forall v r w, m v = Ok (r, w) -> v_tmp w = v_tmp v.

Lemma silent_bind {A B} (m : C E T A) (k : A -> C E T B) : silent m -> (forall a, silent (k a)) -> silent (m ≫= k).
Proof.
  intros Hm Hk v r w. unfold mbind, C_bind. destruct (m v) as [[[e|a] u]| | |] eqn:Em; try done.
  - intros [= _ <-]. by apply Hm in Em.
  - intros Hr%Hk. rewrite Hr. by apply Hm in Em.
Qed.
Lemma silent_ret {A} (a : A) : silent (mret a).
Proof. by intros v r w [= _ <-]. Qed.
Lemma silent_raise {A} e : silent (raise e : C E T A).
Proof. by intros v r w [= _ <-]. Qed.
Lemma silent_crash {A} : silent (crash : C E T A).
Proof. done. Qed.
Hint Resolve silent_ret silent_raise silent_crash : silent.

(** Without system parameters nothing is written. *)
Lemma silent_SendWork action : silent (SendWork dbGet action None : C E T _).
Proof.
  intros v r w Hr. pose proof (SendWork_bare dbGet action v (fun _ => None)) as Hb.
  destruct (spec_bare_action action _) as [[x L]|]; [destruct Hb as [Hb _]|]; rewrite Hr in Hb; by simplify_eq.
Qed.

(** When [m] returns a bad result, it has changed neither the values in memory nor
    those collected for the database. *)
Definition quiet {A} (bad : A -> Prop) (m : P E T A) : Prop := forall s a s',
  m s = Ok (a, s') -> bad a -> v_tmp (p_vm s') = v_tmp (p_vm s) /\ p_cache s' = p_cache s.

Definition any {A} (_ : A) : Prop := True.

Lemma quiet_bind {A B} (m : P E T A) (k : A -> P E T B) bad : quiet any m -> (forall a, quiet bad (k a)) -> quiet bad (m ≫= k).
Proof.
  intros Hm Hk s b s'. unfold mbind, P_bind. destruct (m s) as [[a t]| | |] eqn:Em; try done. intros Hr Hb.
  destruct (Hm s a t Em I) as [M1 M2]. destruct (Hk a t b s' Hr Hb) as [K1 K2]. split; congruence.
Qed.
Lemma quiet_ret {A} bad (a : A) : quiet bad (mret a).
Proof. by intros s b s' [= _ <-]. Qed.
Lemma quiet_db {A} bad (m : M E T A) : quiet bad (db m).
Proof. intros s a s'. unfold db. destruct (m _) as [[]| | |]; try done. by intros [= _ <-]. Qed.
Lemma quiet_vm {A} bad (m : C E T A) : silent m -> quiet bad (vm m).
Proof.
  intros Hm s a s'. unfold vm. destruct (m _) as [[]| | |] eqn:Em; try done. intros [= _ <-] _. by apply Hm in Em.
Qed.
Lemma quiet_crash {A} bad : quiet bad (nil_deref : P E T A).
Proof. done. Qed.
(** A computation that ends in a good result. *)
Lemma quiet_good {A B} (bad : B -> Prop) (m : P E T A) b : ~ bad b -> quiet bad (_ ← m; mret b).
Proof.
  intros Hb s a s'. unfold mbind, P_bind. destruct (m s) as [[]| | |]; try done. by intros [= <- _].
Qed.

Definition is_error {A} (r : procErr + A) : Prop := match r with inl _ => True | inr _ => False end.

Lemma quiet_from a : quiet any (from a : P E T unit).
Proof. apply quiet_bind; [apply quiet_db|]. intros [|]; [apply quiet_ret|apply quiet_db]. Qed.

Lemma quiet_preCheck a n : quiet any (preCheck a n : P E T _).
Proof.
  apply quiet_bind; [apply quiet_from|]. intros []. apply quiet_bind; [apply quiet_db|]. intros m. apply quiet_ret.
Qed.

Lemma quiet_Create sender actions : quiet any (Create dbGet CreateAddress sender actions).
Proof.
  unfold Create. do 4 (apply quiet_bind; [apply quiet_db|]; intros ?). destruct (negb _ || _); [apply quiet_ret|].
  do 3 (apply quiet_bind; [apply quiet_db|]; intros ?).
  destruct actions as [|x [|y [|]]]; try (apply quiet_bind; [apply quiet_db|]; intros ?; apply quiet_ret).
  apply quiet_bind; [apply quiet_vm, silent_SendWork|].
  intros [e|r]; [apply quiet_bind; [apply quiet_db|]; intros ?; apply quiet_ret|].
  destruct (_ <? _); (apply quiet_bind; [apply quiet_db|]; intros ?; apply quiet_ret).
Qed.

Lemma quiet_TransitionDb sys number sender nonce actions :
  quiet is_error (TransitionDb dbGet CreateAddress sys number sender nonce actions).
Proof.
  apply quiet_bind; [apply quiet_preCheck|]. intros [e|]; [apply quiet_ret|].
  apply quiet_bind; [apply quiet_from|]. intros []. apply quiet_bind; [apply quiet_db|]. intros id.
  destruct (is_creation actions).
  - apply quiet_bind; [apply quiet_Create|].
    intros [e|results]; [apply quiet_bind; [apply quiet_db|]; intros ?; apply quiet_ret|].
    destruct (head actions ≫= act_Address); [|apply quiet_crash].
    apply quiet_bind; [apply quiet_db|]. intros ?. apply quiet_good. by intros [].
  - do 2 (apply quiet_bind; [apply quiet_db|]; intros ?). intros s x s'. unfold mbind at 1, P_bind at 1.
    destruct (run_actions dbGet sys number actions s) as [[[mem|] t]| | |]; try done.
    + unfold mbind, P_bind. destruct (store_results mem t) as [[]| | |]; try done. intros [= <- _] [].
    + unfold mbind, P_bind. destruct (db _ t) as [[]| | |]; try done. intros [= <- _] [].
Qed.

Lemma quiet_ApplyTransaction sys number tx : quiet is_error (ApplyTransaction dbGet CreateAddress sys number tx).
Proof.
  unfold ApplyTransaction. destruct (msg_from tx) as [sender|]; [|apply quiet_ret]. intros s a s'.
  unfold mbind at 1, P_bind at 1. destruct (TransitionDb _ _ _ _ _ _ _ s) as [[[e|failed] t]| | |] eqn:Ht; try done.
  { intros [= <- <-] _. by apply (quiet_TransitionDb sys number sender (msg_nonce tx) (msg_actions tx) s (inl e)). }
  unfold mbind, P_bind. destruct (db (Finalise true) t) as [[? t1]| | |]; try done.
  destruct (db (GetLogs (msg_hash tx)) t1) as [[l t2]| | |]; try done.
  destruct (pure (CreateBloom Keccak256 (log_topics l)) t2) as [[? t3]| | |]; try done. intros [= <- _] [].
Qed.

(** A rejected attempt returns to the state before it. *)
Lemma rejected_like k s cb number tx e s' : open_at k (p_state s) ->
  commitTransaction dbGet CreateAddress cb number tx s = Ok (inl e, s') ->
  like (p_state s) (p_state s') /\ (exists k', open_at k' (p_state s')) /\
  v_tmp (p_vm s') = v_tmp (p_vm s) /\ p_cache s' = p_cache s.
Proof.
  intros Hk. assert (paired [] (p_state s) (p_state s)) as Hp0 by (split; try done; (exists k; split; [done|apply sublist_nil_l])).
  unfold commitTransaction, mbind at 1, P_bind at 1.
  destruct (both_Snapshot [] _ _ Hp0) as (id & id' & t & t' & Hg & Hg' & Hp).
  rewrite Hg in Hg'. injection Hg' as <- <-. unfold db at 1. rewrite Hg.
  set (s1 := mkP _ _). assert (same_run [((id, p_state s), (id, p_state s))] s1 s1) as Hs by done.
  pose proof (alike_ApplyTransaction _ (Some cb) number tx s1 s1 Hs) as Ha. unfold mbind, P_bind.
  destruct (ApplyTransaction dbGet CreateAddress (Some cb) number tx s1) as [[[e'|receipt] u]| | |] eqn:Hu; try done.
  destruct Ha as [_ [[[(l & Ho & Hl) _ _ _ _ _] _] _]]. simpl in Hl. apply sublist_cons_l in Hl as (p & q & -> & _).
  destruct (open_revert _ _ _ _ _ Ho) as (v & Hv & Hov & Hlk & _). unfold db. change (v_state (p_vm u)) with (p_state u) in Hv. rewrite Hv.
  intros [= _ <-]. destruct (quiet_ApplyTransaction (Some cb) number tx s1 (inl e') u Hu I) as [Q1 Q2].
  split; [done|]. split; [by exists q|]. done.
Qed.

(** ** The block *)

(** Two nodes before the same transaction: their states answer alike. *)
Record replica (s1 s2 : pstate E T) : Prop := {
  rp_left : exists k, open_at k (p_state s1);
  rp_right : exists k, open_at k (p_state s2);
  rp_answers : answers_eq (p_state s1) (p_state s2);
  rp_memory : v_tmp (p_vm s1) = v_tmp (p_vm s2);
  rp_cache : p_cache s1 = p_cache s2;
}.

Lemma same_run_replica L s1 s2 : same_run L s1 s2 -> replica s1 s2.
Proof. intros [[[(k1 & ? & _) (k2 & ? & _) _ ? _ _] ?] ?]. split; eauto. Qed.

Definition prepared (h b : Hash) (i : Z) (s : pstate E T) : pstate E T :=
  mkP (mkV (st_tx (p_state s) h b i) (v_tmp (p_vm s))) (p_cache s).

Lemma open_prepared k h b i s : open_at k (p_state s) -> open_at k (p_state (prepared h b i s)).
Proof. intros Hk. by apply open_step with (p_state s) (OpPrepare h b i). Qed.

Lemma replica_prepared h b1 b2 i s1 s2 : replica s1 s2 -> same_run [] (prepared h b1 i s1) (prepared h b2 i s2).
Proof.
  intros [(k1 & O1) (k2 & O2) [Ha Hl Hs Hr] Ht Hc]. split; [|done]. split; [|done]. split; try done.
  - exists k1. split; [by apply open_prepared|apply sublist_nil_l].
  - exists k2. split; [by apply open_prepared|apply sublist_nil_l].
Qed.

Lemma answers_prepared h b i s : answers_eq (p_state (prepared h b i s)) (p_state s).
Proof. by split. Qed.

(** An attempt that was rejected leaves a replica of what it found. *)
Lemma rejected_replica s1 s2 cb number tx i e s1' : replica s1 s2 ->
  commitTransaction dbGet CreateAddress cb number tx (prepared (msg_hash tx) zeroHash i s1) = Ok (inl e, s1') ->
  replica s1' s2.
Proof.
  intros [(k1 & O1) R A Ht Hc] Hr.
  destruct (rejected_like k1 _ _ _ _ _ _ (open_prepared k1 _ _ _ _ O1) Hr) as (Hlk & O1' & Ht' & Hc').
  simpl in Ht', Hc'. split; try done; try congruence.
  rewrite (state_eq_answers_eq _ _ (lk_eq _ _ Hlk)), answers_prepared. done.
Qed.

(** One that was accepted is processed with the same receipt. *)
Lemma accepted_replica s1 s2 cb number bh tx i x s1' : replica s1 s2 ->
  commitTransaction dbGet CreateAddress cb number tx (prepared (msg_hash tx) zeroHash i s1) = Ok (inr x, s1') ->
  exists y s2', ApplyTransaction dbGet CreateAddress (Some cb) number tx (prepared (msg_hash tx) bh i s2) = Ok (inr y, s2') /\
    receipt_eq x y /\ replica s1' s2'.
Proof.
  intros Hrep. pose proof (replica_prepared (msg_hash tx) zeroHash bh i s1 s2 Hrep) as Hs.
  set (t1 := prepared _ zeroHash _ _) in *. set (t2 := prepared _ bh _ _) in *.
  pose proof Hs as [[[(k1 & O1 & _) Hright Hpen Heq Hth Hix] Ht] Hc].
  destruct (open_snapshot _ _ O1) as (id & u & Hg & Ou & Hu & Huth & Huix).
  unfold commitTransaction, mbind at 1, P_bind at 1. unfold db at 1.
  change (v_state (p_vm t1)) with (p_state t1) in Hg. rewrite Hg. set (u1 := mkP (mkV u _) _).
  assert (same_run [] u1 t2) as Hs'.
  { split; [|done]. split; [|done]. split; try done; simpl; try congruence.
    - exists ((id, p_state t1) :: k1). split; [done|apply sublist_nil_l].
    - rewrite (state_eq_answers_eq _ _ Hu). done. }
  pose proof (alike_ApplyTransaction [] (Some cb) number tx u1 t2 Hs') as Ha. unfold mbind, P_bind.
  destruct (ApplyTransaction dbGet CreateAddress (Some cb) number tx u1) as [[[e|x'] w1]| | |]; try done.
  { destruct (db (RevertToSnapshot id) w1) as [[]| | |]; done. }
  intros [= -> <-]. destruct (ApplyTransaction dbGet CreateAddress (Some cb) number tx t2) as [[[e|y] w2]| | |]; try done;
    destruct Ha as [Hxy Hw]; [done|].
  exists y, w2. split; [done|]. split; [done|]. by eapply same_run_replica.
Qed.

Lemma replay_tried cb number bh e out e' : tried (try_commit dbGet CreateAddress cb number) e out e' ->
  forall s2, replica (est e).1 s2 -> exists new receipts s2',
    (est e').2 = (est e).2 ++ new /\
    process_txs dbGet CreateAddress (Some cb) number bh (tcount e) new.*1 s2 = Ok (inr receipts, s2') /\
    Forall2 receipt_eq new.*2 receipts /\ replica (est e').1 s2'.
Proof.
  induction 1 as [e|e tx r st l e' Htry Htr IH]; intros s2 Hrep.
  { exists [], [], s2. rewrite app_nil_r. done. }
  unfold try_commit in Htry. set (tx' := after_Sender tx) in Htry. cbv zeta in Htry.
  change ((_ ← db (Prepare (msg_hash tx') zeroHash (tcount e)); commitTransaction dbGet CreateAddress cb number tx') (est e).1)
    with (commitTransaction dbGet CreateAddress cb number tx' (prepared (msg_hash tx') zeroHash (tcount e) (est e).1)) in Htry.
  destruct (commitTransaction _ _ _ _ _ _) as [[[err|x] s1']| | |] eqn:Hc; try done; simpl in Htry.
  - pose proof (rejected_replica _ _ _ _ _ _ _ _ Hrep Hc) as Hrep'.
    destruct err; injection Htry as <- <-; simpl in IH; by apply IH.
  - destruct (accepted_replica _ _ _ _ bh _ _ _ _ Hrep Hc) as (y & s2' & Hy & Hxy & Hrep').
    injection Htry as <- <-. simpl in IH. destruct (IH s2' Hrep') as (new & receipts & s2'' & Hnew & Hp & Hrs & Hrep'').
    exists ((tx', x) :: new), (y :: receipts), s2''. rewrite Hnew, <- app_assoc. split; [done|]. split; [|split; [by constructor|done]].
    rewrite fmap_cons. cbn [process_txs fst]. unfold mbind at 1, P_bind at 1.
    change (db (Prepare (msg_hash tx') bh (tcount e)) s2) with (Ok ((), prepared (msg_hash tx') bh (tcount e) s2) : outcome (stateErr E) _).
    unfold mbind, P_bind. rewrite Hy, Hp. done.
Qed.

(** C6: a block replays as it was produced.  From states that answer alike, the
    loop of the producer over any queue of transactions keeps some of them; then
    processing exactly these succeeds, with the receipts of the producer up to the
    block hash in the logs, and after the final [IntermediateRoot] of both sides
    the accounts answer alike, and the values in memory and those collected for
    the database are equal. *)
Theorem block_replays sender cb number bh fuel t (s1 s2 : pstate E T) out e :
  ready (p_state s1) -> ready (p_state s2) -> answers_eq (p_state s1) (p_state s2) ->
  v_tmp (p_vm s1) = v_tmp (p_vm s2) -> p_cache s1 = p_cache s2 ->
  commit_loop sender (try_commit dbGet CreateAddress cb number) fuel t (mkEnv 0 [] (s1, [])) = Ok (out, e) ->
  exists receipts root s1' s2',
    Process dbGet CreateAddress cb number bh (est e).2.*1 s2 = Ok (inr receipts, s2') /\
    Forall2 receipt_eq (est e).2.*2 receipts /\
    db IntermediateRoot (est e).1 = Ok (root, s1') /\ answers_eq (p_state s1') (p_state s2') /\
    v_tmp (p_vm s1') = v_tmp (p_vm s2') /\ p_cache s1' = p_cache s2'.
Proof.
  intros Y1%ready_open Y2%ready_open He Ht Hc Hl%commit_loop_tried.
  destruct (replay_tried cb number bh _ _ _ Hl s2) as (new & receipts & s2' & Hnew & Hp & Hrs & [(k1 & O1) (k2 & O2) A M C]).
  { split; try done; by exists []. }
  simpl in Hnew. rewrite Hnew. unfold Process, mbind, P_bind. cbn [tcount] in Hp. rewrite Hp.
  destruct (both_IntermediateRoot _ _ _ _ O1 O2 A) as (h1 & h2 & t1 & t2 & R1 & R2 & A').
  unfold db. rewrite R1, R2. eexists receipts, h1, _, _. done.
Qed.

End Replay.

(** ** Example *)

Definition exCreator : Address -> Z -> Address := fun a _ => a.
Definition exPstate : pstate unit memTrie := mkP exLedger ∅.

(** Alice pays bob; bob's transaction comes too early and is dropped. *)
Definition exPending : gmap Address (list message) :=
  {[ alice := [mkMessage (Some alice) 0 [mkAction (Some zeroAddress) (txParams 30)] (replicate 32 3) 5];
     bob := [mkMessage (Some bob) 4 [] (replicate 32 4) 7] ]}.
Definition exReward : message :=
  mkMessage (Some zeroAddress) 0 [mkAction (Some zeroAddress) (MakeActionParamsReword (fun _ => replicate 32 0) bob)] (replicate 32 2) 9.
Definition exSigner (tx : message) : Address := default zeroAddress (msg_from tx).

Definition exProduced : option (list (message * attempt Log) * env) :=
  match NewTransactionsByPriorityAndNonce exSigner exPending exReward with
  | Ok t => match commit_loop exSigner (try_commit noDb exCreator bob 1) 10 t (mkEnv 0 [] (exPstate, [])) with
            | Ok r => Some r
            | _ => None
            end
  | _ => None
  end.

Lemma block_replays_witness : exists out e receipts s2', exProduced = Some (out, e) /\
  map (fun x => match x.2 with Executed _ => 1 | NonceTooHigh => 2 | _ => 3 end) out = [1; 2; 1] /\
  Process noDb exCreator bob 1 (replicate 32 9) (est e).2.*1 exPstate = Ok (inr receipts, s2') /\ length receipts = 2%nat.
Proof.
  assert (match exProduced with
          | Some (out, e) => (map (fun x => match x.2 with Executed _ => 1 | NonceTooHigh => 2 | _ => 3 end) out, length (est e).2)
          | None => ([], 0%nat) end = ([1; 2; 1], 2%nat)) as Hout by (vm_compute; reflexivity).
  unfold exProduced in *. destruct (NewTransactionsByPriorityAndNonce exSigner exPending exReward) as [t| | |]; try discriminate.
  destruct (commit_loop exSigner (try_commit noDb exCreator bob 1) 10 t (mkEnv 0 [] (exPstate, []))) as [[out e]| | |] eqn:Hl; try discriminate.
  injection Hout as Ho Hn.
  destruct (block_replays noDb exCreator exSigner bob 1 (replicate 32 9) 10 t exPstate exPstate out e memState_ready memState_ready
              ltac:(reflexivity) eq_refl eq_refl Hl) as (rcs & root & s1' & s2' & Hp & Hf & _).
  exists out, e, rcs, s2'. split; [reflexivity|]. split; [exact Ho|]. split; [exact Hp|].
  apply Forall2_length in Hf. rewrite <- Hf, length_fmap. exact Hn.
Defined.
