(* ===== verification/Execution.v ===== *)
(** * What executing a transaction does

    When a transaction is admitted, and what an admitted one changes: a failed
    one leaves every account as it was, a successful one increases the nonce of
    its sender and stores the hash of every result under the hash of its key. *)

From stdpp Require Import strings base gmap list.
From S2P Require Import Prelude Types Heap TxList TxOrder TrieIface Numerals Hex Json StateObject StateDB StateView StateRevert StateHistory.
From S2P Require Import StateInstance StateFlush StateDirty StateFinalise StateFrame StateSim Bloom Vm Ledger Processor Replay.
Local Open Scope Z_scope.

Section Execution.
Context {E T : Type} `{StateEnvLaws E T}.
Context (dbGet : list byte -> option (list byte)) (CreateAddress : Address -> Z -> Address).
Abbreviation St := (StateDB E T).
Implicit Types (s g : pstate E T).

Definition nonce_of s (a : Address) : Z := a_nonce (account_of (p_state s) a).

(** What the steps before the actions leave of everything but accounts. *)
Record aside s s' : Prop := {
  as_memory : v_tmp (p_vm s') = v_tmp (p_vm s);
  as_cache : p_cache s' = p_cache s;
  as_logs : same_logs (p_state s) (p_state s');
}.

#[export] Instance aside_preorder : PreOrder aside.
Proof.
  split; [by intros s; split|]. intros s1 s2 s3 [] []. split; try congruence. by etransitivity.
Qed.

(** The accounts of [s] after the one at [a] was created if it was missing. *)
Definition with_account (a : Address) s s' : Prop :=
  load (p_state s') a = Some (target (p_state s) a) /\ forall b, b <> a -> load (p_state s') b = load (p_state s) b.

Lemma open_get k (st st' : St) a r : open_at k st -> getStateObject a st = Ok (r, st') ->
  open_at k st' /\ same_logs st st' /\ forall b, load st' b = load st b.
Proof.
  intros Hk Hg. pose proof (open_inv _ _ Hk) as Hi.
  destruct (framed_getStateObject a st r st' (inv_trie _ Hi) Hg) as [_ Hf]. split_and!; [|done|].
  - apply open_step with st (OpGetNonce a); [done|done| |apply Hf]. simpl. unfold GetNonce, mbind, M_bind. by rewrite Hg.
  - destruct (getStateObject_spec st a Hi) as (st2 & Hg' & _ & Hl & _). rewrite Hg in Hg'. injection Hg' as _ <-. apply Hl.
Qed.

(** Rewriting a run step by step. *)
Definition on_accounts s (st : St) : pstate E T := mkP (mkV st (v_tmp (p_vm s))) (p_cache s).

Lemma db_ok {A} (m : M E T A) s a st : m (p_state s) = Ok (a, st) -> db m s = Ok (a, on_accounts s st).
Proof. intros Hm. unfold db. by rewrite Hm. Qed.

Lemma run_step {A B} (m : P E T A) (k : A -> P E T B) s a s' : m s = Ok (a, s') -> (m ≫= k) s = k a s'.
Proof. intros Hm. unfold mbind, P_bind. by rewrite Hm. Qed.

Lemma aside_on s st : same_logs (p_state s) st -> aside s (on_accounts s st).
Proof. done. Qed.

Lemma read_ok {A} (f : option (stateObject E T) -> A) k s a : open_at k (p_state s) -> exists s',
  db (o ← getStateObject a; mret (f o)) s = Ok (f (load (p_state s) a), s') /\ open_at k (p_state s') /\ aside s s' /\
  forall b, load (p_state s') b = load (p_state s) b.
Proof.
  intros Hk. destruct (getStateObject_spec (p_state s) a (open_inv _ _ Hk)) as (t & Hg & _).
  destruct (open_get _ _ _ _ _ Hk Hg) as (Hkt & Hlt & Hld). exists (on_accounts s t). split_and!; try done.
  apply db_ok. unfold mbind, M_bind. by rewrite Hg.
Qed.

Lemma from_spec k s a : open_at k (p_state s) -> exists s',
  from a s = Ok ((), s') /\ open_at k (p_state s') /\ aside s s' /\ with_account a s s'.
Proof.
  intros Hk. destruct (read_ok (fun o => match o with Some _ => true | None => false end) k s a Hk) as (t & Hg & Hkt & Hat & Hld).
  unfold from, Exist. rewrite (run_step _ _ _ _ _ Hg). destruct (load (p_state s) a) as [o|] eqn:Ho.
  - exists t. split; [done|]. split_and!; try done. split; [|done]. unfold target. by rewrite Hld, Ho.
  - pose proof (open_inv _ _ Hkt) as Hit.
    destruct (CreateAccount_sets (p_state t) a Hit) as (u & Hc & _ & Hother & o & Hu & _ & ->).
    destruct (framed_CreateAccount a (p_state t) () u (inv_trie _ Hit) Hc) as [_ Hf].
    exists (on_accounts t u). split; [by apply db_ok|].
    split; [by apply open_step with (p_state t) (OpCreateAccount a); [..|apply Hf]|].
    split; [etransitivity; [exact Hat|by apply aside_on]|]. split; [unfold target; by rewrite Ho|].
    intros b Hb. change (p_state (on_accounts t u)) with u. by rewrite Hother, Hld.
Qed.

Definition verdict (n nonce : Z) : option procErr :=
  if n <? nonce then Some ErrNonceTooHigh else if nonce <? n then Some ErrNonceTooLow else None.

Lemma target_nonce (st : St) a : Nonce (data (target st a)) = a_nonce (account_of st a).
Proof. unfold target, account_of. by destruct (load st a). Qed.

Lemma GetNonce_db k s a : open_at k (p_state s) -> exists s',
  db (GetNonce a) s = Ok (nonce_of s a, s') /\ open_at k (p_state s') /\ aside s s' /\
  forall b, load (p_state s') b = load (p_state s) b.
Proof.
  intros Hk. destruct (read_ok (fun o => match o with Some so => Nonce (data so) | None => 0 end) k s a Hk) as (t & Hg & Hrest).
  exists t. split; [|done]. unfold GetNonce. rewrite Hg. unfold nonce_of, account_of. by destruct (load (p_state s) a).
Qed.

Lemma preCheck_spec k s a n : open_at k (p_state s) -> exists s',
  preCheck a n s = Ok (verdict (nonce_of s a) n, s') /\ open_at k (p_state s') /\ aside s s' /\ with_account a s s'.
Proof.
  intros Hk. destruct (from_spec k s a Hk) as (t & Hf & Hkt & Ha & Hw & Ho).
  destruct (GetNonce_db k t a Hkt) as (u & Hg & Hku & Hau & Hu).
  unfold preCheck. rewrite (run_step _ _ _ _ _ Hf), (run_step _ _ _ _ _ Hg). exists u. split_and!; try done.
  - unfold verdict, nonce_of. unfold account_of at 1 2. rewrite Hw. simpl. by rewrite target_nonce.
  - by etransitivity.
  - split; [by rewrite Hu|]. intros b Hb. by rewrite Hu, Ho.
Qed.

(** A second [from], once the account exists. *)
Lemma from_again k s a : open_at k (p_state s) -> is_Some (load (p_state s) a) -> exists s',
  from a s = Ok ((), s') /\ open_at k (p_state s') /\ aside s s' /\ forall b, load (p_state s') b = load (p_state s) b.
Proof.
  intros Hk [o Ho]. destruct (from_spec k s a Hk) as (t & Hf & Hkt & Ha & Hw & Hoth). exists t. split_and!; try done.
  intros b. destruct (decide (b = a)) as [->|]; [|by apply Hoth]. rewrite Hw, Ho. unfold target. by rewrite Ho.
Qed.

(** ** Up to the actions *)

(** The rest of [TransitionDb] once the nonce was increased. *)
Definition finish (sys : option Address) (number : Z) (actions : list Action) (id : Z) : P E T (procErr + bool) :=
  r ← run_actions dbGet sys number actions;
  match r with
  | None => _ ← db (RevertToSnapshot id); mret (inr true)
  | Some mem => _ ← store_results mem; mret (inr false)
  end.

(** The same when a contract is created: first the rest of [Create], once its
    address is known. *)
Definition create_account (contractAddr : Address) (actions : list Action) : P E T (procErr + list ActionResult) :=
  snapshot ← db Snapshot;
  _ ← db (CreateAccount contractAddr);
  _ ← db (SetNonce contractAddr 1);
  match actions with
  | [a0; a1] =>
      result ← vm (SendWork dbGet a0 None);
      match result with
      | inl _ => _ ← db (RevertToSnapshot snapshot); mret (inr [])
      | inr results =>
          if MaxCodeSize <? Z.of_nat (length (act_Params a1))
          then _ ← db (RevertToSnapshot snapshot); mret (inl CodeTooLong)
          else _ ← db (SetCode contractAddr (Some (act_Params a1))); mret (inr results)
      end
  | _ => _ ← db (RevertToSnapshot snapshot); mret (inl CodeTooLong)
  end.

Definition create_rest (sender : Address) (nonce : Z) (actions : list Action) : P E T (procErr + list ActionResult) :=
  let contractAddr := CreateAddress sender nonce in
  contractHash ← db (GetCodeHash contractAddr);
  n ← db (GetNonce contractAddr);
  if negb (n =? 0) || (negb (bool_decide (contractHash = zeroHash)) && negb (bool_decide (contractHash = BytesToHash emptyCodeHash)))
  then mret (inl AddressCollision)
  else create_account contractAddr actions.

Definition finish_creation (number : Z) (sender : Address) (nonce : Z) (actions : list Action) (id : Z) : P E T (procErr + bool) :=
  r ← create_rest sender nonce actions;
  match r with
  | inl e => _ ← db (RevertToSnapshot id); mret (inl e)
  | inr results =>
      match head actions ≫= act_Address with
      | None => nil_deref
      | Some a =>
          _ ← db (AddLog (MakeLog a results number));
          _ ← store_results (mem_of a results);
          mret (inr false)
      end
  end.

(** The account of the sender with its new nonce. *)
Definition bumped (o : stateObject E T) (n : Z) (o' : stateObject E T) : Prop :=
  Nonce (data o') = n /\ codeHashBytes (data o') = codeHashBytes (data o) /\ cview o' = cview o /\
  (forall k, sview o' k = sview o k) /\ suicided o' = suicided o.

Record started (a : Address) (nonce : Z) s g t (id : Z) : Prop := {
  sd_accounts : with_account a s g;
  sd_aside : aside s g;
  sd_aside' : aside s t;
  sd_sender : exists o, load (p_state t) a = Some o /\ bumped (target (p_state s) a) (u64 (nonce + 1)) o;
  sd_others b : b <> a -> load (p_state t) b = load (p_state s) b;
}.

Lemma SetNonce_ok k s a n : open_at k (p_state s) -> exists s', db (SetNonce a n) s = Ok ((), s') /\
  open_at k (p_state s') /\ aside s s' /\ (forall b, b <> a -> load (p_state s') b = load (p_state s) b) /\
  exists o, load (p_state s') a = Some o /\ bumped (target (p_state s) a) n o.
Proof.
  intros Hk. pose proof (open_inv _ _ Hk) as Hi.
  destruct (SetNonce_sets (p_state s) a n Hi) as (u & Hs & _ & Hother & o & Ho & _ & Hb).
  destruct (framed_SetNonce a n (p_state s) () u (inv_trie _ Hi) Hs) as [_ Hf].
  exists (on_accounts s u). split_and!; [by apply db_ok| |by apply aside_on|done|by exists o].
  by apply open_step with (p_state s) (OpSetNonce a n); [..|apply Hf].
Qed.

Lemma TransitionDb_begin k s sys number a nonce actions : open_at k (p_state s) ->
  nonce_of s a = nonce -> exists g id t, open_at k (p_state g) /\ open_at ((id, p_state g) :: k) (p_state t) /\
  started a nonce s g t id /\
  TransitionDb dbGet CreateAddress sys number a nonce actions s =
    if is_creation actions then finish_creation number a nonce actions id t else finish sys number actions id t.
Proof.
  intros Hk Hn. destruct (preCheck_spec k s a nonce Hk) as (s1 & Hp & Hk1 & A1 & W1 & O1).
  destruct (from_again k s1 a Hk1) as (g & Hf & Hkg & Ag & Lg); [by eexists|].
  destruct (open_snapshot k (p_state g) Hkg) as (id & u & Hs & Hku & Heq & Hth & Hix).
  set (s2 := on_accounts g u).
  assert (forall b, load (p_state s2) b = load (p_state g) b) as L2 by (injection Hs as _ <-; done).
  assert (aside g s2) as A2 by (injection Hs as _ <-; done).
  destruct (GetNonce_db _ s2 a Hku) as (s3 & Hg & Hk3 & A3 & L3).
  destruct (SetNonce_ok _ s3 a (u64 (nonce_of s2 a + 1)) Hk3) as (t & Ht & Hkt & A4 & O4 & o & Ho & Hb).
  assert (nonce_of s2 a = nonce) as Hn2.
  { unfold nonce_of, account_of. rewrite L2, Lg, W1. simpl. rewrite target_nonce. done. }
  assert (target (p_state s3) a = target (p_state s) a) as Ht3 by (unfold target; by rewrite L3, L2, Lg, W1).
  exists g, id, t. split; [done|]. split; [done|]. split.
  - split.
    + split; [by rewrite Lg|]. intros b Hbn. by rewrite Lg, O1.
    + by transitivity s1.
    + transitivity s1; [done|]. transitivity g; [done|]. transitivity s2; [done|]. by transitivity s3.
    + exists o. rewrite Hn2, Ht3 in Hb. done.
    + intros b Hbn. by rewrite O4, L3, L2, Lg, O1.
  - unfold TransitionDb. rewrite (run_step _ _ _ _ _ Hp). unfold verdict. rewrite Hn, Z.ltb_irrefl.
    rewrite (run_step _ _ _ _ _ Hf), (run_step _ _ _ _ _ (db_ok _ _ _ _ Hs)).
    destruct (is_creation actions); [|by rewrite (run_step _ _ _ _ _ Hg), (run_step _ _ _ _ _ Ht)].
    unfold finish_creation, mbind at 1, P_bind at 1. unfold Create. fold s2.
    rewrite (run_step _ _ _ _ _ Hg), (run_step _ _ _ _ _ Ht), Hn2. done.
Qed.

Lemma TransitionDb_start k s sys number a nonce actions : open_at k (p_state s) -> is_creation actions = false ->
  nonce_of s a = nonce -> exists g id t, open_at k (p_state g) /\ open_at ((id, p_state g) :: k) (p_state t) /\
  started a nonce s g t id /\
  TransitionDb dbGet CreateAddress sys number a nonce actions s = finish sys number actions id t.
Proof.
  intros Hk Hc Hn. destruct (TransitionDb_begin k s sys number a nonce actions Hk Hn) as (g & id & t & Hr).
  rewrite Hc in Hr. by exists g, id, t.
Qed.

(** ** The actions *)

Definition same_accounts s s' : Prop := forall a, opt_rel same_obj (load (p_state s') a) (load (p_state s) a).

Lemma same_accounts_trans s1 s2 s3 : same_accounts s1 s2 -> same_accounts s2 s3 -> same_accounts s1 s3.
Proof. intros S1 S2 a. by transitivity (load (p_state s2) a). Qed.

Lemma run_actions_accounts cb number actions : length cb = 20%nat -> forall s r s', Inv (p_state s) ->
  run_actions dbGet (Some cb) number actions s = Ok (r, s') -> same_accounts s s' /\ p_cache s' = p_cache s.
Proof.
  intros Hcb. induction actions as [|action actions IH]; intros s r s' Hi; simpl.
  { intros [= _ <-]. split; [|done]. intros a. reflexivity. }
  pose proof (SendWork_sim dbGet cb action Hcb (p_vm s) (record_at dbGet (p_vm s) BalanceTransferAddress) Hi (agrees_self _ _)) as Hsim.
  unfold mbind at 1, P_bind at 1, vm. destruct (spec_action cb action _) as [[x L']|]; [|by rewrite Hsim].
  destruct Hsim as (v & -> & Hkept & _). set (s1 := mkP v _).
  assert (same_accounts s s1) as S1 by (intros a; apply (se_load _ _ (kept_eq _ _ Hkept))).
  pose proof (kept_Inv _ _ Hkept) as Hi1. destruct x as [e|results]; [by intros [= _ <-]|].
  destruct (act_Address action) as [a|]; [|done]. unfold mbind at 1, P_bind at 1.
  destruct (exec_undoable (p_state s1) (OpAddLog (MakeLog a results number)) Hi1) as (u & Hu & Hund). simpl in Hu.
  rewrite (db_ok _ s1 _ _ Hu). set (s2 := on_accounts s1 u).
  assert (same_accounts s1 s2) as S2 by (injection Hu as <-; intros b; reflexivity).
  unfold mbind, P_bind. destruct (run_actions dbGet (Some cb) number actions s2) as [[r' s3]| | |] eqn:Hr; try done.
  intros [= _ <-]. destruct (IH s2 r' s3 (undoable_Inv _ _ Hund) Hr) as [S3 C3]. split; [|done].
  apply same_accounts_trans with s1; [done|]. by apply same_accounts_trans with s2.
Qed.

(** ** A transaction that fails *)

(** What the actions leave of the snapshots. *)
Lemma run_actions_open k s g id sys number actions r s' : open_at ((id, p_state g) :: k) (p_state s) ->
  run_actions dbGet sys number actions s = Ok (r, s') -> exists p q, open_at (p ++ (id, p_state g) :: q) (p_state s').
Proof.
  intros Hk Hr. set (L := [((id, p_state g), (id, p_state g))]).
  assert (same_run L s s) as Hs.
  { split; [|done]. split; [|done].
    split; try done; try (exists ((id, p_state g) :: k); split; [done|apply sublist_skip, sublist_nil_l]). by constructor. }
  pose proof (alike_actions dbGet L sys number actions s s Hs) as Ha. rewrite Hr in Ha.
  destruct Ha as [_ [[[(l & Ho & Hl) _ _ _ _ _] _] _]]. simpl in Hl. apply sublist_cons_l in Hl as (p & q & -> & _). eauto.
Qed.

Lemma finish_reverts k s g id sys number actions u : open_at ((id, p_state g) :: k) (p_state s) ->
  run_actions dbGet sys number actions s = Ok (None, u) -> exists s', finish sys number actions id s = Ok (inr true, s') /\
  like (p_state g) (p_state s') /\ (exists k', open_at k' (p_state s')) /\
  p_cache s' = p_cache u /\ v_tmp (p_vm s') = v_tmp (p_vm u).
Proof.
  intros Hk Hr. destruct (run_actions_open _ _ _ _ _ _ _ _ _ Hk Hr) as (p & q & Ho).
  destruct (open_revert _ _ _ _ _ Ho) as (v & Hv & Hov & Hlk & _). exists (on_accounts u v).
  split_and!; try done; [|by exists q]. unfold finish. rewrite (run_step _ _ _ _ _ Hr).
  by rewrite (run_step _ _ _ _ _ (db_ok _ u _ _ Hv)).
Qed.

Lemma finish_failed k s g id cb number actions s' : open_at ((id, p_state g) :: k) (p_state s) -> length cb = 20%nat ->
  finish (Some cb) number actions id s = Ok (inr true, s') ->
  like (p_state g) (p_state s') /\ (exists k', open_at k' (p_state s')) /\ p_cache s' = p_cache s.
Proof.
  intros Hk Hcb Hf. assert (exists u, run_actions dbGet (Some cb) number actions s = Ok (None, u)) as (u & Hr).
  { unfold finish, mbind, P_bind in Hf. destruct (run_actions dbGet (Some cb) number actions s) as [[[mem|] u]| | |]; try done; [|by exists u].
    by destruct (store_results mem u) as [[]| | |]. }
  destruct (finish_reverts _ _ _ _ _ _ _ _ Hk Hr) as (v & Hv & Hlk & Ho & Hc & _). rewrite Hf in Hv. injection Hv as <-.
  destruct (run_actions_accounts cb number actions Hcb s None u (open_inv _ _ Hk) Hr) as [_ Hc']. split_and!; try done. congruence.
Qed.

Lemma verdict_None n m : verdict n m = None <-> n = m.
Proof. unfold verdict. destruct (Z.ltb_spec n m); [|destruct (Z.ltb_spec m n)]; split; try done; lia. Qed.

(** The state after [Finalise] and the receipt. *)
Lemma receipt_ok k s tx sender failed : open_at k (p_state s) -> exists receipt s' u,
  Finalise true (p_state s) = Ok ((), u) /\ s' = on_accounts s u /\
  (_ ← db (Finalise true);
   logs ← db (GetLogs (msg_hash tx));
   bloom ← pure (CreateBloom Keccak256 (log_topics logs));
   mret (inr (mkReceipt (NewReceipt failed) bloom logs (msg_hash tx)
     (if is_creation (fill_address <$> msg_actions tx) then CreateAddress sender (msg_nonce tx) else zeroAddress)) : procErr + Receipt)) s
  = Ok (inr receipt, s') /\ r_Status receipt = NewReceipt failed /\ r_Logs receipt = logs_at u (msg_hash tx).
Proof.
  intros Hk. destruct (open_Finalise k (p_state s) Hk) as (u & Hu & _).
  destruct (CreateBloom_ok Keccak256 Keccak256_length (log_topics (logs_at u (msg_hash tx)))) as (b & Hb & _).
  eexists _, _, u. split; [done|]. split; [done|]. rewrite (run_step _ _ _ _ _ (db_ok _ _ _ _ Hu)).
  rewrite (run_step _ _ _ _ _ (db_ok (GetLogs (msg_hash tx)) (on_accounts s u) (logs_at u (msg_hash tx)) u eq_refl)).
  unfold mbind, P_bind, pure. rewrite Hb. done.
Qed.

(** Finalising brings back the accounts of a live state, though an empty one was
    added. *)
Lemma finalise_back s g r u a : ready (p_state s) -> with_account a s g -> state_eq r (p_state g) ->
  (forall b, match load r b with
    | Some o => if suicided o || empty o then load u b = None else exists o', load u b = Some o' /\ same_obj o' o
    | None => load u b = None
    end) -> forall b, opt_rel same_obj (load u b) (load (p_state s) b).
Proof.
  intros (_ & _ & Hlive) [Ha Hother] Hr Hu b. specialize (Hu b). pose proof (se_load _ _ Hr b) as Hb.
  assert (forall o, load (p_state s) b = Some o -> load (p_state g) b = Some o) as Hg.
  { intros o Ho. destruct (decide (b = a)) as [->|Hne]; [|by rewrite Hother]. rewrite Ha. unfold target. by rewrite Ho. }
  destruct (load (p_state s) b) as [o|] eqn:Ho.
  - rewrite (Hg o eq_refl) in Hb. destruct (load r b) as [o'|]; [|done]. simpl in Hb.
    destruct (Hlive b o Ho) as [Hsu He]. rewrite (so_suicided _ _ Hb), (empty_view _ _ (same_obj_view _ _ Hb)), Hsu, He in Hu.
    destruct Hu as (x & -> & Hx). simpl. by rewrite Hx.
  - destruct (decide (b = a)) as [->|Hne].
    + rewrite Ha in Hb. destruct (load r a) as [o'|]; [|done]. simpl in Hb. unfold target in Hb. rewrite Ho in Hb. simpl in Hb.
      rewrite (empty_view _ _ (same_obj_view _ _ Hb)) in Hu. change (empty (freshObject a)) with (bool_decide (@emptyCodeHash E T _ = emptyCodeHash)) in Hu.
      rewrite bool_decide_true, orb_true_r in Hu by done. by rewrite Hu.
    + rewrite Hother, Ho in Hb by done. destruct (load r b); [done|]. by rewrite Hu.
Qed.

(** An accepted transaction that creates no contract: its nonce was the one
    expected, and this is the rest of its run. *)
Lemma ApplyTransaction_run s sys number tx receipt s' : ready (p_state s) -> is_creation (msg_actions tx) = false ->
  ApplyTransaction dbGet CreateAddress sys number tx s = Ok (inr receipt, s') ->
  exists a g id t failed v u, msg_from tx = Some a /\ nonce_of s a = msg_nonce tx /\
    open_at [] (p_state g) /\ open_at [(id, p_state g)] (p_state t) /\ started a (msg_nonce tx) s g t id /\
    finish sys number (msg_actions tx) id t = Ok (inr failed, v) /\
    (exists k, open_at k (p_state v)) /\ Finalise true (p_state v) = Ok ((), u) /\ s' = on_accounts v u /\
    r_Status receipt = NewReceipt failed /\ r_Logs receipt = logs_at u (msg_hash tx).
Proof.
  intros Hy%ready_open Hc. unfold ApplyTransaction. destruct (msg_from tx) as [a|]; [|done]. unfold mbind at 1, P_bind at 1.
  destruct (TransitionDb dbGet CreateAddress sys number a (msg_nonce tx) (msg_actions tx) s) as [[[e|failed] v]| | |] eqn:Ht; try done.
  assert (nonce_of s a = msg_nonce tx) as Hn.
  { apply verdict_None. destruct (preCheck_spec [] s a (msg_nonce tx) Hy) as (s1 & Hp & _).
    unfold TransitionDb in Ht. rewrite (run_step _ _ _ _ _ Hp) in Ht. by destruct (verdict _ _). }
  destruct (TransitionDb_start [] s sys number a (msg_nonce tx) (msg_actions tx) Hy Hc Hn) as (g & id & t & Hg & Hkt & Hst & Hrun).
  assert (exists k, open_at k (p_state v)) as (k & Hkv).
  { pose proof (alike_TransitionDb dbGet CreateAddress [] sys number a (msg_nonce tx) (msg_actions tx) s s) as Ha.
    rewrite Ht in Ha. destruct Ha as [_ [[[(k & Ho & _) _ _ _ _ _] _] _]]; [|by exists k].
    split; [|done]. split; [|done]. split; try done; by exists []. }
  destruct (receipt_ok k v tx a failed Hkv) as (rc & w & u & Hu & -> & Hrc & Hst' & Hlg). rewrite Hrc. intros [= <- <-].
  rewrite Hrun in Ht. exists a, g, id, t, failed, v, u. split_and!; try done. by exists k.
Qed.

(** Every result of [m] satisfies [Q]. *)
Definition yielding {A} (m : P E T A) (Q : A -> Prop) : Prop := forall s x s', m s = Ok (x, s') -> Q x.

Lemma yielding_ret {A} (a : A) (Q : A -> Prop) : Q a -> yielding (mret a) Q.
Proof. by intros Ha s x s' [= <- _]. Qed.
Lemma yielding_bind {A B} (m : P E T A) (k : A -> P E T B) Q : (forall a, yielding (k a) Q) -> yielding (m ≫= k) Q.
Proof. intros Hk s x s'. unfold mbind, P_bind. destruct (m s) as [[a t]| | |]; try done. apply Hk. Qed.
Lemma yielding_then {A B} (m : P E T A) (k : A -> P E T B) R Q : yielding m R -> (forall a, R a -> yielding (k a) Q) -> yielding (m ≫= k) Q.
Proof. intros Hm Hk s x s'. unfold mbind, P_bind. destruct (m s) as [[a t]| | |] eqn:Ha; try done. by apply Hk, (Hm s a t). Qed.

(** A creation never has status 0: it succeeds or is refused. *)
Lemma creation_not_failed sys number a nonce actions : is_creation actions = true ->
  yielding (TransitionDb dbGet CreateAddress sys number a nonce actions) (fun r => r <> inr true).
Proof.
  intros Hc. unfold TransitionDb. rewrite Hc. apply yielding_bind. intros [e|]; [by apply yielding_ret|].
  do 2 (apply yielding_bind; intros ?). apply yielding_bind. intros [e|l]; [apply yielding_bind; intros ?; by apply yielding_ret|].
  destruct (head actions ≫= act_Address) as [b|]; [|done]. do 2 (apply yielding_bind; intros ?). by apply yielding_ret.
Qed.

Lemma failed_no_creation s sys number tx receipt s' :
  ApplyTransaction dbGet CreateAddress sys number tx s = Ok (inr receipt, s') -> r_Status receipt = 0 -> is_creation (msg_actions tx) = false.
Proof.
  intros Hr H0'. apply not_true_is_false. intros Hc.
  cut (yielding (ApplyTransaction dbGet CreateAddress sys number tx) (fun x => forall r, x = inr r -> r_Status r <> 0)).
  { intros Hp. by apply (Hp s (inr receipt) s' Hr receipt). }
  unfold ApplyTransaction. destruct (msg_from tx) as [a|]; [|by apply yielding_ret].
  eapply yielding_then; [by apply creation_not_failed|]. intros [e|[|]] Hx; [by apply yielding_ret|done|].
  do 3 (apply yielding_bind; intros ?). apply yielding_ret. by intros r [= <-].
Qed.

(** C30: a failed transaction (status 0) leaves every account as it was: existence,
    nonce, code, storage and suicide flag, the nonce of its sender included;
    nothing is collected for the database, and its receipt has no new logs. *)
Theorem failed_transaction s cb number tx receipt s' : ready (p_state s) -> length cb = 20%nat ->
  ApplyTransaction dbGet CreateAddress (Some cb) number tx s = Ok (inr receipt, s') -> r_Status receipt = 0 ->
  ready (p_state s') /\ same_accounts s s' /\ p_cache s' = p_cache s /\
  r_Logs receipt = logs_at (p_state s) (msg_hash tx).
Proof.
  intros Hy Hcb Hr H0'. pose proof (failed_no_creation _ _ _ _ _ _ Hr H0') as Hc.
  destruct (ApplyTransaction_run s _ _ _ _ _ Hy Hc Hr) as (a & g & id & t & failed & v & u & Hf & Hn & Hg & Hk & Hst & Hfin & (k & Hkv) & Hu & -> & Hs & Hl).
  destruct failed; [|by rewrite Hs in H0']. destruct (finish_failed [] t g id cb number (msg_actions tx) v Hk Hcb Hfin) as (Hlk & _ & Hcache).
  destruct (open_Finalise k (p_state v) Hkv) as (u' & Hu' & Hry & [Lu _ _ _] & _ & Hv). rewrite Hu in Hu'. injection Hu' as <-.
  split; [done|]. split; [|split].
  - intros b. apply (finalise_back s g (p_state v) u a); try done; [apply Hst|apply Hlk].
  - simpl. rewrite Hcache. apply (as_cache _ _ (sd_aside' _ _ _ _ _ _ Hst)).
  - rewrite Hl. unfold logs_at. rewrite Lu, (se_logs _ _ (lk_eq _ _ Hlk)). by rewrite (sl_logs _ _ (as_logs _ _ (sd_aside _ _ _ _ _ _ Hst))).
Qed.

(** The test a transaction has to pass. *)
Definition admission s tx : option procErr :=
  match msg_from tx with
  | None => Some InvalidSender
  | Some a => verdict (nonce_of s a) (msg_nonce tx)
  end.

Lemma finish_accepts sys number actions id s e s' : finish sys number actions id s <> Ok (inl e, s').
Proof.
  unfold finish, mbind, P_bind. destruct (run_actions dbGet sys number actions s) as [[[mem|] u]| | |]; try done.
  - by destruct (store_results mem u) as [[]| | |].
  - by destruct (db (RevertToSnapshot id) u) as [[]| | |].
Qed.

Lemma ApplyTransaction_admission k s sys number tx r s' : open_at k (p_state s) -> is_creation (msg_actions tx) = false ->
  ApplyTransaction dbGet CreateAddress sys number tx s = Ok (r, s') ->
  match admission s tx with Some e => r = inl e | None => exists receipt, r = inr receipt end.
Proof.
  intros Hk Hc. unfold ApplyTransaction, admission. destruct (msg_from tx) as [a|]; [|by intros [= <- _]].
  unfold mbind at 1, P_bind at 1. destruct (verdict (nonce_of s a) (msg_nonce tx)) as [e|] eqn:Hv.
  - destruct (preCheck_spec k s a (msg_nonce tx) Hk) as (t & Hp & _). rewrite Hv in Hp.
    unfold TransitionDb. rewrite (run_step _ _ _ _ _ Hp). by intros [= <- _].
  - apply verdict_None in Hv.
    destruct (TransitionDb_start k s sys number a (msg_nonce tx) (msg_actions tx) Hk Hc Hv) as (g & id & t & _ & _ & _ & ->).
    destruct (finish sys number (msg_actions tx) id t) as [[[e|failed] u]| | |] eqn:Hf; try done; [by apply finish_accepts in Hf|].
    unfold mbind, P_bind. destruct (db (Finalise true) u) as [[? t1]| | |]; try done.
    destruct (db (GetLogs (msg_hash tx)) t1) as [[l t2]| | |]; try done.
    destruct (pure (CreateBloom Keccak256 (log_topics l)) t2) as [[? t3]| | |]; try done. intros [= <- _]. eauto.
Qed.

(** C31: a transaction that creates no contract is accepted exactly when its
    signature is valid and its nonce is the next one of its sender; otherwise the
    producer reports the error of the failing test, and every answer of the account
    state, the values in memory and the values collected for the database are as
    before the attempt. *)
Theorem admission_exact s cb number tx r s' : ready (p_state s) -> is_creation (msg_actions tx) = false ->
  commitTransaction dbGet CreateAddress cb number tx s = Ok (r, s') ->
  match admission s tx with Some e => r = inl e | None => exists receipt, r = inr receipt end /\
  (is_error r -> ready (p_state s') /\ (forall q, answer_of (p_state s') q = answer_of (p_state s) q) /\
     v_tmp (p_vm s') = v_tmp (p_vm s) /\ p_cache s' = p_cache s).
Proof.
  intros Hy Hc Hr. pose proof (ready_open _ Hy) as Ho. split.
  - destruct (open_snapshot [] (p_state s) Ho) as (id & u & Hs & Hku & Heq & _).
    unfold commitTransaction in Hr. rewrite (run_step _ _ _ _ _ (db_ok _ s _ _ Hs)) in Hr. set (s1 := on_accounts s u) in *.
    assert (admission s1 tx = admission s tx) as Ha.
    { unfold admission. destruct (msg_from tx) as [a|]; [|done]. unfold nonce_of.
      destruct (state_eq_account _ _ a Heq) as (Hn & _). change (p_state s1) with u. by rewrite Hn. }
    unfold mbind at 1, P_bind at 1 in Hr.
    destruct (ApplyTransaction dbGet CreateAddress (Some cb) number tx s1) as [[r1 t]| | |] eqn:Happ; try done.
    pose proof (ApplyTransaction_admission _ s1 _ _ _ _ _ Hku Hc Happ) as Hadm. rewrite Ha in Hadm.
    destruct r1 as [e|receipt].
    + unfold mbind, P_bind in Hr. destruct (db (RevertToSnapshot id) t) as [[]| | |]; try done. by injection Hr as <- _.
    + by injection Hr as <- _.
  - destruct r as [e|receipt]; [|done]. intros _.
    destruct (rejected_like dbGet CreateAddress [] s cb number tx e s' Ho Hr) as (Hlk & (k & Hk) & Ht & Hca).
    split_and!; try done; [by apply ready_like with k (p_state s)|]. intros q. by apply state_eq_answers, lk_eq.
Qed.

End Execution.

(** ** Examples *)


(** The second action of this transaction names no contract. *)
Definition exFailing : message :=
  mkMessage (Some alice) 0 [mkAction (Some zeroAddress) (txParams 30); mkAction (Some alice) []] (replicate 32 7) 0.

Definition exFailed : procErr + Receipt :=
  match ApplyTransaction noDb exCreator (Some bob) 1 exFailing exPstate with Ok (r, _) => r | _ => inl InvalidSender end.

Lemma failed_transaction_witness : exists receipt s',
  ApplyTransaction noDb exCreator (Some bob) 1 exFailing exPstate = Ok (inr receipt, s') /\ r_Status receipt = 0 /\
  nonce_of s' alice = nonce_of exPstate alice.
Proof.
  assert (match exFailed with inr r => r_Status r | inl _ => 9 end = 0) as Hst by (vm_compute; reflexivity).
  unfold exFailed in Hst. destruct (ApplyTransaction noDb exCreator (Some bob) 1 exFailing exPstate) as [[[e|receipt] s']| | |] eqn:Hr; try discriminate Hst.
  exists receipt, s'. split; [reflexivity|]. split; [exact Hst|].
  destruct (failed_transaction noDb exCreator exPstate bob 1 exFailing receipt s' memState_ready eq_refl Hr Hst) as (_ & Ha & _).
  unfold nonce_of, account_of. specialize (Ha alice).
  destruct (load (p_state s') alice), (load (p_state exPstate) alice); try (destruct Ha); [assumption|reflexivity].
Defined.

Definition exEarly : message := mkMessage (Some alice) 5 [mkAction (Some zeroAddress) (txParams 30)] (replicate 32 8) 0.

Lemma admission_exact_witness : exists s', commitTransaction noDb exCreator bob 1 exEarly exPstate = Ok (inl ErrNonceTooHigh, s') /\
  p_cache s' = ∅.
Proof.
  destruct (commitTransaction noDb exCreator bob 1 exEarly exPstate) as [[r s']| | |] eqn:Hr.
  - destruct (admission_exact noDb exCreator exPstate bob 1 exEarly r s' memState_ready eq_refl Hr) as [Ha Hb].
    assert (admission exPstate exEarly = Some ErrNonceTooHigh) as Hadm by (vm_compute; reflexivity).
    rewrite Hadm in Ha. subst r. exists s'. split; [reflexivity|]. destruct (Hb I) as (_ & _ & _ & Hc). exact Hc.
  - assert (match commitTransaction noDb exCreator bob 1 exEarly exPstate with Ok _ => true | _ => false end = true) as Hb
      by (vm_compute; reflexivity). rewrite Hr in Hb. discriminate Hb.
  - assert (match commitTransaction noDb exCreator bob 1 exEarly exPstate with Ok _ => true | _ => false end = true) as Hb
      by (vm_compute; reflexivity). rewrite Hr in Hb. discriminate Hb.
  - assert (match commitTransaction noDb exCreator bob 1 exEarly exPstate with Ok _ => true | _ => false end = true) as Hb
      by (vm_compute; reflexivity). rewrite Hr in Hb. discriminate Hb.
Defined.
