(* ===== verification/Creation.v ===== *)
(** * Creating a contract

    The branch of the state transition that creates a contract: which address is
    refused, when the first action aborts the creation, and what a creation leaves
    in the accounts.  The receipt never names the contract. *)

From stdpp Require Import strings base gmap list.
From S2P Require Import Prelude Types TrieIface Numerals Hex Json StateObject StateDB StateView StateRevert StateHistory.
From S2P Require Import StateInstance StateFlush StateDirty StateFinalise StateFrame StateSim Bloom Vm Ledger Processor Replay Execution.
Local Open Scope Z_scope.

Section Creation.
Context {E T : Type} `{StateEnvLaws E T}.
Context (dbGet : list byte -> option (list byte)) (CreateAddress : Address -> Z -> Address).
Abbreviation St := (StateDB E T).
Implicit Types (s t g : pstate E T).

(** ** Code *)

(** The answer of [GetCodeHash]. *)
Definition codeHash_at (st : St) (a : Address) : Hash :=
  match load st a with Some o => BytesToHash (codeHashBytes (data o)) | None => zeroHash end.

(** The hash of code, unless there is none. *)
Definition coded (h : Hash) : option Hash :=
  if bool_decide (h = zeroHash) || bool_decide (h = BytesToHash (@emptyCodeHash E T _)) then None else Some h.

Definition code_of s (a : Address) : option Hash := coded (codeHash_at (p_state s) a).

(** An address with a nonce or code is not given to a contract. *)
Definition taken (n : Z) (c : option Hash) : bool := negb (n =? 0) || match c with Some _ => true | None => false end.

Lemma coded_empty : coded (BytesToHash (@emptyCodeHash E T _)) = None.
Proof. unfold coded. by rewrite (bool_decide_true (_ = BytesToHash (@emptyCodeHash E T _))), orb_true_r by done. Qed.

Lemma taken_test n h : negb (n =? 0) || (negb (bool_decide (h = zeroHash)) && negb (bool_decide (h = BytesToHash (@emptyCodeHash E T _)))) =
  taken n (coded h).
Proof. unfold taken, coded. f_equal. by destruct (bool_decide _), (bool_decide _). Qed.

Lemma code_target (st : St) a : coded (BytesToHash (codeHashBytes (data (target st a)))) = coded (codeHash_at st a).
Proof.
  unfold target, codeHash_at. destruct (load st a) as [o|]; [done|].
  change (coded (BytesToHash (@emptyCodeHash E T _)) = coded zeroHash). rewrite coded_empty. unfold coded. by rewrite bool_decide_true.
Qed.

Lemma code_ext s s' a : opt_rel same_obj (load (p_state s') a) (load (p_state s) a) -> code_of s' a = code_of s a.
Proof.
  unfold code_of, codeHash_at. destruct (load (p_state s') a), (load (p_state s) a); try done. intros Hs. by rewrite (so_codeHash _ _ Hs).
Qed.

Lemma GetCodeHash_db k s a : open_at k (p_state s) -> exists s',
  db (GetCodeHash a) s = Ok (codeHash_at (p_state s) a, s') /\ open_at k (p_state s') /\ aside s s' /\
  forall b, load (p_state s') b = load (p_state s) b.
Proof. intros Hk. apply (read_ok (fun o => match o with Some so => BytesToHash (codeHashBytes (data so)) | None => zeroHash end) k s a Hk). Qed.

(** ** The test of the address *)

Lemma create_reads k t sender nonce actions : open_at k (p_state t) ->
  let c := CreateAddress sender nonce in exists t', open_at k (p_state t') /\ aside t t' /\
  (forall b, load (p_state t') b = load (p_state t) b) /\
  create_rest dbGet CreateAddress sender nonce actions t =
    (if taken (nonce_of t c) (code_of t c) then mret (inl AddressCollision) else create_account dbGet c actions) t'.
Proof.
  intros Hk c. destruct (GetCodeHash_db k t c Hk) as (t1 & H1' & K1 & A1 & L1).
  destruct (GetNonce_db k t1 c K1) as (t2 & H2' & K2 & A2 & L2). exists t2. split_and!; try done.
  - by transitivity t1.
  - intros b. by rewrite L2.
  - unfold create_rest. rewrite (run_step _ _ _ _ _ H1'), (run_step _ _ _ _ _ H2'), taken_test.
    unfold code_of. assert (nonce_of t1 c = nonce_of t c) as -> by (unfold nonce_of, account_of; by rewrite L1).
    by destruct (taken _ _).
Qed.

(** ** The new account *)

Lemma CreateAccount_ok k s a : open_at k (p_state s) -> exists s', db (CreateAccount a) s = Ok ((), s') /\
  open_at k (p_state s') /\ aside s s' /\ (forall b, b <> a -> load (p_state s') b = load (p_state s) b) /\
  load (p_state s') a = Some (freshObject a).
Proof.
  intros Hk. pose proof (open_inv _ _ Hk) as Hi.
  destruct (CreateAccount_sets (p_state s) a Hi) as (u & Hc & _ & Hother & o & Ho & _ & ->).
  destruct (framed_CreateAccount a (p_state s) () u (inv_trie _ Hi) Hc) as [_ Hf].
  exists (on_accounts s u). split_and!; [by apply db_ok| |by apply aside_on|done|done].
  by apply open_step with (p_state s) (OpCreateAccount a); [..|apply Hf].
Qed.

(** The account of a contract with the given code. *)
Record contract_obj (code : list byte) (o : stateObject E T) : Prop := {
  co_nonce : Nonce (data o) = 1;
  co_hash : codeHashBytes (data o) = BytesToHash (Keccak256 code);
  co_code : cview o = Some code;
  co_storage k : sview o k = zeroHash;
  co_suicided : suicided o = false;
}.

Lemma SetCode_ok k s a code o : open_at k (p_state s) -> load (p_state s) a = Some o -> bumped (freshObject a) 1 o ->
  exists s', db (SetCode a (Some code)) s = Ok ((), s') /\ open_at k (p_state s') /\ aside s s' /\
  (forall b, b <> a -> load (p_state s') b = load (p_state s) b) /\
  exists o', load (p_state s') a = Some o' /\ contract_obj code o'.
Proof.
  intros Hk Ho (Bn & _ & _ & Bs & Bu). pose proof (open_inv _ _ Hk) as Hi.
  destruct (SetCode_sets (p_state s) a (Some code) Hi) as (u & Hc & _ & Hother & o' & Ho' & _ & N & Hh & Hv & Hs & Hu).
  destruct (framed_SetCode a (Some code) (p_state s) () u (inv_trie _ Hi) Hc) as [_ Hf].
  exists (on_accounts s u). split_and!; [by apply db_ok| |by apply aside_on|done|].
  - by apply open_step with (p_state s) (OpSetCode a (Some code)); [..|apply Hf].
  - exists o'. split; [done|]. assert (target (p_state s) a = o) as Ht by (unfold target; by rewrite Ho). rewrite Ht in *.
    split; try done; [congruence|intros h; by rewrite Hs, Bs, sview_fresh|by rewrite Hu, Bu].
Qed.

(** The account is there before the first action runs. *)
Lemma create_begins k t c : open_at k (p_state t) -> exists id u, open_at ((id, p_state t) :: k) (p_state u) /\ aside t u /\
  (forall b, b <> c -> load (p_state u) b = load (p_state t) b) /\
  (exists o, load (p_state u) c = Some o /\ bumped (freshObject c) 1 o) /\
  forall a0 a1, create_account dbGet c [a0; a1] t =
    (result ← vm (SendWork dbGet a0 None);
     match result with
     | inl _ => _ ← db (RevertToSnapshot id); mret (inr [])
     | inr results =>
         if MaxCodeSize <? Z.of_nat (length (act_Params a1))
         then _ ← db (RevertToSnapshot id); mret (inl CodeTooLong)
         else _ ← db (SetCode c (Some (act_Params a1))); mret (inr results)
     end) u.
Proof.
  intros Hk. destruct (open_snapshot k (p_state t) Hk) as (id & x & Hs & Hkx & _). set (t1 := on_accounts t x).
  assert (forall b, load (p_state t1) b = load (p_state t) b) as L1 by (injection Hs as _ <-; done).
  assert (aside t t1) as A1 by (injection Hs as _ <-; done).
  destruct (CreateAccount_ok _ t1 c Hkx) as (t2 & Hc & K2 & A2 & O2 & F2).
  destruct (SetNonce_ok _ t2 c 1 K2) as (u & Hn & Ku & A3 & O3 & o & Ho & Hb).
  exists id, u. split_and!; try done.
  - transitivity t1; [done|]. by transitivity t2.
  - intros b Hb'. by rewrite O3, O2, L1.
  - exists o. split; [done|]. unfold target in Hb. by rewrite F2 in Hb.
  - intros a0 a1. unfold create_account. rewrite (run_step _ _ _ _ _ (db_ok _ _ _ _ Hs)). fold t1.
    by rewrite (run_step _ _ _ _ _ Hc), (run_step _ _ _ _ _ Hn).
Qed.

(** What is left by [create_account], by the result of the first action. *)
Lemma create_account_spec k t c a0 a1 L : open_at k (p_state t) ->
  match spec_bare_action a0 L with
  | None => create_account dbGet c [a0; a1] t = Panic
  | Some (inl _, _) => exists t', create_account dbGet c [a0; a1] t = Ok (inr [], t') /\ open_at k (p_state t') /\
      v_tmp (p_vm t') = v_tmp (p_vm t) /\ p_cache t' = p_cache t /\ same_accounts t t'
  | Some (inr results, _) =>
      if MaxCodeSize <? Z.of_nat (length (act_Params a1))
      then exists t', create_account dbGet c [a0; a1] t = Ok (inl CodeTooLong, t') /\ open_at k (p_state t')
      else exists t' k' o, create_account dbGet c [a0; a1] t = Ok (inr results, t') /\ open_at (k' ++ k) (p_state t') /\
        v_tmp (p_vm t') = v_tmp (p_vm t) /\ p_cache t' = p_cache t /\
        (forall b, b <> c -> load (p_state t') b = load (p_state t) b) /\
        load (p_state t') c = Some o /\ contract_obj (act_Params a1) o
  end.
Proof.
  intros Hk. destruct (create_begins k t c Hk) as (id & u & Ku & Au & Ou & (o & Ho & Hb) & Hrun). rewrite Hrun.
  pose proof (SendWork_bare dbGet a0 (p_vm u) L) as Hbare.
  assert (forall x, SendWork dbGet a0 None (p_vm u) = Ok (x, p_vm u) -> vm (SendWork dbGet a0 None) u = Ok (x, u)) as Hvm
    by (intros x Hx; unfold vm; rewrite Hx; by destruct u).
  destruct (open_revert [] id (p_state t) k (p_state u) Ku) as (r & Hr & Kr & Hlk & _).
  destruct (spec_bare_action a0 L) as [[[e|results] L']|]; [..|unfold mbind, P_bind, vm; by rewrite Hbare];
    destruct Hbare as [Hbare _]; rewrite (run_step _ _ _ _ _ (Hvm _ Hbare)).
  - exists (on_accounts u r). rewrite (run_step _ _ _ _ _ (db_ok _ _ _ _ Hr)).
    split_and!; try done; [apply Au..|]. intros b. apply (se_load _ _ (lk_eq _ _ Hlk)).
  - destruct (MaxCodeSize <? _).
    + exists (on_accounts u r). by rewrite (run_step _ _ _ _ _ (db_ok _ _ _ _ Hr)).
    + destruct (SetCode_ok _ u c (act_Params a1) o Ku Ho Hb) as (v & Hv & Kv & Av & Ov & o' & Ho' & Hco).
      exists v, [(id, p_state t)], o'. rewrite (run_step _ _ _ _ _ Hv).
      destruct Au as [? ? _], Av as [? ? _]. split_and!; try done; try congruence. intros b Hb'. by rewrite Ov, Ou.
Qed.

(** Results of the first action: they have no key. *)
Definition yields {A} (f : Spec A) (P : A -> Prop) : Prop := forall L r L', f L = Some (inr r, L') -> P r.

Lemma yields_ret {A} (a : A) (P : A -> Prop) : P a -> yields (mret a) P.
Proof. by intros Ha L r L' [= <- _]. Qed.
Lemma yields_fails {A} e (P : A -> Prop) : yields (fails e) P.
Proof. done. Qed.
Lemma yields_panics {A} (P : A -> Prop) : yields panics P.
Proof. done. Qed.
Lemma yields_bind {A B} (f : Spec A) (g : A -> Spec B) P : (forall a, yields (g a) P) -> yields (f ≫= g) P.
Proof. intros Hg L r L'. unfold mbind, Spec_bind. destruct (f L) as [[[e|a] L1]|]; try done. apply Hg. Qed.

Definition unkeyed (results : list ActionResult) : Prop := Forall (fun x => res_Key x = []) results.

Lemma bare_unkeyed param id : yields (spec_bare_function param id) unkeyed.
Proof.
  unfold spec_bare_function. destruct (id =? 0).
  { do 3 (apply yields_bind; intros ?). destruct (decide _); [by apply yields_ret; constructor|apply yields_panics]. }
  destruct (id =? 1); [apply yields_bind; intros ?; apply yields_panics|].
  destruct (id =? 2); [apply yields_bind; intros ?; apply yields_panics|].
  destruct (id =? 3); [|apply yields_fails]. destruct (param !! _) as [[| | | |l|]|]; try apply yields_fails.
  destruct (all_strings l) as [[|]|]; [by apply yields_ret; repeat constructor|apply yields_panics|apply yields_fails].
Qed.

Lemma bare_results action L r L' : spec_bare_action action L = Some (r, L') ->
  (exists a, act_Address action = Some a) /\
  (forall results, r = inr results -> act_Address action = Some BalanceTransferAddress /\ unkeyed results).
Proof.
  unfold spec_bare_action. destruct (act_Address action) as [a|]; [|done]. intros Hs. split; [by eexists|]. intros results ->.
  destruct (decide (a = BalanceTransferAddress)) as [->|]; [|done]. split; [done|]. revert Hs. unfold spec_call.
  destruct (UnmarshalMap _) as [param|]; [|done]. destruct (param !! _) as [v|]; [|done].
  apply (yields_bind (spec_string v) _ unkeyed). intros x. destruct (Atoi x) as [id [e|]]; [apply yields_fails|apply bare_unkeyed].
Qed.

Lemma AddLog_ok k s l : open_at k (p_state s) -> exists s', db (AddLog l) s = Ok ((), s') /\ open_at k (p_state s') /\
  v_tmp (p_vm s') = v_tmp (p_vm s) /\ p_cache s' = p_cache s /\ forall b, load (p_state s') b = load (p_state s) b.
Proof.
  intros Hk. destruct (exec_undoable (p_state s) (OpAddLog l) (open_inv _ _ Hk)) as (u & Hu & _). simpl in Hu.
  exists (on_accounts s u). split; [by apply db_ok|]. split; [by apply open_step with (p_state s) (OpAddLog l); [..|injection Hu as <-]|].
  split; [done|]. split; [done|]. injection Hu as <-. done.
Qed.

(** ** Receipts *)

Lemma filled_no_creation actions : is_creation (fill_address <$> actions) = false.
Proof.
  destruct actions as [|a0 [|a1 [|]]]; try done. simpl. unfold fill_address. destruct (act_Address a1) eqn:Ha; simpl; [by rewrite Ha|done].
Qed.

(** No receipt names the contract its transaction created: the test is made on the
    actions of the transaction, where no address is nil any more. *)
Lemma receipt_without_contract sys number tx s receipt s' :
  ApplyTransaction dbGet CreateAddress sys number tx s = Ok (inr receipt, s') -> r_ContractAddress receipt = zeroAddress.
Proof.
  unfold ApplyTransaction. destruct (msg_from tx) as [a|]; [|done]. rewrite filled_no_creation. unfold mbind, P_bind.
  destruct (TransitionDb _ _ _ _ _ _ _ s) as [[[e|failed] t]| | |]; try done.
  destruct (db (Finalise true) t) as [[? t1]| | |]; try done.
  destruct (db (GetLogs (msg_hash tx)) t1) as [[l t2]| | |]; try done.
  destruct (pure (CreateBloom Keccak256 (log_topics l)) t2) as [[? t3]| | |]; try done. by intros [= <- _].
Qed.

End Creation.
