(* ===== verification/BlockSpec.v ===== *)
(** * What processing a block does to the accounts and the ledger

    An abstract specification of blocks: nonces, the code hashes of contracts and
    the ledger of balances, with the transition of one transaction and of a list of
    them.  The processor implements it on every branch: rejection by signature or
    nonce, failure of an action, success, and the creation of a contract with its
    own errors.  Nonces are below the last one of 64 bits, and the account of the
    balance contract has a nonce or code.  Successful transactions moreover leave
    behind, in storage and in the values collected for the database, the ledger
    that the next block reads. *)

From stdpp Require Import strings base gmap list.
From S2P Require Import Prelude Types Heap TxList TxOrder TrieIface Numerals Hex Json StateObject StateDB StateView StateRevert StateHistory.
From S2P Require Import StateInstance StateFlush StateDirty StateFinalise StateFrame StateSim Genesis Bloom Vm Ledger Processor Replay Execution Creation.
Local Open Scope Z_scope.

(** ** The specification *)

(** The actions of a transaction: [None] when one of them panics; the results of
    all, or nothing when one failed, with the ledger reached. *)
Fixpoint spec_actions (cb : Address) (actions : list Action) (L : ledger) : option (option (list MemDatabase) * ledger) :=
  match actions with
  | [] => Some (Some [], L)
  | action :: actions =>
      match spec_action cb action L, act_Address action with
      | Some (inr results, L), Some a =>
          match spec_actions cb actions L with
          | Some (r, L) => Some ((fun l => mem_of a results ++ l) <$> r, L)
          | None => None
          end
      | Some (inl _, L), _ => Some (None, L)
      | _, _ => None
      end
  end.

Section Effects.
Context {E T : Type} `{StateEnvLaws E T}.
Context (dbGet : list byte -> option (list byte)).
Abbreviation V := (vstate E T).
Implicit Types v w : V.

(** ** Results and the values in memory *)

(** The record of [k] in memory. *)
Definition in_memory v (k : list byte) : option (list byte) := ExistValue (v_tmp v) BalanceTransferAddress k.

(** The last value that a list of results gives to [k]. *)
Definition last_result (rs : list (list byte * list byte)) (k : list byte) (old : option (list byte)) : option (list byte) :=
  foldl (fun acc r => if decide (r.1 = k) then Some r.2 else acc) old rs.

Definition pairs (rs : list ActionResult) : list (list byte * list byte) := map (fun r => (res_Key r, res_Val r)) rs.

(** The keys of results: none, or of the length of addresses. *)
Definition key_ok (k : list byte) : Prop := k = [] \/ length k = 20%nat.

(** A call writes into memory exactly the results it returns, and nothing when it
    returns an error. *)
Definition effects (m : C E T (list ActionResult)) : Prop := forall v r w, m v = Ok (r, w) ->
  match r with
  | inl _ => v_tmp w = v_tmp v
  | inr rs => Forall (fun x => key_ok (res_Key x)) rs /\
      forall k, length k = 20%nat -> in_memory w k = last_result (pairs rs) k (in_memory v k)
  end.

Lemma effects_bind {A} (m : C E T A) k : silent m -> (forall a, effects (k a)) -> effects (m ≫= k).
Proof.
  intros Hm Hk v r w. unfold mbind, C_bind. destruct (m v) as [[[e|a] u]| | |] eqn:Em; try done; apply Hm in Em.
  - by intros [= <- <-].
  - intros Hr%Hk. unfold in_memory in *. by rewrite Em in Hr.
Qed.
Lemma effects_raise e : effects (raise e).
Proof. by intros v r w [= <- <-]. Qed.
Lemma effects_crash : effects crash.
Proof. done. Qed.
(** Results without key. *)
Lemma effects_unkeyed rs : Forall (fun x => res_Key x = []) rs -> effects (mret rs).
Proof.
  intros Hrs v r w [= <- <-]. split; [eapply Forall_impl; [exact Hrs|]; intros x ?; by left|].
  intros k Hk. unfold last_result, pairs. generalize (in_memory v k). induction Hrs as [|x rs Hx Hrs IH]; [done|]. intros old. simpl.
  rewrite Hx, decide_False by (intros <-; done). apply IH.
Qed.

Lemma silent_GetValue c k : silent (GetValue dbGet c k : C E T _).
Proof.
  apply silent_bind; [by intros v r w [= _ <-]|]. intros tmp. destruct (ExistValue _ _ _); [apply silent_ret|].
  apply silent_bind; [|intros; apply silent_ret]. intros v r w. unfold on_state.
  destruct (GetState _ _ _) as [[]| | |]; try done. by intros [= _ <-].
Qed.

Lemma GetValue_no_error c k v e w : GetValue dbGet c k v <> Ok (inl e, w).
Proof.
  unfold GetValue, mbind, C_bind, getTmp. destruct (ExistValue _ _ _); [done|]. unfold on_state.
  by destruct (GetState _ _ _) as [[]| | |].
Qed.

Lemma SetValue_memory k d v r w : length k = 20%nat -> SetValue BalanceTransferAddress k d v = Ok (r, w) ->
  forall k', length k' = 20%nat -> in_memory w k' = if decide (k = k') then Some d else in_memory v k'.
Proof.
  intros Hk [= _ <-] k' Hk'. unfold in_memory, ExistValue. simpl. rewrite lookup_insert_eq, lookup_insert.
  destruct (decide (k = k')) as [->|Hne]; [by rewrite decide_True|].
  rewrite decide_False by (intros He; by apply tmp_key_inj in He).
  by destruct (v_tmp v !! BalanceTransferAddress).
Qed.

Lemma effects_transfer cb from to amount : length from = 20%nat -> length to = 20%nat ->
  effects (transfer dbGet (Some cb) from to amount).
Proof.
  intros Hf Ht. unfold transfer. case_bool_decide; [by apply effects_unkeyed|].
  apply effects_bind; [apply silent_GetValue|]. intros [df|]; [|apply effects_raise].
  apply effects_bind; [unfold unmarshal_balance; destruct (UnmarshalAmount df); [apply silent_ret|apply silent_raise]|]. intros bf.
  destruct (_ <? _); [apply effects_raise|]. apply effects_bind; [apply silent_GetValue|]. intros dt.
  apply effects_bind; [destruct dt as [d|]; [unfold unmarshal_balance; destruct (UnmarshalAmount d)|];
                       first [apply silent_ret|apply silent_raise]|]. intros bt.
  intros v r w. unfold mbind at 1, C_bind at 1. destruct (Sys_SetValue _ _ from _ v) as [[[]  u1]| | |] eqn:E1; try done.
  unfold mbind at 1, C_bind at 1. destruct (Sys_SetValue _ _ to _ u1) as [[[] u2]| | |] eqn:E2; try done.
  unfold mbind, C_bind. destruct (Sys_GetValue dbGet _ _ to u2) as [[[] u3]| | |] eqn:E3; try done.
  { by apply GetValue_no_error in E3. }
  intros [= <- <-]. split; [rewrite !Forall_cons; split_and!; [by right..|constructor]|]. intros k Hk.
  apply silent_GetValue in E3. unfold in_memory at 1. rewrite E3. fold (in_memory u2 k).
  rewrite (SetValue_memory _ _ _ _ _ Ht E2) by done. rewrite (SetValue_memory _ _ _ _ _ Hf E1) by done. done.
Qed.

Lemma effects_reward cb producer (b : Z) : length producer = 20%nat ->
  effects (_ ← Sys_SetValue (Some cb) BalanceTransferAddress producer (MarshalAmount b); mret [mkResult producer (MarshalAmount b)]).
Proof.
  intros Hp v r w. unfold mbind, C_bind. destruct (Sys_SetValue _ _ producer _ v) as [[[] u]| | |] eqn:E1; try done.
  intros [= <- <-]. split; [rewrite Forall_cons; split; [by right|constructor]|]. intros k Hk.
  by rewrite (SetValue_memory _ _ _ _ _ Hp E1).
Qed.

Lemma effects_address param k e (f : Address -> C E T (list ActionResult)) :
  (forall a, length a = 20%nat -> effects (f a)) -> effects (address_param param k e ≫= f).
Proof.
  intros Hf. unfold address_param. destruct (param !! k) as [[]|]; try done; [|by intros v r w [= <- <-]].
  intros v r w. unfold mbind, C_bind. simpl. apply Hf, HexToAddress_length.
Qed.

Lemma silent_amount param : silent (amount_param param : C E T Z).
Proof. unfold amount_param. destruct (param !! _) as [[]|]; try done; by intros v r w [= _ <-]. Qed.

Lemma silent_query cb l : silent (query_balances dbGet (Some cb) l : C E T _).
Proof.
  induction l as [|x l IH]; simpl; [apply silent_ret|]. apply silent_bind; [apply silent_GetValue|]. intros d.
  apply silent_bind; [done|]. intros y. apply silent_ret.
Qed.

Lemma silent_strings l : silent (string_list l : C E T _).
Proof.
  induction l as [|[] l IH]; simpl; try apply silent_ret; try apply silent_raise.
  apply silent_bind; [done|]. intros y. apply silent_ret.
Qed.

Lemma effects_function cb id f param : length cb = 20%nat -> funcMapper dbGet id = Some f -> effects (f param (Some cb)).
Proof.
  intros Hcb. unfold funcMapper. destruct (id =? 0); [|destruct (id =? 1); [|destruct (id =? 2); [|destruct (id =? 3); [|done]]]];
    intros [= <-].
  - apply effects_address. intros from Hf. apply effects_address. intros to Ht.
    apply effects_bind; [apply silent_amount|]. intros n. by apply effects_transfer.
  - apply effects_address. intros p Hp. apply effects_bind; [apply silent_GetValue|]. intros d.
    apply effects_bind; [|intros b; by apply effects_reward]. destruct d as [d|]; [|apply silent_ret].
    apply silent_bind; [unfold unmarshal_balance; destruct (UnmarshalAmount d); [apply silent_ret|apply silent_raise]|].
    intros n. apply silent_ret.
  - apply effects_address. intros from Hf. cut (effects (n ← amount_param param; transfer dbGet (Some cb) from cb n)); [done|].
    apply effects_bind; [apply silent_amount|]. intros n. by apply effects_transfer.
  - unfold GetBalance. destruct (param !! _) as [[]|]; try apply effects_raise.
    apply effects_bind; [apply silent_strings|]. intros l'. apply effects_bind; [apply silent_query|]. intros all.
    by apply effects_unkeyed; constructor.
Qed.

Lemma effects_SendWork cb action : length cb = 20%nat -> effects (SendWork dbGet action (Some cb)).
Proof.
  intros Hcb. unfold SendWork, Vms_DealAction. destruct (act_Address action) as [a|]; [|apply effects_crash]. simpl.
  case_bool_decide; [|apply effects_raise]. unfold DoFun.
  destruct (UnmarshalMap _) as [param|]; [|apply effects_raise]. destruct (param !! _) as [v|]; [|apply effects_raise].
  apply effects_bind; [destruct v; simpl; try apply silent_crash; apply silent_ret|].
  intros s. destruct (Atoi s) as [id [e|]]; [apply effects_raise|].
  destruct (funcMapper dbGet id) eqn:Hf; [by eapply effects_function|apply effects_raise].
Qed.

End Effects.

(** ** Transactions and blocks *)

(** Nonces, the hashes of the code of contracts, and balances. *)
Record books : Type := mkBooks { bk_nonce : Address -> Z; bk_code : Address -> option Hash; bk_ledger : ledger }.

Definition bump (N : Address -> Z) (a : Address) : Address -> Z := fun b => if decide (b = a) then N a + 1 else N b.

Definition bump_books (B : books) (a : Address) : books := mkBooks (bump (bk_nonce B) a) (bk_code B) (bk_ledger B).

Section Spec.
(** The address of a contract, and what is recorded of its code. *)
Context (CreateAddress : Address -> Z -> Address) (code_hash : list byte -> option Hash).

Definition with_contract (B : books) (c : Address) (code : list byte) : books :=
  mkBooks (fun b => if decide (b = c) then 1 else bk_nonce B b) (fun b => if decide (b = c) then code_hash code else bk_code B b)
    (bk_ledger B).

(** The creation of a contract at [c]: its address must be free, and [fee] is
    executed without access to the ledger.  When it fails there is no contract,
    but the transaction counts as successful. *)
Definition spec_creation (c : Address) (fee : Action) (code : list byte) (B : books) : option ((procErr + bool) * books) :=
  if taken (bk_nonce B c) (bk_code B c) then Some (inl AddressCollision, B)
  else
    match spec_bare_action fee (bk_ledger B) with
    | None => None
    | Some (inl _, _) => Some (inr false, B)
    | Some (inr _, _) =>
        if MaxCodeSize <? Z.of_nat (length code) then Some (inl CodeTooLong, B) else Some (inr false, with_contract B c code)
    end.

(** A transaction creates a contract when it has two actions and the second names no
    address: the first pays, the second is the code. *)
Definition creation_of (actions : list Action) : option (Action * list byte) :=
  match actions with
  | [fee; contract] => match act_Address contract with None => Some (fee, act_Params contract) | Some _ => None end
  | _ => None
  end.

(** One transaction: [None] is a panic, [inr true] a failed transaction. *)
Definition spec_tx (cb : Address) (tx : message) (B : books) : option ((procErr + bool) * books) :=
  match msg_from tx with
  | None => Some (inl InvalidSender, B)
  | Some a =>
      match verdict (bk_nonce B a) (msg_nonce tx) with
      | Some e => Some (inl e, B)
      | None =>
          match creation_of (msg_actions tx) with
          | Some (fee, code) => spec_creation (CreateAddress a (msg_nonce tx)) fee code (bump_books B a)
          | None =>
              match spec_actions cb (msg_actions tx) (bk_ledger B) with
              | None => None
              | Some (None, L) => Some (inr true, mkBooks (bk_nonce B) (bk_code B) L)
              | Some (Some _, L) => Some (inr false, mkBooks (bump (bk_nonce B) a) (bk_code B) L)
              end
          end
      end
  end.

(** A list of transactions: the error of the first that is rejected, or the
    outcome of each. *)
Fixpoint spec_txs (cb : Address) (txs : list message) (B : books) : option ((procErr + list bool) * books) :=
  match txs with
  | [] => Some (inr [], B)
  | tx :: txs =>
      match spec_tx cb tx B with
      | None => None
      | Some (inl e, B) => Some (inl e, B)
      | Some (inr failed, B) =>
          match spec_txs cb txs B with
          | None => None
          | Some (inl e, B) => Some (inl e, B)
          | Some (inr l, B) => Some (inr (failed :: l), B)
          end
      end
  end.

End Spec.

Section Block.
Context {E T : Type} `{StateEnvLaws E T}.
Context (dbGet : list byte -> option (list byte)) (CreateAddress : Address -> Z -> Address).
Abbreviation St := (StateDB E T).
Abbreviation zero := BalanceTransferAddress.
Implicit Types (s g : pstate E T).

Definition slot (k : list byte) : Hash := Keccak256Hash (zero ++ k).

(** ** The actions *)

Definition mem_pairs (mem : list MemDatabase) : list (list byte * list byte) := map (fun x => (mem_Key x, mem_Val x)) mem.

Definition mem_ok (mem : list MemDatabase) : Prop := Forall (fun x => mem_Address x = zero /\ key_ok (mem_Key x)) mem.

Lemma same_accounts_agrees s s' L : same_accounts s s' -> v_tmp (p_vm s') = v_tmp (p_vm s) -> agrees dbGet (p_vm s) L ->
  agrees dbGet (p_vm s') L.
Proof.
  intros Hs Ht Ha a Hl. rewrite <- (Ha a Hl). unfold record_at. rewrite Ht. destruct (ExistValue _ _ _); [done|].
  f_equal. unfold account_of. specialize (Hs zero). unfold p_state in Hs.
  destruct (load (v_state (p_vm s')) zero), (load (v_state (p_vm s)) zero); try done. apply Hs.
Qed.

Lemma last_result_app l1 l2 k o : last_result (l1 ++ l2) k o = last_result l2 k (last_result l1 k o).
Proof. apply foldl_app. Qed.

Lemma spec_action_zero cb action L x L' a : spec_action cb action L = Some (inr x, L') -> act_Address action = Some a -> a = zero.
Proof. unfold spec_action. intros Hs Ha. rewrite Ha in Hs. by destruct (decide (a = zero)). Qed.

Lemma run_actions_spec cb number actions : length cb = 20%nat -> forall s L, Inv (p_state s) -> agrees dbGet (p_vm s) L ->
  match spec_actions cb actions L with
  | None => run_actions dbGet (Some cb) number actions s = Panic
  | Some (r, L') => exists s', run_actions dbGet (Some cb) number actions s = Ok (r, s') /\
      same_accounts s s' /\ p_cache s' = p_cache s /\ agrees dbGet (p_vm s') L' /\
      match r with
      | Some mem => mem_ok mem /\
          forall k, length k = 20%nat -> in_memory (p_vm s') k = last_result (mem_pairs mem) k (in_memory (p_vm s) k)
      | None => True
      end
  end.
Proof.
  intros Hcb. induction actions as [|action actions IH]; intros s L Hi Hag; simpl.
  { exists s. split_and!; try done; [intros a; reflexivity|constructor]. }
  pose proof (SendWork_sim dbGet cb action Hcb (p_vm s) L Hi Hag) as Hsim.
  destruct (spec_action cb action L) as [[x L']|] eqn:Hspec; [|unfold mbind, P_bind, vm; by rewrite Hsim].
  destruct Hsim as (v & Hrun & Hkept & Hag'). set (s1 := mkP v (p_cache s)).
  assert (vm (SendWork dbGet action (Some cb)) s = Ok (x, s1)) as Hvm by (unfold vm; by rewrite Hrun).
  rewrite (run_step _ _ _ _ _ Hvm).
  assert (same_accounts s s1) as S1 by (intros a; apply (se_load _ _ (kept_eq _ _ Hkept))).
  pose proof (kept_Inv _ _ Hkept) as Hi1. pose proof (effects_SendWork dbGet cb action Hcb _ _ _ Hrun) as Heff.
  destruct x as [e|results].
  { exists s1. split_and!; done. }
  destruct (act_Address action) as [a|] eqn:Ha; [|unfold spec_action in Hspec; by rewrite Ha in Hspec].
  apply spec_action_zero with (a := a) in Hspec; [|done]. subst a. destruct Heff as [Hkeys Hmem].
  destruct (exec_undoable (p_state s1) (OpAddLog (MakeLog zero results number)) Hi1) as (u & Hu & Hund). simpl in Hu.
  set (s2 := on_accounts s1 u).
  assert (same_accounts s1 s2) as S2 by (injection Hu as <-; intros b; reflexivity).
  assert (agrees dbGet (p_vm s2) L') as Hag2 by (by apply same_accounts_agrees with s1).
  specialize (IH s2 L' (undoable_Inv _ _ Hund) Hag2).
  destruct (spec_actions cb actions L') as [[r L'']|]; rewrite (run_step _ _ _ _ _ (db_ok _ s1 _ _ Hu)); fold s2;
    [|unfold mbind, P_bind; by rewrite IH].
  destruct IH as (s3 & Hr & S3 & C3 & Hag3 & Hm3). rewrite (run_step _ _ _ _ _ Hr). exists s3. split_and!; try done.
  - apply same_accounts_trans with s1; [done|]. by apply same_accounts_trans with s2.
  - destruct r as [mem|]; [|done]. simpl. destruct Hm3 as [Hok Hin]. split.
    + apply Forall_app. split; [|done]. unfold mem_of. apply Forall_map. eapply Forall_impl; [exact Hkeys|]. done.
    + intros k Hk. rewrite Hin by done. change (in_memory (p_vm s2) k) with (in_memory v k). rewrite Hmem by done.
      unfold mem_pairs. rewrite map_app. unfold mem_of. rewrite map_map. by rewrite last_result_app.
Qed.

(** ** Storing the results *)

(** The storage slot [h] after the results were stored. *)
Definition stored (mem : list MemDatabase) (h : Hash) (old : Hash) : Hash :=
  foldl (fun acc x => if decide (h = slot (mem_Key x)) then Keccak256Hash (mem_Val x) else acc) old mem.

(** What is collected for the database. *)
Definition collected (mem : list MemDatabase) (c : gmap (list byte) MemDatabase) : gmap (list byte) MemDatabase :=
  foldl (fun acc x => <[mem_Address x ++ mem_Key x := mkMem (mem_Address x) (Keccak256Hash (mem_Val x)) (mem_Val x)]> acc) c mem.

Record rewritten (mem : list MemDatabase) (o o' : stateObject E T) : Prop := {
  rw_nonce : Nonce (data o') = Nonce (data o);
  rw_hash : codeHashBytes (data o') = codeHashBytes (data o);
  rw_code : cview o' = cview o;
  rw_suicided : suicided o' = suicided o;
  rw_storage h : sview o' h = stored mem h (sview o h);
}.

Lemma store_spec k mem : forall s o, open_at k (p_state s) -> mem_ok mem -> load (p_state s) zero = Some o ->
  exists s' o', store_results mem s = Ok ((), s') /\ open_at k (p_state s') /\ v_tmp (p_vm s') = v_tmp (p_vm s) /\
    p_cache s' = collected mem (p_cache s) /\ same_logs (p_state s) (p_state s') /\
    (forall b, b <> zero -> load (p_state s') b = load (p_state s) b) /\
    load (p_state s') zero = Some o' /\ rewritten mem o o'.
Proof.
  induction mem as [|x mem IH]; intros s o Hk Hok Ho; simpl.
  { exists s, o. split_and!; done. }
  apply Forall_cons in Hok as [[Hax Hkx] Hok]. pose proof (open_inv _ _ Hk) as Hi. rewrite Hax. fold (slot (mem_Key x)).
  destruct (SetState_sets (p_state s) zero (slot (mem_Key x)) (Keccak256Hash (mem_Val x)) Hi)
    as (u & Hu & _ & Hother & o1 & Ho1 & _ & Hn1 & Hh1 & Hc1 & Hs1 & Hsu1).
  destruct (framed_SetState zero (slot (mem_Key x)) (Keccak256Hash (mem_Val x)) (p_state s) () u (inv_trie _ Hi) Hu) as [_ Hf].
  assert (target (p_state s) zero = o) as Ht by (unfold target; by rewrite Ho). rewrite Ht in *.
  rewrite (run_step _ _ _ _ _ (db_ok _ s _ _ Hu)). set (s1 := on_accounts s u).
  set (s2 := mkP (p_vm s1) (<[zero ++ mem_Key x := mkMem zero (Keccak256Hash (mem_Val x)) (mem_Val x)]> (p_cache s1))).
  assert (open_at k (p_state s2)) as Hk2.
  { apply open_step with (p_state s) (OpSetState zero (slot (mem_Key x)) (Keccak256Hash (mem_Val x)));
      [done|apply BytesToHash_length|done|apply Hf]. }
  destruct (IH s2 o1 Hk2 Hok Ho1) as (s' & o' & Hr & Hk' & Hm' & Hc' & Hl' & Hoth' & Ho' & [Rn Rh Rc Rs Rst]).
  exists s', o'. split; [done|]. split_and!; try done.
  - by transitivity u.
  - intros b Hb. rewrite Hoth' by done. by apply Hother.
  - split; try congruence. intros h. rewrite Rst. simpl. by rewrite Hs1.
Qed.

(** ** Slots and keys *)

(** The hash distinguishes the records of accounts from each other and from the
    key of results without one. *)
Hypothesis keys_distinct : forall k k', length k = 20%nat -> key_ok k' -> slot k = slot k' -> k = k'.

Lemma last_result_some l k o : is_Some o -> is_Some (last_result l k o).
Proof.
  revert o. induction l as [|y l IH]; intros o Ho; simpl; [done|]. apply IH. by destruct (decide _).
Qed.

Lemma stored_key mem k old o d : length k = 20%nat -> mem_ok mem -> (forall d, o = Some d -> old = Keccak256Hash d) ->
  last_result (mem_pairs mem) k o = Some d -> stored mem (slot k) old = Keccak256Hash d.
Proof.
  intros Hk Hok. revert old o. induction Hok as [|x mem [_ Hx] Hok IH]; intros old o Ho; simpl; [by apply Ho|].
  destruct (decide (mem_Key x = k)) as [->|Hne].
  - rewrite decide_True by done. apply IH. by intros ? [= <-].
  - rewrite decide_False by (intros He; by apply keys_distinct in He). by apply IH.
Qed.

Lemma stored_absent mem k old o : length k = 20%nat -> mem_ok mem -> last_result (mem_pairs mem) k o = None ->
  stored mem (slot k) old = old.
Proof.
  intros Hk Hok. revert o. induction Hok as [|x mem [_ Hx] Hok IH]; intros o; simpl; [done|].
  destruct (decide (mem_Key x = k)) as [->|Hne].
  - intros Hl. destruct (last_result_some (mem_pairs mem) k (Some (mem_Val x))) as [? Hs]; [done|].
    unfold last_result in *. congruence.
  - rewrite decide_False by (intros He; by apply keys_distinct in He). apply IH.
Qed.

(** ** One transaction *)

Definition code_hash (code : list byte) : option Hash := @coded E T _ (@Keccak256Hash E T _ code).

(** The state of a node and the books it keeps.  The account of the balance contract
    has a nonce or code, as in the genesis block. *)
Record keeps (s : pstate E T) (B : books) : Prop := {
  kp_ready : ready (p_state s);
  kp_nonce a : nonce_of s a = bk_nonce B a;
  kp_code a : code_of s a = bk_code B a;
  kp_ledger : agrees dbGet (p_vm s) (bk_ledger B);
  kp_contract : taken (bk_nonce B zero) (bk_code B zero) = true;
}.

(** A nonce that is not the last one of 64 bits. *)
Definition nonce_fits (tx : message) : Prop := 0 <= msg_nonce tx < 2 ^ 64 - 1.

Lemma untaken s a : load (p_state s) a = None -> taken (nonce_of s a) (code_of s a) = false.
Proof.
  intros Ha. unfold nonce_of, account_of, code_of, codeHash_at. rewrite Ha. unfold coded. by rewrite bool_decide_true.
Qed.

Lemma keeps_contract s B : keeps s B -> is_Some (load (p_state s) zero).
Proof.
  intros [_ N C _ K]. destruct (load (p_state s) zero) as [o|] eqn:Ho; [by eexists|]. apply untaken in Ho. rewrite N, C in Ho. congruence.
Qed.

Lemma taken_bump N a b c : 0 <= N a -> taken (N b) c = true -> taken (bump N a b) c = true.
Proof.
  intros Ha. unfold taken, bump. case_decide as Hb; [subst b|done]. intros _. by rewrite (proj2 (Z.eqb_neq (N a + 1) 0)) by lia.
Qed.

Lemma live_transport s s' : same_accounts s s' -> live (p_state s) -> live (p_state s').
Proof.
  intros Hs Hl a o Ho. specialize (Hs a). rewrite Ho in Hs. destruct (load (p_state s) a) as [o'|] eqn:Ho'; [|done].
  apply Hl in Ho' as [? ?]. simpl in Hs. by rewrite (so_suicided _ _ Hs), (empty_view _ _ (same_obj_view _ _ Hs)).
Qed.

Lemma started_live a n s g t id : ready (p_state s) -> 0 <= n < 2 ^ 64 - 1 -> started a n s g t id -> live (p_state t).
Proof.
  intros (_ & _ & Hl) Hn Hst b o Ho. destruct (decide (b = a)) as [->|Hb].
  - destruct (sd_sender _ _ _ _ _ _ Hst) as (o' & Ho' & Hnn & _ & _ & _ & Hsu). rewrite Ho in Ho'. injection Ho' as <-. split.
    + rewrite Hsu. unfold target. destruct (load (p_state s) a) as [x|] eqn:Hx; [by apply (Hl a)|done].
    + unfold empty. rewrite Hnn. unfold u64, wrap. rewrite Z.mod_small by lia. by rewrite (proj2 (Z.eqb_neq (n + 1) 0)) by lia.
  - rewrite (sd_others _ _ _ _ _ _ Hst b Hb) in Ho. by apply (Hl b).
Qed.

Lemma account_ext (st st' : St) a : opt_rel same_obj (load st a) (load st' a) -> account_eq (account_of st a) (account_of st' a).
Proof.
  unfold account_of. destruct (load st a), (load st' a); try done. intros []. done.
Qed.

Lemma record_ext (v v' : vstate E T) k : v_tmp v = v_tmp v' ->
  a_storage (account_of (v_state v) zero) (slot k) = a_storage (account_of (v_state v') zero) (slot k) ->
  record_at dbGet v zero k = record_at dbGet v' zero k.
Proof. intros Ht Hs. unfold record_at. rewrite Ht. destruct (ExistValue _ _ _); [done|]. fold (slot k). by rewrite Hs. Qed.

(** The storage of the contract does not change before the actions. *)
Lemma started_storage a n s g t id h : started a n s g t id ->
  a_storage (account_of (p_state t) zero) h = a_storage (account_of (p_state s) zero) h.
Proof.
  intros Hst. destruct (decide (zero = a)) as [<-|Hne].
  - destruct (sd_sender _ _ _ _ _ _ Hst) as (o & Ho & _ & _ & _ & Hs & _).
    destruct (account_of_target (p_state s) zero) as (_ & _ & Ht & _). rewrite Ht. unfold account_of. rewrite Ho. apply Hs.
  - unfold account_of. by rewrite (sd_others _ _ _ _ _ _ Hst zero Hne).
Qed.

Lemma started_agrees a n s g t id L : started a n s g t id -> agrees dbGet (p_vm s) L -> agrees dbGet (p_vm t) L.
Proof.
  intros Hst Ha k Hk. rewrite <- (Ha k Hk). apply record_ext; [apply (sd_aside' _ _ _ _ _ _ Hst)|].
  by apply (started_storage _ _ _ _ _ _ _ Hst).
Qed.

Lemma started_nonce a n s g t id b : ready (p_state s) -> nonce_of s a = n -> 0 <= n < 2 ^ 64 - 1 -> started a n s g t id ->
  nonce_of t b = bump (nonce_of s) a b.
Proof.
  intros Hy Hn Hr Hst. unfold bump. case_decide as Hb.
  - subst b. destruct (sd_sender _ _ _ _ _ _ Hst) as (o & Ho & Hnn & _). unfold nonce_of, account_of at 1. rewrite Ho. simpl.
    rewrite Hnn. fold (nonce_of s a). rewrite Hn. unfold u64, wrap. apply Z.mod_small. lia.
  - unfold nonce_of, account_of. by rewrite (sd_others _ _ _ _ _ _ Hst b Hb).
Qed.

Lemma started_code a n s g t id b : started a n s g t id -> code_of t b = code_of s b.
Proof.
  intros Hst. unfold code_of. destruct (decide (b = a)) as [->|Hb].
  - destruct (sd_sender _ _ _ _ _ _ Hst) as (o & Ho & _ & Hh & _). rewrite <- (code_target (p_state s)). unfold codeHash_at at 1.
    by rewrite Ho, Hh.
  - unfold codeHash_at. by rewrite (sd_others _ _ _ _ _ _ Hst b Hb).
Qed.

(** Finalising a live state keeps every account. *)
Lemma finalise_live k s u : open_at k (p_state s) -> live (p_state s) -> Finalise true (p_state s) = Ok ((), u) ->
  ready u /\ same_accounts s (on_accounts s u).
Proof.
  intros Hk Hl Hu. destruct (open_Finalise k (p_state s) Hk) as (u' & Hu' & Hy & _ & _ & Hv). rewrite Hu in Hu'. injection Hu' as <-.
  split; [done|]. intros b. specialize (Hv b). change (p_state (on_accounts s u)) with u.
  destruct (load (p_state s) b) as [o|] eqn:Ho; [|by rewrite Hv]. destruct (Hl b o Ho) as [Hs He]. rewrite Hs, He in Hv. by destruct Hv as (o' & -> & ?).
Qed.

(** From the result of [TransitionDb] to the receipt. *)
Lemma apply_ok s cb number tx a failed v k : msg_from tx = Some a ->
  TransitionDb dbGet CreateAddress (Some cb) number a (msg_nonce tx) (msg_actions tx) s = Ok (inr failed, v) ->
  open_at k (p_state v) -> exists receipt u, Finalise true (p_state v) = Ok ((), u) /\
    ApplyTransaction dbGet CreateAddress (Some cb) number tx s = Ok (inr receipt, on_accounts v u) /\
    r_Status receipt = NewReceipt failed.
Proof.
  intros Hf Ht Hk. destruct (receipt_ok CreateAddress k v tx a failed Hk) as (rc & w & u & Hu & -> & Hrc & Hs & _).
  exists rc, u. split_and!; try done. unfold ApplyTransaction. rewrite Hf, (run_step _ _ _ _ _ Ht). exact Hrc.
Qed.

(** ** What a successful transaction stores *)

Record stores (mem : list MemDatabase) s s' : Prop := {
  st_mem : mem_ok mem;
  st_cache : p_cache s' = collected mem (p_cache s);
  st_memory k : length k = 20%nat -> in_memory (p_vm s') k = last_result (mem_pairs mem) k (in_memory (p_vm s) k);
  st_slots k : length k = 20%nat ->
    a_storage (account_of (p_state s') zero) (slot k) = stored mem (slot k) (a_storage (account_of (p_state s) zero) (slot k));
}.

(** From the results of the actions, already in memory, to the state after
    [Finalise]. *)
Lemma settle k u mem L : open_at k (p_state u) -> live (p_state u) -> is_Some (load (p_state u) zero) -> mem_ok mem ->
  agrees dbGet (p_vm u) L -> (forall x, length x = 20%nat -> exists o, in_memory (p_vm u) x = last_result (mem_pairs mem) x o) ->
  exists v, store_results mem u = Ok ((), v) /\ open_at k (p_state v) /\ forall w, Finalise true (p_state v) = Ok ((), w) ->
    let s' := on_accounts v w in ready (p_state s') /\ (forall b, nonce_of s' b = nonce_of u b) /\
    (forall b, code_of s' b = code_of u b) /\ agrees dbGet (p_vm s') L /\
    p_cache s' = collected mem (p_cache u) /\ v_tmp (p_vm s') = v_tmp (p_vm u) /\
    forall h, a_storage (account_of (p_state s') zero) h = stored mem h (a_storage (account_of (p_state u) zero) h).
Proof.
  intros Hk Hlive [ou Hou] Hok Hag Hmem. destruct (store_spec _ mem u ou Hk Hok Hou) as (v & ov & Hv & Hkv & Tv & Cv & _ & Ov & Hov & Rv).
  exists v. split; [done|]. split; [done|]. intros w Hw s'.
  assert (live (p_state v)) as Hlv.
  { intros b o Ho. destruct (decide (b = zero)) as [->|Hb]; [|rewrite Ov in Ho by done; by apply (Hlive b)].
    rewrite Hov in Ho. injection Ho as <-. destruct Rv as [Rn Rh _ Rs _]. unfold empty. rewrite Rn, Rh, Rs. by apply (Hlive zero). }
  destruct (finalise_live _ v w Hkv Hlv Hw) as [Hyw Sw].
  assert (forall h, a_storage (account_of (p_state s') zero) h = stored mem h (a_storage (account_of (p_state u) zero) h)) as Hstor.
  { intros h. destruct (account_ext _ _ zero (Sw zero)) as (_ & _ & Hs1 & _). rewrite Hs1. unfold account_of. rewrite Hov, Hou. simpl.
    apply (rw_storage _ _ _ Rv). }
  split_and!; try done.
  - intros b. transitivity (nonce_of v b); [apply (account_ext _ _ b (Sw b))|]. unfold nonce_of, account_of.
    destruct (decide (b = zero)) as [->|Hb]; [|by rewrite Ov]. rewrite Hov, Hou. apply Rv.
  - intros b. transitivity (code_of v b); [apply (code_ext _ _ b (Sw b))|]. unfold code_of, codeHash_at.
    destruct (decide (b = zero)) as [->|Hb]; [|by rewrite Ov]. rewrite Hov, Hou. by rewrite (rw_hash _ _ _ Rv).
  - intros x Hx. rewrite <- (Hag x Hx). unfold record_at. assert (v_tmp (p_vm s') = v_tmp (p_vm u)) as -> by exact Tv.
    destruct (ExistValue (v_tmp (p_vm u)) zero x) eqn:Hex; [reflexivity|]. f_equal. fold (slot x). fold (p_state s') (p_state u).
    rewrite Hstor. destruct (Hmem x Hx) as (o & Ho). apply stored_absent with o; try done. by rewrite <- Ho.
Qed.

Section OneTx.
Context (s : pstate E T) (B : books) (cb : Address) (number : Z) (tx : message) (a : Address).
Context (Hkeep : keeps s B) (Hcb : length cb = 20%nat) (Hfits : nonce_fits tx).
Context (Hfrom : msg_from tx = Some a) (Hnonce : bk_nonce B a = msg_nonce tx).

Lemma tx_begin : exists g id t, open_at [(id, p_state g)] (p_state t) /\ started a (msg_nonce tx) s g t id /\
  agrees dbGet (p_vm t) (bk_ledger B) /\ (forall b, nonce_of t b = bump (bk_nonce B) a b) /\ (forall b, code_of t b = bk_code B b) /\
  live (p_state t) /\
  TransitionDb dbGet CreateAddress (Some cb) number a (msg_nonce tx) (msg_actions tx) s =
    if is_creation (msg_actions tx) then finish_creation dbGet CreateAddress number a (msg_nonce tx) (msg_actions tx) id t
    else finish dbGet (Some cb) number (msg_actions tx) id t.
Proof.
  destruct Hkeep as [Hy Hn Hc Hl _]. assert (nonce_of s a = msg_nonce tx) as Hna by (by rewrite Hn).
  destruct (TransitionDb_begin dbGet CreateAddress [] s (Some cb) number a (msg_nonce tx) (msg_actions tx) (ready_open _ Hy) Hna)
    as (g & id & t & _ & Hk & Hst & Hrun).
  exists g, id, t. split_and!; try done.
  - by apply (started_agrees _ _ _ _ _ _ _ Hst).
  - intros b. rewrite (started_nonce a (msg_nonce tx) s g t id b Hy) by done. unfold bump. by rewrite !Hn.
  - intros b. by rewrite (started_code _ _ _ _ _ _ b Hst).
  - by apply (started_live _ _ _ _ _ _ Hy Hfits Hst).
Qed.

Lemma contract_bumped : taken (bump (bk_nonce B) a zero) (bk_code B zero) = true.
Proof. apply taken_bump; [rewrite Hnonce; apply Hfits|apply (kp_contract _ _ Hkeep)]. Qed.

Lemma tx_start : is_creation (msg_actions tx) = false -> exists g id t, open_at [(id, p_state g)] (p_state t) /\
  started a (msg_nonce tx) s g t id /\ agrees dbGet (p_vm t) (bk_ledger B) /\
  (forall b, nonce_of t b = bump (bk_nonce B) a b) /\ (forall b, code_of t b = bk_code B b) /\ live (p_state t) /\
  TransitionDb dbGet CreateAddress (Some cb) number a (msg_nonce tx) (msg_actions tx) s =
    finish dbGet (Some cb) number (msg_actions tx) id t.
Proof. intros Hcr. destruct tx_begin as (g & id & t & Ht). rewrite Hcr in Ht. by exists g, id, t. Qed.

Lemma tx_failed L' : is_creation (msg_actions tx) = false -> spec_actions cb (msg_actions tx) (bk_ledger B) = Some (None, L') ->
  exists receipt s', ApplyTransaction dbGet CreateAddress (Some cb) number tx s = Ok (inr receipt, s') /\
    r_Status receipt = 0 /\ keeps s' (mkBooks (bk_nonce B) (bk_code B) L').
Proof.
  intros Hcr Hspec. destruct (tx_start Hcr) as (g & id & t & Hk & Hst & Hag & _ & _ & _ & Hrun).
  pose proof (run_actions_spec cb number (msg_actions tx) Hcb t _ (open_inv _ _ Hk) Hag) as Hacts. rewrite Hspec in Hacts.
  destruct Hacts as (u & Hu & Su & _ & Hagu & _).
  destruct (finish_reverts dbGet [] t g id (Some cb) number (msg_actions tx) u Hk Hu) as (v & Hv & Hlk & (k & Hkv) & _ & Htmp).
  rewrite <- Hrun in Hv. destruct (apply_ok s cb number tx a true v k Hfrom Hv Hkv) as (rc & w & Hw & Happ & Hrs).
  exists rc, (on_accounts v w). split; [done|]. split; [done|]. pose proof (kp_ready _ _ Hkeep) as Hy.
  destruct (open_Finalise k (p_state v) Hkv) as (w' & Hw' & Hyw & _ & _ & Hvw). rewrite Hw in Hw'. injection Hw' as <-.
  assert (same_accounts s (on_accounts v w)) as Hsame.
  { intros b. apply (finalise_back s g (p_state v) w a Hy (sd_accounts _ _ _ _ _ _ Hst) (lk_eq _ _ Hlk) Hvw). }
  split; simpl; [done| | | |apply (kp_contract _ _ Hkeep)].
  - intros b. rewrite <- (kp_nonce _ _ Hkeep). apply (account_ext _ _ b (Hsame b)).
  - intros b. rewrite <- (kp_code _ _ Hkeep). apply (code_ext _ _ b (Hsame b)).
  - intros x Hx. rewrite <- (Hagu x Hx). apply record_ext; [done|].
    destruct (account_ext _ _ zero (Hsame zero)) as (_ & _ & Hs1 & _). destruct (account_ext _ _ zero (Su zero)) as (_ & _ & Hs2 & _).
    rewrite Hs1. unfold p_state in Hs2. rewrite Hs2. symmetry. by apply (started_storage _ _ _ _ _ _ _ Hst).
Qed.

(** The end of a transaction that reached [u] with the results [mem] in memory. *)
Lemma tx_settled k u mem N C L : open_at k (p_state u) -> live (p_state u) -> mem_ok mem -> agrees dbGet (p_vm u) L ->
  (forall b, nonce_of u b = N b) -> (forall b, code_of u b = C b) -> taken (N zero) (C zero) = true ->
  p_cache u = p_cache s -> (forall h, a_storage (account_of (p_state u) zero) h = a_storage (account_of (p_state s) zero) h) ->
  (forall x, length x = 20%nat -> in_memory (p_vm u) x = last_result (mem_pairs mem) x (in_memory (p_vm s) x)) ->
  TransitionDb dbGet CreateAddress (Some cb) number a (msg_nonce tx) (msg_actions tx) s =
    (_ ← store_results mem; mret (inr false)) u ->
  exists receipt s', ApplyTransaction dbGet CreateAddress (Some cb) number tx s = Ok (inr receipt, s') /\
    r_Status receipt = 1 /\ keeps s' (mkBooks N C L) /\ stores mem s s'.
Proof.
  intros Hk Hl Hok Hag HN HC Htk Hca Hsto Hmem Hrun.
  assert (is_Some (load (p_state u) zero)) as Hz.
  { destruct (load (p_state u) zero) as [o|] eqn:Ho; [by eexists|]. apply untaken in Ho. rewrite HN, HC in Ho. congruence. }
  destruct (settle k u mem L Hk Hl Hz Hok Hag) as (v & Hv & Hkv & Hfin); [eauto|].
  rewrite (run_step _ _ _ _ _ Hv) in Hrun. destruct (apply_ok s cb number tx a false v _ Hfrom Hrun Hkv) as (rc & w & Hw & Happ & Hrs).
  destruct (Hfin w Hw) as (Hy & Hn & Hc & Ha & Hcc & Ht & Hst). exists rc, (on_accounts v w). split_and!; try done.
  - split; try done; intros b; [by rewrite Hn|by rewrite Hc].
  - split; [done|by rewrite Hcc, Hca|intros x Hx; unfold in_memory in *; by rewrite Ht, Hmem|]. intros x Hx. by rewrite Hst, Hsto.
Qed.

Lemma tx_succeeds mem L' : is_creation (msg_actions tx) = false -> spec_actions cb (msg_actions tx) (bk_ledger B) = Some (Some mem, L') ->
  exists receipt s', ApplyTransaction dbGet CreateAddress (Some cb) number tx s = Ok (inr receipt, s') /\
    r_Status receipt = 1 /\ keeps s' (mkBooks (bump (bk_nonce B) a) (bk_code B) L') /\ stores mem s s'.
Proof.
  intros Hcr Hspec. destruct (tx_start Hcr) as (g & id & t & Hk & Hst & Hag & Hn & Hc & Hlt & Hrun).
  pose proof (run_actions_spec cb number (msg_actions tx) Hcb t _ (open_inv _ _ Hk) Hag) as Hacts. rewrite Hspec in Hacts.
  destruct Hacts as (u & Hu & Su & Cu & Hagu & Hmok & Hmem).
  destruct (run_actions_open _ _ _ _ _ _ _ _ _ _ Hk Hu) as (p & q & Hku).
  apply (tx_settled _ u mem _ _ L' Hku); try done.
  - by apply live_transport with t.
  - intros b. rewrite <- Hn. apply (account_ext _ _ b (Su b)).
  - intros b. rewrite <- Hc. apply (code_ext _ _ b (Su b)).
  - apply contract_bumped.
  - rewrite Cu. apply (sd_aside' _ _ _ _ _ _ Hst).
  - intros h. destruct (account_ext _ _ zero (Su zero)) as (_ & _ & Hs2 & _). rewrite Hs2. by apply (started_storage _ _ _ _ _ _ _ Hst).
  - intros x Hx. rewrite (Hmem x Hx). unfold in_memory. by rewrite (as_memory _ _ (sd_aside' _ _ _ _ _ _ Hst)).
  - rewrite Hrun. unfold finish. by rewrite (run_step _ _ _ _ _ Hu).
Qed.

(** *** Creating a contract *)

Definition refined_by (r : option ((procErr + bool) * books)) : Prop :=
  match r with
  | None => ApplyTransaction dbGet CreateAddress (Some cb) number tx s = Panic
  | Some (inl e, _) => exists s', ApplyTransaction dbGet CreateAddress (Some cb) number tx s = Ok (inl e, s')
  | Some (inr failed, B') => exists receipt s',
      ApplyTransaction dbGet CreateAddress (Some cb) number tx s = Ok (inr receipt, s') /\
      r_Status receipt = NewReceipt failed /\ keeps s' B' /\ (failed = false -> exists mem, stores mem s s')
  end.

Lemma unkeyed_mem results : unkeyed results -> mem_ok (mem_of zero results) /\
  forall x o, length x = 20%nat -> last_result (mem_pairs (mem_of zero results)) x o = o.
Proof.
  intros Hu. split.
  - unfold mem_ok, mem_of. apply Forall_map. eapply Forall_impl; [exact Hu|]. intros r Hr. split; [done|by left].
  - intros x o Hx. revert o. induction Hu as [|r results Hr Hu IH]; intros o; [done|]. simpl.
    rewrite Hr, decide_False by (intros <-; done). apply IH.
Qed.

(** The rest of the transition once [create_rest] returned results. *)
Lemma creation_settled k t id u b results N C : open_at k (p_state u) -> live (p_state u) -> unkeyed results ->
  agrees dbGet (p_vm u) (bk_ledger B) -> (forall b, nonce_of u b = N b) -> (forall b, code_of u b = C b) ->
  taken (N zero) (C zero) = true -> p_cache u = p_cache s -> v_tmp (p_vm u) = v_tmp (p_vm s) ->
  (forall h, a_storage (account_of (p_state u) zero) h = a_storage (account_of (p_state s) zero) h) ->
  head (msg_actions tx) ≫= act_Address = Some b -> mem_of b results = mem_of zero results ->
  create_rest dbGet CreateAddress a (msg_nonce tx) (msg_actions tx) t = Ok (inr results, u) ->
  TransitionDb dbGet CreateAddress (Some cb) number a (msg_nonce tx) (msg_actions tx) s =
    finish_creation dbGet CreateAddress number a (msg_nonce tx) (msg_actions tx) id t ->
  refined_by (Some (inr false, mkBooks N C (bk_ledger B))).
Proof.
  intros Hk Hl Hun Hag HN HC Htk Hca Htmp Hsto Hb Hmem Hcr Hrun.
  destruct (AddLog_ok k u (MakeLog b results number) Hk) as (v & Hv & Hkv & Tv & Cv & Lv).
  destruct (unkeyed_mem results Hun) as [Hok Hlast].
  destruct (tx_settled k v (mem_of zero results) N C (bk_ledger B) Hkv) as (rc & s' & Happ & Hst & Hkp & Hsto'); try done; try congruence.
  - intros x o Ho. rewrite Lv in Ho. by apply (Hl x).
  - intros x Hx. rewrite <- (Hag x Hx). apply record_ext; [done|]. unfold account_of. fold (p_state v) (p_state u). by rewrite Lv.
  - intros x. rewrite <- HN. unfold nonce_of, account_of. by rewrite Lv.
  - intros x. rewrite <- HC. unfold code_of, codeHash_at. by rewrite Lv.
  - intros h. rewrite <- Hsto. unfold account_of. by rewrite Lv.
  - intros x Hx. rewrite Hlast by done. unfold in_memory. congruence.
  - rewrite Hrun. unfold finish_creation. rewrite (run_step _ _ _ _ _ Hcr), Hb, (run_step _ _ _ _ _ Hv), Hmem. done.
  - exists rc, s'. split_and!; try done. by exists (mem_of zero results).
Qed.

Lemma tx_rejected e s' : TransitionDb dbGet CreateAddress (Some cb) number a (msg_nonce tx) (msg_actions tx) s = Ok (inl e, s') ->
  forall B', refined_by (Some (inl e, B')).
Proof. intros Ht B'. exists s'. unfold ApplyTransaction. by rewrite Hfrom, (run_step _ _ _ _ _ Ht). Qed.

Lemma creation_of_Some actions fee code : creation_of actions = Some (fee, code) ->
  is_creation actions = true /\ exists contract, actions = [fee; contract] /\ act_Params contract = code.
Proof.
  destruct actions as [|x [|y [|]]]; try done. simpl. destruct (act_Address y); [done|]. intros [= -> <-]. eauto.
Qed.

Lemma creation_of_None actions : creation_of actions = None -> is_creation actions = false.
Proof. destruct actions as [|x [|y [|]]]; try done. simpl. by destruct (act_Address y). Qed.

Lemma creation_refused g id t u e : create_rest dbGet CreateAddress a (msg_nonce tx) (msg_actions tx) t = Ok (inl e, u) ->
  open_at [(id, p_state g)] (p_state u) ->
  TransitionDb dbGet CreateAddress (Some cb) number a (msg_nonce tx) (msg_actions tx) s =
    finish_creation dbGet CreateAddress number a (msg_nonce tx) (msg_actions tx) id t ->
  forall B', refined_by (Some (inl e, B')).
Proof.
  intros Hu Ku Hrun. destruct (open_revert [] id (p_state g) [] (p_state u) Ku) as (r & Hr & _). apply (tx_rejected e (on_accounts u r)).
  rewrite Hrun. unfold finish_creation. by rewrite (run_step _ _ _ _ _ Hu), (run_step _ _ _ _ _ (db_ok _ _ _ _ Hr)).
Qed.

(** The accounts once the one of the contract is added. *)
Lemma contract_added t u c code o : (forall x, x <> c -> load (p_state u) x = load (p_state t) x) -> load (p_state u) c = Some o ->
  contract_obj code o -> c <> zero -> live (p_state t) ->
  live (p_state u) /\ (forall x, nonce_of u x = if decide (x = c) then 1 else nonce_of t x) /\
  (forall x, code_of u x = if decide (x = c) then code_hash code else code_of t x) /\
  forall h, a_storage (account_of (p_state u) zero) h = a_storage (account_of (p_state t) zero) h.
Proof.
  intros Lu Ho Hobj Hcz Hlt. split_and!.
  - intros x ox Hx. destruct (decide (x = c)) as [->|Hne]; [|rewrite Lu in Hx by done; by apply (Hlt x)].
    rewrite Ho in Hx. injection Hx as <-. split; [apply Hobj|]. unfold empty. by rewrite (co_nonce _ _ Hobj).
  - intros x. unfold nonce_of, account_of. case_decide as Hx; [subst x; rewrite Ho; apply Hobj|by rewrite Lu].
  - intros x. unfold code_of, codeHash_at. case_decide as Hx; [subst x|by rewrite Lu]. rewrite Ho, (co_hash _ _ Hobj).
    unfold code_hash, Keccak256Hash. by rewrite (BytesToHash_id (BytesToHash _)) by apply BytesToHash_length.
  - intros h. unfold account_of. by rewrite Lu.
Qed.

Lemma tx_creates fee code : creation_of (msg_actions tx) = Some (fee, code) ->
  refined_by (spec_creation code_hash (CreateAddress a (msg_nonce tx)) fee code (bump_books B a)).
Proof.
  intros (Hcr & contract & Hacts & Hcode)%creation_of_Some.
  destruct tx_begin as (g & id & t & Hk & Hst & Hag & HN & HC & Hlt & Hrun). rewrite Hcr in Hrun.
  destruct (create_reads dbGet CreateAddress _ t a (msg_nonce tx) (msg_actions tx) Hk) as (t1 & K1 & A1 & L1 & Hc1).
  set (c := CreateAddress a (msg_nonce tx)) in *. rewrite HN, HC in Hc1. unfold spec_creation. cbn [bk_nonce bk_code bk_ledger bump_books].
  destruct (taken (bump (bk_nonce B) a c) (bk_code B c)) eqn:Htk; [by apply (creation_refused g id t t1)|]. rewrite Hacts in Hc1.
  assert (c <> zero) as Hcz by (intros He; rewrite He in Htk; pose proof contract_bumped; congruence).
  pose proof (create_account_spec dbGet _ t1 c fee contract (bk_ledger B) K1) as Hspec. rewrite <- Hc1, <- Hacts, Hcode in Hspec.
  assert (v_tmp (p_vm t1) = v_tmp (p_vm s) /\ p_cache t1 = p_cache s) as [Ht1 Hca1].
  { pose proof (sd_aside' _ _ _ _ _ _ Hst) as [? ? _]. destruct A1 as [? ? _]. split; congruence. }
  assert (forall h, a_storage (account_of (p_state t) zero) h = a_storage (account_of (p_state s) zero) h) as Hsto
    by (intros h; by apply (started_storage _ _ _ _ _ _ _ Hst)).
  destruct (spec_bare_action fee (bk_ledger B)) as [[[e|results] L']|] eqn:Hbare.
  - destruct Hspec as (u & Hu & Ku & Tu & Cu & Su). destruct (bare_results _ _ _ _ Hbare) as [(b & Hb) _].
    assert (same_accounts t u) as Stu by (intros x; rewrite <- L1; apply Su).
    apply (creation_settled _ t id u b [] _ _ Ku); try done; try congruence.
    + by apply live_transport with t.
    + constructor.
    + apply same_accounts_agrees with t; try done. rewrite Tu, Ht1. symmetry. apply (sd_aside' _ _ _ _ _ _ Hst).
    + intros x. rewrite <- HN. apply (account_ext _ _ x (Stu x)).
    + intros x. rewrite <- HC. apply (code_ext _ _ x (Stu x)).
    + apply contract_bumped.
    + intros h. rewrite <- Hsto. apply (account_ext _ _ zero (Stu zero)).
    + by rewrite Hacts.
  - destruct (bare_results _ _ _ _ Hbare) as [_ [Hb Hun]%(fun f => f results eq_refl)].
    destruct (MaxCodeSize <? _); [destruct Hspec as (u & Hu & Ku); by apply (creation_refused g id t u)|].
    destruct Hspec as (u & k' & o & Hu & Ku & Tu & Cu & Ou & Ho & Hobj).
    assert (forall x, x <> c -> load (p_state u) x = load (p_state t) x) as Lu by (intros x Hx; by rewrite Ou, L1).
    destruct (contract_added t u c code o Lu Ho Hobj Hcz Hlt) as (Hul & Hun' & Huc & Hus).
    apply (creation_settled _ t id u zero results _ _ Ku); try done; try congruence.
    + intros x Hx. rewrite <- (Hag x Hx). apply record_ext; [|apply Hus].
      rewrite Tu, Ht1. symmetry. apply (sd_aside' _ _ _ _ _ _ Hst).
    + intros x. rewrite Hun', HN. done.
    + intros x. rewrite Huc, HC. done.
    + rewrite !decide_False by done. apply contract_bumped.
    + by rewrite Hacts.
  - unfold refined_by, ApplyTransaction. rewrite Hfrom. unfold mbind at 1, P_bind at 1. rewrite Hrun.
    unfold finish_creation, mbind at 1, P_bind at 1. by rewrite Hspec.
Qed.
End OneTx.

Lemma tx_refines s B cb number tx : keeps s B -> length cb = 20%nat -> nonce_fits tx ->
  refined_by s cb number tx (spec_tx CreateAddress code_hash cb tx B).
Proof.
  intros Hkeep Hcb Hfits. unfold spec_tx. destruct (msg_from tx) as [a|] eqn:Hfrom.
  2:{ exists s. unfold ApplyTransaction. by rewrite Hfrom. }
  destruct (verdict (bk_nonce B a) (msg_nonce tx)) as [e|] eqn:Hv.
  { destruct (preCheck_spec [] s a (msg_nonce tx) (ready_open _ (kp_ready _ _ Hkeep))) as (s1 & Hp & _).
    exists s1. rewrite (kp_nonce _ _ Hkeep), Hv in Hp. unfold ApplyTransaction. rewrite Hfrom.
    unfold TransitionDb, mbind, P_bind. by rewrite Hp. }
  apply verdict_None in Hv. destruct (creation_of (msg_actions tx)) as [[fee code]|] eqn:Hcr; [by apply (tx_creates s B cb number tx a)|].
  apply creation_of_None in Hcr. destruct (spec_actions cb (msg_actions tx) (bk_ledger B)) as [[[mem|] L']|] eqn:Hspec.
  - destruct (tx_succeeds s B cb number tx a Hkeep Hcb Hfits Hfrom Hv mem L' Hcr Hspec) as (rc & s' & ? & ? & ? & ?).
    exists rc, s'. split_and!; eauto.
  - destruct (tx_failed s B cb number tx a Hkeep Hcb Hfits Hfrom Hv L' Hcr Hspec) as (rc & s' & ? & ? & ?). by exists rc, s'.
  - destruct (tx_start s B cb number tx a Hkeep Hfits Hv Hcr) as (g & id & t & Hk & _ & Hag & _ & _ & _ & Hrun).
    pose proof (run_actions_spec cb number (msg_actions tx) Hcb t _ (open_inv _ _ Hk) Hag) as Hacts. rewrite Hspec in Hacts.
    unfold refined_by, ApplyTransaction. rewrite Hfrom. unfold mbind at 1, P_bind at 1. rewrite Hrun. unfold finish, mbind at 1, P_bind at 1.
    by rewrite Hacts.
Qed.

(** ** Blocks *)

Lemma keeps_prepared s B h b i : keeps s B -> keeps (prepared h b i s) B.
Proof.
  intros [(Hb & Hn & Hl) N C L K]. split; try done. destruct Hb as (Hi & Hj & Hv & Ht). split; [|done].
  pose proof (ready_open _ (conj (conj Hi (conj Hj (conj Hv Ht))) (conj Hn Hl))) as Ho.
  destruct (open_prepared [] h b i s Ho) as (Hh & Ht' & _). split_and!; [by apply history_inv in Hh|done|done|].
  simpl in Ht'. by rewrite Hj in Ht'.
Qed.

Lemma keeps_root s B : keeps s B -> exists h u, db IntermediateRoot s = Ok (h, on_accounts s u) /\ keeps (on_accounts s u) B /\
  same_accounts s (on_accounts s u).
Proof.
  intros [Hy N C L K]. pose proof (ready_open _ Hy) as Ho. destruct (open_Finalise [] (p_state s) Ho) as (u & Hu & _).
  destruct (finalise_live [] s u Ho (proj2 (proj2 Hy)) Hu) as [Hyu Su].
  destruct (tHash (trie u)) as [h tr] eqn:Hh. exists h, (st_trie u tr).
  assert (forall a, load (st_trie u tr) a = load u a) as Hld by (intros a; by apply (load_hash u h)).
  assert (same_accounts s (on_accounts s (st_trie u tr))) as Ss by (intros b; rewrite Hld; apply Su).
  split_and!; [apply db_ok; unfold IntermediateRoot, mbind, M_bind, hashTrie; by rewrite Hu, Hh| |done].
  split; [by apply ready_hash with h| | | |done].
  - intros a. rewrite <- N. apply (account_ext _ _ a (Ss a)).
  - intros a. rewrite <- C. apply (code_ext _ _ a (Ss a)).
  - by apply same_accounts_agrees with s.
Qed.

(** What processing does after the first transaction. *)
Definition process_rest (sys : option Address) (number : Z) (bh : Hash) (i : Z) (txs : list message) (r : procErr + Receipt)
    : P E T (procErr + list Receipt) :=
  match r with
  | inl e => mret (inl e)
  | inr receipt =>
      rest ← process_txs dbGet CreateAddress sys number bh (i + 1) txs;
      mret (match rest with inl e => inl e | inr l => inr (receipt :: l) end)
  end.

Lemma process_cons sys number bh i tx txs s : process_txs dbGet CreateAddress sys number bh i (tx :: txs) s =
  (r ← ApplyTransaction dbGet CreateAddress sys number tx; process_rest sys number bh i txs r) (prepared (msg_hash tx) bh i s).
Proof. done. Qed.

Lemma txs_refine cb number bh txs : length cb = 20%nat -> Forall nonce_fits txs -> forall i s B, keeps s B ->
  match spec_txs CreateAddress code_hash cb txs B with
  | None => process_txs dbGet CreateAddress (Some cb) number bh i txs s = Panic
  | Some (inl e, _) => exists s', process_txs dbGet CreateAddress (Some cb) number bh i txs s = Ok (inl e, s')
  | Some (inr l, B') => exists receipts s',
      process_txs dbGet CreateAddress (Some cb) number bh i txs s = Ok (inr receipts, s') /\
      r_Status <$> receipts = NewReceipt <$> l /\ keeps s' B'
  end.
Proof.
  intros Hcb Htxs. induction Htxs as [|tx txs Htx Htxs IH]; intros i s B Hkeep; [by exists [], s|].
  pose proof (tx_refines _ B cb number tx (keeps_prepared s B (msg_hash tx) bh i Hkeep) Hcb Htx) as Hstep.
  rewrite process_cons. cbn [spec_txs]. destruct (spec_tx CreateAddress code_hash cb tx B) as [[[e|failed] B1]|].
  - destruct Hstep as (s1 & Hs1). exists s1. by rewrite (run_step _ _ _ _ _ Hs1).
  - destruct Hstep as (rc & s1 & Hs1 & Hst & Hk1 & _). specialize (IH (i + 1) s1 B1 Hk1).
    rewrite (run_step _ _ _ _ _ Hs1). unfold process_rest. destruct (spec_txs CreateAddress code_hash cb txs B1) as [[[e|l] B2]|].
    + destruct IH as (s2 & Hs2). exists s2. by rewrite (run_step _ _ _ _ _ Hs2).
    + destruct IH as (rcs & s2 & Hs2 & Hsts & Hk2). exists (rc :: rcs), s2. rewrite (run_step _ _ _ _ _ Hs2).
      split; [done|]. split; [|done]. by rewrite !fmap_cons, Hst, Hsts.
    + unfold mbind, P_bind. by rewrite IH.
  - unfold mbind, P_bind. by rewrite Hstep.
Qed.

(** ** What the next block reads *)

(** Every record in memory is stored: its hash in the slot of its key, its value
    among those collected.  The slots of the others are as [old] has them. *)
Record synced (old : Hash -> Hash) s : Prop := {
  sy_memory k d : length k = 20%nat -> in_memory (p_vm s) k = Some d ->
    a_storage (account_of (p_state s) zero) (slot k) = Keccak256Hash d /\
    p_cache s !! (zero ++ k) = Some (mkMem zero (Keccak256Hash d) d);
  sy_other k : length k = 20%nat -> in_memory (p_vm s) k = None ->
    a_storage (account_of (p_state s) zero) (slot k) = old (slot k);
}.

Lemma collected_key mem k c o d : mem_ok mem ->
  (forall d, o = Some d -> c !! (zero ++ k) = Some (mkMem zero (Keccak256Hash d) d)) ->
  last_result (mem_pairs mem) k o = Some d -> collected mem c !! (zero ++ k) = Some (mkMem zero (Keccak256Hash d) d).
Proof.
  intros Hok. revert c o. induction Hok as [|x mem [Hx _] Hok IH]; intros c o Ho; simpl; [by apply Ho|]. rewrite Hx.
  destruct (decide (mem_Key x = k)) as [->|Hne]; apply IH.
  - intros ? [= <-]. apply lookup_insert_eq.
  - intros d' Hd'. rewrite lookup_insert_ne; [by apply Ho|]. intros He. by apply app_inv_head in He.
Qed.

Lemma last_result_none l k o : last_result l k o = None -> o = None.
Proof. destruct o as [d|]; [|done]. intros Hn. destruct (last_result_some l k (Some d)) as [? Hs]; [done|congruence]. Qed.

Lemma synced_step old s s' mem : synced old s -> stores mem s s' -> synced old s'.
Proof.
  intros [Hm Ho] [Hok Hc Hme Hsl]. split.
  - intros k d Hl. rewrite (Hme k Hl), (Hsl k Hl). intros Hd. split.
    + apply (stored_key mem k _ (in_memory (p_vm s) k)); try done. intros d0 Hd0. by apply Hm.
    + rewrite Hc. apply (collected_key mem k _ (in_memory (p_vm s) k)); try done. intros d0 Hd0. by apply Hm.
  - intros k Hl. rewrite (Hme k Hl), (Hsl k Hl). intros Hn. rewrite (stored_absent mem k _ (in_memory (p_vm s) k)) by done.
    apply Ho; [done|]. by apply last_result_none in Hn.
Qed.

Lemma txs_synced cb number bh txs old : length cb = 20%nat -> Forall nonce_fits txs -> forall i s B l B', keeps s B ->
  spec_txs CreateAddress code_hash cb txs B = Some (inr l, B') -> Forall (fun failed => failed = false) l -> synced old s ->
  exists receipts s', process_txs dbGet CreateAddress (Some cb) number bh i txs s = Ok (inr receipts, s') /\
    r_Status <$> receipts = NewReceipt <$> l /\ keeps s' B' /\ synced old s'.
Proof.
  intros Hcb Htxs. induction Htxs as [|tx txs Htx Htxs IH]; intros i s B l B' Hkeep Hspec Hl Hsy.
  { injection Hspec as <- <-. by exists [], s. }
  pose proof (keeps_prepared s B (msg_hash tx) bh i Hkeep) as Hkp. rewrite process_cons. cbn [spec_txs] in Hspec.
  destruct (spec_tx CreateAddress code_hash cb tx B) as [[[e|failed] B1]|] eqn:Htxs1; try done.
  destruct (spec_txs CreateAddress code_hash cb txs B1) as [[[e|l'] B2]|] eqn:Hrest; try done. injection Hspec as <- <-.
  apply Forall_cons in Hl as [-> Hl]. pose proof (tx_refines _ B cb number tx Hkp Hcb Htx) as Hstep. rewrite Htxs1 in Hstep.
  destruct Hstep as (rc & s1 & Hs1 & Hst & Hk1 & (mem & Hmem)%(fun f => f eq_refl)).
  assert (synced old s1) as Hsy1 by (by apply synced_step with (prepared (msg_hash tx) bh i s) mem; [split; apply Hsy|]).
  destruct (IH (i + 1) s1 _ _ _ Hk1 Hrest Hl Hsy1) as (rcs & s2 & Hs2 & Hsts & Hk2 & Hsy2).
  exists (rc :: rcs), s2. rewrite (run_step _ _ _ _ _ Hs1). unfold process_rest. rewrite (run_step _ _ _ _ _ Hs2).
  split_and!; try done. by rewrite !fmap_cons, Hst, Hsts.
Qed.

(** No two of the values in play share a hash: neither two of those collected, nor
    one of them and what an untouched slot points to. *)
Definition no_collision (old : Hash -> Hash) (cache : gmap (list byte) MemDatabase) : Prop :=
  forall i x, cache !! i = Some x ->
    (forall j y, cache !! j = Some y -> mem_Key x = mem_Key y -> mem_Val x = mem_Val y) /\
    (forall k, mem_Key x = old (slot k) -> dbGet (mem_Key x) = Some (mem_Val x)).

Lemma write_at l (get : list byte -> option (list byte)) k v :
  (forall x, x ∈ l -> mem_Key x = k -> mem_Val x = v) ->
  foldl (fun get x k => if decide (k = mem_Key x) then Some (mem_Val x) else get k) get l k =
  if decide (k ∈ map mem_Key l) then Some v else get k.
Proof.
  revert get. induction l as [|x l IH]; intros get Hl; simpl; [done|].
  rewrite IH by (intros y Hy; apply Hl; by apply list_elem_of_further).
  destruct (decide (k ∈ map mem_Key l)) as [Hin|Hin].
  - rewrite decide_True; [done|]. by apply list_elem_of_further.
  - destruct (decide (k = mem_Key x)) as [->|Hne].
    + rewrite decide_True by apply list_elem_of_here. f_equal. apply Hl; [apply list_elem_of_here|done].
    + rewrite decide_False; [done|]. by intros [?|?]%elem_of_cons.
Qed.

Lemma cache_values (cache : gmap (list byte) MemDatabase) x : x ∈ (map_to_list cache).*2 <-> exists i, cache !! i = Some x.
Proof.
  rewrite list_elem_of_fmap. split.
  - intros ([i y] & -> & Hi%elem_of_map_to_list). by exists i.
  - intros (i & Hi%elem_of_map_to_list). by exists (i, x).
Qed.

Lemma WriteCacheDb_at cache i x : (forall i x, cache !! i = Some x -> forall j y, cache !! j = Some y -> mem_Key x = mem_Key y -> mem_Val x = mem_Val y) ->
  cache !! i = Some x -> WriteCacheDb dbGet cache (mem_Key x) = Some (mem_Val x).
Proof.
  intros Hc Hi. unfold WriteCacheDb. rewrite (write_at _ _ _ (mem_Val x)).
  - rewrite decide_True; [done|]. apply list_elem_of_fmap. exists x. split; [done|]. apply cache_values. by exists i.
  - intros y (j & Hj)%cache_values He. by apply (Hc j y Hj i x).
Qed.

Lemma WriteCacheDb_other cache k : (forall i x, cache !! i = Some x -> mem_Key x = k -> dbGet k = Some (mem_Val x)) ->
  WriteCacheDb dbGet cache k = dbGet k.
Proof.
  intros Hc. unfold WriteCacheDb. destruct (dbGet k) as [v|] eqn:Hk.
  - rewrite (write_at _ _ _ v); [by destruct (decide _)|]. intros x (i & Hi)%cache_values He. specialize (Hc i x Hi He). congruence.
  - rewrite (write_at _ _ _ []); [rewrite decide_False; [done|]|].
    + intros (x & -> & (i & Hi)%cache_values)%list_elem_of_fmap. by specialize (Hc i x Hi eq_refl).
    + intros x (i & Hi)%cache_values He. by specialize (Hc i x Hi He).
Qed.

(** C1: processing a block implements its specification on nonces, code hashes and
    balances, contract creations included: it panics when the specification does,
    reports the error of the first transaction that is rejected, and otherwise
    returns a receipt for every transaction with the specified status (a failed
    action gives status 0, not an error) and leaves the specified nonces, code
    hashes and ledger.  The nonces of the transactions are below 2^64 - 1, the account
    of the balance contract has a nonce or code, and the hash tells the storage keys
    of the records apart. *)
Theorem block_refines s B cb number bh txs : keeps s B -> length cb = 20%nat -> Forall nonce_fits txs ->
  match spec_txs CreateAddress code_hash cb txs B with
  | None => Process dbGet CreateAddress cb number bh txs s = Panic
  | Some (inl e, _) => exists s', Process dbGet CreateAddress cb number bh txs s = Ok (inl e, s')
  | Some (inr l, B') => exists receipts s', Process dbGet CreateAddress cb number bh txs s = Ok (inr receipts, s') /\
      r_Status <$> receipts = NewReceipt <$> l /\ keeps s' B'
  end.
Proof.
  intros Hk Hcb Htxs. pose proof (txs_refine cb number bh txs Hcb Htxs 0 s B Hk) as Hr. unfold Process.
  destruct (spec_txs CreateAddress code_hash cb txs B) as [[[e|l] B']|].
  - destruct Hr as (s1 & Hs1). exists s1. by rewrite (run_step _ _ _ _ _ Hs1).
  - destruct Hr as (rcs & s1 & Hs1 & Hst & Hk1). destruct (keeps_root s1 B' Hk1) as (h & u & Hroot & Hku & _).
    exists rcs, (on_accounts s1 u). rewrite (run_step _ _ _ _ _ Hs1), (run_step _ _ _ _ _ Hroot). done.
  - unfold mbind, P_bind. by rewrite Hr.
Qed.

(** The block of successful transactions, with what it leaves in storage. *)
Lemma block_synced s B cb number bh txs l B' old : keeps s B -> length cb = 20%nat -> Forall nonce_fits txs ->
  spec_txs CreateAddress code_hash cb txs B = Some (inr l, B') -> Forall (fun failed => failed = false) l -> synced old s ->
  exists receipts s', Process dbGet CreateAddress cb number bh txs s = Ok (inr receipts, s') /\ keeps s' B' /\ synced old s'.
Proof.
  intros Hk Hcb Htxs Hspec Hl Hsy.
  destruct (txs_synced cb number bh txs old Hcb Htxs 0 s B l B' Hk Hspec Hl Hsy) as (rcs & s1 & Hs1 & _ & Hk1 & Hsy1).
  destruct (keeps_root s1 B' Hk1) as (h & u & Hroot & Hku & Hsame). exists rcs, (on_accounts s1 u).
  unfold Process. rewrite (run_step _ _ _ _ _ Hs1), (run_step _ _ _ _ _ Hroot). split; [done|]. split; [done|].
  destruct (account_ext _ _ zero (Hsame zero)) as (_ & _ & Hst & _).
  split; intros k; [intros d|]; rewrite Hst; apply Hsy1.
Qed.

End Block.

Section Persist.
Context {E T : Type} `{StateEnvLaws E T}.
Context (dbGet : list byte -> option (list byte)) (CreateAddress : Address -> Z -> Address).
Hypothesis keys_distinct : forall k k', length k = 20%nat -> key_ok k' -> slot k = slot k' -> k = k'.

(** C4: what a block leaves is what the next block reads.  After a block of
    transactions, contract creations included, that all succeed, processed from
    empty memory, a node that puts the collected values into the database and
    starts again with empty memory keeps the books that the specification of the
    block reaches, unless two of the values in play share a hash.  The nonces of
    the transactions are below 2^64 - 1, the account of the balance contract has a
    nonce or code, and the hash tells the storage keys of the records apart. *)
Theorem block_persists (s : pstate E T) B cb number bh txs l B' : keeps dbGet s B ->
  v_tmp (p_vm s) = ∅ -> length cb = 20%nat -> Forall nonce_fits txs ->
  spec_txs CreateAddress code_hash cb txs B = Some (inr l, B') -> Forall (fun failed => failed = false) l ->
  exists receipts s', Process dbGet CreateAddress cb number bh txs s = Ok (inr receipts, s') /\
    (no_collision dbGet (a_storage (account_of (p_state s) BalanceTransferAddress)) (p_cache s') ->
     keeps (WriteCacheDb dbGet (p_cache s')) (mkP (mkV (p_state s') ∅) ∅) B').
Proof.
  intros Hk Htmp Hcb Htxs Hspec Hl. set (old := a_storage (account_of (p_state s) BalanceTransferAddress)).
  assert (synced old s) as Hsy by (split; unfold in_memory; rewrite Htmp; done).
  destruct (block_synced dbGet CreateAddress keys_distinct s B cb number bh txs l B' old Hk Hcb Htxs Hspec Hl Hsy)
    as (rcs & s' & Hr & [Hy N C L K] & [Sm So]). exists rcs, s'. split; [done|]. intros Hnc. split; try done.
  intros k Hlen. rewrite <- (L k Hlen). 
  transitivity (WriteCacheDb dbGet (p_cache s') (a_storage (account_of (p_state s') BalanceTransferAddress) (slot k))); [done|].
  unfold record_at. fold (in_memory (p_vm s') k). destruct (in_memory (p_vm s') k) as [d|] eqn:Hd.
  - destruct (Sm k d Hlen Hd) as [Hst Hc]. rewrite Hst.
    apply (WriteCacheDb_at dbGet (p_cache s') _ _ (fun i x Hi => proj1 (Hnc i x Hi)) Hc).
  - specialize (So k Hlen Hd). rewrite So. transitivity (dbGet (old (slot k))); [|by rewrite <- So]. apply WriteCacheDb_other.
    intros i x Hi Hx. destruct (Hnc i x Hi) as [_ Ho]. rewrite <- Hx. by apply (Ho k).
Qed.
End Persist.

(** ** Examples *)

(** A node after the default genesis block, with an empty database. *)
Definition exGenesis : StateDB unit memTrie :=
  match ToBlock DefaultGenesisBlock (opened ∅) with Ok (_, s) => s | _ => memState end.
Definition exNode : pstate unit memTrie := mkP (mkV exGenesis ∅) ∅.
(** What is recorded of code there. *)
Definition exCode : list byte -> option Hash := @code_hash unit memTrie memEnv.
Definition exBooks : books := mkBooks (fun _ => 0) (fun a => if decide (a = zeroAddress) then exCode [1; 2; 3; 4; 5] else None) (fun _ => None).

Lemma mem_slots k k' : length k = 20%nat -> key_ok k' -> @slot unit memTrie memEnv k = slot k' -> k = k'.
Proof.
  assert (forall x, (length x <= 20)%nat -> @slot unit memTrie memEnv x = memHash (zeroAddress ++ x)) as Hs.
  { intros x Hx. unfold slot, Keccak256Hash. apply BytesToHash_id. simpl. unfold memHash.
    rewrite !length_app, length_replicate, length_drop. simpl. lia. }
  intros Hk [->|Hk'].
  - rewrite !Hs by (simpl; lia). unfold memHash. intros He%(f_equal (list.last)). exfalso. revert He.
    rewrite !(app_assoc (replicate _ _)), !last_snoc, !length_app, Hk. simpl. done.
  - rewrite !Hs by lia. unfold memHash. rewrite !length_app, Hk, Hk'. simpl. intros [= He]. by apply app_inv_tail in He.
Qed.

Lemma exGenesis_run : ready exGenesis /\
  (exists o, load exGenesis zeroAddress = Some o /\ Nonce (data o) = 0 /\ (forall k, sview o k = zeroHash) /\
    @coded unit memTrie memEnv (BytesToHash (codeHashBytes (data o))) = exCode [1; 2; 3; 4; 5]) /\
  forall a, a <> zeroAddress -> load exGenesis a = None.
Proof.
  destruct (ToBlock_run DefaultGenesisBlock (∅ : memTrie)) as (root & s' & Hr & Hy & Ha).
  { done. } { intros k. apply lookup_empty. }
  { intros a x Hx. simpl in Hx. apply lookup_singleton_Some in Hx as [_ <-]. intros k v. simpl. by rewrite lookup_empty. }
  assert (exGenesis = s') as -> by (unfold exGenesis; by rewrite Hr). split; [done|]. split.
  - specialize (Ha zeroAddress).
    change (gen_Alloc DefaultGenesisBlock !! zeroAddress) with (Some (mkGenesisAccount (Some [1; 2; 3; 4; 5]) ∅ 0)) in Ha.
    destruct Ha as (o & Halo & Hl). assert (empty o = false) as He.
    { unfold empty. rewrite (al_hash _ _ Halo), bool_decide_false by (vm_compute; discriminate). apply andb_false_r. }
    rewrite He in Hl. destruct Hl as (o' & Ho' & Hso). exists o'. split; [done|]. split.
    + rewrite (so_nonce _ _ Hso). apply Halo.
    + split; [intros k; rewrite (so_storage _ _ Hso), (al_storage _ _ Halo); simpl; by rewrite lookup_empty|].
      rewrite (so_codeHash _ _ Hso), (al_hash _ _ Halo). vm_compute. reflexivity.
  - intros a Hne. specialize (Ha a). simpl in Ha. by rewrite lookup_singleton_ne in Ha.
Qed.

Lemma exNode_keeps : keeps noDb exNode exBooks.
Proof.
  destruct exGenesis_run as (Hy & (o & Ho & Hn & _ & Hc) & Hother).
  split; [exact Hy| | |intros a Hl; reflexivity|vm_compute; reflexivity]; intros a.
  - unfold nonce_of, account_of, p_state, exNode. cbn [p_vm v_state bk_nonce exBooks].
    destruct (decide (a = zeroAddress)) as [->|Hne]; [rewrite Ho; exact Hn|by rewrite Hother].
  - unfold code_of, codeHash_at, p_state, exNode. cbn [p_vm v_state bk_code exBooks].
    destruct (decide (a = zeroAddress)) as [->|Hne]; [rewrite Ho; exact Hc|by rewrite Hother].
Qed.

(** The producer mints its reward, which alice then shares with bob; then alice
    creates a contract. *)
Definition exHash (b : list byte) : list byte := replicate 32 0.
Definition exBlock : list message :=
  [ mkMessage (Some alice) 0 [mkAction (Some zeroAddress) (MakeActionParamsReword exHash alice)] (replicate 32 1) 9;
    mkMessage (Some alice) 1 [mkAction (Some zeroAddress) (MakaBalanceTransferParam exHash alice bob 30)] (replicate 32 2) 0;
    mkMessage (Some alice) 2 [mkAction (Some zeroAddress) (MakaBalanceTransferParam exHash alice alice 1); mkAction None [8; 8]]
      (replicate 32 3) 0 ].
Definition exCreate : Address -> Z -> Address := fun a n => replicate 19 7 ++ [n].

Lemma exBlock_fits : Forall nonce_fits exBlock.
Proof. repeat constructor; simpl; try lia. Qed.

Definition exAfter : books := match spec_txs exCreate exCode alice exBlock exBooks with Some (_, B) => B | None => exBooks end.

Lemma exBlock_spec : spec_txs exCreate exCode alice exBlock exBooks = Some (inr [false; false; false], exAfter).
Proof.
  assert (match spec_txs exCreate exCode alice exBlock exBooks with Some (inr l, _) => l | _ => [] end = [false; false; false]) as Hl
    by (vm_compute; reflexivity).
  unfold exAfter. destruct (spec_txs exCreate exCode alice exBlock exBooks) as [[[e|l] B]|]; try done. by subst l.
Qed.

Lemma block_refines_witness : exists receipts s',
  Process noDb exCreate alice 1 zeroHash exBlock exNode = Ok (inr receipts, s') /\ r_Status <$> receipts = [1; 1; 1] /\
  balance noDb (p_vm s') bob = 30 /\ code_of s' (exCreate alice 2) = exCode [8; 8].
Proof.
  pose proof (block_refines noDb exCreate mem_slots exNode exBooks alice 1 zeroHash exBlock exNode_keeps eq_refl exBlock_fits) as Hr.
  fold exCode in Hr. rewrite exBlock_spec in Hr. destruct Hr as (rcs & s' & Hr & Hs & [_ _ Hc Hl _]). exists rcs, s'.
  split; [exact Hr|]. split; [rewrite Hs; reflexivity|].
  split; [rewrite (agrees_balance noDb _ _ bob Hl) by reflexivity; vm_compute; reflexivity|].
  rewrite Hc. vm_compute. reflexivity.
Defined.

(** The values collected by that block. *)
Definition exEntry (a : Address) (n : Z) : MemDatabase :=
  mkMem zeroAddress (memHash (MarshalAmount n)) (MarshalAmount n).

Lemma exBlock_cache receipts s' : Process noDb exCreate alice 1 zeroHash exBlock exNode = Ok (inr receipts, s') ->
  forall i x, p_cache s' !! i = Some x -> x = exEntry alice 499970 \/ x = exEntry bob 30.
Proof.
  intros Hr i x Hi%elem_of_map_to_list.
  assert ((match Process noDb exCreate alice 1 zeroHash exBlock exNode with
           | Ok (_, s) => forallb (fun y => bool_decide (mem_Address y.2 = zeroAddress) &&
               (bool_decide ((mem_Key y.2, mem_Val y.2) = (mem_Key (exEntry alice 499970), mem_Val (exEntry alice 499970))) ||
                bool_decide ((mem_Key y.2, mem_Val y.2) = (mem_Key (exEntry bob 30), mem_Val (exEntry bob 30))))) (map_to_list (p_cache s))
           | _ => false end) = true) as Hc by (vm_compute; reflexivity).
  rewrite Hr in Hc. rewrite forallb_forall in Hc. apply list_elem_of_In in Hi. specialize (Hc (i, x) Hi).
  apply andb_prop in Hc as [Ha Hc]. apply bool_decide_eq_true in Ha. destruct x as [a k v]. cbn [mem_Address mem_Key mem_Val snd] in *. subst a.
  apply orb_prop in Hc as [Hc|Hc]; apply bool_decide_eq_true in Hc; injection Hc as -> ->; [by left|by right].
Qed.

Lemma exBlock_no_collision receipts s' : Process noDb exCreate alice 1 zeroHash exBlock exNode = Ok (inr receipts, s') ->
  no_collision noDb (a_storage (account_of (p_state exNode) BalanceTransferAddress)) (p_cache s').
Proof.
  intros Hr i x Hi. pose proof (exBlock_cache receipts s' Hr) as Hc. split.
  - intros j y Hj. destruct (Hc i x Hi) as [-> | ->], (Hc j y Hj) as [-> | ->]; try done; vm_compute; discriminate.
  - intros k Hk. exfalso. assert (mem_Key x <> zeroHash) as Hne by (destruct (Hc i x Hi) as [-> | ->]; vm_compute; discriminate).
    apply Hne. rewrite Hk. destruct exGenesis_run as (_ & (o & Ho & _ & Hs & _) & _).
    change (a_storage (account_of exGenesis zeroAddress) (slot k) = zeroHash). unfold account_of. rewrite Ho. apply Hs.
Qed.

Lemma block_persists_witness : exists receipts s',
  Process noDb exCreate alice 1 zeroHash exBlock exNode = Ok (inr receipts, s') /\
  keeps (WriteCacheDb noDb (p_cache s')) (mkP (mkV (p_state s') ∅) ∅) exAfter /\ balance_in (bk_ledger exAfter) alice = 499970.
Proof.
  destruct (block_persists noDb exCreate mem_slots exNode exBooks alice 1 zeroHash exBlock [false; false; false] exAfter
              exNode_keeps eq_refl eq_refl exBlock_fits exBlock_spec) as (rcs & s' & Hr & Hp); [by repeat constructor|].
  exists rcs, s'. split; [exact Hr|]. split; [exact (Hp (exBlock_no_collision _ _ Hr))|]. vm_compute. reflexivity.
Defined.

(** A transaction with two actions, of which the second fails. *)
Definition exHalf (nonce : Z) (h : Z) : message :=
  mkMessage (Some alice) nonce [mkAction (Some zeroAddress) (MakaBalanceTransferParam exHash alice bob 30); mkAction (Some alice) []]
    (replicate 32 h) 0.
Definition carol : Address := replicate 19 0 ++ [12].

(** The statuses of a block, and the balances that the next block reads. *)
Definition exOutcome (txs : list message) : option (list Z * list Z) :=
  match Process noDb exCreate alice 1 zeroHash txs exNode with
  | Ok (inr receipts, s) =>
      Some (r_Status <$> receipts,
            balance (WriteCacheDb noDb (p_cache s)) (mkV (p_state s) ∅) <$> [alice; bob; carol])
  | _ => None
  end.

(** A failed transaction does not use up its nonce: it can be put into a block any
    number of times. *)
Example failed_nonce_reused : (exOutcome [hd inhabitant exBlock; exHalf 1 5; exHalf 1 5; exHalf 1 5] : option (list Z * list Z)) =
  Some ([1; 0; 0; 0], [500000; 0; 0]).
Proof. vm_compute. reflexivity. Qed.

(** The transfer of a failed transaction stays in memory though its accounts were
    reverted: bob spends in the same block what alice still has in the next. *)
Example failed_transfer_mints :
  exOutcome [hd inhabitant exBlock; exHalf 1 5;
             mkMessage (Some bob) 0 [mkAction (Some zeroAddress) (MakaBalanceTransferParam exHash bob carol 30)] (replicate 32 6) 0] =
  Some ([1; 0; 1], [500000; 0; 30]).
Proof. vm_compute. reflexivity. Qed.
