(* ===== verification/Keccak.v ===== *)
(** * The Keccak permutation (utils/crypto/sha3/keccakf.go)

    [keccakF1600] as it is written: four rounds unrolled, working in place, so that
    after each of them the lanes lie in other positions. *)

From stdpp Require Import base list numbers sets.
From S2P Require Import Prelude.

Local Open Scope Z_scope.

(** Operations on [uint64]. *)
Definition shl (t n : Z) : Z := u64 (Z.shiftl t n).
Definition shr (t n : Z) : Z := Z.shiftr t n.

Declare Scope lane_scope.
Delimit Scope lane_scope with lane.
Infix "⊕" := Z.lxor (at level 50, left associativity) : lane_scope.
Infix "&^" := Z.ldiff (at level 40, left associativity) : lane_scope.
Infix ".|" := Z.lor (at level 50, left associativity) : lane_scope.
Local Open Scope lane_scope.

Definition rc : list Z :=
  [0x0000000000000001; 0x0000000000008082; 0x800000000000808A; 0x8000000080008000;
   0x000000000000808B; 0x0000000080000001; 0x8000000080008081; 0x8000000000008009;
   0x000000000000008A; 0x0000000000000088; 0x0000000080008009; 0x000000008000000A;
   0x000000008000808B; 0x800000000000008B; 0x8000000000008089; 0x8000000000008003;
   0x8000000000008002; 0x8000000000000080; 0x000000000000800A; 0x800000008000000A;
   0x8000000080008081; 0x8000000000008080; 0x0000000080000001; 0x8000000080008008].

(** The loop body, round by round. *)
Definition round1 (a : list Z) (rc_i : Z) : list Z :=
  match a with
  | [a0; a1; a2; a3; a4; a5; a6; a7; a8; a9; a10; a11; a12; a13; a14; a15; a16; a17; a18; a19; a20; a21; a22; a23; a24] =>
      let bc0 := a0 ⊕ a5 ⊕ a10 ⊕ a15 ⊕ a20 in
      let bc1 := a1 ⊕ a6 ⊕ a11 ⊕ a16 ⊕ a21 in
      let bc2 := a2 ⊕ a7 ⊕ a12 ⊕ a17 ⊕ a22 in
      let bc3 := a3 ⊕ a8 ⊕ a13 ⊕ a18 ⊕ a23 in
      let bc4 := a4 ⊕ a9 ⊕ a14 ⊕ a19 ⊕ a24 in
      let d0 := bc4 ⊕ (shl bc1 1 .| shr bc1 63) in
      let d1 := bc0 ⊕ (shl bc2 1 .| shr bc2 63) in
      let d2 := bc1 ⊕ (shl bc3 1 .| shr bc3 63) in
      let d3 := bc2 ⊕ (shl bc4 1 .| shr bc4 63) in
      let d4 := bc3 ⊕ (shl bc0 1 .| shr bc0 63) in
      let bc0 := a0 ⊕ d0 in
      let t := a6 ⊕ d1 in
      let bc1 := shl t 44 .| shr t (64 - 44) in
      let t := a12 ⊕ d2 in
      let bc2 := shl t 43 .| shr t (64 - 43) in
      let t := a18 ⊕ d3 in
      let bc3 := shl t 21 .| shr t (64 - 21) in
      let t := a24 ⊕ d4 in
      let bc4 := shl t 14 .| shr t (64 - 14) in
      let a0 := bc0 ⊕ (bc2 &^ bc1) ⊕ rc_i in
      let a6 := bc1 ⊕ (bc3 &^ bc2) in
      let a12 := bc2 ⊕ (bc4 &^ bc3) in
      let a18 := bc3 ⊕ (bc0 &^ bc4) in
      let a24 := bc4 ⊕ (bc1 &^ bc0) in
      let t := a10 ⊕ d0 in
      let bc2 := shl t 3 .| shr t (64 - 3) in
      let t := a16 ⊕ d1 in
      let bc3 := shl t 45 .| shr t (64 - 45) in
      let t := a22 ⊕ d2 in
      let bc4 := shl t 61 .| shr t (64 - 61) in
      let t := a3 ⊕ d3 in
      let bc0 := shl t 28 .| shr t (64 - 28) in
      let t := a9 ⊕ d4 in
      let bc1 := shl t 20 .| shr t (64 - 20) in
      let a10 := bc0 ⊕ (bc2 &^ bc1) in
      let a16 := bc1 ⊕ (bc3 &^ bc2) in
      let a22 := bc2 ⊕ (bc4 &^ bc3) in
      let a3 := bc3 ⊕ (bc0 &^ bc4) in
      let a9 := bc4 ⊕ (bc1 &^ bc0) in
      let t := a20 ⊕ d0 in
      let bc4 := shl t 18 .| shr t (64 - 18) in
      let t := a1 ⊕ d1 in
      let bc0 := shl t 1 .| shr t (64 - 1) in
      let t := a7 ⊕ d2 in
      let bc1 := shl t 6 .| shr t (64 - 6) in
      let t := a13 ⊕ d3 in
      let bc2 := shl t 25 .| shr t (64 - 25) in
      let t := a19 ⊕ d4 in
      let bc3 := shl t 8 .| shr t (64 - 8) in
      let a20 := bc0 ⊕ (bc2 &^ bc1) in
      let a1 := bc1 ⊕ (bc3 &^ bc2) in
      let a7 := bc2 ⊕ (bc4 &^ bc3) in
      let a13 := bc3 ⊕ (bc0 &^ bc4) in
      let a19 := bc4 ⊕ (bc1 &^ bc0) in
      let t := a5 ⊕ d0 in
      let bc1 := shl t 36 .| shr t (64 - 36) in
      let t := a11 ⊕ d1 in
      let bc2 := shl t 10 .| shr t (64 - 10) in
      let t := a17 ⊕ d2 in
      let bc3 := shl t 15 .| shr t (64 - 15) in
      let t := a23 ⊕ d3 in
      let bc4 := shl t 56 .| shr t (64 - 56) in
      let t := a4 ⊕ d4 in
      let bc0 := shl t 27 .| shr t (64 - 27) in
      let a5 := bc0 ⊕ (bc2 &^ bc1) in
      let a11 := bc1 ⊕ (bc3 &^ bc2) in
      let a17 := bc2 ⊕ (bc4 &^ bc3) in
      let a23 := bc3 ⊕ (bc0 &^ bc4) in
      let a4 := bc4 ⊕ (bc1 &^ bc0) in
      let t := a15 ⊕ d0 in
      let bc3 := shl t 41 .| shr t (64 - 41) in
      let t := a21 ⊕ d1 in
      let bc4 := shl t 2 .| shr t (64 - 2) in
      let t := a2 ⊕ d2 in
      let bc0 := shl t 62 .| shr t (64 - 62) in
      let t := a8 ⊕ d3 in
      let bc1 := shl t 55 .| shr t (64 - 55) in
      let t := a14 ⊕ d4 in
      let bc2 := shl t 39 .| shr t (64 - 39) in
      let a15 := bc0 ⊕ (bc2 &^ bc1) in
      let a21 := bc1 ⊕ (bc3 &^ bc2) in
      let a2 := bc2 ⊕ (bc4 &^ bc3) in
      let a8 := bc3 ⊕ (bc0 &^ bc4) in
      let a14 := bc4 ⊕ (bc1 &^ bc0) in
      [a0; a1; a2; a3; a4; a5; a6; a7; a8; a9; a10; a11; a12; a13; a14; a15; a16; a17; a18; a19; a20; a21; a22; a23; a24]
  | _ => a
  end.

(** Round 2 of the loop body. *)
Definition round2 (a : list Z) (rc_i : Z) : list Z :=
  match a with
  | [a0; a1; a2; a3; a4; a5; a6; a7; a8; a9; a10; a11; a12; a13; a14; a15; a16; a17; a18; a19; a20; a21; a22; a23; a24] =>
      let bc0 := a0 ⊕ a5 ⊕ a10 ⊕ a15 ⊕ a20 in
      let bc1 := a1 ⊕ a6 ⊕ a11 ⊕ a16 ⊕ a21 in
      let bc2 := a2 ⊕ a7 ⊕ a12 ⊕ a17 ⊕ a22 in
      let bc3 := a3 ⊕ a8 ⊕ a13 ⊕ a18 ⊕ a23 in
      let bc4 := a4 ⊕ a9 ⊕ a14 ⊕ a19 ⊕ a24 in
      let d0 := bc4 ⊕ (shl bc1 1 .| shr bc1 63) in
      let d1 := bc0 ⊕ (shl bc2 1 .| shr bc2 63) in
      let d2 := bc1 ⊕ (shl bc3 1 .| shr bc3 63) in
      let d3 := bc2 ⊕ (shl bc4 1 .| shr bc4 63) in
      let d4 := bc3 ⊕ (shl bc0 1 .| shr bc0 63) in
      let bc0 := a0 ⊕ d0 in
      let t := a16 ⊕ d1 in
      let bc1 := shl t 44 .| shr t (64 - 44) in
      let t := a7 ⊕ d2 in
      let bc2 := shl t 43 .| shr t (64 - 43) in
      let t := a23 ⊕ d3 in
      let bc3 := shl t 21 .| shr t (64 - 21) in
      let t := a14 ⊕ d4 in
      let bc4 := shl t 14 .| shr t (64 - 14) in
      let a0 := bc0 ⊕ (bc2 &^ bc1) ⊕ rc_i in
      let a16 := bc1 ⊕ (bc3 &^ bc2) in
      let a7 := bc2 ⊕ (bc4 &^ bc3) in
      let a23 := bc3 ⊕ (bc0 &^ bc4) in
      let a14 := bc4 ⊕ (bc1 &^ bc0) in
      let t := a20 ⊕ d0 in
      let bc2 := shl t 3 .| shr t (64 - 3) in
      let t := a11 ⊕ d1 in
      let bc3 := shl t 45 .| shr t (64 - 45) in
      let t := a2 ⊕ d2 in
      let bc4 := shl t 61 .| shr t (64 - 61) in
      let t := a18 ⊕ d3 in
      let bc0 := shl t 28 .| shr t (64 - 28) in
      let t := a9 ⊕ d4 in
      let bc1 := shl t 20 .| shr t (64 - 20) in
      let a20 := bc0 ⊕ (bc2 &^ bc1) in
      let a11 := bc1 ⊕ (bc3 &^ bc2) in
      let a2 := bc2 ⊕ (bc4 &^ bc3) in
      let a18 := bc3 ⊕ (bc0 &^ bc4) in
      let a9 := bc4 ⊕ (bc1 &^ bc0) in
      let t := a15 ⊕ d0 in
      let bc4 := shl t 18 .| shr t (64 - 18) in
      let t := a6 ⊕ d1 in
      let bc0 := shl t 1 .| shr t (64 - 1) in
      let t := a22 ⊕ d2 in
      let bc1 := shl t 6 .| shr t (64 - 6) in
      let t := a13 ⊕ d3 in
      let bc2 := shl t 25 .| shr t (64 - 25) in
      let t := a4 ⊕ d4 in
      let bc3 := shl t 8 .| shr t (64 - 8) in
      let a15 := bc0 ⊕ (bc2 &^ bc1) in
      let a6 := bc1 ⊕ (bc3 &^ bc2) in
      let a22 := bc2 ⊕ (bc4 &^ bc3) in
      let a13 := bc3 ⊕ (bc0 &^ bc4) in
      let a4 := bc4 ⊕ (bc1 &^ bc0) in
      let t := a10 ⊕ d0 in
      let bc1 := shl t 36 .| shr t (64 - 36) in
      let t := a1 ⊕ d1 in
      let bc2 := shl t 10 .| shr t (64 - 10) in
      let t := a17 ⊕ d2 in
      let bc3 := shl t 15 .| shr t (64 - 15) in
      let t := a8 ⊕ d3 in
      let bc4 := shl t 56 .| shr t (64 - 56) in
      let t := a24 ⊕ d4 in
      let bc0 := shl t 27 .| shr t (64 - 27) in
      let a10 := bc0 ⊕ (bc2 &^ bc1) in
      let a1 := bc1 ⊕ (bc3 &^ bc2) in
      let a17 := bc2 ⊕ (bc4 &^ bc3) in
      let a8 := bc3 ⊕ (bc0 &^ bc4) in
      let a24 := bc4 ⊕ (bc1 &^ bc0) in
      let t := a5 ⊕ d0 in
      let bc3 := shl t 41 .| shr t (64 - 41) in
      let t := a21 ⊕ d1 in
      let bc4 := shl t 2 .| shr t (64 - 2) in
      let t := a12 ⊕ d2 in
      let bc0 := shl t 62 .| shr t (64 - 62) in
      let t := a3 ⊕ d3 in
      let bc1 := shl t 55 .| shr t (64 - 55) in
      let t := a19 ⊕ d4 in
      let bc2 := shl t 39 .| shr t (64 - 39) in
      let a5 := bc0 ⊕ (bc2 &^ bc1) in
      let a21 := bc1 ⊕ (bc3 &^ bc2) in
      let a12 := bc2 ⊕ (bc4 &^ bc3) in
      let a3 := bc3 ⊕ (bc0 &^ bc4) in
      let a19 := bc4 ⊕ (bc1 &^ bc0) in
      [a0; a1; a2; a3; a4; a5; a6; a7; a8; a9; a10; a11; a12; a13; a14; a15; a16; a17; a18; a19; a20; a21; a22; a23; a24]
  | _ => a
  end.

(** Round 3 of the loop body. *)
Definition round3 (a : list Z) (rc_i : Z) : list Z :=
  match a with
  | [a0; a1; a2; a3; a4; a5; a6; a7; a8; a9; a10; a11; a12; a13; a14; a15; a16; a17; a18; a19; a20; a21; a22; a23; a24] =>
      let bc0 := a0 ⊕ a5 ⊕ a10 ⊕ a15 ⊕ a20 in
      let bc1 := a1 ⊕ a6 ⊕ a11 ⊕ a16 ⊕ a21 in
      let bc2 := a2 ⊕ a7 ⊕ a12 ⊕ a17 ⊕ a22 in
      let bc3 := a3 ⊕ a8 ⊕ a13 ⊕ a18 ⊕ a23 in
      let bc4 := a4 ⊕ a9 ⊕ a14 ⊕ a19 ⊕ a24 in
      let d0 := bc4 ⊕ (shl bc1 1 .| shr bc1 63) in
      let d1 := bc0 ⊕ (shl bc2 1 .| shr bc2 63) in
      let d2 := bc1 ⊕ (shl bc3 1 .| shr bc3 63) in
      let d3 := bc2 ⊕ (shl bc4 1 .| shr bc4 63) in
      let d4 := bc3 ⊕ (shl bc0 1 .| shr bc0 63) in
      let bc0 := a0 ⊕ d0 in
      let t := a11 ⊕ d1 in
      let bc1 := shl t 44 .| shr t (64 - 44) in
      let t := a22 ⊕ d2 in
      let bc2 := shl t 43 .| shr t (64 - 43) in
      let t := a8 ⊕ d3 in
      let bc3 := shl t 21 .| shr t (64 - 21) in
      let t := a19 ⊕ d4 in
      let bc4 := shl t 14 .| shr t (64 - 14) in
      let a0 := bc0 ⊕ (bc2 &^ bc1) ⊕ rc_i in
      let a11 := bc1 ⊕ (bc3 &^ bc2) in
      let a22 := bc2 ⊕ (bc4 &^ bc3) in
      let a8 := bc3 ⊕ (bc0 &^ bc4) in
      let a19 := bc4 ⊕ (bc1 &^ bc0) in
      let t := a15 ⊕ d0 in
      let bc2 := shl t 3 .| shr t (64 - 3) in
      let t := a1 ⊕ d1 in
      let bc3 := shl t 45 .| shr t (64 - 45) in
      let t := a12 ⊕ d2 in
      let bc4 := shl t 61 .| shr t (64 - 61) in
      let t := a23 ⊕ d3 in
      let bc0 := shl t 28 .| shr t (64 - 28) in
      let t := a9 ⊕ d4 in
      let bc1 := shl t 20 .| shr t (64 - 20) in
      let a15 := bc0 ⊕ (bc2 &^ bc1) in
      let a1 := bc1 ⊕ (bc3 &^ bc2) in
      let a12 := bc2 ⊕ (bc4 &^ bc3) in
      let a23 := bc3 ⊕ (bc0 &^ bc4) in
      let a9 := bc4 ⊕ (bc1 &^ bc0) in
      let t := a5 ⊕ d0 in
      let bc4 := shl t 18 .| shr t (64 - 18) in
      let t := a16 ⊕ d1 in
      let bc0 := shl t 1 .| shr t (64 - 1) in
      let t := a2 ⊕ d2 in
      let bc1 := shl t 6 .| shr t (64 - 6) in
      let t := a13 ⊕ d3 in
      let bc2 := shl t 25 .| shr t (64 - 25) in
      let t := a24 ⊕ d4 in
      let bc3 := shl t 8 .| shr t (64 - 8) in
      let a5 := bc0 ⊕ (bc2 &^ bc1) in
      let a16 := bc1 ⊕ (bc3 &^ bc2) in
      let a2 := bc2 ⊕ (bc4 &^ bc3) in
      let a13 := bc3 ⊕ (bc0 &^ bc4) in
      let a24 := bc4 ⊕ (bc1 &^ bc0) in
      let t := a20 ⊕ d0 in
      let bc1 := shl t 36 .| shr t (64 - 36) in
      let t := a6 ⊕ d1 in
      let bc2 := shl t 10 .| shr t (64 - 10) in
      let t := a17 ⊕ d2 in
      let bc3 := shl t 15 .| shr t (64 - 15) in
      let t := a3 ⊕ d3 in
      let bc4 := shl t 56 .| shr t (64 - 56) in
      let t := a14 ⊕ d4 in
      let bc0 := shl t 27 .| shr t (64 - 27) in
      let a20 := bc0 ⊕ (bc2 &^ bc1) in
      let a6 := bc1 ⊕ (bc3 &^ bc2) in
      let a17 := bc2 ⊕ (bc4 &^ bc3) in
      let a3 := bc3 ⊕ (bc0 &^ bc4) in
      let a14 := bc4 ⊕ (bc1 &^ bc0) in
      let t := a10 ⊕ d0 in
      let bc3 := shl t 41 .| shr t (64 - 41) in
      let t := a21 ⊕ d1 in
      let bc4 := shl t 2 .| shr t (64 - 2) in
      let t := a7 ⊕ d2 in
      let bc0 := shl t 62 .| shr t (64 - 62) in
      let t := a18 ⊕ d3 in
      let bc1 := shl t 55 .| shr t (64 - 55) in
      let t := a4 ⊕ d4 in
      let bc2 := shl t 39 .| shr t (64 - 39) in
      let a10 := bc0 ⊕ (bc2 &^ bc1) in
      let a21 := bc1 ⊕ (bc3 &^ bc2) in
      let a7 := bc2 ⊕ (bc4 &^ bc3) in
      let a18 := bc3 ⊕ (bc0 &^ bc4) in
      let a4 := bc4 ⊕ (bc1 &^ bc0) in
      [a0; a1; a2; a3; a4; a5; a6; a7; a8; a9; a10; a11; a12; a13; a14; a15; a16; a17; a18; a19; a20; a21; a22; a23; a24]
  | _ => a
  end.

(** Round 4 of the loop body. *)
Definition round4 (a : list Z) (rc_i : Z) : list Z :=
  match a with
  | [a0; a1; a2; a3; a4; a5; a6; a7; a8; a9; a10; a11; a12; a13; a14; a15; a16; a17; a18; a19; a20; a21; a22; a23; a24] =>
      let bc0 := a0 ⊕ a5 ⊕ a10 ⊕ a15 ⊕ a20 in
      let bc1 := a1 ⊕ a6 ⊕ a11 ⊕ a16 ⊕ a21 in
      let bc2 := a2 ⊕ a7 ⊕ a12 ⊕ a17 ⊕ a22 in
      let bc3 := a3 ⊕ a8 ⊕ a13 ⊕ a18 ⊕ a23 in
      let bc4 := a4 ⊕ a9 ⊕ a14 ⊕ a19 ⊕ a24 in
      let d0 := bc4 ⊕ (shl bc1 1 .| shr bc1 63) in
      let d1 := bc0 ⊕ (shl bc2 1 .| shr bc2 63) in
      let d2 := bc1 ⊕ (shl bc3 1 .| shr bc3 63) in
      let d3 := bc2 ⊕ (shl bc4 1 .| shr bc4 63) in
      let d4 := bc3 ⊕ (shl bc0 1 .| shr bc0 63) in
      let bc0 := a0 ⊕ d0 in
      let t := a1 ⊕ d1 in
      let bc1 := shl t 44 .| shr t (64 - 44) in
      let t := a2 ⊕ d2 in
      let bc2 := shl t 43 .| shr t (64 - 43) in
      let t := a3 ⊕ d3 in
      let bc3 := shl t 21 .| shr t (64 - 21) in
      let t := a4 ⊕ d4 in
      let bc4 := shl t 14 .| shr t (64 - 14) in
      let a0 := bc0 ⊕ (bc2 &^ bc1) ⊕ rc_i in
      let a1 := bc1 ⊕ (bc3 &^ bc2) in
      let a2 := bc2 ⊕ (bc4 &^ bc3) in
      let a3 := bc3 ⊕ (bc0 &^ bc4) in
      let a4 := bc4 ⊕ (bc1 &^ bc0) in
      let t := a5 ⊕ d0 in
      let bc2 := shl t 3 .| shr t (64 - 3) in
      let t := a6 ⊕ d1 in
      let bc3 := shl t 45 .| shr t (64 - 45) in
      let t := a7 ⊕ d2 in
      let bc4 := shl t 61 .| shr t (64 - 61) in
      let t := a8 ⊕ d3 in
      let bc0 := shl t 28 .| shr t (64 - 28) in
      let t := a9 ⊕ d4 in
      let bc1 := shl t 20 .| shr t (64 - 20) in
      let a5 := bc0 ⊕ (bc2 &^ bc1) in
      let a6 := bc1 ⊕ (bc3 &^ bc2) in
      let a7 := bc2 ⊕ (bc4 &^ bc3) in
      let a8 := bc3 ⊕ (bc0 &^ bc4) in
      let a9 := bc4 ⊕ (bc1 &^ bc0) in
      let t := a10 ⊕ d0 in
      let bc4 := shl t 18 .| shr t (64 - 18) in
      let t := a11 ⊕ d1 in
      let bc0 := shl t 1 .| shr t (64 - 1) in
      let t := a12 ⊕ d2 in
      let bc1 := shl t 6 .| shr t (64 - 6) in
      let t := a13 ⊕ d3 in
      let bc2 := shl t 25 .| shr t (64 - 25) in
      let t := a14 ⊕ d4 in
      let bc3 := shl t 8 .| shr t (64 - 8) in
      let a10 := bc0 ⊕ (bc2 &^ bc1) in
      let a11 := bc1 ⊕ (bc3 &^ bc2) in
      let a12 := bc2 ⊕ (bc4 &^ bc3) in
      let a13 := bc3 ⊕ (bc0 &^ bc4) in
      let a14 := bc4 ⊕ (bc1 &^ bc0) in
      let t := a15 ⊕ d0 in
      let bc1 := shl t 36 .| shr t (64 - 36) in
      let t := a16 ⊕ d1 in
      let bc2 := shl t 10 .| shr t (64 - 10) in
      let t := a17 ⊕ d2 in
      let bc3 := shl t 15 .| shr t (64 - 15) in
      let t := a18 ⊕ d3 in
      let bc4 := shl t 56 .| shr t (64 - 56) in
      let t := a19 ⊕ d4 in
      let bc0 := shl t 27 .| shr t (64 - 27) in
      let a15 := bc0 ⊕ (bc2 &^ bc1) in
      let a16 := bc1 ⊕ (bc3 &^ bc2) in
      let a17 := bc2 ⊕ (bc4 &^ bc3) in
      let a18 := bc3 ⊕ (bc0 &^ bc4) in
      let a19 := bc4 ⊕ (bc1 &^ bc0) in
      let t := a20 ⊕ d0 in
      let bc3 := shl t 41 .| shr t (64 - 41) in
      let t := a21 ⊕ d1 in
      let bc4 := shl t 2 .| shr t (64 - 2) in
      let t := a22 ⊕ d2 in
      let bc0 := shl t 62 .| shr t (64 - 62) in
      let t := a23 ⊕ d3 in
      let bc1 := shl t 55 .| shr t (64 - 55) in
      let t := a24 ⊕ d4 in
      let bc2 := shl t 39 .| shr t (64 - 39) in
      let a20 := bc0 ⊕ (bc2 &^ bc1) in
      let a21 := bc1 ⊕ (bc3 &^ bc2) in
      let a22 := bc2 ⊕ (bc4 &^ bc3) in
      let a23 := bc3 ⊕ (bc0 &^ bc4) in
      let a24 := bc4 ⊕ (bc1 &^ bc0) in
      [a0; a1; a2; a3; a4; a5; a6; a7; a8; a9; a10; a11; a12; a13; a14; a15; a16; a17; a18; a19; a20; a21; a22; a23; a24]
  | _ => a
  end.

Definition rounds (i : nat) (a : list Z) : list Z :=
  let r k := nth (i + k) rc 0 in
  round4 (round3 (round2 (round1 a (r 0%nat)) (r 1%nat)) (r 2%nat)) (r 3%nat).

(** [for i := 0; i < 24; i += 4] *)
Definition keccakF1600 (a : list Z) : list Z :=
  fold_left (fun a i => rounds i a) [0; 4; 8; 12; 16; 20]%nat a.

Lemma list_25 (a : list Z) : length a = 25%nat -> exists a0 a1 a2 a3 a4 a5 a6 a7 a8 a9 a10 a11 a12 a13 a14 a15 a16 a17 a18 a19 a20 a21 a22 a23 a24,
  a = [a0; a1; a2; a3; a4; a5; a6; a7; a8; a9; a10; a11; a12; a13; a14; a15; a16; a17; a18; a19; a20; a21; a22; a23; a24].
Proof. intros Hl. do 25 (destruct a as [|? a]; [discriminate Hl|]). destruct a; [|discriminate Hl]. repeat eexists. Qed.

Lemma rounds_length i a : length a = 25%nat -> length (rounds i a) = 25%nat.
Proof.
  assert (forall f, f ∈ [round1; round2; round3; round4] -> forall a r, length a = 25%nat -> length (f a r) = 25%nat) as Hf.
  { intros f Hf b r Hb. destruct (list_25 b Hb) as (a0 & a1 & a2 & a3 & a4 & a5 & a6 & a7 & a8 & a9 & a10 & a11 & a12 & a13 & a14 & a15 & a16 & a17 & a18 & a19 & a20 & a21 & a22 & a23 & a24 & ->).
    rewrite !elem_of_cons, elem_of_nil in Hf. by destruct Hf as [->|[->|[->|[->|[]]]]]. }
  intros Ha. unfold rounds. apply (Hf round4), (Hf round3), (Hf round2), (Hf round1); try done; rewrite !elem_of_cons; tauto.
Qed.

Lemma keccakF_length a : length a = 25%nat -> length (keccakF1600 a) = 25%nat.
Proof. intros Ha. unfold keccakF1600. cbn [fold_left]. by repeat apply rounds_length. Qed.
