(* ===== verification/KeccakSpec.v ===== *)
(** * The Keccak permutation against its definition (FIPS 202, section 3)

    The steps of the standard on a cube of bits, the same steps on 64-bit lanes, and the
    proof that the unrolled code computes them. *)

From Stdlib Require Import Btauto.
From stdpp Require Import base list numbers.
From S2P Require Import Prelude Keccak.

Local Open Scope Z_scope.

(** ** The standard: bits [A x y z], with [x], [y] below 5 and [z] below 64 *)

Module Fips.

Definition cube : Type := nat -> nat -> Z -> bool.

Definition column (A : cube) (x : nat) (z : Z) : bool :=
  xorb (xorb (xorb (xorb (A x 0%nat z) (A x 1%nat z)) (A x 2%nat z)) (A x 3%nat z)) (A x 4%nat z).

Definition theta (A : cube) : cube := fun x y z =>
  xorb (A x y z) (xorb (column A ((x + 4) mod 5)%nat z) (column A ((x + 1) mod 5)%nat ((z - 1) mod 64))).

(** The walk of the lanes: [t] steps from (1, 0). *)
Fixpoint lane_at (t : nat) : nat * nat :=
  match t with
  | O => (1, 0)%nat
  | S t => let '(x, y) := lane_at t in (y, (2 * x + 3 * y) mod 5)%nat
  end.

Definition offset (x y : nat) : Z :=
  match find (fun t => let '(x', y') := lane_at t in (Nat.eqb x' x && Nat.eqb y' y)%bool) (seq 0 24) with
  | Some t => (Z.of_nat t + 1) * (Z.of_nat t + 2) / 2
  | None => 0
  end.

Definition rho (A : cube) : cube := fun x y z => A x y ((z - offset x y) mod 64).
Definition pi (A : cube) : cube := fun x y z => A ((x + 3 * y) mod 5)%nat x z.
Definition chi (A : cube) : cube := fun x y z =>
  xorb (A x y z) (xorb (A ((x + 1) mod 5)%nat y z) true && A ((x + 2) mod 5)%nat y z).

(** [rc(t)]: the register of eight bits, [R[0]] first. *)
Definition lfsr_step (R : list bool) : list bool :=
  match false :: R with
  | [r0; r1; r2; r3; r4; r5; r6; r7; r8] => [xorb r0 r8; r1; r2; r3; xorb r4 r8; xorb r5 r8; xorb r6 r8; r7]
  | _ => R
  end.

Definition rc_bit (t : nat) : bool :=
  nth 0 (Nat.iter (t mod 255) lfsr_step [true; false; false; false; false; false; false; false]) false.

Definition RC (ir : nat) (z : Z) : bool :=
  existsb (fun j => (z =? 2 ^ Z.of_nat j - 1) && rc_bit (j + 7 * ir)) (seq 0 7).

Definition iota (ir : nat) (A : cube) : cube := fun x y z =>
  if (Nat.eqb x 0 && Nat.eqb y 0)%bool then xorb (A x y z) (RC ir z) else A x y z.

Definition Rnd (ir : nat) (A : cube) : cube := iota ir (chi (pi (rho (theta A)))).

(** Keccak-f[1600]: 24 rounds. *)
Definition KeccakF (A : cube) : cube := fold_left (fun A ir => Rnd ir A) (seq 0 24) A.

End Fips.

(** ** The same steps on lanes *)

Local Open Scope lane_scope.

Definition rotl (t n : Z) : Z := if n =? 0 then t else shl t n .| shr t (64 - n).

Definition lane (a : list Z) (x y : nat) : Z := nth (5 * y + x) a 0.
Definition grid (f : nat -> nat -> Z) : list Z := flat_map (fun y => map (fun x => f x y) (seq 0 5)) (seq 0 5).

Definition column (a : list Z) (x : nat) : Z := lane a x 0 ⊕ lane a x 1 ⊕ lane a x 2 ⊕ lane a x 3 ⊕ lane a x 4.
Definition theta (a : list Z) : list Z :=
  grid (fun x y => lane a x y ⊕ (column a ((x + 4) mod 5) ⊕ rotl (column a ((x + 1) mod 5)) 1)).
Definition rho_pi (a : list Z) : list Z :=
  grid (fun x y => let x' := ((x + 3 * y) mod 5)%nat in rotl (lane a x' x) (Fips.offset x' x mod 64)).
Definition chi (a : list Z) : list Z :=
  grid (fun x y => lane a x y ⊕ (lane a ((x + 2) mod 5) y &^ lane a ((x + 1) mod 5) y)).
Definition iota (r : Z) (a : list Z) : list Z := match a with [] => [] | a0 :: a => a0 ⊕ r :: a end.

Definition lane_round (r : Z) (a : list Z) : list Z := iota r (chi (rho_pi (theta a))).

(** The state the reference implementations start from. *)
Example zero_state : nth 0 (keccakF1600 (repeat 0 25)) 0 = 0xF1258F7940E1DDE7.
Proof. vm_compute. reflexivity. Qed.

Example zero_lanes : fold_left (fun a r => lane_round r a) rc (repeat 0 25) = keccakF1600 (repeat 0 25).
Proof. vm_compute. reflexivity. Qed.

(** ** The unrolled rounds

    A round leaves its results in the column they belong to; after [k] rounds the lane
    at position [p] is the one that belongs to position [source^k p]. *)

Definition source (p : nat) : nat := let x := (p mod 5)%nat in (5 * ((3 * (p / 5 + 5 - x)) mod 5) + x)%nat.
Definition place (k : nat) (a : list Z) : list Z := map (fun p => nth (Nat.iter k source p) a 0) (seq 0 25).

Ltac lanes a Ha :=
  destruct (list_25 a Ha) as (a0 & a1 & a2 & a3 & a4 & a5 & a6 & a7 & a8 & a9 & a10 & a11 & a12 & a13 & a14 & a15 & a16 & a17 & a18 & a19 & a20 & a21 & a22 & a23 & a24 & ->).

(** The columns are summed in the order of the positions. *)
Ltac sorted p q r s t a b c d e :=
  replace (p ⊕ q ⊕ r ⊕ s ⊕ t) with (a ⊕ b ⊕ c ⊕ d ⊕ e) by (apply Z.bits_inj; intros ?n; rewrite !Z.lxor_spec; btauto).

Lemma round1_ok a r : length a = 25%nat -> round1 (place 0 a) r = place 1 (lane_round r a).
Proof.
  intros Ha. lanes a Ha. cbv -[Z.lxor Z.ldiff Z.lor shl shr]. reflexivity.
Qed.

Lemma round2_ok a r : length a = 25%nat -> round2 (place 1 a) r = place 2 (lane_round r a).
Proof.
  intros Ha. lanes a Ha. cbv -[Z.lxor Z.ldiff Z.lor shl shr].
  sorted a0 a15 a5 a20 a10 a0 a5 a10 a15 a20.
  sorted a11 a1 a16 a6 a21 a1 a6 a11 a16 a21.
  sorted a22 a12 a2 a17 a7 a2 a7 a12 a17 a22.
  sorted a8 a23 a13 a3 a18 a3 a8 a13 a18 a23.
  sorted a19 a9 a24 a14 a4 a4 a9 a14 a19 a24.
  reflexivity.
Qed.

Lemma round3_ok a r : length a = 25%nat -> round3 (place 2 a) r = place 3 (lane_round r a).
Proof.
  intros Ha. lanes a Ha. cbv -[Z.lxor Z.ldiff Z.lor shl shr].
  sorted a0 a20 a15 a10 a5 a0 a5 a10 a15 a20.
  sorted a16 a11 a6 a1 a21 a1 a6 a11 a16 a21.
  sorted a7 a2 a22 a17 a12 a2 a7 a12 a17 a22.
  sorted a23 a18 a13 a8 a3 a3 a8 a13 a18 a23.
  sorted a14 a9 a4 a24 a19 a4 a9 a14 a19 a24.
  reflexivity.
Qed.

Lemma round4_ok a r : length a = 25%nat -> round4 (place 3 a) r = place 4 (lane_round r a).
Proof.
  intros Ha. lanes a Ha. cbv -[Z.lxor Z.ldiff Z.lor shl shr].
  sorted a0 a10 a20 a5 a15 a0 a5 a10 a15 a20.
  sorted a6 a16 a1 a11 a21 a1 a6 a11 a16 a21.
  sorted a12 a22 a7 a17 a2 a2 a7 a12 a17 a22.
  sorted a18 a3 a13 a23 a8 a3 a8 a13 a18 a23.
  sorted a24 a9 a19 a4 a14 a4 a9 a14 a19 a24.
  reflexivity.
Qed.

Lemma place_0 a : length a = 25%nat -> place 0 a = a.
Proof. intros Ha. lanes a Ha. reflexivity. Qed.
Lemma place_4 a : length a = 25%nat -> place 4 a = a.
Proof. intros Ha. lanes a Ha. reflexivity. Qed.

Lemma lane_round_length r a : length (lane_round r a) = 25%nat.
Proof. reflexivity. Qed.

Lemma rounds_ok i a : length a = 25%nat ->
  rounds i a = fold_left (fun a k => lane_round (nth (i + k) rc 0) a) [0; 1; 2; 3]%nat a.
Proof.
  intros Ha. unfold rounds. rewrite <- (place_0 a Ha) at 1. rewrite round1_ok, round2_ok, round3_ok, round4_ok by (done || reflexivity). by apply place_4.
Qed.

Lemma keccakF_lanes a : length a = 25%nat -> keccakF1600 a = fold_left (fun a ir => lane_round (nth ir rc 0) a) (seq 0 24) a.
Proof.
  intros Ha. unfold keccakF1600. cbn [fold_left seq]. rewrite (rounds_ok 0 a Ha).
  do 5 (rewrite rounds_ok; [|reflexivity]). reflexivity.
Qed.

(** ** Lanes and bits *)

Definition lane_ok (t : Z) : Prop := 0 <= t < 2 ^ 64.
Definition words (a : list Z) : Prop := length a = 25%nat /\ Forall lane_ok a.

Lemma lane_bits t : 0 <= t -> (forall z, 64 <= z -> Z.testbit t z = false) -> lane_ok t.
Proof.
  intros H0 Hz. split; [done|]. destruct (Z.eq_dec t 0) as [->|Hne]; [done|]. apply Z.log2_lt_pow2; [lia|].
  destruct (Z.lt_ge_cases (Z.log2 t) 64) as [|Hge]; [done|]. pose proof (Z.bit_log2 t ltac:(lia)) as Hb. rewrite Hz in Hb; done.
Qed.

Lemma lane_above t z : lane_ok t -> 64 <= z -> Z.testbit t z = false.
Proof. intros [H0 H1] Hz. destruct (Z.eq_dec t 0) as [->|Hne]; [apply Z.bits_0|]. apply Z.bits_above_log2; [done|]. apply Z.log2_lt_pow2 in H1; lia. Qed.

Lemma lxor_ok a b : lane_ok a -> lane_ok b -> lane_ok (a ⊕ b).
Proof.
  intros Ha Hb. apply lane_bits; [apply Z.lxor_nonneg; split; intros _; [apply Hb|apply Ha]|]. intros z Hz.
  by rewrite Z.lxor_spec, !lane_above.
Qed.

Lemma ldiff_ok a b : lane_ok a -> lane_ok (a &^ b).
Proof.
  intros Ha. apply lane_bits; [apply Z.ldiff_nonneg; left; apply Ha|]. intros z Hz. by rewrite Z.ldiff_spec, lane_above.
Qed.

Lemma shl_bit t n z : 0 <= n -> 0 <= z -> Z.testbit (shl t n) z = (z <? 64) && Z.testbit t (z - n).
Proof.
  intros Hn Hz. unfold shl, u64, wrap. destruct (Z.ltb_spec z 64).
  - rewrite Z.mod_pow2_bits_low by done. by rewrite Z.shiftl_spec.
  - by rewrite Z.mod_pow2_bits_high by lia.
Qed.

Lemma rotl_bit t n z : lane_ok t -> 0 <= n < 64 -> 0 <= z < 64 -> Z.testbit (rotl t n) z = Z.testbit t ((z - n) mod 64).
Proof.
  intros Ht Hn Hz. unfold rotl. destruct (Z.eqb_spec n 0) as [->|Hne]; [by rewrite Z.sub_0_r, Z.mod_small|].
  rewrite Z.lor_spec, shl_bit by lia. unfold shr. rewrite Z.shiftr_spec by lia. rewrite (proj2 (Z.ltb_lt z 64)) by lia. cbn [andb].
  destruct (Z.lt_ge_cases z n).
  - rewrite (Z.testbit_neg_r t (z - n)) by lia. cbn [orb]. f_equal. rewrite <- (Z_mod_plus_full _ 1 64). rewrite Z.mod_small; lia.
  - rewrite (lane_above t (z + (64 - n))) by (done || lia). rewrite orb_false_r, Z.mod_small; [done|lia].
Qed.

Lemma rotl_ok t n : lane_ok t -> 0 <= n < 64 -> lane_ok (rotl t n).
Proof.
  intros Ht Hn. unfold rotl. destruct (Z.eqb_spec n 0) as [->|Hne]; [done|]. apply lane_bits.
  - apply Z.lor_nonneg. split; [unfold shl, u64, wrap; apply Z.mod_pos_bound; lia|unfold shr; apply Z.shiftr_nonneg; apply Ht].
  - intros z Hz. rewrite Z.lor_spec, shl_bit by lia. unfold shr. rewrite Z.shiftr_spec by lia.
    rewrite (proj2 (Z.ltb_ge z 64)) by lia. apply lane_above; [done|lia].
Qed.

Lemma lane_of a x y : words a -> (x < 5)%nat -> (y < 5)%nat -> lane_ok (lane a x y).
Proof.
  intros [Hl Hw] Hx Hy. unfold lane. destruct (nth_in_or_default (5 * y + x) a 0) as [Hin| ->]; [|split; [done|reflexivity]].
  by eapply List.Forall_forall in Hw.
Qed.

Lemma below_5 (P : nat -> Prop) : P 0%nat -> P 1%nat -> P 2%nat -> P 3%nat -> P 4%nat -> forall x, (x < 5)%nat -> P x.
Proof. intros ? ? ? ? ? x Hx. do 5 (destruct x as [|x]; [done|]). lia. Qed.

Lemma lane_grid f x y : (x < 5)%nat -> (y < 5)%nat -> lane (grid f) x y = f x y.
Proof. intros Hx Hy. revert x Hx. apply (below_5 (fun x => _)); revert y Hy; apply (below_5 (fun y => _)); reflexivity. Qed.

Lemma grid_words f : (forall x y, (x < 5)%nat -> (y < 5)%nat -> lane_ok (f x y)) -> words (grid f).
Proof. intros Hf. split; [done|]. unfold grid. cbn. repeat (constructor; [apply Hf; lia|]). constructor. Qed.

Lemma mod_5 x : (x mod 5 < 5)%nat.
Proof. by apply Nat.mod_upper_bound. Qed.

Definition bits (a : list Z) : Fips.cube := fun x y z => Z.testbit (lane a x y) z.
Definition agrees (A B : Fips.cube) : Prop := forall x y z, (x < 5)%nat -> (y < 5)%nat -> 0 <= z < 64 -> A x y z = B x y z.

#[export] Instance agrees_equiv : Equivalence agrees.
Proof.
  split.
  - by intros A x y z.
  - intros A B H x y z Hx Hy Hz. symmetry. by apply H.
  - intros A B C H1 H2 x y z Hx Hy Hz. by rewrite H1, H2.
Qed.

Lemma mod_64 z : 0 <= z mod 64 < 64.
Proof. apply Z.mod_pos_bound. lia. Qed.

Create HintDb keccak.
#[export] Hint Resolve mod_5 mod_64 : keccak.

#[export] Instance theta_proper : Proper (agrees ==> agrees) Fips.theta.
Proof.
  intros A B H x y z Hx Hy Hz. unfold Fips.theta, Fips.column.
  rewrite (H x y) by done. rewrite !(H ((x + 4) mod 5)%nat), !(H ((x + 1) mod 5)%nat) by (lia || auto with keccak). done.
Qed.
#[export] Instance rho_proper : Proper (agrees ==> agrees) Fips.rho.
Proof. intros A B H x y z Hx Hy Hz. unfold Fips.rho. apply H; auto with keccak. Qed.
#[export] Instance pi_proper : Proper (agrees ==> agrees) Fips.pi.
Proof. intros A B H x y z Hx Hy Hz. unfold Fips.pi. apply H; auto with keccak. Qed.
#[export] Instance chi_proper : Proper (agrees ==> agrees) Fips.chi.
Proof. intros A B H x y z Hx Hy Hz. unfold Fips.chi. rewrite !H by auto with keccak. done. Qed.
#[export] Instance iota_proper ir : Proper (agrees ==> agrees) (Fips.iota ir).
Proof. intros A B H x y z Hx Hy Hz. unfold Fips.iota. by rewrite H. Qed.
#[export] Instance Rnd_proper ir : Proper (agrees ==> agrees) (Fips.Rnd ir).
Proof. intros A B H. unfold Fips.Rnd. by rewrite H. Qed.

Lemma column_ok a x : words a -> (x < 5)%nat -> lane_ok (column a x).
Proof. intros Ha Hx. unfold column. repeat apply lxor_ok; apply lane_of; (done || lia). Qed.

Lemma theta_words a : words a -> words (theta a).
Proof.
  intros Ha. apply grid_words. intros x y Hx Hy. apply lxor_ok; [by apply lane_of|].
  apply lxor_ok; [apply column_ok; auto with keccak|]. apply rotl_ok; [apply column_ok; auto with keccak|lia].
Qed.

Lemma theta_bits a : words a -> agrees (bits (theta a)) (Fips.theta (bits a)).
Proof.
  intros Ha x y z Hx Hy Hz. unfold bits at 1, theta. rewrite lane_grid, !Z.lxor_spec by done.
  rewrite rotl_bit by ((apply column_ok; auto with keccak) || lia).
  unfold Fips.theta, Fips.column, bits, column. by rewrite !Z.lxor_spec.
Qed.

Lemma rho_pi_words a : words a -> words (rho_pi a).
Proof. intros Ha. apply grid_words. intros x y Hx Hy. apply rotl_ok; [apply lane_of; auto with keccak|auto with keccak]. Qed.

Lemma rho_pi_bits a : words a -> agrees (bits (rho_pi a)) (Fips.pi (Fips.rho (bits a))).
Proof.
  intros Ha x y z Hx Hy Hz. unfold bits at 1, rho_pi. rewrite lane_grid by done. cbv zeta.
  rewrite rotl_bit; [|apply lane_of; auto with keccak|auto with keccak|done].
  unfold Fips.pi, Fips.rho, bits. by rewrite Zminus_mod_idemp_r.
Qed.

Lemma chi_words a : words a -> words (chi a).
Proof. intros Ha. apply grid_words. intros x y Hx Hy. apply lxor_ok; [by apply lane_of|]. apply ldiff_ok, lane_of; auto with keccak. Qed.

Lemma chi_bits a : words a -> agrees (bits (chi a)) (Fips.chi (bits a)).
Proof.
  intros Ha x y z Hx Hy Hz. unfold bits at 1, chi. rewrite lane_grid, Z.lxor_spec, Z.ldiff_spec by done.
  unfold Fips.chi, bits. btauto.
Qed.

Lemma iota_words r a : lane_ok r -> words a -> words (iota r a).
Proof. intros Hr [Hl Hw]. destruct a as [|a0 a]; [done|]. apply Forall_cons_1 in Hw as [H0 Hw]. split; [done|]. constructor; [by apply lxor_ok|done]. Qed.

(** The table of constants is the one the register generates. *)
Lemma rc_RC ir z : (ir < 24)%nat -> 0 <= z < 64 -> Z.testbit (nth ir rc 0) z = Fips.RC ir z.
Proof.
  assert (forallb (fun ir => forallb (fun z => Bool.eqb (Z.testbit (nth ir rc 0) (Z.of_nat z)) (Fips.RC ir (Z.of_nat z))) (seq 0 64)) (seq 0 24) = true)
    as Hall by (vm_compute; reflexivity).
  intros Hi Hz. rewrite forallb_forall in Hall. specialize (Hall ir ltac:(apply in_seq; lia)). rewrite forallb_forall in Hall.
  specialize (Hall (Z.to_nat z) ltac:(apply in_seq; lia)). apply eqb_prop in Hall. by rewrite Z2Nat.id in Hall by lia.
Qed.

Lemma rc_ok ir : lane_ok (nth ir rc 0).
Proof.
  assert (forallb (fun r => (0 <=? r) && (r <? 2 ^ 64)) rc = true) as Hall by reflexivity. rewrite forallb_forall in Hall.
  destruct (nth_in_or_default ir rc 0) as [Hin| ->]; [|split; [done|reflexivity]]. apply Hall in Hin. unfold lane_ok. lia.
Qed.

Lemma iota_bits ir a : (ir < 24)%nat -> words a -> agrees (bits (iota (nth ir rc 0) a)) (Fips.iota ir (bits a)).
Proof.
  intros Hi [Hl _] x y z Hx Hy Hz. destruct a as [|a0 a]; [done|]. unfold bits, Fips.iota, lane. cbn [iota].
  destruct x as [|x], y as [|y]; cbn [nth Nat.mul Nat.add Nat.eqb andb]; try done. by rewrite Z.lxor_spec, rc_RC.
Qed.

Lemma lane_round_ok ir a : (ir < 24)%nat -> words a ->
  words (lane_round (nth ir rc 0) a) /\ agrees (bits (lane_round (nth ir rc 0) a)) (Fips.Rnd ir (bits a)).
Proof.
  intros Hi Ha. pose proof (theta_words a Ha) as H1. pose proof (rho_pi_words _ H1) as H2. pose proof (chi_words _ H2) as H3.
  split; [by apply iota_words; [apply rc_ok|]|]. unfold lane_round, Fips.Rnd.
  rewrite iota_bits, chi_bits, rho_pi_bits, theta_bits by done. done.
Qed.

Lemma fold_rounds l : forall a A, Forall (fun ir => (ir < 24)%nat) l -> words a -> agrees (bits a) A ->
  let a' := fold_left (fun a ir => lane_round (nth ir rc 0) a) l a in
  words a' /\ agrees (bits a') (fold_left (fun A ir => Fips.Rnd ir A) l A).
Proof.
  induction l as [|ir l IH]; intros a A Hl Ha HA; simpl; [done|]. apply Forall_cons_1 in Hl as [Hi Hl].
  destruct (lane_round_ok ir a Hi Ha) as [Hw Hb]. apply IH; [done..|]. by rewrite Hb, HA.
Qed.

(** C10: on every state of 25 words, [keccakF1600] computes the permutation Keccak-f[1600]
    of FIPS 202 bit by bit: the four unrolled rounds that work in place, with their table
    of constants, are the 24 rounds of theta, rho, pi, chi and iota, with the rotation
    offsets and the round constants as the standard generates them. *)
Theorem keccakF1600_refines (a : list Z) (Ha : words a) :
  words (keccakF1600 a) /\ agrees (bits (keccakF1600 a)) (Fips.KeccakF (bits a)).
Proof.
  rewrite keccakF_lanes by apply Ha. apply fold_rounds; [|done..].
  apply List.Forall_forall. intros ir Hin%in_seq. lia.
Qed.

Lemma keccakF1600_refines_witness : words (repeat 1 25) /\ agrees (bits (keccakF1600 (repeat 1 25))) (Fips.KeccakF (bits (repeat 1 25))).
Proof.
  assert (words (repeat 1 25)) as Hw by (split; [done|]; repeat (constructor; [split; [done|reflexivity]|]); constructor).
  exact (conj Hw (proj2 (keccakF1600_refines (repeat 1 25) Hw))).
Defined.
