(* ===== verification/Sponge.v ===== *)
(** * Hashing: the sponge (utils/crypto/sha3/sha3.go, xor_generic.go, xor_unaligned.go,
    hashes.go, shake.go, and the hash functions of utils/crypto/crypto.go)

    The buffer of a hasher is a slice of its own storage, kept as an offset and a length
    into it; a copy of the hasher has a storage of its own. *)

From stdpp Require Import base list numbers option.
From S2P Require Import Prelude Types Keccak.
Local Open Scope Z_scope.

(** Little-endian numbers. *)
Fixpoint le (l : list byte) : Z := match l with [] => 0 | b :: l => b + 256 * le l end.
Fixpoint le_put (n : nat) (z : Z) : list byte := match n with O => [] | S n => z mod 256 :: le_put n (z / 256) end.

(** ** Moving bytes between the buffer and the lanes *)

(** The build picks one of two implementations. *)
Class XorImpl : Type := {
  xorIn : list Z -> list byte -> outcome unit (list Z);
  copyOut : list Z -> list byte -> outcome unit (list byte);
}.

Fixpoint xorInGeneric (a : list Z) (buf : list byte) : outcome unit (list Z) :=
  if (length buf <? 8)%nat then Ok a
  else match a with
       | [] => Panic
       | x :: a => r ← xorInGeneric a (drop 8 buf); Ok (Z.lxor x (le (take 8 buf)) :: r)
       end.

Fixpoint copyOutGeneric (a : list Z) (b : list byte) : outcome unit (list byte) :=
  if (length b <? 8)%nat then Ok b
  else match a with
       | [] => Panic
       | x :: a => r ← copyOutGeneric a (drop 8 b); Ok (le_put 8 x ++ r)
       end.

(** [bw] is the buffer seen as an array of words, on a little-endian machine. *)
Definition bw (buf : list byte) (i : nat) : Z := le (take 8 (drop (8 * i) buf)).
Definition xor_lanes (buf : list byte) (ixs : list nat) (a : list Z) : list Z :=
  fold_left (fun a i => alter (fun x => Z.lxor x (bw buf i)) i a) ixs a.

Definition xorInUnaligned (a : list Z) (buf : list byte) : outcome unit (list Z) :=
  match buf with
  | [] => Panic
  | _ =>
      let n := length buf in
      let a := if (72 <=? n)%nat then xor_lanes buf [0; 1; 2; 3; 4; 5; 6; 7; 8]%nat a else a in
      let a := if (104 <=? n)%nat then xor_lanes buf [9; 10; 11; 12]%nat a else a in
      let a := if (136 <=? n)%nat then xor_lanes buf [13; 14; 15; 16]%nat a else a in
      let a := if (144 <=? n)%nat then xor_lanes buf [17]%nat a else a in
      let a := if (168 <=? n)%nat then xor_lanes buf [18; 19; 20]%nat a else a in
      Ok a
  end.

Definition maxRate : nat := 168.

(** [ab] is the memory of the lanes, of which [copy] takes as much as fits. *)
Definition copyOutUnaligned (a : list Z) (buf : list byte) : outcome unit (list byte) :=
  let ab := take maxRate (a ≫= le_put 8) in
  Ok (take (length buf) ab ++ drop (length ab) buf).

#[export] Instance generic : XorImpl | 10 := { xorIn := xorInGeneric; copyOut := copyOutGeneric }.
Definition unaligned : XorImpl := {| xorIn := xorInUnaligned; copyOut := copyOutUnaligned |}.

(** ** The hasher *)

Inductive spongeDirection : Type := spongeAbsorbing | spongeSqueezing.

(** [sp_buf]: nil, or offset and length of the slice of [storage]. *)
Record sponge : Type := mkSponge {
  sp_a : list Z;
  sp_buf : option (nat * nat);
  sp_rate : nat;
  sp_dsbyte : byte;
  sp_storage : list byte;
  sp_outputLen : nat;
  sp_state : spongeDirection;
}.

Definition set_a (d : sponge) (a : list Z) : sponge := mkSponge a (sp_buf d) (sp_rate d) (sp_dsbyte d) (sp_storage d) (sp_outputLen d) (sp_state d).
Definition set_buf (d : sponge) (off len : nat) : sponge :=
  mkSponge (sp_a d) (Some (off, len)) (sp_rate d) (sp_dsbyte d) (sp_storage d) (sp_outputLen d) (sp_state d).
Definition set_state (d : sponge) (st : spongeDirection) : sponge :=
  mkSponge (sp_a d) (sp_buf d) (sp_rate d) (sp_dsbyte d) (sp_storage d) (sp_outputLen d) st.

Definition buf_len (d : sponge) : nat := match sp_buf d with Some (_, n) => n | None => 0 end.
Definition buf_bytes (d : sponge) : list byte := match sp_buf d with Some (off, n) => take n (drop off (sp_storage d)) | None => [] end.

(** Bytes written into the storage from a position on. *)
Definition store (d : sponge) (off : nat) (b : list byte) : sponge :=
  mkSponge (sp_a d) (sp_buf d) (sp_rate d) (sp_dsbyte d) (take off (sp_storage d) ++ b ++ drop (off + length b) (sp_storage d))
    (sp_outputLen d) (sp_state d).

(** [append(d.buf, b...)] within the capacity of the slice, which ends with the storage.
    A longer one would move the buffer elsewhere; it is reported as a panic, and the
    theorems show that it does not occur. *)
Definition append_buf (d : sponge) (b : list byte) : outcome unit sponge :=
  match sp_buf d with
  | Some (off, n) =>
      if (off + n + length b <=? maxRate)%nat then Ok (set_buf (store d (off + n) b) off (n + length b)) else Panic
  | None => Panic
  end.

Definition BlockSize (d : sponge) : nat := sp_rate d.
Definition Size (d : sponge) : nat := sp_outputLen d.

Definition Reset (d : sponge) : sponge :=
  set_buf (set_state (set_a d (replicate (length (sp_a d)) 0)) spongeAbsorbing) 0 0.

(** [clone]: a bound below zero panics. *)
Definition clone (d : sponge) : outcome unit sponge :=
  match sp_state d with
  | spongeAbsorbing => Ok (set_buf d 0 (buf_len d))
  | spongeSqueezing =>
      let cap := match sp_buf d with Some (off, _) => (maxRate - off)%nat | None => 0%nat end in
      if (cap <=? sp_rate d)%nat then Ok (set_buf d (sp_rate d - cap) cap) else Panic
  end.

Section Impl.
Context `{XorImpl}.

Definition permute (d : sponge) : outcome unit sponge :=
  match sp_state d with
  | spongeAbsorbing =>
      a ← xorIn (sp_a d) (buf_bytes d);
      let d := set_buf (set_a d a) 0 0 in
      Ok (set_a d (keccakF1600 (sp_a d)))
  | spongeSqueezing =>
      let d := set_a d (keccakF1600 (sp_a d)) in
      let d := set_buf d 0 (sp_rate d) in
      out ← copyOut (sp_a d) (buf_bytes d);
      Ok (store d 0 out)
  end.

Definition non_nil_buf (d : sponge) : sponge := match sp_buf d with None => set_buf d 0 0 | Some _ => d end.

Definition padAndPermute (d : sponge) (dsbyte : byte) : outcome unit sponge :=
  let d := non_nil_buf d in
  d ← append_buf d [dsbyte];
  let zerosStart := buf_len d in
  let d := set_buf d 0 (sp_rate d) in
  let d := store d zerosStart (replicate (sp_rate d - zerosStart) 0) in
  last ← of_index (buf_bytes d !! (sp_rate d - 1)%nat);
  let d := store d (sp_rate d - 1) [Z.lxor last 0x80] in
  d ← permute d;
  let d := set_buf (set_state d spongeSqueezing) 0 (sp_rate d) in
  out ← copyOut (sp_a d) (buf_bytes d);
  Ok (store d 0 out).

(** [for len(p) > 0] *)
Fixpoint write_loop (fuel : nat) (d : sponge) (p : list byte) : outcome unit sponge :=
  match p with
  | [] => Ok d
  | _ =>
      match fuel with
      | O => OutOfFuel
      | S fuel =>
          if ((buf_len d =? 0) && (sp_rate d <=? length p))%nat then
            a ← xorIn (sp_a d) (take (sp_rate d) p);
            write_loop fuel (set_a d (keccakF1600 a)) (drop (sp_rate d) p)
          else
            let todo := Nat.min (sp_rate d - buf_len d) (length p) in
            d ← append_buf d (take todo p);
            let p := drop todo p in
            d ← (if (buf_len d =? sp_rate d)%nat then permute d else Ok d);
            write_loop fuel d p
      end
  end.

Definition Write (d : sponge) (p : list byte) : outcome unit (nat * sponge) :=
  match sp_state d with
  | spongeSqueezing => Panic
  | spongeAbsorbing => d ← write_loop (length p) (non_nil_buf d) p; Ok (length p, d)
  end.

(** [for len(out) > 0], [n] bytes being left *)
Fixpoint read_loop (fuel : nat) (d : sponge) (n : nat) : outcome unit (list byte * sponge) :=
  match n with
  | O => Ok ([], d)
  | _ =>
      match fuel with
      | O => OutOfFuel
      | S fuel =>
          let '(off, len) := default (0, 0)%nat (sp_buf d) in
          let k := Nat.min n len in
          let got := take k (buf_bytes d) in
          let d := set_buf d (off + k) (len - k) in
          d ← (if (buf_len d =? 0)%nat then permute d else Ok d);
          '(rest, d) ← read_loop fuel d (n - k);
          Ok (got ++ rest, d)
      end
  end.

Definition Read (d : sponge) (n : nat) : outcome unit (list byte * sponge) :=
  d ← match sp_state d with spongeAbsorbing => padAndPermute d (sp_dsbyte d) | spongeSqueezing => Ok d end;
  read_loop n d n.

Definition Sum (d : sponge) (inp : list byte) : outcome unit (list byte) :=
  dup ← clone d;
  '(hash, _) ← Read dup (sp_outputLen dup);
  Ok (inp ++ hash).

End Impl.

(** ** The hash functions *)

Definition new_state (rate outputLen : nat) (dsbyte : byte) : sponge :=
  mkSponge (replicate 25 0) None rate dsbyte (replicate maxRate 0) outputLen spongeAbsorbing.

Definition NewKeccak256 : sponge := new_state 136 32 0x01.
Definition NewKeccak512 : sponge := new_state 72 64 0x01.
Definition New224 : sponge := new_state 144 28 0x06.
Definition New256 : sponge := new_state 136 32 0x06.
Definition New384 : sponge := new_state 104 48 0x06.
Definition New512 : sponge := new_state 72 64 0x06.
Definition NewShake128 : sponge := new_state 168 0 0x1f.
Definition NewShake256 : sponge := new_state 136 0 0x1f.

Section Functions.
Context `{XorImpl}.

(** [h.Write(data); h.Sum(digest[:0])]: the digest is an array of the output's size. *)
Definition write_sum (h : sponge) (data : list byte) : outcome unit (list byte) :=
  '(_, h) ← Write h data; Sum h [].
Definition Sum224 (data : list byte) : outcome unit (list byte) := write_sum New224 data.
Definition Sum256 (data : list byte) : outcome unit (list byte) := write_sum New256 data.
Definition Sum384 (data : list byte) : outcome unit (list byte) := write_sum New384 data.
Definition Sum512 (data : list byte) : outcome unit (list byte) := write_sum New512 data.

Definition write_read (h : sponge) (data : list byte) (n : nat) : outcome unit (list byte) :=
  '(_, h) ← Write h data; '(out, _) ← Read h n; Ok out.
Definition ShakeSum128 (n : nat) (data : list byte) : outcome unit (list byte) := write_read NewShake128 data n.
Definition ShakeSum256 (n : nat) (data : list byte) : outcome unit (list byte) := write_read NewShake256 data n.

(** [Keccak256] and the like of crypto.go, over several pieces. *)
Fixpoint write_all (d : sponge) (data : list (list byte)) : outcome unit sponge :=
  match data with
  | [] => Ok d
  | b :: data => '(_, d) ← Write d b; write_all d data
  end.
Definition Keccak256 (data : list (list byte)) : outcome unit (list byte) := d ← write_all NewKeccak256 data; Sum d [].
Definition Keccak256Hash (data : list (list byte)) : outcome unit Hash := d ← write_all NewKeccak256 data; Sum d [].
Definition Keccak512 (data : list (list byte)) : outcome unit (list byte) := d ← write_all NewKeccak512 data; Sum d [].

End Functions.

(** Test vectors. *)
Example keccak256_empty : Keccak256 [] = Ok [0xc5; 0xd2; 0x46; 0x01; 0x86; 0xf7; 0x23; 0x3c; 0x92; 0x7e; 0x7d; 0xb2; 0xdc; 0xc7; 0x03; 0xc0;
  0xe5; 0x00; 0xb6; 0x53; 0xca; 0x82; 0x27; 0x3b; 0x7b; 0xfa; 0xd8; 0x04; 0x5d; 0x85; 0xa4; 0x70].
Proof. vm_compute. reflexivity. Qed.

Example keccak256_abc : Keccak256 [[97]; [98; 99]] = Ok [0x4e; 0x03; 0x65; 0x7a; 0xea; 0x45; 0xa9; 0x4f; 0xc7; 0xd4; 0x7b; 0xa8; 0x26; 0xc8; 0xd6; 0x67;
  0xc0; 0xd1; 0xe6; 0xe3; 0x3a; 0x64; 0xa0; 0x36; 0xec; 0x44; 0xf5; 0x8f; 0xa1; 0x2d; 0x6c; 0x45].
Proof. vm_compute. reflexivity. Qed.

Example sha3_256_empty : @Sum256 unaligned [] = Ok [0xa7; 0xff; 0xc6; 0xf8; 0xbf; 0x1e; 0xd7; 0x66; 0x51; 0xc1; 0x47; 0x56; 0xa0; 0x61; 0xd6; 0x62;
  0xf5; 0x80; 0xff; 0x4d; 0xe4; 0x3b; 0x49; 0xfa; 0x82; 0xd8; 0x0a; 0x4b; 0x80; 0xf8; 0x43; 0x4a].
Proof. vm_compute. reflexivity. Qed.
