(* ===== verification/SpongeSpec.v ===== *)
(** * The hashers against the sponge construction

    The construction of FIPS 202, sections 4 and 5, on bytes: blocks of the padded message
    are absorbed one after the other, and the output is read from the state, permuting it
    after each block.  A hasher that is fed in pieces, summed on the way, read in pieces
    and reset computes it. *)

From stdpp Require Import base list numbers option.
From S2P Require Import Prelude Types Keccak Sponge.
Local Open Scope nat_scope.

#[local] Opaque keccakF1600.
#[local] Arguments keccakF1600 : simpl never.

(** ** The construction *)

Definition xor_block (a : list Z) (b : list byte) : list Z := imap (fun i x => Z.lxor x (bw b i)) a.
Definition absorb_block (a : list Z) (b : list byte) : list Z := keccakF1600 (xor_block a b).

(** The state after the full blocks of a message, and what is left of it. *)
Definition absorbed (rate : nat) (msg : list byte) : list Z :=
  foldl (fun a i => absorb_block a (take rate (drop (rate * i) msg))) (replicate 25 0%Z) (seq 0 (length msg / rate)).
Definition remainder (rate : nat) (msg : list byte) : list byte := drop (rate * (length msg / rate)) msg.

(** pad10*1, after the bits of the domain; the first bit of the padding is in [ds]. *)
Definition padding (rate : nat) (ds : byte) (n : nat) : list byte :=
  let q := rate - n mod rate in
  if q =? 1 then [Z.lxor ds 0x80] else ds :: replicate (q - 2) 0%Z ++ [0x80%Z].
Definition final (rate : nat) (ds : byte) (msg : list byte) : list Z := absorbed rate (msg ++ padding rate ds (length msg)).

Definition lane_bytes (a : list Z) : list byte := a ≫= le_put 8.

(** Byte [j] of the output, and a piece of it. *)
Definition squeeze_byte (rate : nat) (a : list Z) (j : nat) : byte :=
  default 0%Z (lane_bytes (Nat.iter (j / rate) keccakF1600 a) !! (j mod rate)).
Definition squeeze (rate : nat) (a : list Z) (from n : nat) : list byte := squeeze_byte rate a <$> seq from n.

Definition digest (rate : nat) (ds : byte) (n : nat) (msg : list byte) : list byte := squeeze rate (final rate ds msg) 0 n.

(** ** Bytes and lanes *)

Definition rate_ok (r : nat) : Prop := r ∈ [72; 104; 136; 144; 168].

Lemma rate_pos r : rate_ok r -> 0 < r <= 168.
Proof. unfold rate_ok. rewrite !elem_of_cons, elem_of_nil. lia. Qed.

Class XorLaws `{XorImpl} : Prop := {
  xorIn_ok r a b : rate_ok r -> length a = 25 -> length b = r -> xorIn a b = Ok (xor_block a b);
  copyOut_ok r a b : rate_ok r -> length a = 25 -> length b = r -> copyOut a b = Ok (take r (lane_bytes a));
}.

Lemma le_put_length n z : length (le_put n z) = n.
Proof. revert z. induction n; intros z; simpl; auto. Qed.

Lemma lane_bytes_length a : length (lane_bytes a) = 8 * length a.
Proof. induction a as [|x a IH]; [done|]. unfold lane_bytes in *. cbn [mbind list_bind]. rewrite length_app, le_put_length, IH. simpl. lia. Qed.

Lemma rate_lanes r : rate_ok r -> exists k, r = 8 * k /\ k <= 21.
Proof. unfold rate_ok. rewrite !elem_of_cons, elem_of_nil. intros [->|[->|[->|[->|[->|[]]]]]]; [exists 9|exists 13|exists 17|exists 18|exists 21]; lia. Qed.

Lemma bw_above b i : length b <= 8 * i -> bw b i = 0%Z.
Proof. intros Hb. unfold bw. by rewrite drop_ge. Qed.

Lemma xor_block_nil a : xor_block a [] = a.
Proof.
  unfold xor_block. rewrite (imap_ext _ (const id)); [by rewrite imap_const, list_fmap_id|].
  intros i x _. rewrite bw_above by (simpl; lia). apply Z.lxor_0_r.
Qed.

Lemma xor_block_cons x a b : xor_block (x :: a) b = Z.lxor x (le (take 8 b)) :: xor_block a (drop 8 b).
Proof.
  unfold xor_block. rewrite imap_cons. change (bw b 0) with (le (take 8 b)). f_equal. apply imap_ext. intros i y _. unfold compose, bw.
  rewrite drop_drop. do 4 f_equal. lia.
Qed.

Lemma xorInGeneric_ok a : forall b k, length b = 8 * k -> k <= length a -> xorInGeneric a b = Ok (xor_block a b).
Proof.
  induction a as [|x a IH]; intros b k Hb Hk; simpl in Hk.
  - simpl. destruct (Nat.ltb_spec (length b) 8); [done|lia].
  - simpl. destruct (Nat.ltb_spec (length b) 8).
    + assert (b = []) as -> by (apply nil_length_inv; lia). by rewrite xor_block_nil.
    + rewrite (IH (drop 8 b) (k - 1)) by (rewrite ?length_drop; lia). by rewrite xor_block_cons.
Qed.

Lemma copyOutGeneric_ok a : forall b k, length b = 8 * k -> k <= length a -> copyOutGeneric a b = Ok (take (length b) (lane_bytes a)).
Proof.
  induction a as [|x a IH]; intros b k Hb Hk; simpl in Hk.
  - simpl. assert (b = []) as -> by (apply nil_length_inv; lia). done.
  - cbn [copyOutGeneric]. destruct (Nat.ltb_spec (length b) 8).
    + assert (b = []) as -> by (apply nil_length_inv; lia). done.
    + rewrite (IH (drop 8 b) (k - 1)) by (rewrite ?length_drop; lia). cbn [mbind outcome_bind]. f_equal.
      unfold lane_bytes. cbn [mbind list_bind]. rewrite take_app, le_put_length, length_drop. f_equal. by rewrite take_ge by (rewrite le_put_length; lia).
Qed.

#[export] Instance generic_laws : @XorLaws generic.
Proof.
  split; intros r a b Hr Ha Hb; destruct (rate_lanes r Hr) as (k & -> & Hk).
  - apply (xorInGeneric_ok a b k); lia.
  - simpl. rewrite (copyOutGeneric_ok a b k), Hb by lia. done.
Qed.

#[export] Instance unaligned_laws : @XorLaws unaligned.
Proof.
  split; intros r a b Hr Ha Hb; pose proof (rate_pos r Hr) as Hp.
  - destruct (list_25 a Ha) as (x0 & x1 & x2 & x3 & x4 & x5 & x6 & x7 & x8 & x9 & x10 & x11 & x12 & x13 & x14 & x15 & x16 & x17 & x18 & x19 & x20 & x21 & x22 & x23 & x24 & ->).
    cbn [xorIn unaligned]. unfold xorInUnaligned. destruct b as [|b0 b']; [simpl in Hb; lia|]. set (b := b0 :: b') in *. rewrite Hb. f_equal.
    unfold rate_ok in Hr. rewrite !elem_of_cons, elem_of_nil in Hr.
    destruct Hr as [->|[->|[->|[->|[->|[]]]]]]; cbn -[bw]; rewrite ?(bw_above b 24), ?(bw_above b 23), ?(bw_above b 22), ?(bw_above b 21) by lia;
      rewrite ?(bw_above b 20), ?(bw_above b 19), ?(bw_above b 18) by lia; rewrite ?(bw_above b 17) by lia;
      rewrite ?(bw_above b 16), ?(bw_above b 15), ?(bw_above b 14), ?(bw_above b 13) by lia;
      rewrite ?(bw_above b 12), ?(bw_above b 11), ?(bw_above b 10), ?(bw_above b 9) by lia; rewrite ?Z.lxor_0_r; reflexivity.
  - cbn [copyOut unaligned]. unfold copyOutUnaligned. f_equal. fold (lane_bytes a).
    assert (length (take maxRate (lane_bytes a)) = 168) as Hm by (rewrite length_take, lane_bytes_length, Ha; reflexivity).
    rewrite (drop_ge b), app_nil_r, take_take by lia. f_equal. unfold maxRate. lia.
Qed.

(** ** Absorbing in pieces *)

Lemma remainder_length r msg : 0 < r -> length (remainder r msg) = length msg mod r.
Proof. intros Hr. unfold remainder. rewrite length_drop. pose proof (Nat.div_mod (length msg) r). lia. Qed.

Lemma remainder_lt r msg : 0 < r -> length (remainder r msg) < r.
Proof. intros Hr. rewrite remainder_length by done. apply Nat.mod_upper_bound. lia. Qed.

Lemma blocks_app r (msg q : list byte) l : Forall (fun i => r * i + r <= length msg) l -> forall a,
  foldl (fun a i => absorb_block a (take r (drop (r * i) (msg ++ q)))) a l = foldl (fun a i => absorb_block a (take r (drop (r * i) msg))) a l.
Proof.
  induction 1 as [|i l Hi _ IH]; intros a; simpl; [done|]. rewrite IH. do 2 f_equal.
  rewrite drop_app_le, take_app_le by (rewrite ?length_drop; lia). done.
Qed.

Lemma full_blocks r (msg : list byte) : 0 < r -> Forall (fun i => r * i + r <= length msg) (seq 0 (length msg / r)).
Proof.
  intros Hr. apply Forall_seq. intros i Hi. pose proof (Nat.mul_div_le (length msg) r). nia.
Qed.

(** A piece that does not fill the block, *)
Lemma absorb_part r msg q : 0 < r -> length (remainder r msg) + length q < r ->
  absorbed r (msg ++ q) = absorbed r msg /\ remainder r (msg ++ q) = remainder r msg ++ q.
Proof.
  intros Hr Hq. rewrite remainder_length in Hq by done. pose proof (Nat.div_mod (length msg) r ltac:(lia)) as Hm.
  assert (length (msg ++ q) / r = length msg / r) as Hd.
  { symmetry. rewrite length_app. apply (Nat.div_unique _ _ _ (length msg mod r + length q)); lia. }
  unfold absorbed, remainder. rewrite Hd. split; [by apply blocks_app, full_blocks|]. apply drop_app_le. lia.
Qed.

(** and one that does. *)
Lemma absorb_full r msg q : 0 < r -> length (remainder r msg) + length q = r ->
  absorbed r (msg ++ q) = absorb_block (absorbed r msg) (remainder r msg ++ q) /\ remainder r (msg ++ q) = [].
Proof.
  intros Hr Hq. rewrite remainder_length in Hq by done. pose proof (Nat.div_mod (length msg) r ltac:(lia)) as Hm.
  assert (length (msg ++ q) / r = S (length msg / r)) as Hd.
  { symmetry. rewrite length_app. apply (Nat.div_unique _ _ _ 0); lia. }
  unfold absorbed, remainder. rewrite Hd, seq_S, foldl_app. simpl. split.
  - rewrite blocks_app by (by apply full_blocks). f_equal. rewrite drop_app_le by lia. apply take_ge. rewrite length_app, length_drop. lia.
  - apply drop_ge. rewrite length_app. lia.
Qed.


Lemma absorb_block_length a b : length a = 25 -> length (absorb_block a b) = 25.
Proof. intros Ha. apply keccakF_length. unfold xor_block. by rewrite length_imap. Qed.

Lemma absorbed_length r msg : length (absorbed r msg) = 25.
Proof.
  unfold absorbed. generalize (seq 0 (length msg / r)). intros l. assert (length (replicate 25 0%Z) = 25) as Ha by done. revert Ha. generalize (replicate 25 0%Z).
  induction l as [|i l IH]; intros a Ha; simpl; [done|]. by apply IH, absorb_block_length.
Qed.

Lemma iter_length k a : length a = 25 -> length (Nat.iter k keccakF1600 a) = 25.
Proof. intros Ha. induction k; simpl; [done|]. by apply keccakF_length. Qed.

(** ** The invariant of a hasher *)

Section Hasher.
Context `{XorLaws} (r o : nat) (ds : byte) (Hr : rate_ok r).
Implicit Types (d : sponge) (msg p : list byte).

Record same_kind d : Prop := {
  sk_rate : sp_rate d = r;
  sk_ds : sp_dsbyte d = ds;
  sk_out : sp_outputLen d = o;
  sk_storage : length (sp_storage d) = 168;
}.

(** The state holds the full blocks, and the buffer the rest. *)
Record absorbing d msg : Prop := {
  ab_kind : same_kind d;
  ab_state : sp_state d = spongeAbsorbing;
  ab_a : sp_a d = absorbed r msg;
  ab_buf : sp_buf d = Some (0, length (remainder r msg)) \/ sp_buf d = None /\ remainder r msg = [];
  ab_bytes : take (length (remainder r msg)) (sp_storage d) = remainder r msg;
}.

(** The state has been permuted as often as a block was read, and the buffer holds what
    has not been read of the current one. *)
Record squeezing d msg (pos : nat) : Prop := {
  sq_kind : same_kind d;
  sq_state : sp_state d = spongeSqueezing;
  sq_a : sp_a d = Nat.iter (pos / r) keccakF1600 (final r ds msg);
  sq_buf : sp_buf d = Some (pos mod r, r - pos mod r);
  sq_bytes : take r (sp_storage d) = take r (lane_bytes (sp_a d));
}.

Lemma store_length d off b : length (sp_storage d) = 168 -> off + length b <= 168 -> length (sp_storage (store d off b)) = 168.
Proof using Type. intros Hl Hb. unfold store. simpl. rewrite !length_app, length_take, length_drop. lia. Qed.

Lemma store_kind d off b : same_kind d -> off + length b <= 168 -> same_kind (store d off b).
Proof using Type. intros [? ? ? ?] Hb. split; [done..|]. by apply store_length. Qed.

Lemma absorbing_len d msg : absorbing d msg -> buf_len d = length (remainder r msg).
Proof using Type. intros [_ _ _ [Hb|[Hb Hm]] _]; unfold buf_len; rewrite Hb; [done|]. by rewrite Hm. Qed.

Lemma non_nil_ok d msg : absorbing d msg -> absorbing (non_nil_buf d) msg /\ sp_buf (non_nil_buf d) = Some (0, length (remainder r msg)).
Proof using Type.
  intros [[] ? ? [Hb|[Hb Hm]] ?]; unfold non_nil_buf; rewrite Hb; (split; [|done || by simpl; rewrite Hm]); repeat split; auto; simpl.
  left. by rewrite Hm.
Qed.

Lemma append_ok d (rem b : list byte) : same_kind d -> sp_buf d = Some (0, length rem) -> take (length rem) (sp_storage d) = rem -> length rem + length b <= r ->
  exists d', append_buf d b = Ok d' /\ same_kind d' /\ sp_buf d' = Some (0, length (rem ++ b)) /\ take (length (rem ++ b)) (sp_storage d') = rem ++ b /\
    sp_a d' = sp_a d /\ sp_state d' = sp_state d.
Proof using Hr.
  intros Hk Hb Ht Hl. pose proof (rate_pos r Hr) as Hp. pose proof (sk_storage d Hk) as Hs. unfold append_buf. rewrite Hb. simpl. rewrite (proj2 (Nat.leb_le _ _)) by (unfold maxRate; lia).
  eexists. split; [done|]. split_and!; [|by rewrite length_app|..|done|done].
  - destruct (store_kind d (length rem) b Hk ltac:(lia)). by split.
  - simpl. rewrite Ht, app_assoc. by rewrite take_app_length.
Qed.

Lemma permute_full d (blk : list byte) : same_kind d -> sp_state d = spongeAbsorbing -> length (sp_a d) = 25 -> buf_bytes d = blk -> length blk = r ->
  permute d = Ok (set_a (set_buf d 0 0) (absorb_block (sp_a d) blk)).
Proof using Type*. intros Hk Hst Ha Hb Hl. unfold permute. rewrite Hst, Hb, (xorIn_ok r) by done. done. Qed.

(** ** [Write] *)

Lemma write_loop_ok fuel : forall d msg p, absorbing d msg -> sp_buf d = Some (0, length (remainder r msg)) -> length p <= fuel ->
  exists d', write_loop fuel d p = Ok d' /\ absorbing d' (msg ++ p).
Proof using Type*.
  pose proof (rate_pos r Hr) as Hp. induction fuel as [|fuel IH]; intros d msg p Hd Hb Hf.
  { destruct p; [|simpl in Hf; lia]. exists d. by rewrite app_nil_r. }
  destruct p as [|b p']; [exists d; by rewrite app_nil_r|]. set (p := b :: p') in *. assert (0 < length p) as Hlp by (simpl; lia).
  pose proof (remainder_lt r msg ltac:(lia)) as Hrem. pose proof (absorbing_len d msg Hd) as Hbl. destruct Hd as [Hk Hst Ha _ Hby].
  pose proof (sk_rate d Hk) as Hrate. cbn [write_loop]. change (match p with [] => _ | _ => ?y end) with y. rewrite Hbl, Hrate.
  destruct ((length (remainder r msg) =? 0) && (r <=? length p)) eqn:Hfast.
  - apply andb_true_iff in Hfast as [Hz%Nat.eqb_eq Hle%Nat.leb_le]. assert (remainder r msg = []) as Hnil by (by apply nil_length_inv).
    rewrite Ha, (xorIn_ok r) by (done || apply absorbed_length || (rewrite length_take; lia)). cbn [mbind outcome_bind].
    destruct (absorb_full r msg (take r p)) as [E1 E2]; [lia|rewrite length_take; lia|]. rewrite Hnil in E1. simpl in E1.
    destruct (IH (set_a d (keccakF1600 (xor_block (absorbed r msg) (take r p)))) (msg ++ take r p) (drop r p)) as (d' & Hw & Hd').
    + destruct Hk. split; [done|done|by rewrite E1|left; rewrite E2; by simpl; rewrite Hb, Hnil|by rewrite E2].
    + rewrite E2. simpl. by rewrite Hb, Hnil.
    + rewrite length_drop. lia.
    + exists d'. split; [exact Hw|]. by rewrite <- app_assoc, take_drop in Hd'.
  - set (todo := Nat.min (r - length (remainder r msg)) (length p)).
    destruct (append_ok d (remainder r msg) (take todo p) Hk Hb Hby) as (d1 & -> & Hk1 & Hb1 & Hby1 & Ha1 & Hst1); [rewrite length_take; lia|].
    assert (length (take todo p) = todo) as Ht by (rewrite length_take; lia). cbn [mbind outcome_bind].
    assert (buf_len d1 = length (remainder r msg) + todo) as -> by (unfold buf_len; rewrite Hb1, length_app; lia).
    assert (exists d2, (if length (remainder r msg) + todo =? sp_rate d1 then permute d1 else Ok d1) = Ok d2 /\ absorbing d2 (msg ++ take todo p) /\
      sp_buf d2 = Some (0, length (remainder r (msg ++ take todo p)))) as (d2 & -> & Hd2 & Hb2).
    { rewrite (sk_rate d1 Hk1). destruct (Nat.eqb_spec (length (remainder r msg) + todo) r) as [He|Hne].
      - destruct (absorb_full r msg (take todo p)) as [E1 E2]; [lia|lia|]. rewrite (permute_full d1 (remainder r msg ++ take todo p)); [|done|congruence|rewrite Ha1, Ha; apply absorbed_length| |rewrite length_app; lia].
        + eexists. split; [done|]. rewrite E2. split; [|done]. destruct Hk1. split; [done|simpl; congruence|simpl; by rewrite Ha1, Ha, E1|left; by rewrite E2|by rewrite E2].
        + unfold buf_bytes. by rewrite Hb1, drop_0.
      - destruct (absorb_part r msg (take todo p)) as [E1 E2]; [lia|lia|]. exists d1. rewrite E2. split_and!; [done| |done].
        split; [done|congruence|by rewrite Ha1, Ha, E1|left; by rewrite E2|by rewrite E2]. }
    cbn [mbind outcome_bind]. destruct (IH d2 (msg ++ take todo p) (drop todo p) Hd2 Hb2) as (d' & Hw & Hd'); [rewrite length_drop; lia|].
    exists d'. split; [exact Hw|]. by rewrite <- app_assoc, take_drop in Hd'.
Qed.

Lemma Write_ok d msg p : absorbing d msg -> exists d', Write d p = Ok (length p, d') /\ absorbing d' (msg ++ p).
Proof using Type*.
  intros Hd. unfold Write. rewrite (ab_state _ _ Hd). destruct (non_nil_ok d msg Hd) as [Hd1 Hb1].
  destruct (write_loop_ok (length p) _ msg p Hd1 Hb1) as (d' & -> & Hd'); [done|]. by exists d'.
Qed.

Lemma Write_squeezing d msg pos p : squeezing d msg pos -> Write d p = Panic.
Proof using Type. intros Hd. unfold Write. by rewrite (sq_state _ _ _ Hd). Qed.

(** ** Padding *)

Lemma store_end d off b : length (sp_storage d) = 168 -> off + length b = r -> take r (sp_storage (store d off b)) = take off (sp_storage d) ++ b.
Proof using Hr.
  intros Hl Hb. pose proof (rate_pos r Hr) as Hp. unfold store. simpl. rewrite app_assoc. apply take_app_length'.
  rewrite length_app, length_take. lia.
Qed.

Lemma padding_length n : length (padding r ds n) = r - n mod r.
Proof using Hr.
  pose proof (rate_pos r Hr) as Hp. pose proof (Nat.mod_upper_bound n r ltac:(lia)) as Hm. unfold padding.
  destruct (Nat.eqb_spec (r - n mod r) 1); simpl; [lia|]. rewrite length_app, length_replicate. simpl. lia.
Qed.

(** The bytes that [padAndPermute] leaves in the block. *)
Lemma padding_bytes m (rem : list byte) : length rem = m -> m < r -> exists l,
  (rem ++ ds :: replicate (r - (m + 1)) 0%Z) !! (r - 1) = Some l /\
  take (r - 1) (rem ++ ds :: replicate (r - (m + 1)) 0%Z) ++ [Z.lxor l 0x80] =
    rem ++ (if r - m =? 1 then [Z.lxor ds 0x80] else ds :: replicate (r - m - 2) 0%Z ++ [0x80%Z]).
Proof using Type.
  intros Hl Hm. rewrite lookup_app_r, take_app_ge by lia. rewrite Hl. destruct (Nat.eqb_spec (r - m) 1) as [He|Hne].
  - replace (r - 1 - m) with 0 by lia. exists ds. split; [done|]. simpl. by rewrite app_nil_r.
  - replace (r - 1 - m) with (S (r - m - 2)) by lia. replace (r - (m + 1)) with (r - m - 2 + 1) by lia. rewrite replicate_add. simpl.
    exists 0%Z. split; [by rewrite lookup_app_r, length_replicate, Nat.sub_diag by (rewrite length_replicate; lia)|].
    rewrite take_app_length' by (by rewrite length_replicate). by rewrite <- app_assoc.
Qed.

Lemma copy_block d : same_kind d -> length (sp_a d) = 25 -> sp_buf d = Some (0, r) ->
  copyOut (sp_a d) (buf_bytes d) = Ok (take r (lane_bytes (sp_a d))) /\
  take r (sp_storage (store d 0 (take r (lane_bytes (sp_a d))))) = take r (lane_bytes (sp_a d)) /\
  same_kind (store d 0 (take r (lane_bytes (sp_a d)))).
Proof using Type*.
  intros Hk Ha Hb. pose proof (rate_pos r Hr) as Hp. pose proof (sk_storage d Hk) as Hs.
  assert (length (take r (lane_bytes (sp_a d))) = r) as Hl by (rewrite length_take, lane_bytes_length; lia). split_and!.
  - apply (copyOut_ok r); [done..|]. unfold buf_bytes. rewrite Hb, drop_0, length_take. lia.
  - by rewrite store_end by lia.
  - apply store_kind; [done|lia].
Qed.

Lemma pad_ok d msg : absorbing d msg -> exists d', padAndPermute d ds = Ok d' /\ squeezing d' msg 0.
Proof using Type*.
  intros Hd. pose proof (rate_pos r Hr) as Hp. destruct (non_nil_ok d msg Hd) as [[Hk Hst Ha _ Hby] Hb].
  pose proof (remainder_lt r msg ltac:(lia)) as Hrem. pose proof (remainder_length r msg ltac:(lia)) as Hm. unfold padAndPermute.
  destruct (append_ok _ (remainder r msg) [ds] Hk Hb Hby) as (d1 & -> & Hk1 & Hb1 & Hby1 & Ha1 & Hst1); [simpl; lia|]. cbn [mbind outcome_bind].
  assert (buf_len d1 = length (remainder r msg) + 1) as -> by (unfold buf_len; rewrite Hb1, length_app; simpl; lia).
  cbv zeta. cbn [sp_rate set_buf store set_state]. rewrite (sk_rate d1 Hk1). set (m := length (remainder r msg)) in *.
  rewrite length_app in Hby1. simpl in Hby1. fold m in Hby1.
  set (d2 := store (set_buf d1 0 r) (m + 1) (replicate (r - (m + 1)) 0%Z)).
  assert (same_kind d2) as Hk2 by (apply store_kind; [by destruct Hk1; split|rewrite length_replicate; lia]).
  assert (take r (sp_storage d2) = remainder r msg ++ ds :: replicate (r - (m + 1)) 0%Z) as Hby2.
  { unfold d2. rewrite store_end by (simpl; (apply Hk1 || (rewrite length_replicate; lia))). simpl. by rewrite Hby1, <- app_assoc. }
  assert (buf_bytes d2 = take r (sp_storage d2)) as -> by done. rewrite Hby2.
  destruct (padding_bytes m (remainder r msg) eq_refl Hrem) as (l & -> & Hpad). cbn [mbind outcome_bind of_index].
  set (d3 := store d2 (r - 1) [Z.lxor l 128]).
  assert (same_kind d3) as Hk3 by (apply store_kind; [done|simpl; lia]).
  assert (take r (sp_storage d3) = remainder r msg ++ padding r ds (length msg)) as Hby3.
  { unfold d3. rewrite store_end by (simpl; (apply Hk2 || lia)). unfold padding. rewrite <- Hm. fold m. rewrite <- Hpad. f_equal.
    rewrite <- Hby2, take_take. f_equal. lia. }
  destruct (absorb_full r msg (padding r ds (length msg))) as [E1 _]; [lia|rewrite padding_length; lia|].
  rewrite (permute_full d3 (remainder r msg ++ padding r ds (length msg))); [|done|simpl; congruence|simpl; rewrite Ha1, Ha; apply absorbed_length|exact Hby3|rewrite length_app, padding_length; lia].
  cbn [mbind outcome_bind]. rewrite <- Hby3. cbn [sp_rate set_a set_buf store]. rewrite (sk_rate d3 Hk3).
  set (d4 := set_buf _ 0 r). assert (sp_a d4 = final r ds msg) as Ha4 by (unfold final; rewrite E1, <- Hby3; simpl; by rewrite Ha1, Ha).
  assert (same_kind d4) as Hk4 by (destruct Hk3; by split).
  destruct (copy_block d4) as (-> & Hc & Hk5); [done|rewrite Ha4; apply absorbed_length|done|]. cbn [mbind outcome_bind].
  eexists. split; [done|]. split; [done|done| |simpl; by rewrite Nat.Div0.mod_0_l, Nat.sub_0_r|done]. by rewrite Nat.Div0.div_0_l.
Qed.

(** ** Reading *)

Lemma squeeze_app a from n1 n2 : squeeze r a from (n1 + n2) = squeeze r a from n1 ++ squeeze r a (from + n1) n2.
Proof using Type. unfold squeeze. by rewrite seq_app, fmap_app. Qed.

Lemma squeeze_block a pos k : length a = 25 -> k <= r - pos mod r ->
  squeeze r a pos k = take k (drop (pos mod r) (take r (lane_bytes (Nat.iter (pos / r) keccakF1600 a)))).
Proof using Hr.
  intros Ha Hk. pose proof (rate_pos r Hr) as Hp. pose proof (Nat.mod_upper_bound pos r ltac:(lia)) as Hm.
  pose proof (Nat.div_mod pos r ltac:(lia)) as Hd. set (bs := lane_bytes _).
  assert (length bs = 200) as Hl by (unfold bs; rewrite lane_bytes_length, iter_length; done).
  apply list_eq. intros i. unfold squeeze. rewrite list_lookup_fmap. destruct (decide (i < k)) as [Hi|Hi].
  - rewrite lookup_seq_lt by done. rewrite lookup_take_lt, lookup_drop, lookup_take_lt by lia. simpl. unfold squeeze_byte.
    assert ((pos + i) / r = pos / r) as -> by (symmetry; apply (Nat.div_unique _ _ _ (pos mod r + i)); lia).
    assert ((pos + i) mod r = pos mod r + i) as -> by (symmetry; apply (Nat.mod_unique _ _ (pos / r)); lia). fold bs.
    destruct (lookup_lt_is_Some_2 bs (pos mod r + i)) as [x ->]; [lia|done].
  - rewrite lookup_seq_ge, lookup_take_ge by lia. done.
Qed.

Lemma squeezed_length d msg pos : squeezing d msg pos -> length (sp_a d) = 25.
Proof using Type. intros Hd. rewrite (sq_a _ _ _ Hd). apply iter_length, absorbed_length. Qed.

Lemma permute_dry d msg pos : squeezing d msg pos -> forall off len,
  let pos' := r * S (pos / r) in exists d', permute (set_buf d off len) = Ok d' /\ squeezing d' msg pos'.
Proof using Type*.
  intros Hd off len pos'. pose proof (rate_pos r Hr) as Hp. pose proof (squeezed_length _ _ _ Hd) as Hl. destruct Hd as [Hk Hst Ha Hb Hby].
  assert (pos' / r = S (pos / r) /\ pos' mod r = 0) as [Hdiv Hmod].
  { unfold pos'. split; [rewrite Nat.mul_comm; by apply Nat.div_mul; lia|rewrite Nat.mul_comm; apply Nat.Div0.mod_mul]. }
  unfold permute. cbn [sp_state set_buf]. rewrite Hst. cbv zeta. cbn [sp_rate set_buf set_a]. rewrite (sk_rate d Hk).
  set (d1 := set_buf _ 0 r). destruct (copy_block d1) as (-> & Hc & Hk1); [destruct Hk; by split|by apply keccakF_length|done|].
  cbn [mbind outcome_bind]. eexists. split; [done|]. split; [done|done| |simpl; by rewrite Hmod, Nat.sub_0_r|done]. rewrite Hdiv. simpl. by rewrite Ha.
Qed.

Lemma read_loop_ok fuel : forall d msg pos n, squeezing d msg pos -> n <= fuel ->
  exists d', read_loop fuel d n = Ok (squeeze r (final r ds msg) pos n, d') /\ squeezing d' msg (pos + n).
Proof using Type*.
  pose proof (rate_pos r Hr) as Hp. induction fuel as [|fuel IH]; intros d msg pos n Hd Hn.
  { assert (n = 0) as -> by lia. exists d. by rewrite Nat.add_0_r. }
  destruct n as [|n']; [exists d; by rewrite Nat.add_0_r|]. set (n := S n') in *. pose proof (Nat.mod_upper_bound pos r ltac:(lia)) as Hm.
  pose proof (Nat.div_mod pos r ltac:(lia)) as Hdm. cbn [read_loop]. change (match n with O => _ | _ => ?y end) with y.
  rewrite (sq_buf _ _ _ Hd). unfold default, from_option, id. cbv beta iota zeta. set (k := Nat.min n (r - pos mod r)).
  assert (take k (buf_bytes d) = squeeze r (final r ds msg) pos k) as ->.
  { rewrite squeeze_block by (apply absorbed_length || lia). unfold buf_bytes. rewrite (sq_buf _ _ _ Hd), <- (sq_a _ _ _ Hd), <- (sq_bytes _ _ _ Hd).
    f_equal. rewrite take_drop_commute. do 2 f_equal. lia. }
  assert (exists d1, (if buf_len (set_buf d (pos mod r + k) (r - pos mod r - k)) =? 0 then permute (set_buf d (pos mod r + k) (r - pos mod r - k)) else
    Ok (set_buf d (pos mod r + k) (r - pos mod r - k))) = Ok d1 /\ squeezing d1 msg (pos + k)) as (d1 & -> & Hd1).
  { cbn [buf_len sp_buf set_buf]. destruct (Nat.eqb_spec (r - pos mod r - k) 0) as [He|Hne].
    - destruct (permute_dry d msg pos Hd (pos mod r + k) (r - pos mod r - k)) as (d1 & -> & Hd1). exists d1. split; [done|].
      replace (pos + k) with (r * S (pos / r)) by lia. done.
    - eexists. split; [done|]. assert ((pos + k) / r = pos / r) as E1 by (symmetry; apply (Nat.div_unique _ _ _ (pos mod r + k)); lia).
      assert ((pos + k) mod r = pos mod r + k) as E2 by (symmetry; apply (Nat.mod_unique _ _ (pos / r)); lia).
      destruct Hd as [[] ? ? ? ?]. split; [done|done|by rewrite E1|simpl; rewrite E2; do 2 f_equal; lia|done]. }
  cbn [mbind outcome_bind]. destruct (IH d1 msg (pos + k) (n - k) Hd1 ltac:(lia)) as (d' & -> & Hd'). cbn [mbind outcome_bind]. exists d'.
  rewrite <- squeeze_app. replace (k + (n - k)) with n by lia. replace (pos + k + (n - k)) with (pos + n) in Hd' by lia. done.
Qed.

Lemma Read_fresh d msg n : absorbing d msg -> exists d', Read d n = Ok (squeeze r (final r ds msg) 0 n, d') /\ squeezing d' msg n.
Proof using Type*.
  intros Hd. unfold Read. rewrite (ab_state _ _ Hd), (sk_ds d (ab_kind _ _ Hd)). destruct (pad_ok d msg Hd) as (d1 & -> & Hd1). by apply (read_loop_ok n d1 msg 0 n).
Qed.

Lemma Read_more d msg pos n : squeezing d msg pos -> exists d', Read d n = Ok (squeeze r (final r ds msg) pos n, d') /\ squeezing d' msg (pos + n).
Proof using Type*. intros Hd. unfold Read. rewrite (sq_state _ _ _ Hd). by apply (read_loop_ok n d msg pos n). Qed.

Lemma clone_ok d msg : absorbing d msg -> exists d', clone d = Ok d' /\ absorbing d' msg.
Proof using Type.
  intros Hd. unfold clone. rewrite (ab_state _ _ Hd). eexists. split; [done|]. rewrite (absorbing_len d msg Hd). destruct Hd as [[] ? ? ? ?].
  split; [done|done|done|by left|done].
Qed.

Lemma Sum_ok d msg inp : absorbing d msg -> Sum d inp = Ok (inp ++ digest r ds o msg).
Proof using Type*.
  intros Hd. unfold Sum. destruct (clone_ok d msg Hd) as (d1 & -> & Hd1). cbn [mbind outcome_bind].
  destruct (Read_fresh d1 msg (sp_outputLen d1) Hd1) as (d2 & -> & _). cbn [mbind outcome_bind]. by rewrite (sk_out d1 (ab_kind _ _ Hd1)).
Qed.

Lemma empty_absorbing d : same_kind d -> sp_state d = spongeAbsorbing -> sp_a d = replicate 25 0%Z -> (sp_buf d = Some (0, 0) \/ sp_buf d = None) -> absorbing d [].
Proof using Hr.
  intros Hk Hst Ha Hb. pose proof (rate_pos r Hr) as Hp. assert (remainder r [] = []) as Hrem by (unfold remainder; apply drop_nil).
  split; [done|done| |rewrite Hrem; tauto|by rewrite Hrem]. unfold absorbed. simpl length. by rewrite Nat.Div0.div_0_l.
Qed.

Lemma new_absorbing : absorbing (new_state r o ds) [].
Proof using Hr. apply empty_absorbing; [by split|done|done|by right]. Qed.

Lemma Reset_ok d : same_kind d -> length (sp_a d) = 25 -> absorbing (Reset d) [].
Proof using Hr. intros [] Ha. apply empty_absorbing; [by split|done|simpl; by rewrite Ha|by left]. Qed.

Lemma write_all_ok data : forall d msg, absorbing d msg -> exists d', write_all d data = Ok d' /\ absorbing d' (msg ++ concat data).
Proof using Type*.
  induction data as [|b data IH]; intros d msg Hd; simpl; [exists d; by rewrite app_nil_r|].
  destruct (Write_ok d msg b Hd) as (d1 & -> & Hd1). cbn [mbind outcome_bind]. rewrite app_assoc. by apply IH.
Qed.

Lemma hashes_pieces data : (d ← write_all (new_state r o ds) data; Sum d []) = Ok (digest r ds o (concat data)).
Proof using Type*. destruct (write_all_ok data _ [] new_absorbing) as (d & -> & Hd). cbn [mbind outcome_bind]. by rewrite (Sum_ok d _ [] Hd). Qed.

Lemma write_sum_ok data : write_sum (new_state r o ds) data = Ok (digest r ds o data).
Proof using Type*. unfold write_sum. destruct (Write_ok _ [] data new_absorbing) as (d & -> & Hd). cbn [mbind outcome_bind]. by rewrite (Sum_ok d data [] Hd). Qed.

Lemma write_read_ok data n : write_read (new_state r o ds) data n = Ok (digest r ds n data).
Proof using Type*.
  unfold write_read. destruct (Write_ok _ [] data new_absorbing) as (d & -> & Hd). cbn [mbind outcome_bind].
  by destruct (Read_fresh d data n Hd) as (d' & -> & _).
Qed.

End Hasher.

(** The hash functions are the sponge with their rate, domain and size. *)
Lemma hash_functions `{XorLaws} data pieces n :
  Keccak256 pieces = Ok (digest 136 0x01 32 (concat pieces)) /\ Keccak256Hash pieces = Ok (digest 136 0x01 32 (concat pieces)) /\
  Keccak512 pieces = Ok (digest 72 0x01 64 (concat pieces)) /\
  Sum224 data = Ok (digest 144 0x06 28 data) /\ Sum256 data = Ok (digest 136 0x06 32 data) /\
  Sum384 data = Ok (digest 104 0x06 48 data) /\ Sum512 data = Ok (digest 72 0x06 64 data) /\
  ShakeSum128 n data = Ok (digest 168 0x1f n data) /\ ShakeSum256 n data = Ok (digest 136 0x1f n data).
Proof.
  assert (forall r, r ∈ [72; 104; 136; 144; 168] -> rate_ok r) as Hr by done.
  split_and!; (apply hashes_pieces || apply write_sum_ok || apply write_read_ok); apply Hr; rewrite !elem_of_cons; lia.
Qed.

Lemma digest_length r ds n msg : length (digest r ds n msg) = n.
Proof. unfold digest, squeeze. by rewrite length_fmap, length_seq. Qed.

(** ** Sessions with a hasher *)

Inductive hop : Type := HWrite (p : list byte) | HSum (inp : list byte) | HRead (n : nat) | HReset.
Inductive hanswer : Type := AWritten (n : nat) | ABytes (b : list byte) | ADone.

Fixpoint hash_run `{XorImpl} (d : sponge) (l : list hop) : outcome unit (list hanswer) :=
  match l with
  | [] => Ok []
  | op :: l =>
      '(x, d) ← match op with
                | HWrite p => '(n, d) ← Write d p; Ok (AWritten n, d)
                | HSum inp => b ← Sum d inp; Ok (ABytes b, d)
                | HRead n => '(b, d) ← Read d n; Ok (ABytes b, d)
                | HReset => Ok (ADone, Reset d)
                end;
      xs ← hash_run d l; Ok (x :: xs)
  end.

(** What has been written, and how much has been read, if reading has begun. *)
Fixpoint spec_run (r o : nat) (ds : byte) (msg : list byte) (pos : option nat) (l : list hop) : outcome unit (list hanswer) :=
  match l with
  | [] => Ok []
  | op :: l =>
      '(x, msg, pos) ← match op, pos with
                       | HWrite p, None => Ok (AWritten (length p), msg ++ p, None)
                       | HWrite _, Some _ => Panic
                       | HSum inp, _ => Ok (ABytes (inp ++ digest r ds o msg), msg, pos)
                       | HRead n, _ => Ok (ABytes (squeeze r (final r ds msg) (default 0 pos) n), msg, Some (default 0 pos + n))
                       | HReset, _ => Ok (ADone, [], None)
                       end;
      xs ← spec_run r o ds msg pos l; Ok (x :: xs)
  end.

(** No sum between a read and the next reset. *)
Fixpoint sums_ok (reading : bool) (l : list hop) : bool :=
  match l with
  | [] => true
  | HWrite _ :: l => sums_ok reading l
  | HSum _ :: l => negb reading && sums_ok reading l
  | HRead _ :: l => sums_ok true l
  | HReset :: l => sums_ok false l
  end.

Definition stands `{XorImpl} r o ds d msg (pos : option nat) : Prop :=
  match pos with None => absorbing r o ds d msg | Some k => squeezing r o ds d msg k end.

Lemma stands_Reset `{XorImpl} r o ds d msg pos : rate_ok r -> stands r o ds d msg pos -> absorbing r o ds (Reset d) [].
Proof.
  intros Hr Hd. destruct pos as [k|].
  - eapply Reset_ok; [done|by apply (sq_kind _ _ _ _ _ _ Hd)|]. by eapply squeezed_length.
  - eapply Reset_ok; [done|by apply (ab_kind _ _ _ _ _ Hd)|]. rewrite (ab_a _ _ _ _ _ Hd). apply absorbed_length.
Qed.

Lemma session_ok `{XorLaws} r o ds : rate_ok r -> forall l d msg pos, stands r o ds d msg pos -> sums_ok (bool_decide (is_Some pos)) l = true ->
  hash_run d l = spec_run r o ds msg pos l.
Proof.
  intros Hr. induction l as [|op l IH]; intros d msg pos Hd Hs; [done|]. cbn [hash_run spec_run]. destruct op as [p|inp|n|].
  - destruct pos as [k|]; [by rewrite (Write_squeezing _ _ _ _ _ _ _ Hd)|]. destruct (Write_ok r o ds Hr d msg p Hd) as (d' & -> & Hd').
    cbn [mbind outcome_bind]. by rewrite (IH d' (msg ++ p) None).
  - destruct pos as [k|]; [done|]. rewrite (Sum_ok r o ds Hr d msg inp Hd). cbn [mbind outcome_bind]. by rewrite (IH d msg None).
  - assert (exists d', Read d n = Ok (squeeze r (final r ds msg) (default 0 pos) n, d') /\ squeezing r o ds d' msg (default 0 pos + n)) as (d' & -> & Hd')
      by (destruct pos as [k|]; [by apply Read_more|by apply Read_fresh]).
    cbn [mbind outcome_bind]. by rewrite (IH d' msg (Some (default 0 pos + n))).
  - cbn [mbind outcome_bind]. rewrite (IH (Reset d) [] None); [done|by eapply stands_Reset|done].
Qed.

(** C11: a hasher of any of the rates in use, with either way of moving bytes, answers every
    sequence of writes, sums, reads and resets as the sponge construction of the standard
    does: a sum is the digest of everything written since the last reset, in whatever
    pieces, and leaves the hasher as it was; reads deliver the output stream from where the
    last one stopped; writing after a read panics.  Sums after a read are left out. *)
Theorem hasher_session `{XorLaws} (r o : nat) (ds : byte) (l : list hop) (Hr : rate_ok r) (Hs : sums_ok false l = true) :
  hash_run (new_state r o ds) l = spec_run r o ds [] None l.
Proof. apply session_ok; [done| |done]. by apply new_absorbing. Qed.

Lemma hasher_session_witness : @hash_run unaligned (new_state 136 32 1) [HWrite [97%Z]; HSum [7%Z]; HWrite [98%Z; 99%Z]; HSum []; HReset; HRead 5] =
  spec_run 136 32 1 [] None [HWrite [97%Z]; HSum [7%Z]; HWrite [98%Z; 99%Z]; HSum []; HReset; HRead 5].
Proof. apply hasher_session; [unfold rate_ok; rewrite !elem_of_cons; lia|reflexivity]. Defined.

(** A sum after a read takes the capacity of the buffer for its length: with a rate below
    the largest one it panics, or starts again 32 bytes too early. *)
Lemma sum_after_read_panics : hash_run NewKeccak256 [HRead 1; HSum []] = Panic.
Proof. vm_compute. reflexivity. Qed.

Lemma sum_after_read_repeats : exists b b', hash_run NewKeccak256 [HRead 40; HSum []] = Ok [ABytes b; ABytes b'] /\ take 4 b' = take 4 (drop 8 b).
Proof. eexists _, _. split; [vm_compute; reflexivity|reflexivity]. Qed.
