(* ===== verification/Signing.v ===== *)
(** * Signatures of transactions and headers

    core/transaction/transaction_signing.go, core/blockchain/block/block_signing.go,
    [ValidateSignatureValues] of utils/crypto/crypto.go, and the byte form of big
    integers (common/types/bigint.go).  The curve operations and the hash of what is
    signed are the fields of [Crypto]; [CryptoLaws] says that a key's signature is in
    range and recovers to its public key. *)

From stdpp Require Import base list gmap numbers option.
From S2P Require Import Prelude Types Vm.
Local Open Scope Z_scope.

(** ** Big integers *)

(** [BitLen] and [Uint64] of math/big look at the absolute value. *)
Definition bitLen (v : Z) : Z := if v =? 0 then 0 else Z.log2 (Z.abs v) + 1.
Definition big_Uint64 (v : Z) : Z := u64 (Z.abs v).

(** [byte(v.Sign())] *)
Definition sign_byte (v : Z) : byte := wrap 8 (Z.sgn v).

Definition bigToBytes (v : Z) : list byte := sign_byte v :: big_Bytes (Z.abs v).

(** [b == nil] and a value that is no byte slice give zero; an empty slice panics. *)
Definition bigFromBytes (b : option (list byte)) : outcome unit Z :=
  match b with
  | None => Ok 0
  | Some [] => Panic
  | Some (neg :: rest) => Ok (if neg =? 255 then - be rest else be rest)
  end.

Definition BigInt_Len : nat := 10.

(** [copy(b[1:], ...)] into a buffer of [Len()] bytes. *)
Definition MarshalBinaryTo (v : Z) (b : list byte) : outcome unit (list byte) :=
  match b with
  | [] => Panic
  | _ :: _ => Ok (copy_at (zset b 0 (sign_byte v)) 1 (big_Bytes (Z.abs v)))
  end.

Definition UnmarshalBinary (b : list byte) : outcome unit Z :=
  match b with
  | [] => Panic
  | neg :: rest => Ok (if neg =? 255 then - be rest else be rest)
  end.

(** ** Signature values *)

Definition secp256k1_N : Z := 0xfffffffffffffffffffffffffffffffebaaedce6af48a03bbfd25e8cd0364141.
Definition secp256k1_halfN : Z := secp256k1_N / 2.
#[global] Arguments secp256k1_N : simpl never.
#[global] Arguments secp256k1_halfN : simpl never.

Definition ValidateSignatureValues (v r s : Z) (homestead : bool) : bool :=
  if (r <? 1) || (s <? 1) then false
  else if homestead && (secp256k1_halfN <? s) then false
  else (r <? secp256k1_N) && (s <? secp256k1_N) && ((v =? 0) || (v =? 1)).

Inductive sigErr : Type := ErrInvalidChainId | ErrInvalidSig | ErrSigLength | ErrRecover | ErrPublicKey | ErrSign.

(** What is signed in a transaction, and a transaction with its cache of the sender:
    a signer is known by its chain id. *)
Record Txdata : Type := mkTxdata { AccountNonce : Z; Actions : list Action; sig_V : Z; sig_R : Z; sig_S : Z }.
Record Transaction : Type := mkTransaction { Data : Txdata; tx_from : option (Z * Address) }.

Definition deriveChainId (v : Z) : Z :=
  if bitLen v <=? 64 then
    let v := big_Uint64 v in
    if (v =? 27) || (v =? 28) then 0 else u64 (v - 35) / 2
  else (v - 35) / 2.

Definition isProtectedV (v : Z) : bool :=
  if bitLen v <=? 8 then let v := big_Uint64 v in negb (v =? 27) && negb (v =? 28) else true.

Definition NewMSigner (chainId : option Z) : Z := default 0 chainId.

Class Crypto : Type := {
  PrivateKey : Type;
  Keccak : list byte -> Hash;
  (** [MsgpHash] of nonce, actions and chain id; an encoding error is [None] *)
  TxSigHash : Z -> list Action -> Z -> option Hash;
  Sign : Hash -> PrivateKey -> option (list byte);
  Ecrecover : Hash -> list byte -> option (list byte);
  VerifySig : list byte -> Hash -> list byte -> bool;
}.

(** An error as a value. *)
Definition catch {E A} (r : outcome E A) : outcome unit (E + A) :=
  match r with Ok a => Ok (inr a) | Err e => Ok (inl e) | Panic => Panic | OutOfFuel => OutOfFuel end.

Section Signing.
Context `{Crypto}.

(** [copy(sig[hi-len(b):hi], b)]; the slice bounds panic when [b] is longer than 32. *)
Definition put_word (sig : list byte) (hi : nat) (b : list byte) : outcome sigErr (list byte) :=
  if (hi <? length b)%nat then Panic else Ok (copy_at sig (hi - length b) b).

(** The signature as 65 bytes. *)
Definition sig_bytes (r s v : Z) : outcome sigErr (list byte) :=
  sig ← put_word (replicate 65 0) 32 (big_Bytes (Z.abs r));
  sig ← put_word sig 64 (big_Bytes (Z.abs s));
  Ok (zset sig 64 v).

(** The part the two [recoverPlain] share, after the recovery id is known. *)
Definition recover_with (sighash : Hash) (r s v : Z) (homestead : bool) : outcome sigErr Address :=
  if ValidateSignatureValues v r s homestead then
    sig ← sig_bytes r s v;
    match Ecrecover sighash sig with
    | None => Err ErrRecover
    | Some [] => Err ErrPublicKey
    | Some (p :: pub) => if p =? 4 then Ok (copy_at zeroAddress 0 (drop 12 (Keccak pub))) else Err ErrPublicKey
    end
  else Err ErrInvalidSig.

(** ** Transactions *)

Definition tx_recoverPlain (sighash : Hash) (r s vb : Z) (homestead : bool) : outcome sigErr Address :=
  if 8 <? bitLen vb then Err ErrInvalidSig
  else recover_with sighash r s (wrap 8 (u64 (big_Uint64 vb - 27))) homestead.

(** The loop at the head of [Hash], on the transaction itself. *)
Definition fill_addresses (d : Txdata) : Txdata :=
  mkTxdata (AccountNonce d) (fill_address <$> Actions d) (sig_V d) (sig_R d) (sig_S d).

Definition tx_Hash (signer : Z) (d : Txdata) : outcome sigErr (Hash * Txdata) :=
  let d := fill_addresses d in
  match TxSigHash (AccountNonce d) (Actions d) signer with
  | Some h => Ok (h, d)
  | None => Panic
  end.

(** The addresses are replaced also when the recovery fails. *)
Definition tx_signer_Sender (signer : Z) (d : Txdata) : outcome unit ((sigErr + Address) * Txdata) :=
  if negb (deriveChainId (sig_V d) =? signer) then Ok (inl ErrInvalidChainId, d)
  else
    let v := sig_V d - signer * 2 - 8 in
    match tx_Hash signer d with
    | Ok (h, d) => a ← catch (tx_recoverPlain h (sig_R d) (sig_S d) v true); Ok (a, d)
    | _ => Panic
    end.

(** The package function, with the cache in the transaction. *)
Definition Sender (signer : Z) (tx : Transaction) : outcome unit ((sigErr + Address) * Transaction) :=
  let derive :=
    '(r, d) ← tx_signer_Sender signer (Data tx);
    match r with
    | inl e => Ok (inl e, mkTransaction d (tx_from tx))
    | inr a => Ok (inr a, mkTransaction d (Some (signer, a)))
    end in
  match tx_from tx with
  | Some (c, a) => if c =? signer then Ok (inr a, tx) else derive
  | None => derive
  end.

(** [R], [S] and [V] from a signature in the form [R || S || V]. *)
Definition tx_SignatureValues (signer : Z) (sig : list byte) : outcome sigErr (Z * Z * Z) :=
  if (length sig =? 65)%nat then
    last ← of_index (sig !! 64%nat);
    let r := be (take 32 sig) in
    let s := be (take 32 (drop 32 sig)) in
    let v := be [wrap 8 (last + 27)] in
    let v := if negb (Z.sgn signer =? 0) then wrap 8 (last + 35) + signer * 2 else v in
    Ok (r, s, v)
  else Err ErrSigLength.

Definition WithSignature (signer : Z) (d : Txdata) (sig : list byte) : outcome sigErr Transaction :=
  '(r, s, v) ← tx_SignatureValues signer sig;
  Ok (mkTransaction (mkTxdata (AccountNonce d) (Actions d) v r s) None).

Definition SignTx (signer : Z) (prv : PrivateKey) (d : Txdata) : outcome sigErr Transaction :=
  '(h, d) ← tx_Hash signer d;
  match Sign h prv with
  | None => Err ErrSign
  | Some sig => WithSignature signer d sig
  end.

End Signing.

(** ** Words of 32 bytes *)

Lemma be_inj a : forall b, Forall byte_ok a -> Forall byte_ok b -> length a = length b -> be a = be b -> a = b.
Proof.
  induction a as [|x a IH] using rev_ind; intros b Ha Hb Hl He.
  - by destruct b.
  - destruct b as [|y b _] using rev_ind; [rewrite length_app in Hl; simpl in Hl; lia|].
    rewrite !length_app in Hl. simpl in Hl. apply Forall_app in Ha as [Ha Hx], Hb as [Hb Hy]. rewrite Forall_singleton in Hx, Hy.
    rewrite !be_app in He. change (be a * 256 + x = be b * 256 + y) in He.
    unfold byte_ok in Hx, Hy. assert (be a = be b /\ x = y) as [Hab ->] by lia. f_equal. apply IH; [done..|lia|done].
Qed.

(** A word written out and padded again. *)
Lemma pad_be (n : nat) b : Forall byte_ok b -> length b = n ->
  replicate (n - length (big_Bytes (be b))) 0 ++ big_Bytes (be b) = b.
Proof.
  intros Hb Hl. pose proof (be_bound b Hb) as Hr. destruct (big_Bytes_spec (be b)) as [Hbe Hok]; [lia|].
  pose proof (big_Bytes_length (be b) n) as Hlen. rewrite Hl in Hr. specialize (Hlen Hr). apply be_inj.
  - apply Forall_app. split; [|done]. apply Forall_replicate. unfold byte_ok. lia.
  - done.
  - rewrite length_app, length_replicate. lia.
  - rewrite be_app, be_zeros, Hbe. lia.
Qed.

Lemma put_word_low sig b : length sig = 65%nat -> take 32 sig = replicate 32 0 -> Forall byte_ok b -> length b = 32%nat ->
  put_word sig 32 (big_Bytes (be b)) = Ok (b ++ drop 32 sig).
Proof.
  intros Hs Hz Hb Hl. unfold put_word. pose proof (be_bound b Hb) as Hr. rewrite Hl in Hr.
  pose proof (big_Bytes_length (be b) 32 Hr) as Hlen. destruct (Nat.ltb_spec 32 (length (big_Bytes (be b)))); [lia|].
  f_equal. unfold copy_at. rewrite (take_ge (big_Bytes _)) by lia.
  replace (32 - length (big_Bytes (be b)) + length (big_Bytes (be b)))%nat with 32%nat by lia.
  rewrite app_assoc. f_equal. rewrite <- (pad_be 32 b Hb Hl) at 3. f_equal.
  transitivity (take (32 - length (big_Bytes (be b))) (take 32 sig)); [rewrite take_take; f_equal; lia|].
  rewrite Hz, take_replicate. f_equal. lia.
Qed.

Lemma put_word_high a t b : length a = 32%nat -> length t = 33%nat -> take 32 t = replicate 32 0 -> Forall byte_ok b -> length b = 32%nat ->
  put_word (a ++ t) 64 (big_Bytes (be b)) = Ok (a ++ b ++ drop 32 t).
Proof.
  intros Ha Ht Hz Hb Hl. unfold put_word. pose proof (be_bound b Hb) as Hr. rewrite Hl in Hr.
  pose proof (big_Bytes_length (be b) 32 Hr) as Hlen. destruct (Nat.ltb_spec 64 (length (big_Bytes (be b)))); [lia|].
  f_equal. unfold copy_at. rewrite length_app, (take_ge (big_Bytes _)) by lia.
  replace (64 - length (big_Bytes (be b)) + length (big_Bytes (be b)))%nat with (length a + 32)%nat by lia.
  rewrite drop_app_add. replace (64 - length (big_Bytes (be b)))%nat with (length a + (32 - length (big_Bytes (be b))))%nat by lia.
  rewrite take_app_add, <- !app_assoc. f_equal. rewrite app_assoc. f_equal. rewrite <- (pad_be 32 b Hb Hl) at 3. f_equal.
  transitivity (take (32 - length (big_Bytes (be b))) (take 32 t)); [rewrite take_take; f_equal; lia|].
  rewrite Hz, take_replicate. f_equal. lia.
Qed.

(** ** What signing keys promise *)

Class CryptoLaws `{Crypto} : Type := {
  (** the public key without its tag *)
  pubkey : PrivateKey -> list byte;
  Sign_total h prv : length h = 32%nat -> is_Some (Sign h prv);
  Sign_range h prv sig : Sign h prv = Some sig ->
    length sig = 65%nat /\ Forall byte_ok sig /\
    0 < be (take 32 sig) < secp256k1_N /\ 0 < be (take 32 (drop 32 sig)) <= secp256k1_halfN /\
    exists v, drop 64 sig = [v] /\ (v = 0 \/ v = 1);
  Sign_recovers h prv sig : Sign h prv = Some sig -> Ecrecover h sig = Some (4 :: pubkey prv);
}.

Definition key_address `{CryptoLaws} (prv : PrivateKey) : Address := copy_at zeroAddress 0 (drop 12 (Keccak (pubkey prv))).

Section Recover.
Context `{CryptoLaws}.

Lemma halfN_lt : secp256k1_halfN < secp256k1_N.
Proof. reflexivity. Qed.

Lemma valid_values v r s : 0 < r < secp256k1_N -> 0 < s <= secp256k1_halfN -> v = 0 \/ v = 1 -> ValidateSignatureValues v r s true = true.
Proof.
  intros Hr Hs Hv. pose proof halfN_lt. unfold ValidateSignatureValues.
  destruct (Z.ltb_spec r 1); [lia|]. destruct (Z.ltb_spec s 1); [lia|]. cbn [orb andb].
  destruct (Z.ltb_spec secp256k1_halfN s); [lia|]. destruct (Z.ltb_spec r secp256k1_N); [|lia].
  destruct (Z.ltb_spec s secp256k1_N); [|lia]. by destruct Hv as [-> | ->].
Qed.

(** A signature is three parts. *)
Lemma sig_parts (sig : list byte) v : length sig = 65%nat -> drop 64 sig = [v] -> sig = take 32 sig ++ take 32 (drop 32 sig) ++ [v].
Proof.
  intros Hl Hv. rewrite <- (take_drop 32 sig) at 1. f_equal. rewrite <- (take_drop 32 (drop 32 sig)) at 1. by rewrite drop_drop, <- Hv.
Qed.

Lemma signed_bytes h prv sig v : Sign h prv = Some sig -> drop 64 sig = [v] ->
  ValidateSignatureValues v (be (take 32 sig)) (be (take 32 (drop 32 sig))) true = true /\
  sig_bytes (be (take 32 sig)) (be (take 32 (drop 32 sig))) v = Ok sig.
Proof.
  intros Hs Hv. destruct (Sign_range _ _ _ Hs) as (Hl & Hok & Hr & Hs2 & v' & Hv' & H01). rewrite Hv in Hv'. injection Hv' as <-.
  split; [by apply valid_values|]. unfold sig_bytes. rewrite !Z.abs_eq by lia.
  assert (Forall byte_ok (take 32 sig)) as Hok1 by by apply Forall_take.
  assert (Forall byte_ok (take 32 (drop 32 sig))) as Hok2 by by apply Forall_take, Forall_drop.
  assert (length (take 32 sig) = 32%nat) as L1 by (rewrite length_take; lia).
  assert (length (take 32 (drop 32 sig)) = 32%nat) as L2 by (rewrite length_take, length_drop; lia).
  rewrite put_word_low by done. cbn [mbind outcome_bind]. change (drop 32 (replicate 65 0)) with (replicate 33 0).
  rewrite put_word_high by done. cbn [mbind outcome_bind]. change (drop 32 (replicate 33 0)) with [0].
  assert (zset (take 32 sig ++ take 32 (drop 32 sig) ++ [0]) 64 v = sig) as ->.
  { rewrite (sig_parts sig v Hl Hv) at 3. unfold zset. change (Z.to_nat 64) with (32 + 32)%nat.
    rewrite <- L1 at 1. rewrite insert_app_r. f_equal. rewrite <- L2 at 1. rewrite <- (Nat.add_0_r (length (take 32 (drop 32 sig)))).
    by rewrite insert_app_r. }
  done.
Qed.

Lemma recover_signed h prv sig v : Sign h prv = Some sig -> drop 64 sig = [v] ->
  recover_with h (be (take 32 sig)) (be (take 32 (drop 32 sig))) v true = Ok (key_address prv).
Proof.
  intros Hs Hv. destruct (signed_bytes _ _ _ _ Hs Hv) as [Hval Hb]. unfold recover_with. rewrite Hval, Hb. cbn [mbind outcome_bind].
  by rewrite (Sign_recovers _ _ _ Hs).
Qed.

Lemma bitLen_le v n : 0 <= n -> 0 <= v < 2 ^ n -> bitLen v <= n.
Proof.
  intros Hn Hv. unfold bitLen. destruct (Z.eqb_spec v 0); [lia|]. rewrite Z.abs_eq by lia.
  assert (Z.log2 v < n); [|lia]. apply Z.log2_lt_pow2; lia.
Qed.

Lemma bitLen_gt v n : 0 <= n -> bitLen v <= n -> 0 <= v -> v < 2 ^ n.
Proof.
  intros Hn Hb Hv. unfold bitLen in Hb. destruct (Z.eqb_spec v 0) as [->|]; [by apply Z.pow_pos_nonneg|].
  rewrite Z.abs_eq in Hb by lia. apply Z.log2_lt_pow2; lia.
Qed.

(** The chain id that signing puts into [V]. *)
Lemma deriveChainId_signed c v : 0 < c -> v = 0 \/ v = 1 -> deriveChainId (v + 35 + c * 2) = c.
Proof.
  intros Hc Hv. assert ((v + c * 2) / 2 = c) as Hdiv by (destruct Hv as [-> | ->]; rewrite Z.div_add by done; reflexivity).
  unfold deriveChainId. destruct (Z.leb_spec (bitLen (v + 35 + c * 2)) 64) as [Hb|].
  - apply bitLen_gt in Hb; [|lia..]. unfold big_Uint64, u64. rewrite Z.abs_eq, wrap_small by lia.
    destruct (Z.eqb_spec (v + 35 + c * 2) 27); [lia|]. destruct (Z.eqb_spec (v + 35 + c * 2) 28); [lia|]. simpl.
    rewrite wrap_small by lia. by replace (v + 35 + c * 2 - 35) with (v + c * 2) by lia.
  - by replace (v + 35 + c * 2 - 35) with (v + c * 2) by lia.
Qed.

(** The recovery id that [Sender] computes back. *)
Lemma recovery_id c v : v = 0 \/ v = 1 -> 8 <? bitLen (v + 35 + c * 2 - c * 2 - 8) = false /\
  wrap 8 (u64 (big_Uint64 (v + 35 + c * 2 - c * 2 - 8) - 27)) = v.
Proof. intros Hv. replace (v + 35 + c * 2 - c * 2 - 8) with (v + 27) by lia. by destruct Hv as [-> | ->]. Qed.

Lemma SignatureValues_signed c h prv sig : 0 < c -> Sign h prv = Some sig -> exists v, drop 64 sig = [v] /\ (v = 0 \/ v = 1) /\
  tx_SignatureValues c sig = Ok (be (take 32 sig), be (take 32 (drop 32 sig)), v + 35 + c * 2).
Proof.
  intros Hc Hs. destruct (Sign_range _ _ _ Hs) as (Hl & _ & _ & _ & v & Hv & H01). exists v. split_and!; [done..|].
  unfold tx_SignatureValues. rewrite Hl, Nat.eqb_refl.
  assert (sig !! 64%nat = Some v) as -> by (replace 64%nat with (64 + 0)%nat by lia; rewrite <- lookup_drop, Hv; done).
  cbn [of_index mbind outcome_bind]. destruct (Z.eqb_spec (Z.sgn c) 0); [lia|]. simpl. by destruct H01 as [-> | ->].
Qed.

Lemma fill_idem d : fill_addresses (fill_addresses d) = fill_addresses d.
Proof.
  unfold fill_addresses. simpl. f_equal. rewrite <- list_fmap_compose. apply list_fmap_ext. intros i a _. unfold compose, fill_address.
  by destruct (act_Address a) eqn:Ha; simpl; rewrite ?Ha.
Qed.

End Recover.

Section Claims.
Context `{CryptoLaws}.

Lemma Sender_fresh c d : Sender c (mkTransaction d None) =
  ('(r, d) ← tx_signer_Sender c d;
   match r with inl e => Ok (inl e, mkTransaction d None) | inr a => Ok (inr a, mkTransaction d (Some (c, a))) end).
Proof. done. Qed.

Lemma foreign_sender c d from : deriveChainId (sig_V d) <> c -> (forall a, from <> Some (c, a)) ->
  Sender c (mkTransaction d from) = Ok (inl ErrInvalidChainId, mkTransaction d from).
Proof.
  intros Hne Hfrom. unfold Sender, tx_signer_Sender. simpl. rewrite (proj2 (Z.eqb_neq _ _) Hne). simpl.
  destruct from as [[c' a]|]; [|done]. destruct (Z.eqb_spec c' c) as [->|]; [by destruct (Hfrom a)|done].
Qed.

(** A signature for a chain with an id above zero. *)
Lemma signed_attributed c prv d h : 0 < c ->
  TxSigHash (AccountNonce d) (fill_address <$> Actions d) c = Some h -> length h = 32%nat ->
  exists tx tx', SignTx c prv d = Ok tx /\ AccountNonce (Data tx) = AccountNonce d /\ Actions (Data tx) = fill_address <$> Actions d /\
    Sender c tx = Ok (inr (key_address prv), tx') /\ Data tx' = Data tx /\ Sender c tx' = Ok (inr (key_address prv), tx') /\
    forall c', c' <> c -> Sender c' tx' = Ok (inl ErrInvalidChainId, tx').
Proof.
  intros Hc Hh Hlen. destruct (Sign_total h prv Hlen) as [sig Hsig].
  destruct (SignatureValues_signed c h prv sig Hc Hsig) as (v & Hv & H01 & Hvals).
  set (d' := mkTxdata (AccountNonce d) (fill_address <$> Actions d) (v + 35 + c * 2) (be (take 32 sig)) (be (take 32 (drop 32 sig)))).
  assert (fill_addresses d' = d') as Hfill.
  { pose proof (f_equal Actions (fill_idem d)) as Hi. unfold fill_addresses, d' in *. simpl in *. by rewrite Hi. }
  exists (mkTransaction d' None), (mkTransaction d' (Some (c, key_address prv))). split_and!; [|done..| |done| |].
  - unfold SignTx, tx_Hash. simpl. rewrite Hh. cbn [mbind outcome_bind]. rewrite Hsig. unfold WithSignature. by rewrite Hvals.
  - rewrite Sender_fresh. unfold tx_signer_Sender. rewrite (deriveChainId_signed c v Hc H01 : deriveChainId (sig_V d') = c), Z.eqb_refl. simpl negb. cbv iota.
    unfold tx_Hash. rewrite Hfill. unfold d'. cbn [AccountNonce Actions sig_V sig_R sig_S]. rewrite Hh. unfold tx_recoverPlain. cbn [sig_R sig_S]. destruct (recovery_id c v H01) as [-> ->].
    by rewrite (recover_signed h prv sig v Hsig Hv).
  - unfold Sender. simpl. by rewrite Z.eqb_refl.
  - intros c' Hc'. apply foreign_sender; [simpl; rewrite deriveChainId_signed by done; congruence|]. intros a [= ->]. done.
Qed.

(** On a chain with id zero, signing leaves a [V] that [Sender] cannot use. *)
Lemma chain_zero_unrecoverable prv d h : TxSigHash (AccountNonce d) (fill_address <$> Actions d) 0 = Some h -> length h = 32%nat ->
  exists tx tx', SignTx 0 prv d = Ok tx /\ AccountNonce (Data tx) = AccountNonce d /\ Actions (Data tx) = fill_address <$> Actions d /\
    Sender 0 tx = Ok (inl ErrInvalidSig, tx').
Proof.
  intros Hh Hlen. destruct (Sign_total h prv Hlen) as [sig Hsig]. destruct (Sign_range _ _ _ Hsig) as (Hl & _ & _ & _ & v & Hv & H01).
  set (d' := mkTxdata (AccountNonce d) (fill_address <$> Actions d) (v + 27) (be (take 32 sig)) (be (take 32 (drop 32 sig)))).
  assert (fill_addresses d' = d') as Hfill.
  { pose proof (f_equal Actions (fill_idem d)) as Hi. unfold fill_addresses, d' in *. simpl in *. by rewrite Hi. }
  exists (mkTransaction d' None), (mkTransaction d' None). split_and!; [|done..|].
  - unfold SignTx, tx_Hash. simpl. rewrite Hh. cbn [mbind outcome_bind]. rewrite Hsig. unfold WithSignature, tx_SignatureValues.
    rewrite Hl, Nat.eqb_refl. assert (sig !! 64%nat = Some v) as -> by (replace 64%nat with (64 + 0)%nat by lia; rewrite <- lookup_drop, Hv; done).
    simpl. by destruct H01 as [-> | ->].
  - rewrite Sender_fresh. unfold tx_signer_Sender.
    assert (deriveChainId (sig_V d') = 0) as -> by (by destruct H01 as [-> | ->]). rewrite Z.eqb_refl. simpl negb. cbv iota.
    unfold tx_Hash. rewrite Hfill. unfold d'. cbn [AccountNonce Actions sig_V sig_R sig_S]. rewrite Hh. unfold tx_recoverPlain, recover_with. cbn [sig_R sig_S].
    assert (8 <? bitLen (v + 27 - 0 * 2 - 8) = false) as -> by (by destruct H01 as [-> | ->]).
    assert (ValidateSignatureValues (wrap 8 (u64 (big_Uint64 (v + 27 - 0 * 2 - 8) - 27))) (be (take 32 sig)) (be (take 32 (drop 32 sig))) true = false) as ->; [|done].
    unfold ValidateSignatureValues. destruct (_ || _); [done|]. destruct (_ && _); [done|]. apply andb_false_iff. right.
    by destruct H01 as [-> | ->].
Qed.

(** C18: Signing a transaction for a chain leaves its content unchanged but for nil
    addresses, which are written as zero before signing.  When the chain id is above
    zero, the transaction is attributed to the address of the key, on the first
    question and from the cache, and a signer of any other chain rejects it; when the
    chain id is zero, its own signer rejects the signature. *)
Theorem signature_roundtrip c prv d h : 0 <= c ->
  TxSigHash (AccountNonce d) (fill_address <$> Actions d) c = Some h -> length h = 32%nat ->
  exists tx tx', SignTx c prv d = Ok tx /\ AccountNonce (Data tx) = AccountNonce d /\ Actions (Data tx) = fill_address <$> Actions d /\
    (0 < c -> Sender c tx = Ok (inr (key_address prv), tx') /\ Data tx' = Data tx /\ Sender c tx' = Ok (inr (key_address prv), tx') /\
      forall c', c' <> c -> Sender c' tx' = Ok (inl ErrInvalidChainId, tx')) /\
    (c = 0 -> Sender c tx = Ok (inl ErrInvalidSig, tx')).
Proof.
  intros Hc Hh Hlen. destruct (decide (c = 0)) as [->|Hne].
  - destruct (chain_zero_unrecoverable prv d h Hh Hlen) as (tx & tx' & ? & ? & ? & ?). exists tx, tx'. split_and!; try done; lia.
  - destruct (signed_attributed c prv d h) as (tx & tx' & ? & ? & ? & ? & ? & ? & ?); [lia|done|done|]. exists tx, tx'. by split_and!.
Qed.

(** Asking for the sender leaves no action without an address: the test for a contract
    creation, an action with a nil address, fails from then on. *)
Lemma sender_fills_addresses c d r tx : deriveChainId (sig_V d) = c -> Sender c (mkTransaction d None) = Ok (r, tx) ->
  Forall (fun a => is_Some (act_Address a)) (Actions (Data tx)).
Proof.
  intros Hc. rewrite Sender_fresh. unfold tx_signer_Sender, tx_Hash. rewrite Hc, Z.eqb_refl. simpl.
  destruct (TxSigHash _ _ c) as [h|]; [|done]. destruct (catch _) as [[e|a]| | |]; [|simpl; try discriminate..]; intros [= _ <-]; simpl;
    apply Forall_fmap, Forall_true; intros x; unfold compose, fill_address; by destruct (act_Address x) eqn:Hx; simpl; rewrite ?Hx.
Qed.

End Claims.

(** ** The byte form of big integers *)

Lemma bigBytes_roundtrip v : bigFromBytes (Some (bigToBytes v)) = Ok v.
Proof.
  unfold bigFromBytes, bigToBytes, sign_byte. destruct (big_Bytes_spec (Z.abs v)) as [-> _]; [lia|].
  destruct v as [|p|p]; simpl; [done|done|]. f_equal.
Qed.

(** The extension form always takes ten bytes and is read back as nine digits: a small
    value comes back larger, a large one truncated. *)
Example extension_lossy :
  (b ← MarshalBinaryTo 1 (replicate BigInt_Len 0); UnmarshalBinary b) = Ok (256 ^ 8) /\
  (b ← MarshalBinaryTo (256 ^ 9) (replicate BigInt_Len 0); UnmarshalBinary b) = Ok (256 ^ 8).
Proof. vm_compute. split; reflexivity. Qed.

(** ** Exactly which signatures are accepted *)

(** A number below 2^256 as 32 bytes. *)
Definition word (r : Z) : list byte := replicate (32 - length (big_Bytes r)) 0 ++ big_Bytes r.

Lemma word_ok r : 0 <= r < 2 ^ 256 -> Forall byte_ok (word r) /\ length (word r) = 32%nat /\ be (word r) = r.
Proof.
  intros Hr. destruct (big_Bytes_spec r) as [Hbe Hok]; [lia|].
  pose proof (big_Bytes_length r 32) as Hlen. change (256 ^ Z.of_nat 32) with (2 ^ 256) in Hlen. specialize (Hlen Hr). unfold word. split_and!.
  - apply Forall_app. split; [|done]. apply Forall_replicate. unfold byte_ok. lia.
  - rewrite length_app, length_replicate. lia.
  - rewrite be_app, be_zeros, Hbe. lia.
Qed.

Lemma valid_values_inv v r s : ValidateSignatureValues v r s true = true ->
  0 < r < secp256k1_N /\ 0 < s <= secp256k1_halfN /\ (v = 0 \/ v = 1).
Proof.
  unfold ValidateSignatureValues. destruct (Z.ltb_spec r 1); [done|]. destruct (Z.ltb_spec s 1); [done|]. cbn [orb andb].
  destruct (Z.ltb_spec secp256k1_halfN s); [done|]. destruct (Z.ltb_spec r secp256k1_N); [|done].
  destruct (Z.ltb_spec s secp256k1_N); [|done]. simpl. destruct (Z.eqb_spec v 0), (Z.eqb_spec v 1); simpl; (done || lia).
Qed.

Lemma N_bound : secp256k1_N < 2 ^ 256.
Proof. reflexivity. Qed.

Section Exact.
Context `{Crypto}.

Definition recovers (h : Hash) (r s v : Z) (a : Address) : Prop := exists p,
  Ecrecover h (word r ++ word s ++ [v]) = Some (4 :: p) /\ a = copy_at zeroAddress 0 (drop 12 (Keccak p)).

Lemma recover_sig h r s v a : 0 < r < secp256k1_N -> 0 < s <= secp256k1_halfN -> v = 0 \/ v = 1 ->
  recover_with h r s v true = Ok a <-> recovers h r s v a.
Proof.
  intros Hr Hs Hv. pose proof halfN_lt. pose proof N_bound.
  destruct (word_ok r) as (R1 & R2 & R3); [lia|]. destruct (word_ok s) as (S1 & S2 & S3); [lia|].
  unfold recover_with, sig_bytes. rewrite valid_values by done. rewrite !Z.abs_eq by lia.
  rewrite <- R3 at 1. rewrite put_word_low by done. cbn [mbind outcome_bind]. change (drop 32 (replicate 65 0)) with (replicate 33 0).
  rewrite <- S3 at 1. rewrite put_word_high by done. cbn [mbind outcome_bind]. change (drop 32 (replicate 33 0)) with [0].
  assert (zset (word r ++ word s ++ [0]) 64 v = word r ++ word s ++ [v]) as ->.
  { unfold zset. change (Z.to_nat 64) with (32 + 32)%nat. rewrite <- R2 at 1. rewrite insert_app_r. f_equal.
    rewrite <- S2 at 1. rewrite <- (Nat.add_0_r (length (word s))). by rewrite insert_app_r. }
  unfold recovers. destruct (Ecrecover h _) as [[|x p]|]; [split; [done|by intros (? & [=] & _)]| |split; [done|by intros (? & [=] & _)]].
  destruct (Z.eqb_spec x 4) as [->|Hx]; split.
  - intros [= <-]. exists p. split; reflexivity.
  - by intros (? & [= <-] & ->).
  - discriminate.
  - intros (? & [= ? _] & _). contradiction.
Qed.

(** Which [V] a signer of chain [c] accepts. *)
Lemma accepted_V c v : 0 < c < 2 ^ 62 -> deriveChainId v = c -> bitLen (v - c * 2 - 8) <= 8 ->
  wrap 8 (u64 (big_Uint64 (v - c * 2 - 8) - 27)) = 0 \/ wrap 8 (u64 (big_Uint64 (v - c * 2 - 8) - 27)) = 1 ->
  v = 35 + c * 2 \/ v = 36 + c * 2.
Proof.
  intros Hc Hd Hb Hw. set (x := v - c * 2 - 8) in *.
  assert (Z.abs x < 2 ^ 8) as Hx.
  { unfold bitLen in Hb. destruct (Z.eqb_spec x 0) as [Hx0|]; [by rewrite Hx0|]. apply Z.log2_lt_pow2; lia. }
  assert (Z.abs x = 27 \/ Z.abs x = 28) as Habs.
  { unfold big_Uint64, u64 in Hw. rewrite (wrap_small 64 (Z.abs x)) in Hw by lia. unfold wrap in Hw.
    destruct (Z.leb_spec 27 (Z.abs x)).
    - rewrite (Z.mod_small _ (2 ^ 64)) in Hw by lia. rewrite Z.mod_small in Hw by lia. lia.
    - rewrite <- (Z_mod_plus_full _ 1 (2 ^ 64)), (Z.mod_small _ (2 ^ 64)) in Hw by lia.
      rewrite <- (Z_mod_plus_full _ (- 2 ^ 56 + 1) (2 ^ 8)), Z.mod_small in Hw by lia. lia. }
  destruct (decide (0 <= x)); [lia|]. exfalso. assert (v = c * 2 - 19 \/ v = c * 2 - 20) as Hv by lia.
  unfold deriveChainId in Hd. destruct (Z.leb_spec (bitLen v) 64) as [_|Hbig].
  - unfold big_Uint64, u64 in Hd. rewrite (wrap_small 64 (Z.abs v)) in Hd by lia.
    destruct (_ || _); [lia|]. unfold wrap in Hd. destruct (Z.leb_spec 35 (Z.abs v)).
    + rewrite Z.mod_small in Hd by lia. assert ((Z.abs v - 35) / 2 < c); [|lia]. apply Z.div_lt_upper_bound; lia.
    + rewrite <- (Z_mod_plus_full _ 1 (2 ^ 64)), Z.mod_small in Hd by lia.
      assert (2 ^ 62 <= (Z.abs v - 35 + 1 * 2 ^ 64) / 2); [|lia]. apply Z.div_le_lower_bound; lia.
  - assert (bitLen (Z.abs v) <= 64) as Hs by (apply bitLen_le; lia). unfold bitLen in Hs, Hbig. rewrite Z.abs_involutive in Hs.
    destruct (Z.eqb_spec v 0), (Z.eqb_spec (Z.abs v) 0); lia.
Qed.


End Exact.

(** ** A signature scheme for the examples

    A key is a byte, its signature carries the key in [R], and recovery reads it. *)

Definition toy_key (k : nat) : byte := Z.of_nat k mod 255 + 1.
Definition toy_sig (k : nat) : list byte := replicate 31 0 ++ [toy_key k] ++ replicate 31 0 ++ [1; 0].

#[local] Instance toyCrypto : Crypto := {|
  PrivateKey := nat;
  Keccak l := replicate 31 0 ++ [default 0 (list.head l)];
  TxSigHash n _ c := Some (replicate 24 0 ++ replicate 7 0 ++ [c mod 256]);
  Sign _ k := Some (toy_sig k);
  Ecrecover _ sig := Some [4; default 0 (sig !! 31%nat)];
  VerifySig _ _ _ := true;
|}.

Lemma toy_key_range k : 1 <= toy_key k <= 255.
Proof. unfold toy_key. pose proof (Z.mod_pos_bound (Z.of_nat k) 255). lia. Qed.

#[local] Instance toyLaws : CryptoLaws.
Proof.
  refine {| pubkey k := [toy_key k : byte] |}.
  - intros h k _. by eexists.
  - intros h k sig [= <-]. pose proof (toy_key_range k). split_and!; [done| | | | | |].
    + unfold toy_sig. repeat (apply Forall_app_2; [|apply Forall_app_2; [|]]); try (apply Forall_replicate);
        repeat (apply Forall_cons_2; [unfold byte_ok; lia|]); try apply Forall_nil_2; unfold byte_ok; lia.
    + change (0 < toy_key k). lia.
    + change (toy_key k < secp256k1_N). pose proof (eq_refl : 255 <? secp256k1_N = true). lia.
    + change (0 < 1). lia.
    + change (1 <= secp256k1_halfN). pose proof (eq_refl : 1 <=? secp256k1_halfN = true). lia.
    + exists 0. split; [reflexivity|by left].
  - intros h k sig [= <-]. reflexivity.
Defined.

Definition exData : Txdata := mkTxdata 7 [mkAction None [1]; mkAction (Some zeroAddress) [2]] 0 0 0.

Lemma signature_roundtrip_witness : exists tx tx', @SignTx toyCrypto 5 41%nat exData = Ok tx /\
  Sender 5 tx = Ok (inr (replicate 19 0 ++ [42]), tx') /\ Sender 6 tx' = Ok (inl ErrInvalidChainId, tx').
Proof.
  destruct (@signature_roundtrip toyCrypto toyLaws 5 41%nat exData (replicate 31 0 ++ [5])) as (tx & tx' & Hs & _ & _ & Hp & _);
    [discriminate|reflexivity|reflexivity|]. destruct (Hp eq_refl) as (Hr & _ & _ & Hf).
  exists tx, tx'. split; [exact Hs|]. split; [exact Hr|]. apply Hf. discriminate.
Defined.

