(* ===== verification/Block.v ===== *)
(** * Blocks and headers (core/blockchain/block)

    Headers, blocks, the root that a header carries for its transactions and receipts
    ([DeriveSha]), and the signature of the producer (block_signing.go).

    Headers have their number, time and signature set; a nil pointer in a header that
    was decoded panics where it is first used.  The msgp encodings and the hashes
    over them are the fields of [BlockEnv]; the type of transactions is a
    parameter, so that the pool and the processor can use their own. *)

From stdpp Require Import base list gmap numbers option.
From S2P Require Import Prelude Types TrieEncoding TrieNode Trie TrieHash StateDB Bloom Vm Processor Signing.
Local Open Scope Z_scope.

Record ConsensusData : Type := mkConsensusData { cd_Id : list byte; cd_Para : list byte }.

Record Header : Type := mkHeader {
  ParentHash : Hash;
  StateRootHash : Hash;
  TxRootHash : Hash;
  ReceiptRootHash : Hash;
  h_Bloom : list byte;
  Number : Z;
  Time : Z;
  BlockProducer : Address;
  h_Consensus : ConsensusData;
  h_V : Z;
  h_R : Z;
  h_S : Z;
}.

(** A deep copy: no pointer is shared, the values are the same. *)
Definition CopyHeader (h : Header) : Header :=
  mkHeader (ParentHash h) (StateRootHash h) (TxRootHash h) (ReceiptRootHash h) (h_Bloom h) (Number h) (Time h)
    (BlockProducer h) (h_Consensus h) (h_V h) (h_R h) (h_S h).

Lemma CopyHeader_id h : CopyHeader h = h.
Proof. by destruct h. Qed.

Definition with_signature (h : Header) (r s v : Z) : Header :=
  mkHeader (ParentHash h) (StateRootHash h) (TxRootHash h) (ReceiptRootHash h) (h_Bloom h) (Number h) (Time h)
    (BlockProducer h) (h_Consensus h) v r s.
Definition with_producer (h : Header) (a : Address) : Header :=
  mkHeader (ParentHash h) (StateRootHash h) (TxRootHash h) (ReceiptRootHash h) (h_Bloom h) (Number h) (Time h)
    a (h_Consensus h) (h_V h) (h_R h) (h_S h).
Definition with_roots (h : Header) (txRoot receiptRoot : Hash) (bloom : list byte) : Header :=
  mkHeader (ParentHash h) (StateRootHash h) txRoot receiptRoot bloom (Number h) (Time h)
    (BlockProducer h) (h_Consensus h) (h_V h) (h_R h) (h_S h).

(** [Number.IntVal.Uint64()] *)
Definition header_NumberU64 (h : Header) : Z := big_Uint64 (Number h).

(** What [GetMsgp] encodes of a receipt: status, filter and the consensus fields of the
    logs. *)
Record ReceiptProtocol : Type := mkReceiptProtocol {
  rp_Status : Z;
  rp_Bloom : list byte;
  rp_Logs : list (Address * list Hash * list (list byte));
}.

Definition receipt_protocol (r : Receipt) : ReceiptProtocol :=
  mkReceiptProtocol (r_Status r) (r_Bloom r) ((fun l => (log_Address l, log_Topics l, log_Data l)) <$> r_Logs r).

Class BlockEnv (Tx : Type) : Type := {
  blockCrypto :: Crypto;
  nodeMsgp : node -> list byte;
  (** [GetMsgp]; nil when the encoding fails *)
  txMsgp : Tx -> list byte;
  receiptMsgp : ReceiptProtocol -> list byte;
  TransactionHash : Tx -> Hash;
  (** [MsgpHash] of a header, with and without its signature *)
  HeaderHash : Header -> Hash;
  HashNoSig : Header -> Hash;
}.

Record Block (Tx : Type) : Type := mkBlk { B_header : Header; B_body : list Tx }.
Arguments mkBlk {_}. Arguments B_header {_}. Arguments B_body {_}.

Section Blocks.
Context {Tx : Type} `{BlockEnv Tx}.

(** ** Roots of lists *)

(** [binary.Write] of an [int], which has no fixed size, is an error; it is ignored, and
    the buffer stays empty. *)
Definition index_key (i : nat) : list byte := [].

(** [trie.Update] reports errors and goes on. *)
Definition trie_Update (t : Trie) (key value : list byte) : outcome trieErr Trie :=
  match TryUpdate (fun _ => None) (fun _ => None) t key value with
  | (Ok _, t) | (Err _, t) => Ok t
  | (Panic, _) => Panic
  | (OutOfFuel, _) => OutOfFuel
  end.

Fixpoint derive_from (i : nat) (t : Trie) (items : list (list byte)) : outcome trieErr Trie :=
  match items with
  | [] => Ok t
  | v :: items => t ← trie_Update t (index_key i) v; derive_from (S i) t items
  end.

Definition DeriveSha (items : list (list byte)) : outcome trieErr Hash :=
  t ← derive_from 0 (mkTrie Nil zeroHash 0 0) items;
  '(h, _) ← trie_Hash nodeMsgp Keccak t;
  Ok h.

Definition derive_txs (txs : list Tx) : outcome trieErr Hash := DeriveSha (txMsgp <$> txs).
Definition derive_receipts (rs : list Receipt) : outcome trieErr Hash := DeriveSha (receiptMsgp ∘ receipt_protocol <$> rs).

(** ** Blocks *)

Definition lift_err {E F A} (r : outcome E A) : outcome F A :=
  match r with Ok a => Ok a | Err _ => Panic | Panic => Panic | OutOfFuel => OutOfFuel end.

(** [CreateBloom] of core/transaction/receipt.go. *)
Definition receipts_Bloom (rs : list Receipt) : outcome unit (list byte) :=
  CreateBloom Keccak (rs ≫= fun r => log_topics (r_Logs r)).

Definition EmptyRootHash : outcome trieErr Hash := DeriveSha [].

(** The filter is left as it is in the given header when there are no receipts. *)
Definition NewBlock (header : Header) (txs : list Tx) (receipts : list Receipt) : outcome trieErr (Block Tx) :=
  let h := CopyHeader header in
  txRoot ← (if (length txs =? 0)%nat then EmptyRootHash else derive_txs txs);
  '(rRoot, bloom) ←
    (if (length receipts =? 0)%nat then r ← EmptyRootHash; Ok (r, h_Bloom h)
     else r ← derive_receipts receipts; b ← lift_err (receipts_Bloom receipts); Ok (r, b));
  Ok (mkBlk (with_roots h txRoot rRoot bloom) txs).

Definition NewBlockWithHeader (header : Header) : Block Tx := mkBlk (CopyHeader header) [].
Definition WithBody (b : Block Tx) (txs : list Tx) : Block Tx := mkBlk (CopyHeader (B_header b)) txs.
Definition WithSeal (b : Block Tx) (header : Header) : Block Tx := mkBlk header (B_body b).

Definition block_Hash (b : Block Tx) : Hash := HeaderHash (B_header b).
Definition NumberU64 (b : Block Tx) : Z := header_NumberU64 (B_header b).
Definition block_ParentHash (b : Block Tx) : Hash := ParentHash (B_header b).

(** [Block.Transaction] *)
Definition block_Transaction (b : Block Tx) (hash : Hash) : option Tx :=
  snd <$> list_find (fun tx => TransactionHash tx = hash) (B_body b).

(** ** Signatures of headers *)

Definition NewBlockSigner (chainId : option Z) : Z := default 0 chainId.

(** [recoverPlain] of block_signing.go: the recovery id is already without offset. *)
Definition block_recoverPlain (sighash : Hash) (r s vb : Z) (homestead : bool) : outcome sigErr Address :=
  if 8 <? bitLen vb then Err ErrInvalidSig else recover_with sighash r s (wrap 8 (big_Uint64 vb)) homestead.

(** The producer is set also when the recovery fails, to the zero address. *)
Definition BlockSigner_Sender (signer : Z) (h : Header) : outcome unit ((sigErr + Address) * Header) :=
  if negb (deriveChainId (h_V h) =? signer) then Ok (inl ErrInvalidChainId, h)
  else
    let v := if negb (Z.sgn signer =? 0) then h_V h - signer * 2 - 35 else h_V h - 27 in
    r ← catch (block_recoverPlain (HashNoSig h) (h_R h) (h_S h) v true);
    Ok (r, with_producer h (match r with inr a => a | inl _ => zeroAddress end)).

Definition VerifySignature (signer : Z) (h : Header) : outcome sigErr bool :=
  if negb (deriveChainId (h_V h) =? signer) then Err ErrInvalidChainId
  else
    let v := if negb (Z.sgn signer =? 0) then u64 (u64 (big_Uint64 (h_V h) - big_Uint64 (signer * 2)) - 35) else u64 (big_Uint64 (h_V h) - 27) in
    if ValidateSignatureValues (wrap 8 v) (h_R h) (h_S h) true then
      sig ← sig_bytes (h_R h) (h_S h) (wrap 8 v);
      match Ecrecover (HashNoSig h) sig with
      | None => Err ErrRecover
      | Some [] => Err ErrPublicKey
      | Some (p :: pub) => if p =? 4 then Ok (VerifySig (p :: pub) (HashNoSig h) (take 64 sig)) else Err ErrPublicKey
      end
    else Err ErrInvalidSig.

Definition block_SignatureValues (signer : Z) (sig : list byte) : outcome sigErr (Z * Z * Z) :=
  if (length sig =? 65)%nat then
    last ← of_index (sig !! 64%nat);
    Ok (be (take 32 sig), be (take 32 (drop 32 sig)),
        if negb (Z.sgn signer =? 0) then wrap 8 (last + 35) + signer * 2 else be [wrap 8 (last + 27)])
  else Err ErrSigLength.

(** [WithSignature], on a copy, and [AddSignature], into the header itself. *)
Definition header_WithSignature (signer : Z) (h : Header) (sig : list byte) : outcome sigErr Header :=
  '(r, s, v) ← block_SignatureValues signer sig; Ok (with_signature (CopyHeader h) r s v).

Definition header_AddSignature (signer : Z) (h : Header) (sig : list byte) : outcome sigErr Header :=
  '(r, s, v) ← block_SignatureValues signer sig; Ok (with_signature h r s v).

Definition SignHeader (h : Header) (signer : Z) (prv : PrivateKey) : outcome sigErr Header :=
  match Sign (HashNoSig h) prv with
  | None => Err ErrSign
  | Some sig => header_WithSignature signer h sig
  end.

Definition SignHeaderInner (h : Header) (signer : Z) (prv : PrivateKey) : outcome sigErr Header :=
  match Sign (HashNoSig h) prv with
  | None => Err ErrSign
  | Some sig => header_AddSignature signer h sig
  end.

End Blocks.

(** ** The root of a list depends on its last item only *)

Section Roots.
Context {Tx : Type} `{BlockEnv Tx}.

(** All items go to the empty key, one over the other. *)
Definition one_item (v : list byte) : Trie :=
  mkTrie (match v with [] => Nil | _ => ShortNode [16] (ValueNode v) (newFlag 0) end) zeroHash 0 0.

Lemma update_one u v i : trie_Update (one_item u) (index_key i) v = Ok (one_item v).
Proof.
  unfold trie_Update, TryUpdate. destruct u as [|x u], v as [|y v]; try reflexivity.
  cbn -[bool_decide]. destruct (bool_decide_reflect (x :: u = y :: v)) as [->|]; reflexivity.
Qed.

Lemma derive_from_snoc l : forall i u v, derive_from i (one_item u) (l ++ [v]) = Ok (one_item v).
Proof.
  induction l as [|x l IH]; intros i u v; cbn [app derive_from]; rewrite update_one; cbn [mbind outcome_bind]; [done|apply IH].
Qed.

(** The root of a list is the root of its last item. *)
Lemma DeriveSha_snoc l v : DeriveSha (l ++ [v]) = DeriveSha [v].
Proof.
  unfold DeriveSha. change (mkTrie Nil zeroHash 0 0) with (one_item []). pose proof (derive_from_snoc [] 0 [] v) as Hv. cbn [app] in Hv.
  by rewrite derive_from_snoc, Hv.
Qed.

Lemma DeriveSha_nil : DeriveSha [] = Ok emptyRoot.
Proof. reflexivity. Qed.

(** The root exists, whatever the items. *)
Lemma DeriveSha_ok l : exists h, DeriveSha l = Ok h.
Proof.
  destruct l as [|v l _] using rev_ind; [by eexists|]. rewrite DeriveSha_snoc. unfold DeriveSha.
  change (mkTrie Nil zeroHash 0 0) with (one_item []). pose proof (derive_from_snoc [] 0 [] v) as Hv. cbn [app] in Hv. rewrite Hv. cbn [mbind outcome_bind].
  destruct v as [|x v]; [by eexists|]. unfold trie_Hash. cbn -[BytesToHash bare hexToCompact]. change (hexToCompact [16]) with (Some [32]). cbn -[BytesToHash bare]. rewrite andb_false_r. by eexists.
Qed.

End Roots.

(** ** Signing headers *)

Class BlockLaws {Tx : Type} `{BlockEnv Tx} : Type := {
  blockCryptoLaws :: CryptoLaws;
  (** the signature is not part of what is signed, the producer of neither encoding *)
  noSig_signature h r s v : HashNoSig (with_signature h r s v) = HashNoSig h;
  noSig_producer h a : HashNoSig (with_producer h a) = HashNoSig h;
  hash_producer h a : HeaderHash (with_producer h a) = HeaderHash h;
  Sign_verifies h prv sig : Sign h prv = Some sig -> VerifySig (4 :: pubkey prv) h (take 64 sig) = true;
}.

Section HeaderSignature.
Context {Tx : Type} `{BlockLaws Tx}.

Lemma block_chainId c v : 0 <= c -> v = 0 \/ v = 1 ->
  deriveChainId (if negb (Z.sgn c =? 0) then wrap 8 (v + 35) + c * 2 else be [wrap 8 (v + 27)]) = c.
Proof.
  intros Hc Hv. destruct (Z.eqb_spec (Z.sgn c) 0) as [Hz|Hz]; simpl.
  - assert (c = 0) as -> by lia. by destruct Hv as [-> | ->].
  - rewrite <- (deriveChainId_signed c v) at 2 by lia. by destruct Hv as [-> | ->].
Qed.

Lemma block_recovery_id c v : 0 <= c -> v = 0 \/ v = 1 ->
  let V := if negb (Z.sgn c =? 0) then wrap 8 (v + 35) + c * 2 else be [wrap 8 (v + 27)] in
  (if negb (Z.sgn c =? 0) then V - c * 2 - 35 else V - 27) = v /\
  (if negb (Z.sgn c =? 0) then u64 (u64 (big_Uint64 V - big_Uint64 (c * 2)) - 35) else u64 (big_Uint64 V - 27)) = v.
Proof.
  intros Hc Hv. destruct (Z.eqb_spec (Z.sgn c) 0) as [Hz|Hz]; simpl.
  - by destruct Hv as [-> | ->].
  - assert (wrap 8 (v + 35) = v + 35) as -> by (by destruct Hv as [-> | ->]). split; [lia|]. unfold big_Uint64, u64, wrap.
    rewrite !Z.abs_eq by lia. rewrite <- Zminus_mod, Zminus_mod_idemp_l.
    replace (v + 35 + c * 2 - c * 2 - 35) with v by lia. apply Z.mod_small. lia.
Qed.

Lemma block_values c h prv sig : Sign h prv = Some sig -> exists v, drop 64 sig = [v] /\ (v = 0 \/ v = 1) /\
  block_SignatureValues c sig = Ok (be (take 32 sig), be (take 32 (drop 32 sig)),
    if negb (Z.sgn c =? 0) then wrap 8 (v + 35) + c * 2 else be [wrap 8 (v + 27)]).
Proof.
  intros Hs. destruct (Sign_range _ _ _ Hs) as (Hl & _ & _ & _ & v & Hv & H01). exists v. split_and!; [done..|].
  unfold block_SignatureValues. rewrite Hl, Nat.eqb_refl.
  assert (sig !! 64%nat = Some v) as -> by (replace 64%nat with (64 + 0)%nat by lia; rewrite <- lookup_drop, Hv; done). done.
Qed.

(** C20: a header that is signed, for any chain id and for none, keeps what was signed;
    the signer of that chain recovers the address of the key, and sets it as the
    producer; [VerifySignature] accepts it; and the signer of any other chain
    refuses it. *)
Theorem header_signature (c : Z) (h : Header) (prv : PrivateKey) (sig : list byte)
    (Hc : 0 <= c) (Hs : Sign (HashNoSig h) prv = Some sig) :
  exists h' r s v, SignHeader h c prv = Ok h' /\ h' = with_signature h r s v /\
    BlockSigner_Sender c h' = Ok (inr (key_address prv), with_producer h' (key_address prv)) /\
    HeaderHash (with_producer h' (key_address prv)) = HeaderHash h' /\
    VerifySignature c h' = Ok true /\
    forall c', c' <> c -> BlockSigner_Sender c' h' = Ok (inl ErrInvalidChainId, h').
Proof.
  destruct (block_values c _ _ _ Hs) as (v & Hv & H01 & Hvals). unfold SignHeader, header_WithSignature. rewrite Hs, Hvals, CopyHeader_id. cbn [mbind outcome_bind].
  set (r := be (take 32 sig)). set (s := be (take 32 (drop 32 sig))). set (V := if negb (Z.sgn c =? 0) then _ else _).
  destruct (block_recovery_id c v Hc H01) as [Hid1 Hid2]. fold V in Hid1, Hid2. pose proof (block_chainId c v Hc H01) as Hch. fold V in Hch.
  exists (with_signature h r s V), r, s, V. split_and!; [done|done| |apply hash_producer| |].
  - unfold BlockSigner_Sender. cbn [with_signature h_V h_R h_S]. rewrite Hch, Z.eqb_refl. cbn [negb]. cbv iota zeta. rewrite Hid1, noSig_signature.
    unfold block_recoverPlain. assert (8 <? bitLen v = false) as -> by (by destruct H01 as [-> | ->]).
    assert (wrap 8 (big_Uint64 v) = v) as -> by (by destruct H01 as [-> | ->]). unfold r, s. by rewrite (recover_signed _ _ _ v Hs Hv).
  - unfold VerifySignature. cbn [with_signature h_V h_R h_S]. rewrite Hch, Z.eqb_refl. cbn [negb]. cbv iota zeta. rewrite Hid2, noSig_signature.
    assert (wrap 8 v = v) as -> by (by destruct H01 as [-> | ->]). destruct (signed_bytes _ _ _ _ Hs Hv) as [Hval Hb]. unfold r, s. rewrite Hval, Hb.
    cbn [mbind outcome_bind]. rewrite (Sign_recovers _ _ _ Hs), Z.eqb_refl. by rewrite (Sign_verifies _ _ _ Hs).
  - intros c' Hne. unfold BlockSigner_Sender. cbn [with_signature h_V]. rewrite Hch. destruct (Z.eqb_spec c c'); [congruence|done].
Qed.

End HeaderSignature.

(** ** An environment for the examples *)

Definition toyBlockEnv : BlockEnv Z := {|
  blockCrypto := toyCrypto;
  nodeMsgp _ := replicate 32 1;
  txMsgp z := [z];
  receiptMsgp r := [rp_Status r];
  TransactionHash z := replicate 31 2 ++ [z];
  HeaderHash h := replicate 28 1 ++ [Number h; Time h; h_V h; h_R h];
  HashNoSig h := replicate 30 1 ++ [Number h; Time h];
|}.

Definition toyBlockLaws : @BlockLaws Z toyBlockEnv.
Proof. refine {| blockCryptoLaws := toyLaws : @CryptoLaws (@blockCrypto Z toyBlockEnv) |}; done. Defined.

Definition toyHeader (number time : Z) (parent : Hash) : Header :=
  mkHeader parent zeroHash zeroHash zeroHash [] number time zeroAddress (mkConsensusData [] []) 0 0 0.

Lemma header_signature_witness : exists h', @SignHeader Z toyBlockEnv (toyHeader 3 5 zeroHash) 0 41%nat = Ok h' /\
  @VerifySignature Z toyBlockEnv 0 h' = Ok true.
Proof.
  destruct (@header_signature Z toyBlockEnv toyBlockLaws 0 (toyHeader 3 5 zeroHash) 41%nat (toy_sig 41)) as (h' & r & s & v & Hs & _ & _ & _ & Hv & _);
    [lia|reflexivity|]. exists h'. split; [exact Hs|exact Hv].
Defined.
