(* ===== verification/Prque.v ===== *)
(** * Priority queues (vendor/gopkg.in/karalabe/cookiejar.v2/collections/prque)

    The stack in blocks that holds the items, its refinement to lists, and the queue as a
    binary heap (container/heap, [Heap]) over it.  Priorities are [float32] values; the
    callers only use whole numbers, which are kept as the numbers they round to. *)

From stdpp Require Import base list numbers option.
From S2P Require Import Prelude Heap.
Local Open Scope nat_scope.

(** ** The stack in blocks ([sstack]) *)

Section Sstack.
Context {A : Type} (blockSize : nat) (Hbs : 0 < blockSize).

(** [ss_active] is the index of the block that [active] points to. *)
Record sstack : Type := mkStack {
  ss_size : nat;
  ss_capacity : nat;
  ss_offset : nat;
  ss_blocks : list (list (option A));
  ss_active : nat;
}.

Definition newSstack : sstack := mkStack 0 blockSize 0 [replicate blockSize None] 0.

Definition ss_set (blocks : list (list (option A))) (i j : nat) (x : option A) : list (list (option A)) := alter (fun b => <[j := x]> b) i blocks.
Definition ss_at (s : sstack) (i : nat) : option A := b ← ss_blocks s !! (i / blockSize); x ← b !! (i mod blockSize); x.

Definition ss_Push (s : sstack) (x : A) : sstack :=
  let s := if ss_size s =? ss_capacity s then
             mkStack (ss_size s) (ss_capacity s + blockSize) 0 (ss_blocks s ++ [replicate blockSize None]) (length (ss_blocks s))
           else if ss_offset s =? blockSize then
             mkStack (ss_size s) (ss_capacity s) 0 (ss_blocks s) (ss_size s / blockSize)
           else s in
  mkStack (S (ss_size s)) (ss_capacity s) (S (ss_offset s)) (ss_set (ss_blocks s) (ss_active s) (ss_offset s) (Some x)) (ss_active s).

(** Popping an empty stack runs below zero: [None]. *)
Definition ss_Pop (s : sstack) : option (option A * sstack) :=
  match ss_size s with
  | O => None
  | S n =>
      let '(off, act) := match ss_offset s with O => (blockSize - 1, n / blockSize) | S o => (o, ss_active s) end in
      let res := b ← ss_blocks s !! act; x ← b !! off; x in
      Some (res, mkStack n (ss_capacity s) off (ss_set (ss_blocks s) act off None) act)
  end.

Definition ss_Len (s : sstack) : nat := ss_size s.

Definition ss_Swap (s : sstack) (i j : nat) : sstack :=
  mkStack (ss_size s) (ss_capacity s) (ss_offset s)
    (ss_set (ss_set (ss_blocks s) (i / blockSize) (i mod blockSize) (ss_at s j)) (j / blockSize) (j mod blockSize) (ss_at s i)) (ss_active s).

(** A stack holds a list: all blocks are full-sized, the items come first, and the place
    for the next one is known. *)
Record holds (s : sstack) (l : list A) : Prop := {
  hl_size : ss_size s = length l;
  hl_blocks : Forall (fun b => length b = blockSize) (ss_blocks s);
  hl_capacity : ss_capacity s = blockSize * length (ss_blocks s);
  hl_room : length l <= ss_capacity s;
  hl_items i : i < ss_capacity s -> ss_at s i = l !! i;
  hl_active : ss_active s < length (ss_blocks s);
  hl_next : ss_active s * blockSize + ss_offset s = length l;
  hl_offset : ss_offset s <= blockSize;
}.

Lemma position i : i = blockSize * (i / blockSize) + i mod blockSize /\ i mod blockSize < blockSize.
Proof using Hbs. split; [apply Nat.div_mod; lia|apply Nat.mod_upper_bound; lia]. Qed.

Lemma position_unique a o : o < blockSize -> (a * blockSize + o) / blockSize = a /\ (a * blockSize + o) mod blockSize = o.
Proof using Hbs.
  intros Ho. split; [symmetry; apply (Nat.div_unique _ _ _ o); lia|symmetry; apply (Nat.mod_unique _ _ a); lia].
Qed.

(** Writing one cell. *)
Lemma ss_set_lookup blocks a o x i : Forall (fun b => length b = blockSize) blocks -> a < length blocks -> o < blockSize ->
  (b ← ss_set blocks a o x !! (i / blockSize); y ← b !! (i mod blockSize); y) =
  if decide (i = a * blockSize + o) then x else (b ← blocks !! (i / blockSize); y ← b !! (i mod blockSize); y).
Proof using Hbs.
  intros Hb Ha Ho. destruct (position_unique a o Ho) as [E1 E2]. destruct (position i) as [Ei Hi]. unfold ss_set.
  destruct (lookup_lt_is_Some_2 blocks a Ha) as [c Hc]. pose proof (Forall_lookup_1 _ _ _ _ Hb Hc) as Hlc. simpl in Hlc.
  case_decide as He.
  - subst i. rewrite E1, E2, list_lookup_alter_eq, Hc. simpl. by rewrite list_lookup_insert_eq by lia.
  - destruct (decide (i / blockSize = a)) as [Hd|Hd].
    + rewrite Hd, list_lookup_alter_eq, Hc. simpl. rewrite list_lookup_insert_ne; [done|]. intros Hm. apply He. lia.
    + by rewrite list_lookup_alter_ne.
Qed.

Lemma ss_set_blocks blocks a o x : Forall (fun b => length b = blockSize) blocks -> Forall (fun b => length b = blockSize) (ss_set blocks a o x).
Proof. intros Hb. unfold ss_set. apply Forall_alter; [done|]. intros b Hl Hb'. by rewrite length_insert. Qed.

Lemma holds_new : holds newSstack [].
Proof using Hbs.
  split; simpl; try done; try lia.
  - constructor; [by rewrite length_replicate|constructor].
  - intros i Hi. unfold ss_at. simpl. rewrite (Nat.div_small i) by done. simpl. rewrite Nat.mod_small by done.
    by rewrite lookup_replicate_2.
Qed.

(** The stack with room for one more. *)
Definition ss_room (s : sstack) : sstack :=
  if ss_size s =? ss_capacity s then
    mkStack (ss_size s) (ss_capacity s + blockSize) 0 (ss_blocks s ++ [replicate blockSize None]) (length (ss_blocks s))
  else if ss_offset s =? blockSize then mkStack (ss_size s) (ss_capacity s) 0 (ss_blocks s) (ss_size s / blockSize)
  else s.

Lemma room_ok s l : holds s l -> holds (ss_room s) l /\ ss_offset (ss_room s) < blockSize.
Proof using Hbs.
  intros [H1 H2 H3 H4 H5 H6 H7 H8]. unfold ss_room. destruct (Nat.eqb_spec (ss_size s) (ss_capacity s)) as [Hc|Hc].
  - split; [|done]. split; simpl; try done; try (rewrite ?length_app; simpl; lia).
    + apply Forall_app_2; [done|]. constructor; [by rewrite length_replicate|constructor].
    + intros i Hi. unfold ss_at. simpl. destruct (position i) as [Ei Hm]. destruct (decide (i < ss_capacity s)) as [Hlt|Hge].
      * rewrite <- H5 by done. unfold ss_at. rewrite lookup_app_l; [done|]. nia.
      * rewrite lookup_app_r by nia. assert (i / blockSize - length (ss_blocks s) = 0) as -> by nia. simpl.
        rewrite lookup_replicate_2 by done. simpl. symmetry. apply lookup_ge_None_2. lia.
  - destruct (Nat.eqb_spec (ss_offset s) blockSize) as [Ho|Ho]; [|split; [done|lia]].
    assert (ss_size s / blockSize = S (ss_active s)) as Hd by (symmetry; apply (Nat.div_unique _ _ _ 0); lia).
    split; [|done]. split; simpl; try done; try lia; rewrite ?Hd; nia.
Qed.

Lemma holds_Push s l x : holds s l -> holds (ss_Push s x) (l ++ [x]).
Proof using Hbs.
  intros Hs. destruct (room_ok s l Hs) as [[H1 H2 H3 H4 H5 H6 H7 H8] Ho]. unfold ss_Push. fold (ss_room s). set (t := ss_room s) in *.
  split; simpl; rewrite ?length_app; simpl; try lia.
  - by apply ss_set_blocks.
  - unfold ss_set. rewrite length_alter. lia.
  - nia.
  - intros i Hi. unfold ss_at. simpl. rewrite ss_set_lookup by done. case_decide as He.
    + by rewrite He, H7, lookup_app_r, Nat.sub_diag by lia.
    + fold (ss_at t i). rewrite H5 by done. destruct (decide (i < length l)); [by rewrite lookup_app_l|].
      rewrite lookup_ge_None_2, lookup_app_r by lia. symmetry. apply lookup_ge_None_2. simpl. lia.
  - unfold ss_set. by rewrite length_alter.
Qed.

Lemma holds_Pop s l x : holds s (l ++ [x]) -> exists s', ss_Pop s = Some (Some x, s') /\ holds s' l.
Proof using Hbs.
  intros [H1 H2 H3 H4 H5 H6 H7 H8]. rewrite length_app in *. simpl in *. unfold ss_Pop. rewrite H1, Nat.add_1_r.
  assert (exists off act, (match ss_offset s with O => (blockSize - 1, length l / blockSize) | S o => (o, ss_active s) end) = (off, act) /\
    act * blockSize + off = length l /\ off < blockSize /\ act < length (ss_blocks s)) as (off & act & -> & Hp & Hoff & Hact).
  { destruct (ss_offset s) as [|o] eqn:Ho.
    - destruct (position (length l)) as [El Hm]. eexists _, _. split; [done|]. destruct (ss_active s) as [|a] eqn:Hac; [lia|].
      assert (length l / blockSize = a) as -> by (symmetry; apply (Nat.div_unique _ _ _ (blockSize - 1)); lia). lia.
    - eexists _, _. split; [done|]. lia. }
  destruct (position_unique act off Hoff) as [E1 E2].
  assert ((b ← ss_blocks s !! act; y ← b !! off; y) = Some x) as ->.
  { pose proof (H5 (length l) ltac:(lia)) as Hl. unfold ss_at in Hl. rewrite <- Hp, E1, E2 in Hl. rewrite Hl, Hp. by rewrite lookup_app_r, Nat.sub_diag by lia. }
  eexists. split; [done|]. split; simpl; try done; try lia.
  - by apply ss_set_blocks.
  - unfold ss_set. rewrite length_alter. lia.
  - intros i Hi. unfold ss_at. simpl. rewrite ss_set_lookup by done. case_decide as He.
    + symmetry. apply lookup_ge_None_2. lia.
    + fold (ss_at s i). rewrite H5 by done. destruct (decide (i < length l)); [by rewrite lookup_app_l|].
      rewrite !lookup_ge_None_2; [done| |rewrite length_app; simpl]; lia.
  - unfold ss_set. by rewrite length_alter.
Qed.

Lemma holds_Swap s l i j : i < length l -> j < length l -> holds s l -> holds (ss_Swap s i j) (swap l i j).
Proof using Hbs.
  intros Hi Hj [H1 H2 H3 H4 H5 H6 H7 H8]. destruct (position i) as [Ei Hmi], (position j) as [Ej Hmj].
  assert (i / blockSize < length (ss_blocks s)) as Hbi by nia. assert (j / blockSize < length (ss_blocks s)) as Hbj by nia.
  assert (length (swap l i j) = length l) as Hsw by apply swap_length.
  split; simpl; rewrite ?Hsw; try done; unfold ss_set; rewrite ?length_alter; try done.
  - by apply ss_set_blocks, ss_set_blocks.
  - intros k Hk. unfold ss_at at 1. simpl. rewrite ss_set_lookup by (done || (by apply ss_set_blocks) || (unfold ss_set; by rewrite length_alter)).
    rewrite ss_set_lookup by done. fold (ss_at s k). rewrite !H5 by lia.
    destruct (lookup_lt_is_Some_2 l i Hi) as [x Hx], (lookup_lt_is_Some_2 l j Hj) as [y Hy]. unfold swap. rewrite Hx, Hy.
    replace (i / blockSize * blockSize + i mod blockSize) with i by lia. replace (j / blockSize * blockSize + j mod blockSize) with j by lia.
    destruct (decide (k = j)) as [->|Hkj].
    + destruct (decide (i = j)) as [->|]; [rewrite list_lookup_insert_eq by (rewrite length_insert; done); congruence|].
      rewrite list_lookup_insert_ne by done. by rewrite list_lookup_insert_eq.
    + destruct (decide (k = i)) as [->|Hki]; [by rewrite list_lookup_insert_eq by (by rewrite length_insert)|].
      by rewrite !list_lookup_insert_ne.
Qed.

End Sstack.

(** ** The queue *)

(** [float32] of a [uint64]: 24 significant bits, halves to the even. *)
Definition f32 (n : Z) : Z :=
  (let e := Z.log2 n - 23 in
   if e <=? 0 then n
   else
     let q := n / 2 ^ e in
     let r := n mod 2 ^ e in
     let half := 2 ^ (e - 1) in
     (if (r <? half) || ((r =? half) && Z.even q) then q else q + 1) * 2 ^ e)%Z.

Lemma f32_exact n : (0 <= n < 2 ^ 24)%Z -> f32 n = n.
Proof.
  intros Hn. unfold f32. assert (Z.log2 n < 24)%Z as Hl.
  { destruct (Z.eq_dec n 0%Z) as [->|]; [done|]. apply Z.log2_lt_pow2; lia. }
  by rewrite (proj2 (Z.leb_le _ _)) by lia.
Qed.

Section Prque.
Context {A : Type} `{!Inhabited A}.

(** [Less]: the higher priority first. *)
Definition prio_less (x y : A * Z) : bool := (y.2 <? x.2)%Z.

Abbreviation Prque := (list (A * Z)).

Definition prque_Push (p : Prque) (data : A) (priority : Z) : Prque := Push prio_less p (data, priority).
Definition prque_Pop (p : Prque) : option ((A * Z) * Prque) := Pop prio_less p.
Definition prque_Empty (p : Prque) : bool := length p =? 0.
Definition prque_Size (p : Prque) : nat := length p.
Definition prque_Reset (p : Prque) : Prque := [].

Definition prque_ok (p : Prque) : Prop := heap_from prio_less 0 p (length p).

#[export] Instance prio_order : StrictOrder_ prio_less.
Proof. unfold prio_less. split; intros; lia. Qed.

Lemma prque_Push_ok p x prio : prque_ok p -> prque_ok (prque_Push p x prio) /\ prque_Push p x prio ≡ₚ (x, prio) :: p.
Proof. intros Hp. exact (Push_spec prio_less p (x, prio) Hp). Qed.

(** [Pop] takes an item of the highest priority. *)
Lemma prque_Pop_ok p : prque_ok p -> p <> [] -> exists x p',
  prque_Pop p = Some (x, p') /\ prque_ok p' /\ p ≡ₚ x :: p' /\ Forall (fun y => (y.2 <= x.2)%Z) p'.
Proof.
  intros Hp Hne. destruct (Pop_spec prio_less p Hp Hne) as (p' & Hpop & Hok & Hperm & Hmax). eexists _, _. split_and!; [exact Hpop|done|done|].
  apply Forall_forall. intros y Hy%list_elem_of_In. apply Hmax in Hy. unfold prio_less in Hy. lia.
Qed.

Lemma prque_nil : prque_ok [].
Proof. intros k Hk. simpl in Hk. lia. Qed.

End Prque.
