(* ===== verification/FetchQueue.v ===== *)
(** * The download queue (node/services/mjoy/downloader/queue.go)

    Headers are scheduled, handed out to peers in batches to fetch bodies and receipts,
    taken back when a peer fails, and delivered in order once complete.  Every exported
    method holds the lock of the queue, so it is one step.  The set of items a peer is
    known to lack (peer.go) is kept beside the queue. *)

From stdpp Require Import base list gmap numbers option strings.
From S2P Require Import Prelude Types TrieNode StateDB Vm Processor Signing Block Heap Prque.
Local Open Scope Z_scope.

Inductive SyncMode : Type := FullSync | FastSync | LightSync.
#[export] Instance SyncMode_eq_dec : EqDecision SyncMode.
Proof. solve_decision. Defined.

Inductive queueErr : Type :=
| errNoFetchesPending | errStaleDelivery | errInvalidChain | errInvalidBody | errInvalidReceipt
| PartialFailure (e : queueErr) | NotAccepted.

(** A send on a full channel waits for a receiver, with the lock held. *)
Inductive blocked : Type := Blocked.

Abbreviation peerId := string.

(** [Hashes], which only older protocols filled, is always empty.  [From] is zero in the
    requests for bodies and receipts, and [Headers] empty in those for headers. *)
Record fetchRequest : Type := mkRequest {
  rq_Peer : peerId;
  rq_From : Z;
  rq_Headers : list Header;
  rq_Time : Z;
}.

#[export] Instance Header_inhabited : Inhabited Header := populate (mkHeader [] [] [] [] [] 0 0 [] (mkConsensusData [] []) 0 0 0).

(** The pools of one kind of data: pending tasks by hash, the queue of headers to fetch
    for, running requests by peer, completed fetches. *)
Record tasks : Type := mkTasks {
  t_pool : gmap Hash Header;
  t_queue : list (Header * Z);
  t_pend : gmap peerId fetchRequest;
  t_done : gset Hash;
}.
Definition no_tasks : tasks := mkTasks ∅ [] ∅ ∅.

(** The tasks of a skeleton, created together. *)
Record skeleton : Type := mkSkeleton {
  k_pool : gmap Z Header;
  k_queue : list (Z * Z);
  k_miss : gmap peerId (gset Z);
}.

Record fetchResult (Tx : Type) : Type := mkResult {
  rs_Pending : Z;
  rs_Header : Header;
  rs_Transactions : list Tx;
  rs_Receipts : list Receipt;
}.
Arguments mkResult {_}. Arguments rs_Pending {_}. Arguments rs_Header {_}. Arguments rs_Transactions {_}. Arguments rs_Receipts {_}.

(** [q_headerCont]: the messages in [headerContCh], which has room for one. *)
Record queue (Tx : Type) : Type := mkQueue {
  q_mode : SyncMode;
  q_pivot : Z;
  q_headerHead : Hash;
  q_skeleton : option skeleton;
  q_headerPend : gmap peerId fetchRequest;
  q_headerResults : option (list (option Header));
  q_headerProced : nat;
  q_headerOffset : Z;
  q_headerCont : nat;
  q_blocks : tasks;
  q_receipts : tasks;
  q_cache : list (option (fetchResult Tx));
  q_offset : Z;
  q_closed : bool;
  q_lacking : gmap peerId (gset Hash);
}.
Arguments mkQueue {_}. Arguments q_mode {_}. Arguments q_pivot {_}. Arguments q_headerHead {_}. Arguments q_skeleton {_}.
Arguments q_headerPend {_}. Arguments q_headerResults {_}. Arguments q_headerProced {_}. Arguments q_headerOffset {_}.
Arguments q_headerCont {_}. Arguments q_blocks {_}. Arguments q_receipts {_}. Arguments q_cache {_}. Arguments q_offset {_}.
Arguments q_closed {_}. Arguments q_lacking {_}.

Inductive dataKind : Type := Bodies | Receipts.

(** [peerConnection.Lacks] and [MarkLacking]: a full set first loses some element. *)
Definition maxLackingHashes : nat := 4096.

Fixpoint evict (fuel : nat) (s : gset Hash) : gset Hash :=
  match fuel with
  | O => s
  | S fuel =>
      if (maxLackingHashes <=? size s)%nat then
        match elements s with [] => s | drop :: _ => evict fuel (s ∖ {[drop]}) end
      else s
  end.
Definition MarkLacking (lacking : gmap peerId (gset Hash)) (p : peerId) (hash : Hash) : gmap peerId (gset Hash) :=
  let s := default ∅ (lacking !! p) in <[p := {[hash]} ∪ evict (size s) s]> lacking.
Definition Lacks (lacking : gmap peerId (gset Hash)) (p : peerId) (hash : Hash) : bool := bool_decide (hash ∈ default ∅ (lacking !! p)).

(** Headers go into the queues by their number, the lowest first. *)
Definition push_header (q : list (Header * Z)) (h : Header) : list (Header * Z) := prque_Push q h (- f32 (header_NumberU64 h)).
Definition push_headers (q : list (Header * Z)) (hs : list Header) : list (Header * Z) := foldl push_header q hs.
Definition push_index (q : list (Z * Z)) (from : Z) : list (Z * Z) := prque_Push q from (- f32 from).

Section Queue.
Context {Tx : Type} `{BlockEnv Tx}.
(** Package variables: 8192, 192 and 24. *)
Context (blockCacheLimit MaxHeaderFetch fsHeaderForceVerify : nat).
Abbreviation Q := (queue Tx).
Abbreviation R := (fetchResult Tx).
Implicit Types (q : Q).

Definition get_tasks q (k : dataKind) : tasks := match k with Bodies => q_blocks q | Receipts => q_receipts q end.
Definition set_tasks q (k : dataKind) (t : tasks) : Q :=
  mkQueue (q_mode q) (q_pivot q) (q_headerHead q) (q_skeleton q) (q_headerPend q) (q_headerResults q) (q_headerProced q) (q_headerOffset q) (q_headerCont q)
    (match k with Bodies => t | Receipts => q_blocks q end) (match k with Bodies => q_receipts q | Receipts => t end)
    (q_cache q) (q_offset q) (q_closed q) (q_lacking q).
Definition set_cache q (cache : list (option R)) (offset : Z) : Q :=
  mkQueue (q_mode q) (q_pivot q) (q_headerHead q) (q_skeleton q) (q_headerPend q) (q_headerResults q) (q_headerProced q) (q_headerOffset q) (q_headerCont q)
    (q_blocks q) (q_receipts q) cache offset (q_closed q) (q_lacking q).
Definition set_head q (head : Hash) : Q :=
  mkQueue (q_mode q) (q_pivot q) head (q_skeleton q) (q_headerPend q) (q_headerResults q) (q_headerProced q) (q_headerOffset q) (q_headerCont q)
    (q_blocks q) (q_receipts q) (q_cache q) (q_offset q) (q_closed q) (q_lacking q).
Definition set_lacking q (l : gmap peerId (gset Hash)) : Q :=
  mkQueue (q_mode q) (q_pivot q) (q_headerHead q) (q_skeleton q) (q_headerPend q) (q_headerResults q) (q_headerProced q) (q_headerOffset q) (q_headerCont q)
    (q_blocks q) (q_receipts q) (q_cache q) (q_offset q) (q_closed q) l.
(** The part for headers. *)
Definition set_headers q (sk : option skeleton) (pend : gmap peerId fetchRequest) (res : option (list (option Header))) (proced : nat) (off : Z) (cont : nat) : Q :=
  mkQueue (q_mode q) (q_pivot q) (q_headerHead q) sk pend res proced off cont
    (q_blocks q) (q_receipts q) (q_cache q) (q_offset q) (q_closed q) (q_lacking q).

Definition newQueue : Q := mkQueue FullSync 0 zeroHash None ∅ None 0 0 0 no_tasks no_tasks (replicate blockCacheLimit None) 0 false ∅.

Definition Reset q : Q :=
  mkQueue FullSync 0 zeroHash (q_skeleton q) ∅ (q_headerResults q) (q_headerProced q) (q_headerOffset q) (q_headerCont q)
    no_tasks no_tasks (replicate blockCacheLimit None) 0 false (q_lacking q).

Definition Close q : Q :=
  mkQueue (q_mode q) (q_pivot q) (q_headerHead q) (q_skeleton q) (q_headerPend q) (q_headerResults q) (q_headerProced q) (q_headerOffset q) (q_headerCont q)
    (q_blocks q) (q_receipts q) (q_cache q) (q_offset q) true (q_lacking q).

Definition Prepare q (offset : Z) (mode : SyncMode) (pivot : Z) : Q :=
  mkQueue mode pivot (q_headerHead q) (q_skeleton q) (q_headerPend q) (q_headerResults q) (q_headerProced q) (q_headerOffset q) (q_headerCont q)
    (q_blocks q) (q_receipts q) (q_cache q) (if q_offset q <? offset then offset else q_offset q) (q_closed q) (q_lacking q).

(** ** Counters *)

Definition PendingHeaders q : outcome blocked nat := match q_skeleton q with None => Panic | Some sk => Ok (prque_Size (k_queue sk)) end.
Definition PendingBlocks q : nat := prque_Size (t_queue (q_blocks q)).
Definition PendingReceipts q : nat := prque_Size (t_queue (q_receipts q)).
Definition InFlightHeaders q : bool := negb (size (q_headerPend q) =? 0)%nat.
Definition InFlightBlocks q : bool := negb (size (t_pend (q_blocks q)) =? 0)%nat.
Definition InFlightReceipts q : bool := negb (size (t_pend (q_receipts q)) =? 0)%nat.
Definition FastSyncPivot q : Z := q_pivot q.

Definition Idle q : bool :=
  let queued := (PendingBlocks q + PendingReceipts q)%nat in
  let pending := (size (t_pend (q_blocks q)) + size (t_pend (q_receipts q)))%nat in
  let cached := (size (t_done (q_blocks q)) + size (t_done (q_receipts q)))%nat in
  (queued + pending + cached =? 0)%nat.

Definition in_flight (pend : gmap peerId fetchRequest) : Z := foldr (fun r n => Z.of_nat (length (rq_Headers r)) + n) 0 (map_to_list pend).*2.
Definition ShouldThrottleBlocks q : bool := Z.of_nat (length (q_cache q)) - Z.of_nat (size (t_done (q_blocks q))) <=? in_flight (t_pend (q_blocks q)).
Definition ShouldThrottleReceipts q : bool := Z.of_nat (length (q_cache q)) - Z.of_nat (size (t_done (q_receipts q))) <=? in_flight (t_pend (q_receipts q)).

(** ** Scheduling *)

(** [Schedule]: the first header out of order ends it. *)
Definition add_task (t : tasks) (h : Header) : tasks := mkTasks (<[HeaderHash h := h]> (t_pool t)) (push_header (t_queue t) h) (t_pend t) (t_done t).
Definition wants_receipts q (h : Header) : bool := bool_decide (q_mode q = FastSync) && (header_NumberU64 h <=? q_pivot q).

Fixpoint Schedule q (headers : list Header) (from : Z) : list Header * Q :=
  match headers with
  | [] => ([], q)
  | h :: headers =>
      if negb (header_NumberU64 h =? from) then ([], q)
      else if negb (bool_decide (q_headerHead q = zeroHash)) && negb (bool_decide (q_headerHead q = ParentHash h)) then ([], q)
      else if bool_decide (is_Some (t_pool (q_blocks q) !! HeaderHash h)) then Schedule q headers from
      else if bool_decide (is_Some (t_pool (q_receipts q) !! HeaderHash h)) then Schedule q headers from
      else
        let q1 := set_tasks q Bodies (add_task (q_blocks q) h) in
        let q2 := if wants_receipts q h then set_tasks q1 Receipts (add_task (q_receipts q1) h) else q1 in
        let '(inserts, q') := Schedule (set_head q2 (HeaderHash h)) headers (u64 (from + 1)) in
        (h :: inserts, q')
  end.

(** ** Reserving bodies and receipts *)

Definition isNoop (k : dataKind) (h : Header) : bool :=
  match EmptyRootHash with
  | Ok e => bool_decide ((match k with Bodies => TxRootHash h | Receipts => ReceiptRootHash h end) = e)
  | _ => false
  end.

(** The place of a header in the result cache. *)
Definition cache_index q (h : Header) : Z := i64 (i64 (Number h) - i64 (q_offset q)).

Definition start_result q (h : Header) (cache : list (option R)) (i : nat) : list (option R) :=
  match cache !! i with
  | Some None => <[i := Some (mkResult (if wants_receipts q h then 2 else 1) h [] [])]> cache
  | _ => cache
  end.
Definition less_pending (cache : list (option R)) (i : nat) : list (option R) :=
  alter (fmap (fun r => mkResult (rs_Pending r - 1) (rs_Header r) (rs_Transactions r) (rs_Receipts r))) i cache.

Record reservation : Type := mkReservation {
  rv_space : Z;
  rv_proc : Z;
  rv_tasks : tasks;
  rv_cache : list (option R);
  rv_send : list Header;
  rv_skip : list Header;
  rv_progress : bool;
}.

(** [for proc := 0; proc < space && len(send) < count && !taskQueue.Empty(); proc++] *)
Fixpoint reserve_loop q (k : dataKind) (p : peerId) (count : Z) (fuel : nat) (v : reservation) : outcome blocked (option queueErr * reservation) :=
  if (rv_proc v <? rv_space v) && (Z.of_nat (length (rv_send v)) <? count) && negb (prque_Empty (t_queue (rv_tasks v))) then
    match fuel, prque_Pop (t_queue (rv_tasks v)) with
    | O, _ => OutOfFuel
    | _, None => Panic
    | S fuel, Some ((h, _), rest) =>
        let t := mkTasks (t_pool (rv_tasks v)) rest (t_pend (rv_tasks v)) (t_done (rv_tasks v)) in
        let index := cache_index q h in
        if (Z.of_nat (length (rv_cache v)) <=? index) || (index <? 0) then
          Ok (Some errInvalidChain, mkReservation (rv_space v) (rv_proc v) t (rv_cache v) (rv_send v) (rv_skip v) (rv_progress v))
        else
          let i := Z.to_nat index in
          let cache := start_result q h (rv_cache v) i in
          if isNoop k h then
            reserve_loop q k p count fuel
              (mkReservation (rv_space v - 1) (rv_proc v - 1 + 1)
                 (mkTasks (delete (HeaderHash h) (t_pool t)) rest (t_pend t) ({[HeaderHash h]} ∪ t_done t))
                 (less_pending cache i) (rv_send v) (rv_skip v) true)
          else if Lacks (q_lacking q) p (HeaderHash h) then
            reserve_loop q k p count fuel (mkReservation (rv_space v) (rv_proc v + 1) t cache (rv_send v) (rv_skip v ++ [h]) (rv_progress v))
          else
            reserve_loop q k p count fuel (mkReservation (rv_space v) (rv_proc v + 1) t cache (rv_send v ++ [h]) (rv_skip v) (rv_progress v))
    end
  else Ok (None, v).

Definition reserveHeaders q (k : dataKind) (p : peerId) (count now : Z) : outcome blocked (option fetchRequest * bool * option queueErr * Q) :=
  let t := get_tasks q k in
  if prque_Empty (t_queue t) then Ok (None, false, None, q)
  else if bool_decide (is_Some (t_pend t !! p)) then Ok (None, false, None, q)
  else
    let space := Z.of_nat (length (q_cache q)) - Z.of_nat (size (t_done t)) - in_flight (t_pend t) in
    if count <? 0 then Panic else
    '(e, v) ← reserve_loop q k p count (length (t_queue t)) (mkReservation space 0 t (q_cache q) [] [] false);
    match e with
    | Some e => Ok (None, false, Some e, set_cache (set_tasks q k (rv_tasks v)) (rv_cache v) (q_offset q))
    | None =>
        let t := rv_tasks v in
        let t := mkTasks (t_pool t) (push_headers (t_queue t) (rv_skip v)) (t_pend t) (t_done t) in
        match rv_send v with
        | [] => Ok (None, rv_progress v, None, set_cache (set_tasks q k t) (rv_cache v) (q_offset q))
        | send =>
            let request := mkRequest p 0 send now in
            let t := mkTasks (t_pool t) (t_queue t) (<[p := request]> (t_pend t)) (t_done t) in
            Ok (Some request, rv_progress v, None, set_cache (set_tasks q k t) (rv_cache v) (q_offset q))
        end
    end.

Definition ReserveBodies q (p : peerId) (count now : Z) := reserveHeaders q Bodies p count now.
Definition ReserveReceipts q (p : peerId) (count now : Z) := reserveHeaders q Receipts p count now.

(** ** Taking requests back *)

(** [CancelBodies] and [CancelReceipts]: the headers of a request go back to the queue.
    The request is one that is still running: [deliver] clears the headers it satisfies in
    the request itself. *)
Definition take_back (t : tasks) (p : peerId) (r : fetchRequest) : tasks :=
  mkTasks (t_pool t) (push_headers (t_queue t) (rq_Headers r)) (delete p (t_pend t)) (t_done t).
Definition cancel q (k : dataKind) (r : fetchRequest) : Q := set_tasks q k (take_back (get_tasks q k) (rq_Peer r) r).

Definition revoke_kind q (k : dataKind) (p : peerId) : Q :=
  match t_pend (get_tasks q k) !! p with
  | Some r => set_tasks q k (take_back (get_tasks q k) p r)
  | None => q
  end.
Definition Revoke q (p : peerId) : Q := revoke_kind (revoke_kind q Bodies p) Receipts p.

(** [expire]: the peers whose requests are older than the timeout, with what they failed.
    [pool] lists the running requests in the order the map is ranged over. *)
Definition expired (timeout now : Z) (pool : list (peerId * fetchRequest)) : list (peerId * fetchRequest) :=
  filter (fun x => timeout < now - rq_Time x.2) pool.
Definition expiries (old : list (peerId * fetchRequest)) : gmap peerId nat :=
  list_to_map ((fun x => (x.1, length (rq_Headers x.2))) <$> old).
Definition drop_expired (pend : gmap peerId fetchRequest) (old : list (peerId * fetchRequest)) : gmap peerId fetchRequest :=
  foldl (fun pend x => delete x.1 pend) pend old.

Definition expire q (k : dataKind) (timeout now : Z) (pool : list (peerId * fetchRequest)) : gmap peerId nat * Q :=
  let t := get_tasks q k in
  let old := expired timeout now pool in
  let queue := foldl (fun queue x => push_headers queue (rq_Headers x.2)) (t_queue t) old in
  (expiries old, set_tasks q k (mkTasks (t_pool t) queue (drop_expired (t_pend t) old) (t_done t))).

Definition ExpireBodies q (timeout now : Z) (pool : list (peerId * fetchRequest)) := expire q Bodies timeout now pool.
Definition ExpireReceipts q (timeout now : Z) (pool : list (peerId * fetchRequest)) := expire q Receipts timeout now pool.

(** ** Delivering bodies and receipts *)

(** What one round of the loop of [deliver] works on; [dl_left] are the headers that are
    not satisfied. *)
Record delivery : Type := mkDelivery {
  dl_tasks : tasks;
  dl_cache : list (option R);
  dl_accepted : nat;
  dl_failure : option queueErr;
  dl_left : list Header;
}.

Fixpoint deliver_loop q (i results : nat) (reconstruct : Header -> nat -> R -> outcome blocked (queueErr + R)) (headers : list Header)
    (t : tasks) (cache : list (option R)) (accepted : nat) : outcome blocked delivery :=
  match headers with
  | [] => Ok (mkDelivery t cache accepted None [])
  | h :: rest =>
      if (results <=? i)%nat then Ok (mkDelivery t cache accepted None headers)
      else
        let index := cache_index q h in
        match (if (Z.of_nat (length cache) <=? index) || (index <? 0) then None else mjoin (cache !! Z.to_nat index)) with
        | None => Ok (mkDelivery t cache accepted (Some errInvalidChain) headers)
        | Some r =>
            x ← reconstruct h i r;
            match x with
            | inl e => Ok (mkDelivery t cache accepted (Some e) headers)
            | inr r =>
                let t := mkTasks (delete (HeaderHash h) (t_pool t)) (t_queue t) (t_pend t) ({[HeaderHash h]} ∪ t_done t) in
                let cache := less_pending (<[Z.to_nat index := Some r]> cache) (Z.to_nat index) in
                deliver_loop q (S i) results reconstruct rest t cache (S accepted)
            end
        end
  end.

Definition deliver q (k : dataKind) (id : peerId) (results : nat) (reconstruct : Header -> nat -> R -> outcome blocked (queueErr + R))
    : outcome blocked (nat * option queueErr * Q) :=
  let t := get_tasks q k in
  match t_pend t !! id with
  | None => Ok (0%nat, Some errNoFetchesPending, q)
  | Some request =>
      let t := mkTasks (t_pool t) (t_queue t) (delete id (t_pend t)) (t_done t) in
      let lacking := if (results =? 0)%nat then foldl (fun l h => MarkLacking l (rq_Peer request) (HeaderHash h)) (q_lacking q) (rq_Headers request)
                     else q_lacking q in
      d ← deliver_loop q 0 results reconstruct (rq_Headers request) t (q_cache q) 0;
      let t := dl_tasks d in
      let t := mkTasks (t_pool t) (push_headers (t_queue t) (dl_left d)) (t_pend t) (t_done t) in
      let e := match dl_failure d with
               | None => None
               | Some errInvalidChain => Some errInvalidChain
               | Some e => if (0 <? dl_accepted d)%nat then Some (PartialFailure e) else Some errStaleDelivery
               end in
      Ok (dl_accepted d, e, set_lacking (set_cache (set_tasks q k t) (dl_cache d) (q_offset q)) lacking)
  end.

Definition reconstruct_body (txLists : list (list Tx)) (h : Header) (i : nat) (r : R) : outcome blocked (queueErr + R) :=
  txs ← of_index (txLists !! i);
  root ← lift_err (derive_txs txs);
  Ok (if bool_decide (root = TxRootHash h) then inr (mkResult (rs_Pending r) (rs_Header r) txs (rs_Receipts r)) else inl errInvalidBody).
Definition DeliverBodies q (id : peerId) (txLists : list (list Tx)) : outcome blocked (nat * option queueErr * Q) :=
  deliver q Bodies id (length txLists) (reconstruct_body txLists).

Definition reconstruct_receipts (receiptList : list (list Receipt)) (h : Header) (i : nat) (r : R) : outcome blocked (queueErr + R) :=
  rs ← of_index (receiptList !! i);
  root ← lift_err (derive_receipts rs);
  Ok (if bool_decide (root = ReceiptRootHash h) then inr (mkResult (rs_Pending r) (rs_Header r) (rs_Transactions r) rs) else inl errInvalidReceipt).
Definition DeliverReceipts q (id : peerId) (receiptList : list (list Receipt)) : outcome blocked (nat * option queueErr * Q) :=
  deliver q Receipts id (length receiptList) (reconstruct_receipts receiptList).

(** ** Results *)

(** [countProcessableItems]: the complete results at the front, stopping before the pivot
    unless enough results follow it. *)
Definition past_pivot (cache : list (option R)) (i : nat) : bool :=
  forallb (fun j => match cache !! (i + j + 1)%nat with Some (Some _) => true | _ => false end) (seq 0 fsHeaderForceVerify).

Fixpoint count_from q (i : nat) (rest : list (option R)) : nat :=
  match rest with
  | [] => i
  | None :: _ => i
  | Some r :: rest =>
      if 0 <? rs_Pending r then i
      else if bool_decide (q_mode q = FastSync) && (header_NumberU64 (rs_Header r) =? q_pivot q) && negb (past_pivot (q_cache q) i) then i
      else count_from q (S i) rest
  end.
Definition countProcessableItems q : nat := count_from q 0 (q_cache q).

Definition drop_done (t : tasks) (hs : list Hash) : tasks := mkTasks (t_pool t) (t_queue t) (t_pend t) (t_done t ∖ list_to_set hs).

(** [WaitResults]: [None] while it waits. *)
Definition WaitResults q : option (list R * Q) :=
  let nproc := countProcessableItems q in
  if (nproc =? 0)%nat && negb (q_closed q) then None
  else
    let results := omap id (take nproc (q_cache q)) in
    let hashes := HeaderHash ∘ rs_Header <$> results in
    let q := set_tasks (set_tasks q Bodies (drop_done (q_blocks q) hashes)) Receipts (drop_done (q_receipts q) hashes) in
    Some (results, set_cache q (drop nproc (q_cache q) ++ replicate nproc None) (u64 (q_offset q + Z.of_nat nproc))).

(** ** Filling a skeleton of headers *)

Definition ScheduleSkeleton q (from : Z) (skel : list Header) : outcome blocked Q :=
  match q_headerResults q with
  | Some _ => Panic
  | None =>
      let indexed := imap (fun i h => (u64 (from + Z.of_nat (i * MaxHeaderFetch)), h)) skel in
      let sk := foldl (fun sk x => mkSkeleton (<[x.1 := x.2]> (k_pool sk)) (push_index (k_queue sk) x.1) (k_miss sk)) (mkSkeleton ∅ [] ∅) indexed in
      Ok (set_headers q (Some sk) (q_headerPend q) (Some (replicate (length skel * MaxHeaderFetch) None)) 0 from 0)
  end.

Definition RetrieveHeaders q : option (list (option Header)) * nat * Q :=
  (q_headerResults q, q_headerProced q, set_headers q (q_skeleton q) (q_headerPend q) None 0 (q_headerOffset q) (q_headerCont q)).

(** [for send == 0 && !q.headerTaskQueue.Empty()] *)
Fixpoint pick_index (fuel : nat) (miss : gset Z) (queue : list (Z * Z)) (skip : list Z) : outcome blocked (Z * list Z * list (Z * Z)) :=
  if prque_Empty queue then Ok (0, skip, queue)
  else match fuel, prque_Pop queue with
       | O, _ => OutOfFuel
       | _, None => Panic
       | S fuel, Some ((from, _), queue) =>
           if bool_decide (from ∈ miss) then pick_index fuel miss queue (skip ++ [from])
           else if from =? 0 then pick_index fuel miss queue skip
           else Ok (from, skip, queue)
       end.

Definition ReserveHeaders q (p : peerId) (now : Z) : outcome blocked (option fetchRequest * Q) :=
  if bool_decide (is_Some (q_headerPend q !! p)) then Ok (None, q)
  else match q_skeleton q with
       | None => Panic
       | Some sk =>
           '(send, skip, queue) ← pick_index (length (k_queue sk)) (default ∅ (k_miss sk !! p)) (k_queue sk) [];
           let sk := mkSkeleton (k_pool sk) (foldl push_index queue skip) (k_miss sk) in
           let request := mkRequest p send [] now in
           let pend := if send =? 0 then q_headerPend q else <[p := request]> (q_headerPend q) in
           Ok (if send =? 0 then None else Some request,
               set_headers q (Some sk) pend (q_headerResults q) (q_headerProced q) (q_headerOffset q) (q_headerCont q))
       end.

(** A skeleton index goes back to the queue, which [ScheduleSkeleton] creates. *)
Definition back_index (sk : option skeleton) (from : Z) : outcome blocked (option skeleton) :=
  if 0 <? from then
    match sk with
    | None => Panic
    | Some sk => Ok (Some (mkSkeleton (k_pool sk) (push_index (k_queue sk) from) (k_miss sk)))
    end
  else Ok sk.
Fixpoint back_indexes (sk : option skeleton) (old : list (peerId * fetchRequest)) : outcome blocked (option skeleton) :=
  match old with
  | [] => Ok sk
  | x :: old => sk ← back_index sk (rq_From x.2); back_indexes sk old
  end.

Definition CancelHeaders q (r : fetchRequest) : outcome blocked Q :=
  sk ← back_index (q_skeleton q) (rq_From r);
  Ok (set_headers q sk (delete (rq_Peer r) (q_headerPend q)) (q_headerResults q) (q_headerProced q) (q_headerOffset q) (q_headerCont q)).
Definition ExpireHeaders q (timeout now : Z) (pool : list (peerId * fetchRequest)) : outcome blocked (gmap peerId nat * Q) :=
  let old := expired timeout now pool in
  sk ← back_indexes (q_skeleton q) old;
  Ok (expiries old, set_headers q sk (drop_expired (q_headerPend q) old) (q_headerResults q) (q_headerProced q) (q_headerOffset q) (q_headerCont q)).

(** The headers follow each other from a number on. *)
Fixpoint batch_linked (prev : Header) (want : Z) (headers : list Header) : bool :=
  match headers with
  | [] => true
  | h :: headers =>
      (header_NumberU64 h =? want) && bool_decide (HeaderHash prev = ParentHash h) && batch_linked h (u64 (want + 1)) headers
  end.

Definition batch_accepted (from : Z) (target : Hash) (headers : list Header) : bool :=
  (length headers =? MaxHeaderFetch)%nat &&
  match headers, last headers with
  | first :: rest, Some final =>
      (header_NumberU64 first =? from) && bool_decide (HeaderHash final = target) && batch_linked first (u64 (from + 1)) rest
  | _, _ => false
  end.

(** [for headerProced+ready < len(headerResults) && headerResults[headerProced+ready] != nil] *)
Fixpoint count_ready (fuel : nat) (results : list (option Header)) (pos ready : nat) : nat :=
  match fuel with
  | O => ready
  | S fuel => match results !! (pos + ready)%nat with Some (Some _) => count_ready fuel results pos (ready + MaxHeaderFetch)%nat | _ => ready end
  end.

(** [DeliverHeaders]: [sent] is whether the processor takes the headers that are ready,
    which are returned in that case.  The hash of a nil header is zero. *)
Definition DeliverHeaders q (id : peerId) (headers : list Header) (sent : bool)
    : outcome blocked (nat * option queueErr * list (option Header) * Q) :=
  match q_headerPend q !! id, q_skeleton q with
  | None, _ => Ok (0%nat, Some errNoFetchesPending, [], q)
  | Some _, None => Panic
  | Some request, Some sk =>
      let from := rq_From request in
      let pend := delete id (q_headerPend q) in
      let target := from_option HeaderHash zeroHash (k_pool sk !! from) in
      if batch_accepted from target headers then
        let off := Z.to_nat (u64 (from - q_headerOffset q)) in
        let results := default [] (q_headerResults q) in
        if (length results <? off)%nat then Panic
        else
          let results := take off results ++ take (length results - off) (Some <$> headers) ++ drop (off + length headers) results in
          let sk := mkSkeleton (delete from (k_pool sk)) (k_queue sk) (k_miss sk) in
          let ready := count_ready (length results) results (q_headerProced q) 0 in
          if (length results <? q_headerProced q + ready)%nat then Panic
          else
            let process := take ready (drop (q_headerProced q) results) in
            let out := if (0 <? ready)%nat && sent then process else [] in
            let proced := if (0 <? ready)%nat && sent then (q_headerProced q + ready)%nat else q_headerProced q in
            if (size (k_pool sk) =? 0)%nat && (0 <? q_headerCont q)%nat then Err Blocked
            else
              Ok (length headers, None, out,
                  set_headers q (Some sk) pend (const results <$> q_headerResults q) proced (q_headerOffset q)
                    (if (size (k_pool sk) =? 0)%nat then S (q_headerCont q) else q_headerCont q))
      else
        let miss := <[id := {[from]} ∪ default ∅ (k_miss sk !! id)]> (k_miss sk) in
        let sk := mkSkeleton (k_pool sk) (push_index (k_queue sk) from) miss in
        Ok (0%nat, Some NotAccepted, [], set_headers q (Some sk) pend (q_headerResults q) (q_headerProced q) (q_headerOffset q) (q_headerCont q))
  end.

End Queue.
