(* ===== verification/FetchInv.v ===== *)
(** * What the download queue keeps (queue.go)

    [inv]: the headers scheduled and not yet returned are in the queue, in flight, done, or
    lost by a reservation that failed, once each, for bodies and for receipts; and every result under construction belongs to
    its header, counts what is missing and holds contents that match the roots.  Each
    operation is a few moves between these places, and keeps it. *)

From stdpp Require Import base list gmap numbers option strings.
From S2P Require Import Prelude Types TrieNode Numerals StateDB Vm Processor Signing Block Heap Prque FetchQueue.
Local Open Scope Z_scope.

#[export] Instance dataKind_eq_dec : EqDecision dataKind.
Proof. solve_decision. Defined.

(** ** Arithmetic *)


Lemma i64_eqm z : exists k, i64 z = z + k * 2 ^ 64.
Proof. exists (- ((z + 2 ^ 63) / 2 ^ 64)). unfold i64. pose proof (Z.div_mod (z + 2 ^ 63) (2 ^ 64) ltac:(lia)). lia. Qed.

Lemma u64_eqm z : exists k, u64 z = z + k * 2 ^ 64.
Proof. exists (- (z / 2 ^ 64)). unfold u64, wrap. pose proof (Z.div_mod z (2 ^ 64) ltac:(lia)). lia. Qed.

Lemma u64_plus z k : u64 (z + k * 2 ^ 64) = u64 z.
Proof. unfold u64, wrap. apply Z_mod_plus_full. Qed.

(** Offsets of numbers that wrap around are exact. *)
Lemma i64_diff a b i : u64 a = u64 (b + i) -> 0 <= i < 2 ^ 63 -> i64 (i64 a - i64 b) = i.
Proof.
  intros Ha Hi. destruct (i64_eqm a) as [x Hx], (i64_eqm b) as [y Hy], (u64_eqm a) as [z Hz], (u64_eqm (b + i)) as [t Ht].
  assert (i64 a - i64 b = i + (t - z + x - y) * 2 ^ 64) as -> by lia.
  set (k := t - z + x - y). unfold i64. rewrite <- (Z.mod_unique (i + k * 2 ^ 64 + 2 ^ 63) (2 ^ 64) k (i + 2 ^ 63)); lia.
Qed.

Lemma u64_step a b i : u64 (a + i) = u64 (a + b) -> 0 <= i < 2 ^ 63 -> 0 <= b < 2 ^ 63 -> i = b.
Proof. intros He Hi Hb. destruct (u64_eqm (a + i)) as [x Hx], (u64_eqm (a + b)) as [y Hy]. lia. Qed.

Lemma u64_u64 a b : u64 (u64 a + b) = u64 (a + b).
Proof. destruct (u64_eqm a) as [k Hk]. rewrite Hk. replace (a + k * 2 ^ 64 + b) with (a + b + k * 2 ^ 64) by lia. apply u64_plus. Qed.

(** ** Lists keyed by hashes *)

Section Fetch.
Context {Tx : Type} `{BlockEnv Tx}.
Abbreviation Q := (queue Tx).
Abbreviation R := (fetchResult Tx).
Implicit Types (q : Q) (L out : list Header) (h : Header).

Lemma hash_unique L h h' : NoDup (HeaderHash <$> L) -> h ∈ L -> h' ∈ L -> HeaderHash h = HeaderHash h' -> h = h'.
Proof.
  intros Hnd [i Hi]%list_elem_of_lookup [j Hj]%list_elem_of_lookup He.
  assert (i = j) as -> by (eapply (NoDup_lookup _ _ _ (HeaderHash h)); [done|rewrite list_lookup_fmap|rewrite list_lookup_fmap]; [by rewrite Hi|by rewrite Hj, He]).
  congruence.
Qed.

(** The headers of [L] that [need] an item that is not [done]. *)
Definition missing (need : Header -> bool) (done : gset Hash) L : list Header :=
  filter (fun h => need h = true /\ HeaderHash h ∉ done) L.

Lemma missing_ext need need' done done' L :
  (forall h, h ∈ L -> (need h = true /\ HeaderHash h ∉ done) <-> (need' h = true /\ HeaderHash h ∉ done')) ->
  missing need done L = missing need' done' L.
Proof.
  unfold missing. induction L as [|x L IH]; [done|]. intros He. rewrite !filter_cons.
  rewrite (decide_ext _ _ _ _ (He x (list_elem_of_here _ _))). rewrite IH; [done|]. intros h Hh. apply He. by apply list_elem_of_further.
Qed.

Lemma missing_app need done L1 L2 : missing need done (L1 ++ L2) = missing need done L1 ++ missing need done L2.
Proof. apply filter_app. Qed.

Lemma elem_of_missing need done L h : h ∈ missing need done L <-> need h = true /\ HeaderHash h ∉ done /\ h ∈ L.
Proof. unfold missing. rewrite list_elem_of_filter. tauto. Qed.

Lemma missing_mark need done L h : NoDup (HeaderHash <$> L) -> h ∈ missing need done L ->
  missing need done L ≡ₚ h :: missing need ({[HeaderHash h]} ∪ done) L.
Proof.
  intros Hnd (Hn & Hd & Hin)%elem_of_missing. apply list_elem_of_split in Hin as (L1 & L2 & ->).
  rewrite fmap_app, fmap_cons in Hnd. apply list.NoDup_app in Hnd as (_ & Hx1 & [Hx2 _]%list.NoDup_cons).
  assert (forall L', (forall x, x ∈ L' -> HeaderHash x <> HeaderHash h) -> missing need done L' = missing need ({[HeaderHash h]} ∪ done) L') as He.
  { intros L' Hne. apply missing_ext. intros x Hx%Hne. set_solver. }
  rewrite !missing_app, <- (He L1) by (intros x Hx Hxh; apply (Hx1 (HeaderHash x)); [by apply list_elem_of_fmap_2|rewrite Hxh; by left]).
  assert (missing need done (h :: L2) = h :: missing need done L2) as -> by (unfold missing; by rewrite filter_cons_True).
  assert (missing need ({[HeaderHash h]} ∪ done) (h :: L2) = missing need ({[HeaderHash h]} ∪ done) L2) as ->
    by (unfold missing; rewrite filter_cons_False by set_solver; done).
  rewrite <- (He L2) by (intros x Hx Hxh; apply Hx2; rewrite <- Hxh; by apply list_elem_of_fmap_2).
  by rewrite Permutation_middle.
Qed.

(** ** The tasks of one kind *)

(** The headers of the running requests. *)
Definition flying (pend : gmap peerId fetchRequest) : list Header := (map_to_list pend).*2 ≫= rq_Headers.

Lemma flying_delete pend p r : pend !! p = Some r -> flying pend ≡ₚ rq_Headers r ++ flying (delete p pend).
Proof. intros Hp. unfold flying. by rewrite <- (map_to_list_delete pend p r Hp). Qed.

Lemma flying_insert pend p r : pend !! p = None -> flying (<[p := r]> pend) ≡ₚ rq_Headers r ++ flying pend.
Proof. intros Hp. unfold flying. by rewrite (map_to_list_insert pend p r Hp). Qed.

Lemma flying_elem pend p r h : pend !! p = Some r -> h ∈ rq_Headers r -> h ∈ flying pend.
Proof. intros Hp Hh. rewrite (flying_delete _ _ _ Hp). apply elem_of_app. by left. Qed.

Lemma in_flight_length pend : in_flight pend = Z.of_nat (length (flying pend)).
Proof.
  unfold in_flight, flying. generalize ((map_to_list pend).*2). intros l. induction l as [|r l IH]; [done|].
  rewrite bind_cons, length_app. simpl foldr. rewrite IH. lia.
Qed.

(** [out]: headers that are between two places. *)
Record tasks_ok (need : Header -> bool) (started : Header -> Prop) L out (t : tasks) : Prop := {
  tk_heap : prque_ok (t_queue t);
  tk_prio x : x ∈ t_queue t -> x.2 = - f32 (header_NumberU64 x.1);
  tk_items : (t_queue t).*1 ++ out ++ flying (t_pend t) ≡ₚ missing need (t_done t) L;
  tk_done x : x ∈ t_done t -> exists h, h ∈ L /\ need h = true /\ HeaderHash h = x;
  tk_pool x h : t_pool t !! x = Some h <-> h ∈ missing need (t_done t) L /\ HeaderHash h = x;
  tk_flying h : h ∈ flying (t_pend t) -> started h;
  tk_finished h : h ∈ L -> HeaderHash h ∈ t_done t -> started h;
  tk_requests p r : t_pend t !! p = Some r -> rq_Peer r = p /\ rq_Headers r <> [];
}.

Section Tasks.
Context (need : Header -> bool) (started : Header -> Prop) (L : list Header).
Implicit Types (t : tasks).
Abbreviation ok := (tasks_ok need started L).

Lemma push_header_ok (u : list (Header * Z)) h : prque_ok u -> prque_ok (push_header u h) /\ push_header u h ≡ₚ (h, - f32 (header_NumberU64 h)) :: u.
Proof. intros Hu. by apply prque_Push_ok. Qed.

Lemma pushes_Permutation (u : list (Header * Z)) hs : prque_ok u ->
  push_headers u hs ≡ₚ ((fun h => (h, - f32 (header_NumberU64 h))) <$> hs) ++ u.
Proof.
  revert u. induction hs as [|h hs IH]; intros u Hu; [done|]. destruct (push_header_ok u h Hu) as [Ho Hp]. simpl. rewrite IH, Hp by done. simpl.
  symmetry. apply Permutation_middle.
Qed.

Lemma ok_out out out' t : out ≡ₚ out' -> ok out t -> ok out' t.
Proof. intros He []. split; try done. by rewrite <- He. Qed.

Lemma ok_push out h t : ok (h :: out) t -> ok out (mkTasks (t_pool t) (push_header (t_queue t) h) (t_pend t) (t_done t)).
Proof.
  intros []. destruct (push_header_ok (t_queue t) h tk_heap0) as [Hh Hp]. split; simpl; try done.
  - intros x Hx. rewrite Hp in Hx. apply elem_of_cons in Hx as [->|Hx]; [done|by apply tk_prio0].
  - rewrite Hp, fmap_cons. simpl. rewrite <- tk_items0. simpl. by rewrite Permutation_middle.
Qed.

Lemma ok_pushes out hs t : ok (hs ++ out) t -> ok out (mkTasks (t_pool t) (push_headers (t_queue t) hs) (t_pend t) (t_done t)).
Proof.
  revert t. induction hs as [|h hs IH]; intros t Ht; [by destruct t|]. apply ok_push in Ht. apply IH in Ht. done.
Qed.

(** A request leaves the pool of running ones. *)
Lemma ok_unpend out p r t : t_pend t !! p = Some r -> ok out t ->
  ok (rq_Headers r ++ out) (mkTasks (t_pool t) (t_queue t) (delete p (t_pend t)) (t_done t)).
Proof.
  intros Hp []. pose proof (flying_delete _ _ _ Hp) as Hf. split; simpl; try done.
  - rewrite <- tk_items0, Hf. by rewrite <- !app_assoc, (Permutation_app_swap_app out).
  - intros h Hh. apply tk_flying0. rewrite Hf. apply elem_of_app. by right.
  - intros p' r' [_ Hp']%lookup_delete_Some. by apply tk_requests0.
Qed.

Lemma ok_take_back out p r t : t_pend t !! p = Some r -> ok out t -> ok out (take_back t p r).
Proof. intros Hp Ht. by apply (ok_pushes out (rq_Headers r) _ (ok_unpend _ _ _ _ Hp Ht)). Qed.

(** And enters it. *)
Lemma ok_pend out p hs now t : t_pend t !! p = None -> hs <> [] -> (forall h, h ∈ hs -> started h) -> ok (hs ++ out) t ->
  ok out (mkTasks (t_pool t) (t_queue t) (<[p := mkRequest p 0 hs now]> (t_pend t)) (t_done t)).
Proof.
  intros Hp Hne Hs []. pose proof (flying_insert _ p (mkRequest p 0 hs now) Hp) as Hf. simpl in Hf. split; simpl; try done.
  - rewrite <- tk_items0, Hf. by rewrite <- !app_assoc, (Permutation_app_swap_app out).
  - intros h Hh. rewrite Hf in Hh. apply elem_of_app in Hh as [Hh|Hh]; [by apply Hs|by apply tk_flying0].
  - intros p' r [[<- <-]|[_ Hr]]%lookup_insert_Some; [done|by apply tk_requests0].
Qed.

(** An item is fetched. *)
Lemma ok_finish out h t : NoDup (HeaderHash <$> L) -> started h -> ok (h :: out) t ->
  ok out (mkTasks (delete (HeaderHash h) (t_pool t)) (t_queue t) (t_pend t) ({[HeaderHash h]} ∪ t_done t)).
Proof.
  intros Hnd Hs []. assert (h ∈ missing need (t_done t) L) as Hm by (rewrite <- tk_items0; apply elem_of_app; right; by left).
  pose proof (missing_mark _ _ _ _ Hnd Hm) as Hmm. apply elem_of_missing in Hm as (Hn & _ & Hin). split; simpl; try done.
  - apply (Permutation_cons_inv (a := h)). rewrite <- Hmm, <- tk_items0. simpl. by rewrite Permutation_middle.
  - intros x [->%elem_of_singleton|Hx]%elem_of_union; [by exists h|by apply tk_done0].
  - intros x h'. rewrite lookup_delete_Some, tk_pool0, Hmm, elem_of_cons. split; [intros (Hne & [->|Hx] & Hhx); [congruence|done]|].
    intros [Hx <-]. split_and!; [|by right|done]. apply elem_of_missing in Hx as (_ & Hx & _). set_solver.
  - intros h' Hh' [Hx%elem_of_singleton|Hx]%elem_of_union; [|by apply tk_finished0].
    by rewrite (hash_unique L h' h).
Qed.

End Tasks.

(** ** The results *)

Definition owed (need : dataKind -> Header -> bool) (done : dataKind -> gset Hash) (k : dataKind) h : Z :=
  if need k h && negb (bool_decide (HeaderHash h ∈ done k)) then 1 else 0.

(** What a result under construction holds for its header. *)
Record result_ok (need : dataKind -> Header -> bool) (done : dataKind -> gset Hash) h (r : R) : Prop := {
  ro_header : rs_Header r = h;
  ro_pending : rs_Pending r = owed need done Bodies h + owed need done Receipts h;
  ro_txs : HeaderHash h ∈ done Bodies -> derive_txs (rs_Transactions r) = Ok (TxRootHash h);
  ro_receipts : HeaderHash h ∈ done Receipts -> derive_receipts (rs_Receipts r) = Ok (ReceiptRootHash h);
  ro_no_txs : HeaderHash h ∉ done Bodies -> rs_Transactions r = [];
  ro_no_receipts : HeaderHash h ∉ done Receipts -> rs_Receipts r = [];
  ro_number : 0 <= Number h;
}.

Definition cache_ok (need : dataKind -> Header -> bool) (done : dataKind -> gset Hash) L (cache : list (option R)) : Prop :=
  forall i r, cache !! i = Some (Some r) -> exists h, L !! i = Some h /\ result_ok need done h r.

Definition started L (cache : list (option R)) h : Prop := exists i r, L !! i = Some h /\ cache !! i = Some (Some r).

Definition needs q (k : dataKind) h : bool := match k with Bodies => true | Receipts => wants_receipts q h end.
Definition done q (k : dataKind) : gset Hash := t_done (get_tasks q k).

Context (num : Hash -> Z).

(** Headers that failed reservations have popped: they are in no place any more. *)
Context (lost : dataKind -> list Header).

(** Besides those, headers out of place of one kind only. *)
Definition only (k : dataKind) out (k' : dataKind) : list Header := (if decide (k' = k) then out else []) ++ lost k'.

(** [num]: headers with different numbers have different hashes. *)
Record headers_ok (offset : Z) L : Prop := {
  hd_number i h : L !! i = Some h -> header_NumberU64 h = u64 (offset + Z.of_nat i);
  hd_signed i h : L !! i = Some h -> 0 <= Number h \/ (- 2 ^ 62 < Number h /\ 0 <= offset /\ offset + Z.of_nat i < 2 ^ 62);
  hd_name h : h ∈ L -> num (HeaderHash h) = header_NumberU64 h;
  hd_few : Z.of_nat (length L) < 2 ^ 63;
}.

Record inv q L (out : dataKind -> list Header) : Prop := {
  in_headers : headers_ok (q_offset q) L;
  in_cache : cache_ok (needs q) (done q) L (q_cache q);
  in_tasks k : tasks_ok (needs q k) (started L (q_cache q)) L (out k) (get_tasks q k);
}.

Lemma index_exact q L i h : headers_ok (q_offset q) L -> L !! i = Some h -> 0 <= Number h -> cache_index q h = Z.of_nat i.
Proof.
  intros Hh Hi Hn. pose proof (hd_few _ _ Hh). pose proof (lookup_lt_Some _ _ _ Hi). unfold cache_index. apply i64_diff; [|lia].
  rewrite <- (hd_number _ _ Hh i h Hi). unfold header_NumberU64, big_Uint64. by rewrite Z.abs_eq.
Qed.

(** [Uint64] drops the sign of a number, [Int64] does not. *)
Lemma index_negative q L i h : headers_ok (q_offset q) L -> L !! i = Some h -> Number h < 0 -> cache_index q h < 0.
Proof.
  intros Hh Hi Hn. destruct (hd_signed _ _ Hh i h Hi) as [|(Hb & H0 & Ho)]; [lia|]. pose proof (hd_number _ _ Hh i h Hi) as Hu.
  unfold header_NumberU64, big_Uint64, u64 in Hu. rewrite !wrap_small in Hu by lia. unfold cache_index.
  rewrite (i64_small (Number h)), (i64_small (q_offset q)), i64_small by (unfold minInt64, maxInt64; lia). lia.
Qed.

Lemma hashes_NoDup offset L : headers_ok offset L -> NoDup (HeaderHash <$> L).
Proof.
  intros Hh. apply NoDup_alt. intros i j x Hi Hj. apply list_lookup_fmap_Some in Hi as (a & -> & Hi), Hj as (b & Hab & Hj).
  pose proof (hd_few _ _ Hh). pose proof (lookup_lt_Some _ _ _ Hi). pose proof (lookup_lt_Some _ _ _ Hj).
  assert (u64 (offset + Z.of_nat i) = u64 (offset + Z.of_nat j)); [|apply Nat2Z.inj; eapply u64_step; eauto; lia].
  rewrite <- (hd_number _ _ Hh i a Hi), <- (hd_number _ _ Hh j b Hj).
  rewrite <- (hd_name _ _ Hh a), <- (hd_name _ _ Hh b), Hab; [done| |]; apply list_elem_of_lookup; eauto.
Qed.

(** ** Moves of the queue *)

Lemma get_set q k t k' : get_tasks (set_tasks q k t) k' = if decide (k' = k) then t else get_tasks q k'.
Proof. by destruct k, k'. Qed.

Lemma set_get q k : set_tasks q k (get_tasks q k) = q.
Proof. by destruct q, k. Qed.

Lemma set_set q k t t' : set_tasks (set_tasks q k t) k t' = set_tasks q k t'.
Proof. by destruct k. Qed.

Lemma tasks_started need (P P' : Header -> Prop) L out t : (forall h, P h -> P' h) -> tasks_ok need P L out t -> tasks_ok need P' L out t.
Proof. intros HP []. split; eauto. Qed.

Lemma result_ok_ext need need' d d' h (r : R) : (forall k, need k h = need' k h) -> (forall k, HeaderHash h ∈ d k <-> HeaderHash h ∈ d' k) ->
  result_ok need d h r -> result_ok need' d' h r.
Proof.
  intros Hn Hd []. split; try done; rewrite <- ?Hd; try done. unfold owed. rewrite <- !Hn, <- !(bool_decide_ext _ _ (Hd _)). done.
Qed.

(** A move of one kind that completes nothing. *)
Lemma inv_move q L k out out' t : inv q L (only k out) -> t_done t = t_done (get_tasks q k) ->
  (tasks_ok (needs q k) (started L (q_cache q)) L (out ++ lost k) (get_tasks q k) ->
   tasks_ok (needs q k) (started L (q_cache q)) L (out' ++ lost k) t) ->
  inv (set_tasks q k t) L (only k out').
Proof.
  intros [Hh Hc Ht] Hd Hm. split; [by destruct k| |].
  - intros i r Hi. assert (q_cache q !! i = Some (Some r)) as Hi' by (by destruct k). destruct (Hc i r Hi') as (h & HL & Hr).
    exists h. split; [done|]. eapply result_ok_ext; [| |exact Hr]; [by destruct k|]. intros k'. unfold done. rewrite get_set.
    case_decide; subst; by rewrite ?Hd.
  - intros k'. specialize (Ht k'). rewrite get_set. unfold only in *. case_decide as Hk; [subst k'|]; [|by destruct k, k'].
    apply Hm in Ht. by destruct k.
Qed.

Lemma inv_only q L k k' : inv q L (only k []) -> inv q L (only k' []).
Proof. intros []. split; try done. intros j. specialize (in_tasks0 j). unfold only in *. by repeat case_decide. Qed.

(** The container of a result. *)
Lemma not_started q L o i h k : inv q L o -> L !! i = Some h -> q_cache q !! i = Some None -> HeaderHash h ∉ done q k.
Proof.
  intros [Hh _ Ht] HL Hc Hd. destruct (tk_finished _ _ _ _ _ (Ht k) h) as (j & r & Hj & Hr); [apply list_elem_of_lookup; eauto|done|].
  assert (i = j) as ->; [|congruence].
  apply (NoDup_lookup (HeaderHash <$> L) i j (HeaderHash h)); [by eapply hashes_NoDup| |]; rewrite list_lookup_fmap; [by rewrite HL|by rewrite Hj].
Qed.

Lemma started_mono L (cache cache' : list (option R)) h :
  (forall i r, cache !! i = Some (Some r) -> exists r', cache' !! i = Some (Some r')) -> started L cache h -> started L cache' h.
Proof. intros Hc (i & r & Hi & (r' & Hr)%Hc). by exists i, r'. Qed.

Lemma start_lookup q h (cache : list (option R)) i j r : start_result q h cache i !! j = Some (Some r) ->
  cache !! j = Some (Some r) \/ (j = i /\ cache !! i = Some None /\ r = mkResult (if wants_receipts q h then 2 else 1) h [] []).
Proof.
  unfold start_result. destruct (cache !! i) as [[c|]|] eqn:Hi; [by left| |by left].
  rewrite list_lookup_insert. case_decide as Hj; [|by left]. intros [= <-]. right. by destruct Hj as [-> _].
Qed.

Lemma start_mono q h (cache : list (option R)) i j r : cache !! j = Some (Some r) -> start_result q h cache i !! j = Some (Some r).
Proof.
  intros Hj. unfold start_result. destruct (cache !! i) as [[c|]|] eqn:Hi; [done| |done].
  rewrite list_lookup_insert_ne; [done|]. congruence.
Qed.

Lemma start_length q h (cache : list (option R)) i : length (start_result q h cache i) = length cache.
Proof. unfold start_result. destruct (cache !! i) as [[|]|]; [done|apply length_insert|done]. Qed.

Lemma start_started q h (cache : list (option R)) i : (i < length cache)%nat -> exists r, start_result q h cache i !! i = Some (Some r).
Proof.
  intros [[r|] Hi]%lookup_lt_is_Some_2; unfold start_result; rewrite Hi; [by eauto|].
  rewrite list_lookup_insert_eq by (by eapply lookup_lt_Some). eauto.
Qed.

Lemma inv_start q L o i h : inv q L o -> L !! i = Some h -> 0 <= Number h -> inv (set_cache q (start_result q h (q_cache q) i) (q_offset q)) L o.
Proof.
  intros Hq HL Hnum. pose proof Hq as [Hh Hc Ht]. split; [done| |].
  - intros j r [Hj|(-> & Hn & ->)]%start_lookup; [by apply Hc|]. exists h. split; [done|].
    pose proof (not_started _ _ _ _ _ Bodies Hq HL Hn). pose proof (not_started _ _ _ _ _ Receipts Hq HL Hn).
    split; simpl; try done. unfold owed. rewrite !bool_decide_eq_false_2 by done. simpl. unfold wants_receipts. simpl.
    by destruct (_ && _).
  - intros k. eapply tasks_started; [|exact (Ht k)]. intros h'. apply started_mono. intros j r Hj. exists r. by apply start_mono.
Qed.

(** An item is fetched. *)
Definition fills (k : dataKind) h (r r' : R) : Prop :=
  rs_Header r' = rs_Header r /\ rs_Pending r' = rs_Pending r - 1 /\
  match k with
  | Bodies => derive_txs (rs_Transactions r') = Ok (TxRootHash h) /\ rs_Receipts r' = rs_Receipts r
  | Receipts => derive_receipts (rs_Receipts r') = Ok (ReceiptRootHash h) /\ rs_Transactions r' = rs_Transactions r
  end.

Definition finish (t : tasks) h : tasks := mkTasks (delete (HeaderHash h) (t_pool t)) (t_queue t) (t_pend t) ({[HeaderHash h]} ∪ t_done t).

Lemma fills_ok need d d' k h (r r' : R) : need k h = true -> HeaderHash h ∉ d k -> HeaderHash h ∈ d' k ->
  (forall k', k' <> k -> HeaderHash h ∈ d k' <-> HeaderHash h ∈ d' k') -> result_ok need d h r -> fills k h r r' -> result_ok need d' h r'.
Proof.
  intros Hn Hd Hd' Ho [] (Hrh & Hp & Hc).
  assert (owed need d k h = 1 /\ owed need d' k h = 0) as [E1 E2]
    by (unfold owed; rewrite Hn, bool_decide_eq_false_2, bool_decide_eq_true_2 by done; done).
  assert (forall k', k' <> k -> owed need d k' h = owed need d' k' h) as E3
    by (intros k' Hk; unfold owed; by rewrite (bool_decide_ext _ _ (Ho k' Hk))).
  destruct k; destruct Hc as [Hc1 Hc2]; [specialize (E3 Receipts ltac:(done)); specialize (Ho Receipts ltac:(done))|specialize (E3 Bodies ltac:(done)); specialize (Ho Bodies ltac:(done))];
    (split; [congruence|rewrite Hp, ro_pending0; lia|..]; rewrite ?Hc1, ?Hc2, <- ?Ho; done).
Qed.

Lemma inv_finish q L k out i h r r' : inv q L (only k (h :: out)) -> L !! i = Some h -> q_cache q !! i = Some (Some r) -> fills k h r r' ->
  inv (set_cache (set_tasks q k (finish (get_tasks q k) h)) (<[i := Some r']> (q_cache q)) (q_offset q)) L (only k out).
Proof.
  intros [Hh Hc Ht] HL Hi Hf. pose proof (hashes_NoDup _ _ Hh) as Hnd. pose proof (Ht k) as Hk. unfold only in Hk. rewrite decide_True in Hk by done.
  assert (h ∈ missing (needs q k) (done q k) L) as (Hn & Hd & Hin)%elem_of_missing
    by (rewrite <- (tk_items _ _ _ _ _ Hk); apply elem_of_app; right; by left).
  set (q' := set_cache _ _ _). assert (forall k', done q' k' = if decide (k' = k) then {[HeaderHash h]} ∪ done q k' else done q k') as Hdone.
  { intros k'. unfold done, q'. change (get_tasks (set_cache ?x _ _) k') with (get_tasks x k'). rewrite get_set. by case_decide; subst. }
  assert (needs q' = needs q) as Hneed by (by destruct k). split; [by destruct k| |].
  - rewrite Hneed. intros j x. change (q_cache q') with (<[i := Some r']> (q_cache q)). rewrite list_lookup_insert. case_decide as Hj.
    + destruct Hj as [-> _]. intros [= <-]. exists h. split; [done|]. destruct (Hc j r Hi) as (h0 & HL0 & Hr). simplify_eq.
      eapply fills_ok; [exact Hn|exact Hd| | |exact Hr|exact Hf]; [rewrite Hdone, decide_True by done; set_solver|].
      intros k' Hk'. by rewrite Hdone, decide_False.
    + intros Hjx. destruct (Hc j x Hjx) as (h' & HL' & Hr). exists h'. split; [done|]. eapply result_ok_ext; [done| |exact Hr].
      intros k'. rewrite Hdone. case_decide; [|done]. assert (HeaderHash h' <> HeaderHash h); [|set_solver].
      intros He. apply Hj. assert (j = i); [|split; [done|subst; by eapply lookup_lt_Some]].
      apply (NoDup_lookup (HeaderHash <$> L) j i (HeaderHash h)); [done| |]; rewrite list_lookup_fmap; [by rewrite HL', <- He|by rewrite HL].
  - intros k'. rewrite Hneed. change (get_tasks q' k') with (get_tasks (set_tasks q k (finish (get_tasks q k) h)) k').
    assert (forall x, started L (q_cache q) x -> started L (q_cache q') x) as Hst.
    { intros x. apply started_mono. intros j y Hy. change (q_cache q') with (<[i := Some r']> (q_cache q)). rewrite list_lookup_insert. case_decide; eauto. }
    rewrite get_set. specialize (Ht k'). unfold only in *. case_decide; [subst k'|by eapply tasks_started].
    eapply tasks_started; [exact Hst|]. apply ok_finish; [done| |done]. by exists i, r.
Qed.

(** ** The lowest numbers first *)

(** Numbers that a [float32] holds. *)
Definition small (offset : Z) L : Prop := 0 <= offset /\ offset + Z.of_nat (length L) <= 2 ^ 24.

Lemma small_number offset L i h : small offset L -> headers_ok offset L -> L !! i = Some h ->
  header_NumberU64 h = offset + Z.of_nat i /\ f32 (header_NumberU64 h) = offset + Z.of_nat i.
Proof.
  intros [H0 Hs] Hh Hi. pose proof (lookup_lt_Some _ _ _ Hi). rewrite (hd_number _ _ Hh i h Hi). unfold u64. rewrite wrap_small by lia.
  split; [done|]. apply f32_exact. lia.
Qed.

Lemma finished_length (d : gset Hash) L : NoDup (HeaderHash <$> L) -> (length (filter (fun h => HeaderHash h ∈ d) L) <= size d)%nat.
Proof.
  intros Hnd. rewrite <- (length_fmap HeaderHash). assert (NoDup (HeaderHash <$> filter (fun h => HeaderHash h ∈ d) L)) as Hn.
  { eapply sublist_NoDup; [exact Hnd|]. apply fmap_sublist, sublist_filter. }
  rewrite <- (size_list_to_set (C := gset Hash) _ Hn). apply subseteq_size. intros x. rewrite elem_of_list_to_set.
  intros (h & -> & [Hd _]%list_elem_of_filter)%list_elem_of_fmap. done.
Qed.

Lemma lowest_index q L k out h prio rest i : inv q L (only k out) -> small (q_offset q) L -> L !! i = Some h ->
  t_queue (get_tasks q k) ≡ₚ (h, prio) :: rest -> Forall (fun y => y.2 <= prio) rest ->
  (i <= size (done q k) + length (flying (t_pend (get_tasks q k))) + length (out ++ lost k))%nat.
Proof.
  intros [Hh Hc Ht] Hs Hi Hq Hlow. specialize (Ht k). unfold only in Ht. rewrite decide_True in Ht by done. destruct Ht.
  pose proof (hashes_NoDup _ _ Hh) as Hnd. pose proof (small_number _ _ _ _ Hs Hh Hi) as [Hnum Hf].
  assert (needs q k h = true) as Hn.
  { assert (h ∈ missing (needs q k) (t_done (get_tasks q k)) L) as (Hn & _)%elem_of_missing; [|done].
    rewrite <- tk_items0, Hq. simpl. by left. }
  assert (prio = - (q_offset q + Z.of_nat i)) as Hprio by (rewrite <- Hf; apply (tk_prio0 (h, prio)); rewrite Hq; by left).
  assert (take i L ⊆+ filter (fun x => HeaderHash x ∈ done q k) L ++ (out ++ lost k) ++ flying (t_pend (get_tasks q k))) as Hsub.
  { apply NoDup_submseteq; [eapply sublist_NoDup; [exact (NoDup_fmap_1 _ _ Hnd)|apply sublist_take]|].
    intros x (j & Hj & Hji)%elem_of_take. pose proof (small_number _ _ _ _ Hs Hh Hj) as [Hxn Hxf].
    destruct (decide (HeaderHash x ∈ done q k)) as [Hd|Hd]; [apply elem_of_app; left; apply list_elem_of_filter; split; [done|apply list_elem_of_lookup; eauto]|].
    assert (needs q k x = true) as Hnx.
    { destruct k; [done|]. simpl in *. unfold wants_receipts in *. rewrite Hnum in Hn. rewrite Hxn. apply andb_true_iff in Hn as [-> Hn]. simpl. lia. }
    assert (x ∈ missing (needs q k) (t_done (get_tasks q k)) L) as Hx by (apply elem_of_missing; split_and!; [done|done|apply list_elem_of_lookup; eauto]).
    rewrite <- tk_items0, Hq in Hx. simpl in Hx. apply elem_of_cons in Hx as [->|[Hx|Hx]%elem_of_app]; [|exfalso|apply elem_of_app; by right].
    - rewrite Hnum in Hxn. lia.
    - apply list_elem_of_fmap in Hx as ([y py] & -> & Hy). pose proof (proj1 (List.Forall_forall _ _) Hlow _ (proj1 (list_elem_of_In _ _) Hy)) as Hle. simpl in *.
      assert (py = - f32 (header_NumberU64 y)) as Hpy by (apply (tk_prio0 (y, py)); rewrite Hq; by right). lia. }
  apply submseteq_length in Hsub. rewrite !length_app, length_take_le in Hsub by (apply lookup_lt_Some in Hi; lia). rewrite length_app.
  pose proof (finished_length (done q k) L Hnd). lia.
Qed.

End Fetch.
