(* ===== verification/FetchKeep.v ===== *)
(** * The operations of the download queue keep its invariant (queue.go) *)

From stdpp Require Import base list gmap numbers option strings.
From S2P Require Import Prelude Types TrieNode StateDB Vm Processor Signing Block Heap Prque FetchQueue FetchInv.
Local Open Scope Z_scope.

Section Keep.
Context {Tx : Type} `{BlockEnv Tx} (num : Hash -> Z) (lost : dataKind -> list Header).
Abbreviation Q := (queue Tx).
Abbreviation R := (fetchResult Tx).
Abbreviation inv := (inv num).
Abbreviation only := (only lost).
Implicit Types (q : Q) (L out : list Header) (h : Header).

(** ** Reserving *)

Lemma ok_pop need started L out (t : tasks) : tasks_ok need started L out t -> t_queue t <> [] ->
  exists h prio rest, prque_Pop (t_queue t) = Some ((h, prio), rest) /\ t_queue t ≡ₚ (h, prio) :: rest /\ Forall (fun y => y.2 <= prio) rest /\
    tasks_ok need started L (h :: out) (mkTasks (t_pool t) rest (t_pend t) (t_done t)).
Proof.
  intros [] Hne. destruct (prque_Pop_ok (t_queue t) tk_heap Hne) as ([h prio] & rest & Hpop & Hok & Hperm & Hlow).
  exists h, prio, rest. split_and!; [done..|]. split; simpl; try done.
  - intros x Hx. apply tk_prio. rewrite Hperm. by right.
  - rewrite <- tk_items, Hperm. simpl. symmetry. apply Permutation_middle.
Qed.

(** The queue in the course of a reservation. *)
Definition during q k (v : reservation (Tx := Tx)) : Q := set_cache (set_tasks q k (rv_tasks v)) (rv_cache v) (q_offset q).

Record loop_ok q L k (v : reservation) : Prop := {
  lo_inv : inv (during q k v) L (only k (rv_send v ++ rv_skip v));
  lo_started h : h ∈ rv_send v ++ rv_skip v -> started L (rv_cache v) h;
  lo_length : length (rv_cache v) = length (q_cache q);
  lo_pend : t_pend (rv_tasks v) = t_pend (get_tasks q k);
  lo_space : rv_space v = Z.of_nat (length (q_cache q)) - Z.of_nat (size (t_done (rv_tasks v))) - in_flight (t_pend (get_tasks q k));
  lo_proc : rv_proc v = Z.of_nat (length (rv_send v ++ rv_skip v));
}.

Lemma during_tasks q k v : get_tasks (during q k v) k = rv_tasks v.
Proof. by destruct k. Qed.

Lemma during_set q k v t : set_tasks (during q k v) k t = during q k (mkReservation (rv_space v) (rv_proc v) t (rv_cache v) (rv_send v) (rv_skip v) (rv_progress v)).
Proof. by destruct k. Qed.

Lemma inv_index q L o h : inv q L o -> h ∈ L -> exists i, L !! i = Some h /\
  (if decide (0 <= Number h) then cache_index q h = Z.of_nat i else cache_index q h < 0).
Proof.
  intros Hq [i Hi]%list_elem_of_lookup. exists i. split; [done|].
  case_decide; [by eapply index_exact; [apply Hq|..]|]. eapply index_negative; [apply Hq|done|lia].
Qed.

Lemma only_here k out : only k out k = out ++ lost k.
Proof. unfold only. by rewrite decide_True. Qed.

Lemma out_elem q L k out h : inv q L (only k out) -> h ∈ out -> h ∈ L /\ needs q k h = true /\ HeaderHash h ∉ done q k.
Proof.
  intros Hq Hh. pose proof (in_tasks _ _ _ _ Hq k) as Ht. rewrite only_here in Ht.
  assert (h ∈ missing (needs q k) (t_done (get_tasks q k)) L) as (Hn & Hd & HL)%elem_of_missing; [|done].
  rewrite <- (tk_items _ _ _ _ _ Ht), !elem_of_app. auto.
Qed.

(** A header is popped, and its container made unless its index is out of range. *)
Lemma reserve_pop q L k v : loop_ok q L k v -> t_queue (rv_tasks v) <> [] ->
  exists h prio rest i, prque_Pop (t_queue (rv_tasks v)) = Some ((h, prio), rest) /\ L !! i = Some h /\
    (if decide (0 <= Number h) then cache_index q h = Z.of_nat i else cache_index q h < 0) /\
    S (length rest) = length (t_queue (rv_tasks v)) /\
    (rv_proc v < rv_space v -> small (q_offset q) L -> lost k = [] -> (i < length (rv_cache v))%nat) /\
    let t := mkTasks (t_pool (rv_tasks v)) rest (t_pend (rv_tasks v)) (t_done (rv_tasks v)) in
    inv (during q k (mkReservation (rv_space v) (rv_proc v) t (rv_cache v) (rv_send v) (rv_skip v) (rv_progress v))) L
      (only k (h :: rv_send v ++ rv_skip v)) /\
    (0 <= Number h -> (i < length (rv_cache v))%nat ->
      let cache := start_result q h (rv_cache v) i in
      (exists r, cache !! i = Some (Some r)) /\
      inv (during q k (mkReservation (rv_space v) (rv_proc v) t cache (rv_send v) (rv_skip v) (rv_progress v))) L (only k (h :: rv_send v ++ rv_skip v))).
Proof.
  intros [] Hne. pose proof (in_tasks _ _ _ _ lo_inv0 k) as Ht. rewrite during_tasks, only_here in Ht.
  destruct (ok_pop _ _ _ _ _ Ht Hne) as (h & prio & rest & Hpop & Hperm & Hlow & Ht').
  pose proof (inv_move num lost _ _ _ _ (h :: rv_send v ++ rv_skip v) (mkTasks (t_pool (rv_tasks v)) rest (t_pend (rv_tasks v)) (t_done (rv_tasks v))) lo_inv0) as Hm.
  rewrite during_tasks in Hm. specialize (Hm eq_refl (fun _ => Ht')). rewrite during_set in Hm.
  destruct (out_elem _ _ _ _ h Hm (list_elem_of_here _ _)) as (HL & _). destruct (inv_index _ _ _ h lo_inv0 HL) as (i & Hi & Hix).
  exists h, prio, rest, i. split_and!; [done|done|by destruct k|by rewrite Hperm| |split; [exact Hm|]].
  - intros Hsp Hs Hlost. pose proof (lowest_index num lost _ _ _ _ h prio rest i lo_inv0 ltac:(by destruct k) Hi) as Hlt. rewrite during_tasks in Hlt.
    specialize (Hlt Hperm Hlow). unfold done in Hlt. rewrite during_tasks, Hlost, app_nil_r in Hlt.
    rewrite lo_proc0, lo_space0, in_flight_length, <- lo_pend0 in Hsp. lia.
  - intros Hn Hlt. simpl. split; [by apply start_started|]. by apply (inv_start num _ _ _ i h Hm Hi).
Qed.

Lemma less_lookup (cache : list (option R)) i r : cache !! i = Some (Some r) ->
  less_pending cache i = <[i := Some (mkResult (rs_Pending r - 1) (rs_Header r) (rs_Transactions r) (rs_Receipts r))]> cache.
Proof.
  intros Hi. unfold less_pending. apply list_eq. intros j. destruct (decide (i = j)) as [<-|Hj].
  - rewrite list_lookup_alter_eq, Hi, list_lookup_insert_eq by (by eapply lookup_lt_Some). done.
  - by rewrite list_lookup_alter_ne, list_lookup_insert_ne.
Qed.

(** Items that are empty are known. *)
Lemma noop_fills q L o k i h r : inv q L o -> isNoop k h = true -> L !! i = Some h -> q_cache q !! i = Some (Some r) -> HeaderHash h ∉ done q k ->
  fills k h r (mkResult (rs_Pending r - 1) (rs_Header r) (rs_Transactions r) (rs_Receipts r)).
Proof.
  intros Hq Hn HL Hi Hd. destruct (in_cache _ _ _ _ Hq i r Hi) as (h' & HL' & []). simplify_eq. unfold isNoop in Hn.
  destruct EmptyRootHash as [e| | |] eqn:He; try done. apply bool_decide_eq_true in Hn.
  split_and!; [done|done|]. destruct k; simpl in *; (split; [|done]); rewrite ?ro_no_txs, ?ro_no_receipts, ?Hn by done; exact He.
Qed.

Lemma loop_noop q L k v h i r rest : loop_ok q L k v -> L !! i = Some h ->
  let t := mkTasks (t_pool (rv_tasks v)) rest (t_pend (rv_tasks v)) (t_done (rv_tasks v)) in
  let cache := start_result q h (rv_cache v) i in
  inv (during q k (mkReservation (rv_space v) (rv_proc v) t cache (rv_send v) (rv_skip v) (rv_progress v))) L (only k (h :: rv_send v ++ rv_skip v)) ->
  cache !! i = Some (Some r) -> isNoop k h = true ->
  loop_ok q L k (mkReservation (rv_space v - 1) (rv_proc v - 1 + 1)
    (mkTasks (delete (HeaderHash h) (t_pool t)) rest (t_pend t) ({[HeaderHash h]} ∪ t_done t)) (less_pending cache i) (rv_send v) (rv_skip v) true).
Proof.
  intros [] HL t cache Hv Hi Hn. destruct (out_elem _ _ _ _ h Hv (list_elem_of_here _ _)) as (_ & _ & Hd).
  pose proof (noop_fills _ _ _ k i h r Hv Hn HL Hi Hd) as Hf. pose proof (inv_finish num lost _ _ _ _ i h r _ Hv HL Hi Hf) as Hv'.
  unfold done in Hd. rewrite during_tasks in Hd, Hv'. simpl in Hd. rewrite (less_lookup _ _ _ Hi).
  split; simpl; [by destruct k| | |done| |lia].
  - intros x Hx. eapply started_mono; [|by apply lo_started0]. intros j y Hj. apply (start_mono q h _ i) in Hj. fold cache in Hj.
    rewrite list_lookup_insert. case_decide; eauto.
  - rewrite length_insert. unfold cache. by rewrite start_length.
  - rewrite size_union by set_solver. rewrite size_singleton, lo_space0. lia.
Qed.

Lemma loop_item q L k v h i rest (send skip : list Header) : loop_ok q L k v -> L !! i = Some h ->
  let t := mkTasks (t_pool (rv_tasks v)) rest (t_pend (rv_tasks v)) (t_done (rv_tasks v)) in
  let cache := start_result q h (rv_cache v) i in
  inv (during q k (mkReservation (rv_space v) (rv_proc v) t cache (rv_send v) (rv_skip v) (rv_progress v))) L (only k (h :: rv_send v ++ rv_skip v)) ->
  (exists r, cache !! i = Some (Some r)) -> send ++ skip ≡ₚ h :: rv_send v ++ rv_skip v ->
  loop_ok q L k (mkReservation (rv_space v) (rv_proc v + 1) t cache send skip (rv_progress v)).
Proof.
  intros [] HL t cache Hv [r Hi] Hp. split; simpl; [| | |done|done|].
  - destruct Hv as [A1 A2 A3]. split; [done|done|]. intros k'. specialize (A3 k'). unfold FetchInv.only in *. case_decide; [|done].
    eapply ok_out; [|exact A3]. by rewrite Hp.
  - intros x Hx. rewrite Hp in Hx. apply elem_of_cons in Hx as [->|Hx]; [by exists i, r|].
    eapply started_mono; [|by apply lo_started0]. intros j y Hj. exists y. by apply start_mono.
  - unfold cache. by rewrite start_length.
  - rewrite Hp. simpl. lia.
Qed.

Lemma reserve_loop_ok q L k p count fuel : forall v, loop_ok q L k v -> (length (t_queue (rv_tasks v)) <= fuel)%nat ->
  exists e v', reserve_loop q k p count fuel v = Ok (e, v') /\
    ((e = None /\ loop_ok q L k v') \/
     (e = Some errInvalidChain /\ (exists out, inv (during q k v') L (only k out)) /\ length (rv_cache v') = length (q_cache q) /\
      ~ (small (q_offset q) L /\ (forall h, h ∈ L -> 0 <= Number h) /\ lost k = []))).
Proof.
  induction fuel as [|fuel IH]; intros v Hv Hf; simpl; unfold prque_Empty; destruct (rv_proc v <? rv_space v) eqn:Hg1; simpl; try (eexists _, _; split; [done|by left]);
    destruct (_ <? count) eqn:Hg2; simpl; try (eexists _, _; split; [done|by left]).
  all: destruct (Nat.eqb_spec (length (t_queue (rv_tasks v))) 0) as [Hq|Hq]; simpl; [eexists _, _; split; [done|by left]|]. 1: lia.
  assert (t_queue (rv_tasks v) <> []) as Hne by (intros He; by rewrite He in Hq).
  destruct (reserve_pop q L k v Hv Hne) as (h & prio & rest & i & -> & HL & Hix & Hlen & Hfit & Hpop & Hstep).
  destruct ((Z.of_nat (length (rv_cache v)) <=? cache_index q h) || (cache_index q h <? 0)) eqn:Hrange.
  { eexists _, _. split; [done|]. right. split_and!; [done|by eexists|apply (lo_length _ _ _ _ Hv)|]. intros (Hs & Hpos & Hlost).
    rewrite decide_True in Hix by (apply Hpos, list_elem_of_lookup; eauto). specialize (Hfit ltac:(lia) Hs Hlost).
    apply orb_true_iff in Hrange as [?%Z.leb_le|?%Z.ltb_lt]; lia. }
  apply orb_false_iff in Hrange as [Hr1%Z.leb_gt Hr2%Z.ltb_ge]. case_decide as Hpos; [|lia]. rewrite Hix, Nat2Z.id in *.
  destruct (Hstep Hpos ltac:(lia)) as [[r Hr] Hi].
  destruct (isNoop k h) eqn:Hn; [|destruct (Lacks _ _ _)]; (apply IH; [|simpl; lia]).
  - by eapply loop_noop.
  - eapply loop_item; eauto. simpl. rewrite app_assoc. symmetry. apply Permutation_cons_append.
  - eapply loop_item; eauto. simpl. rewrite <- app_assoc. symmetry. apply Permutation_middle.
Qed.

(** What every operation leaves alone. *)
Record frame q q' : Prop := {
  fr_mode : q_mode q' = q_mode q;
  fr_pivot : q_pivot q' = q_pivot q;
  fr_offset : q_offset q' = q_offset q;
  fr_head : q_headerHead q' = q_headerHead q;
  fr_length : length (q_cache q') = length (q_cache q);
}.

Abbreviation settled q L := (inv q L (only Bodies [])).

Definition pushed (t : tasks) (hs : list Header) : tasks := mkTasks (t_pool t) (push_headers (t_queue t) hs) (t_pend t) (t_done t).

Lemma inv_pushes q L k hs out : inv q L (only k (hs ++ out)) -> inv (set_tasks q k (pushed (get_tasks q k) hs)) L (only k out).
Proof. intros Hq. eapply inv_move; [exact Hq|done|]. intros Ht. rewrite <- app_assoc in Ht. by apply ok_pushes. Qed.

Lemma inv_out q L k out out' : out ≡ₚ out' -> inv q L (only k out) -> inv q L (only k out').
Proof. intros Hp []. split; try done. intros k'. specialize (in_tasks k'). unfold FetchInv.only in *. case_decide; [|done].
  eapply ok_out; [|done]. by rewrite Hp. Qed.

Lemma loop_start q L k : inv q L (only k []) ->
  loop_ok q L k (mkReservation (Z.of_nat (length (q_cache q)) - Z.of_nat (size (t_done (get_tasks q k))) - in_flight (t_pend (get_tasks q k))) 0
    (get_tasks q k) (q_cache q) [] [] false).
Proof.
  intros Hq. split; simpl; try done; [|by intros h Hh%not_elem_of_nil]. unfold during. simpl. rewrite set_get. by destruct q.
Qed.

(** A reservation succeeds, or it fails and loses the headers it has popped. *)
Lemma reserve_total q L k p count now : settled q L -> 0 <= count ->
  exists req progress e q', reserveHeaders q k p count now = Ok (req, progress, e, q') /\ frame q q' /\
    ((e = None /\ settled q' L) \/
     (e = Some errInvalidChain /\ (exists out, inv q' L (only k out)) /\
      ~ (small (q_offset q) L /\ (forall h, h ∈ L -> 0 <= Number h) /\ lost k = []))).
Proof.
  intros Hq Hc. unfold reserveHeaders. destruct (prque_Empty _); [by eexists _, _, _, _; split_and!; [| |left]|].
  case_bool_decide as Hp; [by eexists _, _, _, _; split_and!; [| |left]|]. rewrite (proj2 (Z.ltb_ge _ _)) by done.
  apply eq_None_not_Some in Hp.
  destruct (reserve_loop_ok q L k p count (length (t_queue (get_tasks q k))) _ (loop_start q L k (inv_only _ _ _ _ _ k Hq)))
    as (e & v & -> & [[-> Hv]|(-> & Hout & Hlen & Hs)]); [done| |].
  2:{ simpl. eexists _, _, _, _. split; [done|]. split; [by destruct k|]. by right. }
  simpl. destruct Hv as [Hi Hst Hl Hpe _ _]. rewrite <- Hpe in Hp.
  apply (inv_out _ _ _ _ (rv_skip v ++ rv_send v) (Permutation_app_comm _ _)) in Hi.
  apply inv_pushes in Hi as Hm. rewrite during_tasks, during_set in Hm.
  destruct (rv_send v) as [|h hs] eqn:Hsend; (eexists _, _, _, _; split; [done|]); (split; [by destruct k|]); left; (split; [done|]).
  - eapply inv_only. exact Hm.
  - rewrite <- Hsend in Hm. pose proof (inv_move num lost _ L k (rv_send v) []
      (mkTasks (t_pool (rv_tasks v)) (push_headers (t_queue (rv_tasks v)) (rv_skip v)) (<[p := mkRequest p 0 (rv_send v) now]> (t_pend (rv_tasks v))) (t_done (rv_tasks v))) Hm) as Hf.
    rewrite during_tasks, during_set in Hf. rewrite Hsend in Hf. eapply inv_only, Hf; [done|]. simpl. intros Ht.
    apply (ok_pend _ _ _ (lost k) p (h :: hs) now) in Ht; [done|done|done|]. intros x Hx. apply Hst. rewrite ?Hsend. apply elem_of_app. by left.
Qed.

(** A count below zero panics unless there is nothing to reserve. *)
Lemma reserve_any q L k p count now request progress e q' : settled q L -> reserveHeaders q k p count now = Ok (request, progress, e, q') ->
  frame q q' /\ ((e = None /\ settled q' L) \/
    (e = Some errInvalidChain /\ (exists out, inv q' L (only k out)) /\
     ~ (small (q_offset q) L /\ (forall h, h ∈ L -> 0 <= Number h) /\ lost k = []))).
Proof.
  intros Hq Hr. destruct (decide (0 <= count)) as [Hc|Hc].
  - destruct (reserve_total q L k p count now Hq Hc) as (? & ? & e' & ? & Hr' & Hf & Hcase). rewrite Hr' in Hr. by simplify_eq.
  - unfold reserveHeaders in Hr. rewrite (proj2 (Z.ltb_lt count 0)) in Hr by lia. repeat case_match; simplify_eq; (split; [done|by left]).
Qed.

(** ** Taking back *)

Lemma take_back_ok q L k p r : settled q L -> t_pend (get_tasks q k) !! p = Some r -> settled (set_tasks q k (take_back (get_tasks q k) p r)) L.
Proof.
  intros Hq Hp. eapply inv_only, inv_move; [exact (inv_only _ _ _ _ _ k Hq)|done|]. intros Ht. by apply ok_take_back.
Qed.

Lemma frame_set_tasks q k t : frame q (set_tasks q k t).
Proof. by destruct k. Qed.

Lemma frame_trans q1 q2 q3 : frame q1 q2 -> frame q2 q3 -> frame q1 q3.
Proof. intros [] []. split; congruence. Qed.

Lemma revoke_kind_ok q L k p : settled q L -> settled (revoke_kind q k p) L /\ frame q (revoke_kind q k p).
Proof.
  intros Hq. unfold revoke_kind. destruct (t_pend _ !! p) as [r|] eqn:Hp; [|done]. split; [by apply take_back_ok|apply frame_set_tasks].
Qed.

Lemma Revoke_ok q L p : settled q L -> settled (Revoke q p) L /\ frame q (Revoke q p).
Proof.
  intros Hq. unfold Revoke. destruct (revoke_kind_ok q L Bodies p Hq) as [H1 F1]. destruct (revoke_kind_ok _ L Receipts p H1) as [H2 F2].
  split; [done|by eapply frame_trans].
Qed.

Lemma expire_all need started L out (old : list (peerId * fetchRequest)) : forall t, NoDup old.*1 -> (forall p r, (p, r) ∈ old -> t_pend t !! p = Some r) ->
  tasks_ok need started L out t ->
  tasks_ok need started L out (mkTasks (t_pool t) (foldl (fun u x => push_headers u (rq_Headers x.2)) (t_queue t) old) (drop_expired (t_pend t) old) (t_done t)).
Proof.
  induction old as [|[p r] old IH]; intros t Hnd Hold Ht; [by destruct t|]. apply list.NoDup_cons in Hnd as [Hp Hnd].
  apply (ok_take_back _ _ _ _ p r) in Ht; [|apply Hold; by left]. apply IH in Ht; [exact Ht|done|]. intros p' r' Hin. simpl.
  rewrite lookup_delete_ne; [apply Hold; by right|]. intros <-. apply Hp. by apply (list_elem_of_fmap_2 fst _ (p, r')).
Qed.

Lemma expire_ok q L k timeout now pool : settled q L -> pool ≡ₚ map_to_list (t_pend (get_tasks q k)) ->
  settled (expire q k timeout now pool).2 L /\ frame q (expire q k timeout now pool).2.
Proof.
  intros Hq Hpool. split; [|apply frame_set_tasks]. eapply inv_only, inv_move; [exact (inv_only _ _ _ _ _ k Hq)|done|]. intros Ht.
  apply expire_all; [| |done].
  - eapply sublist_NoDup; [|apply fmap_sublist, sublist_filter]. rewrite Hpool. apply NoDup_fst_map_to_list.
  - intros p r [_ Hin]%list_elem_of_filter. rewrite Hpool in Hin. by apply elem_of_map_to_list.
Qed.

(** ** Delivering *)

Definition root_of (k : dataKind) h : Hash := match k with Bodies => TxRootHash h | Receipts => ReceiptRootHash h end.
Definition bad (k : dataKind) : queueErr := match k with Bodies => errInvalidBody | Receipts => errInvalidReceipt end.

(** How many of the items fit the headers. *)
Fixpoint matched (k : dataKind) (roots : list Hash) (hs : list Header) : nat :=
  match roots, hs with
  | root :: roots, h :: hs => if decide (root = root_of k h) then S (matched k roots hs) else O
  | _, _ => O
  end.

(** What the callbacks of [deliver] do. *)
Definition rebuilds (k : dataKind) (roots : list Hash) (f : Header -> nat -> R -> outcome blocked (queueErr + R)) : Prop :=
  forall i root h r, roots !! i = Some root ->
    if decide (root = root_of k h) then
      exists r', f h i r = Ok (inr r') /\ fills k h r (mkResult (rs_Pending r' - 1) (rs_Header r') (rs_Transactions r') (rs_Receipts r'))
    else f h i r = Ok (inl (bad k)).

Lemma body_rebuilds (txLists : list (list Tx)) roots : Forall2 (fun txs root => derive_txs txs = Ok root) txLists roots ->
  rebuilds Bodies roots (reconstruct_body txLists).
Proof.
  intros Hr i root h r Hi. destruct (Forall2_lookup_r _ _ _ _ _ Hr Hi) as (txs & Ht & Hd). unfold reconstruct_body. rewrite Ht. simpl. rewrite Hd. simpl.
  case_decide; [|by rewrite bool_decide_eq_false_2]. rewrite bool_decide_eq_true_2 by done. eexists. split; [done|]. by subst.
Qed.

Lemma receipts_rebuild (receiptList : list (list Receipt)) roots : Forall2 (fun rs root => derive_receipts rs = Ok root) receiptList roots ->
  rebuilds Receipts roots (reconstruct_receipts receiptList).
Proof.
  intros Hr i root h r Hi. destruct (Forall2_lookup_r _ _ _ _ _ Hr Hi) as (rs & Ht & Hd). unfold reconstruct_receipts. rewrite Ht. simpl. rewrite Hd. simpl.
  case_decide; [|by rewrite bool_decide_eq_false_2]. rewrite bool_decide_eq_true_2 by done. eexists. split; [done|]. by subst.
Qed.

Definition at_ q k t (cache : list (option R)) : Q := set_cache (set_tasks q k t) cache (q_offset q).

Lemma at_tasks q k t cache : get_tasks (at_ q k t cache) k = t.
Proof. by destruct k. Qed.

(** The outcome of the loop of [deliver] when [n] of the items are accepted. *)
Record delivered q L k (n results : nat) (hs : list Header) t (cache : list (option R)) (accepted : nat) (d : delivery (Tx := Tx)) : Prop := {
  de_inv : inv (at_ q k (dl_tasks d) (dl_cache d)) L (only k (dl_left d));
  de_left : dl_left d = drop n hs;
  de_accepted : dl_accepted d = (accepted + n)%nat;
  de_failure : dl_failure d = if (n <? length hs)%nat && (n <? results)%nat then Some (bad k) else None;
  de_queue : t_queue (dl_tasks d) = t_queue t;
  de_pend : t_pend (dl_tasks d) = t_pend t;
  de_done : t_done (dl_tasks d) = t_done t ∪ list_to_set (HeaderHash <$> take n hs);
  de_length : length (dl_cache d) = length cache;
}.

Lemma deliver_loop_ok q L k f roots (hs : list Header) : rebuilds k roots f -> forall i t cache accepted,
  inv (at_ q k t cache) L (only k hs) -> (forall h, h ∈ hs -> started L cache h) -> (i <= length roots)%nat ->
  exists d, deliver_loop q i (length roots) f hs t cache accepted = Ok d /\
    delivered q L k (matched k (drop i roots) hs) (length roots - i) hs t cache accepted d.
Proof.
  intros Hf. induction hs as [|h hs IH]; intros i t cache accepted Hq Hst Hi.
  { exists (mkDelivery t cache accepted None []). split; [done|]. destruct (drop i roots); (split; simpl; try done; set_solver). }
  simpl. destruct (Nat.leb_spec (length roots) i) as [Hge|Hlt].
  { eexists. split; [done|]. rewrite drop_ge by done. split; simpl; try done; [|set_solver]. by replace (length roots - i)%nat with O by lia. }
  destruct (lookup_lt_is_Some_2 roots i Hlt) as [root Hroot]. rewrite (drop_S _ _ _ Hroot). simpl.
  destruct (Hst h (list_elem_of_here _ _)) as (j & r & HL & Hj).
  destruct (in_cache _ _ _ _ Hq j r ltac:(by destruct k)) as (h' & HL' & Hr'). simplify_eq.
  assert (cache_index q h = Z.of_nat j) as ->
    by (pose proof (index_exact num _ _ _ _ (in_headers _ _ _ _ Hq) HL (ro_number _ _ _ _ Hr')); by destruct k). clear Hr'.
  pose proof (lookup_lt_Some _ _ _ Hj). rewrite (proj2 (Z.leb_gt _ _)), (proj2 (Z.ltb_ge _ _)), Nat2Z.id by lia. simpl. rewrite Hj. simpl.
  specialize (Hf i root h r Hroot). case_decide as Hm.
  2:{ rewrite Hf. simpl. eexists. split; [done|]. split; simpl; try done; [|set_solver].
      by replace (0 <? length roots - i)%nat with true by (symmetry; apply Nat.ltb_lt; lia). }
  destruct Hf as (r' & -> & Hfill). simpl.
  rewrite (less_lookup (<[j := Some r']> cache) j r') by (by rewrite list_lookup_insert_eq). rewrite list_insert_insert_eq.
  set (r2 := mkResult (rs_Pending r' - 1) _ _ _) in *.
  pose proof (inv_finish num lost _ _ _ _ j h r r2 Hq HL Hj Hfill) as Hq'. rewrite at_tasks in Hq'.
  destruct (IH (S i) (finish t h) (<[j := Some r2]> cache) (S accepted)) as (d & Hd & []); [by destruct k| |lia|].
  { intros x Hx. eapply started_mono; [|apply Hst; by right]. intros u y Hy. rewrite list_lookup_insert. case_decide; eauto. }
  exists d. split; [exact Hd|]. split; simpl; try done.
  - lia.
  - rewrite de_failure0. replace (length roots - S i)%nat with (length roots - i - 1)%nat by lia.
    by replace (matched k (drop (S i) roots) hs <? length roots - i - 1)%nat with (S (matched k (drop (S i) roots) hs) <? length roots - i)%nat
      by (apply eq_bool_prop_intro; rewrite !Is_true_true, !Nat.ltb_lt; lia).
  - rewrite de_done0. simpl. set_solver.
  - by rewrite de_length0, length_insert.
Qed.

(** What [deliver] reports. *)
Definition verdict (k : dataKind) (n : nat) (complete : bool) : option queueErr :=
  if complete then None else if (0 <? n)%nat then Some (PartialFailure (bad k)) else Some errStaleDelivery.

Lemma inv_lacking q L o l : inv q L o -> inv (set_lacking q l) L o.
Proof. intros []. by split. Qed.

Lemma deliver_settled q L k f roots id r : settled q L -> t_pend (get_tasks q k) !! id = Some r -> rebuilds k roots f ->
  let n := matched k roots (rq_Headers r) in
  exists q', deliver q k id (length roots) f = Ok (n, verdict k n (n =? min (length (rq_Headers r)) (length roots))%nat, q') /\
    settled q' L /\ frame q q' /\ done q' k = done q k ∪ list_to_set (HeaderHash <$> take n (rq_Headers r)) /\
    t_pend (get_tasks q' k) = delete id (t_pend (get_tasks q k)) /\
    t_queue (get_tasks q' k) = push_headers (t_queue (get_tasks q k)) (drop n (rq_Headers r)).
Proof.
  intros Hq Hp Hf n. unfold deliver. rewrite Hp. set (t := mkTasks _ _ (delete id _) _).
  assert (inv (at_ q k t (q_cache q)) L (only k (rq_Headers r))) as Hq1.
  { pose proof (inv_move num lost q L k [] (rq_Headers r) t (inv_only _ _ _ _ _ k Hq)) as Hm. destruct k; (apply Hm; [done|]); intros Ht;
      by apply (ok_unpend _ _ _ _ id r) in Ht. }
  destruct (deliver_loop_ok q L k f roots (rq_Headers r) Hf 0 t (q_cache q) 0 Hq1) as (d & -> & []); [|lia|].
  { intros h Hh. apply (tk_flying _ _ _ _ _ (in_tasks _ _ _ _ Hq k)). by eapply flying_elem. }
  rewrite drop_0, Nat.sub_0_r in *. fold n in de_left0, de_accepted0, de_failure0, de_done0. simpl in de_accepted0.
  assert ((n <= length (rq_Headers r))%nat /\ (n <= length roots)%nat) as [Hn1 Hn2].
  { unfold n. clear. revert roots. induction (rq_Headers r) as [|h hs IH]; intros [|root roots]; simpl; try lia. case_decide; [|lia]. specialize (IH roots). lia. }
  simpl. eexists. split; [|split_and!].
  - rewrite de_accepted0, de_failure0. unfold verdict. repeat f_equal.
    destruct (Nat.ltb_spec n (length (rq_Headers r))), (Nat.ltb_spec n (length roots)); simpl;
      destruct (Nat.eqb_spec n (length (rq_Headers r) `min` length roots)); try lia; try done. by destruct k.
  - apply inv_only with k. pose proof (inv_pushes _ _ _ (dl_left d) [] ltac:(rewrite app_nil_r; exact de_inv0)) as Hi.
    rewrite at_tasks in Hi. apply inv_lacking. by destruct k.
  - by destruct k.
  - unfold done. destruct k; exact de_done0.
  - destruct k; exact de_pend0.
  - destruct k; simpl in *; by rewrite de_queue0, de_left0.
Qed.

(** ** Scheduling *)

Lemma hashes_snoc L h x : NoDup (HeaderHash <$> L ++ [h]) -> x ∈ L -> HeaderHash x <> HeaderHash h.
Proof.
  rewrite fmap_app. intros (_ & Hd & _)%list.NoDup_app Hx He. apply (Hd (HeaderHash x)); [by apply list_elem_of_fmap_2|]. rewrite He. by left.
Qed.

Lemma tasks_add need (P P' : Header -> Prop) L out h t : NoDup (HeaderHash <$> L ++ [h]) -> (forall x, P x -> P' x) -> tasks_ok need P L out t ->
  tasks_ok need P' (L ++ [h]) out (if need h then add_task t h else t).
Proof.
  intros Hnd HP Ht. pose proof (tasks_started _ _ _ _ _ _ HP Ht) as []. assert (HeaderHash h ∉ t_done t) as Hd.
  { intros (x & Hx & _ & He)%tk_done. by apply (hashes_snoc L h x). }
  assert (missing need (t_done t) (L ++ [h]) = missing need (t_done t) L ++ (if need h then [h] else [])) as Hm.
  { rewrite missing_app. f_equal. unfold missing. destruct (need h) eqn:Hn; [by rewrite filter_cons_True|]. rewrite filter_cons_False; [done|]. intros [Hn2 _]. congruence. }
  destruct (push_header_ok (t_queue t) h tk_heap) as [Hok Hperm].
  destruct (need h) eqn:Hn; (split; simpl; try done).
  - intros x Hx. rewrite Hperm in Hx. apply elem_of_cons in Hx as [->|Hx]; [done|by apply tk_prio].
  - rewrite Hm, <- tk_items, Hperm. simpl. apply Permutation_cons_append.
  - intros x (y & Hy & Hny & <-)%tk_done. exists y. split_and!; [apply elem_of_app; by left|done|done].
  - intros x y. rewrite Hm, elem_of_app, list_elem_of_singleton, lookup_insert_Some, tk_pool. split.
    + intros [[<- <-]|(_ & Hy & Hx)]; [split; [by right|done]|split; [by left|done]].
    + intros [[Hy| ->] <-]; [right; split_and!; [|done..]|by left]. apply not_eq_sym. apply elem_of_missing in Hy as (_ & _ & Hy). by apply (hashes_snoc L).
  - intros x [Hx|Hx%list_elem_of_singleton]%elem_of_app Hdx; [by apply tk_finished|by subst].
  - rewrite Hm, app_nil_r. done.
  - intros x (y & Hy & Hny & <-)%tk_done. exists y. split_and!; [apply elem_of_app; by left|done|done].
  - intros x y. by rewrite Hm, app_nil_r.
  - intros x [Hx|Hx%list_elem_of_singleton]%elem_of_app Hdx; [by apply tk_finished|by subst].
Qed.

Definition add_header q h : Q :=
  let q1 := set_tasks q Bodies (add_task (q_blocks q) h) in
  set_head (if wants_receipts q h then set_tasks q1 Receipts (add_task (q_receipts q1) h) else q1) (HeaderHash h).

Lemma headers_snoc offset L h : headers_ok num offset L -> header_NumberU64 h = u64 (offset + Z.of_nat (length L)) ->
  0 <= Number h \/ (- 2 ^ 62 < Number h /\ 0 <= offset /\ offset + Z.of_nat (length L) < 2 ^ 62) ->
  num (HeaderHash h) = header_NumberU64 h -> Z.of_nat (S (length L)) < 2 ^ 63 -> headers_ok num offset (L ++ [h]).
Proof.
  intros [] Hn Hp Hname Hl. split; [| | |rewrite length_app; simpl; lia].
  - intros i x [Hi|[Hi Hx]]%lookup_app_Some; [by apply hd_number|]. apply list_lookup_singleton_Some in Hx as [Hi' ->].
    rewrite Hn. do 2 f_equal. lia.
  - intros i x [Hi|[Hi Hx]]%lookup_app_Some; [by apply (hd_signed i)|]. apply list_lookup_singleton_Some in Hx as [Hi' ->].
    by replace i with (length L) by lia.
  - intros x [Hx|Hx%list_elem_of_singleton]%elem_of_app; [by apply hd_name|by subst].
Qed.

Lemma add_tasks q h k : get_tasks (add_header q h) k = if needs q k h then add_task (get_tasks q k) h else get_tasks q k.
Proof. unfold add_header. destruct k; simpl; by destruct (wants_receipts q h). Qed.

Lemma add_header_ok q L h : settled q L -> headers_ok num (q_offset q) (L ++ [h]) -> settled (add_header q h) (L ++ [h]).
Proof.
  intros Hq Hh. pose proof Hq as [_ Hc Ht]. pose proof (hashes_NoDup _ _ _ Hh) as Hnd.
  assert (q_cache (add_header q h) = q_cache q /\ q_offset (add_header q h) = q_offset q /\ needs (add_header q h) = needs q) as (E1 & E2 & E3)
    by (unfold add_header; by destruct (wants_receipts q h)).
  assert (forall k, done (add_header q h) k = done q k) as E4 by (intros k; unfold done; rewrite add_tasks; by destruct (needs q k h)).
  split; rewrite ?E1, ?E2, ?E3; [done| |].
  - intros i r Hi. destruct (Hc i r Hi) as (x & Hx & Hr). exists x. split; [by apply lookup_app_l_Some|].
    eapply result_ok_ext; [done| |exact Hr]. intros k. by rewrite E4.
  - intros k. specialize (Ht k). assert (only Bodies [] k = lost k) as Ho by (unfold FetchInv.only; by case_decide). rewrite Ho in *. rewrite add_tasks.
    eapply tasks_add; [done| |exact Ht]. intros x (i & r & Hi & Hr). exists i, r. split; [by apply lookup_app_l_Some|done].
Qed.

(** Each header names the one before it as its parent, when that has a hash. *)
Fixpoint linked (head : Hash) (hs : list Header) : Prop :=
  match hs with
  | [] => True
  | h :: hs => (head = zeroHash \/ head = ParentHash h) /\ linked (HeaderHash h) hs
  end.
Definition head_after (head : Hash) (hs : list Header) : Hash := default head (HeaderHash <$> last hs).

Lemma head_after_cons head h hs : head_after head (h :: hs) = head_after (HeaderHash h) hs.
Proof. unfold head_after. rewrite last_cons. by destruct (last hs). Qed.

Lemma linked_app head hs hs' : linked head (hs ++ hs') <-> linked head hs /\ linked (head_after head hs) hs'.
Proof.
  revert head. induction hs as [|h hs IH]; intros head; simpl; [unfold head_after; simpl; tauto|]. rewrite IH, head_after_cons. tauto.
Qed.

(** What scheduling leaves alone. *)
Record same_results q q' : Prop := {
  sr_mode : q_mode q' = q_mode q;
  sr_pivot : q_pivot q' = q_pivot q;
  sr_cache : q_cache q' = q_cache q;
  sr_offset : q_offset q' = q_offset q;
}.

Lemma add_header_same q h : same_results q (add_header q h).
Proof. unfold add_header. by destruct (wants_receipts q h). Qed.

Lemma add_header_head q h : q_headerHead (add_header q h) = HeaderHash h.
Proof. done. Qed.

(** A header of the next number is in no pool. *)
Lemma next_fresh q L h k : settled q L -> headers_ok num (q_offset q) (L ++ [h]) -> t_pool (get_tasks q k) !! HeaderHash h = None.
Proof.
  intros Hq Hh. apply eq_None_not_Some. intros [x Hx]. pose proof (in_tasks _ _ _ _ Hq k) as Ht.
  apply (tk_pool _ _ _ _ _ Ht) in Hx as [(_ & _ & Hx)%elem_of_missing He]. apply (hashes_snoc L h x); [by eapply hashes_NoDup|done|done].
Qed.

Lemma Schedule_ok hs : forall q L from, settled q L -> from = u64 (q_offset q + Z.of_nat (length L)) ->
  (forall h, h ∈ hs -> (0 <= Number h \/ (- 2 ^ 62 < Number h /\ 0 <= q_offset q /\ q_offset q + Z.of_nat (length L + length hs) <= 2 ^ 62)) /\
    num (HeaderHash h) = header_NumberU64 h) -> Z.of_nat (length L + length hs) < 2 ^ 63 ->
  exists ins q', Schedule q hs from = (ins, q') /\ settled q' (L ++ ins) /\ same_results q q' /\ ins `prefix_of` hs /\
    linked (q_headerHead q) ins /\ q_headerHead q' = head_after (q_headerHead q) ins.
Proof.
  induction hs as [|h hs IH]; intros q L from Hq Hfrom Hhs Hlen; simpl; [eexists [], q; rewrite app_nil_r; by split_and!|].
  assert (exists ins q', ([], q) = (ins, q') /\ settled q' (L ++ ins) /\ same_results q q' /\ ins `prefix_of` h :: hs /\
    linked (q_headerHead q) ins /\ q_headerHead q' = head_after (q_headerHead q) ins) as Hstop.
  { eexists [], q. rewrite app_nil_r. split_and!; try done. apply prefix_nil. }
  destruct (Z.eqb_spec (header_NumberU64 h) from) as [Hn|Hn]; simpl; [|exact Hstop].
  destruct (negb _ && negb _) eqn:Hlink; [exact Hstop|]. clear Hstop. destruct (Hhs h (list_elem_of_here _ _)) as [Hpos Hname]. simpl in Hlen, Hpos.
  assert (headers_ok num (q_offset q) (L ++ [h])) as Hh by (apply headers_snoc; [apply Hq|congruence|lia|done|lia]).
  pose proof (next_fresh q L h Bodies Hq Hh) as E1. pose proof (next_fresh q L h Receipts Hq Hh) as E2. simpl in E1, E2.
  rewrite E1, E2. rewrite !(bool_decide_eq_false_2 (is_Some None)) by (intros []; done).
  change (set_head _ _) with (add_header q h).
  destruct (IH (add_header q h) (L ++ [h]) (u64 (from + 1))) as (ins & q' & -> & Hi & Hs & Hp & Hl & Hhd).
  - by apply add_header_ok.
  - rewrite Hfrom, u64_u64, length_app, (sr_offset _ _ (add_header_same q h)). simpl. f_equal. lia.
  - intros x Hx. rewrite (sr_offset _ _ (add_header_same q h)), length_app. simpl in *. destruct (Hhs x) as [Hxs Hxn]; [by right|].
    split; [lia|done].
  - rewrite length_app. simpl. lia.
  - rewrite <- app_assoc in Hi. rewrite add_header_head in Hl, Hhd. eexists (h :: ins), q'. split_and!; [done|done| | | |].
    + destruct Hs, (add_header_same q h). split; congruence.
    + by apply prefix_cons.
    + split; [|done]. apply andb_false_iff in Hlink as [Hz|Hz]; apply negb_false_iff, bool_decide_eq_true in Hz; [by left|by right].
    + by rewrite head_after_cons.
Qed.

(** ** Results *)

Context (fsHeaderForceVerify : nat).

Lemma count_from_le q (rest : list (option R)) : forall i, (i <= count_from fsHeaderForceVerify q i rest <= i + length rest)%nat.
Proof.
  induction rest as [|[r|] rest IH]; intros i; simpl; [lia| |lia]. destruct (0 <? rs_Pending r); [lia|]. destruct (_ && _); [lia|]. specialize (IH (S i)). lia.
Qed.

(** The results counted are complete. *)
Lemma count_from_complete q (rest : list (option R)) : forall i j, (i + j < count_from fsHeaderForceVerify q i rest)%nat ->
  exists r, rest !! j = Some (Some r) /\ rs_Pending r <= 0.
Proof.
  induction rest as [|[r|] rest IH]; intros i j Hj; simpl in Hj; [lia| |lia]. destruct (Z.ltb_spec 0 (rs_Pending r)) as [Hp|Hp]; [lia|].
  destruct (_ && _); [lia|]. destruct j as [|j]; [by exists r|]. apply (IH (S i) j). lia.
Qed.

(** And the one after them is not, except at the pivot. *)
Lemma count_from_stop q (rest : list (option R)) : q_mode q <> FastSync -> forall i j r, (i + j)%nat = count_from fsHeaderForceVerify q i rest ->
  rest !! j = Some (Some r) -> 0 < rs_Pending r.
Proof.
  intros Hm. induction rest as [|[c|] rest IH]; intros i j r Hj Hr; simpl in Hj; [done| |].
  - destruct (Z.ltb_spec 0 (rs_Pending c)) as [Hp|Hp].
    + assert (j = O) as -> by lia. by simplify_eq/=.
    + rewrite bool_decide_eq_false_2 in Hj by done. simpl in Hj. pose proof (count_from_le q rest (S i)).
      destruct j as [|j]; [lia|]. apply (IH (S i) j r); [lia|done].
  - by assert (j = O) as -> by lia.
Qed.

Definition processable q : nat := countProcessableItems fsHeaderForceVerify q.

Lemma owed_zero need d h : owed need d Bodies h + owed need d Receipts h <= 0 -> forall k, need k h = true -> HeaderHash h ∈ d k.
Proof.
  unfold owed. intros Ho k Hk. destruct (decide (HeaderHash h ∈ d k)) as [|Hn]; [done|]. destruct k; rewrite Hk, (bool_decide_eq_false_2 _ Hn) in Ho; simpl in Ho;
    [destruct (need Receipts h && _)|destruct (need Bodies h && _)]; lia.
Qed.

Lemma front_complete q L o i : inv q L o -> (i < processable q)%nat -> exists h r, L !! i = Some h /\ q_cache q !! i = Some (Some r) /\
  result_ok (needs q) (done q) h r /\ forall k, needs q k h = true -> HeaderHash h ∈ done q k.
Proof.
  intros Hq Hi. destruct (count_from_complete q (q_cache q) 0 i Hi) as (r & Hr & Hp). destruct (in_cache _ _ _ _ Hq i r Hr) as (h & HL & Ho).
  exists h, r. split_and!; [done..|]. apply owed_zero. rewrite <- (ro_pending _ _ _ _ Ho). done.
Qed.

Lemma processable_le q L o : inv q L o -> (processable q <= length L)%nat /\ (processable q <= length (q_cache q))%nat.
Proof.
  intros Hq. split; [|apply (count_from_le q (q_cache q) 0)]. destruct (decide (processable q <= length L)%nat) as [|Hgt]; [done|].
  destruct (front_complete q L o (length L) Hq) as (h & r & HL & _); [lia|]. apply lookup_lt_Some in HL. lia.
Qed.

(** The results taken are those of the first headers, in order. *)
Lemma front_results q L o : inv q L o -> rs_Header <$> omap id (take (processable q) (q_cache q)) = take (processable q) L.
Proof.
  intros Hq. assert (forall n, (n <= processable q)%nat -> rs_Header <$> omap id (take n (q_cache q)) = take n L) as Hn; [|by apply Hn].
  induction n as [|n IH]; intros Hle; [done|]. destruct (front_complete q L o n Hq) as (h & r & HL & Hr & Ho & _); [lia|].
  rewrite (take_S_r _ _ _ HL), (take_S_r _ _ _ Hr), omap_app, fmap_app, IH by lia. simpl. by rewrite (ro_header _ _ _ _ Ho).
Qed.

(** A result with everything it was scheduled for. *)
Definition complete q (r : R) : Prop :=
  derive_txs (rs_Transactions r) = Ok (TxRootHash (rs_Header r)) /\
  (wants_receipts q (rs_Header r) = true -> derive_receipts (rs_Receipts r) = Ok (ReceiptRootHash (rs_Header r))).

Lemma front_Forall q L o : inv q L o -> Forall (complete q) (omap id (take (processable q) (q_cache q))).
Proof.
  intros Hq. apply Forall_forall. intros r Hr. apply list_elem_of_omap in Hr as (x & Hx & Hxr). simpl in Hxr. subst x.
  apply elem_of_take in Hx as (i & Hi & Hlt). destruct (front_complete q L o i Hq Hlt) as (h & r' & HL & Hr & Ho & Hd). simplify_eq.
  split; rewrite (ro_header _ _ _ _ Ho); [|intros Hw]; [apply (ro_txs _ _ _ _ Ho)|apply (ro_receipts _ _ _ _ Ho)]; by apply Hd.
Qed.

Lemma take_drop_hash offset L n h h' : headers_ok num offset L -> h ∈ take n L -> h' ∈ drop n L -> HeaderHash h' <> HeaderHash h.
Proof.
  intros Hh Ht Hd He. pose proof (hashes_NoDup _ _ _ Hh) as Hnd. rewrite <- (take_drop n L), fmap_app in Hnd. apply list.NoDup_app in Hnd as (_ & Hx & _).
  apply (Hx (HeaderHash h)); [by apply list_elem_of_fmap_2|]. rewrite <- He. by apply list_elem_of_fmap_2.
Qed.

Lemma headers_drop offset L n : headers_ok num offset L -> headers_ok num (u64 (offset + Z.of_nat n)) (drop n L).
Proof.
  intros []. assert (forall h, h ∈ drop n L -> h ∈ L) as Hd by (intros h Hh; rewrite <- (take_drop n L); apply elem_of_app; by right).
  split; [| |by eauto|rewrite length_drop; lia]; intros i h Hi; rewrite lookup_drop in Hi.
  - rewrite (hd_number _ _ Hi), u64_u64. f_equal. lia.
  - destruct (hd_signed _ _ Hi) as [?|(? & ? & ?)]; [by left|right]. unfold u64. rewrite wrap_small by lia. lia.
Qed.

(** The tasks when the first headers, which miss nothing, leave. *)
Lemma tasks_drop need (P P' : Header -> Prop) offset L out n t : headers_ok num offset L -> (forall h, h ∈ take n L -> need h = true -> HeaderHash h ∈ t_done t) ->
  (forall h, h ∈ drop n L -> P h -> P' h) -> tasks_ok need P L out t -> tasks_ok need P' (drop n L) out (drop_done t (HeaderHash <$> take n L)).
Proof.
  intros Hh Hfront HP []. assert (forall h, h ∈ drop n L -> HeaderHash h ∉ HeaderHash <$> take n L) as Hout.
  { intros h Hd (x & He & Hx)%list_elem_of_fmap. by apply (take_drop_hash _ _ _ _ _ Hh Hx Hd). }
  assert (missing need (t_done t ∖ list_to_set (HeaderHash <$> take n L)) (drop n L) = missing need (t_done t) L) as Hm.
  { rewrite <- (take_drop n L) at 3. rewrite missing_app. replace (missing need (t_done t) (take n L)) with (@nil Header).
    - simpl. apply missing_ext. intros h Hd%Hout. set_solver.
    - symmetry. apply elem_of_nil_inv. intros h (Hn & Hd & Ht)%elem_of_missing. by apply Hd, Hfront. }
  assert (forall h, h ∈ missing need (t_done t) L -> h ∈ drop n L) as Hmd by (intros h; rewrite <- Hm; intros (_ & _ & Hx)%elem_of_missing; done).
  split; simpl; rewrite ?Hm; try done.
  - intros x [(h & HL & Hn & <-)%tk_done Hx]%elem_of_difference. exists h. split_and!; [|done..]. rewrite <- (take_drop n L) in HL.
    apply elem_of_app in HL as [HL|HL]; [|done]. exfalso. apply Hx, elem_of_list_to_set. by apply list_elem_of_fmap_2.
  - intros h Hf. apply HP; [|by apply tk_flying]. apply Hmd. rewrite <- tk_items, !elem_of_app. auto.
  - intros h Hd [Hx _]%elem_of_difference. apply HP; [done|]. apply tk_finished; [|done]. rewrite <- (take_drop n L). apply elem_of_app. by right.
Qed.

Lemma shift_lookup (cache : list (option R)) n i r : (n <= length cache)%nat ->
  (drop n cache ++ replicate n None) !! i = Some (Some r) <-> cache !! (n + i)%nat = Some (Some r).
Proof.
  intros Hn. rewrite lookup_app, lookup_drop. destruct (cache !! (n + i)%nat) as [x|] eqn:Hi; [done|].
  split; [|done]. intros [Hx _]%lookup_replicate. done.
Qed.

(** The queue without its first [n] results. *)
Definition advance q (n : nat) (hashes : list Hash) : Q :=
  set_cache (set_tasks (set_tasks q Bodies (drop_done (q_blocks q) hashes)) Receipts (drop_done (q_receipts q) hashes))
    (drop n (q_cache q) ++ replicate n None) (u64 (q_offset q + Z.of_nat n)).

Lemma advance_tasks q n hashes k : get_tasks (advance q n hashes) k = drop_done (get_tasks q k) hashes.
Proof. by destruct k. Qed.

Lemma advance_ok q L : settled q L -> settled (advance q (processable q) (HeaderHash <$> take (processable q) L)) (drop (processable q) L).
Proof.
  intros Hq. set (n := processable q). destruct (processable_le q L _ Hq) as [Hn1 Hn2]. fold n in Hn1, Hn2. pose proof Hq as [Hh Hc Ht].
  assert (forall k h, h ∈ take n L -> needs q k h = true -> HeaderHash h ∈ done q k) as Hfront.
  { intros k h (i & Hi & Hlt)%elem_of_take. destruct (front_complete q L _ i Hq Hlt) as (h' & r & Hi' & _ & _ & Hd). simplify_eq. apply Hd. }
  split.
  - by apply headers_drop.
  - intros i r Hi. apply shift_lookup in Hi; [|done]. destruct (Hc _ r Hi) as (h & HL & Hr). exists h. rewrite lookup_drop. split; [done|].
    eapply result_ok_ext; [done| |exact Hr]. intros k. unfold done. rewrite advance_tasks. simpl.
    assert (HeaderHash h ∉ HeaderHash <$> take n L); [|set_solver]. intros (x & He & Hx)%list_elem_of_fmap.
    refine (take_drop_hash _ _ _ _ h Hh Hx _ He). apply list_elem_of_lookup. exists i. by rewrite lookup_drop.
  - intros k. specialize (Ht k). assert (only Bodies [] k = lost k) as Ho by (unfold FetchInv.only; by case_decide). rewrite Ho in *. rewrite advance_tasks.
    eapply (tasks_drop _ _ _ _ L _ n _ Hh); [exact (Hfront k)| |exact Ht]. intros h Hd (i & r & Hi & Hr).
    destruct (decide (i < n)%nat) as [Hlt|Hge].
    + exfalso. refine (take_drop_hash _ L n h h Hh _ Hd eq_refl). apply elem_of_take. eauto.
    + exists (i - n)%nat, r. rewrite lookup_drop. change (q_cache (advance _ _ _)) with (drop n (q_cache q) ++ replicate n None).
      rewrite shift_lookup by done. by replace (n + (i - n))%nat with i by lia.
Qed.

Lemma WaitResults_ok q L results q' : settled q L -> WaitResults fsHeaderForceVerify q = Some (results, q') ->
  rs_Header <$> results = take (processable q) L /\ Forall (complete q) results /\ settled q' (drop (processable q) L) /\
  q_offset q' = u64 (q_offset q + Z.of_nat (processable q)) /\
  q_mode q' = q_mode q /\ q_pivot q' = q_pivot q /\ q_headerHead q' = q_headerHead q /\ length (q_cache q') = length (q_cache q).
Proof.
  intros Hq. unfold WaitResults. fold (processable q). destruct (_ && _); [done|]. intros [= <- <-].
  pose proof (front_results q L _ Hq) as Hres. pose proof (advance_ok q L Hq) as Ha. pose proof (processable_le q L _ Hq).
  split_and!; [done|by eapply front_Forall| |done..|].
  - by rewrite list_fmap_compose, Hres.
  - simpl. rewrite length_app, length_drop, length_replicate. lia.
Qed.

End Keep.
