(* ===== verification/FetchClaims.v ===== *)
(** * What the download queue promises (queue.go)

    Runs of the queue, from a fresh one that is prepared for a chain to come, with
    reservations that fail; the downloader schedules headers by increasing number. *)

From stdpp Require Import base list gmap numbers option strings.
From S2P Require Import Prelude Types TrieNode TrieHash StateDB Vm Processor Signing Block Heap Prque FetchQueue FetchInv FetchKeep.
Local Open Scope Z_scope.

Section Runs.
Context {Tx : Type} `{BlockEnv Tx} (blockCacheLimit MaxHeaderFetch fsHeaderForceVerify : nat).
Abbreviation Q := (queue Tx).
Abbreviation R := (fetchResult Tx).
Implicit Types (q : Q) (S L : list Header) (D : list R) (h : Header).

(** The operations on the skeleton of headers. *)
Inductive header_op : Q -> Q -> Prop :=
| op_ScheduleSkeleton q from skel q' : ScheduleSkeleton MaxHeaderFetch q from skel = Ok q' -> header_op q q'
| op_RetrieveHeaders q : header_op q (RetrieveHeaders q).2
| op_ReserveHeaders q p now r q' : ReserveHeaders q p now = Ok (r, q') -> header_op q q'
| op_CancelHeaders q r q' : CancelHeaders q r = Ok q' -> header_op q q'
| op_ExpireHeaders q timeout now pool r q' : ExpireHeaders q timeout now pool = Ok (r, q') -> header_op q q'
| op_DeliverHeaders q id headers sent n e out q' : DeliverHeaders MaxHeaderFetch q id headers sent = Ok (n, e, out, q') -> header_op q q'.

Section Run.
Context (start : Z) (mode : SyncMode) (pivot : Z) (num : Hash -> Z).

(** [fetch_run ok q S D]: [q] has taken the headers [S] and returned the results [D], and no
    reservation has failed so far when [ok].  Headers come with the number that follows, by
    absolute value; one of a negative number is of a chain below 2^62.  A request is
    cancelled while it runs. *)
Inductive fetch_run : bool -> Q -> list Header -> list R -> Prop :=
| run_start : fetch_run true (Prepare (newQueue blockCacheLimit) start mode pivot) [] []
| run_Schedule ok q S D headers ins q' : fetch_run ok q S D ->
    (forall h, h ∈ headers -> (0 <= Number h \/ (- 2 ^ 62 < Number h /\ start + Z.of_nat (length S + length headers) <= 2 ^ 62)) /\
      num (HeaderHash h) = header_NumberU64 h) -> Z.of_nat (length S + length headers) < 2 ^ 63 ->
    Schedule q headers (u64 (start + Z.of_nat (length S))) = (ins, q') -> fetch_run ok q' (S ++ ins) D
| run_Reserve ok q S D k p count now request progress e q' : fetch_run ok q S D ->
    reserveHeaders q k p count now = Ok (request, progress, e, q') -> fetch_run (if e then false else ok) q' S D
| run_Cancel ok q S D k p request : fetch_run ok q S D -> t_pend (get_tasks q k) !! p = Some request -> fetch_run ok (cancel q k request) S D
| run_Revoke ok q S D p : fetch_run ok q S D -> fetch_run ok (Revoke q p) S D
| run_Expire ok q S D k timeout now pool : fetch_run ok q S D -> pool ≡ₚ map_to_list (t_pend (get_tasks q k)) ->
    fetch_run ok (expire q k timeout now pool).2 S D
| run_DeliverBodies ok q S D id txLists n e q' : fetch_run ok q S D -> DeliverBodies q id txLists = Ok (n, e, q') -> fetch_run ok q' S D
| run_DeliverReceipts ok q S D id receiptList n e q' : fetch_run ok q S D -> DeliverReceipts q id receiptList = Ok (n, e, q') -> fetch_run ok q' S D
| run_WaitResults ok q S D results q' : fetch_run ok q S D -> WaitResults fsHeaderForceVerify q = Some (results, q') -> fetch_run ok q' S (D ++ results)
| run_headers ok q S D q' : fetch_run ok q S D -> header_op q q' -> fetch_run ok q' S D
| run_Close ok q S D : fetch_run ok q S D -> fetch_run ok (Close q) S D.

(** What is known of a queue in a run, with the headers [L] to come, of which failed
    reservations have [lost] some. *)
Record run_ok (lost : dataKind -> list Header) q S D L : Prop := {
  rn_inv : inv num q L (only lost Bodies []);
  rn_split : S = (rs_Header <$> D) ++ L;
  rn_numbers i h : S !! i = Some h -> header_NumberU64 h = u64 (start + Z.of_nat i);
  rn_complete : Forall (complete q) D;
  rn_offset : q_offset q = u64 (start + Z.of_nat (length D));
  rn_mode : q_mode q = mode;
  rn_pivot : q_pivot q = pivot;
  rn_head : q_headerHead q = head_after zeroHash S;
  rn_linked : linked zeroHash S;
  rn_length : length (q_cache q) = blockCacheLimit;
}.

Lemma set_headers_id q : q = set_headers q (q_skeleton q) (q_headerPend q) (q_headerResults q) (q_headerProced q) (q_headerOffset q) (q_headerCont q).
Proof. by destruct q. Qed.

Lemma header_op_set q q' : header_op q q' -> exists sk pend res proced off cont, q' = set_headers q sk pend res proced off cont.
Proof.
  intros [? ? ? ? Ho|?|? ? ? ? ? Ho|? ? ? Ho|? ? ? ? ? ? Ho|? ? ? ? ? ? ? ? Ho]; [|unfold RetrieveHeaders; simpl; by eauto 10|..];
    unfold ScheduleSkeleton, ReserveHeaders, CancelHeaders, ExpireHeaders, DeliverHeaders in Ho;
    repeat (simplify_eq; first [apply outcome_bind_Ok in Ho as (? & _ & Ho)|case_match]); simplify_eq;
    first [by eauto 10|by (do 6 eexists; apply set_headers_id)].
Qed.

Lemma inv_headers q L o sk pend res proced off cont : inv num q L o -> inv num (set_headers q sk pend res proced off cont) L o.
Proof. intros []. by split. Qed.

(** Roots of lists always exist. *)
Lemma roots_exist {A} (msg : A -> list byte) (l : list (list A)) : exists roots, Forall2 (fun x root => DeriveSha (msg <$> x) = Ok root) l roots.
Proof.
  induction l as [|x l (roots & Hr)]; [by exists []|]. destruct (DeriveSha_ok (msg <$> x)) as [root Hx]. exists (root :: roots). by constructor.
Qed.

Lemma fresh_ok : 0 <= start < 2 ^ 64 -> run_ok (fun _ => []) (Prepare (newQueue blockCacheLimit) start mode pivot) [] [] [].
Proof.
  intros Hs. split; try done; [|rewrite Z.add_0_r; unfold u64; rewrite wrap_small by done; simpl; destruct (Z.ltb_spec 0 start); [done|simpl; lia]|simpl; apply length_replicate].
  assert (forall need P, tasks_ok need P [] [] no_tasks) as Ht.
  { intros need P. split; simpl; try done; [by intros x Hx%not_elem_of_nil|intros x h; split; [done|by intros [Hx%not_elem_of_nil _]]|].
    intros h Hh. by apply not_elem_of_nil in Hh. }
  split; [|intros i r [Hi _]%lookup_replicate; done|].
  - split; try done; intros h Hh; by apply not_elem_of_nil in Hh.
  - intros k. assert (only (fun _ => []) Bodies [] k = []) as -> by (unfold only; by case_decide). destruct k; apply Ht.
Qed.

Lemma complete_same q q' r : q_mode q' = q_mode q -> q_pivot q' = q_pivot q -> complete q r -> complete q' r.
Proof. intros Hm Hp. unfold complete, wants_receipts. by rewrite Hm, Hp. Qed.

Section Steps.
Context (lost : dataKind -> list Header).

(** Steps that neither take headers nor return results. *)
Lemma run_frame lost' q q' S D L : run_ok lost q S D L -> inv num q' L (only lost' Bodies []) -> frame q q' -> run_ok lost' q' S D L.
Proof.
  intros [] Hi []. split; try done; try congruence. eapply Forall_impl; [exact rn_complete0|]. intros r. by apply complete_same.
Qed.

Lemma run_schedule q S D L hs ins q' : 0 <= start -> run_ok lost q S D L ->
  (forall h, h ∈ hs -> (0 <= Number h \/ (- 2 ^ 62 < Number h /\ start + Z.of_nat (length S + length hs) <= 2 ^ 62)) /\
    num (HeaderHash h) = header_NumberU64 h) -> Z.of_nat (length S + length hs) < 2 ^ 63 ->
  Schedule q hs (u64 (start + Z.of_nat (length S))) = (ins, q') -> run_ok lost q' (S ++ ins) D (L ++ ins).
Proof.
  intros Hstart [] Hhs Hlen Hsc. subst S. rewrite length_app, length_fmap in *.
  destruct (Schedule_ok num lost hs q L _ rn_inv0 eq_refl) as (ins' & q'' & Hs & Hi & [] & _ & Hl & Hh); [|lia|].
  { intros h Hh. destruct (Hhs h Hh) as [Hsign Hname]. split; [|done]. destruct Hsign as [?|[? ?]]; [by left|right].
    rewrite rn_offset0. unfold u64. rewrite wrap_small by lia. lia. }
  rewrite Nat2Z.inj_add, Z.add_assoc, <- u64_u64, <- rn_offset0, Hs in Hsc. simplify_eq. split; try congruence.
  - by rewrite app_assoc.
  - intros i h. rewrite <- app_assoc, lookup_app_Some. intros [Hi'|[Hge Hi']]; [apply rn_numbers0; by apply lookup_app_l_Some|].
    rewrite length_fmap in *. rewrite (hd_number _ _ _ (in_headers _ _ _ _ Hi) _ _ Hi'), sr_offset, rn_offset0, u64_u64. f_equal. lia.
  - eapply Forall_impl; [exact rn_complete0|]. intros r. by apply complete_same.
  - rewrite Hh, rn_head0. unfold head_after. rewrite (last_app (_ ++ _) ins). by destruct (last ins).
  - rewrite (linked_app num). split; [done|]. by rewrite <- rn_head0.
Qed.

Lemma run_deliver q S D L k id f roots n e q' : run_ok lost q S D L -> rebuilds k roots f -> deliver q k id (length roots) f = Ok (n, e, q') -> run_ok lost q' S D L.
Proof.
  intros HL Hf Hd. destruct (t_pend (get_tasks q k) !! id) as [r|] eqn:Hp; [|unfold deliver in Hd; rewrite Hp in Hd; by simplify_eq].
  destruct (deliver_settled num lost q L k f roots id r (rn_inv _ _ _ _ _ HL) Hp Hf) as (q'' & Hd' & Hi & Hfr & _). rewrite Hd' in Hd. simplify_eq.
  by eapply run_frame.
Qed.

Lemma run_wait q S D L results q' : run_ok lost q S D L -> WaitResults fsHeaderForceVerify q = Some (results, q') ->
  run_ok lost q' S (D ++ results) (drop (processable fsHeaderForceVerify q) L).
Proof.
  intros [] Hw. destruct (WaitResults_ok num lost fsHeaderForceVerify q L results q' rn_inv0 Hw) as (Hh & Hc & Hi & Ho & Hm & Hp & Hhd & Hl).
  assert (length results = processable fsHeaderForceVerify q) as Hn.
  { rewrite <- (length_fmap rs_Header), Hh. apply length_take_le. by apply (processable_le num _ _ _ _ rn_inv0). }
  split; try congruence.
  - by rewrite fmap_app, <- app_assoc, Hh, take_drop.
  - done.
  - apply Forall_app. split; (eapply Forall_impl; [eassumption|]); intros r; by apply complete_same.
  - rewrite Ho, length_app, Hn, Nat2Z.inj_add, Z.add_assoc, <- (u64_u64 (start + _)), <- rn_offset0. done.
Qed.

(** What a failed reservation has popped is lost. *)
Lemma inv_lost q L k out : inv num q L (only lost k out) -> inv num q L (only (only lost k out) Bodies []).
Proof. intros []. split; try done. intros k'. specialize (in_tasks k'). unfold only at 1. by case_decide. Qed.

Lemma run_reserve q S D L k p count now request progress e q' : run_ok lost q S D L -> reserveHeaders q k p count now = Ok (request, progress, e, q') ->
  exists lost', run_ok lost' q' S D L /\ (e = None -> lost' = lost) /\
    (e = None \/ ~ (small (q_offset q) L /\ (forall h, h ∈ L -> 0 <= Number h) /\ lost k = [])).
Proof.
  intros HL Hr. destruct (reserve_any num lost q L k p count now _ _ _ _ (rn_inv _ _ _ _ _ HL) Hr) as [Hf [[-> Hi]|(-> & [out Hi] & Hn)]].
  - exists lost. split; [by eapply run_frame|]. split; [done|by left].
  - exists (only lost k out). split; [eapply run_frame; [exact HL|by apply inv_lost|done]|]. split; [done|by right].
Qed.

End Steps.

Lemma run_invariant ok q S D : 0 <= start < 2 ^ 64 -> fetch_run ok q S D -> exists lost L, run_ok lost q S D L /\ (ok = true -> forall k, lost k = []).
Proof.
  intros Hs. induction 1 as [|ok q S D hs ins q' _ (lost & L & HL & Hok) Hhs Hlen Hsc|ok q S D k p count now req pr e q' _ (lost & L & HL & Hok) Hr
    |ok q S D k p req _ (lost & L & HL & Hok) Hp|ok q S D p _ (lost & L & HL & Hok)|ok q S D k to now pool _ (lost & L & HL & Hok) Hpool
    |ok q S D id txs n e q' _ (lost & L & HL & Hok) Hd|ok q S D id rs n e q' _ (lost & L & HL & Hok) Hd|ok q S D res q' _ (lost & L & HL & Hok) Hw
    |ok q S D q' _ (lost & L & HL & Hok) Ho|ok q S D _ (lost & L & HL & Hok)].
  3:{ destruct (run_reserve lost _ _ _ _ _ _ _ _ _ _ _ _ HL Hr) as (lost' & HL' & Hsame & _). exists lost', L. split; [done|].
      destruct e; [done|]. rewrite (Hsame eq_refl). done. }
  1: exists (fun _ => []). 2-10: exists lost.
  - exists []. split; [by apply fresh_ok|done].
  - eexists. split; [|done]. eapply run_schedule; [|done..]. lia.
  - exists L. split; [|done]. pose proof (tk_requests _ _ _ _ _ (in_tasks _ _ _ _ (rn_inv _ _ _ _ _ HL) k) _ _ Hp) as [Hpeer _]. unfold cancel. rewrite Hpeer.
    eapply run_frame; [exact HL| |apply frame_set_tasks]. apply take_back_ok; [apply HL|done].
  - exists L. split; [|done]. destruct (Revoke_ok _ lost q L p (rn_inv _ _ _ _ _ HL)). by eapply run_frame.
  - exists L. split; [|done]. destruct (expire_ok _ lost q L k to now pool (rn_inv _ _ _ _ _ HL) Hpool). by eapply run_frame.
  - exists L. split; [|done]. destruct (roots_exist txMsgp txs) as [roots Hroots]. unfold DeliverBodies in Hd. rewrite (Forall2_length _ _ _ Hroots) in Hd.
    by eapply run_deliver; [exact HL|apply body_rebuilds, Hroots|].
  - exists L. split; [|done]. destruct (roots_exist (receiptMsgp ∘ receipt_protocol) rs) as [roots Hroots]. unfold DeliverReceipts in Hd. rewrite (Forall2_length _ _ _ Hroots) in Hd.
    by eapply run_deliver; [exact HL|apply receipts_rebuild, Hroots|].
  - eexists. split; [|done]. by eapply run_wait.
  - exists L. split; [|done]. destruct (header_op_set _ _ Ho) as (sk & pend & rs & proced & off & cont & ->). eapply run_frame; [exact HL| |done]. apply inv_headers, HL.
  - exists L. split; [|done]. eapply run_frame; [exact HL| |done]. destruct HL as [[] ]. by split.
Qed.

(** ** Idle queues *)

Lemma tasks_empty need (P : Header -> Prop) L t : tasks_ok need P L [] t -> (L = [] -> length (t_queue t) = 0%nat /\ size (t_pend t) = 0%nat /\ size (t_done t) = 0%nat).
Proof.
  intros [] ->. change (missing need (t_done t) []) with (@nil Header) in tk_items. apply Permutation_nil_r, app_eq_nil in tk_items as [Hq Hf].
  split_and!; [by apply fmap_nil_inv in Hq as ->| |].
  - apply map_size_empty_iff, map_empty. intros p. apply eq_None_not_Some. intros [r Hr]. destruct (tk_requests p r Hr) as [_ Hne].
    destruct (rq_Headers r) as [|h hs] eqn:Hh; [done|]. simpl in Hf. assert (h ∈ flying (t_pend t)) as Hin by (eapply flying_elem; [exact Hr|rewrite Hh; by left]).
    rewrite Hf in Hin. by apply not_elem_of_nil in Hin.
  - apply size_empty_iff. intros x. split; [|by intros ?%not_elem_of_empty]. intros (h & Hh & _)%tk_done. by apply not_elem_of_nil in Hh.
Qed.

Lemma nothing_missing need (P : Header -> Prop) L t : tasks_ok need P L [] t -> length (t_queue t) = 0%nat -> size (t_pend t) = 0%nat ->
  forall h, h ∈ L -> need h = true -> HeaderHash h ∈ t_done t.
Proof.
  intros [] Hq%nil_length_inv Hp%map_size_empty_inv h Hh Hn. rewrite Hq, Hp in tk_items. change (flying ∅) with (@nil Header) in tk_items. simpl in tk_items.
  apply Permutation_nil_l in tk_items. destruct (decide (HeaderHash h ∈ t_done t)) as [|Hd]; [done|].
  assert (h ∈ missing need (t_done t) L) as Hm by (by apply elem_of_missing). rewrite <- tk_items in Hm. by apply not_elem_of_nil in Hm.
Qed.

Lemma settled_tasks lost q L k : inv num q L (only lost Bodies []) -> tasks_ok (needs q k) (started L (q_cache q)) L (lost k) (get_tasks q k).
Proof. intros Hq. pose proof (in_tasks _ _ _ _ Hq k) as Ht. unfold only in Ht. by destruct (decide _). Qed.

(** As long as nothing is lost. *)
Lemma whole_tasks lost q L k : inv num q L (only lost Bodies []) -> (forall k, lost k = []) ->
  tasks_ok (needs q k) (started L (q_cache q)) L [] (get_tasks q k).
Proof. intros Hq Hlost. rewrite <- (Hlost k). by apply settled_tasks. Qed.

Lemma Idle_iff lost q L : inv num q L (only lost Bodies []) -> (forall k, lost k = []) -> Idle q = true <-> L = [].
Proof.
  intros Hq Hlost. unfold Idle, PendingBlocks, PendingReceipts, prque_Size. rewrite Nat.eqb_eq. split.
  - intros Hz. pose proof (nothing_missing _ _ _ _ (whole_tasks lost q L Bodies Hq Hlost) ltac:(simpl; lia) ltac:(simpl; lia)) as Hd. simpl in Hd.
    assert (size (t_done (q_blocks q)) = 0%nat) as He%size_empty_inv by lia. destruct L as [|h L]; [done|]. exfalso.
    specialize (Hd h (list_elem_of_here _ _) eq_refl). set_solver.
  - intros HL. pose proof (tasks_empty _ _ _ _ (whole_tasks lost q L Bodies Hq Hlost) HL). pose proof (tasks_empty _ _ _ _ (whole_tasks lost q L Receipts Hq Hlost) HL).
    simpl in *. lia.
Qed.

(** Once all bodies are there, a full sync returns all that is left. *)
Lemma all_processable lost q L : inv num q L (only lost Bodies []) -> (forall k, lost k = []) -> q_mode q <> FastSync -> PendingBlocks q = 0%nat -> InFlightBlocks q = false ->
  processable fsHeaderForceVerify q = length L.
Proof.
  intros Hq Hlost Hm Hp Hf. destruct (processable_le num fsHeaderForceVerify q L _ Hq) as [Hle _]. apply negb_false_iff, Nat.eqb_eq in Hf.
  destruct (decide (processable fsHeaderForceVerify q < length L)%nat) as [Hlt|]; [exfalso|lia].
  destruct (lookup_lt_is_Some_2 L _ Hlt) as [h Hh]. assert (h ∈ L) as Hin by (apply list_elem_of_lookup; eauto).
  pose proof (whole_tasks lost q L Bodies Hq Hlost) as Ht. pose proof (nothing_missing _ _ _ _ Ht Hp Hf h Hin eq_refl) as Hd.
  destruct (tk_finished _ _ _ _ _ Ht h Hin Hd) as (i & r & Hi & Hr). destruct (in_cache _ _ _ _ Hq i r Hr) as (h' & Hi' & Ho). simplify_eq.
  assert (i = processable fsHeaderForceVerify q) as ->.
  { apply (NoDup_lookup (HeaderHash <$> L) _ _ (HeaderHash h)); [eapply hashes_NoDup, Hq| |]; rewrite list_lookup_fmap; [by rewrite Hi|by rewrite Hh]. }
  pose proof (count_from_stop fsHeaderForceVerify q (q_cache q) Hm 0 _ r eq_refl Hr) as Hpend. rewrite (ro_pending _ _ _ _ Ho) in Hpend.
  unfold owed in Hpend. rewrite (bool_decide_eq_true_2 (HeaderHash h ∈ done q Bodies)) in Hpend by done. simpl in Hpend.
  unfold wants_receipts in Hpend. rewrite bool_decide_eq_false_2 in Hpend by done. simpl in Hpend. lia.
Qed.

(** ** Room *)

(** What is done or in flight has a place among the results. *)
Lemma room lost q L k : inv num q L (only lost Bodies []) -> (size (t_done (get_tasks q k)) + length (flying (t_pend (get_tasks q k))) <= length (q_cache q))%nat.
Proof.
  intros Hq. pose proof (hashes_NoDup _ _ _ (in_headers _ _ _ _ Hq)) as Hnd. pose proof (settled_tasks lost q L k Hq) as []. set (t := get_tasks q k) in *.
  set (fin := filter (fun h => HeaderHash h ∈ t_done t) L).
  assert (size (t_done t) <= length fin)%nat as H1.
  { rewrite <- (length_fmap HeaderHash). rewrite <- (size_list_to_set (C := gset Hash)) by (eapply sublist_NoDup; [exact Hnd|apply fmap_sublist, sublist_filter]).
    apply subseteq_size. intros x Hx.
    destruct (tk_done x Hx) as (h & Hh & _ & <-). apply elem_of_list_to_set, list_elem_of_fmap_2. by apply list_elem_of_filter. }
  assert (fin ++ flying (t_pend t) ⊆+ take (length (q_cache q)) L) as Hsub.
  { apply NoDup_submseteq.
    - apply list.NoDup_app. split_and!; [apply NoDup_filter; by eapply NoDup_fmap_1| |].
      + intros h [Hd _]%list_elem_of_filter Hf. assert (h ∈ missing (needs q k) (t_done t) L) as (_ & Hn & _)%elem_of_missing; [|done].
        rewrite <- tk_items, !elem_of_app. auto.
      + assert (NoDup (missing (needs q k) (t_done t) L)) as Hm by (apply NoDup_filter; by eapply NoDup_fmap_1).
        rewrite <- tk_items, app_assoc in Hm. by apply list.NoDup_app in Hm as (_ & _ & Hm).
    - intros h Hh. assert (started L (q_cache q) h) as (i & r & Hi & Hr).
      { apply elem_of_app in Hh as [[Hd Hin]%list_elem_of_filter|Hf]; [by apply tk_finished|by apply tk_flying]. }
      apply elem_of_take. exists i. split; [done|]. by eapply lookup_lt_Some. }
  apply submseteq_length in Hsub. rewrite length_app, length_take in Hsub. lia.
Qed.

Lemma loop_mono q k p count fuel : forall v e v', reserve_loop q k p count fuel v = Ok (e, v') ->
  (rv_progress v = true -> rv_progress v' = true) /\ (rv_send v <> [] -> rv_send v' <> []).
Proof.
  induction fuel as [|fuel IH]; intros v e v' Hr; simpl in Hr; (destruct (_ && _ && _); [|by simplify_eq]); [done|].
  destruct (prque_Pop _) as [[[h prio] rest]|]; [|done]. destruct (_ || _); [by simplify_eq|]. destruct (isNoop k h); [|destruct (Lacks _ _ _)];
    apply IH in Hr as [Hr1 Hr2]; simpl in *; split; try done; intros Hv; [by apply Hr1|]. apply Hr2. by destruct (rv_send v).
Qed.

(** A peer that lacks nothing gets something to fetch, or empty items are found. *)
Lemma reserve_gives q k p count now request progress q' : reserveHeaders q k p count now = Ok (request, progress, None, q') ->
  0 < count -> t_queue (get_tasks q k) <> [] -> t_pend (get_tasks q k) !! p = None ->
  in_flight (t_pend (get_tasks q k)) < Z.of_nat (length (q_cache q)) - Z.of_nat (size (t_done (get_tasks q k))) ->
  (forall h, Lacks (q_lacking q) p (HeaderHash h) = false) -> request <> None \/ progress = true.
Proof.
  unfold reserveHeaders. intros Hr Hc Hq Hp Hsp Hl. destruct (t_queue (get_tasks q k)) as [|x u] eqn:Hqe; [done|]. unfold prque_Empty in Hr. simpl length in Hr.
  rewrite Hp, (proj2 (Z.ltb_ge _ _)) in Hr by lia. simpl Nat.eqb in Hr. rewrite bool_decide_eq_false_2 in Hr by (by intros []).
  apply outcome_bind_Ok in Hr as ([e v] & Hloop & Hr). simpl in Hloop. rewrite (proj2 (Z.ltb_lt _ _)), (proj2 (Z.ltb_lt _ _)), Hqe in Hloop by lia.
  unfold prque_Empty in Hloop. simpl andb in Hloop. destruct (prque_Pop _) as [[[h prio] rest]|]; [|done].
  destruct e as [e|]; [done|]. destruct (_ || _); [done|]. rewrite Hl in Hloop.
  destruct (isNoop k h); apply loop_mono in Hloop as [Hm1 Hm2]; simpl in *.
  - destruct (rv_send v); simplify_eq; right; by apply Hm1.
  - destruct (rv_send v); simplify_eq; [|by left]. by destruct Hm2.
Qed.

(** ** The promises *)

(** C12: over every run of the download queue from its preparation, with failed reservations
    and with headers of negative numbers, the results returned are those of the headers scheduled, each once and
    in the order of their numbers, with a body (and up to the pivot of a fast sync,
    receipts) that match the roots of the header, and the headers form a chain.  As long as
    no reservation has failed, the queue is idle exactly when all results are returned, and
    in a full sync, once no body is queued or in flight, all that is left is returned (a
    failed reservation loses the headers it has taken from the queue).  Fewer than 2^63
    headers are scheduled, headers of different numbers have different hashes, one of a
    negative number is of a chain below 2^62, and requests are cancelled while they run. *)
Theorem queue_delivers ok q S D (Hstart : 0 <= start < 2 ^ 64) (Hrun : fetch_run ok q S D) : exists L,
  S = (rs_Header <$> D) ++ L /\ (forall i h, S !! i = Some h -> header_NumberU64 h = u64 (start + Z.of_nat i)) /\ linked zeroHash S /\
  Forall (fun r => derive_txs (rs_Transactions r) = Ok (TxRootHash (rs_Header r)) /\
    (mode = FastSync -> header_NumberU64 (rs_Header r) <= pivot -> derive_receipts (rs_Receipts r) = Ok (ReceiptRootHash (rs_Header r)))) D /\
  (ok = true ->
    (Idle q = true <-> L = []) /\
    (mode <> FastSync -> PendingBlocks q = 0%nat -> InFlightBlocks q = false -> L <> [] ->
      exists results q', WaitResults fsHeaderForceVerify q = Some (results, q') /\ rs_Header <$> results = L)).
Proof.
  destruct (run_invariant ok q S D Hstart Hrun) as (lost & L & [] & Hlost). exists L. split_and!; [done..| |].
  - eapply Forall_impl; [exact rn_complete0|]. intros r [H1 H2]. split; [done|]. intros Hm Hp. apply H2. unfold wants_receipts.
    rewrite rn_mode0, rn_pivot0, bool_decide_eq_true_2 by done. simpl. lia.
  - intros Hok. specialize (Hlost Hok). split; [by apply (Idle_iff lost)|].
    intros Hm Hp Hf Hne. rewrite <- rn_mode0 in Hm. pose proof (all_processable lost q L rn_inv0 Hlost Hm Hp Hf) as Hn.
    destruct (WaitResults fsHeaderForceVerify q) as [[results q']|] eqn:Hw.
    + destruct (WaitResults_ok num lost _ q L results q' rn_inv0 Hw) as (Hh & _). exists results, q'. split; [done|]. rewrite Hh, Hn. by apply take_ge.
    + exfalso. unfold WaitResults in Hw. fold (processable fsHeaderForceVerify q) in Hw. rewrite Hn in Hw. by destruct L.
Qed.

Definition throttled q (k : dataKind) : bool := match k with Bodies => ShouldThrottleBlocks q | Receipts => ShouldThrottleReceipts q end.

Lemma run_small lost q S D L : 0 <= start -> run_ok lost q S D L -> start + Z.of_nat (length S) < 2 ^ 24 -> (forall h, h ∈ S -> 0 <= Number h) ->
  small (q_offset q) L /\ forall h, h ∈ L -> 0 <= Number h.
Proof.
  intros Hstart [] Hsmall Hpos. subst S. rewrite length_app, length_fmap in Hsmall. split.
  - rewrite rn_offset0. unfold small, u64. rewrite wrap_small; lia.
  - intros h Hh. apply Hpos, elem_of_app. by right.
Qed.

(** With small numbers that are not negative no reservation fails. *)
Lemma run_never_fails ok q S D : 0 <= start -> fetch_run ok q S D -> start + Z.of_nat (length S) < 2 ^ 24 -> (forall h, h ∈ S -> 0 <= Number h) -> ok = true.
Proof.
  intros Hstart Hrun. induction Hrun as [|? ? ? ? ? ? ? ? IH| | | | | | | | |]; intros Hsmall Hpos; auto.
  - rewrite length_app in Hsmall. apply IH; [lia|]. intros h Hh. apply Hpos, elem_of_app. by left.
  - rename IHHrun into IH. specialize (IH Hsmall Hpos). destruct e as [e|]; [exfalso|done].
    destruct (run_invariant ok q S D ltac:(lia) Hrun) as (lost & L & HL & Hlost). destruct (run_small lost q S D L Hstart HL Hsmall Hpos) as [Hs Hp].
    destruct (run_reserve lost _ _ _ _ _ _ _ _ _ _ _ _ HL H0) as (_ & _ & _ & [?|Hn]); [done|]. apply Hn. split_and!; [done..|by apply Hlost].
Qed.

(** C14: while all numbers are below 2^24 and not negative, no reservation ever runs out of
    the cache of results: it succeeds, what is done and in flight keeps a place in the cache,
    and a peer that lacks nothing and has nothing to do gets something to fetch unless the
    queue is empty or throttled (or some items are empty and done at once). *)
Theorem reservations_fit ok q S D k p count now (Hstart : 0 <= start) (Hrun : fetch_run ok q S D) (Hsmall : start + Z.of_nat (length S) < 2 ^ 24)
    (Hpos : forall h, h ∈ S -> 0 <= Number h) (Hcount : 0 <= count) :
  exists request progress q', reserveHeaders q k p count now = Ok (request, progress, None, q') /\
    (size (t_done (get_tasks q' k)) + length (flying (t_pend (get_tasks q' k))) <= blockCacheLimit)%nat /\
    (0 < count -> t_queue (get_tasks q k) <> [] -> t_pend (get_tasks q k) !! p = None -> throttled q k = false ->
      (forall h, Lacks (q_lacking q) p (HeaderHash h) = false) -> request <> None \/ progress = true).
Proof.
  pose proof (run_never_fails ok q S D Hstart Hrun Hsmall Hpos) as ->.
  destruct (run_invariant true q S D ltac:(lia) Hrun) as (lost & L & HL & Hlost). destruct (run_small lost q S D L Hstart HL Hsmall Hpos) as [Hs Hp].
  destruct HL. destruct (reserve_total num lost q L k p count now rn_inv0 Hcount) as (request & progress & e & q' & Hr & Hf & [(-> & Hi)|(_ & _ & Hn)]).
  2:{ exfalso. apply Hn. split_and!; [done..|by apply Hlost]. }
  exists request, progress, q'. split_and!; [done| |].
  - rewrite <- rn_length0, <- (fr_length _ _ Hf). by apply (room lost q' L).
  - intros Hc Hq Hpd Ht Hl. eapply reserve_gives; eauto. destruct k; apply Z.leb_gt in Ht; simpl; lia.
Qed.

(** C15: a delivery of bodies is taken exactly as far as the roots of the lists match the
    headers of the request; those are done, the other headers of the request go back to the
    queue, and the error says whether something, or nothing, was of use. *)
Theorem bodies_exact ok q S D id request (txLists : list (list Tx)) (Hstart : 0 <= start < 2 ^ 64) (Hrun : fetch_run ok q S D)
    (Hpend : t_pend (q_blocks q) !! id = Some request) : exists roots q',
  Forall2 (fun txs root => derive_txs txs = Ok root) txLists roots /\
  let n := matched Bodies roots (rq_Headers request) in
  DeliverBodies q id txLists = Ok (n, verdict Bodies n (n =? min (length (rq_Headers request)) (length txLists))%nat, q') /\
  t_done (q_blocks q') = t_done (q_blocks q) ∪ list_to_set (HeaderHash <$> take n (rq_Headers request)) /\
  t_pend (q_blocks q') = delete id (t_pend (q_blocks q)) /\
  t_queue (q_blocks q') ≡ₚ ((fun h => (h, - f32 (header_NumberU64 h))) <$> drop n (rq_Headers request)) ++ t_queue (q_blocks q) /\
  fetch_run ok q' S D.
Proof.
  destruct (run_invariant ok q S D Hstart Hrun) as (lost & L & [] & _). destruct (roots_exist txMsgp txLists) as [roots Hroots]. pose proof (Forall2_length _ _ _ Hroots) as Hl.
  destruct (deliver_settled num lost q L Bodies (reconstruct_body txLists) roots id request rn_inv0 Hpend (body_rebuilds _ _ Hroots)) as (q' & Hd & Hi & _ & Hdone & Hp & Hq).
  exists roots, q'. split; [done|]. rewrite <- Hl in Hd. split_and!; [exact Hd|exact Hdone|exact Hp| |by eapply run_DeliverBodies].
  simpl in Hq. rewrite Hq. apply pushes_Permutation. apply (settled_tasks lost q L Bodies rn_inv0).
Qed.

End Run.
End Runs.

(** ** A run for the examples

    Two headers from number 1 on, the second one without transactions. *)

Module FetchToy.

#[local] Existing Instance toyBlockEnv.

Definition txRoot (txs : list Z) : Hash := match derive_txs txs with Ok r => r | _ => [] end.
Definition fetchHeader (number : Z) (parent : Hash) (txs : list Z) : Header :=
  mkHeader parent zeroHash (txRoot txs) emptyRoot [] number 0 zeroAddress (mkConsensusData [] []) 0 0 0.
Definition h1 : Header := fetchHeader 1 (replicate 32 9) [4].
Definition h2 : Header := fetchHeader 2 (HeaderHash h1) [].
Definition fetchNum (x : Hash) : Z := default 0 (x !! 28%nat).

Definition q0 : queue Z := Prepare (newQueue 4) 1 FullSync 0.
Definition q1 : queue Z := (Schedule q0 [h1; h2] 1).2.
Definition q2 : queue Z := match reserveHeaders q1 Bodies "peer" 10 0 with Ok (_, _, _, q) => q | _ => q1 end.
Definition q3 : queue Z := match DeliverBodies q2 "peer" [[4]] with Ok (_, _, q) => q | _ => q2 end.
Definition q4 : list (fetchResult Z) * queue Z := default ([], q3) (WaitResults 24 q3).

Abbreviation toy_run := (fetch_run 4 192 24 1 FullSync 0 fetchNum).

Lemma run1 : toy_run true q1 [h1; h2] [].
Proof.
  apply (run_Schedule 4 192 24 1 FullSync 0 fetchNum true q0 [] [] [h1; h2] [h1; h2] q1 (run_start _ _ _ _ _ _ _)); [|done|vm_compute; reflexivity].
  intros h [->|[->|[]%not_elem_of_nil]%elem_of_cons]%elem_of_cons; (split; [left; by vm_compute|by vm_compute]).
Qed.

Lemma run2 : toy_run true q2 [h1; h2] [].
Proof. apply (run_Reserve _ _ _ _ _ _ _ true q1 _ _ Bodies "peer" 10 0 (Some (mkRequest "peer" 0 [h1] 0)) true None); [exact run1|vm_compute; reflexivity]. Qed.

Lemma run3 : toy_run true q3 [h1; h2] [].
Proof. eapply (run_DeliverBodies _ _ _ _ _ _ _ true q2 _ _ "peer" [[4]] 1 None); [exact run2|vm_compute; reflexivity]. Qed.

Lemma run4 : toy_run true q4.2 [h1; h2] q4.1.
Proof. apply (run_WaitResults _ _ _ _ _ _ _ true q3 _ [] q4.1); [exact run3|vm_compute; reflexivity]. Qed.

(** A header of a negative number, and the reservation that fails on it. *)
Definition negative : Header := fetchHeader (-1) (replicate 32 9) [4].
Definition negativeQueue : queue Z := (Schedule q0 [negative] 1).2.
Definition failedQueue : queue Z := match reserveHeaders negativeQueue Bodies "peer" 10 0 with Ok (_, _, _, q) => q | _ => q0 end.

Abbreviation one_run := (fetch_run 4 192 24 1 FullSync 0 (fun _ => 1)).

Lemma run_negative : one_run true negativeQueue [negative] [].
Proof.
  apply (run_Schedule 4 192 24 1 FullSync 0 (fun _ => 1) true q0 [] [] [negative] [negative] negativeQueue (run_start _ _ _ _ _ _ _)); [|done|vm_compute; reflexivity].
  intros h [->|[]%not_elem_of_nil]%elem_of_cons. split; [right; simpl; lia|by vm_compute].
Qed.

Lemma run_failed : one_run false failedQueue [negative] [].
Proof.
  apply (run_Reserve _ _ _ _ _ _ _ true negativeQueue _ _ Bodies "peer" 10 0 None false (Some errInvalidChain)); [exact run_negative|vm_compute; reflexivity].
Qed.

Lemma queue_delivers_witness :
  (rs_Header <$> q4.1 = [h1; h2] /\ Idle q4.2 = true /\ Forall (fun r => derive_txs (rs_Transactions r) = Ok (TxRootHash (rs_Header r))) q4.1) /\
  header_NumberU64 negative = 1 /\ Idle failedQueue = true.
Proof.
  split.
  - destruct (queue_delivers 4 192 24 1 FullSync 0 fetchNum true q4.2 [h1; h2] q4.1 ltac:(done) run4) as (L & HS & _ & _ & Hc & Hi). destruct (Hi eq_refl) as [Hi' _].
    assert (Idle q4.2 = true) as Hidle by (vm_compute; reflexivity). apply Hi' in Hidle as HL. rewrite HL, app_nil_r in HS.
    split_and!; [by rewrite HS|done|]. eapply Forall_impl; [exact Hc|]. intros r [Hr _]. exact Hr.
  - destruct (queue_delivers 4 192 24 1 FullSync 0 (fun _ => 1) false failedQueue [negative] [] ltac:(done) run_failed) as (L & _ & Hn & _).
    split; [exact (Hn 0%nat negative eq_refl)|vm_compute; reflexivity].
Defined.

Lemma toy_positive : forall h, h ∈ [h1; h2] -> 0 <= Number h.
Proof. intros h [->|[->|[]%not_elem_of_nil]%elem_of_cons]%elem_of_cons; by vm_compute. Qed.

Lemma reservations_fit_witness : exists request progress q', reserveHeaders q1 Bodies "peer" 10 0 = Ok (request, progress, None, q').
Proof.
  destruct (reservations_fit 4 192 24 1 FullSync 0 fetchNum true q1 [h1; h2] [] Bodies "peer" 10 0 ltac:(done) run1 ltac:(done) toy_positive ltac:(done)) as (r & p & q' & Hr & _).
  exists r, p, q'. exact Hr.
Defined.

Lemma bodies_exact_witness : exists n e q', DeliverBodies q2 "peer" [[4]; [5]] = Ok (n, e, q') /\ toy_run true q' [h1; h2] [].
Proof.
  destruct (bodies_exact 4 192 24 1 FullSync 0 fetchNum true q2 [h1; h2] [] "peer" (mkRequest "peer" 0 [h1] 0) [[4]; [5]] ltac:(done) run2 ltac:(vm_compute; reflexivity))
    as (roots & q' & _ & Hd & _ & _ & _ & Hr). eexists _, _, q'. split; [exact Hd|exact Hr].
Defined.

(** ** Where the promises end *)

(** Above 2^24 neighbouring numbers have one priority, and the queue does not keep their
    order: with room for two results the third of three headers comes second.  The
    reservation fails, and the two headers it has popped are in no pool any more. *)
Definition big1 : Header := fetchHeader 16777219 (replicate 32 9) [4].
Definition big2 : Header := fetchHeader 16777220 (HeaderHash big1) [4].
Definition big3 : Header := fetchHeader 16777221 (HeaderHash big2) [4].
Definition bigQueue : queue Z := (Schedule (Prepare (newQueue 2) 16777219 FullSync 0) [big1; big2; big3] 16777219).2.

Lemma large_numbers_fail : exists q', reserveHeaders bigQueue Bodies "peer" 10 0 = Ok (None, false, Some errInvalidChain, q') /\
  (t_queue (q_blocks q')).*1 = [big2] /\ t_pend (q_blocks q') = ∅ /\ t_done (q_blocks q') = ∅ /\ size (t_pool (q_blocks q')) = 3%nat.
Proof. eexists. split; [vm_compute; reflexivity|]. by vm_compute. Qed.

(** [Uint64] drops the sign: a header of a negative number is scheduled as the positive one,
    and every reservation that meets it fails. *)
Lemma negative_number_scheduled : (Schedule q0 [negative] 1).1 = [negative] /\
  exists q', reserveHeaders negativeQueue Bodies "peer" 10 0 = Ok (None, false, Some errInvalidChain, q').
Proof. split; [vm_compute; reflexivity|]. eexists. vm_compute. reflexivity. Qed.

(** A failed reservation leaves a queue that looks idle though nothing was returned. *)
Lemma failed_looks_idle : Idle failedQueue = true /\ WaitResults 24 failedQueue = None.
Proof. by split; vm_compute. Qed.

(** Closing the queue does not empty what it returns. *)
Lemma closed_still_returns : match WaitResults 24 (Close q3) with Some (results, _) => map rs_Header results | None => [] end = [h1; h2].
Proof. vm_compute. reflexivity. Qed.

End FetchToy.
