(* ===== verification/FetchSkeleton.v ===== *)
(** * Filling a skeleton of headers (queue.go)

    The batches between the headers of a skeleton are fetched in any order, from any peers;
    what is handed to the processor is a gapless chain from the first number on, in which
    every batch ends with its header of the skeleton. *)

From stdpp Require Import base list gmap numbers option strings.
From S2P Require Import Prelude Types TrieNode TrieHash StateDB Vm Processor Signing Block Heap Prque FetchQueue FetchInv.
Local Open Scope Z_scope.

Section Fill.
Context {Tx : Type} `{BlockEnv Tx} (MaxHeaderFetch : nat) (from : Z) (skel : list Header).
Abbreviation Q := (queue Tx).
Abbreviation M := MaxHeaderFetch.
Implicit Types (q : Q) (B : list (option (list Header))) (out : list (option Header)).

(** [fill_run q out]: a skeleton is scheduled when no requests for headers are running, and
    [out] was handed to the processor since. *)
Inductive fill_run : Q -> list (option Header) -> Prop :=
| fill_start q q' : q_headerPend q = ∅ -> ScheduleSkeleton M q from skel = Ok q' -> fill_run q' []
| fill_Reserve q out p now r q' : fill_run q out -> ReserveHeaders q p now = Ok (r, q') -> fill_run q' out
| fill_Cancel q out p r q' : fill_run q out -> q_headerPend q !! p = Some r -> CancelHeaders q r = Ok q' -> fill_run q' out
| fill_Expire q out timeout now pool r q' : fill_run q out -> pool ≡ₚ map_to_list (q_headerPend q) ->
    ExpireHeaders q timeout now pool = Ok (r, q') -> fill_run q' out
| fill_Deliver q out id headers sent n e o q' : fill_run q out -> DeliverHeaders M q id headers sent = Ok (n, e, o, q') -> fill_run q' (out ++ o).

(** ** Batches *)

(** The number a batch starts with. *)
Definition index (i : nat) : Z := from + Z.of_nat (i * M).

(** The slots of the results, given the batches that are there. *)
Definition slot (b : option (list Header)) : list (option Header) := match b with Some hs => Some <$> hs | None => replicate M None end.
Definition slots B : list (option Header) := B ≫= slot.

Definition full (b : option (list Header)) : Prop := match b with Some hs => length hs = M | None => True end.

Lemma slots_batches B B' : slots (B ++ B') = slots B ++ slots B'.
Proof. apply bind_app. Qed.

Lemma slot_length b : full b -> length (slot b) = M.
Proof. destruct b as [hs|]; simpl; [by rewrite length_fmap|by rewrite length_replicate]. Qed.

Lemma slots_length B : Forall full B -> length (slots B) = (length B * M)%nat.
Proof. induction 1 as [|b B Hb _ IH]; [done|]. unfold slots in *. rewrite bind_cons, length_app, IH, slot_length by done. simpl. lia. Qed.

(** Slots split at a batch. *)
Lemma slots_split B i : Forall full B -> (i <= length B)%nat -> take (i * M) (slots B) = slots (take i B) /\ drop (i * M) (slots B) = slots (drop i B).
Proof.
  intros HB Hi. rewrite <- (take_drop i B) at 1 3. rewrite slots_batches.
  assert (length (slots (take i B)) = (i * M)%nat) as Hl by (rewrite slots_length, length_take_le; [done|done|by apply Forall_take]).
  rewrite <- Hl. by rewrite take_app_length, drop_app_length.
Qed.

Lemma slots_insert B i hs : Forall full B -> (i < length B)%nat -> length hs = M ->
  take (i * M) (slots B) ++ take (length (slots B) - i * M) (Some <$> hs) ++ drop (i * M + length hs) (slots B) = slots (<[i := Some hs]> B).
Proof.
  intros HB Hi Hl. rewrite insert_take_drop by done. rewrite slots_batches. change (slots (Some hs :: drop (S i) B)) with ((Some <$> hs) ++ slots (drop (S i) B)).
  rewrite Hl, slots_length by done. rewrite (take_ge (Some <$> hs)) by (rewrite length_fmap; nia).
  replace (i * M + M)%nat with (S i * M)%nat by lia.
  by rewrite (proj1 (slots_split B i HB ltac:(lia))), (proj2 (slots_split B (S i) HB ltac:(lia))).
Qed.

(** The batches that are missing. *)
Definition is_open B (i : nat) : bool := match B !! i with Some None => true | _ => false end.
Definition open B : list nat := filter (fun i => is_open B i = true) (seq 0 (length B)).
Definition todo B : list Z := index <$> open B.

Lemma elem_of_open B i : i ∈ open B <-> B !! i = Some None.
Proof.
  unfold open. rewrite list_elem_of_filter, elem_of_seq. unfold is_open. split; [intros [Hi _]; by repeat case_match|].
  intros Hi. pose proof (lookup_lt_Some _ _ _ Hi). rewrite Hi. split; [done|lia].
Qed.

Lemma open_NoDup B : NoDup (open B).
Proof. apply NoDup_filter, NoDup_seq. Qed.

Lemma open_insert B i hs : B !! i = Some None -> open B ≡ₚ i :: open (<[i := Some hs]> B).
Proof.
  intros Hi. apply NoDup_Permutation; [apply open_NoDup|constructor; [|apply open_NoDup]|].
  - rewrite elem_of_open, list_lookup_insert_eq by (by eapply lookup_lt_Some). done.
  - intros j. rewrite elem_of_cons, !elem_of_open, list_lookup_insert. pose proof (lookup_lt_Some _ _ _ Hi). case_decide; naive_solver.
Qed.

(** ** The queue of batches *)

Definition froms (pend : gmap peerId fetchRequest) : list Z := rq_From <$> (map_to_list pend).*2.

Lemma froms_delete pend p r : pend !! p = Some r -> froms pend ≡ₚ rq_From r :: froms (delete p pend).
Proof. intros Hp. unfold froms. by rewrite <- (map_to_list_delete pend p r Hp). Qed.

Lemma froms_insert pend p r : pend !! p = None -> froms (<[p := r]> pend) ≡ₚ rq_From r :: froms pend.
Proof. intros Hp. unfold froms. by rewrite (map_to_list_insert pend p r Hp). Qed.

Lemma push_index_ok u x : prque_ok u -> prque_ok (push_index u x) /\ (push_index u x).*1 ≡ₚ x :: u.*1.
Proof. intros Hu. destruct (prque_Push_ok u x (- f32 x) Hu) as [Ho Hp]. split; [done|]. unfold push_index. by rewrite Hp. Qed.

Lemma push_indexes_ok l : forall u, prque_ok u -> prque_ok (foldl push_index u l) /\ (foldl push_index u l).*1 ≡ₚ l ++ u.*1.
Proof.
  induction l as [|x l IH]; intros u Hu; [done|]. destruct (push_index_ok u x Hu) as [Ho Hp]. destruct (IH _ Ho) as [Ho' Hp']. split; [done|].
  simpl. rewrite Hp', Hp. symmetry. apply Permutation_middle.
Qed.

Lemma pick_index_ok fuel miss : forall (u : list (Z * Z)) skip, prque_ok u -> (length u <= fuel)%nat -> Forall (fun x => 0 < x) u.*1 ->
  exists send skip' u', pick_index fuel miss u skip = Ok (send, skip', u') /\ prque_ok u' /\
    skip ++ u.*1 ≡ₚ (if send =? 0 then [] else [send]) ++ skip' ++ u'.*1.
Proof.
  induction fuel as [|fuel IH]; intros u skip Hu Hf Hpos; (destruct u as [|x0 u0] eqn:Hue; [exists 0, skip, []; by rewrite app_nil_r|]); [simpl in Hf; lia|].
  rewrite <- Hue in *. assert (u <> []) as Hne by (by rewrite Hue). destruct (prque_Pop_ok u Hu Hne) as ([x prio] & rest & Hpop & Hok & Hperm & _).
  unfold pick_index; fold pick_index. unfold prque_Empty. rewrite (proj2 (Nat.eqb_neq _ _)) by (rewrite Hue; simpl; lia). rewrite Hpop.
  assert (u.*1 ≡ₚ x :: rest.*1) as Hu1 by (by rewrite Hperm). rewrite Hu1 in Hpos. apply Forall_cons in Hpos as [Hx Hpos].
  assert (S (length rest) = length u) as Hlen by (by rewrite Hperm).
  case_bool_decide.
  - destruct (IH rest (skip ++ [x]) Hok ltac:(lia) Hpos) as (send & skip' & u' & Hp & Hok' & Hperm'). exists send, skip', u'. split_and!; [done..|].
    rewrite <- Hperm', Hu1, <- app_assoc. done.
  - rewrite (proj2 (Z.eqb_neq x 0)) by lia. exists x, skip, rest. split_and!; [done..|]. rewrite (proj2 (Z.eqb_neq x 0)) by lia. rewrite Hu1.
    simpl. symmetry. apply Permutation_middle.
Qed.

(** ** The invariant *)

Record fill_ok q out B (sk : skeleton) (m : nat) : Prop := {
  fl_batches : length B = length skel;
  fl_offset : q_headerOffset q = from;
  fl_results : q_headerResults q = Some (slots B);
  fl_accepted i hs : B !! i = Some (Some hs) -> exists target, skel !! i = Some target /\ batch_accepted M (index i) (HeaderHash target) hs = true;
  fl_skeleton : q_skeleton q = Some sk;
  fl_heap : prque_ok (k_queue sk);
  fl_items : (k_queue sk).*1 ++ froms (q_headerPend q) ≡ₚ todo B;
  fl_pool x h : k_pool sk !! x = Some h <-> exists i, x = index i /\ B !! i = Some None /\ skel !! i = Some h;
  fl_peers p r : q_headerPend q !! p = Some r -> rq_Peer r = p;
  fl_proced : q_headerProced q = (m * M)%nat;
  fl_front i : (i < m)%nat -> exists hs, B !! i = Some (Some hs);
  fl_out : out = take (m * M) (slots B);
  fl_cont : q_headerCont q = if (0 <? length B)%nat && (length (open B) =? 0)%nat then 1%nat else 0%nat;
}.

Context (HM : (0 < M)%nat) (Hfrom : 0 < from) (Hend : index (length skel) <= 2 ^ 64).

Lemma accepted_length x target hs : batch_accepted M x target hs = true -> length hs = M.
Proof. unfold batch_accepted. by intros [Hl%Nat.eqb_eq _]%andb_true_iff. Qed.

Lemma fill_full q out B sk m : fill_ok q out B sk m -> Forall full B.
Proof.
  intros []. apply Forall_forall. intros [hs|] Hb; [|done]. apply list_elem_of_lookup in Hb as [i Hi]. destruct (fl_accepted0 i hs Hi) as (t & _ & Ha).
  by apply accepted_length in Ha.
Qed.

Lemma index_inj i j : index i = index j -> i = j.
Proof. unfold index. intros He. assert ((i * M)%nat = (j * M)%nat) by lia. nia. Qed.

Lemma todo_elem B x : x ∈ todo B <-> exists i, x = index i /\ B !! i = Some None.
Proof. unfold todo. rewrite list_elem_of_fmap. by setoid_rewrite elem_of_open. Qed.

Lemma todo_positive B x : x ∈ todo B -> 0 < x.
Proof. intros (i & -> & _)%todo_elem. unfold index. lia. Qed.

Lemma queued_positive q out B sk m : fill_ok q out B sk m -> Forall (fun x => 0 < x) (k_queue sk).*1.
Proof. intros []. apply Forall_forall. intros x Hx. apply (todo_positive B). rewrite <- fl_items0. apply elem_of_app. by left. Qed.

(** ** Scheduling *)

Definition add_batch (sk : skeleton) (x : Z * Header) : skeleton := mkSkeleton (<[x.1 := x.2]> (k_pool sk)) (push_index (k_queue sk) x.1) (k_miss sk).

Lemma add_batches l : forall sk, foldl add_batch sk l =
  mkSkeleton (foldl (fun pool x => <[x.1 := x.2]> pool) (k_pool sk) l) (foldl push_index (k_queue sk) l.*1) (k_miss sk).
Proof. induction l as [|x l IH]; intros sk; [by destruct sk|]. simpl. by rewrite IH. Qed.

Lemma pool_lookup (l : list (Z * Header)) x h : NoDup l.*1 ->
  foldl (fun pool x => <[x.1 := x.2]> pool) (∅ : gmap Z Header) l !! x = Some h <-> (x, h) ∈ l.
Proof.
  induction l as [|[y g] l IH] using rev_ind; intros Hnd; [simpl; by rewrite elem_of_nil|].
  rewrite fmap_app in Hnd. apply list.NoDup_app in Hnd as (Hnd & Hy & _). rewrite foldl_app. simpl. rewrite elem_of_app, list_elem_of_singleton, lookup_insert_Some, IH by done.
  split; [intros [[-> ->]|[_ Hin]]; [by right|by left]|]. intros [Hin|[= -> ->]]; [right; split; [|done]|by left].
  intros ->. apply (Hy x); [by apply (list_elem_of_fmap_2 fst _ (x, h))|by left].
Qed.

Definition indexed : list (Z * Header) := imap (fun i h => (u64 (from + Z.of_nat (i * M)), h)) skel.

Lemma index_u64 i : (i < length skel)%nat -> u64 (from + Z.of_nat (i * M)) = index i.
Proof.
  intros Hi. unfold u64, index in *. apply wrap_small. assert (i * M < length skel * M)%nat by nia. lia.
Qed.

Lemma indexed_elem x h : (x, h) ∈ indexed <-> exists i, x = index i /\ skel !! i = Some h.
Proof.
  unfold indexed. rewrite list_elem_of_lookup. setoid_rewrite list_lookup_imap_Some. split.
  - intros (i & h' & Hi & [= -> ->]). exists i. split; [|done]. apply index_u64. by eapply lookup_lt_Some.
  - intros (i & -> & Hi). exists i, h. split; [done|]. f_equal. symmetry. apply index_u64. by eapply lookup_lt_Some.
Qed.

Lemma indexed_fst : indexed.*1 = index <$> seq 0 (length skel).
Proof.
  apply list_eq. intros i. rewrite !list_lookup_fmap. unfold indexed. rewrite list_lookup_imap. destruct (skel !! i) as [h|] eqn:Hi; simpl.
  - pose proof (lookup_lt_Some _ _ _ Hi). rewrite lookup_seq_lt by done. simpl. f_equal. by apply index_u64.
  - apply lookup_ge_None in Hi. rewrite lookup_seq_ge by done. done.
Qed.

Lemma open_none n : open (replicate n None) = seq 0 n.
Proof.
  unfold open. rewrite length_replicate. apply filter_all. intros i [_ Hi]%elem_of_seq. unfold is_open. by rewrite lookup_replicate_2.
Qed.

Lemma slots_none n : slots (replicate n None) = replicate (n * M) None.
Proof. unfold slots. induction n as [|n IH]; [done|]. rewrite (replicate_S n), bind_cons, IH. symmetry. apply replicate_add. Qed.

Lemma schedule_ok q q' : q_headerPend q = ∅ -> ScheduleSkeleton M q from skel = Ok q' -> exists sk, fill_ok q' [] (replicate (length skel) None) sk 0.
Proof.
  intros Hp Hs. unfold ScheduleSkeleton in Hs. destruct (q_headerResults q); [done|]. simplify_eq. fold indexed.
  change (foldl _ _ _) with (foldl add_batch (mkSkeleton ∅ [] ∅) indexed). rewrite add_batches. eexists.
  assert (NoDup indexed.*1) as Hnd.
  { rewrite indexed_fst. apply NoDup_fmap_2_strong; [|apply NoDup_seq]. intros i j _ _. apply index_inj. }
  destruct (push_indexes_ok indexed.*1 [] prque_nil) as [Hok Hperm].
  split; simpl; try done.
  - apply length_replicate.
  - f_equal. symmetry. apply slots_none.
  - intros i hs [Hi _]%lookup_replicate. done.
  - rewrite Hp. change (froms ∅) with (@nil Z). rewrite Hperm, !app_nil_r, indexed_fst. unfold todo. by rewrite open_none.
  - intros x h. etrans; [exact (pool_lookup indexed x h Hnd)|]. rewrite indexed_elem. split; intros (i & -> & Hi); exists i.
    + split_and!; [done| |done]. apply lookup_replicate_2. by eapply lookup_lt_Some.
    + by destruct Hi.
  - by intros p r Hr; rewrite Hp in Hr.
  - intros i Hi. lia.
  - rewrite open_none, length_seq, length_replicate. by destruct (length skel).
Qed.

(** ** Reserving and taking back *)

Definition with_queue (sk : skeleton) (u : list (Z * Z)) : skeleton := mkSkeleton (k_pool sk) u (k_miss sk).

(** A step that moves batches between the queue and the requests. *)
Lemma fill_move q out B sk m u pend : fill_ok q out B sk m -> prque_ok u -> u.*1 ++ froms pend ≡ₚ (k_queue sk).*1 ++ froms (q_headerPend q) ->
  (forall p r, pend !! p = Some r -> rq_Peer r = p) ->
  fill_ok (set_headers q (Some (with_queue sk u)) pend (q_headerResults q) (q_headerProced q) (q_headerOffset q) (q_headerCont q)) out B (with_queue sk u) m.
Proof. intros [] Hu Hp Hpe. split; simpl; try done. by rewrite Hp. Qed.

Lemma reserve_headers_ok q out B sk m p now : fill_ok q out B sk m -> exists r q' sk',
  ReserveHeaders q p now = Ok (r, q') /\ fill_ok q' out B sk' m.
Proof.
  intros Hq. pose proof (queued_positive _ _ _ _ _ Hq) as Hpos. unfold ReserveHeaders. rewrite (fl_skeleton _ _ _ _ _ Hq). case_bool_decide as Hp; [by eexists _, _, sk|].
  apply eq_None_not_Some in Hp.
  destruct (pick_index_ok (length (k_queue sk)) (default ∅ (k_miss sk !! p)) (k_queue sk) [] (fl_heap _ _ _ _ _ Hq) ltac:(done) Hpos) as (send & skip & u & -> & Hok & Hperm).
  simpl. destruct (push_indexes_ok skip u Hok) as [Hok' Hperm']. eexists _, _, _. split; [done|]. apply fill_move; [done|done| |].
  - rewrite Hperm'. simpl in Hperm. rewrite Hperm. destruct (send =? 0); [done|]. rewrite (froms_insert _ _ _ Hp). simpl.
    symmetry. apply Permutation_middle.
  - intros p' r. destruct (send =? 0); [by apply Hq|]. intros [[<- <-]|[_ Hr]]%lookup_insert_Some; [done|by apply (fl_peers _ _ _ _ _ Hq)].
Qed.

Lemma pending_positive q out B sk m p r : fill_ok q out B sk m -> q_headerPend q !! p = Some r -> 0 < rq_From r.
Proof.
  intros Hq Hp. apply (todo_positive B). rewrite <- (fl_items _ _ _ _ _ Hq), (froms_delete _ _ _ Hp). apply elem_of_app. right. by left.
Qed.

Lemma cancel_headers_ok q out B sk m p r : fill_ok q out B sk m -> q_headerPend q !! p = Some r -> exists q' sk', CancelHeaders q r = Ok q' /\ fill_ok q' out B sk' m.
Proof.
  intros Hq Hp. pose proof (pending_positive _ _ _ _ _ _ _ Hq Hp) as Hpos. unfold CancelHeaders, back_index. rewrite (fl_skeleton _ _ _ _ _ Hq), (proj2 (Z.ltb_lt _ _) Hpos).
  destruct (push_index_ok (k_queue sk) (rq_From r) (fl_heap _ _ _ _ _ Hq)) as [Hok Hperm]. simpl. eexists _, _. split; [done|].
  rewrite (fl_peers _ _ _ _ _ Hq _ _ Hp). apply fill_move; [done|done| |].
  - rewrite Hperm, (froms_delete _ _ _ Hp). simpl. apply Permutation_middle.
  - intros p' r' [_ Hr]%lookup_delete_Some. by apply (fl_peers _ _ _ _ _ Hq).
Qed.

Lemma back_indexes_ok old : forall sk pend, NoDup old.*1 -> (forall p r, (p, r) ∈ old -> pend !! p = Some r /\ 0 < rq_From r) -> prque_ok (k_queue sk) ->
  exists u, back_indexes (Some sk) old = Ok (Some (with_queue sk u)) /\ prque_ok u /\ u.*1 ++ froms (drop_expired pend old) ≡ₚ (k_queue sk).*1 ++ froms pend.
Proof.
  induction old as [|[p r] old IH]; intros sk pend Hnd Hold Hu; [exists (k_queue sk); split; [by destruct sk|done]|].
  apply list.NoDup_cons in Hnd as [Hp Hnd]. destruct (Hold p r (list_elem_of_here _ _)) as [Hpr Hpos]. simpl. unfold back_index. rewrite (proj2 (Z.ltb_lt _ _) Hpos). simpl.
  destruct (push_index_ok (k_queue sk) (rq_From r) Hu) as [Hok Hperm].
  destruct (IH (with_queue sk (push_index (k_queue sk) (rq_From r))) (delete p pend) Hnd) as (u & Hb & Hok' & Hperm'); [|done|].
  - intros p' r' Hin. rewrite lookup_delete_ne; [apply Hold; by right|]. intros <-. apply Hp. by apply (list_elem_of_fmap_2 fst _ (p, r')).
  - exists u. split_and!; [exact Hb|done|]. simpl. rewrite Hperm'. simpl. rewrite Hperm, (froms_delete _ _ _ Hpr). simpl. apply Permutation_middle.
Qed.

Lemma expire_headers_ok q out B sk m timeout now pool : fill_ok q out B sk m -> pool ≡ₚ map_to_list (q_headerPend q) ->
  exists r q' sk', ExpireHeaders q timeout now pool = Ok (r, q') /\ fill_ok q' out B sk' m.
Proof.
  intros Hq Hpool. unfold ExpireHeaders. rewrite (fl_skeleton _ _ _ _ _ Hq).
  assert (forall p r, (p, r) ∈ expired timeout now pool -> q_headerPend q !! p = Some r) as Hin.
  { intros p r [_ Hin]%list_elem_of_filter. rewrite Hpool in Hin. by apply elem_of_map_to_list. }
  destruct (back_indexes_ok (expired timeout now pool) sk (q_headerPend q)) as (u & -> & Hok & Hperm); [| |apply Hq|].
  - eapply sublist_NoDup; [|apply fmap_sublist, sublist_filter]. rewrite Hpool. apply NoDup_fst_map_to_list.
  - intros p r Hpr. split; [by apply Hin|]. eapply pending_positive; [done|by apply Hin].
  - simpl. eexists _, _, _. split; [done|]. apply fill_move; [done..|]. intros p r Hr. apply (fl_peers _ _ _ _ _ Hq).
    revert Hr. generalize (q_headerPend q) (expired timeout now pool). clear. intros pend old. revert pend. induction old as [|x old IH]; intros pend Hr; [done|].
    apply IH in Hr. by apply lookup_delete_Some in Hr as [_ Hr].
Qed.

(** ** Delivering *)

Lemma slots_at B i : Forall full B -> (i <= length B)%nat -> slots B !! (i * M)%nat = match B !! i with Some (Some hs) => Some <$> hs !! 0%nat | Some None => Some None | None => None end.
Proof.
  intros HB Hi. rewrite <- (Nat.add_0_r (i * M)), <- lookup_drop, (proj2 (slots_split B i HB Hi)). destruct (B !! i) as [b|] eqn:Hb.
  - rewrite (drop_S _ _ _ Hb). change (slots (b :: drop (S i) B)) with (slot b ++ slots (drop (S i) B)).
    pose proof (slot_length b (proj1 (List.Forall_forall _ _) HB b ltac:(apply list_elem_of_In, list_elem_of_lookup; eauto))) as Hl.
    rewrite lookup_app_l by lia. destruct b as [hs|]; simpl; [by rewrite list_lookup_fmap|]. by apply lookup_replicate_2.
  - apply lookup_ge_None in Hb. by rewrite drop_ge.
Qed.

(** The batches there are from [m] on. *)
Lemma count_ready_ok B m : Forall full B -> (m <= length B)%nat -> forall fuel k, (m + k <= length B)%nat -> (length B - (m + k) <= fuel)%nat ->
  (forall i, (m <= i < m + k)%nat -> exists hs, B !! i = Some (Some hs)) ->
  exists k', count_ready M fuel (slots B) (m * M) (k * M) = (k' * M)%nat /\ (m + k' <= length B)%nat /\
    (forall i, (m <= i < m + k')%nat -> exists hs, B !! i = Some (Some hs)) /\ (forall hs, B !! (m + k')%nat <> Some (Some hs)).
Proof.
  intros HB Hm. induction fuel as [|fuel IH]; intros k Hk Hf Hall.
  { exists k. split_and!; [done|lia|done|]. intros hs Hb%lookup_lt_Some. lia. }
  simpl.
  replace (m * M + k * M)%nat with ((m + k) * M)%nat by lia. rewrite slots_at by done. destruct (B !! (m + k)%nat) as [[hs|]|] eqn:Hb.
  - assert (exists h, hs !! 0%nat = Some h) as [h Hh].
    { apply lookup_lt_is_Some_2. enough (length hs = M) by lia.
      apply (proj1 (List.Forall_forall _ _) HB (Some hs)), list_elem_of_In, list_elem_of_lookup. eauto. }
    rewrite Hh. simpl. replace (k * M + M)%nat with (S k * M)%nat by lia. pose proof (lookup_lt_Some _ _ _ Hb).
    apply IH; [lia|lia|]. intros i Hi. destruct (decide (i = m + k)%nat) as [->|]; [by eauto|]. apply Hall. lia.
  - exists k. split_and!; [done|lia|done|]. intros hs. congruence.
  - exists k. split_and!; [done|lia|done|]. intros hs. congruence.
Qed.

Definition miss_batch (sk : skeleton) (id : peerId) (x : Z) : gmap peerId (gset Z) := <[id := {[x]} ∪ default ∅ (k_miss sk !! id)]> (k_miss sk).

Lemma deliver_rejected q out B sk m id r : fill_ok q out B sk m -> q_headerPend q !! id = Some r ->
  let sk' := mkSkeleton (k_pool sk) (push_index (k_queue sk) (rq_From r)) (miss_batch sk id (rq_From r)) in
  fill_ok (set_headers q (Some sk') (delete id (q_headerPend q)) (q_headerResults q) (q_headerProced q) (q_headerOffset q) (q_headerCont q)) out B sk' m.
Proof.
  intros Hq Hp. destruct (push_index_ok (k_queue sk) (rq_From r) (fl_heap _ _ _ _ _ Hq)) as [Hok Hperm]. destruct Hq. split; simpl; try done.
  - rewrite <- fl_items0, Hperm, (froms_delete _ _ _ Hp). simpl. apply Permutation_middle.
  - intros p' r' [_ Hr]%lookup_delete_Some. by apply fl_peers0.
Qed.

(** The batch of a request is missing. *)
Lemma request_batch q out B sk m id r : fill_ok q out B sk m -> q_headerPend q !! id = Some r ->
  exists i target, rq_From r = index i /\ B !! i = Some None /\ skel !! i = Some target /\ k_pool sk !! rq_From r = Some target.
Proof.
  intros Hq Hp. assert (rq_From r ∈ todo B) as (i & Hi & Hb)%todo_elem.
  { rewrite <- (fl_items _ _ _ _ _ Hq), (froms_delete _ _ _ Hp). apply elem_of_app. right. by left. }
  pose proof (lookup_lt_Some _ _ _ Hb) as Hlt. rewrite (fl_batches _ _ _ _ _ Hq) in Hlt. destruct (lookup_lt_is_Some_2 skel i Hlt) as [target Ht].
  exists i, target. split_and!; try done. apply (fl_pool _ _ _ _ _ Hq). eauto.
Qed.

(** The pool is empty when no batch is missing. *)
Lemma pool_size B (pool : gmap Z Header) : length B = length skel ->
  (forall x h, pool !! x = Some h <-> exists i, x = index i /\ B !! i = Some None /\ skel !! i = Some h) -> (size pool = 0)%nat <-> open B = [].
Proof.
  intros Hl Hpool. rewrite map_size_empty_iff. split.
  - intros Hp. apply elem_of_nil_inv. intros i Hi%elem_of_open. pose proof (lookup_lt_Some _ _ _ Hi) as Hlt. rewrite Hl in Hlt.
    destruct (lookup_lt_is_Some_2 skel i Hlt) as [h Hh]. assert (pool !! index i = Some h) as Hk by (apply Hpool; eauto).
    rewrite Hp in Hk. done.
  - intros Ho. apply map_empty. intros x. apply eq_None_not_Some. intros [h (i & _ & Hi & _)%Hpool]. apply elem_of_open in Hi. rewrite Ho in Hi.
    by apply not_elem_of_nil in Hi.
Qed.

Lemma pool_delete B (pool : gmap Z Header) i hs : B !! i = Some None ->
  (forall x h, pool !! x = Some h <-> exists i, x = index i /\ B !! i = Some None /\ skel !! i = Some h) ->
  (forall x h, delete (index i) pool !! x = Some h <-> exists j, x = index j /\ <[i := Some hs]> B !! j = Some None /\ skel !! j = Some h).
Proof.
  intros Hi Hpool x h. pose proof (lookup_lt_Some _ _ _ Hi). rewrite lookup_delete_Some, Hpool. setoid_rewrite list_lookup_insert. split.
  - intros (Hne & j & -> & Hj & Hh). exists j. split_and!; [done| |done]. rewrite decide_False; [done|]. intros [-> _]. done.
  - intros (j & -> & Hj & Hh). case_decide as Hc; [done|]. split; [|by eauto]. intros He%index_inj. subst. by apply Hc.
Qed.

(** The front is the same when a later batch comes. *)
Lemma front_insert B m i hs : Forall full B -> full (Some hs) -> (m <= i)%nat -> (i < length B)%nat -> take (m * M) (slots (<[i := Some hs]> B)) = take (m * M) (slots B).
Proof.
  intros HB Hh Hm Hi. assert (Forall full (<[i := Some hs]> B)) as HB' by (by apply Forall_insert).
  rewrite (proj1 (slots_split _ m HB' ltac:(rewrite length_insert; lia))), (proj1 (slots_split B m HB ltac:(lia))). by rewrite take_insert_ge.
Qed.

Lemma deliver_accepted q out B sk m id r i target headers sent : fill_ok q out B sk m -> q_headerPend q !! id = Some r ->
  rq_From r = index i -> B !! i = Some None -> skel !! i = Some target -> batch_accepted M (index i) (HeaderHash target) headers = true ->
  exists o q' sk' m', DeliverHeaders M q id headers sent = Ok (length headers, None, o, q') /\
    fill_ok q' (out ++ o) (<[i := Some headers]> B) sk' m'.
Proof.
  intros Hq Hp Hr Hi Ht Ha. pose proof (fill_full _ _ _ _ _ Hq) as HB. pose proof (accepted_length _ _ _ Ha) as Hl. pose proof (lookup_lt_Some _ _ _ Hi) as Hlt.
  assert (k_pool sk !! index i = Some target) as Hk by (apply (fl_pool _ _ _ _ _ Hq); eauto).
  destruct Hq. unfold DeliverHeaders. rewrite Hp, fl_skeleton0, Hr, Hk. simpl. rewrite Ha, fl_results0, fl_offset0. simpl.
  replace (Z.to_nat (u64 (index i - from))) with (i * M)%nat.
  2:{ unfold index in *. replace (from + Z.of_nat (i * M) - from) with (Z.of_nat (i * M)) by lia. unfold u64. rewrite wrap_small; [lia|].
      assert (i * M < length skel * M)%nat by nia. lia. }
  rewrite (proj2 (Nat.ltb_ge _ _)) by (rewrite slots_length by done; nia). rewrite slots_insert by done. set (B' := <[i := Some headers]> B).
  assert (length B' = length B) as HlB by apply length_insert. assert (Forall full B') as HB' by (apply Forall_insert; done).
  assert (m <= i)%nat as Hmi. { destruct (decide (m <= i)%nat) as [|Hgt]; [done|]. destruct (fl_front0 i ltac:(lia)) as [hs Hhs]. congruence. }
  destruct (count_ready_ok B' m HB' ltac:(lia) (length (slots B')) 0) as (k' & Hcr & Hk1 & Hk2 & _); [lia|rewrite slots_length by done; nia|intros j Hj; lia|].
  rewrite fl_proced0. simpl in Hcr. rewrite Hcr. rewrite (proj2 (Nat.ltb_ge _ _)) by (rewrite slots_length by done; nia).
  assert (open B <> []) as Hopen by (intros Ho; apply (not_elem_of_nil (A := nat) i); rewrite <- Ho; by apply elem_of_open).
  assert (q_headerCont q = 0%nat) as Hc0 by (rewrite fl_cont0; destruct (open B); [done|]; by rewrite andb_false_r).
  rewrite Hc0. rewrite andb_false_r. eexists _, _, _, (if (0 <? k' * M)%nat && sent then m + k' else m)%nat. split; [done|].
  pose proof (pool_delete B (k_pool sk) i headers Hi fl_pool0) as Hpool'.
  split; simpl; try done.
  - by rewrite HlB.
  - intros j hs. unfold B'. rewrite list_lookup_insert. case_decide as Hc; [|by apply fl_accepted0]. destruct Hc as [-> _]. intros [= <-]. eauto.
  - apply (Permutation_cons_inv (a := index i)). rewrite Permutation_middle, <- Hr, <- (froms_delete _ _ _ Hp), fl_items0, Hr. unfold todo.
    by rewrite (open_insert B i headers Hi).
  - intros p' r' [_ Hr']%lookup_delete_Some. by apply fl_peers0.
  - destruct (_ && sent); lia.
  - intros j Hj. destruct (decide (j < m)%nat) as [Hjm|Hjm].
    + destruct (fl_front0 j Hjm) as [hs Hhs]. exists hs. unfold B'. rewrite list_lookup_insert_ne by lia. done.
    + apply Hk2. destruct (_ && sent); lia.
  - rewrite fl_out0, <- (front_insert B m i headers) by (done || lia). fold B'. destruct (_ && sent); [|by rewrite app_nil_r].
    replace ((m + k') * M)%nat with (m * M + k' * M)%nat by lia. by rewrite take_take_drop.
  - rewrite HlB, (proj2 (Nat.ltb_lt 0 (length B))) by lia. simpl. pose proof (pool_size B' _ ltac:(by rewrite HlB) Hpool') as Hsz.
    destruct (Nat.eqb_spec (size (delete (index i) (k_pool sk))) 0) as [Hz|Hz], (Nat.eqb_spec (length (open B')) 0) as [Ho|Ho]; try done.
    + apply Hsz in Hz. by rewrite Hz in Ho.
    + apply nil_length_inv in Ho. by apply Hsz in Ho.
Qed.

Lemma deliver_headers_ok q out B sk m id headers sent : fill_ok q out B sk m -> exists n e o q' B' sk' m',
  DeliverHeaders M q id headers sent = Ok (n, e, o, q') /\ fill_ok q' (out ++ o) B' sk' m'.
Proof.
  intros Hq. destruct (q_headerPend q !! id) as [r|] eqn:Hp.
  2:{ unfold DeliverHeaders. rewrite Hp. eexists _, _, [], q, B, sk, m. rewrite app_nil_r. split; [|done]. by destruct (q_skeleton q). }
  destruct (request_batch _ _ _ _ _ _ _ Hq Hp) as (i & target & Hr & Hi & Ht & Hk).
  destruct (batch_accepted M (index i) (HeaderHash target) headers) eqn:Ha.
  - destruct (deliver_accepted q out B sk m id r i target headers sent) as (o & q' & sk' & m' & Hd & Hq'); [done..|]. by eexists _, _, o, q', _, sk', m'.
  - unfold DeliverHeaders. rewrite Hp, (fl_skeleton _ _ _ _ _ Hq), Hk. simpl. rewrite Hr, Ha. eexists _, _, [], _, B, _, m. rewrite app_nil_r. split; [done|].
    pose proof (deliver_rejected _ _ _ _ _ _ _ Hq Hp) as Hq'. by rewrite Hr in Hq'.
Qed.

Lemma fill_invariant q out : fill_run q out -> exists B sk m, fill_ok q out B sk m.
Proof.
  induction 1 as [q q' Hp Hs|q out p now r q' _ (B & sk & m & Hq) Hr|q out p r q' _ (B & sk & m & Hq) Hp Hc|q out timeout now pool r q' _ (B & sk & m & Hq) Hp He
    |q out id headers sent n e o q' _ (B & sk & m & Hq) Hd].
  - destruct (schedule_ok _ _ Hp Hs) as [sk Hsk]. by eexists _, _, _.
  - destruct (reserve_headers_ok _ _ _ _ _ p now Hq) as (? & ? & sk' & Hr' & Hq'). rewrite Hr' in Hr. simplify_eq. by eexists _, _, _.
  - destruct (cancel_headers_ok _ _ _ _ _ p r Hq Hp) as (? & sk' & Hr' & Hq'). rewrite Hr' in Hc. simplify_eq. by eexists _, _, _.
  - destruct (expire_headers_ok _ _ _ _ _ timeout now pool Hq Hp) as (? & ? & sk' & Hr' & Hq'). rewrite Hr' in He. simplify_eq. by eexists _, _, _.
  - destruct (deliver_headers_ok _ _ _ _ _ id headers sent Hq) as (? & ? & ? & ? & B' & sk' & m' & Hd' & Hq'). rewrite Hd' in Hd. simplify_eq. by eexists _, _, _.
Qed.

(** ** What a batch is *)

Record batch (x : Z) (target : Hash) (hs : list Header) : Prop := {
  bt_length : length hs = M;
  bt_number j h : hs !! j = Some h -> header_NumberU64 h = x + Z.of_nat j;
  bt_link j a b : hs !! j = Some a -> hs !! S j = Some b -> ParentHash b = HeaderHash a;
  bt_last : HeaderHash <$> last hs = Some target;
}.

Lemma batch_linked_ok hs : forall prev want, batch_linked prev want hs = true -> 0 <= want -> want + Z.of_nat (length hs) <= 2 ^ 64 ->
  (forall j h, hs !! j = Some h -> header_NumberU64 h = want + Z.of_nat j) /\
  (forall j a b, (prev :: hs) !! j = Some a -> hs !! j = Some b -> ParentHash b = HeaderHash a).
Proof.
  induction hs as [|h hs IH]; intros prev want Hb H0 Hw; [split; intros; done|]. simpl in Hb, Hw.
  apply andb_true_iff in Hb as [[Hn%Z.eqb_eq Hl%bool_decide_eq_true]%andb_true_iff Hb].
  destruct (decide (hs = [])) as [->|Hne].
  { split; [intros [|j] x Hx; simplify_eq/=; lia|]. intros [|j] a b Ha Hb'; simplify_eq/=. done. }
  assert (u64 (want + 1) = want + 1) as Hu by (unfold u64; apply wrap_small; destruct hs; [done|simpl in *; lia]). rewrite Hu in Hb.
  destruct (IH h (want + 1) Hb ltac:(lia) ltac:(lia)) as [Hnum Hlink]. split.
  - intros [|j] x Hx; simplify_eq/=; [lia|]. rewrite (Hnum j x Hx). lia.
  - intros [|j] a b Ha Hb'; simplify_eq/=; [done|by eapply Hlink].
Qed.

Lemma accepted_batch x target hs : 0 <= x -> x + Z.of_nat M <= 2 ^ 64 -> batch_accepted M x target hs = true -> batch x target hs.
Proof.
  intros H0 Hx Ha. pose proof (accepted_length _ _ _ Ha) as Hl. unfold batch_accepted in Ha. apply andb_true_iff in Ha as [_ Ha].
  destruct hs as [|h hs]; [done|]. destruct (last (h :: hs)) as [final|] eqn:Hlast; [|done].
  apply andb_true_iff in Ha as [[Hn%Z.eqb_eq Ht%bool_decide_eq_true]%andb_true_iff Hb]. simpl in Hl.
  destruct (decide (hs = [])) as [->|Hne]; [split; [done| | |by rewrite Hlast, <- Ht]; [intros [|j] y Hy; simplify_eq/=; lia|intros [|j] a b Ha Hb'; done]|].
  assert (u64 (x + 1) = x + 1) as Hu by (unfold u64; apply wrap_small; destruct hs; [done|simpl in *; lia]). rewrite Hu in Hb.
  destruct (batch_linked_ok hs h (x + 1) Hb ltac:(lia) ltac:(lia)) as [Hnum Hlink]. split; [done| | |by rewrite Hlast, <- Ht].
  - intros [|j] y Hy; simplify_eq/=; [lia|]. rewrite (Hnum j y Hy). lia.
  - intros j a b Hj Hb'. by eapply Hlink.
Qed.

Lemma all_there B : (forall i, (i < length B)%nat -> exists hs, B !! i = Some (Some hs)) -> exists l, B = Some <$> l.
Proof.
  induction B as [|b B IH]; intros Hall; [by exists []|]. destruct (Hall 0%nat ltac:(simpl; lia)) as [hs [= ->]].
  destruct IH as [l ->]; [intros i Hi; apply (Hall (S i)); simpl; lia|]. by exists (hs :: l).
Qed.

Lemma slots_some (l : list (list Header)) : slots (Some <$> l) = Some <$> mjoin l.
Proof. induction l as [|hs l IH]; [done|]. unfold slots in *. rewrite fmap_cons, bind_cons, IH. simpl. by rewrite fmap_app. Qed.

Lemma fill_front q out B sk m : fill_ok q out B sk m -> (m <= length B)%nat /\ exists l, take m B = Some <$> l /\ out = Some <$> mjoin l.
Proof.
  intros Hq. pose proof (fill_full _ _ _ _ _ Hq) as HB. destruct Hq. assert (m <= length B)%nat as Hm.
  { destruct (decide (m <= length B)%nat) as [|Hgt]; [done|]. destruct (fl_front0 (length B) ltac:(lia)) as [hs Hh%lookup_lt_Some]. lia. }
  split; [done|]. destruct (all_there (take m B)) as [l Hl].
  { intros i Hi. rewrite length_take in Hi. rewrite lookup_take_lt by lia. apply fl_front0. lia. }
  exists l. split; [done|]. by rewrite fl_out0, (proj1 (slots_split B m HB Hm)), Hl, slots_some.
Qed.

(** C13: a skeleton fills up soundly: every batch that is taken has the numbers that follow
    the start of its gap, is linked, and ends with its header of the skeleton; what the
    processor was handed is, in order, a number of whole batches from the first on; a
    delivery never fails or waits, whatever its contents; and when no batch is queued or in
    flight, [RetrieveHeaders] returns the whole chain, with the length of what was handed on. *)
Theorem skeleton_fills q out (Hrun : fill_run q out) : exists B m, length B = length skel /\
  (forall i hs, B !! i = Some (Some hs) -> exists target, skel !! i = Some target /\ batch (index i) (HeaderHash target) hs) /\
  (exists l, take m B = Some <$> l /\ out = Some <$> mjoin l) /\
  (forall id headers sent, exists n e o q', DeliverHeaders M q id headers sent = Ok (n, e, o, q')) /\
  (PendingHeaders q = Ok 0%nat -> InFlightHeaders q = false ->
    exists batches, B = Some <$> batches /\ (RetrieveHeaders q).1 = (Some (Some <$> mjoin batches), length out)).
Proof.
  destruct (fill_invariant q out Hrun) as (B & sk & m & Hq). destruct (fill_front _ _ _ _ _ Hq) as [Hm (l & Hl & Hout)]. pose proof (fill_full _ _ _ _ _ Hq) as HB.
  exists B, m. split_and!; [apply Hq| |by exists l| |].
  - intros i hs Hi. destruct (fl_accepted _ _ _ _ _ Hq i hs Hi) as (target & Ht & Ha). exists target. split; [done|].
    pose proof (lookup_lt_Some _ _ _ Ht). assert (i * M + M <= length skel * M)%nat by nia. apply accepted_batch; [| |done]; unfold index in *; lia.
  - intros id headers sent. destruct (deliver_headers_ok _ _ _ _ _ id headers sent Hq) as (n & e & o & q' & _ & _ & _ & Hd & _). eauto.
  - intros Hp Hf. unfold PendingHeaders in Hp. rewrite (fl_skeleton _ _ _ _ _ Hq) in Hp. injection Hp as Hp%nil_length_inv.
    apply negb_false_iff, Nat.eqb_eq, map_size_empty_iff in Hf. pose proof (fl_items _ _ _ _ _ Hq) as Hi. rewrite Hp, Hf in Hi.
    apply Permutation_nil_l in Hi. symmetry in Hi. apply fmap_nil_inv in Hi. destruct (all_there B) as [batches Hb].
    { intros i [[hs|] Hlt]%lookup_lt_is_Some_2; [by eauto|]. apply elem_of_open in Hlt. rewrite Hi in Hlt. by apply not_elem_of_nil in Hlt. }
    exists batches. split; [done|]. unfold RetrieveHeaders. simpl.
    rewrite (fl_results _ _ _ _ _ Hq), (fl_proced _ _ _ _ _ Hq), (fl_out _ _ _ _ _ Hq), length_take, slots_length by done. rewrite Hb at 1. rewrite slots_some.
    do 2 f_equal. nia.
Qed.

End Fill.

(** A skeleton of two headers over batches of two, filled from the second gap. *)
Module FillToy.

#[local] Existing Instance toyBlockEnv.

Definition chainHeader (number : Z) : Header :=
  mkHeader (replicate 28 1 ++ [number - 1; 0; 0; 0]) zeroHash emptyRoot emptyRoot [] number 0 zeroAddress (mkConsensusData [] []) 0 0 0.
Definition skel : list Header := [chainHeader 6; chainHeader 8].

Definition s1 : queue Z := match ScheduleSkeleton 2 (newQueue 4) 5 skel with Ok q => q | _ => newQueue 4 end.
Definition s2 : queue Z := match ReserveHeaders s1 "a" 0 with Ok (_, q) => q | _ => s1 end.
Definition s3 : queue Z := match ReserveHeaders s2 "b" 0 with Ok (_, q) => q | _ => s2 end.
Definition s4 : queue Z := match DeliverHeaders 2 s3 "b" [chainHeader 7; chainHeader 8] true with Ok (_, _, _, q) => q | _ => s3 end.
Definition s5 : queue Z := match DeliverHeaders 2 s4 "a" [chainHeader 5; chainHeader 6] true with Ok (_, _, _, q) => q | _ => s4 end.

Lemma fill3 : fill_run 2 5 skel s3 [].
Proof.
  apply (fill_Reserve _ _ _ s2 _ "b" 0 (Some (mkRequest "b" 7 [] 0))); [|vm_compute; reflexivity].
  apply (fill_Reserve _ _ _ s1 _ "a" 0 (Some (mkRequest "a" 5 [] 0))); [|vm_compute; reflexivity].
  apply (fill_start _ _ _ (newQueue 4)); vm_compute; reflexivity.
Qed.

Lemma fill4 : fill_run 2 5 skel s4 [].
Proof. apply (fill_Deliver 2 5 skel s3 [] "b" [chainHeader 7; chainHeader 8] true 2 None [] s4); [exact fill3|vm_compute; reflexivity]. Qed.

Lemma fill5 : fill_run 2 5 skel s5 (Some <$> (chainHeader <$> [5; 6; 7; 8])).
Proof.
  rewrite <- (app_nil_l (Some <$> _)).
  apply (fill_Deliver 2 5 skel s4 [] "a" [chainHeader 5; chainHeader 6] true 2 None (Some <$> (chainHeader <$> [5; 6; 7; 8])) s5); [exact fill4|vm_compute; reflexivity].
Qed.

Lemma skeleton_fills_witness : (RetrieveHeaders s5).1 = (Some (Some <$> (chainHeader <$> [5; 6; 7; 8])), 4%nat).
Proof.
  destruct (skeleton_fills 2 5 skel ltac:(lia) ltac:(lia) ltac:(by vm_compute) s5 _ fill5) as (B & m & _ & _ & _ & _ & Hret).
  destruct Hret as (batches & _ & Hr); [vm_compute; reflexivity|vm_compute; reflexivity|]. rewrite Hr. f_equal.
  transitivity (RetrieveHeaders s5).1.1; [by rewrite Hr|vm_compute; reflexivity].
Defined.

End FillToy.
