(* ===== verification/Database.v ===== *)
(** * Key-value databases (utils/database/memorydb.go, table.go)

    A database is a finite map from keys to values; a batch is the list of its writes
    in order, applied at once by [Write].  A table prefixes the keys.  LevelDB offers
    the same operations. *)

From stdpp Require Import base list gmap.
From S2P Require Import Prelude.

Abbreviation Db := (gmap (list byte) (list byte)).

(** [Get] of a missing key is an error. *)
Definition db_Get (d : Db) (key : list byte) : option (list byte) := d !! key.
Definition db_Has (d : Db) (key : list byte) : bool := bool_decide (is_Some (d !! key)).
Definition db_Put (d : Db) (key value : list byte) : Db := <[key := value]> d.
Definition db_Delete (d : Db) (key : list byte) : Db := base.delete key d.

(** ** Batches *)

Record memBatch : Type := mkBatch { b_writes : list (list byte * list byte); b_size : Z }.

Definition NewBatch : memBatch := mkBatch [] 0.
Definition batch_Put (b : memBatch) (key value : list byte) : memBatch :=
  mkBatch (b_writes b ++ [(key, value)]) (b_size b + Z.of_nat (length value)).
Definition batch_ValueSize (b : memBatch) : Z := b_size b.
Definition batch_Reset (b : memBatch) : memBatch := mkBatch [] 0.

(** The writes in order. *)
Definition put_all (d : Db) (w : list (list byte * list byte)) : Db := foldl (fun d kv => db_Put d kv.1 kv.2) d w.
Definition batch_Write (d : Db) (b : memBatch) : Db := put_all d (b_writes b).

(** ** Tables *)

Definition table_key (prefix key : list byte) : list byte := prefix ++ key.
Definition table_Put (d : Db) (prefix key value : list byte) : Db := db_Put d (table_key prefix key) value.
Definition table_Get (d : Db) (prefix key : list byte) : option (list byte) := db_Get d (table_key prefix key).
Definition table_Has (d : Db) (prefix key : list byte) : bool := db_Has d (table_key prefix key).
Definition table_Delete (d : Db) (prefix key : list byte) : Db := db_Delete d (table_key prefix key).
Definition tableBatch_Put (b : memBatch) (prefix key value : list byte) : memBatch := batch_Put b (table_key prefix key) value.

(** ** Reading after writing *)

Lemma put_all_app d w w' : put_all d (w ++ w') = put_all (put_all d w) w'.
Proof. apply foldl_app. Qed.

Lemma put_all_notin w : forall d k, k ∉ w.*1 -> put_all d w !! k = d !! k.
Proof.
  induction w as [|[k' v] w IH]; intros d k Hk; simpl; [done|]. rewrite fmap_cons, not_elem_of_cons in Hk. destruct Hk as [Hne Hk].
  rewrite IH by done. unfold db_Put. by rewrite lookup_insert_ne.
Qed.

Lemma put_all_Some w : forall d k v, put_all d w !! k = Some v -> (k, v) ∈ w \/ k ∉ w.*1 /\ d !! k = Some v.
Proof.
  induction w as [|[k' v'] w IH]; intros d k v Hl; simpl in *; [right; split; [apply not_elem_of_nil|done]|].
  destruct (IH _ _ _ Hl) as [Hin|[Hn Hd]]; [left; by right|]. unfold db_Put in Hd.
  apply lookup_insert_Some in Hd as [[-> ->]|[Hne Hd]]; [left; by left|right]. split; [|done]. by rewrite not_elem_of_cons.
Qed.

(** A key that is written with one value has it. *)
Lemma put_all_in w : forall d k v, (k, v) ∈ w -> (forall v', (k, v') ∈ w -> v' = v) -> put_all d w !! k = Some v.
Proof.
  induction w as [|[k' v'] w IH] using rev_ind; intros d k v Hin Hu; [by apply elem_of_nil in Hin|].
  rewrite put_all_app. simpl. unfold db_Put. destruct (decide (k' = k)) as [->|Hne].
  - rewrite lookup_insert_eq. f_equal. apply Hu. set_solver.
  - rewrite lookup_insert_ne by done. apply IH; [|set_solver]. apply elem_of_app in Hin as [?|Hin]; [done|]. apply list_elem_of_singleton in Hin. congruence.
Qed.

Lemma put_all_pointwise w k : forall d d', d !! k = d' !! k -> put_all d w !! k = put_all d' w !! k.
Proof.
  induction w as [|[k' v] w IH]; intros d d' He; simpl; [done|]. apply IH. unfold db_Put.
  destruct (decide (k' = k)) as [->|]; [by rewrite !lookup_insert_eq|by rewrite !lookup_insert_ne].
Qed.
