(* ===== verification/Lru.v ===== *)
(** * Least-recently-used caches (hashicorp/golang-lru, simplelru)

    A cache is its size and its entries, the most recently used first: the list and
    the index of the code hold the same entries.  No callback is used. *)

From stdpp Require Import base list gmap.
From S2P Require Import Prelude.

Record Lru (K V : Type) : Type := mkLru { lru_size : nat; lru_items : list (K * V) }.
Arguments mkLru {_ _}. Arguments lru_size {_ _}. Arguments lru_items {_ _}.

Section Lru.
Context {K V : Type} `{EqDecision K}.
Implicit Types c : Lru K V.

(** [NewLRU]; a size that is not positive is an error. *)
Definition NewLRU (size : Z) : option (Lru K V) := if size <=? 0 then None else Some (mkLru (Z.to_nat size) []).

Definition Peek c (k : K) : option V := snd ∘ snd <$> list_find (fun x => x.1 = k) (lru_items c).
Definition Contains c (k : K) : bool := bool_decide (is_Some (Peek c k)).
Definition Len c : nat := length (lru_items c).

(** [removeElement] *)
Definition drop_key (k : K) (l : list (K * V)) : list (K * V) := filter (fun x => x.1 <> k) l.

Definition Remove c (k : K) : Lru K V := mkLru (lru_size c) (drop_key k (lru_items c)).
Definition Purge c : Lru K V := mkLru (lru_size c) [].
Definition RemoveOldest c : Lru K V := mkLru (lru_size c) (take (Len c - 1) (lru_items c)).

(** [MoveToFront] *)
Definition Get c (k : K) : option V * Lru K V :=
  match Peek c k with
  | Some v => (Some v, mkLru (lru_size c) ((k, v) :: drop_key k (lru_items c)))
  | None => (None, c)
  end.

Definition Add c (k : K) (v : V) : Lru K V :=
  if Contains c k then mkLru (lru_size c) ((k, v) :: drop_key k (lru_items c))
  else
    let c := mkLru (lru_size c) ((k, v) :: lru_items c) in
    if (lru_size c <? Len c)%nat then RemoveOldest c else c.

(** Oldest first. *)
Definition Keys c : list K := reverse (lru_items c).*1.

(** ** The cache is a part of what was added *)

Lemma Peek_Some c k v : Peek c k = Some v -> (k, v) ∈ lru_items c.
Proof.
  unfold Peek. intros ([i [k' v']] & (Hl & Hk & _)%list_find_Some & ->)%fmap_Some. simpl in *. subst k'. by eapply list_elem_of_lookup_2.
Qed.

Lemma Peek_nodup c k v : NoDup (lru_items c).*1 -> (k, v) ∈ lru_items c -> Peek c k = Some v.
Proof.
  intros Hnd Hin. unfold Peek. destruct (list_find _ _) as [[i [k' v']]|] eqn:Hf.
  - apply list_find_Some in Hf as (Hl & Hk & _). simpl in *. subst k'. f_equal. apply list_elem_of_lookup in Hin as [j Hj].
    assert (i = j) as ->; [|by simplify_eq]. eapply NoDup_lookup; [exact Hnd|by rewrite list_lookup_fmap, Hl|by rewrite list_lookup_fmap, Hj].
  - apply list_find_None in Hf. rewrite Forall_forall in Hf. exfalso. by apply (Hf (k, v)).
Qed.

Record lru_ok c : Prop := {
  lru_nodup : NoDup (lru_items c).*1;
  lru_bound : (Len c <= lru_size c)%nat;
}.

Lemma drop_key_in k l x : x ∈ drop_key k l <-> x.1 <> k /\ x ∈ l.
Proof. unfold drop_key. by rewrite list_elem_of_filter. Qed.

Lemma drop_key_nodup k l : NoDup l.*1 -> NoDup (drop_key k l).*1 /\ k ∉ (drop_key k l).*1.
Proof.
  intros Hnd. split.
  - unfold drop_key. induction l as [|x l IH]; [done|]. rewrite fmap_cons, NoDup_cons in Hnd. destruct Hnd as [Hx Hnd].
    rewrite filter_cons. case_decide; [|auto]. rewrite fmap_cons, NoDup_cons. split; [|auto].
    intros (y & Hxy & Hy)%list_elem_of_fmap. apply Hx. apply list_elem_of_fmap. exists y. split; [done|]. by apply list_elem_of_filter in Hy as [_ ?].
  - intros (y & -> & [Hne _]%drop_key_in)%list_elem_of_fmap. done.
Qed.

Lemma drop_key_length k l : (length (drop_key k l) <= length l)%nat.
Proof. apply length_filter. Qed.

Lemma drop_key_shorter k l v : (k, v) ∈ l -> (length (drop_key k l) < length l)%nat.
Proof.
  intros Hin. induction l as [|x l IH]; [by apply elem_of_nil in Hin|]. unfold drop_key in *. rewrite filter_cons. case_decide as Hx.
  - apply elem_of_cons in Hin as [<-|Hin]; [done|]. simpl. specialize (IH Hin). lia.
  - pose proof (drop_key_length k l) as Hl. unfold drop_key in Hl. simpl. lia.
Qed.

Lemma NewLRU_ok size c : NewLRU size = Some c -> lru_ok c.
Proof. unfold NewLRU. destruct (_ <=? _); [done|]. intros [= <-]. split; [constructor|]. unfold Len. simpl. lia. Qed.

Lemma front_ok c k v w : lru_ok c -> Peek c k = Some w -> lru_ok (mkLru (lru_size c) ((k, v) :: drop_key k (lru_items c))).
Proof.
  intros [Hnd Hb] Hp%Peek_Some. destruct (drop_key_nodup k _ Hnd) as [H1 H2]. pose proof (drop_key_shorter _ _ _ Hp) as Hs. split.
  - simpl. by rewrite NoDup_cons.
  - unfold Len in *. simpl. lia.
Qed.

Lemma Get_ok c k : lru_ok c -> lru_ok (Get c k).2.
Proof. intros Hc. unfold Get. destruct (Peek c k) eqn:Hp; [|done]. by eapply front_ok. Qed.

Lemma lru_Add_ok c k v : lru_ok c -> (0 < lru_size c)%nat -> lru_ok (Add c k v).
Proof.
  intros Hc Hs. unfold Add, Contains. case_bool_decide as Hk; [destruct Hk as [w Hw]; by eapply front_ok|].
  assert (k ∉ (lru_items c).*1) as Hn.
  { intros ([k' w] & -> & Hin)%list_elem_of_fmap. apply Hk. exists w. apply Peek_nodup; [apply Hc|done]. }
  destruct Hc as [Hnd Hb]. unfold Len in *. simpl. destruct (Nat.ltb_spec (lru_size c) (S (length (lru_items c)))).
  - unfold RemoveOldest, Len. simpl. rewrite Nat.sub_0_r. split.
    + simpl. rewrite fmap_take, fmap_cons. eapply sublist_NoDup; [|apply sublist_take]. by rewrite NoDup_cons.
    + unfold Len. simpl. rewrite length_take. simpl. lia.
  - split; [simpl; by rewrite NoDup_cons|]. unfold Len. simpl. lia.
Qed.

(** What a cache answers after an operation, it was given or answered before. *)
Lemma Get_answer c k : (Get c k).1 = Peek c k.
Proof. unfold Get. by destruct (Peek c k). Qed.

Lemma Get_sub c k k' v : (k', v) ∈ lru_items (Get c k).2 -> (k', v) ∈ lru_items c.
Proof.
  unfold Get. destruct (Peek c k) eqn:Hp; [|done]. simpl. intros [[= -> ->]|Hin]%elem_of_cons; [by apply Peek_Some|].
  by apply drop_key_in in Hin as [_ ?].
Qed.

Lemma Add_sub c k v k' w : (k', w) ∈ lru_items (Add c k v) -> (k' = k /\ w = v) \/ (k' <> k /\ (k', w) ∈ lru_items c).
Proof.
  unfold Add, Contains. case_bool_decide as Hk; simpl.
  - intros [[= -> ->]|[Hne Hin]%drop_key_in]%elem_of_cons; [by left|by right].
  - assert (forall x, x ∈ (k, v) :: lru_items c -> x = (k, v) \/ x.1 <> k /\ x ∈ lru_items c) as Hx.
    { intros x [->|Hin]%elem_of_cons; [by left|]. destruct (decide (x.1 = k)) as [<-|]; [|by right]. exfalso. apply Hk.
      unfold Peek. destruct (list_find _ _) as [y|] eqn:Hf; [by eexists|]. apply list_find_None in Hf. rewrite Forall_forall in Hf.
      by destruct (Hf x Hin). }
    destruct (_ <? _)%nat; simpl; intros Hin.
    + apply elem_of_take in Hin as (i & Hi & _). apply list_elem_of_lookup_2 in Hi. destruct (Hx _ Hi) as [[= -> ->]|[? ?]]; [by left|by right].
    + destruct (Hx _ Hin) as [[= -> ->]|[? ?]]; [by left|by right].
Qed.

Lemma Remove_sub c k k' w : (k', w) ∈ lru_items (Remove c k) -> k' <> k /\ (k', w) ∈ lru_items c.
Proof. intros [? ?]%drop_key_in. done. Qed.

(** The last added entry is there. *)
Lemma Add_front c k v : (0 < lru_size c)%nat -> exists l, lru_items (Add c k v) = (k, v) :: l.
Proof.
  intros Hs. unfold Add, Contains. case_bool_decide; [by eexists|]. simpl. destruct (Nat.ltb_spec (lru_size c) (Len (mkLru (lru_size c) ((k, v) :: lru_items c)))) as [Hl|]; [|by eexists].
  unfold RemoveOldest, Len in *. simpl in *. rewrite Nat.sub_0_r. destruct (lru_items c) as [|x l]; simpl in *; [lia|]. by eexists.
Qed.

(** Eviction takes the entry that was used least recently. *)
Lemma Add_evicts c k v : Contains c k = false -> Len c = lru_size c -> (0 < lru_size c)%nat ->
  lru_items (Add c k v) = (k, v) :: take (lru_size c - 1) (lru_items c).
Proof.
  intros Hk Hl Hs. unfold Add. rewrite Hk. cbv zeta. simpl. unfold RemoveOldest. unfold Len in *. simpl. rewrite Hl, Nat.sub_0_r.
  destruct (Nat.ltb_spec (lru_size c) (S (lru_size c))); [|lia]. simpl. destruct (lru_size c) as [|n]; [lia|]. simpl. by rewrite Nat.sub_0_r.
Qed.

End Lru.
