(* ===== verification/ChainDb.v ===== *)
(** * The chain in the database (core/blockchain/db_operate.go)

    The keys under which headers, bodies, receipts, canonical numbers, lookup entries
    and head markers are stored, and the functions that read and write them.  The
    msgp encodings are the fields of [ChainCodec]; a decoded header has lost its
    producer and a decoded transaction what is not encoded of it ([wireTx]). *)

From stdpp Require Import strings base list gmap numbers option.
From S2P Require Import Prelude Types Numerals StateDB Processor Signing Block Database.
Local Open Scope Z_scope.

(** ** Big-endian numbers of fixed width *)

Fixpoint put_be (w : nat) (n : Z) : list byte :=
  match w with O => [] | S w => put_be w (n / 256) ++ [n mod 256] end.

Lemma put_be_length w : forall n, length (put_be w n) = w.
Proof. induction w as [|w IH]; intros n; simpl; [done|]. rewrite length_app, IH. simpl. lia. Qed.

Lemma be_put_be w : forall n, be (put_be w n) = n mod 256 ^ Z.of_nat w.
Proof.
  induction w as [|w IH]; intros n; simpl.
  - change (256 ^ Z.of_nat 0) with 1. by rewrite Z.mod_1_r.
  - rewrite be_app, IH. change (be [n mod 256]) with (n mod 256). simpl length.
    replace (Z.of_nat (S w)) with (Z.succ (Z.of_nat w)) by lia. rewrite Z.pow_succ_r by lia. rewrite Z.rem_mul_r by lia. change (256 ^ Z.of_nat 1) with 256. lia.
Qed.

Definition encodeBlockNumber (number : Z) : list byte := put_be 8 number.
Definition u64_ok (n : Z) : Prop := 0 <= n < 2 ^ 64.

Lemma encodeBlockNumber_be n : u64_ok n -> be (encodeBlockNumber n) = n.
Proof. intros Hn. unfold encodeBlockNumber. rewrite be_put_be. apply Z.mod_small. exact Hn. Qed.
Lemma encodeBlockNumber_length n : length (encodeBlockNumber n) = 8%nat.
Proof. apply put_be_length. Qed.

(** ** Keys *)

Definition headHeaderKey : list byte := str "LastHeader".
Definition headBlockKey : list byte := str "LastBlock".
Definition headFastKey : list byte := str "LastFast".
Definition headerPrefix : list byte := str "h".
Definition numSuffix : list byte := str "n".
Definition blockHashPrefix : list byte := str "H".
Definition bodyPrefix : list byte := str "b".
Definition blockReceiptsPrefix : list byte := str "r".
Definition lookupPrefix : list byte := str "l".
Definition bloomBitsPrefix : list byte := str "B".
Definition preimagePrefix : list byte := str "secure-key-".
Definition configPrefix : list byte := str "mjoy-config-".
Definition versionKey : list byte := str "BlockchainVersion".
Definition oldReceiptsPrefix : list byte := str "receipts-".
Definition oldTxMetaSuffix : list byte := [1].

Definition canonicalKey (number : Z) : list byte := headerPrefix ++ encodeBlockNumber number ++ numSuffix.
Definition headerKey (hash : Hash) (number : Z) : list byte := headerPrefix ++ encodeBlockNumber number ++ hash.
Definition numberKey (hash : Hash) : list byte := blockHashPrefix ++ hash.
Definition blockBodyKey (hash : Hash) (number : Z) : list byte := bodyPrefix ++ encodeBlockNumber number ++ hash.
Definition receiptsKey (hash : Hash) (number : Z) : list byte := blockReceiptsPrefix ++ encodeBlockNumber number ++ hash.
Definition lookupKey (hash : Hash) : list byte := lookupPrefix ++ hash.
Definition bloomBitsKey (bit section : Z) (head : Hash) : list byte := bloomBitsPrefix ++ put_be 2 bit ++ put_be 8 section ++ head.
Definition configKey (hash : Hash) : list byte := configPrefix ++ hash.

(** The schema as data. *)
Inductive chainKey : Type :=
| KHeadHeader | KHeadBlock | KHeadFast | KVersion
| KCanonical (number : Z) | KHeader (hash : Hash) (number : Z) | KNumber (hash : Hash)
| KBody (hash : Hash) (number : Z) | KReceipts (hash : Hash) (number : Z) | KLookup (hash : Hash)
| KBloomBits (bit section : Z) (head : Hash) | KPreimage (hash : Hash) | KConfig (hash : Hash).

Definition key_bytes (k : chainKey) : list byte :=
  match k with
  | KHeadHeader => headHeaderKey | KHeadBlock => headBlockKey | KHeadFast => headFastKey | KVersion => versionKey
  | KCanonical n => canonicalKey n
  | KHeader h n => headerKey h n
  | KNumber h => numberKey h
  | KBody h n => blockBodyKey h n
  | KReceipts h n => receiptsKey h n
  | KLookup h => lookupKey h
  | KBloomBits b s h => bloomBitsKey b s h
  | KPreimage h => table_key preimagePrefix h
  | KConfig h => configKey h
  end.

Definition hash_ok (h : Hash) : Prop := length h = 32%nat.

(** Keys made of 32-byte hashes and machine numbers. *)
Definition key_ok (k : chainKey) : Prop :=
  match k with
  | KCanonical n => u64_ok n
  | KHeader h n | KBody h n | KReceipts h n => hash_ok h /\ u64_ok n
  | KNumber h | KLookup h | KPreimage h | KConfig h => hash_ok h
  | KBloomBits b s h => 0 <= b < 2 ^ 16 /\ u64_ok s /\ hash_ok h
  | _ => True
  end.

Lemma put_be_inj w a b : 0 <= a < 256 ^ Z.of_nat w -> 0 <= b < 256 ^ Z.of_nat w -> put_be w a = put_be w b -> a = b.
Proof. intros Ha Hb He%(f_equal be). rewrite !be_put_be, !Z.mod_small in He by done. done. Qed.

Lemma number_app_inj n n' (x x' : list byte) : u64_ok n -> u64_ok n' -> encodeBlockNumber n ++ x = encodeBlockNumber n' ++ x' -> n = n' /\ x = x'.
Proof. intros Hn Hn' He. apply app_inj_1 in He as [He ->]; [|by rewrite !encodeBlockNumber_length]. split; [|done]. by apply (put_be_inj 8). Qed.

(** No two keys of the schema are written alike. *)
Lemma key_bytes_inj k k' : key_ok k -> key_ok k' -> key_bytes k = key_bytes k' -> k = k'.
Proof.
  intros Hk Hk' He. pose proof (f_equal (@length Z) He) as Hl. pose proof (f_equal (take 1) He) as Ht.
  destruct k, k'; try done; try discriminate Ht; unfold key_ok, hash_ok in *; simpl in Hk, Hk';
    cbn [key_bytes canonicalKey headerKey numberKey blockBodyKey receiptsKey lookupKey bloomBitsKey configKey table_key] in *;
    unfold canonicalKey, headerKey, numberKey, blockBodyKey, receiptsKey, lookupKey, bloomBitsKey, configKey, table_key in *;
    rewrite ?length_app, ?put_be_length, ?encodeBlockNumber_length in Hl; simpl in Hl; try lia;
    repeat match goal with H : _ /\ _ |- _ => destruct H end; apply (app_inv_head _) in He.
  - apply number_app_inj in He as [-> _]; done.
  - apply number_app_inj in He as [-> ->]; done.
  - by subst.
  - apply number_app_inj in He as [-> ->]; done.
  - apply number_app_inj in He as [-> ->]; done.
  - by subst.
  - apply app_inj_1 in He as [Hb He]; [|by rewrite !put_be_length]. apply (put_be_inj 2) in Hb; [|done..]. subst.
    apply number_app_inj in He as [-> ->]; done.
  - by subst.
  - by subst.
Qed.

(** ** Codecs *)

Record TxLookupEntry : Type := mkLookup { le_BlockHash : Hash; le_BlockIndex : Z; le_Index : Z }.

Class ChainCodec (Tx : Type) : Type := {
  encHeader : Header -> list byte;
  decHeader : list byte -> option Header;
  encBody : list Tx -> list byte;
  decBody : list byte -> option (list Tx);
  encReceipt : Receipt -> list byte;
  decReceipt : list byte -> option Receipt;
  (** [msgp.Skip]: what follows the first object; an error leaves the input *)
  skipMsg : list byte -> list byte;
  encLookup : TxLookupEntry -> list byte;
  decLookup : list byte -> option TxLookupEntry;
  decTx : list byte -> option Tx;
  wireTx : Tx -> Tx;
}.

Definition missingNumber : Z := 2 ^ 64 - 1.
#[global] Arguments missingNumber : simpl never.

(** A stored value, when it is there and not empty. *)
Definition filled (data : option (list byte)) : option (list byte) :=
  match data with Some (x :: l) => Some (x :: l) | _ => None end.

Section Operations.
Context {Tx : Type} `{BlockEnv Tx, !ChainCodec Tx}.
Implicit Types db : Db.

(** ** Reading *)

Definition stored_hash db (key : list byte) : Hash :=
  match filled (db_Get db key) with Some data => BytesToHash data | None => zeroHash end.

Definition GetCanonicalHash db (number : Z) : Hash := stored_hash db (canonicalKey number).
Definition GetHeadHeaderHash db : Hash := stored_hash db headHeaderKey.
Definition GetHeadBlockHash db : Hash := stored_hash db headBlockKey.
Definition GetHeadFastBlockHash db : Hash := stored_hash db headFastKey.

Definition GetBlockNumber db (hash : Hash) : Z :=
  match db_Get db (numberKey hash) with
  | Some data => if (length data =? 8)%nat then be data else missingNumber
  | None => missingNumber
  end.

Definition GetHeaderMsgp db (hash : Hash) (number : Z) : option (list byte) := db_Get db (headerKey hash number).
Definition GetHeader db (hash : Hash) (number : Z) : option Header := data ← filled (GetHeaderMsgp db hash number); decHeader data.
Definition GetBodyMsgp db (hash : Hash) (number : Z) : option (list byte) := db_Get db (blockBodyKey hash number).
Definition GetBody db (hash : Hash) (number : Z) : option (list Tx) := data ← filled (GetBodyMsgp db hash number); decBody data.

Definition GetBlock db (hash : Hash) (number : Z) : option (Block Tx) :=
  header ← GetHeader db hash number;
  body ← GetBody db hash number;
  Some (WithBody (NewBlockWithHeader header) body).

(** The loop of [GetBlockReceipts]; [None] is the nil slice. *)
Fixpoint read_receipts (fuel : nat) (left : list byte) : outcome unit (option (list Receipt)) :=
  match fuel with
  | O => OutOfFuel
  | S fuel =>
      match left with
      | [] => Ok (Some [])
      | _ =>
          match decReceipt left with
          | None => Ok None
          | Some r => rest ← read_receipts fuel (skipMsg left); Ok (option_map (cons r) rest)
          end
      end
  end.

Definition GetBlockReceipts db (hash : Hash) (number : Z) : outcome unit (option (list Receipt)) :=
  match filled (db_Get db (receiptsKey hash number)) with
  | None => Ok None
  | Some data => read_receipts (S (length data)) data
  end.

Definition no_lookup : TxLookupEntry := mkLookup zeroHash 0 0.

Definition GetTxLookupEntry db (hash : Hash) : TxLookupEntry :=
  match filled (db_Get db (lookupKey hash)) with
  | None => no_lookup
  | Some data => default no_lookup (decLookup data)
  end.

(** [int(txIndex)] of an index is signed: an index beyond the machine's integers is
    negative and panics in the access. *)
Definition at_index {A} (l : list A) (i : Z) : outcome unit (option A) :=
  let i' := if i <? 2 ^ 63 then i else i - 2 ^ 64 in
  if Z.of_nat (length l) <=? i' then Ok None else x ← of_index (zget l i'); Ok (Some x).

Definition GetTransaction db (hash : Hash) : outcome unit (option (Tx * TxLookupEntry)) :=
  let e := GetTxLookupEntry db hash in
  if negb (bool_decide (le_BlockHash e = zeroHash)) then
    match GetBody db (le_BlockHash e) (le_BlockIndex e) with
    | None => Ok None
    | Some body => tx ← at_index body (le_Index e); Ok (option_map (fun tx => (tx, e)) tx)
    end
  else
    Ok (data ← filled (db_Get db hash); tx ← decTx data;
        meta ← filled (db_Get db (hash ++ oldTxMetaSuffix)); e ← decLookup meta; Some (tx, e)).

(** The decoding error of an old receipt is reported and the zero receipt returned. *)
Definition GetReceipt db (hash : Hash) : outcome unit (option (Receipt * TxLookupEntry)) :=
  let e := GetTxLookupEntry db hash in
  if negb (bool_decide (le_BlockHash e = zeroHash)) then
    rs ← GetBlockReceipts db (le_BlockHash e) (le_BlockIndex e);
    r ← at_index (default [] rs) (le_Index e); Ok (option_map (fun r => (r, e)) r)
  else
    Ok (data ← filled (db_Get db (oldReceiptsPrefix ++ hash));
        Some (default (mkReceipt 0 (replicate 256 0) [] zeroHash zeroAddress) (decReceipt data), no_lookup)).

Definition GetBloomBits db (bit section : Z) (head : Hash) : option (list byte) := db_Get db (bloomBitsKey (u16 bit) section head).

(** ** Writing: what is put, in order *)

Abbreviation puts := (list (list byte * list byte)) (only parsing).

Definition WriteCanonicalHash (hash : Hash) (number : Z) : puts := [(canonicalKey number, hash)].
Definition WriteHeadHeaderHash (hash : Hash) : puts := [(headHeaderKey, hash)].
Definition WriteHeadBlockHash (hash : Hash) : puts := [(headBlockKey, hash)].
Definition WriteHeadFastBlockHash (hash : Hash) : puts := [(headFastKey, hash)].

Definition WriteHeader (h : Header) : puts :=
  let hash := HeaderHash h in
  let num := header_NumberU64 h in
  [(numberKey hash, encodeBlockNumber num); (headerKey hash num, encHeader h)].

Definition WriteBodyMsgp (hash : Hash) (number : Z) (data : list byte) : puts := [(blockBodyKey hash number, data)].
Definition WriteBody (hash : Hash) (number : Z) (body : list Tx) : puts := WriteBodyMsgp hash number (encBody body).
Definition WriteBlock (b : Block Tx) : puts :=
  WriteBody (block_Hash b) (NumberU64 b) (B_body b) ++ WriteHeader (CopyHeader (B_header b)).
Definition WriteBlockReceipts (hash : Hash) (number : Z) (rs : list Receipt) : puts := [(receiptsKey hash number, rs ≫= encReceipt)].

Definition WriteTxLookupEntries (b : Block Tx) : puts :=
  imap (fun i tx => (lookupKey (TransactionHash tx), encLookup (mkLookup (block_Hash b) (NumberU64 b) (Z.of_nat i)))) (B_body b).

Definition WriteBloomBits (bit section : Z) (head : Hash) (bits : list byte) : puts := [(bloomBitsKey (u16 bit) section head, bits)].

(** Preimages that are not in the table yet. *)
Definition WritePreimages db (preimages : gmap Hash (list byte)) : puts :=
  omap (fun p => if table_Has db preimagePrefix p.1 then None else Some (table_key preimagePrefix p.1, p.2)) (map_to_list preimages).

Definition GetBlockChainVersion db : outcome unit Z :=
  match filled (db_Get db versionKey) with
  | None => Ok 0
  | Some enc => if (length enc <? 4)%nat then Panic else Ok (be (take 4 enc))
  end.
Definition WriteBlockChainVersion (vsn : Z) : puts := [(versionKey, put_be 4 vsn ++ replicate 4 0)].

(** ** Deleting: the keys, in order *)

Definition DeleteCanonicalHash (number : Z) : list (list byte) := [canonicalKey number].
Definition DeleteHeader (hash : Hash) (number : Z) : list (list byte) := [numberKey hash; headerKey hash number].
Definition DeleteBody (hash : Hash) (number : Z) : list (list byte) := [blockBodyKey hash number].
Definition DeleteBlockReceipts (hash : Hash) (number : Z) : list (list byte) := [receiptsKey hash number].
Definition DeleteBlock (hash : Hash) (number : Z) : list (list byte) :=
  DeleteBlockReceipts hash number ++ DeleteHeader hash number ++ DeleteBody hash number.
Definition DeleteTxLookupEntry (hash : Hash) : list (list byte) := [lookupKey hash].

Definition delete_all db (keys : list (list byte)) : Db := foldl db_Delete db keys.

(** ** Common ancestors *)

Definition parent_header db (h : Header) : option Header := GetHeader db (ParentHash h) (u64 (header_NumberU64 h - 1)).

(** Go back from [a] until its number is at most [n]. *)
Fixpoint header_descend (fuel : nat) db (a : Header) (n : Z) : outcome unit (option Header) :=
  match fuel with
  | O => OutOfFuel
  | S fuel =>
      if n <? header_NumberU64 a then
        match parent_header db a with None => Ok None | Some a => header_descend fuel db a n end
      else Ok (Some a)
  end.

Fixpoint header_converge (fuel : nat) db (a b : Header) : outcome unit (option Header) :=
  match fuel with
  | O => OutOfFuel
  | S fuel =>
      if bool_decide (HeaderHash a = HeaderHash b) then Ok (Some a)
      else
        match parent_header db a with
        | None => Ok None
        | Some a => match parent_header db b with None => Ok None | Some b => header_converge fuel db a b end
        end
  end.

Definition FindCommonAncestor (fuel : nat) db (a b : Header) : outcome unit (option Header) :=
  a ← header_descend fuel db a (header_NumberU64 b);
  match a with
  | None => Ok None
  | Some a =>
      b ← header_descend fuel db b (header_NumberU64 a);
      match b with None => Ok None | Some b => header_converge fuel db a b end
  end.

End Operations.
