(* ===== verification/Engine.v ===== *)
(** * Header verification (consensus/basic_engine.go)

    [VerifyHeader] against a chain, the worker that verifies one header of a batch,
    and [VerifyHeaders] as a transition system: a coordinator hands indices to
    workers over an unbuffered channel, collects what they finish in any order and
    delivers the verdicts in the order of the headers. *)

From stdpp Require Import base list gmap numbers option relations.
From S2P Require Import Prelude Types Vm Signing Block.
Local Open Scope Z_scope.

Inductive engineErr : Type :=
  ErrUnknownAncestor | ErrFutureBlock | ErrInvalidNumber | ErrBlockTime | ErrSignature.

(** What the engine reads of the chain. *)
Record ChainReader : Type := mkReader {
  cr_ChainId : option Z;
  cr_GetHeader : Hash -> Z -> option Header;
}.

Section Engine.
Context {Tx : Type} `{BlockEnv Tx} (chain : ChainReader).

Definition Author (h : Header) : outcome unit ((sigErr + Address) * Header) := BlockSigner_Sender (NewBlockSigner (cr_ChainId chain)) h.

Definition VerifySeal (h : Header) : option engineErr := None.

(** The verdict, [None] for nil; the signature check also sets the producer in the
    header, which is the caller's copy. *)
Definition check_signature (h : Header) : outcome unit (option engineErr) :=
  '(r, _) ← BlockSigner_Sender (NewBlockSigner (cr_ChainId chain)) h;
  Ok (match r with inl _ => Some ErrSignature | inr _ => None end).

Definition VerifyHeader (h : Header) (seal : bool) : outcome unit (option engineErr) :=
  let number := header_NumberU64 h in
  match cr_GetHeader chain (HeaderHash h) number with
  | Some _ => Ok None
  | None =>
      match cr_GetHeader chain (ParentHash h) (u64 (number - 1)) with
      | None => Ok (Some ErrUnknownAncestor)
      | Some parent =>
          if negb (Number h - Number parent =? 1) then Ok (Some ErrInvalidNumber)
          else if Time h <=? Time parent then Ok (Some ErrBlockTime)
          else match (if seal then VerifySeal h else None) with
               | Some e => Ok (Some e)
               | None => check_signature h
               end
      end
  end.

Definition verifyHeader (h parent : Header) (seal : bool) : outcome unit (option engineErr) :=
  match cr_GetHeader chain (HeaderHash h) (header_NumberU64 h) with
  | Some _ => Ok None
  | None =>
      if negb (Number h - Number parent =? 1) then Ok (Some ErrInvalidNumber)
      else if Time h <=? Time parent then Ok (Some ErrBlockTime)
      else check_signature h
  end.

Definition worker_parent (headers : list Header) (index : nat) : outcome unit (option Header) :=
  h ← of_index (headers !! index);
  match index with
  | O => Ok (cr_GetHeader chain (ParentHash h) (u64 (header_NumberU64 h - 1)))
  | S i => p ← of_index (headers !! i); Ok (if bool_decide (HeaderHash p = ParentHash h) then Some p else None)
  end.

Definition verifyHeaderWorker (headers : list Header) (seals : list bool) (index : nat) : outcome unit (option engineErr) :=
  parent ← worker_parent headers index;
  match parent with
  | None => Ok (Some ErrUnknownAncestor)
  | Some parent =>
      h ← of_index (headers !! index);
      match cr_GetHeader chain (HeaderHash h) (header_NumberU64 h) with
      | Some _ => Ok None
      | None => seal ← of_index (seals !! index); verifyHeader h parent seal
      end
  end.

(** [Seal] *)
Definition Seal (b : Block Tx) : Block Tx := WithSeal b (CopyHeader (B_header b)).

(** [Finalize]: the header with the state root, its block, and the signature of the
    key when asked for. *)
Definition with_root (h : Header) (r : Hash) : Header :=
  mkHeader (ParentHash h) r (TxRootHash h) (ReceiptRootHash h) (h_Bloom h) (Number h) (Time h)
    (BlockProducer h) (h_Consensus h) (h_V h) (h_R h) (h_S h).

Inductive finalizeErr : Type := NoKey | SignFailed (e : sigErr).

Definition Finalize (prv : option PrivateKey) (h : Header) (root : Hash) (txs : list Tx) (receipts : list Processor.Receipt) (sign : bool)
    : outcome finalizeErr (Block Tx) :=
  let h := with_root h root in
  if sign then
    match prv with
    | None => Err NoKey
    | Some key =>
        b ← lift_err (NewBlock h txs receipts);
        match SignHeaderInner (B_header b) (NewBlockSigner (cr_ChainId chain)) key with
        | Ok h' => Ok (mkBlk h' (B_body b))
        | Err e => Err (SignFailed e)
        | Panic => Panic
        | OutOfFuel => OutOfFuel
        end
    end
  else lift_err (NewBlock h txs receipts).

(** A verdict of nil: the header is known, or follows its parent. *)
Lemma worker_nil headers seals index h : headers !! index = Some h -> verifyHeaderWorker headers seals index = Ok None ->
  exists parent, worker_parent headers index = Ok (Some parent) /\
    (is_Some (cr_GetHeader chain (HeaderHash h) (header_NumberU64 h)) \/ Number h = Number parent + 1 /\ Time parent < Time h).
Proof.
  intros Hh. unfold verifyHeaderWorker. intros ([parent|] & Hp & Hv)%outcome_bind_Ok; [|done]. exists parent. split; [done|].
  rewrite Hh in Hv. simpl in Hv. destruct (cr_GetHeader chain (HeaderHash h) (header_NumberU64 h)) eqn:Hk; [left; by eexists|right].
  apply outcome_bind_Ok in Hv as (seal & _ & Hv). unfold verifyHeader in Hv. rewrite Hk in Hv.
  destruct (Z.eqb_spec (Number h - Number parent) 1); [|done]. simpl in Hv. destruct (Z.leb_spec (Time h) (Time parent)); [done|]. lia.
Qed.

(** ** A verdict is always reached *)

Lemma recover_returns h r s v : exists x, catch (recover_with h r s v true) = Ok x.
Proof.
  unfold recover_with. destruct (ValidateSignatureValues v r s true) eqn:Hv; [|by eexists]. apply valid_values_inv in Hv as (Hr & Hs & _).
  pose proof N_bound. pose proof halfN_lt. unfold sig_bytes, put_word. rewrite !Z.abs_eq by lia.
  assert (forall z, 0 < z < secp256k1_N -> (length (big_Bytes z) <= 32)%nat) as Hlen by (intros z Hz; apply big_Bytes_length; lia).
  destruct (Nat.ltb_spec 32 (length (big_Bytes r))) as [Hl|_]; [specialize (Hlen r); lia|]. cbn [mbind outcome_bind].
  destruct (Nat.ltb_spec 64 (length (big_Bytes s))) as [Hl|_]; [specialize (Hlen s); lia|]. cbn [mbind outcome_bind].
  destruct (Ecrecover _ _) as [[|p pub]|]; [by eexists| |by eexists]. destruct (p =? 4); by eexists.
Qed.

Lemma check_signature_ok h : exists v, check_signature h = Ok v /\ v <> Some ErrFutureBlock.
Proof.
  unfold check_signature, BlockSigner_Sender, block_recoverPlain. destruct (negb _); [by eexists|].
  destruct (8 <? _); [by eexists|]. match goal with |- context [catch (recover_with ?a ?b ?c ?d true)] => destruct (recover_returns a b c d) as [[e|a'] ->] end; by eexists.
Qed.

(** Every header of a batch has a verdict; none is about the future. *)
Lemma worker_ok headers seals index : (index < length headers)%nat -> length seals = length headers ->
  exists v, verifyHeaderWorker headers seals index = Ok v /\ v <> Some ErrFutureBlock.
Proof.
  intros Hi Hl. destruct (lookup_lt_is_Some_2 headers index Hi) as [h Hh]. destruct (lookup_lt_is_Some_2 seals index ltac:(lia)) as [seal Hs].
  assert (exists p, worker_parent headers index = Ok p) as [p Hp].
  { unfold worker_parent. rewrite Hh. cbn [mbind outcome_bind of_index]. destruct index as [|i]; [by eexists|].
    destruct (lookup_lt_is_Some_2 headers i ltac:(lia)) as [q ->]. by eexists. }
  unfold verifyHeaderWorker. rewrite Hp. cbn [mbind outcome_bind]. destruct p as [p|]; [|by eexists]. rewrite Hh, Hs. cbn [mbind outcome_bind of_index].
  unfold verifyHeader. destruct (cr_GetHeader chain (HeaderHash h) (header_NumberU64 h)); [by eexists|].
  destruct (negb _); [by eexists|]. destruct (_ <=? _); [by eexists|]. apply check_signature_ok.
Qed.

End Engine.
