(* ===== verification/EngineBatch.v ===== *)
(** * Verifying headers in parallel ([VerifyHeaders] of consensus/basic_engine.go)

    The goroutines as a transition system.  The channel [inputs] has no buffer, so
    handing out an index is one step of coordinator and worker; [done] has room for
    one index per worker; the channel of results has room for all verdicts. *)

From stdpp Require Import base list gmap numbers option relations.
From S2P Require Import Prelude Engine.
Local Open Scope nat_scope.

Inductive worker : Type := Idle | Working (index : nat) | Finished (index : nat) | Exited.

#[export] Instance worker_eq_dec : EqDecision worker.
Proof. solve_decision. Defined.

Record batch : Type := mkB {
  b_in : nat;
  b_out : nat;
  b_checked : gset nat;
  b_errors : list (option engineErr);
  b_workers : list worker;
  b_done : list nat;
  b_results : list (option engineErr);
  b_running : bool;
  b_abort : bool;
}.

Section Batch.
Context (n w : nat) (verdict : nat -> option engineErr).

(** [workers] is the smaller of the processors and the headers. *)
Definition init : batch := mkB 0 0 ∅ (replicate n None) (replicate w Idle) [] [] true false.

(** [for checked[index] = true; checked[out]; out++ { ... }]; the flag says that the
    coordinator returned. *)
Fixpoint deliver (fuel : nat) (checked : gset nat) (errors : list (option engineErr)) (out : nat) (results : list (option engineErr))
    : nat * list (option engineErr) * bool :=
  match fuel with
  | O => (out, results, false)
  | S fuel =>
      if decide (out ∈ checked) then
        let results := results ++ [default None (errors !! out)] in
        if out =? n - 1 then (out, results, true) else deliver fuel checked errors (S out) results
      else (out, results, false)
  end.

Definition set_worker (b : batch) (j : nat) (x : worker) : batch :=
  mkB (b_in b) (b_out b) (b_checked b) (b_errors b) (<[j := x]> (b_workers b)) (b_done b) (b_results b) (b_running b) (b_abort b).

Inductive vstep : batch -> batch -> Prop :=
(* inputs <- in *)
| step_give b j : b_running b = true -> b_in b < n -> b_workers b !! j = Some Idle ->
    vstep b (mkB (S (b_in b)) (b_out b) (b_checked b) (b_errors b) (<[j := Working (b_in b)]> (b_workers b)) (b_done b) (b_results b) true (b_abort b))
(* errors[index] = verifyHeaderWorker(...) *)
| step_verify b j i : b_workers b !! j = Some (Working i) ->
    vstep b (mkB (b_in b) (b_out b) (b_checked b) (<[i := verdict i]> (b_errors b)) (<[j := Finished i]> (b_workers b)) (b_done b) (b_results b) (b_running b) (b_abort b))
(* done <- index *)
| step_done b j i : b_workers b !! j = Some (Finished i) -> length (b_done b) < w ->
    vstep b (mkB (b_in b) (b_out b) (b_checked b) (b_errors b) (<[j := Idle]> (b_workers b)) (b_done b ++ [i]) (b_results b) (b_running b) (b_abort b))
(* index := <-done *)
| step_collect b i rest out results returned : b_running b = true -> b_done b = i :: rest ->
    deliver n ({[i]} ∪ b_checked b) (b_errors b) (b_out b) (b_results b) = (out, results, returned) ->
    vstep b (mkB (b_in b) out ({[i]} ∪ b_checked b) (b_errors b) (b_workers b) rest results (negb returned) (b_abort b))
(* <-abort *)
| step_abort b : b_running b = true -> b_abort b = true ->
    vstep b (mkB (b_in b) (b_out b) (b_checked b) (b_errors b) (b_workers b) (b_done b) (b_results b) false (b_abort b))
(* range over the closed channel *)
| step_exit b j : b_running b = false -> b_workers b !! j = Some Idle -> vstep b (set_worker b j Exited).

(** The caller closes the abort channel. *)
Definition close_abort (b : batch) : batch :=
  mkB (b_in b) (b_out b) (b_checked b) (b_errors b) (b_workers b) (b_done b) (b_results b) (b_running b) true.

Inductive vreach : batch -> Prop :=
| vreach_init : vreach init
| vreach_step b b' : vreach b -> vstep b b' -> vreach b'
| vreach_close b : vreach b -> vreach (close_abort b).

(** ** The invariant *)

Definition handed (x : worker) : list nat := match x with Working i | Finished i => [i] | _ => [] end.
Definition pending_of (b : batch) : list nat := (b_workers b ≫= handed) ++ b_done b.

Record batch_ok (b : batch) : Prop := {
  bo_in : b_in b <= n;
  bo_split : pending_of b ++ elements (b_checked b) ≡ₚ seq 0 (b_in b);
  bo_len : length (b_errors b) = n;
  bo_workers : length (b_workers b) = w;
  bo_errors i : (exists j, b_workers b !! j = Some (Finished i)) \/ i ∈ b_done b \/ i ∈ b_checked b -> b_errors b !! i = Some (verdict i);
  bo_out : b_running b = true -> b_out b ∉ b_checked b /\ b_out b < n;
  bo_results : b_results b = verdict <$> seq 0 (length (b_results b));
  bo_count : if b_running b then length (b_results b) = b_out b else b_abort b = true \/ length (b_results b) = n;
  bo_below i : i < length (b_results b) -> i ∈ b_checked b;
  bo_max : length (b_results b) <= n;
  bo_exit : b_running b = true -> Exited ∉ b_workers b;
}.

Context (Hn : 0 < n) (Hw : 0 < w).

Lemma deliver_ok fuel checked errors : forall out results out' results' ret, n - out <= fuel -> out < n -> results = verdict <$> seq 0 out ->
  (forall i, i < out -> i ∈ checked) -> (forall i, i ∈ checked -> errors !! i = Some (verdict i)) ->
  deliver fuel checked errors out results = (out', results', ret) ->
  results' = verdict <$> seq 0 (length results') /\ length results' <= n /\ (forall i, i < length results' -> i ∈ checked) /\
  (if ret then length results' = n else length results' = out' /\ out' ∉ checked /\ out' < n).
Proof.
  induction fuel as [|fuel IH]; intros out results out' results' ret Hf Ho Hr Hb He; [lia|]. simpl.
  assert (length results = out) as Hlen by (by rewrite Hr, length_fmap, length_seq).
  case_decide as Hin; [|intros [= <- <- <-]; rewrite Hlen; split_and!; try done; lia].
  rewrite (He out Hin). simpl. assert (results ++ [verdict out] = verdict <$> seq 0 (S out)) as Hr'.
  { rewrite seq_S, fmap_app, Hr. done. }
  assert (length (results ++ [verdict out]) = S out) as Hlen' by (rewrite length_app; simpl; lia).
  assert (forall i, i < S out -> i ∈ checked) as Hb' by (intros i Hi; destruct (decide (i = out)) as [->|]; [done|apply Hb; lia]).
  destruct (Nat.eqb_spec out (n - 1)) as [Hlast|].
  - intros [= <- <- <-]. rewrite Hlen'. split_and!; try done; lia.
  - apply IH; try done; lia.
Qed.

Lemma init_ok : batch_ok init.
Proof.
  assert (forall l, replicate l Idle ≫= handed = []) as Hh by (intros l; induction l; [done|by simpl]).
  split; simpl; [lia| |apply length_replicate|apply length_replicate| |intros _; split; [set_solver|lia]|done|done|lia|lia|].
  - unfold pending_of. simpl. rewrite Hh. by rewrite elements_empty.
  - intros i [[j Hj]|[Hi|Hi]]; [by apply lookup_replicate in Hj as [? _]|by apply elem_of_nil in Hi|set_solver].
  - intros _ Hin. apply elem_of_replicate in Hin as [? _]. done.
Qed.

(** Replacing one worker. *)
Lemma handed_insert l j x y : l !! j = Some x -> (<[j := y]> l ≫= handed) ++ handed x ≡ₚ (l ≫= handed) ++ handed y.
Proof.
  revert j. induction l as [|z l IH]; intros [|j] Hj; try done; cbn [lookup list_lookup] in Hj; cbn [insert list_insert].
  - injection Hj as ->. rewrite !list.bind_cons. generalize (l ≫= handed). intros L.
    rewrite <- app_assoc, (Permutation_app_comm (handed y)). apply Permutation_app_tail. apply Permutation_app_comm.
  - rewrite !list.bind_cons, <- !app_assoc. by rewrite IH.
Qed.

Lemma pending_member b i : i ∈ pending_of b <-> (exists j, b_workers b !! j = Some (Working i) \/ b_workers b !! j = Some (Finished i)) \/ i ∈ b_done b.
Proof.
  unfold pending_of. rewrite elem_of_app, list_elem_of_bind. f_equiv. split.
  - intros (x & Hi & (j & Hj)%list_elem_of_lookup). exists j. destruct x; simpl in Hi; try (by apply elem_of_nil in Hi); apply list_elem_of_singleton in Hi as ->; auto.
  - intros (j & [Hj|Hj]); (eexists; split; [|by eapply list_elem_of_lookup_2]; simpl; by left).
Qed.

Lemma split_bound b i : batch_ok b -> i ∈ pending_of b \/ i ∈ b_checked b -> i < b_in b.
Proof.
  intros Hok Hi. assert (i ∈ seq 0 (b_in b)) as Hs%elem_of_seq; [|lia]. rewrite <- (bo_split b Hok), elem_of_app, elem_of_elements. done.
Qed.

Ltac bsimpl := cbn [b_in b_out b_checked b_errors b_workers b_done b_results b_running b_abort set_worker handed].

(** One worker moves on: the indices stay the same, but for those it holds. *)
Lemma pending_set b j x y : b_workers b !! j = Some x ->
  ((<[j := y]> (b_workers b) ≫= handed) ++ b_done b) ++ handed x ≡ₚ pending_of b ++ handed y.
Proof.
  intros Hj. unfold pending_of. rewrite <- !app_assoc, (Permutation_app_comm (b_done b) (handed x)), (Permutation_app_comm (b_done b) (handed y)).
  rewrite !app_assoc. apply Permutation_app_tail. by apply handed_insert.
Qed.

Lemma Finished_insert (l : list worker) j x i : (exists k, <[j := x]> l !! k = Some (Finished i)) -> x = Finished i \/ exists k, l !! k = Some (Finished i).
Proof. intros [k Hk]. apply list_lookup_insert_Some in Hk as [(_ & -> & _)|(_ & Hk)]; eauto. Qed.

Lemma Exited_insert (l : list worker) j x : x <> Exited -> Exited ∉ l -> Exited ∉ <[j := x]> l.
Proof.
  intros Hx Hl (k & Hk)%list_elem_of_lookup. apply list_lookup_insert_Some in Hk as [(_ & ? & _)|(_ & Hk)]; [congruence|]. apply Hl. by eapply list_elem_of_lookup_2.
Qed.

Lemma give_ok b j : batch_ok b -> b_running b = true -> b_in b < n -> b_workers b !! j = Some Idle ->
  batch_ok (mkB (S (b_in b)) (b_out b) (b_checked b) (b_errors b) (<[j := Working (b_in b)]> (b_workers b)) (b_done b) (b_results b) true (b_abort b)).
Proof.
  intros Hok Hr Hi Hj. pose proof (pending_set b j Idle (Working (b_in b)) Hj) as Hp. rewrite app_nil_r in Hp.
  destruct Hok as [H1 H2 H3 H4 H5 H6 H7 H8 H9 H10 H11]. rewrite Hr in *. split; bsimpl; try done.
  - unfold pending_of at 1. bsimpl. rewrite Hp, seq_S, <- H2. simpl. rewrite <- !app_assoc. apply Permutation_app_head. apply Permutation_app_comm.
  - by rewrite length_insert.
  - intros i [Hf|Hd]; [|apply H5; tauto]. apply Finished_insert in Hf as [?|Hf]; [done|]. apply H5. by left.
  - intros _. apply Exited_insert; [done|auto].
Qed.

Lemma verify_ok b j i : batch_ok b -> b_workers b !! j = Some (Working i) ->
  batch_ok (mkB (b_in b) (b_out b) (b_checked b) (<[i := verdict i]> (b_errors b)) (<[j := Finished i]> (b_workers b)) (b_done b) (b_results b) (b_running b) (b_abort b)).
Proof.
  intros Hok Hj. pose proof (pending_set b j _ (Finished i) Hj) as Hp. simpl in Hp. apply Permutation_app_inv_r in Hp.
  assert (i < n) as Hi. { pose proof (bo_in b Hok). assert (i < b_in b); [|lia]. apply split_bound; [done|]. left. apply pending_member. left. eauto. }
  destruct Hok as [H1 H2 H3 H4 H5 H6 H7 H8 H9 H10 H11]. split; bsimpl; try done.
  - unfold pending_of at 1. bsimpl. by rewrite Hp.
  - by rewrite length_insert.
  - by rewrite length_insert.
  - intros k Hk. destruct (decide (k = i)) as [->|Hne]; [apply list_lookup_insert_eq; lia|]. rewrite list_lookup_insert_ne by done. apply H5.
    destruct Hk as [Hf|Hk]; [|tauto]. apply Finished_insert in Hf as [[= ->]|Hf]; [done|by left].
  - intros Hr. apply Exited_insert; [done|auto].
Qed.

Lemma done_ok b j i : batch_ok b -> b_workers b !! j = Some (Finished i) ->
  batch_ok (mkB (b_in b) (b_out b) (b_checked b) (b_errors b) (<[j := Idle]> (b_workers b)) (b_done b ++ [i]) (b_results b) (b_running b) (b_abort b)).
Proof.
  intros Hok Hj. pose proof (pending_set b j _ Idle Hj) as Hp. rewrite app_nil_r in Hp.
  destruct Hok as [H1 H2 H3 H4 H5 H6 H7 H8 H9 H10 H11]. split; bsimpl; try done.
  - unfold pending_of at 1. bsimpl. by rewrite app_assoc, Hp.
  - by rewrite length_insert.
  - intros k [Hf|[Hd|Hc]]; [|apply elem_of_app in Hd as [Hd|Hd]|]; apply H5.
    + apply Finished_insert in Hf as [?|Hf]; [done|by left].
    + tauto.
    + apply list_elem_of_singleton in Hd as ->. left. eauto.
    + tauto.
  - intros Hr. apply Exited_insert; [done|auto].
Qed.

Lemma collect_ok b i rest out results returned : batch_ok b -> b_running b = true -> b_done b = i :: rest ->
  deliver n ({[i]} ∪ b_checked b) (b_errors b) (b_out b) (b_results b) = (out, results, returned) ->
  batch_ok (mkB (b_in b) out ({[i]} ∪ b_checked b) (b_errors b) (b_workers b) rest results (negb returned) (b_abort b)).
Proof.
  intros Hok Hr Hd Hdel. pose proof (bo_split b Hok) as Hsp. unfold pending_of in Hsp. rewrite Hd in Hsp.
  assert (i ∉ b_checked b) as Hni.
  { intros Hin. pose proof (NoDup_seq 0 (b_in b)) as Hnd. rewrite <- Hsp in Hnd. apply NoDup_app in Hnd as (_ & Hx & _). apply (Hx i); [set_solver|by apply elem_of_elements]. }
  destruct Hok as [H1 H2 H3 H4 H5 H6 H7 H8 H9 H10 H11]. rewrite Hr in *. destruct (H6 eq_refl) as [Ho Hlt].
  assert (forall k, k ∈ {[i]} ∪ b_checked b -> b_errors b !! k = Some (verdict k)) as He.
  { intros k Hk. apply H5. rewrite Hd. set_solver. }
  apply deliver_ok in Hdel as (R1 & R2 & R3 & R4); try done; [|lia|rewrite H7, H8; done|intros k Hk; rewrite <- H8 in Hk; set_solver].
  split; bsimpl; try done.
  - unfold pending_of. bsimpl. rewrite <- Hsp, elements_disj_union, elements_singleton by set_solver. rewrite <- !app_assoc. apply Permutation_app_head. simpl.
    symmetry. apply Permutation_middle.
  - intros k [Hf|[Hk|Hk]]; [apply H5; by left|apply H5; right; left; rewrite Hd; by right|by apply He].
  - intros Hret. destruct returned; [done|]. by destruct R4.
  - destruct returned; simpl; [by right|]. by destruct R4.
  - auto.
Qed.

Lemma step_preserves b b' : batch_ok b -> vstep b b' -> batch_ok b'.
Proof.
  intros Hok Hs. destruct Hs as [b j Hr Hi Hj|b j i Hj|b j i Hj Hl|b i rest out results returned Hr Hd Hdel|b Hr Ha|b j Hr Hj].
  - by apply give_ok.
  - by apply verify_ok.
  - by apply done_ok.
  - by eapply collect_ok.
  - destruct Hok as [H1 H2 H3 H4 H5 H6 H7 H8 H9 H10 H11]. split; try done; simpl. by left.
  - pose proof (pending_set b j Idle Exited Hj) as Hp. rewrite !app_nil_r in Hp. destruct Hok as [H1 H2 H3 H4 H5 H6 H7 H8 H9 H10 H11].
    split; bsimpl; try done; [by unfold pending_of at 1; bsimpl; rewrite Hp|by rewrite length_insert| |congruence].
    intros k [Hf|Hk]; [|apply H5; tauto]. apply Finished_insert in Hf as [?|Hf]; [done|]. apply H5. by left.
Qed.

Lemma reach_ok b : vreach b -> batch_ok b.
Proof.
  induction 1 as [|b b' _ IH Hs|b _ IH]; [apply init_ok|by eapply step_preserves|].
  destruct IH as [H1 H2 H3 H4 H5 H6 H7 H8 H9 H10 H11]. split; try done. simpl. destruct (b_running b); [done|]. by left.
Qed.

(** ** Every run ends, with all verdicts *)

Definition weight (x : worker) : nat := match x with Exited => 0 | Idle => 1 | Finished _ => 3 | Working _ => 4 end.
Definition measure (b : batch) : nat :=
  4 * (n - b_in b) + sum_list_with weight (b_workers b) + length (b_done b) + (if b_running b then 1 else 0).

Lemma weight_insert (l : list worker) j x y : l !! j = Some x -> sum_list_with weight (<[j := y]> l) + weight x = sum_list_with weight l + weight y.
Proof.
  revert j. induction l as [|z l IH]; intros [|j] Hj; try done; cbn in Hj; [injection Hj as ->|specialize (IH j Hj)]; simpl; lia.
Qed.

Lemma step_decreases b b' : vstep b b' -> measure b' < measure b.
Proof.
  intros Hs. destruct Hs as [b j Hr Hi Hj|b j i Hj|b j i Hj Hl|b i rest out results returned Hr Hd Hdel|b Hr Ha|b j Hr Hj]; unfold measure; bsimpl.
  - pose proof (weight_insert _ j _ (Working (b_in b)) Hj) as Hx. simpl in Hx. rewrite Hr. lia.
  - pose proof (weight_insert _ j _ (Finished i) Hj) as Hx. simpl in Hx. lia.
  - pose proof (weight_insert _ j _ Idle Hj) as Hx. simpl in Hx. rewrite length_app. simpl. lia.
  - rewrite Hr, Hd. simpl. destruct returned; simpl; lia.
  - rewrite Hr. lia.
  - pose proof (weight_insert _ j _ Exited Hj) as Hx. simpl in Hx. lia.
Qed.

Lemma all_idle b : (forall b', ~ vstep b b') -> b_done b = [] -> forall j x, b_workers b !! j = Some x -> x = Idle \/ x = Exited.
Proof.
  intros Hst Hd j x Hj. destruct x as [|i|i|]; [by left| | |by right]; exfalso.
  - eapply Hst, step_verify, Hj.
  - eapply Hst, step_done; [exact Hj|]. rewrite Hd. simpl. lia.
Qed.

Lemma no_pending b : b_done b = [] -> (forall j x, b_workers b !! j = Some x -> x = Idle \/ x = Exited) -> pending_of b = [].
Proof.
  intros Hd Hi. destruct (pending_of b) as [|i l] eqn:Hp; [done|]. exfalso. assert (i ∈ pending_of b) as Hin by (rewrite Hp; by left).
  apply pending_member in Hin as [(j & [Hj|Hj])|Hin]; [by destruct (Hi _ _ Hj)..|]. rewrite Hd in Hin. by apply elem_of_nil in Hin.
Qed.

Lemma running_moves b : batch_ok b -> b_running b = true -> ~ forall b', ~ vstep b b'.
Proof.
  intros Hok Hr Hst. destruct (bo_out b Hok Hr) as [Ho Hlt]. destruct (b_done b) as [|i rest] eqn:Hd.
  - pose proof (all_idle b Hst Hd) as Hi. destruct (decide (b_in b < n)) as [Hin|Hin].
    + destruct (lookup_lt_is_Some_2 (b_workers b) 0) as [x Hx]; [rewrite (bo_workers b Hok); lia|].
      destruct (Hi _ _ Hx) as [->| ->]; [by eapply Hst, step_give|]. apply (bo_exit b Hok Hr). by eapply list_elem_of_lookup_2.
    + apply Ho. pose proof (bo_split b Hok) as Hsp. rewrite (no_pending b Hd Hi) in Hsp. simpl in Hsp. apply elem_of_elements. rewrite Hsp. apply elem_of_seq.
      pose proof (bo_in b Hok). lia.
  - destruct (deliver n ({[i]} ∪ b_checked b) (b_errors b) (b_out b) (b_results b)) as [[out results] ret] eqn:Hdel. by eapply Hst, step_collect.
Qed.

Lemma returned_done b : batch_ok b -> b_running b = false -> b_abort b = false -> pending_of b = [] /\ length (b_results b) = n.
Proof.
  intros Hok Hr Ha. pose proof (bo_count b Hok) as Hc. rewrite Hr in Hc. destruct Hc as [?|Hc]; [congruence|]. split; [|done].
  destruct (pending_of b) as [|i l] eqn:Hp; [done|]. exfalso. assert (i ∈ pending_of b) as Hin by (rewrite Hp; by left).
  pose proof (split_bound b i Hok (or_introl Hin)) as Hi. pose proof (bo_in b Hok).
  pose proof (NoDup_seq 0 (b_in b)) as Hnd. rewrite <- (bo_split b Hok) in Hnd. apply NoDup_app in Hnd as (_ & Hx & _). apply (Hx i Hin).
  apply elem_of_elements, (bo_below b Hok). lia.
Qed.

Lemma stuck_final b : batch_ok b -> b_abort b = false -> (forall b', ~ vstep b b') ->
  b_running b = false /\ b_results b = verdict <$> seq 0 n /\ Forall (fun x => x = Exited) (b_workers b).
Proof.
  intros Hok Ha Hst. destruct (b_running b) eqn:Hr; [by destruct (running_moves b Hok Hr)|]. destruct (returned_done b Hok Hr Ha) as [Hp Hl].
  split_and!; [done|rewrite (bo_results b Hok), Hl; done|]. apply Forall_lookup. intros j x Hj. destruct x as [|i|i|]; [|exfalso..|done].
  - exfalso. eapply Hst, step_exit; [done|exact Hj].
  - eapply Hst, step_verify, Hj.
  - assert (i ∈ pending_of b) as Hin by (apply pending_member; left; eauto). rewrite Hp in Hin. by apply elem_of_nil in Hin.
Qed.

Lemma results_prefix b : batch_ok b -> b_results b `prefix_of` (verdict <$> seq 0 n).
Proof.
  intros Hok. pose proof (bo_max b Hok) as Hm. rewrite (bo_results b Hok). exists (verdict <$> seq (length (b_results b)) (n - length (b_results b))).
  rewrite <- fmap_app. f_equal. replace n with (length (b_results b) + (n - length (b_results b))) at 1 by lia. by rewrite seq_app.
Qed.

(** C17: however the goroutines interleave, the verdicts arrive in the order of the
    headers and at most once each; every step brings the end nearer; and a run that is
    not aborted can only stop when every verdict was delivered, the coordinator has
    returned and all workers have left. *)
Theorem headers_verified :
  (forall b, vreach b -> b_results b `prefix_of` (verdict <$> seq 0 n)) /\
  (forall b b', vstep b b' -> measure b' < measure b) /\
  (forall b, vreach b -> b_abort b = false -> (forall b', ~ vstep b b') ->
     b_running b = false /\ b_results b = verdict <$> seq 0 n /\ Forall (fun x => x = Exited) (b_workers b)).
Proof.
  split_and!; [intros b Hb; by apply results_prefix, reach_ok|apply step_decreases|intros b Hb; by apply stuck_final, reach_ok].
Qed.

End Batch.

(** One header and one worker, to the end. *)
Lemma headers_verified_witness : exists b, vreach 1 1 (fun _ => Some ErrBlockTime) b /\ b_results b = [Some ErrBlockTime] /\ b_workers b = [Exited].
Proof.
  set (f := fun _ : nat => Some ErrBlockTime). set (b0 := mkB 1 0 ({[0]} ∪ ∅) [Some ErrBlockTime] [Idle] [] [Some ErrBlockTime] false false).
  set (b := set_worker b0 0 Exited).
  assert (vreach 1 1 f b) as Hb.
  { eapply vreach_step; [|apply (step_exit 1 1 f b0 0); done].
    eapply vreach_step; [|apply (step_collect 1 1 f (mkB 1 0 ∅ [Some ErrBlockTime] [Idle] [0] [] true false) 0 [] 0 [Some ErrBlockTime] true); done].
    eapply vreach_step; [|apply (step_done 1 1 f (mkB 1 0 ∅ [Some ErrBlockTime] [Finished 0] [] [] true false) 0 0); [done|simpl; lia]].
    eapply vreach_step; [|apply (step_verify 1 1 f (mkB 1 0 ∅ [None] [Working 0] [] [] true false) 0 0); done].
    eapply vreach_step; [|apply (step_give 1 1 f (mkB 0 0 ∅ [None] [Idle] [] [] true false) 0); [done|simpl; lia|done]].
    constructor. }
  destruct (headers_verified 1 1 f) as (_ & _ & H); [lia|lia|].
  destruct (H b Hb eq_refl) as (_ & Hr & Hw).
  { intros b' Hs. inversion Hs as [? j ? ? Hj|? j i Hj|? j i Hj Hl|? ? ? ? ? ? ?|? ?|? j ? Hj]; subst; simpl in *; try discriminate;
      destruct j; simpl in Hj; discriminate. }
  exists b. split_and!; [exact Hb|exact Hr|reflexivity].
Defined.

(** An abort can leave a worker behind: the buffer of finished indices is full, the
    coordinator is gone, and the worker waits for ever. *)
Lemma abort_leaks_worker : exists b, vreach 3 1 (fun _ => None) b /\ b_abort b = true /\ (forall b', ~ vstep 3 1 (fun _ => None) b b') /\
  Finished 1 ∈ b_workers b.
Proof.
  exists (mkB 2 0 ∅ [None; None; None] [Finished 1] [0] [] false true). split_and!; [|done| |by left].
  - eapply vreach_step; [|eapply (step_abort _ _ _ (mkB 2 0 ∅ [None; None; None] [Finished 1] [0] [] true true)); done].
    apply (vreach_close _ _ _ (mkB 2 0 ∅ [None; None; None] [Finished 1] [0] [] true false)).
    eapply vreach_step; [|apply (step_verify 3 1 (fun _ => None) (mkB 2 0 ∅ [None; None; None] [Working 1] [0] [] true false) 0 1); done].
    eapply vreach_step; [|apply (step_give 3 1 (fun _ => None) (mkB 1 0 ∅ [None; None; None] [Idle] [0] [] true false) 0); [done|simpl; lia|done]].
    eapply vreach_step; [|apply (step_done 3 1 (fun _ => None) (mkB 1 0 ∅ [None; None; None] [Finished 0] [] [] true false) 0 0); [done|simpl; lia]].
    eapply vreach_step; [|apply (step_verify 3 1 (fun _ => None) (mkB 1 0 ∅ [None; None; None] [Working 0] [] [] true false) 0 0); done].
    eapply vreach_step; [|apply (step_give 3 1 (fun _ => None) (mkB 0 0 ∅ [None; None; None] [Idle] [] [] true false) 0); [done|simpl; lia|done]].
    constructor.
  - intros b' Hs. inversion Hs as [? j ? ? Hj|? j i Hj|? j i Hj Hl|? ? ? ? ? ? ?|? ?|? j ? Hj]; subst; simpl in *; try discriminate;
      try (destruct j; simpl in Hj; discriminate). lia.
Qed.
