(* ===== verification/ChainStore.v ===== *)
(** * What the chain database holds

    The laws of the codecs, the frame of a write (which keys of the schema it leaves
    alone), and the block that is stored under a hash. *)

From stdpp Require Import strings base list gmap numbers option.
From S2P Require Import Prelude Types Numerals StateDB Processor Signing Block Database ChainDb.
Local Open Scope Z_scope.

(** ** Writes to keys of the schema *)

Definition writes_only (P : chainKey -> Prop) (w : list (list byte * list byte)) : Prop :=
  Forall (fun kv => exists k, key_ok k /\ P k /\ kv.1 = key_bytes k) w.

Definition is_preimage (k : chainKey) : Prop := match k with KPreimage _ => True | _ => False end.

(** Trie nodes, code and storage values go under hashes, keys of 32 bytes; a secure trie
    also writes the preimages of its keys. *)
Definition off_chain (w : list (list byte * list byte)) : Prop :=
  Forall (fun kv => length kv.1 = 32%nat \/ exists h, hash_ok h /\ kv.1 = key_bytes (KPreimage h)) w.

Lemma key_length k : key_ok k -> length (key_bytes k) <> 32%nat.
Proof.
  destruct k; simpl; unfold hash_ok, canonicalKey, headerKey, numberKey, blockBodyKey, receiptsKey, lookupKey, bloomBitsKey, configKey, table_key;
    rewrite ?length_app, ?put_be_length, ?encodeBlockNumber_length; simpl; try done; intros; try lia;
    repeat match goal with H : _ /\ _ |- _ => destruct H end; lia.
Qed.

Lemma writes_only_app P w w' : writes_only P w -> writes_only P w' -> writes_only P (w ++ w').
Proof. apply Forall_app_2. Qed.

Lemma writes_only_impl (P Q : chainKey -> Prop) w : (forall k, P k -> Q k) -> writes_only P w -> writes_only Q w.
Proof. intros HPQ. apply Forall_impl. intros kv (k & ? & ? & ?). eauto. Qed.

Lemma frame_key P w d k : writes_only P w -> key_ok k -> ~ P k -> put_all d w !! key_bytes k = d !! key_bytes k.
Proof.
  intros Hw Hk HP. apply put_all_notin. intros (kv & He & Hin)%list_elem_of_fmap.
  unfold writes_only in Hw. rewrite Forall_forall in Hw. destruct (Hw _ (proj1 (list_elem_of_In _ _) Hin)) as (k' & Hk' & HP' & He').
  apply HP. rewrite He' in He. by apply key_bytes_inj in He as ->.
Qed.

Lemma frame_off P w d x : writes_only P w -> length x = 32%nat -> put_all d w !! x = d !! x.
Proof.
  intros Hw Hx. apply put_all_notin. intros (kv & He & Hin)%list_elem_of_fmap.
  unfold writes_only in Hw. rewrite Forall_forall in Hw. destruct (Hw _ (proj1 (list_elem_of_In _ _) Hin)) as (k' & Hk' & _ & He').
  apply (key_length k' Hk'). by rewrite <- He', <- He.
Qed.

Lemma off_chain_key w d k : off_chain w -> key_ok k -> ~ is_preimage k -> put_all d w !! key_bytes k = d !! key_bytes k.
Proof.
  intros Hw Hk Hp. apply put_all_notin. intros (kv & He & Hin)%list_elem_of_fmap.
  unfold off_chain in Hw. rewrite Forall_forall in Hw. destruct (Hw kv (proj1 (list_elem_of_In _ _) Hin)) as [Hl|(h & Hh & Hh')].
  - apply (key_length k Hk). by rewrite He.
  - rewrite Hh' in He. apply key_bytes_inj in He as ->; [|done..]. by apply Hp.
Qed.

Lemma delete_all_notin ks : forall d k, k ∉ ks -> delete_all d ks !! k = d !! k.
Proof.
  induction ks as [|x ks IH]; intros d k Hk; simpl; [done|]. apply not_elem_of_cons in Hk as [Hne Hk].
  unfold delete_all in *. simpl. rewrite IH by done. unfold db_Delete. by rewrite lookup_delete_ne.
Qed.

Lemma delete_key P ks d k : Forall (fun x => exists k', key_ok k' /\ P k' /\ x = key_bytes k') ks -> key_ok k -> ~ P k ->
  delete_all d ks !! key_bytes k = d !! key_bytes k.
Proof.
  intros Hw Hk HP. apply delete_all_notin. intros Hin. rewrite Forall_forall in Hw. destruct (Hw _ (proj1 (list_elem_of_In _ _) Hin)) as (k' & Hk' & HP' & He).
  by apply key_bytes_inj in He as ->.
Qed.

Lemma delete_off P ks d x : Forall (fun x => exists k', key_ok k' /\ P k' /\ x = key_bytes k') ks -> length x = 32%nat ->
  delete_all d ks !! x = d !! x.
Proof.
  intros Hw Hx. apply delete_all_notin. intros Hin. rewrite Forall_forall in Hw. destruct (Hw _ (proj1 (list_elem_of_In _ _) Hin)) as (k' & Hk' & _ & ->).
  by apply (key_length k' Hk').
Qed.

(** ** Hashes under keys of the schema *)

#[export] Instance chainKey_eq_dec : EqDecision chainKey.
Proof. solve_decision. Defined.

Definition slot (d : Db) (k : chainKey) : Hash := stored_hash d (key_bytes k).

Lemma key_slot_put d k v k' : key_ok k -> key_ok k' -> hash_ok v ->
  slot (put_all d [(key_bytes k, v)]) k' = if decide (k = k') then v else slot d k'.
Proof.
  intros Hk Hk' Hv. unfold slot, stored_hash, db_Get, put_all, db_Put. cbn [foldl fst snd]. case_decide as He.
  - subst k'. rewrite lookup_insert_eq. unfold hash_ok in Hv. rewrite <- (BytesToHash_id v) at 2 by done. by destruct v.
  - rewrite lookup_insert_ne; [done|]. intros Hb. by apply He, key_bytes_inj.
Qed.

Lemma slot_frame P w d k : writes_only P w -> key_ok k -> ~ P k -> slot (put_all d w) k = slot d k.
Proof. intros Hw Hk HP. unfold slot, stored_hash, db_Get. by rewrite (frame_key P). Qed.

(** ** The data of blocks *)

Definition block_key (k : chainKey) : Prop := match k with KHeader _ _ | KNumber _ | KBody _ _ => True | _ => False end.

(** Two databases with the same blocks and the same values under hashes. *)
Record same_blocks (d d' : Db) : Prop := {
  sb_keys k : key_ok k -> block_key k -> d !! key_bytes k = d' !! key_bytes k;
  sb_off x : length x = 32%nat -> d !! x = d' !! x;
}.

#[export] Instance same_blocks_equiv : Equivalence same_blocks.
Proof.
  split.
  - by split.
  - intros d d' [H1 H2]. split; intros; symmetry; auto.
  - intros d1 d2 d3 [H1 H2] [H3 H4]. split; intros; [by rewrite H1, H3|by rewrite H2, H4].
Qed.

Lemma same_blocks_put P w d : writes_only P w -> (forall k, block_key k -> ~ P k) -> same_blocks d (put_all d w).
Proof. intros Hw HP. split; intros; symmetry; [eapply frame_key|eapply frame_off]; eauto. Qed.

Lemma same_blocks_delete P ks d : Forall (fun x => exists k', key_ok k' /\ P k' /\ x = key_bytes k') ks -> (forall k, block_key k -> ~ P k) ->
  same_blocks d (delete_all d ks).
Proof. intros Hw HP. split; intros; symmetry; [eapply delete_key|eapply delete_off]; eauto. Qed.

(** ** Codecs *)

Definition wireHeader (h : Header) : Header := with_producer h zeroAddress.

Class CodecLaws (Tx : Type) `{BlockEnv Tx, !ChainCodec Tx} : Prop := {
  header_roundtrip h : decHeader (encHeader h) = Some (wireHeader h);
  header_filled h : encHeader h <> [];
  body_roundtrip (l : list Tx) : decBody (encBody l) = Some (wireTx <$> l);
  body_filled (l : list Tx) : encBody l <> [];
  (** a decoded object is skipped *)
  receipt_skip l r : decReceipt l = Some r -> (length (skipMsg l) < length l)%nat;
  hash_length h : hash_ok (HeaderHash h);
  keccak_32 x : length (Keccak x) = 32%nat;
  tx_hash_length (tx : Tx) : hash_ok (TransactionHash tx);
  (** the producer is not encoded *)
  hash_wire h : HeaderHash (wireHeader h) = HeaderHash h;
}.

Lemma filled_some x : x <> [] -> filled (Some x) = Some x.
Proof. by destruct x. Qed.

Section Known.
Context {Tx : Type} `{BlockEnv Tx, !ChainCodec Tx}.

(** The block that is stored under a hash. *)
Definition known (d : Db) (h : Hash) : option (Block Tx) :=
  if GetBlockNumber d h =? missingNumber then None else GetBlock d h (GetBlockNumber d h).

(** The blocks depend on their own keys only. *)
Definition block_data (d d' : Db) : Prop := forall k, key_ok k -> block_key k -> d !! key_bytes k = d' !! key_bytes k.

Section Same.
Context (d d' : Db) (Hs : block_data d d').

Lemma GetBlockNumber_same h : hash_ok h -> GetBlockNumber d h = GetBlockNumber d' h.
Proof using Hs. intros Hh. unfold GetBlockNumber, db_Get. by rewrite (Hs (KNumber h) Hh I : d !! numberKey h = d' !! numberKey h). Qed.

Lemma header_key_same h n : hash_ok h -> u64_ok n -> d !! headerKey h n = d' !! headerKey h n.
Proof using Hs. intros Hh Hn. exact (Hs (KHeader h n) (conj Hh Hn) I). Qed.

Lemma body_key_same h n : hash_ok h -> u64_ok n -> d !! blockBodyKey h n = d' !! blockBodyKey h n.
Proof using Hs. intros Hh Hn. exact (Hs (KBody h n) (conj Hh Hn) I). Qed.

Lemma GetBlock_same h n : hash_ok h -> u64_ok n -> GetBlock d h n = GetBlock d' h n.
Proof using Hs.
  intros Hh Hn. unfold GetBlock, GetHeader, GetHeaderMsgp, GetBody, GetBodyMsgp, db_Get.
  by rewrite header_key_same, body_key_same.
Qed.

Lemma known_same h : hash_ok h -> u64_ok (GetBlockNumber d h) -> known d h = known d' h.
Proof using Hs. intros Hh Hn. unfold known. rewrite <- (GetBlockNumber_same h Hh). by rewrite GetBlock_same. Qed.

End Same.

(** ** Writing a block *)

Context `{!CodecLaws Tx}.

(** A block as it is read back. *)
Definition wireBlock (b : Block Tx) : Block Tx := mkBlk (wireHeader (B_header b)) (wireTx <$> B_body b).

Lemma number_ok h : u64_ok (header_NumberU64 h).
Proof using Type. unfold header_NumberU64, big_Uint64. apply (wrap_range 64). lia. Qed.

Definition own_key (b : Block Tx) (k : chainKey) : Prop :=
  k = KBody (block_Hash b) (NumberU64 b) \/ k = KNumber (block_Hash b) \/ k = KHeader (block_Hash b) (NumberU64 b).

Lemma WriteBlock_only b : writes_only (own_key b) (WriteBlock b).
Proof.
  pose proof (hash_length (B_header b)) as Hl. pose proof (number_ok (B_header b)) as Hn. unfold WriteBlock, WriteBody, WriteBodyMsgp, WriteHeader.
  rewrite CopyHeader_id. repeat apply Forall_cons_2; [| | |apply Forall_nil_2].
  - exists (KBody (block_Hash b) (NumberU64 b)). split_and!; [done|unfold own_key; auto|done].
  - exists (KNumber (block_Hash b)). split_and!; [done|unfold own_key; auto|done].
  - exists (KHeader (block_Hash b) (NumberU64 b)). split_and!; [done|unfold own_key; auto|done].
Qed.

(** The three keys of a block, each with its value. *)
Lemma WriteBlock_values d b :
  put_all d (WriteBlock b) !! key_bytes (KBody (block_Hash b) (NumberU64 b)) = Some (encBody (B_body b)) /\
  put_all d (WriteBlock b) !! key_bytes (KNumber (block_Hash b)) = Some (encodeBlockNumber (NumberU64 b)) /\
  put_all d (WriteBlock b) !! key_bytes (KHeader (block_Hash b) (NumberU64 b)) = Some (encHeader (B_header b)).
Proof.
  pose proof (hash_length (B_header b)) as Hl. pose proof (number_ok (B_header b)) as Hn.
  assert (WriteBlock b = [(key_bytes (KBody (block_Hash b) (NumberU64 b)), encBody (B_body b));
    (key_bytes (KNumber (block_Hash b)), encodeBlockNumber (NumberU64 b)); (key_bytes (KHeader (block_Hash b) (NumberU64 b)), encHeader (B_header b))]) as ->.
  { unfold WriteBlock, WriteBody, WriteBodyMsgp, WriteHeader. by rewrite CopyHeader_id. }
  unfold put_all, db_Put. cbn [foldl fst snd].
  assert (forall k k', key_ok k -> key_ok k' -> k <> k' -> key_bytes k <> key_bytes k') as Hne by (intros k k' ? ? Hk He; by apply Hk, key_bytes_inj).
  split_and!.
  - by rewrite !lookup_insert_ne, lookup_insert_eq by (by apply Hne).
  - by rewrite lookup_insert_ne, lookup_insert_eq by (by apply Hne).
  - by rewrite lookup_insert_eq.
Qed.

End Known.
