(* ===== verification/BlockChain.v ===== *)
(** * The block chain (core/blockchain: blockchain.go, headerChain.go, blockValidator.go)

    The state of a chain is its database, the heads it keeps in memory and its caches.
    Every method is a function on that state; the locks are left out but for the one
    that a method takes twice ([SetHead]).  The execution of a block and its state are
    the fields of [ChainExec]; headers are verified by the engine of [Engine].

    [Err Deadlock] is a call that never returns, [Panic] the use of a nil pointer. *)

From stdpp Require Import base list gmap numbers option sorting.
From S2P Require Import Prelude Types StateDB Vm Processor Signing Block Database Lru ChainDb Engine.
Local Open Scope Z_scope.

Inductive chainErr : Type :=
| ErrKnownBlock | UnknownAncestor | PrunedAncestor | TxRootMismatch | BloomMismatch | ReceiptRootMismatch | StateRootMismatch
| EngineErr (e : engineErr) | ProcessErr | StateErr | CommitErr | NonContiguous | FutureBlock | InvalidOldChain | InvalidNewChain
| NonExistentBlock | ErrNoGenesis | Aborted | HeaderUnknown | ExportRange | ExportMissing.

Inductive stop : Type := Deadlock.

Inductive WriteStatus : Type := NonStatTy | CanonStatTy | SideStatTy.

Inductive chainEvent (Tx : Type) : Type :=
| ChainEvent (b : Block Tx) (logs : list Log)
| ChainSideEvent (b : Block Tx)
| ChainHeadEvent (b : Block Tx)
| RemovedLogsEvent (logs : list Log)
| LogsEvent (logs : list Log).
Arguments ChainEvent {_}. Arguments ChainSideEvent {_}. Arguments ChainHeadEvent {_}. Arguments RemovedLogsEvent {_}. Arguments LogsEvent {_}.

(** States and the execution of blocks: [NewState] opens a root, [ProcessBlock] returns
    the values for the database, the receipts, the logs and the state reached.  The tries
    that the state database keeps in memory after a commit are those it would read. *)
Class ChainExec (Tx : Type) : Type := {
  StateT : Type;
  NewState : Db -> Hash -> option StateT;
  ProcessBlock : Db -> Block Tx -> StateT -> outcome unit (list (list byte * list byte) * list Receipt * list Log * StateT);
  IntermediateRoot : StateT -> Hash;
  CommitTo : StateT -> option (list (list byte * list byte));
  Preimages : StateT -> gmap Hash (list byte);
}.

Record BlockChain (Tx : Type) : Type := mkChain {
  chainDb : Db;
  genesisHeader : Header;
  currentHeader : option Header;
  currentHeaderHash : Hash;
  headerCache : Lru Hash Header;
  numberCache : Lru Hash Z;
  genesisBlock : Block Tx;
  currentBlock : option (Block Tx);
  currentFastBlock : option (Block Tx);
  bodyCache : Lru Hash (list Tx);
  bodyMsgpCache : Lru Hash (list byte);
  blockCache : Lru Hash (Block Tx);
  futureBlocks : Lru Hash (Block Tx);
  badBlocks : Lru Hash Header;
  procInterrupt : bool;
  feeds : list (chainEvent Tx);
}.
Arguments mkChain {_}. Arguments chainDb {_}. Arguments genesisHeader {_}. Arguments currentHeader {_}. Arguments currentHeaderHash {_}.
Arguments headerCache {_}. Arguments numberCache {_}. Arguments genesisBlock {_}. Arguments currentBlock {_}. Arguments currentFastBlock {_}.
Arguments bodyCache {_}. Arguments bodyMsgpCache {_}. Arguments blockCache {_}. Arguments futureBlocks {_}. Arguments badBlocks {_}.
Arguments procInterrupt {_}. Arguments feeds {_}.

(** ** The monad of the methods *)

Definition Ch (Tx A : Type) : Type := BlockChain Tx -> outcome stop (A * BlockChain Tx).

#[export] Instance Ch_ret {Tx} : MRet (Ch Tx) := fun A a s => Ok (a, s).
#[export] Instance Ch_bind {Tx} : MBind (Ch Tx) := fun A B f m s =>
  match m s with Ok (a, s) => f a s | Err e => Err e | Panic => Panic | OutOfFuel => OutOfFuel end.

Section State.
Context {Tx : Type}.
Implicit Types s : BlockChain Tx.

Definition gets {A} (f : BlockChain Tx -> A) : Ch Tx A := fun s => Ok (f s, s).
Definition modify (f : BlockChain Tx -> BlockChain Tx) : Ch Tx unit := fun s => Ok (tt, f s).
Definition nilptr {A} : Ch Tx A := fun _ => Panic.
Definition non_nil {A} (o : option A) : Ch Tx A := match o with Some a => mret a | None => nilptr end.
Definition run {E A} (r : outcome E A) : Ch Tx (E + A) := fun s =>
  match r with Ok a => Ok (inr a, s) | Err e => Ok (inl e, s) | Panic => Panic | OutOfFuel => OutOfFuel end.

Definition set_db s (d : Db) := mkChain d (genesisHeader s) (currentHeader s) (currentHeaderHash s) (headerCache s) (numberCache s) (genesisBlock s)
  (currentBlock s) (currentFastBlock s) (bodyCache s) (bodyMsgpCache s) (blockCache s) (futureBlocks s) (badBlocks s) (procInterrupt s) (feeds s).
Definition set_header s (h : option Header) (hash : Hash) := mkChain (chainDb s) (genesisHeader s) h hash (headerCache s) (numberCache s) (genesisBlock s)
  (currentBlock s) (currentFastBlock s) (bodyCache s) (bodyMsgpCache s) (blockCache s) (futureBlocks s) (badBlocks s) (procInterrupt s) (feeds s).
Definition set_genesis_header s (h : Header) := mkChain (chainDb s) h (currentHeader s) (currentHeaderHash s) (headerCache s) (numberCache s) (genesisBlock s)
  (currentBlock s) (currentFastBlock s) (bodyCache s) (bodyMsgpCache s) (blockCache s) (futureBlocks s) (badBlocks s) (procInterrupt s) (feeds s).
Definition set_hcaches s hc nc := mkChain (chainDb s) (genesisHeader s) (currentHeader s) (currentHeaderHash s) hc nc (genesisBlock s)
  (currentBlock s) (currentFastBlock s) (bodyCache s) (bodyMsgpCache s) (blockCache s) (futureBlocks s) (badBlocks s) (procInterrupt s) (feeds s).
Definition set_genesis s (b : Block Tx) := mkChain (chainDb s) (genesisHeader s) (currentHeader s) (currentHeaderHash s) (headerCache s) (numberCache s) b
  (currentBlock s) (currentFastBlock s) (bodyCache s) (bodyMsgpCache s) (blockCache s) (futureBlocks s) (badBlocks s) (procInterrupt s) (feeds s).
Definition set_block s (b : option (Block Tx)) := mkChain (chainDb s) (genesisHeader s) (currentHeader s) (currentHeaderHash s) (headerCache s) (numberCache s) (genesisBlock s)
  b (currentFastBlock s) (bodyCache s) (bodyMsgpCache s) (blockCache s) (futureBlocks s) (badBlocks s) (procInterrupt s) (feeds s).
Definition set_fast s (b : option (Block Tx)) := mkChain (chainDb s) (genesisHeader s) (currentHeader s) (currentHeaderHash s) (headerCache s) (numberCache s) (genesisBlock s)
  (currentBlock s) b (bodyCache s) (bodyMsgpCache s) (blockCache s) (futureBlocks s) (badBlocks s) (procInterrupt s) (feeds s).
Definition set_bcaches s bo bm bl fu := mkChain (chainDb s) (genesisHeader s) (currentHeader s) (currentHeaderHash s) (headerCache s) (numberCache s) (genesisBlock s)
  (currentBlock s) (currentFastBlock s) bo bm bl fu (badBlocks s) (procInterrupt s) (feeds s).
Definition set_bad s c := mkChain (chainDb s) (genesisHeader s) (currentHeader s) (currentHeaderHash s) (headerCache s) (numberCache s) (genesisBlock s)
  (currentBlock s) (currentFastBlock s) (bodyCache s) (bodyMsgpCache s) (blockCache s) (futureBlocks s) c (procInterrupt s) (feeds s).
Definition add_feed s (e : chainEvent Tx) := mkChain (chainDb s) (genesisHeader s) (currentHeader s) (currentHeaderHash s) (headerCache s) (numberCache s) (genesisBlock s)
  (currentBlock s) (currentFastBlock s) (bodyCache s) (bodyMsgpCache s) (blockCache s) (futureBlocks s) (badBlocks s) (procInterrupt s) (feeds s ++ [e]).

Definition set_interrupt s (i : bool) := mkChain (chainDb s) (genesisHeader s) (currentHeader s) (currentHeaderHash s) (headerCache s) (numberCache s) (genesisBlock s)
  (currentBlock s) (currentFastBlock s) (bodyCache s) (bodyMsgpCache s) (blockCache s) (futureBlocks s) (badBlocks s) i (feeds s).

Definition put_db (w : list (list byte * list byte)) : Ch Tx unit := modify (fun s => set_db s (put_all (chainDb s) w)).
Definition del_db (keys : list (list byte)) : Ch Tx unit := modify (fun s => set_db s (delete_all (chainDb s) keys)).

Fixpoint mapM' {A B} (f : A -> Ch Tx B) (l : list A) : Ch Tx (list B) :=
  match l with [] => mret [] | x :: l => y ← f x; ys ← mapM' f l; mret (y :: ys) end.

End State.

Section HeaderChain.
Context {Tx : Type} `{BlockEnv Tx, !ChainCodec Tx}.
Abbreviation C := (Ch Tx).

(** ** The header chain (headerChain.go) *)

Definition hc_GetBlockNumber (hash : Hash) : C Z := fun s =>
  match Get (numberCache s) hash with
  | (Some n, c) => Ok (n, set_hcaches s (headerCache s) c)
  | (None, _) =>
      let n := GetBlockNumber (chainDb s) hash in
      Ok (n, if n =? missingNumber then s else set_hcaches s (headerCache s) (Add (numberCache s) hash n))
  end.

Definition hc_GetHeader (hash : Hash) (number : Z) : C (option Header) := fun s =>
  match Get (headerCache s) hash with
  | (Some h, c) => Ok (Some h, set_hcaches s c (numberCache s))
  | (None, _) =>
      match GetHeader (chainDb s) hash number with
      | None => Ok (None, s)
      | Some h => Ok (Some h, set_hcaches s (Add (headerCache s) hash h) (numberCache s))
      end
  end.

Definition hc_GetHeaderByHash (hash : Hash) : C (option Header) := n ← hc_GetBlockNumber hash; hc_GetHeader hash n.

Definition hc_HasHeader (hash : Hash) (number : Z) : C bool := gets (fun s =>
  Contains (numberCache s) hash || Contains (headerCache s) hash || db_Has (chainDb s) (headerKey hash number)).

Definition hc_GetHeaderByNumber (number : Z) : C (option Header) :=
  hash ← gets (fun s => GetCanonicalHash (chainDb s) number);
  if bool_decide (hash = zeroHash) then mret None else hc_GetHeader hash number.

(** The hash of a nil header: the panic of the encoder is recovered in [MsgpHash]. *)
Definition hash_of (h : option Header) : Hash := match h with Some h => HeaderHash h | None => zeroHash end.

Definition SetCurrentHeader (head : option Header) : C unit :=
  _ ← put_db (WriteHeadHeaderHash (hash_of head));
  modify (fun s => set_header s head (hash_of head)).

Definition SetGenesis (head : Header) : C unit := modify (fun s => set_genesis_header s head).

(** [for GetCanonicalHash(headNumber) != headHash { ... }] *)
Fixpoint overwrite_canonical (fuel : nat) (headHash : Hash) (headNumber : Z) (headHeader : option Header) : C unit :=
  match fuel with
  | O => fun _ => OutOfFuel
  | S fuel =>
      canon ← gets (fun s => GetCanonicalHash (chainDb s) headNumber);
      if bool_decide (canon = headHash) then mret ()
      else
        _ ← put_db (WriteCanonicalHash headHash headNumber);
        h ← non_nil headHeader;
        let hash := ParentHash h in
        let number := u64 (header_NumberU64 h - 1) in
        next ← hc_GetHeader hash number;
        overwrite_canonical fuel hash number next
  end.

Definition hc_WriteHeader (header : Header) : C WriteStatus :=
  let hash := HeaderHash header in
  let number := header_NumberU64 header in
  current ← gets currentHeader;
  current ← non_nil current;
  _ ← put_db (WriteHeader header);
  status ←
    (if header_NumberU64 current <? number then
       let headHash := ParentHash header in
       let headNumber := u64 (number - 1) in
       headHeader ← hc_GetHeader headHash headNumber;
       _ ← overwrite_canonical (S (Z.to_nat number)) headHash headNumber headHeader;
       _ ← put_db (WriteCanonicalHash hash number);
       _ ← put_db (WriteHeadHeaderHash hash);
       _ ← modify (fun s => set_header s (Some (CopyHeader header)) hash);
       mret CanonStatTy
     else mret SideStatTy);
  _ ← modify (fun s => set_hcaches s (Add (headerCache s) hash header) (Add (numberCache s) hash number));
  mret status.

(** Is every header the child of the one before? *)
Fixpoint headers_linked (prev : Header) (l : list Header) : bool :=
  match l with
  | [] => true
  | h :: l => (header_NumberU64 h =? u64 (header_NumberU64 prev + 1)) && bool_decide (ParentHash h = HeaderHash prev) && headers_linked h l
  end.

(** What the engine reads: the chain as it is when the verification starts.  A header of
    the batch is written only after its own verdict was read, so the answers are those of
    the chain at the time.  That a lookup moves its header to the front of the cache is
    left out. *)
Definition chain_reader (chainId : option Z) (s : BlockChain Tx) : ChainReader :=
  mkReader chainId (fun hash number => match hc_GetHeader hash number s with Ok (h, _) => h | _ => None end).

(** [ValidateHeaderChain]: of every [checkFreq] headers one picked at random ([rand i]
    is the draw of round [i], below [checkFreq]) has its seal checked, and the last one
    always: an empty chain panics there, and a frequency of zero in the division.
    [interrupts] is what [procInterrupt] answers before each verdict. *)
Definition pick_seals (n : nat) (checkFreq : Z) (rand : nat -> Z) : list bool :=
  fold_left (fun seals i => <[Z.to_nat (Z.min (Z.of_nat i * checkFreq + rand i) (Z.of_nat n - 1)) := true]> seals)
    (seq 0 (Z.to_nat (Z.quot (Z.of_nat n) checkFreq))) (replicate n false).

Definition seals_of (n : nat) (checkFreq : Z) (rand : nat -> Z) : list bool :=
  <[(n - 1)%nat := true]> (pick_seals n checkFreq rand).

Fixpoint read_verdicts (i : nat) (verdicts : list (option engineErr)) (interrupts : list bool) : nat * option chainErr :=
  match verdicts with
  | [] => (0%nat, None)
  | v :: verdicts =>
      if default false (head interrupts) then (0%nat, Some Aborted)
      else match v with
           | Some e => (i, Some (EngineErr e))
           | None => read_verdicts (S i) verdicts (tail interrupts)
           end
  end.

Definition verify_all (chainId : option Z) (headers : list Header) (seals : list bool) : C (list (option engineErr)) := fun s =>
  match mapM (fun i => verifyHeaderWorker (chain_reader chainId s) headers seals i) (seq 0 (length headers)) with
  | Ok l => Ok (l, s)
  | OutOfFuel => OutOfFuel
  | _ => Panic
  end.

Definition ValidateHeaderChain (chainId : option Z) (chain : list Header) (checkFreq : Z) (rand : nat -> Z) (interrupts : list bool)
    : C (nat * option chainErr) :=
  match chain with
  | [] => nilptr
  | h :: l =>
      if negb (headers_linked h l) then mret (0%nat, Some NonContiguous)
      else if checkFreq =? 0 then nilptr
      else verdicts ← verify_all chainId chain (seals_of (length chain) checkFreq rand); mret (read_verdicts 0 verdicts interrupts)
  end.

(** [InsertHeaderChain] of the header chain, which skips known headers, and of the block
    chain. *)
Fixpoint insert_headers (i : nat) (chain : list Header) (interrupts : list bool) : C (nat * option chainErr) :=
  match chain with
  | [] => mret (0%nat, None)
  | h :: chain =>
      if default false (head interrupts) then mret (i, Some Aborted)
      else
        known ← hc_HasHeader (HeaderHash h) (header_NumberU64 h);
        _ ← (if known : bool then mret SideStatTy else hc_WriteHeader h);
        insert_headers (S i) chain (tail interrupts)
  end.

Definition InsertHeaderChain (chainId : option Z) (chain : list Header) (checkFreq : Z) (rand : nat -> Z) (interrupts1 interrupts2 : list bool)
    : C (nat * option chainErr) :=
  '(i, e) ← ValidateHeaderChain chainId chain checkFreq rand interrupts1;
  match e with
  | Some e => mret (i, Some e)
  | None => insert_headers 0 chain interrupts2
  end.

(** [GetBlockHashesFromHash] *)
Fixpoint hashes_from (fuel : nat) (header : Header) : C (list Hash) :=
  match fuel with
  | O => mret []
  | S fuel =>
      let next := ParentHash header in
      h ← hc_GetHeader next (u64 (header_NumberU64 header - 1));
      match h with
      | None => mret []
      | Some h => rest ← (if Z.sgn (Number h) =? 0 then mret [] else hashes_from fuel h); mret (next :: rest)
      end
  end.

Definition GetBlockHashesFromHash (hash : Hash) (max : nat) : C (list Hash) :=
  h ← hc_GetHeaderByHash hash;
  match h with None => mret [] | Some h => hashes_from max h end.

(** The loop of [SetHead] that deletes headers, and bodies through the callback. *)
Fixpoint rewind_headers (fuel : nat) (head : Z) : C unit :=
  match fuel with
  | O => fun _ => OutOfFuel
  | S fuel =>
      current ← gets currentHeader;
      match current with
      | None => mret ()
      | Some h =>
          if head <? header_NumberU64 h then
            let hash := HeaderHash h in
            let num := header_NumberU64 h in
            _ ← del_db (DeleteBody hash num);
            _ ← del_db (DeleteHeader hash num);
            next ← hc_GetHeader (ParentHash h) (u64 (num - 1));
            _ ← modify (fun s => set_header s next (currentHeaderHash s));
            rewind_headers fuel head
          else mret ()
      end
  end.

(** [for i := height; i > head; i--] *)
Definition canonical_above (head height : Z) : list (list byte) :=
  (fun k => canonicalKey (height - Z.of_nat k)) <$> seq 0 (Z.to_nat (height - head)).

Definition hc_SetHead (head : Z) : C unit :=
  current ← gets currentHeader;
  let height := match current with Some h => header_NumberU64 h | None => 0 end in
  _ ← rewind_headers (S (Z.to_nat height)) head;
  _ ← del_db (canonical_above head height);
  _ ← modify (fun s => set_hcaches s (Purge (headerCache s)) (Purge (numberCache s)));
  _ ← modify (fun s => match currentHeader s with None => set_header s (Some (genesisHeader s)) (currentHeaderHash s) | Some _ => s end);
  current ← gets currentHeader;
  _ ← modify (fun s => set_header s current (hash_of current));
  put_db (WriteHeadHeaderHash (hash_of current)).

End HeaderChain.

Section Chain.
Context {Tx : Type} `{BlockEnv Tx, !ChainCodec Tx, !ChainExec Tx}.
Context (chainId : option Z).
Abbreviation C := (Ch Tx).
Abbreviation Blk := (Block Tx).

(** ** Reading blocks *)

Definition bc_GetBody (hash : Hash) : C (option (list Tx)) :=
  cached ← gets (fun s => Get (bodyCache s) hash);
  match cached with
  | (Some body, c) => _ ← modify (fun s => set_bcaches s c (bodyMsgpCache s) (blockCache s) (futureBlocks s)); mret (Some body)
  | (None, _) =>
      number ← hc_GetBlockNumber hash;
      body ← gets (fun s => GetBody (chainDb s) hash number);
      match body with
      | None => mret None
      | Some body => _ ← modify (fun s => set_bcaches s (Add (bodyCache s) hash body) (bodyMsgpCache s) (blockCache s) (futureBlocks s)); mret (Some body)
      end
  end.

Definition bc_GetBodyMsgp (hash : Hash) : C (option (list byte)) :=
  cached ← gets (fun s => Get (bodyMsgpCache s) hash);
  match cached with
  | (Some body, c) => _ ← modify (fun s => set_bcaches s (bodyCache s) c (blockCache s) (futureBlocks s)); mret (Some body)
  | (None, _) =>
      number ← hc_GetBlockNumber hash;
      body ← gets (fun s => filled (GetBodyMsgp (chainDb s) hash number));
      match body with
      | None => mret None
      | Some body => _ ← modify (fun s => set_bcaches s (bodyCache s) (Add (bodyMsgpCache s) hash body) (blockCache s) (futureBlocks s)); mret (Some body)
      end
  end.

Definition HasBlock (hash : Hash) (number : Z) : C bool :=
  gets (fun s => Contains (blockCache s) hash || db_Has (chainDb s) (blockBodyKey hash number)).

Definition bc_GetBlock (hash : Hash) (number : Z) : C (option Blk) := fun s =>
  match Get (blockCache s) hash with
  | (Some b, c) => Ok (Some b, set_bcaches s (bodyCache s) (bodyMsgpCache s) c (futureBlocks s))
  | (None, _) =>
      match GetBlock (chainDb s) hash number with
      | None => Ok (None, s)
      | Some b => Ok (Some b, set_bcaches s (bodyCache s) (bodyMsgpCache s) (Add (blockCache s) (block_Hash b) b) (futureBlocks s))
      end
  end.

Definition GetBlockByHash (hash : Hash) : C (option Blk) := n ← hc_GetBlockNumber hash; bc_GetBlock hash n.

Definition GetBlockByNumber (number : Z) : C (option Blk) :=
  hash ← gets (fun s => GetCanonicalHash (chainDb s) number);
  if bool_decide (hash = zeroHash) then mret None else bc_GetBlock hash number.

Definition HasState (hash : Hash) : C bool := gets (fun s => bool_decide (is_Some (NewState (chainDb s) hash))).

Definition HasBlockAndState (hash : Hash) : C bool :=
  b ← GetBlockByHash hash;
  match b with None => mret false | Some b => HasState (StateRootHash (B_header b)) end.

Definition GetReceiptsByHash (hash : Hash) : C (option (list Receipt)) := fun s =>
  match GetBlockReceipts (chainDb s) hash (GetBlockNumber (chainDb s) hash) with
  | Ok r => Ok (r, s)
  | OutOfFuel => OutOfFuel
  | _ => Panic
  end.

(** The loop of [GetBlocksFromHash]. *)
Fixpoint blocks_from (n : nat) (hash : Hash) (number : Z) : C (list Blk) :=
  match n with
  | O => mret []
  | S n =>
      b ← bc_GetBlock hash number;
      match b with
      | None => mret []
      | Some b => rest ← blocks_from n (block_ParentHash b) (u64 (number - 1)); mret (b :: rest)
      end
  end.

Definition GetBlocksFromHash (hash : Hash) (n : nat) : C (list Blk) := number ← hc_GetBlockNumber hash; blocks_from n hash number.

(** [ExportN]: the blocks that are written out. *)
Fixpoint export_loop (n : nat) (nr : Z) : C (list Blk * option chainErr) :=
  match n with
  | O => mret ([], None)
  | S n =>
      b ← GetBlockByNumber nr;
      match b with
      | None => mret ([], Some ExportMissing)
      | Some b => '(l, e) ← export_loop n (u64 (nr + 1)); mret (b :: l, e)
      end
  end.

Definition ExportN (first last : Z) : C (list Blk * option chainErr) :=
  if last <? first then mret ([], Some ExportRange) else export_loop (S (Z.to_nat (last - first))) first.

(** ** Heads *)

(** [insert] *)
Definition insert (b : Blk) : C unit :=
  updateHeads ← gets (fun s => negb (bool_decide (GetCanonicalHash (chainDb s) (NumberU64 b) = block_Hash b)));
  _ ← put_db (WriteCanonicalHash (block_Hash b) (NumberU64 b));
  _ ← put_db (WriteHeadBlockHash (block_Hash b));
  _ ← modify (fun s => set_block s (Some b));
  if updateHeads : bool then
    _ ← SetCurrentHeader (Some (CopyHeader (B_header b)));
    _ ← put_db (WriteHeadFastBlockHash (block_Hash b));
    modify (fun s => set_fast s (Some b))
  else mret ().

(** [loadLastState], given what [Reset] does when it is called from here. *)
Definition loadLastState_with (reset : C (option chainErr)) : C (option chainErr) :=
  headHash ← gets (fun s => GetHeadBlockHash (chainDb s));
  if bool_decide (headHash = zeroHash) then reset
  else
    current ← GetBlockByHash headHash;
    match current with
    | None => reset
    | Some b =>
        hasState ← HasState (StateRootHash (B_header b));
        if negb hasState then reset
        else
          _ ← modify (fun s => set_block s (Some b));
          head ← gets (fun s => GetHeadHeaderHash (chainDb s));
          stored ← (if bool_decide (head = zeroHash) then mret None else hc_GetHeaderByHash head);
          _ ← SetCurrentHeader (Some (default (CopyHeader (B_header b)) stored));
          _ ← modify (fun s => set_fast s (Some b));
          fast ← gets (fun s => GetHeadFastBlockHash (chainDb s));
          fb ← (if bool_decide (fast = zeroHash) then mret None else GetBlockByHash fast);
          _ ← match fb with None => mret () | Some fb => modify (fun s => set_fast s (Some fb)) end;
          mret None
    end.

(** The lock that [SetHead] holds is taken again by the [SetHead] of [Reset]. *)
Definition deadlock {A} : C A := fun _ => Err Deadlock.

Definition SetHead (head : Z) : C (option chainErr) :=
  _ ← hc_SetHead head;
  current ← gets currentHeader;
  current ← non_nil current;
  _ ← modify (fun s => set_bcaches s (Purge (bodyCache s)) (Purge (bodyMsgpCache s)) (Purge (blockCache s)) (Purge (futureBlocks s)));
  let number := header_NumberU64 current in
  blk ← gets currentBlock;
  blk ← match blk with
        | Some b => if number <? NumberU64 b then bc_GetBlock (HeaderHash current) number else mret (Some b)
        | None => mret None
        end;
  blk ← match blk with
        | Some b => ok ← HasState (StateRootHash (B_header b)); mret (if ok : bool then Some b else None)
        | None => mret None
        end;
  fast ← gets currentFastBlock;
  fast ← match fast with
         | Some b => if number <? NumberU64 b then bc_GetBlock (HeaderHash current) number else mret (Some b)
         | None => mret None
         end;
  genesis ← gets genesisBlock;
  let blk := default genesis blk in
  let fast := default genesis fast in
  _ ← modify (fun s => set_fast (set_block s (Some blk)) (Some fast));
  _ ← put_db (WriteHeadBlockHash (block_Hash blk));
  _ ← put_db (WriteHeadFastBlockHash (block_Hash fast));
  loadLastState_with deadlock.

Definition ResetWithGenesisBlock (genesis : Blk) : C (option chainErr) :=
  e ← SetHead 0;
  match e with
  | Some e => mret (Some e)
  | None =>
      _ ← put_db (WriteBlock genesis);
      _ ← modify (fun s => set_genesis s genesis);
      _ ← insert genesis;
      _ ← modify (fun s => set_block s (Some genesis));
      _ ← SetGenesis (CopyHeader (B_header genesis));
      _ ← SetCurrentHeader (Some (CopyHeader (B_header genesis)));
      _ ← modify (fun s => set_fast s (Some genesis));
      mret None
  end.

Definition Reset : C (option chainErr) := genesis ← gets genesisBlock; ResetWithGenesisBlock genesis.
Definition loadLastState : C (option chainErr) := loadLastState_with Reset.

(** [FastSyncCommitHead] *)
Definition FastSyncCommitHead (hash : Hash) : C (option chainErr) :=
  b ← GetBlockByHash hash;
  match b with
  | None => mret (Some NonExistentBlock)
  | Some b =>
      ok ← HasState (StateRootHash (B_header b));
      if negb ok then mret (Some StateErr) else _ ← modify (fun s => set_block s (Some b)); mret None
  end.

(** One round of the loop of [Rollback]. *)
Definition rollback_one (hash : Hash) : C unit :=
  h ← gets currentHeader;
  _ ← (if bool_decide (hash_of h = hash) then
         h ← non_nil h;
         p ← hc_GetHeader (ParentHash h) (u64 (header_NumberU64 h - 1));
         SetCurrentHeader p
       else mret ());
  fast ← gets currentFastBlock;
  fast ← non_nil fast;
  _ ← (if bool_decide (block_Hash fast = hash) then
         p ← bc_GetBlock (block_ParentHash fast) (u64 (NumberU64 fast - 1));
         _ ← modify (fun s => set_fast s p);
         p ← non_nil p;
         put_db (WriteHeadFastBlockHash (block_Hash p))
       else mret ());
  blk ← gets currentBlock;
  blk ← non_nil blk;
  if bool_decide (block_Hash blk = hash) then
    p ← bc_GetBlock (block_ParentHash blk) (u64 (NumberU64 blk - 1));
    _ ← modify (fun s => set_block s p);
    p ← non_nil p;
    put_db (WriteHeadBlockHash (block_Hash p))
  else mret ().

Definition Rollback (chain : list Hash) : C unit := _ ← mapM' rollback_one (reverse chain); mret ().

(** ** Validation (blockValidator.go) *)

Definition ValidateBody (b : Blk) : C (option chainErr) :=
  known ← HasBlockAndState (block_Hash b);
  if known : bool then mret (Some ErrKnownBlock)
  else
    linked ← HasBlockAndState (block_ParentHash b);
    if negb linked then
      parent ← HasBlock (block_ParentHash b) (u64 (NumberU64 b - 1));
      mret (Some (if parent : bool then PrunedAncestor else UnknownAncestor))
    else
      root ← run (derive_txs (B_body b));
      match root with
      | inl _ => nilptr
      | inr root => mret (if bool_decide (root = TxRootHash (B_header b)) then None else Some TxRootMismatch)
      end.

Definition ValidateState (b : Blk) (st : StateT) (receipts : list Receipt) : C (option chainErr) :=
  bloom ← run (receipts_Bloom receipts);
  match bloom with
  | inl _ => nilptr
  | inr bloom =>
      if negb (bool_decide (bloom = h_Bloom (B_header b))) then mret (Some BloomMismatch)
      else
        root ← run (derive_receipts receipts);
        match root with
        | inl _ => nilptr
        | inr root =>
            if negb (bool_decide (root = ReceiptRootHash (B_header b))) then mret (Some ReceiptRootMismatch)
            else mret (if bool_decide (StateRootHash (B_header b) = IntermediateRoot st) then None else Some StateRootMismatch)
        end
  end.

(** ** Reorganisation *)

(** Down the new chain to the height of the old one. *)
Fixpoint reduce_new (fuel : nat) (newBlock : option Blk) (target : Z) (newChain : list Blk) : C (option Blk * list Blk) :=
  match fuel with
  | O => fun _ => OutOfFuel
  | S fuel =>
      match newBlock with
      | None => mret (None, newChain)
      | Some b =>
          if NumberU64 b =? target then mret (Some b, newChain)
          else p ← bc_GetBlock (block_ParentHash b) (u64 (NumberU64 b - 1)); reduce_new fuel p target (newChain ++ [b])
      end
  end.

(** [collectLogs] *)
Definition collectLogs (h : Hash) : C (list Log) :=
  number ← hc_GetBlockNumber h;
  rs ← gets (fun s => GetBlockReceipts (chainDb s) h number);
  rs ← run rs;
  match rs with
  | inl _ => nilptr
  | inr rs => mret (default [] rs ≫= fun r =>
      (fun l => mkLog (log_Address l) (log_Topics l) (log_Data l) (log_BlockNumber l) (log_TxHash l) (log_TxIndex l) (log_BlockHash l) (log_Index l) true) <$> r_Logs r)
  end.

(** Down both chains to the common block: old chain, new chain, deleted transactions
    and logs. *)
Fixpoint meet (fuel : nat) (old new : Blk) (oldChain newChain : list Blk) (deletedTxs : list Tx) (deletedLogs : list Log)
    : C (chainErr + (list Blk * list Blk * list Tx * list Log)) :=
  match fuel with
  | O => fun _ => OutOfFuel
  | S fuel =>
      if bool_decide (block_Hash old = block_Hash new) then mret (inr (oldChain, newChain, deletedTxs, deletedLogs))
      else
        logs ← collectLogs (block_Hash old);
        o ← bc_GetBlock (block_ParentHash old) (u64 (NumberU64 old - 1));
        n ← bc_GetBlock (block_ParentHash new) (u64 (NumberU64 new - 1));
        match o, n with
        | None, _ => mret (inl InvalidOldChain)
        | _, None => mret (inl InvalidNewChain)
        | Some o, Some n => meet fuel o n (oldChain ++ [old]) (newChain ++ [new]) (deletedTxs ++ B_body old) (deletedLogs ++ logs)
        end
  end.

(** [TxDifference] *)
Definition TxDifference (a b : list Tx) : list Tx := filter (fun tx => TransactionHash tx ∉ TransactionHash <$> b) a.

Definition insert_new (b : Blk) : C unit := _ ← insert b; put_db (WriteTxLookupEntries b).

(** The events are sent by goroutines of their own; here they are in the order in which
    these are started. *)
Definition reorg (oldBlock newBlock : Blk) : C (option chainErr) :=
  let fuel := S (Z.to_nat (NumberU64 newBlock)) in
  '(nb, newChain) ← reduce_new fuel (Some newBlock) (NumberU64 oldBlock) [];
  match nb with
  | None => mret (Some InvalidNewChain)
  | Some nb =>
      r ← meet fuel oldBlock nb [] newChain [] [];
      match r with
      | inl e => mret (Some e)
      | inr (oldChain, newChain, deletedTxs, deletedLogs) =>
          _ ← mapM' insert_new (reverse newChain);
          let addedTxs := reverse newChain ≫= B_body in
          _ ← del_db (TxDifference deletedTxs addedTxs ≫= fun tx => DeleteTxLookupEntry (TransactionHash tx));
          _ ← (if (length deletedLogs =? 0)%nat then mret () else modify (fun s => add_feed s (RemovedLogsEvent deletedLogs)));
          _ ← mapM' (fun b => modify (fun s => add_feed s (ChainSideEvent b))) oldChain;
          mret None
      end
  end.

(** ** Writing a block *)

Definition WriteCacheDb (cache : list (list byte * list byte)) : C unit := put_db cache.

Definition WriteBlockAndState (b : Blk) (receipts : list Receipt) (st : StateT) (cache : list (list byte * list byte))
    : C (WriteStatus * option chainErr) :=
  current ← gets currentBlock;
  current ← non_nil current;
  let batch := WriteBlock b in
  match CommitTo st with
  | None => mret (NonStatTy, Some CommitErr)
  | Some nodes =>
      let batch := batch ++ nodes ++ WriteBlockReceipts (block_Hash b) (NumberU64 b) receipts in
      let canon := NumberU64 current <? NumberU64 b in
      e ← (if canon && negb (bool_decide (block_ParentHash b = block_Hash current)) then reorg current b else mret None);
      match e with
      | Some e => mret (NonStatTy, Some e)
      | None =>
          let batch := batch ++ (if canon then WriteTxLookupEntries b else []) in
          _ ← (if canon then fun s => put_db (WritePreimages (chainDb s) (Preimages st)) s else mret ());
          _ ← put_db (batch ++ cache);
          _ ← (if canon then insert b else mret ());
          _ ← modify (fun s => set_bcaches s (bodyCache s) (bodyMsgpCache s) (blockCache s) (Remove (futureBlocks s) (block_Hash b)));
          mret (if canon then CanonStatTy else SideStatTy, None)
      end
  end.

(** ** Inserting blocks *)

Definition addBadBlock (b : Blk) : C unit := modify (fun s => set_bad s (Add (badBlocks s) (HeaderHash (B_header b)) (CopyHeader (B_header b)))).
Definition reportBlock (b : Blk) : C unit := addBadBlock b.
Definition BadBlocks : C (list (Hash * Header)) := gets (fun s =>
  omap (fun hash => h ← Peek (badBlocks s) hash; Some (HeaderHash h, h)) (Keys (badBlocks s))).

Definition add_future (b : Blk) : C unit :=
  modify (fun s => set_bcaches s (bodyCache s) (bodyMsgpCache s) (blockCache s) (Add (futureBlocks s) (block_Hash b) b)).

Definition maxTimeFutureBlocks : Z := 30.

Fixpoint blocks_linked (prev : Blk) (l : list Blk) : bool :=
  match l with
  | [] => true
  | b :: l => (NumberU64 b =? u64 (NumberU64 prev + 1)) && bool_decide (block_ParentHash b = block_Hash prev) && blocks_linked b l
  end.

(** What becomes of a block whose header or body was refused: skipped, queued, or the
    end of the import. *)
Definition refused (now : Z) (b : Blk) (e : chainErr) : C (option chainErr) :=
  match e with
  | ErrKnownBlock => mret None
  | EngineErr ErrFutureBlock =>
      if now + maxTimeFutureBlocks <? Time (B_header b) then mret (Some FutureBlock) else _ ← add_future b; mret None
  | EngineErr ErrUnknownAncestor =>
      queued ← gets (fun s => Contains (futureBlocks s) (block_ParentHash b));
      if queued : bool then _ ← add_future b; mret None else _ ← reportBlock b; mret (Some e)
  | _ => _ ← reportBlock b; mret (Some e)
  end.

(** A block that passed: executed on the state of its parent, validated and written.
    The result is the event, or the error. *)
Definition import (b parent : Blk) : C (chainErr + (WriteStatus * list Log)) :=
  st ← gets (fun s => NewState (chainDb s) (StateRootHash (B_header parent)));
  match st with
  | None => mret (inl StateErr)
  | Some st =>
      r ← (fun s => run (ProcessBlock (chainDb s) b st) s);
      match r with
      | inl _ => _ ← reportBlock b; mret (inl ProcessErr)
      | inr (cache, receipts, logs, st) =>
          e ← ValidateState b st receipts;
          match e with
          | Some e => _ ← reportBlock b; mret (inl e)
          | None =>
              '(status, e) ← WriteBlockAndState b receipts st cache;
              mret (match e with Some e => inl e | None => inr (status, logs) end)
          end
      end
  end.

Record progress : Type := mkProgress { pr_events : list (chainEvent Tx); pr_logs : list Log; pr_last : option Blk }.

(** The loop over the blocks; [now] is the clock and [interrupts] what [procInterrupt]
    answers at each of them. *)
Fixpoint insert_loop (now : nat -> Z) (i : nat) (prev : option Blk) (chain : list Blk) (verdicts : list (option engineErr)) (interrupts : list bool)
    (p : progress) : C (nat * progress * option chainErr) :=
  match chain with
  | [] => mret (0%nat, p, None)
  | b :: chain =>
      if default false (head interrupts) then mret (0%nat, p, None)
      else
        e ← match default None (head verdicts) with
            | Some e => mret (Some (EngineErr e))
            | None => ValidateBody b
            end;
        let next := insert_loop now (S i) (Some b) chain (tail verdicts) (tail interrupts) in
        match e with
        | Some e =>
            r ← refused (now i) b e;
            match r with Some e => mret (i, p, Some e) | None => next p end
        | None =>
            parent ← match prev with
                     | None => p ← bc_GetBlock (block_ParentHash b) (u64 (NumberU64 b - 1)); non_nil p
                     | Some q => mret q
                     end;
            r ← import b parent;
            match r with
            | inl e => mret (i, p, Some e)
            | inr (CanonStatTy, logs) => next (mkProgress (pr_events p ++ [ChainEvent b logs]) (pr_logs p ++ logs) (Some b))
            | inr (_, _) => next (mkProgress (pr_events p ++ [ChainSideEvent b]) (pr_logs p) (pr_last p))
            end
        end
  end.

(** After the loop ran to its end or was interrupted, the head event. *)
Definition insertChain (now : nat -> Z) (chain : list Blk) (interrupts : list bool) : C (nat * list (chainEvent Tx) * list Log * option chainErr) :=
  match chain with
  | b :: l =>
      if negb (blocks_linked b l) then mret (0%nat, [], [], Some NonContiguous)
      else
        verdicts ← verify_all chainId ((fun b => CopyHeader (B_header b)) <$> chain) (replicate (length chain) true);
        '(i, p, e) ← insert_loop now 0 None chain verdicts interrupts (mkProgress [] [] None);
        match e with
        | Some e => mret (i, pr_events p, pr_logs p, Some e)
        | None =>
            current ← gets currentBlock;
            current ← match pr_last p with None => mret None | Some _ => c ← non_nil current; mret (Some c) end;
            let head := match pr_last p, current with
                        | Some l, Some c => if bool_decide (block_Hash c = block_Hash l) then [ChainHeadEvent l] else []
                        | _, _ => []
                        end in
            mret (0%nat, pr_events p ++ head, pr_logs p, None)
        end
  | [] => mret (0%nat, [], [], None)
  end.

(** [PostChainEvents] *)
Definition PostChainEvents (events : list (chainEvent Tx)) (logs : list Log) : C unit :=
  _ ← (if (length logs =? 0)%nat then mret () else modify (fun s => add_feed s (LogsEvent logs)));
  _ ← mapM' (fun e => modify (fun s => add_feed s e)) events; mret ().

Definition InsertChain (now : nat -> Z) (chain : list Blk) (interrupts : list bool) : C (nat * option chainErr) :=
  '(n, events, logs, e) ← insertChain now chain interrupts;
  _ ← PostChainEvents events logs;
  mret (n, e).

(** [procFutureBlocks]: by number; the sort of Go leaves the order of equal numbers
    open. *)
Definition by_number (b1 b2 : Blk) : Prop := Number (B_header b1) <= Number (B_header b2).
#[export] Instance by_number_dec b1 b2 : Decision (by_number b1 b2).
Proof. unfold by_number. apply _. Defined.

Definition procFutureBlocks (now : nat -> Z) (interrupts : list bool) : C unit :=
  blocks ← gets (fun s => omap (Peek (futureBlocks s)) (Keys (futureBlocks s)));
  let blocks := imap pair (merge_sort by_number blocks) in
  _ ← mapM' (fun b => InsertChain (fun _ => now b.1) [b.2] [default false (interrupts !! b.1)]) blocks; mret ().

(** [Stop] raises the interrupt that the loops read. *)
Definition Stop : C unit := modify (fun s => set_interrupt s true).

(** ** Receipts of a downloaded chain *)

(** The transaction behind a [Tx], and the [Tx] with its transaction changed: asking for
    the sender fills addresses and the cache in place. *)
Context (txOf : Tx -> Transaction) (withTx : Tx -> Transaction -> Tx) (CreateAddress : Address -> Z -> Address).

(** [len(Actions) == 2 && Actions[1].Address == nil]: the address of the contract, from
    the zero address when there is no sender, and the transaction as it is left. *)
Definition contract_address (tx : Tx) : outcome stop (option Address * Tx) :=
  let creates := match Actions (Data (txOf tx)) with [_; a] => bool_decide (act_Address a = None) | _ => false end in
  if creates then
    match Sender (NewMSigner chainId) (txOf tx) with
    | Ok (from, t) =>
        let from := match from with inl _ => zeroAddress | inr a => a end in
        Ok (Some (CreateAddress from (AccountNonce (Data (txOf tx)))), withTx tx t)
    | OutOfFuel => OutOfFuel
    | _ => Panic
    end
  else Ok (None, tx).

Definition set_log (b : Blk) (txHash : Hash) (j k : nat) (l : Log) : Log :=
  mkLog (log_Address l) (log_Topics l) (log_Data l) (NumberU64 b) txHash (Z.of_nat j) (block_Hash b) (Z.of_nat k) (log_Removed l).

(** The loop over the receipts; the logs are numbered through the block.  More receipts
    than transactions are an index out of range. *)
Fixpoint set_receipts (b : Blk) (j logIndex : nat) (txs : list Tx) (rs : list Receipt) : outcome stop (list Receipt * list Tx) :=
  match rs with
  | [] => Ok ([], txs)
  | r :: rs =>
      match txs with
      | [] => Panic
      | tx :: txs =>
          let hash := TransactionHash tx in
          '(created, tx) ← contract_address tx;
          let logs := imap (fun k l => set_log b hash j (logIndex + k) l) (r_Logs r) in
          '(rs, txs) ← set_receipts b (S j) (logIndex + length logs) txs rs;
          Ok (mkReceipt (r_Status r) (r_Bloom r) logs hash (default (r_ContractAddress r) created) :: rs, tx :: txs)
      end
  end.

(** The receipts, and the block with its transactions as they are left. *)
Definition SetReceiptsData (b : Blk) (rs : list Receipt) : outcome stop (list Receipt * Blk) :=
  '(rs, txs) ← set_receipts b 0 0 (B_body b) rs; Ok (rs, mkBlk (B_header b) txs).

Definition IdealBatchSize : Z := 100 * 1024.

(** What is put in the batch for a block.  A transaction keeps the hash it computed
    before its addresses were filled, so the lookup entries are those of [b]. *)
Definition receipt_puts (b b' : Blk) (rs : list Receipt) : list (list byte * list byte) :=
  WriteBody (block_Hash b) (NumberU64 b) (B_body b') ++ WriteBlockReceipts (block_Hash b) (NumberU64 b) rs ++ WriteTxLookupEntries b.

(** The loop of [InsertReceiptChain]: [inl] is a return, [inr] the batch that is left and
    the last block. *)
Fixpoint insert_receipts (i : nat) (chain : list Blk) (receipts : list (list Receipt)) (interrupts : list bool) (batch : memBatch) (last : option Blk)
    : C ((nat * option chainErr) + (memBatch * option Blk)) :=
  match chain with
  | [] => mret (inr (batch, last))
  | b :: chain =>
      match receipts with
      | [] => nilptr
      | rs :: receipts =>
          if default false (head interrupts) then mret (inl (0%nat, None))
          else
            known ← hc_HasHeader (block_Hash b) (NumberU64 b);
            if negb known then mret (inl (i, Some HeaderUnknown))
            else
              have ← HasBlock (block_Hash b) (NumberU64 b);
              if have : bool then insert_receipts (S i) chain receipts (tail interrupts) batch (Some b)
              else
                '(rs, b') ← (fun s => match SetReceiptsData b rs with Ok r => Ok (r, s) | OutOfFuel => OutOfFuel | _ => Panic end);
                let batch := foldl (fun c kv => batch_Put c kv.1 kv.2) batch (receipt_puts b b' rs) in
                batch ← (if IdealBatchSize <=? batch_ValueSize batch then _ ← put_db (b_writes batch); mret (batch_Reset batch) else mret batch);
                insert_receipts (S i) chain receipts (tail interrupts) batch (Some b')
      end
  end.

(** An empty chain is an index out of range at its last block. *)
Definition InsertReceiptChain (chain : list Blk) (receipts : list (list Receipt)) (interrupts : list bool) : C (nat * option chainErr) :=
  if negb (match chain with [] => true | b :: l => blocks_linked b l end) then mret (0%nat, Some NonContiguous)
  else
    r ← insert_receipts 0 chain receipts interrupts NewBatch None;
    match r with
    | inl r => mret r
    | inr (batch, last) =>
        _ ← (if 0 <? batch_ValueSize batch then put_db (b_writes batch) else mret ());
        head ← non_nil last;
        fast ← gets currentFastBlock;
        fast ← non_nil fast;
        _ ← (if big_Uint64 (Number (B_header fast)) <? NumberU64 head then
               _ ← put_db (WriteHeadFastBlockHash (block_Hash head)); modify (fun s => set_fast s (Some head))
             else mret ());
        mret (0%nat, None)
    end.

(** ** Opening a chain *)

Definition headerCacheLimit : nat := 512.
Definition numberCacheLimit : nat := 2048.
Definition bodyCacheLimit : nat := 256.
Definition blockCacheLimit : nat := 256.
Definition maxFutureBlocks : nat := 256.
Definition badBlockLimit : nat := 10.

(** The head of the header chain is that of the last block, or the genesis. *)
Definition NewHeaderChain : C (option chainErr) :=
  g ← hc_GetHeaderByNumber 0;
  match g with
  | None => mret (Some ErrNoGenesis)
  | Some g =>
      _ ← SetGenesis g;
      _ ← modify (fun s => set_header s (Some g) (currentHeaderHash s));
      head ← gets (fun s => GetHeadBlockHash (chainDb s));
      h ← (if bool_decide (head = zeroHash) then mret None else hc_GetHeaderByHash head);
      let h := default g h in
      _ ← modify (fun s => set_header s (Some h) (HeaderHash h));
      mret None
  end.

(** Stands in the fields that [NewBlockChain] sets before it reads them. *)
Definition nilHeader : Header := mkHeader zeroHash zeroHash zeroHash zeroHash [] 0 0 zeroAddress (mkConsensusData [] []) 0 0 0.

Definition fresh_chain (db : Db) : BlockChain Tx :=
  mkChain db nilHeader None zeroHash (mkLru headerCacheLimit []) (mkLru numberCacheLimit []) (mkBlk nilHeader []) None None
    (mkLru bodyCacheLimit []) (mkLru bodyCacheLimit []) (mkLru blockCacheLimit []) (mkLru maxFutureBlocks []) (mkLru badBlockLimit []) false [].

Definition open_chain : C (option chainErr) :=
  e ← NewHeaderChain;
  match e with
  | Some e => mret (Some e)
  | None =>
      g ← GetBlockByNumber 0;
      match g with
      | None => mret (Some ErrNoGenesis)
      | Some g => _ ← modify (fun s => set_genesis s g); loadLastState
      end
  end.

Definition NewBlockChain (db : Db) : outcome stop (option chainErr * BlockChain Tx) := open_chain (fresh_chain db).

End Chain.
