(* ===== verification/ChainInv.v ===== *)
(** * The invariant of the block chain

    Weakest preconditions for the methods of [BlockChain] (a method that panics, runs out
    of fuel or deadlocks satisfies none), the invariant of a chain that imports whole
    blocks, and the methods that only read. *)

From stdpp Require Import base list gmap numbers option.
From S2P Require Import Prelude Types StateDB Processor Signing Block Database Lru ChainDb ChainStore Engine BlockChain.
Local Open Scope Z_scope.

(** ** Weakest preconditions *)

Definition wp {Tx A} (m : Ch Tx A) (Q : A -> BlockChain Tx -> Prop) (s : BlockChain Tx) : Prop :=
  match m s with Ok (a, s') => Q a s' | _ => False end.

Section Wp.
Context {Tx : Type}.
Implicit Types s : BlockChain Tx.

Lemma wp_ret {A} (a : A) Q s : Q a s -> wp (mret a) Q s.
Proof. done. Qed.
Lemma wp_bind {A B} (m : Ch Tx A) (f : A -> Ch Tx B) Q s : wp m (fun a => wp (f a) Q) s -> wp (mbind f m) Q s.
Proof. unfold wp, mbind, Ch_bind. by destruct (m s) as [[a s']| | |]. Qed.
Lemma wp_mono {A} (m : Ch Tx A) (P Q : A -> BlockChain Tx -> Prop) s : wp m P s -> (forall a s', P a s' -> Q a s') -> wp m Q s.
Proof. unfold wp. destruct (m s) as [[a s']| | |]; auto. Qed.
Lemma wp_mono_eq {A} (m : Ch Tx A) (P Q : A -> BlockChain Tx -> Prop) s : wp m P s -> (forall a s', m s = Ok (a, s') -> P a s' -> Q a s') -> wp m Q s.
Proof. unfold wp. destruct (m s) as [[a s']| | |]; auto. Qed.
Lemma wp_gets {A} (f : BlockChain Tx -> A) Q s : Q (f s) s -> wp (gets f) Q s.
Proof. done. Qed.
Lemma wp_modify f Q s : Q tt (f s) -> wp (modify f) Q s.
Proof. done. Qed.
Lemma wp_put_db w Q s : Q tt (set_db s (put_all (chainDb s) w)) -> wp (put_db w) Q s.
Proof. done. Qed.
Lemma wp_del_db w Q s : Q tt (set_db s (delete_all (chainDb s) w)) -> wp (del_db w) Q s.
Proof. done. Qed.
Lemma wp_non_nil {A} (a : A) Q s : Q a s -> wp (non_nil (Some a)) Q s.
Proof. done. Qed.
Lemma wp_run {E A} (r : outcome E A) a Q s : r = Ok a -> Q (inr a) s -> wp (run r) Q s.
Proof. intros ->. done. Qed.
Lemma wp_Ok {A} (m : Ch Tx A) Q s : wp m Q s -> exists a s', m s = Ok (a, s') /\ Q a s'.
Proof. unfold wp. destruct (m s) as [[a s']| | |]; [|done..]. eauto. Qed.
End Wp.

(** One step of a method. *)
Ltac wp_step := lazymatch goal with
  | |- wp (mbind _ _) _ _ => apply wp_bind
  | |- wp (mret _) _ _ => apply wp_ret
  | |- wp (gets _) _ _ => apply wp_gets
  | |- wp (modify _) _ _ => apply wp_modify
  | |- wp (non_nil (Some _)) _ _ => apply wp_non_nil
  | |- wp (put_db _) _ _ => apply wp_put_db
  | |- wp (del_db _) _ _ => apply wp_del_db
  end.
(** The fields of a changed chain. *)
Ltac chain_simpl := cbn [chainDb genesisHeader currentHeader currentHeaderHash headerCache numberCache genesisBlock currentBlock currentFastBlock
  bodyCache bodyMsgpCache blockCache futureBlocks badBlocks procInterrupt feeds
  set_db set_header set_genesis_header set_hcaches set_genesis set_block set_fast set_bcaches set_bad set_interrupt add_feed hash_of].
Ltac wp_steps := repeat wp_step.

(** ** What the chain relies on of the states *)

Class ExecLaws (Tx : Type) `{ChainExec Tx} : Prop := {
  process_off d b st cache rs logs st' : ProcessBlock d b st = Ok (cache, rs, logs, st') -> off_chain cache;
  commit_off st nodes : CommitTo st = Some nodes -> off_chain nodes;
  preimage_hash st h v : Preimages st !! h = Some v -> hash_ok h;
  (** a state is made of the values under hashes *)
  state_local d d' r : (forall x, length x = 32%nat -> d !! x = d' !! x) -> is_Some (NewState d r) -> is_Some (NewState d' r);
  (** and what is written under hashes leaves the states that are there *)
  commit_keeps d st nodes r : CommitTo st = Some nodes -> is_Some (NewState d r) -> is_Some (NewState (put_all d nodes) r);
  process_keeps d' d b st cache rs logs st' r : ProcessBlock d' b st = Ok (cache, rs, logs, st') ->
    is_Some (NewState d r) -> is_Some (NewState (put_all d cache) r);
  commit_opens d root b st cache rs logs st' nodes : NewState d root = Some st -> ProcessBlock d b st = Ok (cache, rs, logs, st') ->
    CommitTo st' = Some nodes -> is_Some (NewState (put_all d nodes) (IntermediateRoot st'));
}.

Section Invariant.
Context {Tx : Type} `{BlockEnv Tx, !ChainCodec Tx, !ChainExec Tx}.
Abbreviation Blk := (Block Tx).

(** [num] is the number of the block with a hash, and [g] the hash of the genesis. *)
Context (num : Hash -> Z) (g : Hash).

(** ** The stored blocks: a tree *)

Record block_stored (d : Db) (h : Hash) (b : Blk) : Prop := {
  bs_hash : block_Hash b = h;
  bs_zero : h <> zeroHash;
  bs_number : Number (B_header b) = num h;
  bs_index : GetBlockNumber d h = num h;
  bs_range : 0 <= num h < missingNumber;
  bs_state : is_Some (NewState d (StateRootHash (B_header b)));
  bs_genesis : num h = 0 -> h = g;
  bs_parent : 0 < num h -> hash_ok (block_ParentHash b) /\ num (block_ParentHash b) = num h - 1 /\ is_Some (known d (block_ParentHash b));
}.

Record stored_ok (d : Db) : Prop := {
  st_number h : hash_ok h -> GetBlockNumber d h <> missingNumber -> is_Some (known d h);
  st_known h b : hash_ok h -> known d h = Some b -> block_stored d h b;
  st_index h n : hash_ok h -> u64_ok n -> is_Some (d !! headerKey h n) \/ is_Some (d !! blockBodyKey h n) -> GetBlockNumber d h = n /\ n <> missingNumber;
}.

(** ** The canonical line *)

Record line_ok (d : Db) (head : Hash) : Prop := {
  ln_head : GetCanonicalHash d (num head) = head;
  ln_first : GetCanonicalHash d 0 = g;
  ln_range : 0 <= num head < missingNumber;
  ln_known n : 0 <= n <= num head -> hash_ok (GetCanonicalHash d n) /\ num (GetCanonicalHash d n) = n /\ is_Some (known d (GetCanonicalHash d n));
  ln_link n b : 0 < n <= num head -> known d (GetCanonicalHash d n) = Some b -> block_ParentHash b = GetCanonicalHash d (n - 1);
  ln_above n : num head < n < 2 ^ 64 -> GetCanonicalHash d n = zeroHash;
}.

(** ** The heads *)

(** A header in memory is that of a stored block, but for the producer. *)
Definition stands (d : Db) (h : Header) : Prop := exists k, known d (HeaderHash h) = Some k /\ wireHeader h = wireHeader (B_header k).

(** The head of the fast chain is not marked in a new database. *)
Definition markers_ok (d : Db) (head : Hash) : Prop := GetHeadBlockHash d = head /\ GetHeadHeaderHash d = head /\
  (GetHeadFastBlockHash d = head \/ GetHeadFastBlockHash d = zeroHash).

Record heads_ok (s : BlockChain Tx) (head : Hash) : Prop := {
  hd_block : exists b, currentBlock s = Some b /\ block_Hash b = head /\ stands (chainDb s) (B_header b);
  hd_fast : exists b, currentFastBlock s = Some b /\ block_Hash b = head /\ stands (chainDb s) (B_header b);
  hd_header : exists h, currentHeader s = Some h /\ HeaderHash h = head /\ stands (chainDb s) h;
  hd_hash : currentHeaderHash s = head;
  hd_markers : markers_ok (chainDb s) head;
}.

(** ** The caches *)

Record caches_ok (s : BlockChain Tx) : Prop := {
  ca_number h n : (h, n) ∈ lru_items (numberCache s) -> hash_ok h /\ n <> missingNumber /\ GetBlockNumber (chainDb s) h = n;
  ca_header h x : (h, x) ∈ lru_items (headerCache s) -> hash_ok h /\ exists b, known (chainDb s) h = Some b /\ B_header b = x;
  ca_block h b : (h, b) ∈ lru_items (blockCache s) -> hash_ok h /\ known (chainDb s) h = Some b;
}.

Record inv (head : Hash) (s : BlockChain Tx) : Prop := {
  inv_stored : stored_ok (chainDb s);
  inv_line : line_ok (chainDb s) head;
  inv_heads : heads_ok s head;
  inv_caches : caches_ok s;
}.

(** ** Steps that change neither the database nor the heads *)

Record quiet (s s' : BlockChain Tx) : Prop := {
  qu_db : chainDb s' = chainDb s;
  qu_block : currentBlock s' = currentBlock s;
  qu_fast : currentFastBlock s' = currentFastBlock s;
  qu_header : currentHeader s' = currentHeader s;
  qu_hash : currentHeaderHash s' = currentHeaderHash s;
  qu_genesis : genesisBlock s' = genesisBlock s;
  qu_caches : caches_ok s -> caches_ok s';
}.

#[export] Instance quiet_preorder : PreOrder quiet.
Proof.
  split; [by split|]. intros s1 s2 s3 [] []. split; try congruence. auto.
Qed.

Lemma quiet_inv head s s' : quiet s s' -> inv head s -> inv head s'.
Proof.
  intros [Hd Hb Hf Hh Hhh _ Hc] [I1 I2 [] I4]. split; [by rewrite Hd..| |auto].
  split; rewrite ?Hd, ?Hb, ?Hf, ?Hh, ?Hhh; auto.
Qed.

End Invariant.

(** ** Reading *)

Section Reads.
Context {Tx : Type} `{BlockEnv Tx, !ChainCodec Tx, !ChainExec Tx}.
Context (num : Hash -> Z) (g : Hash).
Implicit Types s : BlockChain Tx.

(** Quiet, and the queue of future blocks stays. *)
Definition reads s s' : Prop := quiet s s' /\ futureBlocks s' = futureBlocks s.

#[export] Instance reads_preorder : PreOrder reads.
Proof. split; [by split|]. intros s1 s2 s3 [] []. split; [by etrans|congruence]. Qed.

Lemma missing_ok : u64_ok missingNumber.
Proof. unfold u64_ok, missingNumber. lia. Qed.

Lemma GetBlock_header d h n (b : Block Tx) : GetBlock d h n = Some b -> GetHeader d h n = Some (B_header b).
Proof.
  unfold GetBlock. destruct (GetHeader d h n) as [x|]; [|done]. simpl. destruct (GetBody d h n); [|done]. simpl. intros [= <-].
  simpl. by rewrite !CopyHeader_id.
Qed.

Lemma GetHeader_key d h n x : GetHeader d h n = Some x -> is_Some (d !! headerKey h n).
Proof. unfold GetHeader, GetHeaderMsgp, db_Get. by destruct (d !! headerKey h n). Qed.

Lemma known_index d h (b : Block Tx) : known d h = Some b -> GetBlockNumber d h <> missingNumber /\ GetBlock d h (GetBlockNumber d h) = Some b.
Proof. unfold known. destruct (Z.eqb_spec (GetBlockNumber d h) missingNumber); [done|]. done. Qed.

(** What is found under a hash and a number is the stored block. *)
Lemma found_header d h n x : stored_ok num g d -> hash_ok h -> u64_ok n -> GetHeader d h n = Some x ->
  exists b, known d h = Some b /\ B_header b = x /\ num h = n.
Proof.
  intros Hd Hh Hn Hg. destruct (st_index _ _ _ Hd h n Hh Hn (or_introl (GetHeader_key _ _ _ _ Hg))) as [Hi Hm].
  destruct (st_number _ _ _ Hd h Hh) as [b Hb]; [by rewrite Hi|]. exists b. split; [done|].
  destruct (known_index _ _ _ Hb) as [_ Hk]. rewrite Hi in Hk. apply GetBlock_header in Hk. split; [congruence|].
  by rewrite <- (bs_index _ _ _ _ _ (st_known _ _ _ Hd h b Hh Hb)).
Qed.

Lemma GetBlock_known d h n : stored_ok num g d -> hash_ok h -> u64_ok n -> (is_Some (known d h) -> n = num h) -> GetBlock d h n = known d h.
Proof.
  intros Hd Hh Hn Hk. destruct (known d h) as [b|] eqn:Hb.
  - rewrite (Hk ltac:(done)), <- (bs_index _ _ _ _ _ (st_known _ _ _ Hd h b Hh Hb)). by destruct (known_index _ _ _ Hb).
  - destruct (GetBlock d h n) as [b|] eqn:Hg; [|done]. apply GetBlock_header in Hg.
    by destruct (found_header _ _ _ _ Hd Hh Hn Hg) as (? & ? & _); congruence.
Qed.

Lemma quiet_hcaches s hc nc :
  (forall h x, (h, x) ∈ lru_items hc -> (h, x) ∈ lru_items (headerCache s) \/ hash_ok h /\ exists b, known (chainDb s) h = Some b /\ B_header b = x) ->
  (forall h n, (h, n) ∈ lru_items nc -> (h, n) ∈ lru_items (numberCache s) \/ hash_ok h /\ n <> missingNumber /\ GetBlockNumber (chainDb s) h = n) ->
  reads s (set_hcaches s hc nc).
Proof.
  intros H1 H2. split; [|done]. split; try done. intros [C1 C2 C3]. split; simpl.
  - intros h n [Hin|Hn]%H2; auto.
  - intros h x [Hin|Hx]%H1; auto.
  - done.
Qed.

Lemma quiet_blocks s bo bm bl :
  (forall h b, (h, b) ∈ lru_items bl -> (h, b) ∈ lru_items (blockCache s) \/ hash_ok h /\ known (chainDb s) h = Some b) ->
  reads s (set_bcaches s bo bm bl (futureBlocks s)).
Proof. intros H1. split; [|done]. split; try done. intros [C1 C2 C3]. split; simpl; [done..|]. intros h b [Hin|Hb]%H1; auto. Qed.

Lemma get_number s h : caches_ok s -> hash_ok h -> wp (hc_GetBlockNumber h) (fun n s' => n = GetBlockNumber (chainDb s) h /\ reads s s') s.
Proof.
  intros Hc Hh. unfold wp, hc_GetBlockNumber. pose proof (Get_answer (numberCache s) h) as Ha.
  destruct (Get (numberCache s) h) as [[n|] c] eqn:He; simpl in Ha.
  - symmetry in Ha. apply Peek_Some in Ha. destruct (ca_number _ Hc h n Ha) as (_ & _ & ->). split; [done|]. apply quiet_hcaches; [auto|].
    intros h' n' Hin. left. apply (Get_sub _ h). by rewrite He.
  - destruct (Z.eqb_spec (GetBlockNumber (chainDb s) h) missingNumber); [done|]. split; [done|]. apply quiet_hcaches; [auto|].
    intros h' n' [[-> ->]|[_ Hin]]%Add_sub; auto.
Qed.

Lemma get_block s h n : stored_ok num g (chainDb s) -> caches_ok s -> hash_ok h -> u64_ok n -> (is_Some (known (chainDb s) h) -> n = num h) ->
  wp (bc_GetBlock h n) (fun b s' => b = known (chainDb s) h /\ reads s s') s.
Proof.
  intros Hd Hc Hh Hn Hk. unfold wp, bc_GetBlock. pose proof (Get_answer (blockCache s) h) as Ha.
  destruct (Get (blockCache s) h) as [[b|] c] eqn:He; simpl in Ha.
  - symmetry in Ha. apply Peek_Some in Ha. destruct (ca_block _ Hc h b Ha) as (_ & ->). split; [done|]. apply quiet_blocks.
    intros h' n' Hin. left. apply (Get_sub _ h). by rewrite He.
  - rewrite (GetBlock_known _ _ _ Hd Hh Hn Hk). destruct (known (chainDb s) h) as [b|] eqn:Hb; [|done]. split; [done|]. apply quiet_blocks.
    intros h' b' [[-> ->]|[_ Hin]]%Add_sub; [|auto]. right. by rewrite (bs_hash _ _ _ _ _ (st_known _ _ _ Hd h b Hh Hb)).
Qed.

Lemma get_block_by_hash s h : stored_ok num g (chainDb s) -> caches_ok s -> hash_ok h ->
  wp (GetBlockByHash h) (fun b s' => b = known (chainDb s) h /\ reads s s') s.
Proof.
  intros Hd Hc Hh. unfold GetBlockByHash. wp_steps. eapply wp_mono; [by apply get_number|]. intros n s1 [-> [Q1 F1]].
  pose proof (qu_db _ _ Q1) as E1. eapply wp_mono.
  - apply get_block; rewrite ?E1; [done|by apply Q1|done| |].
    + destruct (decide (GetBlockNumber (chainDb s) h = missingNumber)) as [->|Hm]; [apply missing_ok|].
      destruct (st_number _ _ _ Hd h Hh Hm) as [b Hb]. rewrite (bs_index _ _ _ _ _ (st_known _ _ _ Hd h b Hh Hb)).
      pose proof (bs_range _ _ _ _ _ (st_known _ _ _ Hd h b Hh Hb)). unfold u64_ok, missingNumber in *. lia.
    + intros [b Hb]. by apply (bs_index _ _ _ _ _ (st_known _ _ _ Hd h b Hh Hb)).
  - intros b s2 [-> R2]. rewrite E1. split; [done|]. by etrans; [split|].
Qed.

Lemma has_block_and_state s h : stored_ok num g (chainDb s) -> caches_ok s -> hash_ok h ->
  wp (HasBlockAndState h) (fun r s' => r = bool_decide (is_Some (known (chainDb s) h)) /\ reads s s') s.
Proof.
  intros Hd Hc Hh. unfold HasBlockAndState, HasState. wp_steps. eapply wp_mono; [by apply get_block_by_hash|]. intros b s1 [-> R1].
  destruct (known (chainDb s) h) as [b|] eqn:Hb; wp_steps; [|done]. split; [|done].
  rewrite (qu_db _ _ (proj1 R1)). pose proof (bs_state _ _ _ _ _ (st_known _ _ _ Hd h b Hh Hb)). by rewrite !bool_decide_true.
Qed.

(** The headers that the engine is given. *)
Lemma reader_header chainId s h n x : stored_ok num g (chainDb s) -> caches_ok s -> hash_ok h -> u64_ok n ->
  cr_GetHeader (chain_reader chainId s) h n = Some x -> exists b, known (chainDb s) h = Some b /\ B_header b = x.
Proof.
  intros Hd Hc Hh Hn. unfold chain_reader, hc_GetHeader. simpl. pose proof (Get_answer (headerCache s) h) as Ha.
  destruct (Get (headerCache s) h) as [[y|] c]; simpl in Ha.
  - intros [= <-]. symmetry in Ha. apply Peek_Some in Ha. by apply (ca_header _ Hc).
  - destruct (GetHeader (chainDb s) h n) as [y|] eqn:Hg; [|done]. intros [= <-].
    destruct (found_header _ _ _ _ Hd Hh Hn Hg) as (b & ? & ? & _). eauto.
Qed.

End Reads.
