(* ===== verification/ChainWrite.v ===== *)
(** * Writing blocks keeps the invariant

    The stored blocks under writes that do not concern them, and with one block more;
    [insert], [reorg] and [WriteBlockAndState]. *)

From stdpp Require Import base list gmap numbers option.
From S2P Require Import Prelude Types StateDB Processor Signing Block Database Lru ChainDb ChainStore Engine BlockChain ChainInv.
Local Open Scope Z_scope.

Section Stored.
Context {Tx : Type} `{BlockEnv Tx, !ChainCodec Tx, !ChainExec Tx, !CodecLaws Tx, !ExecLaws Tx}.
Context (num : Hash -> Z) (g : Hash).

Lemma stored_number d h : stored_ok num g d -> hash_ok h -> u64_ok (GetBlockNumber d h).
Proof using Type.
  intros Hd Hh. destruct (decide (GetBlockNumber d h = missingNumber)) as [->|Hm]; [apply missing_ok|].
  destruct (st_number _ _ _ Hd h Hh Hm) as [b Hb]. pose proof (st_known _ _ _ Hd h b Hh Hb) as [_ _ _ -> Hr _ _ _].
  unfold u64_ok, missingNumber in *. lia.
Qed.

Lemma known_kept d d' h : stored_ok num g d -> block_data d d' -> hash_ok h -> known d h = known d' h.
Proof using Type. intros Hd Hs Hh. apply known_same; [done..|]. by apply stored_number. Qed.

(** ** Other writes *)

Lemma stored_same d d' : same_blocks d d' -> stored_ok num g d -> stored_ok num g d'.
Proof using ExecLaws0.
  intros [Hk Ho] Hd. assert (forall h, hash_ok h -> known d h = known d' h) as Hkn by (intros; by apply known_kept). split.
  - intros h Hh Hm. rewrite <- Hkn by done. apply (st_number _ _ _ Hd); [done|]. by rewrite (GetBlockNumber_same d d').
  - intros h b Hh Hb. rewrite <- Hkn in Hb by done. destruct (st_known _ _ _ Hd h b Hh Hb) as [B1 B2 B3 B4 B5 B6 B7 B8]. split; try done.
    + by rewrite <- (GetBlockNumber_same d d').
    + by eapply state_local.
    + intros Hp. destruct (B8 Hp) as (P1 & P2 & P3). by rewrite <- Hkn.
  - intros h n Hh Hn. rewrite <- (header_key_same d d'), <- (body_key_same d d'), <- (GetBlockNumber_same d d') by done. by apply (st_index _ _ _ Hd).
Qed.

(** ** One block more *)

Record adds (d d' : Db) (b : Block Tx) : Prop := {
  ad_new : block_data (put_all d (WriteBlock b)) d';
  ad_states r : is_Some (NewState d r) -> is_Some (NewState d' r);
  ad_state : is_Some (NewState d' (StateRootHash (B_header b)));
}.

Section Adds.
Context (d d' : Db) (b : Block Tx) (Hd : stored_ok num g d) (Ha : adds d d' b) (Hnew : known d (block_Hash b) = None).
Context (Hz : block_Hash b <> zeroHash) (Hnum : Number (B_header b) = num (block_Hash b)) (Hr : 0 <= num (block_Hash b) < missingNumber).
Context (Hgen : num (block_Hash b) = 0 -> block_Hash b = g).
Context (Hpar : 0 < num (block_Hash b) -> hash_ok (block_ParentHash b) /\ num (block_ParentHash b) = num (block_Hash b) - 1 /\ is_Some (known d (block_ParentHash b))).

Lemma NumberU64_num : NumberU64 b = num (block_Hash b).
Proof using Hnum Hr.
  unfold NumberU64, header_NumberU64, big_Uint64, u64, wrap. rewrite Hnum, Z.abs_eq by lia. apply Z.mod_small. unfold missingNumber in Hr. lia.
Qed.

Lemma hash_b : hash_ok (block_Hash b).
Proof using CodecLaws0. apply hash_length. Qed.

(** Keys of other blocks are those of before. *)
Lemma other_key k : key_ok k -> block_key k -> ~ own_key b k -> d' !! key_bytes k = d !! key_bytes k.
Proof using Ha CodecLaws0. intros Hk Hb Ho. rewrite <- (ad_new _ _ _ Ha k Hk Hb). by apply (frame_key _ _ _ _ (WriteBlock_only b)). Qed.

Lemma other_number h : hash_ok h -> h <> block_Hash b -> GetBlockNumber d' h = GetBlockNumber d h.
Proof using Ha CodecLaws0.
  intros Hh Hne. unfold GetBlockNumber, db_Get. assert (d' !! numberKey h = d !! numberKey h) as ->; [|done].
  apply (other_key (KNumber h) Hh I). intros [?|[[= ?]|?]]; done.
Qed.

Lemma other_keys h n : hash_ok h -> u64_ok n -> h <> block_Hash b -> d' !! headerKey h n = d !! headerKey h n /\ d' !! blockBodyKey h n = d !! blockBodyKey h n.
Proof using Ha CodecLaws0.
  intros Hh Hn Hne. split.
  - apply (other_key (KHeader h n) (conj Hh Hn) I). intros [?|[?|[= ? ?]]]; done.
  - apply (other_key (KBody h n) (conj Hh Hn) I). intros [[= ? ?]|[?|?]]; done.
Qed.

Lemma other_known h : hash_ok h -> h <> block_Hash b -> known d' h = known d h.
Proof using Ha CodecLaws0 Hd.
  intros Hh Hne. unfold known. rewrite (other_number h Hh Hne). destruct (_ =? _); [done|].
  unfold GetBlock, GetHeader, GetHeaderMsgp, GetBody, GetBodyMsgp, db_Get. by destruct (other_keys h (GetBlockNumber d h) Hh (stored_number d h Hd Hh) Hne) as [-> ->].
Qed.

Lemma new_number : GetBlockNumber d' (block_Hash b) = num (block_Hash b).
Proof using Ha CodecLaws0 Hnum Hr.
  destruct (WriteBlock_values d b) as (_ & Hn & _). rewrite (ad_new _ _ _ Ha (KNumber (block_Hash b)) hash_b I) in Hn.
  change (key_bytes (KNumber (block_Hash b))) with (numberKey (block_Hash b)) in Hn.
  unfold GetBlockNumber, db_Get. rewrite Hn, encodeBlockNumber_length. simpl. rewrite encodeBlockNumber_be by apply number_ok. apply NumberU64_num.
Qed.

Lemma new_known : known d' (block_Hash b) = Some (wireBlock b).
Proof using Ha CodecLaws0 Hnum Hr.
  unfold known. rewrite new_number. destruct (Z.eqb_spec (num (block_Hash b)) missingNumber); [lia|]. rewrite <- NumberU64_num.
  pose proof (conj hash_b (number_ok (B_header b)) : hash_ok (block_Hash b) /\ u64_ok (NumberU64 b)) as Hk. destruct (WriteBlock_values d b) as (Hb & _ & Hh).
  rewrite (ad_new _ _ _ Ha (KBody (block_Hash b) (NumberU64 b)) Hk I) in Hb. rewrite (ad_new _ _ _ Ha (KHeader (block_Hash b) (NumberU64 b)) Hk I) in Hh. simpl in Hb, Hh.
  unfold GetBlock, GetHeader, GetHeaderMsgp, GetBody, GetBodyMsgp, db_Get. rewrite Hb, Hh, !filled_some by (apply header_filled || apply body_filled).
  cbn [mbind option_bind]. rewrite header_roundtrip. cbn [mbind option_bind]. rewrite body_roundtrip. cbn [mbind option_bind].
  unfold WithBody, NewBlockWithHeader. simpl. by rewrite !CopyHeader_id.
Qed.

Lemma known_grows h k : hash_ok h -> known d h = Some k -> known d' h = Some k.
Proof using Ha CodecLaws0 Hd Hnew. intros Hh Hk. rewrite other_known; [done..|]. congruence. Qed.

Lemma stored_adds : stored_ok num g d'.
Proof using Type*.
  split.
  - intros h Hh Hm. destruct (decide (h = block_Hash b)) as [->|Hne]; [rewrite new_known; eauto|].
    rewrite other_known by done. rewrite other_number in Hm by done. by apply (st_number _ _ _ Hd).
  - intros h k Hh Hk. destruct (decide (h = block_Hash b)) as [->|Hne].
    + rewrite new_known in Hk. injection Hk as <-. split.
      * apply hash_wire.
      * done.
      * apply Hnum.
      * apply new_number.
      * lia.
      * by apply (ad_state _ _ _ Ha).
      * done.
      * intros H0. destruct (Hpar H0) as (Hp & Hpn & p & Hpp). split_and!; [done..|]. rewrite (known_grows (block_ParentHash b) p Hp Hpp : known d' (block_ParentHash (wireBlock b)) = Some p). eauto.
    + rewrite other_known in Hk by done. destruct (st_known _ _ _ Hd h k Hh Hk) as [B1 B2 B3 B4 B5 B6 B7 B8]. split; try done.
      * by rewrite other_number.
      * by apply Ha.
      * intros H0. destruct (B8 H0) as (P1 & P2 & q & P3). split_and!; [done..|]. rewrite (known_grows _ q); eauto.
  - intros h n Hh Hn Hi. destruct (decide (h = block_Hash b)) as [->|Hne].
    + rewrite new_number. assert (n = NumberU64 b) as ->; [|rewrite NumberU64_num; split; [done|lia]].
      destruct (decide (n = NumberU64 b)) as [|Hne]; [done|exfalso].
      assert (d' !! headerKey (block_Hash b) n = d !! headerKey (block_Hash b) n) as E1.
      { apply (other_key (KHeader (block_Hash b) n) (conj hash_b Hn) I). intros [?|[?|[= ?]]]; done. }
      assert (d' !! blockBodyKey (block_Hash b) n = d !! blockBodyKey (block_Hash b) n) as E2.
      { apply (other_key (KBody (block_Hash b) n) (conj hash_b Hn) I). intros [[= ?]|[?|?]]; done. }
      rewrite E1, E2 in Hi.
      destruct (st_index _ _ _ Hd (block_Hash b) n hash_b Hn Hi) as [He Hm]. rewrite <- He in Hm.
      destruct (st_number _ _ _ Hd _ hash_b Hm). congruence.
    + destruct (other_keys h n Hh Hn Hne) as [E1 E2]. rewrite E1, E2 in Hi. rewrite other_number by done. by apply (st_index _ _ _ Hd).
Qed.

End Adds.
End Stored.
