(* ===== verification/ChainReorg.v ===== *)
(** * Moving the head

    What [insert] changes, the two walks of [reorg] down to the common block, and the
    canonical line that it leaves. *)

From stdpp Require Import base list gmap numbers option.
From S2P Require Import Prelude Types StateDB Processor Signing Block Database Lru ChainDb ChainStore Engine BlockChain ChainInv ChainWrite.
Local Open Scope Z_scope.

Section Insert.
Context {Tx : Type} `{BlockEnv Tx, !ChainCodec Tx, !ChainExec Tx, !CodecLaws Tx}.
Implicit Types (s : BlockChain Tx) (b : Block Tx).

(** The blocks, the caches and the queue stay. *)
Record frame s s' : Prop := {
  fr_db : same_blocks (chainDb s) (chainDb s');
  fr_number : numberCache s' = numberCache s;
  fr_header : headerCache s' = headerCache s;
  fr_block : blockCache s' = blockCache s;
  fr_future : futureBlocks s' = futureBlocks s;
  fr_genesis : genesisBlock s' = genesisBlock s;
}.

#[export] Instance frame_preorder : PreOrder frame.
Proof. split; [by split|]. intros s1 s2 s3 [] []. split; [by etrans|congruence..]. Qed.

(** All heads are at a block. *)
Record heads_at s b : Prop := {
  ha_block : currentBlock s = Some b;
  ha_fast : currentFastBlock s = Some b;
  ha_header : currentHeader s = Some (B_header b);
  ha_hash : currentHeaderHash s = block_Hash b;
  ha_markers : slot (chainDb s) KHeadBlock = block_Hash b /\ slot (chainDb s) KHeadHeader = block_Hash b /\ slot (chainDb s) KHeadFast = block_Hash b;
}.

Definition head_key (k : chainKey) : Prop :=
  match k with KHeadBlock | KHeadHeader | KHeadFast | KCanonical _ | KLookup _ => True | _ => False end.

Lemma head_not_block k : block_key k -> ~ head_key k.
Proof. destruct k; simpl; tauto. Qed.

Lemma put_head_frame s w : writes_only head_key w -> frame s (set_db s (put_all (chainDb s) w)).
Proof. intros Hw. split; try done. apply (same_blocks_put head_key); [done|]. apply head_not_block. Qed.

Lemma one_write k v : key_ok k -> head_key k -> writes_only head_key [(key_bytes k, v)].
Proof. intros. apply Forall_cons_2; [by exists k|apply Forall_nil_2]. Qed.

(** The canonical hashes after [b] was inserted. *)
Definition canon_with (f : Z -> Hash) b (n : Z) : Hash := if decide (n = NumberU64 b) then block_Hash b else f n.

(** What [insert] and [insert_new] do. *)
Definition inserted s b s' : Prop := frame s s' /\
  (forall n, u64_ok n -> GetCanonicalHash (chainDb s') n = canon_with (GetCanonicalHash (chainDb s)) b n) /\
  (GetCanonicalHash (chainDb s) (NumberU64 b) <> block_Hash b \/ heads_at s b -> heads_at s' b).

Lemma insert_ok s b : wp (insert b) (fun _ s' => inserted s b s') s.
Proof using CodecLaws0.
  pose proof (hash_length (B_header b) : hash_ok (block_Hash b)) as Hl. pose proof (number_ok (B_header b) : u64_ok (NumberU64 b)) as Hn.
  unfold inserted, insert, SetCurrentHeader, WriteCanonicalHash, WriteHeadBlockHash, WriteHeadHeaderHash, WriteHeadFastBlockHash. wp_steps.
  change (canonicalKey (NumberU64 b)) with (key_bytes (KCanonical (NumberU64 b))).
  change headBlockKey with (key_bytes KHeadBlock). change headHeaderKey with (key_bytes KHeadHeader). change headFastKey with (key_bytes KHeadFast).
  assert (forall d n, GetCanonicalHash d n = slot d (KCanonical n)) as Hc by done.
  set (d1 := put_all (chainDb s) [(key_bytes (KCanonical (NumberU64 b)), block_Hash b)]). chain_simpl.
  assert (frame s (set_block (set_db (set_db s d1) (put_all d1 [(key_bytes KHeadBlock, block_Hash b)])) (Some b))) as F1.
  { split; try done. etrans; [apply (same_blocks_put head_key)|apply (same_blocks_put head_key)]; try apply head_not_block; by apply one_write. }
  case_bool_decide as He; cbn [negb]; wp_steps; chain_simpl.
  - split; [done|]. split.
    + intros n Hu. unfold d1, canon_with. rewrite !Hc, !key_slot_put by done. rewrite decide_False by done. repeat case_decide; naive_solver.
    + intros [?|[]]; [done|]. split; try done. chain_simpl. unfold d1. rewrite !key_slot_put by done. repeat case_decide; naive_solver.
  - split; [|split].
    + etrans; [exact F1|]. split; try done. chain_simpl. rewrite CopyHeader_id.
      etrans; [apply (same_blocks_put head_key)|apply (same_blocks_put head_key)]; try apply head_not_block; by apply one_write.
    + intros n Hu. unfold d1, canon_with. rewrite CopyHeader_id. chain_simpl. rewrite !Hc, !key_slot_put by done. rewrite !(decide_False (P := _ = KCanonical n)) by done. repeat case_decide; naive_solver.
    + intros _. split; chain_simpl; rewrite ?CopyHeader_id; try done. unfold d1. rewrite !key_slot_put by done. repeat case_decide; naive_solver.
Qed.

Definition is_lookup (k : chainKey) : Prop := match k with KLookup _ => True | _ => False end.

Lemma lookup_only b : writes_only is_lookup (WriteTxLookupEntries b).
Proof using CodecLaws0.
  apply Forall_forall. intros kv Hin. apply list_elem_of_In, list_elem_of_lookup in Hin as [i Hi]. unfold WriteTxLookupEntries in Hi.
  rewrite list_lookup_imap in Hi. apply fmap_Some in Hi as (tx & _ & ->). exists (KLookup (TransactionHash tx)). split_and!; [|done..]. apply tx_hash_length.
Qed.

Lemma lookup_head k : is_lookup k -> head_key k.
Proof. by destruct k. Qed.

Lemma heads_slots s s' b : currentBlock s' = currentBlock s -> currentFastBlock s' = currentFastBlock s -> currentHeader s' = currentHeader s ->
  currentHeaderHash s' = currentHeaderHash s -> (forall k, k = KHeadBlock \/ k = KHeadHeader \/ k = KHeadFast -> slot (chainDb s') k = slot (chainDb s) k) ->
  heads_at s b -> heads_at s' b.
Proof. intros E1 E2 E3 E4 E5 [H1 H2 H3 H4 H5]. split; rewrite ?E1, ?E2, ?E3, ?E4, ?E5; auto. Qed.

Lemma insert_new_ok s b : wp (insert_new b) (fun _ s' => inserted s b s') s.
Proof using CodecLaws0.
  unfold insert_new. wp_steps. eapply wp_mono; [apply insert_ok|]. intros _ s1 (F1 & C1 & H1). wp_steps. chain_simpl. split_and!.
  - etrans; [exact F1|]. apply put_head_frame. eapply writes_only_impl; [apply lookup_head|apply lookup_only].
  - intros n Hn. rewrite <- C1 by done. apply (slot_frame _ _ _ (KCanonical n) (lookup_only b) Hn). tauto.
  - intros Hc. eapply heads_slots; [..|by apply H1]; try done. intros k Hk. chain_simpl.
    apply (slot_frame _ _ _ k (lookup_only b)); destruct Hk as [-> |[-> | ->]]; simpl; tauto.
Qed.

(** The canonical hashes after a list was inserted. *)
Definition inserted_all s (l : list (Block Tx)) s' : Prop := frame s s' /\
  (forall n, u64_ok n -> (forall b, b ∈ l -> NumberU64 b <> n) -> GetCanonicalHash (chainDb s') n = GetCanonicalHash (chainDb s) n) /\
  (forall b, b ∈ l -> GetCanonicalHash (chainDb s') (NumberU64 b) = block_Hash b) /\
  (forall l0 b, l = l0 ++ [b] -> GetCanonicalHash (chainDb s) (NumberU64 b) <> block_Hash b -> heads_at s' b) /\ (l = [] -> s' = s).

Lemma insert_all_ok l : forall s, NoDup (NumberU64 <$> l) -> wp (mapM' insert_new l) (fun _ s' => inserted_all s l s') s.
Proof using CodecLaws0.
  induction l as [|x l IH]; intros s Hnd; simpl mapM'; wp_steps.
  - split_and!; [done..| | |done]; [by intros b ?%elem_of_nil|by intros [] ? ?].
  - rewrite fmap_cons, list.NoDup_cons in Hnd. destruct Hnd as [Hx Hnd]. pose proof (number_ok (B_header x) : u64_ok (NumberU64 x)) as Hux.
    eapply wp_mono; [apply insert_new_ok|]. intros u s1 (F1 & C1 & H1). wp_steps. eapply wp_mono; [by apply IH|].
    intros us s2 (F2 & N2 & C2 & H2 & E2). wp_steps. split_and!.
    + by etrans.
    + intros n Hn Hne. rewrite N2, C1; [|done..|by intros b ?; apply Hne; right]. unfold canon_with. rewrite decide_False; [done|]. intros ->. apply (Hne x); [by left|done].
    + intros b [->|Hb]%elem_of_cons; [|by apply C2]. rewrite N2, C1 by (done || (intros b Hb He; apply Hx; rewrite <- He; by apply list_elem_of_fmap_2)).
      unfold canon_with. by rewrite decide_True.
    + intros l0 b Hl Hc. destruct l0 as [|y l0]; injection Hl as -> ->; [rewrite (E2 eq_refl); by apply H1; left|]. apply (H2 l0 b); [done|].
      rewrite C1 by apply number_ok. unfold canon_with. rewrite decide_False; [done|]. intros He. apply Hx. rewrite <- He. apply list_elem_of_fmap_2. set_solver.
    + done.
Qed.

End Insert.

(** ** The walks of [reorg] *)

Section Walk.
Context {Tx : Type} `{BlockEnv Tx, !ChainCodec Tx, !ChainExec Tx, !CodecLaws Tx}.
Context (num : Hash -> Z) (g : Hash).
Implicit Types (s : BlockChain Tx) (b : Block Tx) (d : Db).

(** A block whose parent is stored; the block itself may not be. *)
Record attached d b : Prop := {
  at_number : Number (B_header b) = num (block_Hash b);
  at_range : 0 <= num (block_Hash b) < missingNumber;
  at_genesis : num (block_Hash b) = 0 -> block_Hash b = g;
  at_parent : 0 < num (block_Hash b) -> hash_ok (block_ParentHash b) /\ num (block_ParentHash b) = num (block_Hash b) - 1 /\ is_Some (known d (block_ParentHash b));
}.

Lemma attached_known d h b : stored_ok num g d -> hash_ok h -> known d h = Some b -> attached d b.
Proof using Type. intros Hd Hh Hb. destruct (st_known _ _ _ Hd h b Hh Hb) as [<- ? ? ? ? ? ? ?]. by split. Qed.

Lemma attached_stands d b : stored_ok num g d -> stands d (B_header b) -> attached d b.
Proof using CodecLaws0.
  intros Hd (k & Hk & He). pose proof (attached_known d _ k Hd (hash_length _) Hk) as [A1 A2 A3 A4].
  pose proof (bs_hash _ _ _ _ _ (st_known _ _ _ Hd _ k (hash_length _) Hk) : block_Hash k = block_Hash b) as Hh. rewrite Hh in *.
  pose proof (f_equal Number He : Number (B_header b) = Number (B_header k)) as Hn.
  pose proof (f_equal ParentHash He : block_ParentHash b = block_ParentHash k) as Hp. split; rewrite ?Hp, ?Hn; done.
Qed.

Lemma stands_known d h b : stored_ok num g d -> hash_ok h -> known d h = Some b -> stands d (B_header b).
Proof using Type. intros Hd Hh Hb. exists b. by rewrite (bs_hash _ _ _ _ _ (st_known _ _ _ Hd h b Hh Hb) : HeaderHash (B_header b) = h). Qed.

Lemma attached_u64 d b : attached d b -> NumberU64 b = num (block_Hash b).
Proof using Type.
  intros [Hn Hr _ _]. unfold NumberU64, header_NumberU64, big_Uint64, u64, wrap. rewrite Hn, Z.abs_eq by lia.
  apply Z.mod_small. unfold missingNumber in Hr. lia.
Qed.

(** One step down. *)
Lemma parent_step s b : stored_ok num g (chainDb s) -> caches_ok s -> attached (chainDb s) b -> 0 < num (block_Hash b) ->
  wp (bc_GetBlock (block_ParentHash b) (u64 (NumberU64 b - 1)))
    (fun r s' => exists p, r = Some p /\ known (chainDb s) (block_ParentHash b) = Some p /\ block_Hash p = block_ParentHash b /\
      attached (chainDb s) p /\ num (block_Hash p) = num (block_Hash b) - 1 /\ reads s s') s.
Proof using Type.
  intros Hd Hc Ha Hp. destruct (at_parent _ _ Ha Hp) as (Hh & Hn & p & Hk). pose proof (at_range _ _ Ha) as Hr.
  assert (u64 (NumberU64 b - 1) = num (block_ParentHash b)) as Hu.
  { rewrite (attached_u64 _ _ Ha), Hn. apply Z.mod_small. unfold missingNumber in Hr. lia. }
  eapply wp_mono; [apply (get_block num g); try done|].
  - rewrite Hu, Hn. unfold u64_ok, missingNumber in *. lia.
  - intros r s' [-> Hrd]. exists p. pose proof (bs_hash _ _ _ _ _ (st_known _ _ _ Hd _ p Hh Hk)) as Hph. rewrite Hph, Hn.
    split_and!; try done. by eapply attached_known.
Qed.

(** From [b] down to [c], without [c]. *)
Inductive path d : Block Tx -> list (Block Tx) -> Block Tx -> Prop :=
| path_nil b : path d b [] b
| path_snoc b l x c : path d b l x -> attached d x -> 0 < num (block_Hash x) -> known d (block_ParentHash x) = Some c ->
    block_Hash c = block_ParentHash x -> path d b (l ++ [x]) c.

Lemma reduce_new_ok fuel : forall s b0 acc b target, stored_ok num g (chainDb s) -> caches_ok s ->
  path (chainDb s) b0 acc b -> attached (chainDb s) b -> 0 <= target <= num (block_Hash b) -> num (block_Hash b) - target < Z.of_nat fuel ->
  wp (reduce_new fuel (Some b) target acc) (fun r s' => exists c, r.1 = Some c /\ path (chainDb s) b0 r.2 c /\
    attached (chainDb s) c /\ num (block_Hash c) = target /\ reads s s') s.
Proof using CodecLaws0.
  induction fuel as [|fuel IH]; intros s b0 acc b target Hd Hc Hp Ha Ht Hf; [lia|]. cbn [reduce_new].
  rewrite (attached_u64 _ _ Ha). destruct (Z.eqb_spec (num (block_Hash b)) target) as [He|Hne]; wp_steps; [by exists b|].
  rewrite <- (attached_u64 _ _ Ha). eapply wp_mono; [apply parent_step; try done; lia|]. intros r s1 (p & -> & Hk & Hph & Hap & Hn & R1).
  pose proof (qu_db _ _ (proj1 R1)) as E1. eapply wp_mono.
  - apply (IH s1 b0 (acc ++ [b]) p target); rewrite ?E1; try done; [by apply R1| |lia..]. eapply path_snoc; try done. lia.
  - intros [r acc'] s2 (c & ? & ? & ? & ? & ?). rewrite E1 in *. exists c. split_and!; try done. by etrans.
Qed.

(** [read_receipts] ends: a receipt that was read is skipped. *)
Lemma read_receipts_ok fuel : forall l, (length l < fuel)%nat -> exists r, read_receipts fuel l = Ok r.
Proof using CodecLaws0.
  induction fuel as [|fuel IH]; intros l Hl; [lia|]. simpl. destruct l as [|x l]; [eauto|].
  destruct (decReceipt (x :: l)) as [r|] eqn:Hr; [|eauto]. pose proof (receipt_skip _ _ Hr) as Hs.
  destruct (IH (skipMsg (x :: l))) as [rs ->]; [lia|]. simpl. eauto.
Qed.

Lemma GetBlockReceipts_ok d h n : exists r, GetBlockReceipts d h n = Ok r.
Proof using CodecLaws0. unfold GetBlockReceipts. destruct (filled _) as [data|]; [|eauto]. apply read_receipts_ok. lia. Qed.

Lemma collect_logs s h : caches_ok s -> hash_ok h -> wp (collectLogs h) (fun _ s' => reads s s') s.
Proof using CodecLaws0.
  intros Hc Hh. unfold collectLogs. wp_steps. eapply wp_mono; [by apply get_number|]. intros n s1 [-> R1]. wp_steps.
  destruct (GetBlockReceipts_ok (chainDb s1) h (GetBlockNumber (chainDb s) h)) as [r Hr]. eapply wp_run; [done|]. by wp_steps.
Qed.

(** The two walks meet on the canonical line. *)
Lemma meet_ok fuel : forall s head b0 old new oldChain acc txs logs, stored_ok num g (chainDb s) -> caches_ok s -> line_ok num g (chainDb s) head ->
  path (chainDb s) b0 acc new -> attached (chainDb s) new -> stands (chainDb s) (B_header old) ->
  num (block_Hash new) = num (block_Hash old) -> num (block_Hash old) <= num head ->
  GetCanonicalHash (chainDb s) (num (block_Hash old)) = block_Hash old -> num (block_Hash old) < Z.of_nat fuel ->
  wp (meet fuel old new oldChain acc txs logs) (fun r s' => exists o n t l c, r = inr (o, n, t, l) /\ path (chainDb s) b0 n c /\
    block_Hash c = GetCanonicalHash (chainDb s) (num (block_Hash c)) /\ num (block_Hash c) <= num (block_Hash old) /\ reads s s') s.
Proof using CodecLaws0.
  induction fuel as [|fuel IH]; intros s head b0 old new oldChain acc txs logs Hd Hc Hl Hp Ha Hs Hn Hle Hcan Hf; [pose proof (at_range _ _ Ha); lia|].
  cbn [meet]. pose proof (attached_stands _ _ Hd Hs) as Hao. case_bool_decide as He; wp_steps.
  { exists oldChain, acc, txs, logs, new. rewrite <- He. by split_and!. }
  assert (0 < num (block_Hash old)) as Hpos.
  { pose proof (at_range _ _ Hao). destruct (decide (num (block_Hash old) = 0)) as [Hzero|]; [|lia]. exfalso. apply He.
    by rewrite (at_genesis _ _ Hao Hzero), (at_genesis _ _ Ha) by lia. }
  eapply wp_mono; [by apply collect_logs, hash_length|]. intros lg s1 R1. pose proof (qu_db _ _ (proj1 R1)) as E1. wp_steps.
  eapply wp_mono; [apply parent_step; rewrite ?E1; try done; by apply R1|]. rewrite E1. intros ro s2 (o & -> & Hko & Hoh & Hato & Hno & R2).
  pose proof (qu_db _ _ (proj1 R2)) as E2. rewrite E1 in E2. wp_steps.
  eapply wp_mono; [apply parent_step; rewrite ?E2; try done; [by apply R2, R1|lia]|]. rewrite E2. intros rn s3 (n & -> & Hkn & Hnh & Hatn & Hnn & R3).
  pose proof (qu_db _ _ (proj1 R3)) as E3. rewrite E2 in E3.
  assert (GetCanonicalHash (chainDb s) (num (block_Hash old) - 1) = block_ParentHash old) as Hcp.
  { destruct Hs as (k & Hk & Hw). rewrite (f_equal ParentHash Hw : block_ParentHash old = block_ParentHash k).
    symmetry. apply (ln_link _ _ _ _ Hl); [lia|]. by rewrite Hcan. }
  eapply wp_mono.
  - apply (IH s3 head b0 o n); rewrite ?E3; try done; [by apply R3, R2, R1| | | | | |].
    + eapply path_snoc; try done. lia.
    + eapply stands_known; [done| |exact Hko]. by apply (at_parent _ _ Hao).
    + lia.
    + lia.
    + by rewrite Hno, Hcp.
    + lia.
  - rewrite E3. intros r s4 (? & ? & ? & ? & c & -> & ? & ? & ? & ?). do 4 eexists. exists c. split_and!; try done; [lia|].
    etrans; [exact R1|]. etrans; [exact R2|]. by etrans.
Qed.

End Walk.

(** ** The new line *)

Section Line.
Context {Tx : Type} `{BlockEnv Tx, !ChainCodec Tx, !ChainExec Tx, !CodecLaws Tx}.
Context (num : Hash -> Z) (g : Hash).
Implicit Types (s : BlockChain Tx) (b : Block Tx) (d : Db).

Record path_facts d b (l : list (Block Tx)) (c : Block Tx) : Prop := {
  pf_range x : x ∈ l -> num (block_Hash c) < num (block_Hash x) <= num (block_Hash b);
  pf_order : num (block_Hash c) <= num (block_Hash b);
  pf_nodup : NoDup (NumberU64 <$> l);
  pf_attached x : x ∈ l -> attached num g d x;
  pf_full n : num (block_Hash c) < n <= num (block_Hash b) -> exists x, x ∈ l /\ num (block_Hash x) = n;
  pf_stored x : x ∈ l -> x = b \/ hash_ok (block_Hash x) /\ known d (block_Hash x) = Some x;
  pf_link x : x ∈ l -> block_ParentHash x = block_Hash c \/ exists y, y ∈ l /\ block_ParentHash x = block_Hash y;
  pf_end : l = [] /\ c = b \/ (exists l', l = b :: l') /\ hash_ok (block_Hash c) /\ known d (block_Hash c) = Some c;
}.

Lemma path_ok d b l c : path num g d b l c -> path_facts d b l c.
Proof using CodecLaws0.
  induction 1 as [b|b l x c Hp IH Ha Hpos Hk Hh].
  { split; try (by intros ? ?%elem_of_nil); [lia|constructor|intros; lia|by left]. }
  destruct (at_parent _ _ _ _ Ha Hpos) as (Hok & Hn & _). rewrite <- Hh in Hok, Hn, Hk. destruct IH as [I1 I2 I3 I4 I5 I6 I7 I8].
  assert (x = b \/ hash_ok (block_Hash x) /\ known d (block_Hash x) = Some x) as Hx by (destruct I8 as [[_ ->]|(_ & ? & ?)]; auto).
  split.
  - intros y [Hy| ->%list_elem_of_singleton]%elem_of_app; [specialize (I1 y Hy); lia|lia].
  - lia.
  - rewrite fmap_app. apply list.NoDup_app. split_and!; [done| |apply NoDup_singleton]. intros n Hin ->%list_elem_of_singleton.
    apply list_elem_of_fmap in Hin as (y & He & Hy). rewrite (attached_u64 _ _ _ _ Ha), (attached_u64 _ _ _ _ (I4 y Hy)) in He. specialize (I1 y Hy). lia.
  - intros y [Hy| ->%list_elem_of_singleton]%elem_of_app; auto.
  - intros n Hr. destruct (decide (n = num (block_Hash x))) as [->|]; [exists x; set_solver|]. destruct (I5 n) as (y & ? & ?); [lia|]. exists y. set_solver.
  - intros y [Hy| ->%list_elem_of_singleton]%elem_of_app; auto.
  - intros y [Hy| ->%list_elem_of_singleton]%elem_of_app; [|by left]. right. destruct (I7 y Hy) as [He|(z & ? & ?)]; [exists x|exists z]; set_solver.
  - right. split; [|done]. destruct I8 as [[-> ->]|[[l' ->] _]]; [by exists []|by eexists].
Qed.

Lemma line_extends d d' head b l c kb : line_ok num g d head -> path num g d b l c ->
  block_Hash c = GetCanonicalHash d (num (block_Hash c)) -> num (block_Hash c) <= num head < num (block_Hash b) -> 0 <= num (block_Hash c) ->
  attached num g d b ->
  (forall n, u64_ok n -> (forall x, x ∈ l -> NumberU64 x <> n) -> GetCanonicalHash d' n = GetCanonicalHash d n) ->
  (forall x, x ∈ l -> GetCanonicalHash d' (NumberU64 x) = block_Hash x) ->
  (forall h k, hash_ok h -> known d h = Some k -> known d' h = Some k) ->
  known d' (block_Hash b) = Some kb -> block_ParentHash kb = block_ParentHash b ->
  line_ok num g d' (block_Hash b).
Proof using CodecLaws0.
  intros Hl Hp Hc Hr H0 Hab Hold Hnew Hkn Hkb Hpar. destruct (path_ok _ _ _ _ Hp) as [F1 F2 F3 F4 F5 F6 F7 F8].
  pose proof (at_range _ _ _ _ Hab) as Hb.
  assert (forall x, x ∈ l -> NumberU64 x = num (block_Hash x)) as Hu by (intros x Hx; by apply (attached_u64 num g d), F4).
  assert (forall n, 0 <= n <= num (block_Hash c) -> GetCanonicalHash d' n = GetCanonicalHash d n) as Hlow.
  { intros n Hn. apply Hold; [unfold u64_ok, missingNumber in *; lia|]. intros x Hx. rewrite (Hu x Hx). specialize (F1 x Hx). lia. }
  assert (forall x, x ∈ l -> GetCanonicalHash d' (num (block_Hash x)) = block_Hash x) as Hhigh by (intros x Hx; rewrite <- (Hu x Hx) at 1; auto).
  assert (forall n, num (block_Hash c) < n <= num (block_Hash b) -> exists x, x ∈ l /\ num (block_Hash x) = n /\ GetCanonicalHash d' n = block_Hash x) as Hfull.
  { intros n Hn. destruct (F5 n Hn) as (x & Hx & <-). eauto. }
  assert (forall x, x ∈ l -> exists k, known d' (block_Hash x) = Some k /\ block_ParentHash k = block_ParentHash x) as Hks.
  { intros x Hx. destruct (F6 x Hx) as [->|[? ?]]; eauto. }
  split.
  - destruct (Hfull (num (block_Hash b))) as (x & Hx & He & ->); [lia|]. destruct F8 as [[-> _]|[[l' ->] _]]; [by apply elem_of_nil in Hx|].
    apply elem_of_cons in Hx as [->|Hx]; [done|]. exfalso. rewrite fmap_cons, list.NoDup_cons in F3. destruct F3 as [Hni _]. apply Hni.
    rewrite (Hu b ltac:(by left)), <- He, <- (Hu x ltac:(by right)). by apply list_elem_of_fmap_2.
  - rewrite Hlow by lia. apply (ln_first _ _ _ _ Hl).
  - done.
  - intros n Hn. destruct (decide (n <= num (block_Hash c))).
    + rewrite Hlow by lia. destruct (ln_known _ _ _ _ Hl n) as (K1 & K2 & k & K3); [lia|]. split_and!; eauto.
    + destruct (Hfull n) as (x & Hx & He & ->); [lia|]. destruct (Hks x Hx) as (k & Hk & _). split_and!; [apply hash_length|done|eauto].
  - intros n k Hn Hk. destruct (decide (n <= num (block_Hash c))).
    + rewrite Hlow in Hk |- * by lia. destruct (ln_known _ _ _ _ Hl n) as (K1 & _ & k' & K3); [lia|]. rewrite (Hkn _ _ K1 K3) in Hk. injection Hk as <-.
      apply (ln_link _ _ _ _ Hl); [lia|done].
    + destruct (Hfull n) as (x & Hx & He & Hcx); [lia|]. rewrite Hcx in Hk. destruct (Hks x Hx) as (k' & Hk' & Hpk). assert (k = k') as -> by congruence.
      rewrite Hpk. pose proof (at_parent _ _ _ _ (F4 x Hx) ltac:(lia)) as (_ & Hpn & _). destruct (F7 x Hx) as [Hx'|(y & Hy & Hx')]; rewrite Hx' in *.
      * rewrite <- He, <- Hpn, Hlow by lia. done.
      * rewrite <- He, <- Hpn. symmetry. auto.
  - intros n Hn. rewrite Hold; [|unfold u64_ok; lia|]. { apply (ln_above _ _ _ _ Hl). lia. }
    intros x Hx. rewrite (Hu x Hx). specialize (F1 x Hx). lia.
Qed.

(** The same canonical hashes over at least the same blocks. *)
Lemma line_same d d' head : (forall n, 0 <= n < 2 ^ 64 -> GetCanonicalHash d' n = GetCanonicalHash d n) ->
  (forall h k, hash_ok h -> known d h = Some k -> known d' h = Some k) -> line_ok num g d head -> line_ok num g d' head.
Proof using CodecLaws0.
  intros Hc Hkn Hl. pose proof (ln_range _ _ _ _ Hl) as Hr. assert (missingNumber < 2 ^ 64) as Hm by (unfold missingNumber; lia). split.
  - rewrite Hc by lia. apply Hl.
  - rewrite Hc by lia. apply Hl.
  - done.
  - intros n Hn. rewrite Hc by lia. destruct (ln_known _ _ _ _ Hl n Hn) as (K1 & K2 & k & K3). split_and!; [done..|]. exists k. by apply Hkn.
  - intros n k Hn. rewrite !Hc by lia. destruct (ln_known _ _ _ _ Hl n) as (K1 & K2 & k' & K3); [lia|]. rewrite (Hkn _ _ K1 K3). intros [= <-].
    by apply (ln_link _ _ _ _ Hl).
  - intros n Hn. rewrite Hc by lia. by apply (ln_above _ _ _ _ Hl).
Qed.

End Line.
