(* ===== verification/ChainCommit.v ===== *)
(** * Reorganising and writing a block

    [reorg] and [WriteBlockAndState] keep the invariant of the chain. *)

From stdpp Require Import base list gmap numbers option.
From S2P Require Import Prelude Types StateDB Processor Signing Block Database Lru ChainDb ChainStore Engine BlockChain ChainInv ChainWrite ChainReorg.
Local Open Scope Z_scope.

Section Reorg.
Context {Tx : Type} `{BlockEnv Tx, !ChainCodec Tx, !ChainExec Tx, !CodecLaws Tx, !ExecLaws Tx}.
Context (num : Hash -> Z) (g : Hash).
Implicit Types (s : BlockChain Tx) (b : Block Tx) (d : Db).

(** ** Events and deletions *)

Definition set_feeds s f := mkChain (chainDb s) (genesisHeader s) (currentHeader s) (currentHeaderHash s) (headerCache s) (numberCache s) (genesisBlock s)
  (currentBlock s) (currentFastBlock s) (bodyCache s) (bodyMsgpCache s) (blockCache s) (futureBlocks s) (badBlocks s) (procInterrupt s) f.

Lemma send_all {A} (f : A -> chainEvent Tx) l : forall s, wp (mapM' (fun x => modify (fun s => add_feed s (f x))) l) (fun _ s' => exists e, s' = set_feeds s e) s.
Proof using Type.
  induction l as [|x l IH]; intros s; simpl mapM'; wp_steps; [by exists (feeds s); destruct s|].
  eapply wp_mono; [apply IH|]. intros us s' [e ->]. wp_steps. by exists e.
Qed.

Lemma key_slot_delete P ks d k : Forall (fun x => exists k', key_ok k' /\ P k' /\ x = key_bytes k') ks -> key_ok k -> ~ P k ->
  slot (delete_all d ks) k = slot d k.
Proof using Type. intros Hw Hk HP. unfold slot, stored_hash, db_Get. by rewrite (delete_key P). Qed.

Lemma deleted_lookups (txs : list Tx) : Forall (fun x => exists k', key_ok k' /\ is_lookup k' /\ x = key_bytes k') (txs ≫= fun tx => DeleteTxLookupEntry (TransactionHash tx)).
Proof using CodecLaws0 ExecLaws0.
  apply Forall_forall. intros x Hx. apply list_elem_of_In, list_elem_of_bind in Hx as (tx & Hx & _). apply list_elem_of_singleton in Hx as ->.
  exists (KLookup (TransactionHash tx)). split_and!; [|done..]. apply tx_hash_length.
Qed.

(** The caches are about blocks. *)
Lemma caches_frame s s' : stored_ok num g (chainDb s) -> same_blocks (chainDb s) (chainDb s') -> numberCache s' = numberCache s -> headerCache s' = headerCache s ->
  blockCache s' = blockCache s -> caches_ok s -> caches_ok s'.
Proof using CodecLaws0 ExecLaws0.
  intros Hd Hs E1 E2 E3 [C1 C2 C3]. split; rewrite ?E1, ?E2, ?E3.
  - intros h n Hin. destruct (C1 h n Hin) as (? & ? & <-). split_and!; [done..|]. symmetry. by apply (GetBlockNumber_same _ _ (sb_keys _ _ Hs)).
  - intros h x Hin. destruct (C2 h x Hin) as (? & k & Hk & Hx). split; [done|]. exists k. by rewrite <- (known_kept num g _ _ h Hd (sb_keys _ _ Hs)).
  - intros h k Hin. destruct (C3 h k Hin) as (? & Hk). split; [done|]. by rewrite <- (known_kept num g _ _ h Hd (sb_keys _ _ Hs)).
Qed.

(** ** The head has moved to [b] *)

Record moved s b s' : Prop := {
  mv_blocks : same_blocks (chainDb s) (chainDb s');
  mv_heads : heads_at s' b;
  mv_caches : caches_ok s';
  mv_future : futureBlocks s' = futureBlocks s;
  mv_genesis : genesisBlock s' = genesisBlock s;
}.

(** The canonical hashes lead from [b] to a block of the old line. *)
Definition rerouted d head b d' : Prop := exists l c, path num g d b l c /\ block_Hash c = GetCanonicalHash d (num (block_Hash c)) /\
  0 <= num (block_Hash c) <= num head /\
  (forall n, u64_ok n -> (forall x, x ∈ l -> NumberU64 x <> n) -> GetCanonicalHash d' n = GetCanonicalHash d n) /\
  (forall x, x ∈ l -> GetCanonicalHash d' (NumberU64 x) = block_Hash x).

Lemma reorg_ok s head old b : inv num g head s -> currentBlock s = Some old -> attached num g (chainDb s) b -> num head < num (block_Hash b) ->
  block_Hash b <> zeroHash ->
  wp (reorg old b) (fun r s' => r = None /\ moved s b s' /\ rerouted (chainDb s) head b (chainDb s')) s.
Proof using CodecLaws0 ExecLaws0.
  intros [I1 I2 I3 I4] Hcur Ha Hlt Hz. destruct (hd_block _ _ I3) as (old' & Hc' & Hh & Hst). assert (old' = old) as -> by congruence. subst head.
  pose proof (attached_stands num g _ _ I1 Hst) as Hao. pose proof (at_range _ _ _ _ Hao) as Hro. pose proof (at_range _ _ _ _ Ha) as Hrb.
  unfold reorg. cbv zeta. rewrite (attached_u64 _ _ _ _ Ha), (attached_u64 _ _ _ _ Hao). wp_steps.
  eapply wp_mono; [apply (reduce_new_ok num g _ s b [] b); try done; [apply path_nil|lia|lia]|].
  intros [nb acc] s1 (n1 & E & Hp1 & Ha1 & Hn1 & R1). simpl in E, Hp1. subst nb. pose proof (qu_db _ _ (proj1 R1)) as D1. wp_steps.
  eapply wp_mono; [apply (meet_ok num g _ s1 (block_Hash old) b old n1 [] acc); rewrite ?D1; try done; [by apply R1|by apply (ln_head _ _ _ _ I2)|lia]|].
  rewrite D1. intros r s2 (oc & nc & txs & logs & c & -> & Hp & Hcc & Hle & R2). pose proof (qu_db _ _ (proj1 R2)) as D2. rewrite D1 in D2. wp_steps.
  destruct (path_ok num g _ _ _ _ Hp) as [F1 F2 F3 F4 F5 F6 F7 F8].
  eapply wp_mono; [apply insert_all_ok; rewrite fmap_reverse; by rewrite reverse_Permutation|]. intros us s3 (Fr & N3 & C3 & H3 & _). rewrite D2 in N3, H3.
  assert (exists l', nc = b :: l') as [l' ->] by (destruct F8 as [[-> ->]|[? _]]; [lia|done]).
  assert (heads_at s3 b) as Hh3.
  { apply (H3 (reverse l') b); [by rewrite reverse_cons|]. rewrite (attached_u64 _ _ _ _ Ha), (ln_above _ _ _ _ I2) by (unfold missingNumber in Hrb; lia). done. }
  assert (caches_ok s3) as Hc3.
  { destruct Fr. apply (caches_frame s2); rewrite ?D2 in *; try done. by apply R2, R1. }
  wp_steps. set (ks := TxDifference _ _ ≫= _). set (s4 := set_db s3 (delete_all (chainDb s3) ks)).
  assert (same_blocks (chainDb s) (chainDb s4)) as Hsame.
  { rewrite <- D2. etrans; [apply (fr_db _ _ Fr)|]. apply (same_blocks_delete is_lookup); [apply deleted_lookups|]. intros k Hk Hl. by destruct k. }
  assert (moved s b s4) as Hm.
  { split; [done| | | |].
    - eapply heads_slots; [..|exact Hh3]; try done. intros k Hk. apply (key_slot_delete is_lookup); [apply deleted_lookups|..]; destruct Hk as [-> |[-> | ->]]; simpl; tauto.
    - apply (caches_frame s3); try done; [|]. { eapply stored_same; [apply (fr_db _ _ Fr)|]. by rewrite D2. }
      apply (same_blocks_delete is_lookup); [apply deleted_lookups|]. intros k Hk Hl. by destruct k.
    - unfold s4. chain_simpl. rewrite (fr_future _ _ Fr), (proj2 R2). apply R1.
    - unfold s4. chain_simpl. rewrite (fr_genesis _ _ Fr), (qu_genesis _ _ (proj1 R2)). apply R1. }
  assert (rerouted (chainDb s) (block_Hash old) b (chainDb s4)) as Hre.
  { assert (forall n, u64_ok n -> GetCanonicalHash (chainDb s4) n = GetCanonicalHash (chainDb s3) n) as Hd4.
    { intros n Hn. apply (key_slot_delete is_lookup _ _ (KCanonical n)); [apply deleted_lookups|done|tauto]. }
    exists (b :: l'), c. split_and!; try done.
    - destruct F8 as [[? _]|(_ & Hok & Hk)]; [done|].
      apply (bs_range _ _ _ _ _ (st_known _ _ _ I1 _ c Hok Hk)).
    - intros n Hn Hne. rewrite Hd4 by done. rewrite N3; [done|done|]. intros x Hx%elem_of_reverse. rewrite reverse_involutive in Hx. by apply Hne.
    - intros x Hx. rewrite Hd4 by apply number_ok. apply C3. by apply elem_of_reverse. }
  assert (forall e, moved s b (set_feeds s4 e)) as Hme by (intros e; destruct Hm as [M1 M2 [] M4 M5]; split; [done| |by split|done..]; by destruct M2; split).
  destruct (_ =? _)%nat; wp_steps; (eapply wp_mono; [apply send_all|]); intros ? s5 [e ->]; wp_steps; (split_and!; [done| |exact Hre]); [by apply Hme|].
  apply (Hme e).
Qed.

End Reorg.

(** ** Writing a block with its state *)

Section Write.
Context {Tx : Type} `{BlockEnv Tx, !ChainCodec Tx, !ChainExec Tx, !CodecLaws Tx, !ExecLaws Tx}.
Implicit Types (s : BlockChain Tx) (b : Block Tx) (d : Db).

(** What was executed for a block. *)
Definition executed d b (cache : list (list byte * list byte)) (receipts : list Receipt) (st : StateT) : Prop :=
  exists root st0 logs, NewState d root = Some st0 /\ ProcessBlock d b st0 = Ok (cache, receipts, logs, st) /\
    StateRootHash (B_header b) = IntermediateRoot st.

Definition aside (k : chainKey) : Prop := match k with KReceipts _ _ | KLookup _ | KPreimage _ => True | _ => False end.

Lemma receipts_aside b rs : writes_only aside (WriteBlockReceipts (block_Hash b) (NumberU64 b) rs).
Proof using CodecLaws0.
  apply Forall_cons_2; [|apply Forall_nil_2]. exists (KReceipts (block_Hash b) (NumberU64 b)). split_and!; [|done..].
  split; [apply hash_length|apply number_ok].
Qed.

Lemma lookups_aside b : writes_only aside (WriteTxLookupEntries b).
Proof using CodecLaws0. eapply writes_only_impl; [|apply lookup_only]. by intros []. Qed.

Lemma preimages_aside d st : writes_only aside (WritePreimages d (Preimages st)).
Proof using ExecLaws0.
  apply Forall_forall. intros kv Hin. apply list_elem_of_In, list_elem_of_omap in Hin as ([h v] & Hin & Hkv). simpl in Hkv.
  destruct (table_Has _ _ _); [done|]. injection Hkv as <-. apply elem_of_map_to_list in Hin. exists (KPreimage h). split_and!; [|done..].
  by eapply preimage_hash.
Qed.

Lemma aside_block k : block_key k -> ~ aside k.
Proof. destruct k; simpl; tauto. Qed.
Lemma aside_head k : head_key k -> ~ is_lookup k -> ~ aside k.
Proof. destruct k; simpl; tauto. Qed.

Section Batch.
Context (d d2 : Db) (b : Block Tx) (cache nodes : list (list byte * list byte)) (receipts : list Receipt) (st : StateT).
Context (Hex : executed d b cache receipts st) (Hco : CommitTo st = Some nodes) (Hs : same_blocks d d2).
Context (lk : list (list byte * list byte)) (Hlk : writes_only aside lk).

Let batch := (WriteBlock b ++ nodes ++ WriteBlockReceipts (block_Hash b) (NumberU64 b) receipts) ++ lk.

Lemma cache_off : off_chain cache.
Proof using Hex ExecLaws0. destruct Hex as (root & st0 & logs & _ & Hp & _). by eapply process_off. Qed.

(** A key of the schema that is not the block's and not put aside keeps its value. *)
Lemma batch_key k : key_ok k -> ~ aside k -> put_all d2 (batch ++ cache) !! key_bytes k = put_all d2 (WriteBlock b) !! key_bytes k.
Proof using Hex Hco Hlk ExecLaws0 CodecLaws0.
  intros Hk Ha. assert (~ is_preimage k) as Hp by (destruct k; simpl in *; tauto).
  unfold batch. rewrite !put_all_app. rewrite (off_chain_key _ _ _ cache_off Hk Hp).
  rewrite (frame_key _ _ _ _ Hlk Hk Ha), (frame_key _ _ _ _ (receipts_aside b receipts) Hk Ha). by apply off_chain_key; [by eapply commit_off|done..].
Qed.

Lemma batch_off x : length x = 32%nat -> put_all d2 (batch ++ cache) !! x = put_all (put_all d nodes) cache !! x.
Proof using Hs Hlk CodecLaws0.
  intros Hx. unfold batch. rewrite !put_all_app. apply put_all_pointwise.
  rewrite (frame_off _ _ _ _ Hlk Hx), (frame_off _ _ _ _ (receipts_aside b receipts) Hx). apply put_all_pointwise.
  rewrite (frame_off _ _ _ _ (WriteBlock_only b) Hx). symmetry. by apply (sb_off _ _ Hs).
Qed.

Lemma batch_adds : adds d (put_all d2 (batch ++ cache)) b.
Proof using Type*.
  pose proof Hex as (root & st0 & logs & Hn & Hp & Hroot). split.
  - intros k Hk Hb. rewrite batch_key by (done || by apply aside_block). apply put_all_pointwise. by apply (sb_keys _ _ Hs).
  - intros r Hr. eapply state_local; [intros x Hx; symmetry; by apply batch_off|]. eapply process_keeps; [exact Hp|]. by eapply commit_keeps.
  - rewrite Hroot. eapply state_local; [intros x Hx; symmetry; by apply batch_off|]. eapply process_keeps; [exact Hp|]. by eapply commit_opens.
Qed.

Lemma batch_slot k : head_key k -> ~ is_lookup k -> key_ok k -> slot (put_all d2 (batch ++ cache)) k = slot d2 k.
Proof using Hex Hco Hlk ExecLaws0 CodecLaws0.
  intros Hh Hl Hk. unfold slot, stored_hash, db_Get. rewrite batch_key by (done || by apply aside_head).
  rewrite (frame_key _ _ _ _ (WriteBlock_only b)); [done..|]. intros [-> |[-> | ->]]; done.
Qed.

End Batch.

Lemma adds_same d d3 d4 b : adds d d3 b -> same_blocks d3 d4 -> adds d d4 b.
Proof using ExecLaws0.
  intros [A1 A2 A3] Hs. split.
  - intros k Hk Hb. rewrite (A1 k Hk Hb). by apply (sb_keys _ _ Hs).
  - intros r Hr. eapply state_local; [apply (sb_off _ _ Hs)|]. auto.
  - eapply state_local; [apply (sb_off _ _ Hs)|done].
Qed.

End Write.

Section WriteBlock.
Context {Tx : Type} `{BlockEnv Tx, !ChainCodec Tx, !ChainExec Tx, !CodecLaws Tx, !ExecLaws Tx}.
Context (num : Hash -> Z) (g : Hash).
Implicit Types (s : BlockChain Tx) (b : Block Tx) (d : Db).

(** The stored blocks are those of before and [b]. *)
Definition grows d b d' : Prop := known d' (block_Hash b) = Some (wireBlock b) /\
  forall h, hash_ok h -> h <> block_Hash b -> known d' h = known d h.

Section New.
Context (s : BlockChain Tx) (head : Hash) (b : Block Tx) (Hi : inv num g head s) (Hnew : known (chainDb s) (block_Hash b) = None).
Context (Hz : block_Hash b <> zeroHash) (Ha : attached num g (chainDb s) b) (Hpos : 0 < num (block_Hash b)).

Lemma adds_grows d' : adds (chainDb s) d' b -> stored_ok num g d' /\ grows (chainDb s) b d'.
Proof using Type*.
  intros Had. pose proof (inv_stored _ _ _ _ Hi) as Hd. destruct Ha as [A1 A2 A3 A4]. split.
  - by eapply (stored_adds num g (chainDb s)).
  - split; [eapply (new_known num (chainDb s)); try done; lia|]. intros h Hh Hne. by eapply (other_known num g (chainDb s)).
Qed.

Lemma grows_known d' h k : grows (chainDb s) b d' -> hash_ok h -> known (chainDb s) h = Some k -> known d' h = Some k.
Proof using Hnew. intros [_ Ho] Hh Hk. rewrite Ho; [done..|]. congruence. Qed.

Lemma grows_stands d' x : grows (chainDb s) b d' -> stands (chainDb s) x -> stands d' x.
Proof using Hnew CodecLaws0. intros Hg (k & Hk & He). exists k. split; [|done]. eapply grows_known; [done|apply hash_length|done]. Qed.

(** The caches of a chain with the blocks of before stay right. *)
Lemma grows_caches s1 s' : same_blocks (chainDb s) (chainDb s1) -> caches_ok s1 -> adds (chainDb s) (chainDb s') b -> grows (chainDb s) b (chainDb s') ->
  numberCache s' = numberCache s1 -> headerCache s' = headerCache s1 -> blockCache s' = blockCache s1 -> caches_ok s'.
Proof using Hnew Hi CodecLaws0.
  intros Hs [C1 C2 C3] Had Hg E1 E2 E3. pose proof (inv_stored _ _ _ _ Hi) as Hd.
  assert (forall h k, hash_ok h -> known (chainDb s1) h = Some k -> known (chainDb s') h = Some k) as Hk.
  { intros h k Hh Hk. rewrite <- (known_kept num g _ _ h Hd (sb_keys _ _ Hs) Hh) in Hk. by eapply grows_known. }
  split; rewrite ?E1, ?E2, ?E3.
  - intros h n Hin. destruct (C1 h n Hin) as (Hh & Hm & <-). rewrite <- (GetBlockNumber_same _ _ (sb_keys _ _ Hs) h Hh) in *. split_and!; [done..|].
    eapply other_number; [done..|]. intros ->. destruct (st_number _ _ _ Hd _ Hh Hm). congruence.
  - intros h x Hin. destruct (C2 h x Hin) as (Hh & k & ? & Hx). eauto.
  - intros h k Hin. destruct (C3 h k Hin). eauto.
Qed.

(** ** Off the canonical line *)

Lemma inv_side s' : adds (chainDb s) (chainDb s') b -> (forall k, head_key k -> ~ is_lookup k -> key_ok k -> slot (chainDb s') k = slot (chainDb s) k) ->
  currentBlock s' = currentBlock s -> currentFastBlock s' = currentFastBlock s -> currentHeader s' = currentHeader s -> currentHeaderHash s' = currentHeaderHash s ->
  numberCache s' = numberCache s -> headerCache s' = headerCache s -> blockCache s' = blockCache s -> inv num g head s'.
Proof using Type*.
  intros Had Hsl B1 B2 B3 B4 E1 E2 E3. destruct (adds_grows _ Had) as [Hd Hg]. pose proof (inv_line _ _ _ _ Hi) as Hl.
  assert (forall n, 0 <= n < 2 ^ 64 -> GetCanonicalHash (chainDb s') n = GetCanonicalHash (chainDb s) n) as Hc by (intros n Hn; apply (Hsl (KCanonical n)); [done|simpl; tauto|exact Hn]).
  split; [done| | |by apply (grows_caches s); try done; apply (inv_caches _ _ _ _ Hi)].
  - apply (line_same num g (chainDb s)); [done| |done]. intros h k Hh Hk. by apply grows_known.
  - destruct (inv_heads _ _ _ _ Hi) as [(x1 & ? & ? & ?) (x2 & ? & ? & ?) (x3 & ? & ? & ?) ? (M1 & M2 & M3)]. split; rewrite ?B1, ?B2, ?B3, ?B4.
    + exists x1. split_and!; [done..|by apply grows_stands].
    + exists x2. split_and!; [done..|by apply grows_stands].
    + exists x3. split_and!; [done..|by apply grows_stands].
    + done.
    + assert (GetHeadFastBlockHash (chainDb s') = GetHeadFastBlockHash (chainDb s)) as Hf by (apply (Hsl KHeadFast); simpl; tauto).
      split_and!; [rewrite <- M1; apply (Hsl KHeadBlock); simpl; tauto|rewrite <- M2; apply (Hsl KHeadHeader); simpl; tauto|by rewrite Hf].
Qed.

(** ** On the canonical line *)

Lemma inv_canon s' : adds (chainDb s) (chainDb s') b -> rerouted num g (chainDb s) head b (chainDb s') -> num head < num (block_Hash b) -> heads_at s' b -> caches_ok s' -> inv num g (block_Hash b) s'.
Proof using Type*.
  intros Had (l & c & Hp & Hc & Hrc & Ho & Hn) Hlt [T1 T2 T3 T4 (T5 & T6 & T7)] Hca. destruct (adds_grows _ Had) as [Hd Hg].
  assert (stands (chainDb s') (B_header b)) as Hst by (exists (wireBlock b); split; [apply Hg|done]). split; [done| | |done].
  - apply (line_extends num g (chainDb s) (chainDb s') head b l c (wireBlock b)); try done; try lia; [apply (inv_line _ _ _ _ Hi)| |apply Hg].
    intros h k Hh Hk. by eapply grows_known.
  - split; [by exists b|by exists b|by exists (B_header b)|done|]. split_and!; [done..|by left].
Qed.

(** The last step of a canonical write is [insert]. *)
Lemma rerouted_insert d1 d4 : num head < num (block_Hash b) ->
  rerouted num g (chainDb s) head b d1 \/ block_ParentHash b = head /\ (forall n, u64_ok n -> GetCanonicalHash d1 n = GetCanonicalHash (chainDb s) n) ->
  (forall n, u64_ok n -> GetCanonicalHash d4 n = canon_with (GetCanonicalHash d1) b n) -> rerouted num g (chainDb s) head b d4.
Proof using Type*.
  intros Hlt Hor Hc4. pose proof (inv_line _ _ _ _ Hi) as Hl. pose proof (number_ok (B_header b) : u64_ok (NumberU64 b)) as Hub. destruct Hor as [(l & c & Hp & Hc & Hr & Ho & Hn)|[Hpar Hsame]].
  - exists l, c. split_and!; try done; try lia.
    + intros n Hu Hne. rewrite Hc4 by done. unfold canon_with. case_decide as Hd; [|by apply Ho]. exfalso. subst n.
      destruct (pf_end _ _ _ _ _ _ (path_ok num g _ _ _ _ Hp)) as [[_ ->]|[[l' ->] _]]; [lia|]. apply (Hne b); [by left|done].
    + intros x Hx. rewrite Hc4 by apply number_ok. unfold canon_with. case_decide as Hd; [|by apply Hn].
      rewrite <- (Hn x Hx), Hd. symmetry. apply Hn. destruct (pf_end _ _ _ _ _ _ (path_ok num g _ _ _ _ Hp)) as [[-> _]|[[l' ->] _]]; [by apply elem_of_nil in Hx|by left].
  - destruct (at_parent _ _ _ _ Ha Hpos) as (Hok & Hpn & p & Hk). pose proof (st_known _ _ _ (inv_stored _ _ _ _ Hi) _ p Hok Hk) as Hbs.
    pose proof (bs_hash _ _ _ _ _ Hbs) as Hph. rewrite Hpar in Hph. exists [b], p. rewrite Hph. pose proof (ln_range _ _ _ _ Hl). split_and!; try lia.
    + apply (path_snoc num g _ b [] b p); try done; [apply path_nil|congruence].
    + symmetry. apply (ln_head _ _ _ _ Hl).
    + intros n Hu Hne. rewrite Hc4 by done. unfold canon_with. rewrite decide_False; [auto|]. intros ->. apply (Hne b); [by left|done].
    + intros x ->%list_elem_of_singleton. rewrite Hc4 by done. unfold canon_with. by rewrite decide_True.
Qed.

(** ** [WriteBlockAndState] *)

Definition wrote (r : WriteStatus * option chainErr) (s' : BlockChain Tx) : Prop :=
  let canon := num head <? num (block_Hash b) in
  r = (if canon then CanonStatTy else SideStatTy, None) /\ inv num g (if canon then block_Hash b else head) s' /\
  grows (chainDb s) b (chainDb s') /\ futureBlocks s' = Remove (futureBlocks s) (block_Hash b).

(** From the chain where the head may have moved to the one where all is written. *)
Lemma write_canon cache receipts st nodes s1 : executed (chainDb s) b cache receipts st -> CommitTo st = Some nodes -> num head < num (block_Hash b) ->
  same_blocks (chainDb s) (chainDb s1) -> caches_ok s1 -> futureBlocks s1 = futureBlocks s ->
  rerouted num g (chainDb s) head b (chainDb s1) /\ heads_at s1 b \/ block_ParentHash b = head /\ s1 = s ->
  let batch := (WriteBlock b ++ nodes ++ WriteBlockReceipts (block_Hash b) (NumberU64 b) receipts) ++ WriteTxLookupEntries b in
  let d2 := put_all (chainDb s1) (WritePreimages (chainDb s1) (Preimages st)) in
  wp (insert b) (fun _ s' => adds (chainDb s) (chainDb s') b /\ rerouted num g (chainDb s) head b (chainDb s') /\ heads_at s' b /\ caches_ok s' /\ futureBlocks s' = futureBlocks s)
    (set_db s1 (put_all d2 (batch ++ cache))).
Proof using Type*.
  intros Hex Hco Hlt Hs1 Hca Hf Hor batch d2. assert (same_blocks (chainDb s) d2) as Hs2.
  { etrans; [exact Hs1|]. apply (same_blocks_put aside); [apply preimages_aside|apply aside_block]. }
  pose proof (batch_adds (chainDb s) d2 b cache nodes receipts st Hex Hco Hs2 _ (lookups_aside b)) as Had. fold batch in Had.
  assert (forall k, head_key k -> ~ is_lookup k -> key_ok k -> slot (put_all d2 (batch ++ cache)) k = slot (chainDb s1) k) as Hsl.
  { intros k Hh Hl Hk. unfold batch. rewrite (batch_slot (chainDb s) d2 b cache nodes receipts st Hex Hco _ (lookups_aside b)) by done.
    apply (slot_frame aside); [apply preimages_aside|done|by apply aside_head]. }
  assert (forall n, u64_ok n -> GetCanonicalHash (put_all d2 (batch ++ cache)) n = GetCanonicalHash (chainDb s1) n) as Hcn.
  { intros n Hn. apply (Hsl (KCanonical n)); [done|simpl; tauto|exact Hn]. }
  eapply wp_mono; [apply insert_ok|]. intros _ s4 (F4 & C4 & H4). chain_simpl. destruct F4 as [F1 F2 F3 F5 F6 F7].
  cbn [chainDb set_db numberCache headerCache blockCache futureBlocks] in F1, F2, F3, F5, F6, C4, H4. pose proof (adds_same _ _ _ _ Had F1) as Had4. split_and!.
  - done.
  - eapply (rerouted_insert (chainDb s1)); [done| |].
    + destruct Hor as [[? _]|[? ->]]; [by left|by right].
    + intros n Hn. rewrite C4 by done. unfold canon_with. by rewrite Hcn.
  - apply H4. destruct Hor as [[_ Hh]|[_ ->]].
    + right. eapply heads_slots; [..|exact Hh]; try done. intros k Hk. apply Hsl; destruct Hk as [-> |[-> | ->]]; simpl; tauto.
    + left. pose proof (at_range _ _ _ _ Ha). rewrite Hcn by apply number_ok. rewrite (attached_u64 _ _ _ _ Ha), (ln_above _ _ _ _ (inv_line _ _ _ _ Hi)); [done|].
      unfold missingNumber in *. lia.
  - apply (grows_caches s1); try done. by apply adds_grows.
  - congruence.
Qed.

(** Leaving the queue changes nothing else. *)
Lemma wrote_queue hd s1 s' bo bm fu : s' = set_bcaches s1 bo bm (blockCache s1) fu -> inv num g hd s1 -> inv num g hd s'.
Proof using Type. intros ->. apply quiet_inv. split; try done. by intros [C1 C2 C3]. Qed.

Lemma write_ok cache receipts st : executed (chainDb s) b cache receipts st ->
  wp (WriteBlockAndState b receipts st cache) (fun r s' => CommitTo st = None /\ r = (NonStatTy, Some CommitErr) /\ s' = s \/ wrote r s') s.
Proof using Type*.
  intros Hex. destruct (hd_block _ _ (inv_heads _ _ _ _ Hi)) as (cb & Hcb & Hh & Hst).
  pose proof (attached_stands num g _ _ (inv_stored _ _ _ _ Hi) Hst) as Hac. pose proof (attached_u64 _ _ _ _ Hac) as Huc. pose proof (attached_u64 _ _ _ _ Ha) as Hub.
  unfold WriteBlockAndState. wp_steps. rewrite Hcb. wp_steps. destruct (CommitTo st) as [nodes|] eqn:Hco; wp_steps; [|by left].
  cbv zeta. wp_steps.
  assert ((NumberU64 cb <? NumberU64 b) = (num head <? num (block_Hash b))) as -> by (by rewrite Huc, Hub, Hh). rewrite Hh. unfold wrote. destruct (Z.ltb_spec (num head) (num (block_Hash b))) as [Hlt|Hge]; cbn [andb].
  - assert (wp (if negb (bool_decide (block_ParentHash b = head)) then reorg cb b else mret None)
      (fun e s1 => e = None /\ same_blocks (chainDb s) (chainDb s1) /\ caches_ok s1 /\ futureBlocks s1 = futureBlocks s /\
        (rerouted num g (chainDb s) head b (chainDb s1) /\ heads_at s1 b \/ block_ParentHash b = head /\ s1 = s)) s) as Hre.
    { case_bool_decide as Hp; cbn [negb]; wp_steps; [split_and!; [done..|apply (inv_caches _ _ _ _ Hi)|done|by right]|].
      eapply wp_mono; [by apply (reorg_ok num g)|]. intros e s1 (-> & [M1 M2 M3 M4 M5] & Hr). split_and!; try done. by left. }
    eapply wp_mono; [exact Hre|]. intros e s1 (-> & Hs1 & Hc1 & Hf1 & Hor). wp_steps. unfold wp at 1. cbn [put_db modify].
    wp_steps. chain_simpl. eapply wp_mono; [by apply (write_canon cache receipts st nodes s1)|].
    intros _ s4 (Had & Hr4 & Hh4 & Hc4 & Hf4). wp_steps. right. destruct (adds_grows _ Had) as [_ Hg]. split_and!; try done.
    + eapply wrote_queue; [done|]. by apply inv_canon.
    + chain_simpl. by rewrite Hf4.
  - wp_steps. right. pose proof (batch_adds (chainDb s) (chainDb s) b cache nodes receipts st Hex Hco ltac:(done) [] ltac:(apply Forall_nil_2)) as Had.
    destruct (adds_grows _ Had) as [_ Hg]. split_and!; try done.
    eapply wrote_queue; [done|]. apply inv_side; try done. intros k Hhk Hl Hk.
    by apply (batch_slot (chainDb s) (chainDb s) b cache nodes receipts st Hex Hco [] ltac:(apply Forall_nil_2)).
Qed.

End New.
End WriteBlock.
