(* ===== verification/ChainImport.v ===== *)
(** * Importing blocks

    Validation, execution and the loop of [InsertChain]: the import always returns, keeps
    the invariant of the chain, loses no block and never lowers the head. *)

From stdpp Require Import base list gmap numbers option.
From S2P Require Import Prelude Types StateDB Bloom Processor Signing Block Database Lru ChainDb ChainStore Engine BlockChain ChainInv ChainWrite ChainReorg ChainCommit.
Local Open Scope Z_scope.

Section BlockImport.
Context {Tx : Type} `{BlockEnv Tx, !ChainCodec Tx, !ChainExec Tx, !CodecLaws Tx, !ExecLaws Tx}.
Context (num : Hash -> Z) (g : Hash) (chainId : option Z).
Implicit Types (s : BlockChain Tx) (b : Block Tx) (d : Db).

(** ** Validation *)

Lemma validate_body s b : stored_ok num g (chainDb s) -> caches_ok s -> hash_ok (block_ParentHash b) ->
  wp (ValidateBody b) (fun e s' => reads s s' /\ (e = Some ErrKnownBlock <-> is_Some (known (chainDb s) (block_Hash b))) /\
    (e = None -> is_Some (known (chainDb s) (block_ParentHash b))) /\ (forall x, e <> Some (EngineErr x))) s.
Proof using CodecLaws0 ExecLaws0.
  intros Hd Hc Hp. unfold ValidateBody, HasBlock. wp_steps. eapply wp_mono; [apply (has_block_and_state num g); try done; apply hash_length|].
  intros r s1 [-> R1]. pose proof (qu_db _ _ (proj1 R1)) as E1. case_bool_decide as Hk; wp_steps; [by split_and!|].
  eapply wp_mono; [apply (has_block_and_state num g); rewrite ?E1; try done; by apply R1|]. intros r s2 [-> R2]. rewrite E1.
  assert (reads s s2) as R by by etrans. case_bool_decide as Hk2; cbn [negb]; wp_steps.
  - destruct (DeriveSha_ok (txMsgp <$> B_body b)) as [h Hh]. eapply wp_run; [exact Hh|]. wp_steps. split_and!; [done|..]; case_bool_decide; done.
  - split_and!; [done|..]; destruct (_ || _); done.
Qed.

Lemma validate_state s b st rs : wp (ValidateState b st rs) (fun e s' => s' = s /\ (e = None -> StateRootHash (B_header b) = IntermediateRoot st)) s.
Proof using CodecLaws0 ExecLaws0.
  unfold ValidateState. wp_steps. destruct (CreateBloom_ok Keccak keccak_32 (rs ≫= fun r => log_topics (r_Logs r))) as (bl & Hb & _).
  eapply wp_run; [exact Hb|]. destruct (negb _); wp_steps; [done|]. destruct (DeriveSha_ok (receiptMsgp ∘ receipt_protocol <$> rs)) as [h Hh].
  eapply wp_run; [exact Hh|]. destruct (negb _); wp_steps; [done|]. split; [done|]. by case_bool_decide.
Qed.

(** ** One block *)

(** Quiet, and the queue stays: also when a bad block is noted. *)
Lemma report_reads s b : wp (reportBlock b) (fun _ s' => reads s s') s.
Proof using Type. unfold reportBlock, addBadBlock. wp_steps. split; [|done]. split; try done. by intros []. Qed.

(** The execution of a block returns, with a result or an error. *)
Definition returns b : Prop := forall d st, exists r, ProcessBlock d b st = Ok r \/ ProcessBlock d b st = Err tt.

Definition imported s head b (r : chainErr + (WriteStatus * list Log)) s' : Prop :=
  (exists e, r = inl e /\ reads s s') \/ (exists w logs, r = inr (w, logs) /\ wrote num g s head b (w, None) s').

Lemma import_ok s head b parent : inv num g head s -> known (chainDb s) (block_Hash b) = None -> block_Hash b <> zeroHash ->
  attached num g (chainDb s) b -> 0 < num (block_Hash b) -> returns b ->
  wp (import b parent) (fun r s' => imported s head b r s') s.
Proof using CodecLaws0 ExecLaws0.
  intros Hi Hnew Hz Ha Hpos Hret. unfold import. wp_steps. destruct (NewState (chainDb s) _) as [st|] eqn:Hn; wp_steps; [|left; by eexists].
  destruct (Hret (chainDb s) st) as [[[[cache rs] logs] st'] [Hp|Hp]].
  - unfold wp at 1. rewrite Hp. cbn [run]. wp_steps. eapply wp_mono; [apply validate_state|]. intros e s1 [-> He]. destruct e as [e|]; wp_steps.
    + eapply wp_mono; [apply report_reads|]. intros u s1 R. wp_steps. left. by eexists.
    + eapply wp_mono; [apply (write_ok num g s head b Hi Hnew Hz Ha Hpos cache rs st'); do 3 eexists; by split_and!; [..|apply He]|].
      intros [w e] s1 [(_ & [= -> ->] & ->)|Hw]; wp_steps; [left; by eexists|]. pose proof Hw as ([= -> ->] & _). right. by do 2 eexists.
  - unfold wp at 1. rewrite Hp. cbn [run]. wp_steps. eapply wp_mono; [apply report_reads|]. intros u s1 R. wp_steps. left. by eexists.
Qed.

(** ** The loop *)

(** No stored block is above the head. *)
Definition best head s : Prop := forall h k, hash_ok h -> known (chainDb s) h = Some k -> num h <= num head.

Record advance head s head' s' : Prop := {
  av_inv : inv num g head' s';
  av_head : num head <= num head';
  av_known h k : hash_ok h -> known (chainDb s) h = Some k -> known (chainDb s') h = Some k;
  av_best : best head s -> best head' s';
}.

Lemma advance_trans h1 s1 h2 s2 h3 s3 : advance h1 s1 h2 s2 -> advance h2 s2 h3 s3 -> advance h1 s1 h3 s3.
Proof using Type. intros [A1 A2 A3 A4] [B1 B2 B3 B4]. split; auto. lia. Qed.

Lemma advance_quiet head s s' : inv num g head s -> quiet s s' -> advance head s head s'.
Proof using Type. intros Hi Hq. split; [by eapply quiet_inv|done|by rewrite (qu_db _ _ Hq)|]. unfold best. by rewrite (qu_db _ _ Hq). Qed.

Lemma advance_wrote head s b r s' : inv num g head s -> known (chainDb s) (block_Hash b) = None -> wrote num g s head b r s' ->
  advance head s (if num head <? num (block_Hash b) then block_Hash b else head) s' /\ is_Some (known (chainDb s') (block_Hash b)).
Proof using CodecLaws0 ExecLaws0.
  intros Hi Hnew (_ & Hi' & Hg & _). split; [|destruct Hg as [-> _]; by eexists]. split; [done| | |].
  - destruct (Z.ltb_spec (num head) (num (block_Hash b))); lia.
  - intros h k Hh Hk. by eapply grows_known.
  - intros Hb h k Hh Hk. destruct (decide (h = block_Hash b)) as [->|Hne]; [destruct (Z.ltb_spec (num head) (num (block_Hash b))); lia|].
    destruct Hg as [_ Ho]. rewrite Ho in Hk by done. specialize (Hb h k Hh Hk). destruct (Z.ltb_spec (num head) (num (block_Hash b))); lia.
Qed.

(** What is asked of a block that is offered: its hash is not the zero hash, and [num]
    is its number, a machine number that does not stand for a missing one. *)
Record good b : Prop := {
  go_zero : block_Hash b <> zeroHash;
  go_number : Number (B_header b) = num (block_Hash b);
  go_range : num (block_Hash b) < missingNumber;
  go_parent : hash_ok (block_ParentHash b);
  go_returns : returns b;
}.

(** What a verdict says. *)
Definition sound d b (v : option engineErr) : Prop :=
  v = None -> is_Some (known d (block_Hash b)) \/ num (block_Hash b) = num (block_ParentHash b) + 1.

Lemma sound_advance head s head' s' b v : advance head s head' s' -> sound (chainDb s) b v -> sound (chainDb s') b v.
Proof using CodecLaws0. intros Ha Hs Hv. destruct (Hs Hv) as [[k Hk]|]; [left|by right]. exists k. by apply (av_known _ _ _ _ Ha); [apply hash_length|]. Qed.

Lemma attached_child s head b p : inv num g head s -> good b -> known (chainDb s) (block_ParentHash b) = Some p ->
  num (block_Hash b) = num (block_ParentHash b) + 1 -> attached num g (chainDb s) b /\ 0 < num (block_Hash b).
Proof using Type.
  intros Hi [G1 G2 G3 G4 _] Hk Hn. pose proof (bs_range _ _ _ _ _ (st_known _ _ _ (inv_stored _ _ _ _ Hi) _ p G4 Hk)) as Hr.
  split; [|lia]. split; [done|lia|lia|]. intros _. split_and!; [done|lia|by eexists].
Qed.

Definition no_queue s : Prop := lru_items (futureBlocks s) = [].

Lemma refused_ok now s b e : wp (refused now b e) (fun r s' => quiet s s' /\
  (no_queue s -> e <> EngineErr ErrFutureBlock -> no_queue s' /\ (r = None -> e = ErrKnownBlock))) s.
Proof using Type.
  assert (forall r : option chainErr, r <> None -> wp (_ ← reportBlock b; mret r) (fun r s' => quiet s s' /\
    (no_queue s -> e <> EngineErr ErrFutureBlock -> no_queue s' /\ (r = None -> e = ErrKnownBlock))) s) as Hrep.
  { intros r Hr. wp_steps. eapply wp_mono; [apply report_reads|]. intros u s1 [Q F]. wp_steps. split; [done|]. unfold no_queue. by rewrite F. }
  assert (forall s, quiet s (set_bcaches s (bodyCache s) (bodyMsgpCache s) (blockCache s) (Add (futureBlocks s) (block_Hash b) b))) as Hq by (intros s1; split; try done; by intros []).
  unfold refused, add_future. destruct e as [| | | | | | |[]| | | | | | | | | | | | | ]; try (by apply Hrep); wp_steps; [done| |].
  - destruct (Contains _ _) eqn:Hc; [|by apply Hrep]. wp_steps. split; [by apply Hq|]. intros Hn. unfold Contains, Peek in Hc. by rewrite Hn in Hc.
  - destruct (_ <? _); wp_steps; [done|]. split; [by apply Hq|done].
Qed.

(** Every block before the one that failed is stored. *)
Definition all_stored (i : nat) (chain : list (Block Tx)) (n : nat) (e : option chainErr) s' : Prop :=
  forall j b, chain !! j = Some b -> match e with Some _ => (i + j < n)%nat | None => True end -> is_Some (known (chainDb s') (block_Hash b)).

Definition calm s (verdicts : list (option engineErr)) (interrupts : list bool) : Prop :=
  no_queue s /\ Some ErrFutureBlock ∉ verdicts /\ true ∉ interrupts.

Definition looped head s i chain verdicts interrupts (r : nat * progress (Tx := Tx) * option chainErr) s' : Prop :=
  exists head', advance head s head' s' /\ (calm s verdicts interrupts -> all_stored i chain r.1.1 r.2 s').

(** The rest of the loop, after [b] was dealt with. *)
Lemma loop_next head s head1 s1 i b chain v verdicts interrupts r s' : advance head s head1 s1 ->
  (calm s (v :: verdicts) interrupts -> no_queue s1 /\ is_Some (known (chainDb s1) (block_Hash b))) ->
  (forall e, r.2 = Some e -> (i < r.1.1)%nat) ->
  looped head1 s1 (S i) chain verdicts (tail interrupts) r s' -> looped head s i (b :: chain) (v :: verdicts) interrupts r s'.
Proof using CodecLaws0 ExecLaws0.
  intros A1 Hc Hi (head' & A2 & Hall). exists head'. split; [by eapply advance_trans|]. intros Hcalm. destruct (Hc Hcalm) as [Hq [k Hk]].
  assert (calm s1 verdicts (tail interrupts)) as Hcalm1.
  { destruct Hcalm as (_ & Hv & Hn). split_and!; [done|set_solver|]. destruct interrupts; simpl; set_solver. }
  intros [|j] x Hx Hr; simpl in Hx.
  - injection Hx as <-. exists k. apply (av_known _ _ _ _ A2); [apply hash_length|done].
  - apply (Hall Hcalm1 j x Hx). destruct r.2; [lia|done].
Qed.

(** The index that is returned with an error is that of a block of the list. *)
Lemma loop_index now chain : forall i prev verdicts interrupts p s r s',
  insert_loop now i prev chain verdicts interrupts p s = Ok (r, s') -> forall e, r.2 = Some e -> (i <= r.1.1)%nat.
Proof using Type.
  assert (forall A B (m : Ch Tx A) (f : A -> Ch Tx B) s r, (mbind f m) s = Ok r -> exists a s1, m s = Ok (a, s1) /\ f a s1 = Ok r) as Hb.
  { intros A B m f s r. unfold mbind, Ch_bind. destruct (m s) as [[a s1]| | |]; [|done..]. eauto. }
  induction chain as [|b chain IH]; intros i prev verdicts interrupts p s r s' Hl e He; simpl in Hl.
  { injection Hl as <- <-. done. }
  destruct (default false (head interrupts)); [injection Hl as <- <-; done|]. apply Hb in Hl as (v & s1 & _ & Hl). destruct v as [v|].
  - apply Hb in Hl as (x & s2 & _ & Hl). destruct x as [x|]; [injection Hl as <- <-; simpl; lia|]. specialize (IH _ _ _ _ _ _ _ _ Hl e He). lia.
  - apply Hb in Hl as (pa & s2 & _ & Hl). apply Hb in Hl as (x & s3 & _ & Hl). destruct x as [x|[[] logs]]; [injection Hl as <- <-; simpl; lia|..];
      specialize (IH _ _ _ _ _ _ _ _ Hl e He); lia.
Qed.

(** The error for a block: the engine's, or that of its body. *)
Lemma block_error s head b v : inv num g head s -> good b -> sound (chainDb s) b v ->
  wp (match v with Some e => mret (Some (EngineErr e)) | None => ValidateBody b end) (fun e s1 => reads s s1 /\
    (e = Some (EngineErr ErrFutureBlock) -> v = Some ErrFutureBlock) /\
    (e = Some ErrKnownBlock -> is_Some (known (chainDb s) (block_Hash b))) /\
    (e = None -> known (chainDb s) (block_Hash b) = None /\ attached num g (chainDb s) b /\ 0 < num (block_Hash b))) s.
Proof using CodecLaws0 ExecLaws0.
  intros Hi Hg Hs. destruct v as [v|]; wp_steps; [split_and!; [done| |done..]; by intros [= ->]|].
  eapply wp_mono; [apply validate_body; [apply (inv_stored _ _ _ _ Hi)|apply (inv_caches _ _ _ _ Hi)|apply Hg]|].
  intros e s1 (R & Hk & Hp & He). split_and!; [done|by intros ?%He|by apply Hk|]. intros ->.
  assert (known (chainDb s) (block_Hash b) = None) as Hnew by (apply eq_None_not_Some; by intros ?%Hk).
  split; [done|]. destruct (Hp eq_refl) as [q Hq]. destruct (Hs eq_refl) as [[? ?]|Hn]; [congruence|]. by eapply attached_child.
Qed.

Lemma loop_ok now chain : forall s head i prev verdicts interrupts p, inv num g head s -> Forall good chain -> length verdicts = length chain ->
  (forall j b v, chain !! j = Some b -> verdicts !! j = Some v -> sound (chainDb s) b v) ->
  wp (insert_loop now i prev chain verdicts interrupts p) (looped head s i chain verdicts interrupts) s.
Proof using CodecLaws0 ExecLaws0.
  induction chain as [|b chain IH]; intros s head i prev verdicts interrupts p Hi Hgs Hlen Hs; simpl insert_loop.
  { wp_steps. exists head. split; [by apply advance_quiet|]. intros _ j b Hj. done. }
  destruct verdicts as [|v verdicts]; [done|]. apply Forall_cons_1 in Hgs as [Hg Hgs]. injection Hlen as Hlen.
  destruct (default false (list.head interrupts)) eqn:Hint.
  { wp_steps. exists head. split; [by apply advance_quiet|]. intros (_ & _ & Hn). exfalso. destruct interrupts as [|[] ?]; simpl in Hint; [done| |done]. apply Hn. by left. }
  assert (forall s1 head1 p1, advance head s head1 s1 -> (calm s (v :: verdicts) interrupts -> no_queue s1 /\ is_Some (known (chainDb s1) (block_Hash b))) ->
    wp (insert_loop now (S i) (Some b) chain verdicts (tail interrupts) p1) (looped head s i (b :: chain) (v :: verdicts) interrupts) s1) as Hnext.
  { intros s1 head1 p1 A1 Hc. eapply wp_mono_eq; [apply (IH s1 head1)|].
    - apply A1.
    - done.
    - done.
    - intros j x w Hx Hw. eapply sound_advance; [exact A1|]. by apply (Hs (S j)).
    - intros r s2 Hr Hl. eapply loop_next; [exact A1|exact Hc| |exact Hl]. intros e He. pose proof (loop_index _ _ _ _ _ _ _ _ _ _ Hr e He). lia. }
  assert (forall s1 n e, n = i -> quiet s s1 -> looped head s i (b :: chain) (v :: verdicts) interrupts (n, p, Some e) s1) as Hstop.
  { intros s1 n e -> Hq. exists head. split; [by apply advance_quiet|]. intros _ j x _ Hj. simpl in Hj. lia. }
  cbn [list.head tail default]. wp_steps. eapply wp_mono; [apply (block_error s head b v Hi Hg (Hs 0%nat b v eq_refl eq_refl))|].
  intros e s1 ([Q1 F1] & Hfut & Hkn & Hnone). pose proof (qu_db _ _ Q1) as E1. destruct e as [e|]; wp_steps.
  - eapply wp_mono; [apply refused_ok|]. intros r s2 [Q2 Hq2]. assert (quiet s s2) as Q by by etrans. destruct r as [r|]; [by apply Hstop|].
    apply (Hnext s2 head); [by apply advance_quiet|]. intros (Hnq & Hv & _). rewrite (qu_db _ _ Q).
    destruct Hq2 as [Hq3 He]; [unfold no_queue; by rewrite F1|intros ->; apply Hv; rewrite (Hfut eq_refl); by left|]. split; [done|]. apply Hkn. by rewrite (He eq_refl).
  - destruct (Hnone eq_refl) as (Hnew & Ha & Hpos). assert (inv num g head s1) as Hi1 by by eapply quiet_inv.
    assert (wp (match prev with None => p ← bc_GetBlock (block_ParentHash b) (u64 (NumberU64 b - 1)); non_nil p | Some q => mret q end) (fun _ s2 => reads s1 s2) s1) as Hpar.
    { destruct prev as [q|]; wp_steps; [done|]. eapply wp_mono; [apply (parent_step num g); rewrite ?E1; [apply (inv_stored _ _ _ _ Hi)|apply (inv_caches _ _ _ _ Hi1)|done..]|].
      intros r s2 (q & -> & _ & _ & _ & _ & R). by wp_steps. }
    eapply wp_mono; [exact Hpar|]. intros q s2 [Q2 F2]. wp_steps. assert (quiet s s2) as Q by by etrans. pose proof (qu_db _ _ Q) as E2.
    assert (inv num g head s2) as Hi2 by by eapply quiet_inv. eapply wp_mono; [apply (import_ok s2 head b q Hi2); rewrite ?E2; try done; apply Hg|].
    intros r s3 [(e & -> & [Q3 _])|(w & logs & -> & Hw)]; wp_steps; [apply Hstop; [done|by etrans]|].
    destruct (advance_wrote head s2 b (w, None) s3 Hi2) as [A3 K3]; [by rewrite E2|exact Hw|].
    assert (advance head s (if num head <? num (block_Hash b) then block_Hash b else head) s3) as A by (eapply advance_trans; [by apply advance_quiet|exact A3]).
    assert (calm s (v :: verdicts) interrupts -> no_queue s3 /\ is_Some (known (chainDb s3) (block_Hash b))) as Hc.
    { intros (Hnq & _). split; [|done]. destruct Hw as (_ & _ & _ & Hf). unfold no_queue. rewrite Hf, F2, F1. unfold Remove, no_queue in *. simpl. by rewrite Hnq. }
    destruct w; by eapply Hnext.
Qed.

(** ** The verdicts of the engine *)

Lemma mapM_worker (f : nat -> outcome unit (option engineErr)) l : (forall i, i ∈ l -> exists v, f i = Ok v /\ v <> Some ErrFutureBlock) ->
  exists vs, mapM f l = Ok vs /\ length vs = length l /\ Some ErrFutureBlock ∉ vs /\ forall j i v, l !! j = Some i -> vs !! j = Some v -> f i = Ok v.
Proof using Type.
  induction l as [|x l IH]; intros Hf; [exists []; split_and!; [done..|apply not_elem_of_nil|done]|].
  destruct (Hf x ltac:(by left)) as (v & Hv & Hne). destruct IH as (vs & Hm & Hl & Hn & Hs); [intros i Hi; apply Hf; by right|].
  exists (v :: vs). cbn [mapM]. rewrite Hv. cbn [mbind outcome_bind]. rewrite Hm. split_and!; [done|simpl; lia|by apply not_elem_of_cons|].
  intros [|j] i w; simpl; [by intros [= <-] [= <-]|apply Hs].
Qed.

Lemma worker_sound s head (chain : list (Block Tx)) seals j b v : inv num g head s -> Forall good chain -> chain !! j = Some b ->
  verifyHeaderWorker (chain_reader chainId s) (B_header <$> chain) seals j = Ok v -> sound (chainDb s) b v.
Proof using CodecLaws0 ExecLaws0.
  intros Hi Hg Hb Hv ->. pose proof (inv_stored _ _ _ _ Hi) as Hd. pose proof (inv_caches _ _ _ _ Hi) as Hc.
  assert ((B_header <$> chain) !! j = Some (B_header b)) as Hh by (by rewrite list_lookup_fmap, Hb).
  pose proof (proj1 (Forall_lookup _ _) Hg j b Hb) as [G1 G2 G3 G4 _].
  destruct (worker_nil _ _ _ _ _ Hh Hv) as (q & Hq & [[x Hx]|[Hn _]]).
  - left. destruct (reader_header num g _ _ _ _ _ Hd Hc (hash_length _) (number_ok _) Hx) as (k & Hk & _). by exists k.
  - right. rewrite <- G2, Hn. f_equal. unfold worker_parent in Hq. rewrite Hh in Hq. cbn [mbind outcome_bind of_index] in Hq. destruct j as [|j].
    + injection Hq as Hq. eapply (reader_header num g) in Hq as (k & Hk & <-); [|done..|apply (wrap_range 64); lia].
      apply (bs_number _ _ _ _ _ (st_known _ _ _ Hd _ k G4 Hk)).
    + destruct ((B_header <$> chain) !! j) as [x|] eqn:Hx; [|done]. cbn [mbind outcome_bind of_index] in Hq. case_bool_decide as He; [|done]. injection Hq as <-.
      rewrite list_lookup_fmap in Hx. destruct (chain !! j) as [c|] eqn:Hcj; [|done]. injection Hx as <-.
      rewrite (go_number _ (proj1 (Forall_lookup _ _) Hg j c Hcj)). f_equal. exact He.
Qed.

Lemma verify_all_ok s head (chain : list (Block Tx)) : inv num g head s -> Forall good chain ->
  wp (verify_all chainId ((fun b => CopyHeader (B_header b)) <$> chain) (replicate (length chain) true)) (fun vs s' => s' = s /\ length vs = length chain /\ Some ErrFutureBlock ∉ vs /\
    forall j b v, chain !! j = Some b -> vs !! j = Some v -> sound (chainDb s) b v) s.
Proof using CodecLaws0 ExecLaws0.
  intros Hi Hg. assert ((fun b => CopyHeader (B_header b)) <$> chain = B_header <$> chain) as -> by (apply list_fmap_ext; intros; apply CopyHeader_id).
  unfold wp, verify_all. set (hs := B_header <$> chain). assert (length hs = length chain) as Hl by apply length_fmap.
  destruct (mapM_worker (fun i => verifyHeaderWorker (chain_reader chainId s) hs (replicate (length chain) true) i) (seq 0 (length hs))) as (vs & -> & Hvl & Hvf & Hvs).
  { intros i Hi'%elem_of_seq. apply worker_ok; [lia|rewrite length_replicate; lia]. }
  rewrite length_seq in Hvl. split_and!; [done|lia|done|]. intros j b v Hb Hv. eapply worker_sound; [done..|].
  apply (Hvs j); [|done]. apply lookup_seq. split; [done|]. rewrite Hl. by eapply lookup_lt_Some.
Qed.

(** ** [InsertChain] *)

Lemma post_ok s ev logs : wp (PostChainEvents ev logs) (fun _ s' => quiet s s') s.
Proof using Type.
  assert (forall s e, quiet s (set_feeds s e)) as Hq by (intros s1 e; split; try done; by intros []).
  unfold PostChainEvents. wp_steps. destruct (_ =? _)%nat; wp_steps; (eapply wp_mono; [apply (send_all (fun e => e))|]); intros u s1 [e ->]; wp_steps; [apply Hq|].
  etrans; [apply (Hq s (feeds s ++ [LogsEvent logs]))|apply Hq].
Qed.

Lemma insertChain_ok now s head chain interrupts : inv num g head s -> Forall good chain ->
  wp (insertChain chainId now chain interrupts) (fun r s' => exists head', advance head s head' s' /\
    (no_queue s -> true ∉ interrupts -> all_stored 0 chain r.1.1.1 r.2 s')) s.
Proof using CodecLaws0 ExecLaws0.
  intros Hi Hg. unfold insertChain. destruct chain as [|b l]; wp_steps; [exists head; split; [by apply advance_quiet|by intros ? ? j x Hx]|].
  destruct (negb _); wp_steps; [exists head; split; [by apply advance_quiet|intros ? ? j x Hx Hj; simpl in Hj; lia]|].
  eapply wp_mono; [by apply (verify_all_ok s head (b :: l))|]. intros vs s1 (-> & Hl & Hf & Hs). wp_steps.
  eapply wp_mono; [by apply loop_ok|]. intros [[n p] e] s1 (head' & A & Hall). simpl in Hall.
  assert (no_queue s -> true ∉ interrupts -> all_stored 0 (b :: l) n e s1) as Hall' by (intros; by apply Hall).
  destruct e as [e|]; wp_steps; [by exists head'|]. destruct (hd_block _ _ (inv_heads _ _ _ _ (av_inv _ _ _ _ A))) as (cb & Hcb & _).
  assert (all_stored 0 (b :: l) n None s1 = all_stored 0 (b :: l) 0 None s1) as Hn0 by done. rewrite Hn0 in Hall'.
  destruct (pr_last p); wp_steps; [rewrite Hcb; wp_steps|]; by exists head'.
Qed.

Lemma InsertChain_ok now s head chain interrupts : inv num g head s -> Forall good chain ->
  wp (InsertChain chainId now chain interrupts) (fun r s' => exists head', advance head s head' s' /\
    (no_queue s -> true ∉ interrupts -> all_stored 0 chain r.1 r.2 s')) s.
Proof using CodecLaws0 ExecLaws0.
  intros Hi Hg. unfold InsertChain. wp_steps. eapply wp_mono; [by apply insertChain_ok|]. intros [[[n ev] logs] e] s1 (head' & A & Hall). wp_steps.
  eapply wp_mono; [apply post_ok|]. intros u s2 Q. wp_steps. exists head'. split; [eapply advance_trans; [exact A|]; apply advance_quiet; [apply A|done]|].
  intros H1 H2 j b Hb Hj. rewrite (qu_db _ _ Q). by apply (Hall H1 H2 j).
Qed.

End BlockImport.
