(* ===== verification/ChainOpen.v ===== *)
(** * New databases and restarts (core/genesis/genesis.go, and the opening of a chain)

    The genesis block in an empty database, and [NewBlockChain] on a database that a chain
    left: both give a chain that satisfies the invariant, at the head that is stored. *)

From stdpp Require Import base list gmap numbers option.
From S2P Require Import Prelude Types StateDB Processor Signing Block Database Lru ChainDb ChainStore Engine BlockChain ChainInv ChainWrite ChainReorg ChainCommit.
Local Open Scope Z_scope.

(** ** The chain configuration and the genesis block *)

Section Genesis.
Context {Tx : Type} `{BlockEnv Tx, !ChainCodec Tx}.
(** configurations and their JSON form *)
Context {Cfg : Type} (encCfg : Cfg -> option (list byte)) (decCfg : list byte -> option Cfg) (DefaultChainConfig : Cfg).

Inductive genesisErr : Type :=
| GenesisNumber | GenesisState | ConfigEncoding | ErrChainConfigNotFound | ConfigDecoding | errGenesisNoConfig | GenesisMismatch (stored new : Hash).

Definition WriteChainConfig (hash : Hash) (cfg : option Cfg) : genesisErr + list (list byte * list byte) :=
  match cfg with
  | None => inr []
  | Some cfg => match encCfg cfg with None => inl ConfigEncoding | Some json => inr [(configKey hash, json)] end
  end.

Definition GetChainConfig (d : Db) (hash : Hash) : genesisErr + Cfg :=
  match filled (db_Get d (configKey hash)) with
  | None => inl ErrChainConfigNotFound
  | Some json => match decCfg json with None => inl ConfigDecoding | Some cfg => inr cfg end
  end.

(** A specification, with the block and the values of the state that [ToBlock] and
    [CommitTo] make of it; [None] when the state cannot be written. *)
Record genesisIn : Type := mkGenesisIn { gi_Config : option Cfg; gi_block : Block Tx; gi_nodes : option (list (list byte * list byte)) }.

(** [Commit]: the block, which is nil with most errors, the error and the database. *)
Definition genesis_Commit (d : Db) (x : genesisIn) : option (Block Tx) * option genesisErr * Db :=
  let b := gi_block x in
  if negb (Z.sgn (Number (B_header b)) =? 0) then (None, Some GenesisNumber, d)
  else match gi_nodes x with
       | None => (None, Some GenesisState, d)
       | Some nodes =>
           let d := put_all d nodes in
           let d := put_all d (WriteBlock b) in
           let d := put_all d (WriteBlockReceipts (block_Hash b) (NumberU64 b) []) in
           let d := put_all d (WriteCanonicalHash (block_Hash b) (NumberU64 b)) in
           let d := put_all d (WriteHeadBlockHash (block_Hash b)) in
           let d := put_all d (WriteHeadHeaderHash (block_Hash b)) in
           match WriteChainConfig (block_Hash b) (Some (default DefaultChainConfig (gi_Config x))) with
           | inl e => (Some b, Some e, d)
           | inr w => (Some b, None, put_all d w)
           end
       end.

(** [SetupGenesisBlock]: configuration, hash and error.  The hash of the block is taken
    also when there is none. *)
Definition SetupGenesisBlock (dflt : genesisIn) (d : Db) (gen : option genesisIn) : outcome unit (option Cfg * Hash * option genesisErr * Db) :=
  match gen with
  | Some (mkGenesisIn None _ _) => Ok (Some DefaultChainConfig, zeroHash, Some errGenesisNoConfig, d)
  | _ =>
      let stored := GetCanonicalHash d 0 in
      if bool_decide (stored = zeroHash) then
        let x := default dflt gen in
        match genesis_Commit d x with
        | (None, _, _) => Panic
        | (Some b, e, d) => Ok (gi_Config x, block_Hash b, e, d)
        end
      else match gen with
           | Some x =>
               let hash := block_Hash (gi_block x) in
               Ok (gi_Config x, hash, if bool_decide (hash = stored) then None else Some (GenesisMismatch stored hash), d)
           | None =>
               match GetChainConfig d stored with
               | inl ErrChainConfigNotFound =>
                   match WriteChainConfig stored (Some DefaultChainConfig) with
                   | inl e => Ok (Some DefaultChainConfig, stored, Some e, d)
                   | inr w => Ok (Some DefaultChainConfig, stored, None, put_all d w)
                   end
               | inl e => Ok (Some DefaultChainConfig, stored, Some e, d)
               | inr cfg => Ok (Some cfg, stored, None, d)
               end
           end
  end.

End Genesis.
Arguments genesisIn : clear implicits.

(** ** A database that a chain can be opened on *)

Section Open.
Context {Tx : Type} `{BlockEnv Tx, !ChainCodec Tx, !ChainExec Tx, !CodecLaws Tx, !ExecLaws Tx}.
Context (num : Hash -> Z) (g : Hash).
Implicit Types (s : BlockChain Tx) (b : Block Tx) (d : Db).

Record db_ok d (head : Hash) : Prop := {
  db_stored : stored_ok num g d;
  db_line : line_ok num g d head;
  db_markers : markers_ok d head;
}.

Lemma inv_db head s : inv num g head s -> db_ok (chainDb s) head.
Proof using Type. intros [I1 I2 I3 I4]. split; [done..|]. by destruct I3. Qed.

Lemma get_header s h b : stored_ok num g (chainDb s) -> caches_ok s -> hash_ok h -> known (chainDb s) h = Some b ->
  wp (hc_GetHeader h (num h)) (fun r s' => r = Some (B_header b) /\ reads s s') s.
Proof using Type.
  intros Hd Hc Hh Hk. unfold wp, hc_GetHeader. pose proof (Get_answer (headerCache s) h) as Ha.
  pose proof (st_known _ _ _ Hd h b Hh Hk) as Hb. destruct (Get (headerCache s) h) as [[x|] c] eqn:He; simpl in Ha.
  - symmetry in Ha. apply Peek_Some in Ha. destruct (ca_header _ Hc h x Ha) as (_ & k & Hk' & <-). assert (k = b) as -> by congruence. split; [done|].
    apply quiet_hcaches; [|auto]. intros h' x' Hin. left. apply (Get_sub _ h). by rewrite He.
  - destruct (known_index _ _ _ Hk) as [_ Hg]. rewrite (bs_index _ _ _ _ _ Hb) in Hg. rewrite (GetBlock_header _ _ _ _ Hg). split; [done|].
    apply quiet_hcaches; [|auto]. intros h' x' [[-> ->]|[_ Hin]]%Add_sub; [|auto]. right. split; [done|]. by exists b.
Qed.

Lemma get_header_by_hash s h b : stored_ok num g (chainDb s) -> caches_ok s -> hash_ok h -> known (chainDb s) h = Some b ->
  wp (hc_GetHeaderByHash h) (fun r s' => r = Some (B_header b) /\ reads s s') s.
Proof using Type.
  intros Hd Hc Hh Hk. unfold hc_GetHeaderByHash. wp_steps. eapply wp_mono; [by apply get_number|]. intros n s1 [-> R1]. pose proof (qu_db _ _ (proj1 R1)) as E1.
  rewrite (bs_index _ _ _ _ _ (st_known _ _ _ Hd h b Hh Hk)). eapply wp_mono; [apply (get_header s1 h b); rewrite ?E1; try done; by apply R1|].
  intros r s2 [-> R2]. split; [done|]. by etrans.
Qed.

Lemma head_known d head : db_ok d head -> hash_ok head /\ exists b, known d head = Some b /\ block_stored num g d head b.
Proof using Type.
  intros [D1 D2 _]. pose proof (ln_range _ _ _ _ D2). destruct (ln_known _ _ _ _ D2 (num head)) as (K1 & _ & b & Hb); [lia|].
  rewrite (ln_head _ _ _ _ D2) in *. split; [done|]. exists b. split; [done|]. by apply (st_known _ _ _ D1).
Qed.

Lemma first_known d head : db_ok d head -> hash_ok g /\ num g = 0 /\ exists b, known d g = Some b /\ block_stored num g d g b.
Proof using Type.
  intros [D1 D2 _]. pose proof (ln_range _ _ _ _ D2). destruct (ln_known _ _ _ _ D2 0) as (K1 & K2 & b & Hb); [lia|].
  rewrite (ln_first _ _ _ _ D2) in *. split_and!; [done..|]. exists b. split; [done|]. by apply (st_known _ _ _ D1).
Qed.

(** While a chain is opened: the database is [d], and the caches agree with it. *)
Definition opening d s : Prop := chainDb s = d /\ caches_ok s.

Lemma opening_reads d s s' : reads s s' -> opening d s -> opening d s'.
Proof using Type. intros [Q _] [<- Hc]. split; [apply Q|by apply Q]. Qed.

Lemma open_headers d head s : db_ok d head -> opening d s -> wp NewHeaderChain (fun e s' => e = None /\ opening d s') s.
Proof using CodecLaws0 ExecLaws0.
  intros Hd [E0 C0]. destruct (first_known d head Hd) as (Hg & Hg0 & fb & Hfk & Hfs). destruct (head_known d head Hd) as (Hh & hb & Hhk & Hhs).
  unfold NewHeaderChain, hc_GetHeaderByNumber, SetGenesis. wp_steps. rewrite E0, (ln_first _ _ _ _ (db_line _ _ Hd)).
  rewrite bool_decide_false by apply (bs_zero _ _ _ _ _ Hfs). rewrite <- Hg0.
  eapply wp_mono; [apply (get_header s g fb); rewrite ?E0; try done; apply Hd|]. intros r s1 [-> R1]. pose proof (opening_reads d s s1 R1 (conj E0 C0)) as [E1 C1].
  wp_steps. chain_simpl. rewrite E1, (proj1 (db_markers _ _ Hd)), bool_decide_false by apply (bs_zero _ _ _ _ _ Hhs).
  set (s2 := set_header _ _ _). assert (opening d s2) as O2 by (split; [done|by destruct C1; split]).
  eapply wp_mono; [apply (get_header_by_hash s2 head hb); rewrite ?(proj1 O2); try done; [apply Hd|apply O2]|].
  intros r s3 [-> R3]. pose proof (opening_reads d s2 s3 R3 O2) as [E3 C3]. wp_steps. split; [done|]. split; [done|by destruct C3; split].
Qed.

Definition opened d head s : Prop := inv num g head s /\ same_blocks d (chainDb s) /\
  forall n, 0 <= n < 2 ^ 64 -> GetCanonicalHash (chainDb s) n = GetCanonicalHash d n.

(** The header marker is written again. *)
Lemma mark_header d head b s : db_ok d head -> opening d s -> known d head = Some b ->
  let s' := set_fast (set_header (set_db (set_block s (Some b)) (put_all d (WriteHeadHeaderHash head))) (Some (B_header b)) head) (Some b) in opened d head s'.
Proof using CodecLaws0 ExecLaws0.
  intros Hd [E0 C0] Hb s'. destruct (head_known d head Hd) as (Hh & b' & Hb' & Hbs). assert (b' = b) as -> by congruence.
  assert (same_blocks d (chainDb s')) as Hs by (apply (same_blocks_put head_key); [by apply (one_write KHeadHeader)|apply head_not_block]).
  assert (forall k, key_ok k -> slot (chainDb s') k = if decide (KHeadHeader = k) then head else slot d k) as Hsl by (intros k Hk; by apply (key_slot_put d KHeadHeader)).
  assert (forall n, 0 <= n < 2 ^ 64 -> GetCanonicalHash (chainDb s') n = GetCanonicalHash d n) as Hc by (intros n Hn; by apply (Hsl (KCanonical n))).
  assert (forall h k, hash_ok h -> known d h = Some k -> known (chainDb s') h = Some k) as Hkn.
  { intros h k Hok Hk. by rewrite <- (known_kept num g d _ h (db_stored _ _ Hd) (sb_keys _ _ Hs)). }
  pose proof (bs_hash _ _ _ _ _ Hbs) as Hbh. destruct (db_markers _ _ Hd) as (M1 & M2 & M3).
  assert (stands (chainDb s') (B_header b)) as Hst by (exists b; split; [|done]; change (HeaderHash (B_header b)) with (block_Hash b); rewrite Hbh; by apply Hkn).
  split; [|done]. split.
  - eapply stored_same; [exact Hs|apply Hd].
  - eapply line_same; [exact Hc|exact Hkn|apply Hd].
  - split; [by exists b|by exists b|by exists (B_header b)|done|].
    assert (GetHeadBlockHash (chainDb s') = GetHeadBlockHash d) as B1 by (by apply (Hsl KHeadBlock)).
    assert (GetHeadHeaderHash (chainDb s') = head) as B2 by (by apply (Hsl KHeadHeader)).
    assert (GetHeadFastBlockHash (chainDb s') = GetHeadFastBlockHash d) as B3 by (by apply (Hsl KHeadFast)).
    unfold markers_ok. by rewrite B1, B2, B3.
  - apply (caches_frame num g s); rewrite ?E0; try done. apply Hd.
Qed.

Lemma load_state_ok d head s reset : db_ok d head -> opening d s -> wp (loadLastState_with reset) (fun e s' => e = None /\ opened d head s') s.
Proof using CodecLaws0 ExecLaws0.
  intros Hd O0. destruct (head_known d head Hd) as (Hh & b & Hb & Hbs). pose proof (bs_zero _ _ _ _ _ Hbs) as Hz. destruct (db_markers _ _ Hd) as (M1 & M2 & M3).
  unfold loadLastState_with, HasState, SetCurrentHeader. wp_steps. rewrite (proj1 O0), M1, bool_decide_false by done. wp_steps.
  eapply wp_mono; [apply (get_block_by_hash num g s head); rewrite ?(proj1 O0); try done; [apply Hd|apply O0]|]. intros r s1 [-> R1].
  pose proof (opening_reads d s s1 R1 O0) as O1. rewrite (proj1 O0), Hb. wp_steps. rewrite (proj1 O1), bool_decide_true by apply (bs_state _ _ _ _ _ Hbs). cbn [negb].
  wp_steps. chain_simpl. rewrite (proj1 O1), M2, bool_decide_false by done. set (s2 := set_block s1 (Some b)).
  assert (opening d s2) as O2 by (destruct O1 as [? []]; by split).
  eapply wp_mono; [apply (get_header_by_hash s2 head b); rewrite ?(proj1 O2); try done; [apply Hd|apply O2]|]. intros r s3 [-> R3]. pose proof (opening_reads d s2 s3 R3 O2) as O3.
  wp_steps. cbn [default hash_of from_option id]. rewrite (proj1 O3), (bs_hash _ _ _ _ _ Hbs : HeaderHash (B_header b) = head).
  assert (set_fast (set_header (set_db s3 (put_all d (WriteHeadHeaderHash head))) (Some (B_header b)) head) (Some b) =
    set_fast (set_header (set_db (set_block s3 (Some b)) (put_all d (WriteHeadHeaderHash head))) (Some (B_header b)) head) (Some b)) as ->.
  { unfold set_fast, set_header, set_db, set_block. chain_simpl. by rewrite (qu_block _ _ (proj1 R3)). }
  pose proof (mark_header d head b s3 Hd O3 Hb) as Ho. cbv zeta in Ho. set (s4 := set_fast _ _) in *. destruct Ho as (Hi4 & Hs4 & Hc4).
  destruct (hd_markers _ _ (inv_heads _ _ _ _ Hi4)) as (_ & _ & Hfast). destruct Hfast as [-> | ->]; [rewrite bool_decide_false by done|rewrite bool_decide_true by done; wp_steps; by split_and!].
  eapply wp_mono; [apply (get_block_by_hash num g s4 head); [apply (inv_stored _ _ _ _ Hi4)|apply (inv_caches _ _ _ _ Hi4)|done]|]. intros r s5 [-> [Q5 _]].
  assert (known (chainDb s4) head = Some b) as Hk4 by (rewrite <- (known_kept num g d _ head (db_stored _ _ Hd) (sb_keys _ _ Hs4)); done).
  rewrite Hk4. wp_steps. pose proof (quiet_inv _ _ _ _ _ Q5 Hi4) as Hi5. split; [done|]. split.
  - destruct Hi5 as [J1 J2 J3 J4]. split; [done..| |by destruct J4; split]. destruct J3 as [K1 (fb & Hf & Hfh & Hfs) K3 K4 K5]. split; try done.
    exists b. split_and!; [done|apply (bs_hash _ _ _ _ _ Hbs)|]. exists b. split; [|done].
    change (HeaderHash (B_header b)) with (block_Hash b). rewrite (bs_hash _ _ _ _ _ Hbs). chain_simpl. by rewrite (qu_db _ _ Q5).
  - chain_simpl. by rewrite (qu_db _ _ Q5).
Qed.

Lemma open_ok d head : db_ok d head -> exists s, NewBlockChain d = Ok (None, s) /\ opened d head s.
Proof using CodecLaws0 ExecLaws0.
  intros Hd. assert (opening d (fresh_chain d)) as O0 by (split; [done|split; simpl; intros ? ? Hin; by apply elem_of_nil in Hin]).
  assert (wp open_chain (fun e s' => e = None /\ opened d head s') (fresh_chain d)) as Hw.
  { unfold open_chain, GetBlockByNumber. wp_steps. eapply wp_mono; [by apply (open_headers d head)|]. intros e s1 [-> O1]. wp_steps.
    destruct (first_known d head Hd) as (Hg & Hg0 & fb & Hfk & Hfs). rewrite (proj1 O1), (ln_first _ _ _ _ (db_line _ _ Hd)).
    rewrite bool_decide_false by apply (bs_zero _ _ _ _ _ Hfs).
    eapply wp_mono; [apply (get_block num g s1 g 0); rewrite ?(proj1 O1); [apply Hd|apply O1|done|unfold u64_ok; lia|by intros _]|].
    intros r s2 [-> R2]. rewrite (proj1 O1), Hfk. wp_steps. apply load_state_ok; [done|]. pose proof (opening_reads d s1 s2 R2 O1) as [? []]. by split. }
  apply wp_Ok in Hw as (e & s & Hs & -> & Ho). by exists s.
Qed.

End Open.

(** ** A new database *)

Section New.
Context {Tx : Type} `{BlockEnv Tx, !ChainCodec Tx, !ChainExec Tx, !CodecLaws Tx, !ExecLaws Tx}.
Context {Cfg : Type} (encCfg : Cfg -> option (list byte)) (dflt : Cfg).
Context (num : Hash -> Z) (d0 : Db) (x : genesisIn Tx Cfg) (nodes : list (list byte * list byte)) (json : list byte).
Implicit Types (s : BlockChain Tx) (d : Db).

Abbreviation b := (gi_block x).
Abbreviation g := (block_Hash b).

Definition empty_db d : Prop := forall k, key_ok k -> ~ is_preimage k -> d !! key_bytes k = None.

Lemma empty_slot d k : empty_db d -> key_ok k -> ~ is_preimage k -> slot d k = zeroHash.
Proof using Type. intros He Hk Hp. unfold slot, stored_hash, db_Get. by rewrite He. Qed.

Lemma empty_number d h : empty_db d -> hash_ok h -> GetBlockNumber d h = missingNumber.
Proof using Type. intros He Hh. unfold GetBlockNumber, db_Get. by rewrite (He (KNumber h) Hh (fun x => x) : d !! numberKey h = None). Qed.

Lemma empty_known d h : empty_db d -> hash_ok h -> known d h = None.
Proof using Type. intros He Hh. unfold known. by rewrite empty_number. Qed.

Lemma empty_stored d : empty_db d -> stored_ok num g d.
Proof using Type.
  intros He. split.
  - intros h Hh. by rewrite empty_number.
  - intros h k Hh. by rewrite empty_known.
  - intros h n Hh Hn [[v Hv]|[v Hv]].
    + by rewrite (He (KHeader h n) (conj Hh Hn) (fun x => x) : d !! headerKey h n = None) in Hv.
    + by rewrite (He (KBody h n) (conj Hh Hn) (fun x => x) : d !! blockBodyKey h n = None) in Hv.
Qed.

Context (Hempty : empty_db d0) (Hnodes : gi_nodes x = Some nodes) (Hoff : off_chain nodes).
Context (Hjson : encCfg (default dflt (gi_Config x)) = Some json).
Context (Hnum : Number (B_header b) = 0) (Hg0 : num g = 0) (Hz : g <> zeroHash).
Context (Hst : is_Some (NewState (put_all d0 nodes) (StateRootHash (B_header b)))).

Let d1 := put_all d0 nodes.
Let d2 := put_all (put_all d1 (WriteBlock b)) (WriteBlockReceipts g (NumberU64 b) []).
Let d3 := put_all (put_all (put_all d2 [(key_bytes (KCanonical 0), g)]) [(key_bytes KHeadBlock, g)]) [(key_bytes KHeadHeader, g)].
Let d4 := put_all d3 [(key_bytes (KConfig g), json)].

Lemma genesis_written : genesis_Commit encCfg dflt d0 x = (Some b, None, d4).
Proof using Hnodes Hjson Hnum.
  unfold genesis_Commit. rewrite Hnum, Hnodes. cbn [Z.sgn Z.eqb negb]. unfold WriteChainConfig. rewrite Hjson.
  unfold d4, d3, d2, d1, NumberU64, header_NumberU64. by rewrite Hnum.
Qed.

Lemma d1_empty : empty_db d1.
Proof using Hempty Hoff. intros k Hk Hp. unfold d1. rewrite off_chain_key by done. auto. Qed.

Lemma config_only : writes_only (fun k => match k with KConfig _ => True | _ => False end) [(key_bytes (KConfig g), json)].
Proof using CodecLaws0. apply Forall_cons_2; [|apply Forall_nil_2]. exists (KConfig g). split_and!; [apply hash_length|done..]. Qed.

Lemma same_d2_d4 : same_blocks d2 d4.
Proof using CodecLaws0.
  unfold d4. etrans; [|apply (same_blocks_put _ _ _ config_only); intros []; simpl; tauto]. unfold d3.
  assert (forall d k v, key_ok k -> head_key k -> same_blocks d (put_all d [(key_bytes k, v)])) as Hp
    by (intros; apply (same_blocks_put head_key); [by apply one_write|apply head_not_block]).
  etrans; [apply (Hp d2 (KCanonical 0)); [split; [lia|reflexivity]|done]|]. etrans; [by apply (Hp _ KHeadBlock)|]. by apply (Hp _ KHeadHeader).
Qed.

Lemma genesis_adds : adds d1 d4 b.
Proof using CodecLaws0 ExecLaws0 Hst.
  assert (same_blocks (put_all d1 (WriteBlock b)) d4) as Hs.
  { etrans; [|apply same_d2_d4]. apply (same_blocks_put aside); [apply receipts_aside|apply aside_block]. }
  assert (forall r, is_Some (NewState d1 r) -> is_Some (NewState d4 r)) as Hstates.
  { intros r. apply state_local. intros y Hy. rewrite <- (sb_off _ _ Hs y Hy). symmetry. by apply (frame_off _ _ _ _ (WriteBlock_only b)). }
  split; [exact (sb_keys _ _ Hs)|done|]. by apply Hstates.
Qed.

Lemma genesis_slot k : key_ok k -> head_key k -> ~ is_lookup k ->
  slot d4 k = if decide (k = KCanonical 0 \/ k = KHeadBlock \/ k = KHeadHeader) then g else zeroHash.
Proof using CodecLaws0 Hempty Hoff.
  intros Hk Hh Hl. unfold d4. rewrite (slot_frame _ _ _ k config_only Hk) by (destruct k; simpl in *; tauto).
  assert (key_ok (KCanonical 0)) as H0 by (split; [lia|reflexivity]). unfold d3. rewrite !key_slot_put by (done || apply hash_length).
  assert (slot d2 k = zeroHash) as ->.
  { unfold d2. rewrite (slot_frame _ _ _ k (receipts_aside b []) Hk) by (by apply aside_head).
    rewrite (slot_frame _ _ _ k (WriteBlock_only b) Hk) by (intros [-> |[-> | ->]]; done). apply empty_slot; [apply d1_empty|done|]. destruct k; simpl in *; tauto. }
  repeat case_decide; naive_solver.
Qed.

Lemma genesis_db : db_ok num g d4 g.
Proof using CodecLaws0 ExecLaws0 Hempty Hoff Hnum Hg0 Hz Hst.
  pose proof (empty_known d1 g d1_empty (hash_length _)) as Hnew.
  assert (Number (B_header b) = num g) as Hn by (by rewrite Hnum, Hg0). assert (0 <= num g < missingNumber) as Hr by (rewrite Hg0; split; [lia|reflexivity]).
  assert (known d4 g = Some (wireBlock b)) as Hk by (by eapply (new_known num d1); [apply genesis_adds|..]).
  assert (forall n, 0 <= n < 2 ^ 64 -> GetCanonicalHash d4 n = if decide (n = 0) then g else zeroHash) as Hc.
  { intros n Hu. etrans; [apply (genesis_slot (KCanonical n) Hu); simpl; tauto|]. repeat case_decide; naive_solver. }
  split.
  - eapply (stored_adds num g d1); try done; [apply empty_stored, d1_empty|apply genesis_adds|lia].
  - split; rewrite ?Hg0.
    + by rewrite Hc by lia.
    + by rewrite Hc by lia.
    + split; [lia|reflexivity].
    + intros n Hb. assert (n = 0) as -> by lia. rewrite Hc by lia. simpl. split_and!; [apply hash_length|done|by rewrite Hk].
    + intros n k Hb. lia.
    + intros n Hb. rewrite Hc by lia. by rewrite decide_False by lia.
  - assert (forall k, k = KHeadBlock \/ k = KHeadHeader \/ k = KHeadFast -> slot d4 k = if decide (k = KCanonical 0 \/ k = KHeadBlock \/ k = KHeadHeader) then g else zeroHash) as Hs.
    { intros k Hk'. apply genesis_slot; destruct Hk' as [-> |[-> | ->]]; simpl; tauto. }
    split_and!; [etrans; [apply (Hs KHeadBlock); auto|]|etrans; [apply (Hs KHeadHeader); auto|]|right; etrans; [apply (Hs KHeadFast); auto|]]; case_decide; naive_solver.
Qed.

End New.
