(* ===== verification/ChainClaims.v ===== *)
(** * The block chain: properties

    Import, restart, the first start and the canonical line, and a chain on which they are
    all evaluated. *)

From stdpp Require Import base list gmap numbers option.
From S2P Require Import Prelude Types TrieHash StateDB Processor Signing Block Database Lru ChainDb ChainStore Engine BlockChain ChainInv ChainWrite ChainReorg ChainCommit ChainImport ChainOpen.
Local Open Scope Z_scope.

Section Claims.
Context {Tx : Type} `{BlockEnv Tx, !ChainCodec Tx, !ChainExec Tx, !CodecLaws Tx, !ExecLaws Tx}.
Implicit Types (s : BlockChain Tx) (b : Block Tx) (d : Db).

(** C2: importing blocks into a consistent chain returns: neither the reorganisation nor
    anything else panics, loops or blocks, if the execution of the blocks returns.  The
    chain stays consistent (stored blocks form a tree under the genesis, each with its
    state; the canonical numbers are one line from the genesis to the head; the head
    markers, the heads in memory and the caches agree); no stored block is lost or
    changed; the head is never lower than before, and stays the highest stored block if
    it was; and without interruption and queue every block before the reported index, or
    every block if there is no error, is stored.  [num] is the number that goes with a
    hash: no two headers with one hash and different numbers are assumed to occur. *)
Theorem chain_imports (num : Hash -> Z) (g head : Hash) (chainId : option Z) (now : nat -> Z) (chain : list (Block Tx)) (interrupts : list bool) s
    (Hi : inv num g head s) (Hg : Forall (good num) chain) :
  exists n e head' s', InsertChain chainId now chain interrupts s = Ok ((n, e), s') /\
    inv num g head' s' /\ num head <= num head' /\
    (forall h k, hash_ok h -> known (chainDb s) h = Some k -> known (chainDb s') h = Some k) /\
    (best num head s -> best num head' s') /\
    (no_queue s -> true ∉ interrupts -> all_stored 0 chain n e s').
Proof.
  destruct (wp_Ok _ _ _ (InsertChain_ok num g chainId now s head chain interrupts Hi Hg)) as ([n e] & s' & Hs & head' & [A1 A2 A3 A4] & Hall).
  exists n, e, head', s'. by split_and!.
Qed.

(** C8: a chain that is opened again on the database of a consistent chain is consistent
    with the same head, the same blocks and the same canonical hashes. *)
Theorem chain_restarts (num : Hash -> Z) (g head : Hash) s (Hi : inv num g head s) :
  exists s', NewBlockChain (chainDb s) = Ok (None, s') /\ inv num g head s' /\
    (forall h, hash_ok h -> known (chainDb s') h = known (chainDb s) h) /\
    (forall n, 0 <= n < 2 ^ 64 -> GetCanonicalHash (chainDb s') n = GetCanonicalHash (chainDb s) n).
Proof.
  destruct (open_ok num g _ _ (inv_db num g head s Hi)) as (s' & Hs & Hi' & Hsame & Hc). exists s'. split_and!; [done..| |done].
  intros h Hh. symmetry. apply (known_kept num g); [apply Hi|exact (sb_keys _ _ Hsame)|done].
Qed.

(** C21: committing a genesis block to a database without chain data and opening it gives a
    consistent chain whose head is the genesis. *)
Theorem genesis_opens {Cfg : Type} (encCfg : Cfg -> option (list byte)) (dflt : Cfg) (num : Hash -> Z) (d0 : Db) (x : genesisIn Tx Cfg) nodes json
    (Hempty : empty_db d0) (Hnodes : gi_nodes x = Some nodes) (Hoff : off_chain nodes)
    (Hjson : encCfg (default dflt (gi_Config x)) = Some json) (Hnum : Number (B_header (gi_block x)) = 0)
    (Hg0 : num (block_Hash (gi_block x)) = 0) (Hz : block_Hash (gi_block x) <> zeroHash)
    (Hst : is_Some (NewState (put_all d0 nodes) (StateRootHash (B_header (gi_block x))))) :
  exists d s, genesis_Commit encCfg dflt d0 x = (Some (gi_block x), None, d) /\ NewBlockChain d = Ok (None, s) /\
    inv num (block_Hash (gi_block x)) (block_Hash (gi_block x)) s.
Proof.
  eexists. destruct (open_ok num _ _ _ (genesis_db num d0 x nodes json Hempty Hoff Hnum Hg0 Hz Hst)) as (s & Hs & Hi & _).
  exists s. split_and!; [by apply genesis_written|exact Hs|exact Hi].
Qed.

(** C16: on a consistent chain [GetBlockByNumber] answers each number up to the head with a
    block of that number, the first with the genesis, the last with the head, each of the
    others with the child of the block before; and numbers above the head with nil. *)
Theorem canonical_line (num : Hash -> Z) (g head : Hash) s (Hi : inv num g head s) : exists f : Z -> Block Tx,
  (forall n, 0 <= n <= num head -> wp (GetBlockByNumber n) (fun r _ => r = Some (f n)) s /\ Number (B_header (f n)) = n) /\
  (forall n, num head < n < 2 ^ 64 -> wp (GetBlockByNumber n) (fun r _ => r = None) s) /\
  block_Hash (f 0) = g /\ block_Hash (f (num head)) = head /\
  (forall n, 0 < n <= num head -> block_ParentHash (f n) = block_Hash (f (n - 1))).
Proof.
  destruct Hi as [I1 I2 I3 I4]. pose proof (ln_range _ _ _ _ I2) as Hr.
  exists (fun n => default (genesisBlock s) (known (chainDb s) (GetCanonicalHash (chainDb s) n))).
  assert (forall n, 0 <= n <= num head -> exists b, known (chainDb s) (GetCanonicalHash (chainDb s) n) = Some b /\
    block_stored num g (chainDb s) (GetCanonicalHash (chainDb s) n) b /\ hash_ok (GetCanonicalHash (chainDb s) n) /\ num (GetCanonicalHash (chainDb s) n) = n) as Hk.
  { intros n Hn. destruct (ln_known _ _ _ _ I2 n Hn) as (K1 & K2 & b & K3). exists b. split_and!; try done. by apply (st_known _ _ _ I1). }
  split_and!.
  - intros n Hn. destruct (Hk n Hn) as (b & Hb & Hbs & Hh & Hnn). rewrite Hb. simpl. split; [|by rewrite (bs_number _ _ _ _ _ Hbs)].
    unfold GetBlockByNumber. wp_steps. rewrite bool_decide_false by apply (bs_zero _ _ _ _ _ Hbs).
    eapply wp_mono; [apply (get_block num g); try done; unfold u64_ok, missingNumber in *; lia|]. intros r s' [-> _]. exact Hb.
  - intros n Hn. unfold GetBlockByNumber. wp_steps. by rewrite (ln_above _ _ _ _ I2 n Hn), bool_decide_true by done.
  - destruct (Hk 0) as (b & Hb & Hbs & _); [lia|]. rewrite Hb. simpl. by rewrite (bs_hash _ _ _ _ _ Hbs), (ln_first _ _ _ _ I2).
  - destruct (Hk (num head)) as (b & Hb & Hbs & _); [lia|]. rewrite Hb. simpl. by rewrite (bs_hash _ _ _ _ _ Hbs), (ln_head _ _ _ _ I2).
  - intros n Hn. destruct (Hk n) as (b & Hb & _); [lia|]. destruct (Hk (n - 1)) as (p & Hp & Hps & _); [lia|]. rewrite Hb, Hp. simpl.
    rewrite (bs_hash _ _ _ _ _ Hps). by apply (ln_link _ _ _ _ I2).
Qed.

(** The body of a block is held to its header by the last transaction only. *)
Lemma body_unbound h l l' (tx : Tx) s :
  ValidateBody (mkBlk h (l ++ [tx])) s = ValidateBody (mkBlk h (l' ++ [tx])) s.
Proof.
  unfold ValidateBody, derive_txs. cbn [B_body]. rewrite !fmap_app. cbn [fmap list_fmap]. by rewrite !DeriveSha_snoc.
Qed.

End Claims.

(** ** A chain for the examples

    Transactions are numbers and the state is their sum, stored under its root. *)

Module Toy.

#[local] Existing Instance toyBlockEnv.

Definition lp (l : list Z) : list Z := Z.of_nat (length l) :: l.
Definition unlp (l : list Z) : option (list Z * list Z) :=
  match l with [] => None | n :: r => Some (take (Z.to_nat n) r, drop (Z.to_nat n) r) end.

Lemma unlp_lp l r : unlp (lp l ++ r) = Some (l, r).
Proof. simpl. by rewrite Nat2Z.id, take_app_length, drop_app_length. Qed.

Definition toyEncHeader (h : Header) : list Z :=
  lp (ParentHash h) ++ lp (StateRootHash h) ++ lp (TxRootHash h) ++ lp (ReceiptRootHash h) ++ lp (h_Bloom h) ++
  lp (cd_Id (h_Consensus h)) ++ lp (cd_Para (h_Consensus h)) ++ [Number h; Time h; h_V h; h_R h; h_S h].

Definition toyDecHeader (l : list Z) : option Header :=
  '(p, l) ← unlp l; '(st, l) ← unlp l; '(tx, l) ← unlp l; '(rc, l) ← unlp l; '(bl, l) ← unlp l; '(i, l) ← unlp l; '(pa, l) ← unlp l;
  match l with
  | [n; t; v; r; s] => Some (mkHeader p st tx rc bl n t zeroAddress (mkConsensusData i pa) v r s)
  | _ => None
  end.

#[local] Instance toyCodec : ChainCodec Z := {|
  encHeader := toyEncHeader;
  decHeader := toyDecHeader;
  encBody l := 0 :: l;
  decBody l := match l with [] => None | _ :: l => Some l end;
  encReceipt _ := [];
  decReceipt _ := None;
  skipMsg l := l;
  encLookup e := lp (le_BlockHash e) ++ [le_BlockIndex e; le_Index e];
  decLookup l := '(h, l) ← unlp l; match l with [i; j] => Some (mkLookup h i j) | _ => None end;
  decTx _ := None;
  wireTx z := z;
|}.

#[local] Instance toyCodecLaws : CodecLaws Z.
Proof.
  split; try done.
  - intros h. cbn [decHeader encHeader toyCodec]. unfold toyDecHeader, toyEncHeader. do 7 (rewrite unlp_lp; cbn [mbind option_bind]). by destruct h as [? ? ? ? ? ? ? ? [] ? ? ?].
  - intros l. cbn [decBody encBody wireTx toyCodec]. f_equal. symmetry. apply list_fmap_id.
Qed.

Definition toyRoot (st : Z) : Hash := replicate 31 7 ++ [st].

Definition toyState (d : Db) (r : Hash) : option Z :=
  if (length r =? 32)%nat then d !! r ≫= list.head else None.

#[local] Instance toyExec : ChainExec Z := {|
  StateT := Z;
  NewState := toyState;
  ProcessBlock _ b st := Ok ([], [], [], foldr Z.add st (B_body b));
  IntermediateRoot := toyRoot;
  CommitTo st := Some [(toyRoot st, [st])];
  Preimages _ := ∅;
|}.

Lemma toy_put d st r : is_Some (toyState d r) \/ r = toyRoot st -> is_Some (toyState (put_all d [(toyRoot st, [st])]) r).
Proof.
  unfold toyState, put_all, db_Put. cbn [foldl fst snd]. destruct (decide (r = toyRoot st)) as [->|Hne].
  - intros _. rewrite lookup_insert_eq. by eexists.
  - intros [Hs| ->]; [|done]. by rewrite lookup_insert_ne.
Qed.

#[local] Instance toyExecLaws : ExecLaws Z.
Proof.
  split; cbn [ProcessBlock CommitTo NewState Preimages IntermediateRoot toyExec].
  - intros d b st cache rs logs st' [= <- _ _ _]. apply Forall_nil_2.
  - intros st nodes [= <-]. apply Forall_cons_2; [by left|apply Forall_nil_2].
  - intros st h v. by rewrite lookup_empty.
  - intros d d' r Hd. unfold toyState. destruct (Nat.eqb_spec (length r) 32); [|done]. by rewrite Hd.
  - intros d st nodes r [= <-] Hr. apply toy_put. by left.
  - intros d' d b st cache rs logs st' r [= <- _ _ _]. done.
  - intros d root b st cache rs logs st' nodes _ _ [= <-]. apply toy_put. by right.
Qed.

Definition of_ok {E A} (dflt : A) (r : outcome E A) : A := match r with Ok a => a | _ => dflt end.

(** A signed block on a parent, [st] being the sum it reaches. *)
Definition toyBlock (parent : Hash) (number time : Z) (txs : list Z) (st : Z) : Block Z :=
  let h := mkHeader parent (toyRoot st) (of_ok [] (derive_txs txs)) emptyRoot (of_ok [] (receipts_Bloom [])) number time zeroAddress (mkConsensusData [] []) 0 0 0 in
  mkBlk (of_ok h (SignHeader h 0 41%nat)) txs.

Definition genesis : Block Z := toyBlock zeroHash 0 1 [] 0.
Definition b1 : Block Z := toyBlock (block_Hash genesis) 1 2 [4; 5] 9.
Definition b2 : Block Z := toyBlock (block_Hash b1) 2 3 [6] 15.
(** Another branch, longer. *)
Definition c1 : Block Z := toyBlock (block_Hash genesis) 1 4 [1] 1.
Definition c2 : Block Z := toyBlock (block_Hash c1) 2 5 [2] 3.
Definition c3 : Block Z := toyBlock (block_Hash c2) 3 6 [3] 6.

Definition toyNum (h : Hash) : Z := default 0 (h !! 28%nat).
Definition toyGenesis : genesisIn Z Z := mkGenesisIn (Some 5) genesis (Some [(toyRoot 0, [0])]).

Definition toyCommit : option (Block Z) * option genesisErr * Db := genesis_Commit (fun c => Some [c]) 5 ∅ toyGenesis.

Lemma empty_toy : empty_db (∅ : Db).
Proof. intros k _ _. apply lookup_empty. Qed.

Lemma toy_off : off_chain [(toyRoot 0, [0])].
Proof. apply Forall_cons_2; [by left|apply Forall_nil_2]. Qed.

Lemma toy_opened : exists s, NewBlockChain toyCommit.2 = Ok (None, s) /\ inv toyNum (block_Hash genesis) (block_Hash genesis) s.
Proof.
  assert (db_ok toyNum (block_Hash genesis) toyCommit.2 (block_Hash genesis)) as Hd.
  { unfold toyCommit. rewrite (genesis_written (fun c => Some [c]) 5 ∅ toyGenesis [(toyRoot 0, [0])] [5]); [|vm_compute; reflexivity..].
    apply (genesis_db toyNum ∅ toyGenesis [(toyRoot 0, [0])] [5] empty_toy toy_off); [vm_compute; reflexivity|vm_compute; reflexivity|by vm_compute|].
    apply (toy_put ∅ 0). by right. }
  destruct (open_ok _ _ _ _ Hd) as (s & Hs & Hi & _). exists s. split; [exact Hs|exact Hi].
Qed.

Lemma toy_good : Forall (good toyNum) [b1; b2; c1; c2; c3].
Proof.
  assert (forall b : Block Z, returns b) as Hr by (intros b d st; eexists; left; reflexivity).
  repeat (apply Forall_cons_2; [split; [by vm_compute|vm_compute; reflexivity|vm_compute; reflexivity|vm_compute; reflexivity|apply Hr]|]). apply Forall_nil_2.
Qed.

Lemma toy_good_main : Forall (good toyNum) [b1; b2].
Proof. exact (Forall_take _ 2%nat _ toy_good). Qed.

(** The longer branch takes over: the head, the canonical hashes and the lookup entries
    move. *)
Definition toyRun : outcome stop (nat * option chainErr * (nat * option chainErr) * BlockChain Z) :=
  match NewBlockChain toyCommit.2 with
  | Ok (_, s) =>
      match InsertChain None (fun _ => 0) [b1; b2] [] s with
      | Ok (r1, s) => match InsertChain None (fun _ => 0) [c1; c2; c3] [] s with Ok (r2, s) => Ok (r1, r2, s) | _ => Panic end
      | _ => Panic
      end
  | _ => Panic
  end.

(** Head, canonical hashes, the blocks of two transactions, and whether a block of the
    branch that lost is still there. *)
Definition toyView (s : BlockChain Z) : option Hash * list Hash * list Hash * bool :=
  (block_Hash <$> currentBlock s, GetCanonicalHash (chainDb s) <$> [0; 1; 2; 3; 4],
   (fun tx => le_BlockHash (GetTxLookupEntry (chainDb s) (TransactionHash tx))) <$> [4; 3],
   bool_decide (is_Some (known (chainDb s) (block_Hash b2)))).

Example branch_wins : match toyRun with Ok (r1, r2, s) => Some (r1, r2, toyView s) | _ => None end =
  Some ((0%nat, None), (0%nat, None),
    (Some (block_Hash c3), [block_Hash genesis; block_Hash c1; block_Hash c2; block_Hash c3; zeroHash], [zeroHash; block_Hash c3], true)).
Proof. vm_compute. reflexivity. Qed.

(** [reorg] moves the markers before the block is written: when the node stops between the
    two, the next start finds no head block, and the chain is back at the genesis. *)
Definition toyCrash : outcome stop (option chainErr * BlockChain Z) :=
  match NewBlockChain toyCommit.2 with
  | Ok (_, s) =>
      match (_ ← InsertChain None (fun _ => 0) [b1; b2] []; _ ← InsertChain None (fun _ => 0) [c1; c2] []; reorg b2 c3) s with
      | Ok (_, s) => NewBlockChain (chainDb s)
      | _ => Panic
      end
  | _ => Panic
  end.

Example crash_resets : match toyCrash with Ok (e, s) => Some (e, toyView s) | _ => None end =
  Some (None, (Some (block_Hash genesis), [block_Hash genesis; block_Hash c1; block_Hash c2; block_Hash c3; zeroHash], [zeroHash; block_Hash c3], true)).
Proof. vm_compute. reflexivity. Qed.

Lemma chain_imports_witness : exists s n e s', NewBlockChain toyCommit.2 = Ok (None, s) /\
  InsertChain None (fun _ => 0) [b1; b2] [] s = Ok ((n, e), s').
Proof.
  destruct toy_opened as (s & Hs & Hi).
  destruct (chain_imports toyNum (block_Hash genesis) (block_Hash genesis) None (fun _ => 0) [b1; b2] [] s Hi toy_good_main) as (n & e & head' & s' & Hrun & _).
  exists s, n, e, s'. split; [exact Hs|exact Hrun].
Defined.

Lemma chain_restarts_witness : exists s s', NewBlockChain toyCommit.2 = Ok (None, s) /\ NewBlockChain (chainDb s) = Ok (None, s').
Proof.
  destruct toy_opened as (s & Hs & Hi).
  destruct (chain_restarts toyNum (block_Hash genesis) (block_Hash genesis) s Hi) as (s' & Hs' & _).
  exists s, s'. split; [exact Hs|exact Hs'].
Defined.

Lemma genesis_opens_witness : exists d s, genesis_Commit (fun c => Some [c]) 5 ∅ toyGenesis = (Some genesis, None, d) /\ NewBlockChain d = Ok (None, s).
Proof.
  destruct (genesis_opens (fun c => Some [c]) 5 toyNum ∅ toyGenesis [(toyRoot 0, [0])] [5] empty_toy) as (d & s & Hd & Hs & _).
  - reflexivity.
  - exact toy_off.
  - reflexivity.
  - vm_compute. reflexivity.
  - vm_compute. reflexivity.
  - by vm_compute.
  - apply (toy_put ∅ 0). right. reflexivity.
  - exists d, s. split; [exact Hd|exact Hs].
Defined.

Lemma canonical_line_witness : exists s f, NewBlockChain toyCommit.2 = Ok (None, s) /\ wp (GetBlockByNumber 0) (fun r _ => r = Some f) s.
Proof.
  destruct toy_opened as (s & Hs & Hi).
  destruct (canonical_line toyNum (block_Hash genesis) (block_Hash genesis) s Hi) as (f & Hf & _).
  exists s, (f 0). split; [exact Hs|]. apply (Hf 0). split; [lia|]. vm_compute. discriminate.
Defined.

End Toy.
